(* ===== verification/_CoqProject ===== *)
-Q . S2P
Prelude.v
CertModel.v
CrlCache.v
MemCache.v
CrlSource.v
Validity.v
PathValidator.v
Deferred.v
DeferredFacts.v
DeferredProps.v
JsString.v
Algorithms.v
NamedCurves.v
PdfContext.v
PdfContextProps.v
Timestamps.v
PdfVerify.v
PdfVerifyProps.v
PdfSvt.v
PdfSvtProps.v
PdfDocument.v
PdfDocumentProps.v
SigVerify.v
SvtTokens.v
XmlContext.v
XmlVerify.v
JoseVerify.v
SigVerifyProps.v
XmlVerifyProps.v
JoseVerifyProps.v
SvtTokensProps.v
SvtIssue.v
SvtIssueProps.v
SamlContext.v
SamlContextProps.v
Extensions.v
ExtensionsProps.v
Report.v
ReportProps.v
JqData.v
JqQueue.v
JqParam.v
JqConvert.v
JqUrl.v
JqAjax.v
JqAjaxProps.v
DocSearch.v
DocSearchProps.v
DocPage.v
DocPageProps.v
DocTable.v
DocTableProps.v
JqCore.v
JqCoreProps.v
JqEvent.v
JqEventProps.v
JqAttr.v
JqAttrProps.v
JqDom.v
JqRegex.v
JqSelector.v
JqMatcher.v
JqMatcherFacts.v
JqMatcherProps.v
JqOrder.v
JqTraverse.v
JqTraverseProps.v
