(* ===== verification/Prelude.v ===== *)
(** * Verification of the signature validation library

    The repository (sig-validation-base) is a Java library that validates certificates
    and signatures, published with a documentation site whose pages run JavaScript.
    This development models code of both: the validation of certificates under
    src/cert-validation/ with the extensions of src/cert-extensions/, of PDF documents
    under src/sigval-pdf/ and src/sigval-commons/, of XML signatures under src/sigval-xml/
    and of JSON signatures under src/sigval-jose/, and the scripts under
    src/docs/javadoc/.  The same scripts are kept once per documented module, byte for
    byte; the definitions are translated from the copies in
    src/docs/javadoc/cert-extensions/.  Most of the library's own logic is
    Java and most of its JavaScript text is generated or third-party (jQuery 3.5.1),
    both are listed in the components of the manifest.

    ** The Java part

    A path is built and validated by the validator of paths, which asks the validity
    checker for the status of each certificate; the checker asks the CRL and the OCSP
    checker, which fetch CRLs through the cache.  A PDF document is cut into revisions;
    each of its signatures is verified, its signer is given to the validator of paths, and a
    policy decides on what was found, unless a signature validation token answers for it.
    The signatures of an XML document and of a JWS go the same way, with what XAdES
    properties or an unprotected header say of their certificate and their times.
    - [CertModel]: the certificate, CRL and name attributes the code reads.
    - [CrlCache]: CRLCacheImpl.java.  The state is the record list, the JSON file and
      the two directories; each operation is a step of a state monad with exceptions.
      Theorems: the invariant of every reachable cache, freshness of what getCRL
      returns, what recache keeps, and the duplicates that a refresh leaves.
    - [MemCache]: InMemoryCRLCache.java, with the traversal of a HashMap that throws when
      the map changed under it: what a recache does, and a failed refresh that stays.
    - [CrlSource]: an interface of the two caches, the traversal of distribution points
      against it, and for both caches how fresh the CRL is that a certificate gets.
    - [Validity]: ValidationStatus, CRLValidityChecker, OCSPCertificateVerifier,
      BasicValidityPathChecker and BasicCertificateValidityChecker.  The mutual
      recursion through responder certificates has fuel; [checkValidity_terminates]
      says which fuel is enough, [checkValidity_unbounded] that none is in general.
      Theorems: a VALID answer has a derivation of evidence, each CRL, response and date of
      which was obtained or read during the check; REVOKED wins, a revoked answer without a
      reason, and what an unsigned answer can do with threads.
    - [PathValidator]: BasicPathBuilder, CertificatePathValidator, its error object and
      StatusCheckingCertificateValidatorImpl.  Theorems: a validated path was checked,
      has evidence, and a path with a bad status is rejected.
    - [PdfContext], [PdfContextProps]: DefaultPDFSignatureContext and the values it
      compares.  A document is cut at its end markers and nowhere else; a signature that
      covers the whole document has only moved safe objects after it; what added
      objects can still do.
    - [Algorithms]: the registries of digest and JWS algorithms, and the two digests that
      the registry mixes up.
    - [NamedCurves]: NamedCurveRegistry, PublicKeyType and GeneralCMSUtils.getPkParams: which
      curves are found, which parameters a key has, and that a key of another type has no
      type at all.
    - [Timestamps]: TimeStamp and its policy, and the decision of the PKIX policies of the
      three formats, which differ only in the result they read it from.
    - [PdfVerify], [PdfVerifyProps]: the signature policies of PDF and
      PDFSingleSignatureValidatorImpl.  From a result with the status SUCCESS back to the
      signature value, the certificate hash, the revisions and the certificate path; the
      path is the one of [PathValidator], and revocation after a timestamp.
    - [PdfSvt], [PdfSvtProps]: SVAUtils, PDFSVTDocTimeStamp and PDFSVTValidator.  The sort
      by date gives what a search for the latest date gives; what is not asked of a token,
      and which tokens the registry refuses.
    - [PdfDocument], [PdfDocumentProps]: SVTenabledPDFDocumentSigVerifier.  One result for
      each signature, and from the conclusion of a document to the evidence for its
      signers, through the policy, the path validator and the status checkers.
    - [SigVerify], [SigVerifyProps]: what XML and JSON signatures share: ExtendedSigValResult,
      the abstract, the basic and the PKIX policy (a type class), the check of the signer,
      the timestamps, the result by a token and the conclusion for a document.
    - [XmlContext], [XmlVerify], [XmlVerifyProps]: DefaultXMLSignatureContext,
      XAdESObjectParser, XMLSignatureElementValidatorImpl and XMLSignedDocumentValidator;
      the identifiers that are registered while references are read are a state.  From a
      complete success to the value, the XAdES digest and the path of each signature and to
      the reference that covers the document.
    - [JoseVerify], [JoseVerifyProps]: JOSESignedDocumentValidator and
      JOSESignatureDataValidatorImpl, from the bytes of a JWS to the conclusion; and the
      paths that the certificate validator rejects but XML and JSON signatures pass with.
    - [SvtTokens], [SvtTokensProps]: the tokens of XML and JSON signatures; which one is
      chosen, what was asked of it and what is compared.
    - [Extensions], [ExtensionsProps]: the certificate extensions of src/cert-extensions
      over the ASN.1 objects of BouncyCastle, a class with laws.  What each reads of its own
      encoding; the locations of disclosure statements are lost.
    - [Report], [ReportProps]: AbstractSigValReportGenerator and ValidationObjectProcessor.
      Every reference of a report is resolved by it; what the indication of a signature
      says; the best time is the earliest, as long as no difference overflows.
    - [SvtIssue], [SvtIssueProps]: AbstractSVTSigValClaimsIssuer and the issuers of the three
      formats, SVTUtils and JOSEDocumentSVTIssuer.  The claims that are issued are the ones
      that the validators compare a signature with; an extended JWS is read again with the
      new token and is otherwise unchanged, and only signatures that passed get tokens.
    - [SamlContext], [SamlContextProps]: the XML data of the authentication context
      extension as trees; a context is read back from the document it builds.
    Cryptography, BouncyCastle, PDFBox, Santuario, JAXB, Jackson, Nimbus, the PKIX builder of the JDK, the clock, HTTP
    and the JSON library are parameters, or records of what their calls answer; where a
    theorem relies on them it says so in a hypothesis.

    ** The JavaScript part

    The pages search their index (search.js, search-page.js), sort and filter tables
    (script.js) and stand on jQuery.
    - [JsString]: the functions on texts and on objects used as tables.
    - [Deferred], [DeferredFacts], [DeferredProps]: jQuery.Callbacks, Deferred, then,
      pipe, when over a heap with a queue of timers; functions of the user are programs
      that may call back.  A deferred settles once; what a resolution calls, and when.
    - [JqData], [JqQueue]: data objects on owners, data-* attributes, queues and the
      promise of an emptied queue; a queue is served to its end when its functions return.
    - [JqParam], [JqConvert], [JqUrl], [JqAjax], [JqAjaxProps]: requests.  Serialization
      and its inverse, the choice and the typed conversion of responses, header tables,
      URLs; then prefilters, transports, the jqXHR object and [done], whose steps refine
      an abstract life cycle, with the counter of active requests.
    - [JqCore], [JqCoreProps]: types of values, arrays, sets of elements, and extend over
      a heap: a deep extend is a merge of trees in place that shares nothing with its
      source.
    - [JqEvent], [JqEventProps]: handlers with namespaces and selectors, on, one, off,
      dispatch and trigger, again with handlers that are programs, which may trigger
      events in turn; the leverage of native focus, blur and click with its controllers, and
      the capture of focus for browsers without focusin.  What the browser is (nodes,
      methods, the native events they fire) is the class [Browser].  Well-formedness is an
      invariant of every step, proved with a frame for what deeper levels leave alone; a
      dispatch calls what was attached in order; off undoes on.
    - [JqAttr], [JqAttrProps]: attributes, the class methods and values of form controls;
      the class methods, which search and cut texts, implement a list of tokens.
    - [JqDom]: the tree of a document with the links that scripts follow, and texts as
      UTF-16 code units.
    - [JqRegex], [JqSelector]: a backtracking matcher for the regular expressions of
      selectors and [tokenize] over it, which always ends and whose tokens spell the
      selector, with its cache or without.
    - [JqMatcher], [JqMatcherFacts], [JqMatcherProps]: compiled selectors.  Combinators
      share one array among the nodes they pass; a compiled selector is proved to answer
      the meaning of its tokens on the tree, for elements in any order and after any
      earlier runs.  The counts that :nth-last-child caches are shown wrong.
    - [JqOrder]: contains, the two comparisons of nodes and uniqueSort.  Both comparisons
      order the nodes of a document as a walk over its tree does, whichever the browser
      lets the library use.
    - [JqTraverse], [JqTraverseProps]: filter, is, closest, index, add and the methods from
      parent to contents.  They give the nodes they lead to, each once, in the order of the
      document or in its reverse.
    - [DocSearch], [DocSearchProps]: search.js.  Matchers are made from a term and run
      by a matcher of the few patterns they use; bounds of a match, ranking, what is
      highlighted.
    - [DocPage], [DocPageProps]: search-page.js.  The page is a record, its handlers are
      programs over it; the URL restores a search and the tabs stay consistent.
    - [DocTable], [DocTableProps]: script.js.  Sorting a table, keys of numbers, stripes,
      categories and tabs, the label of a copy button.

    ** Conventions

    A text is a list of bytes, but for selectors and documents ([JqDom]): JavaScript's are
    UTF-16, so the theorems read for ASCII text; comparisons of texts agree with
    JavaScript's there.  Numbers of the scripts are
    integers; the scores of a search are in twentieths, which is exact.  Names that every
    object inherits (toString and the like) are not used as keys, data types or header
    names, except in [JqData], where they are the subject of a finding.  Namespaces of
    events have no characters that mean something in a pattern, and the arguments of nth-child
    are integers of any size.  The converters and the filter of a request are functions that
    do not call the library; the files of a CRL cache can be read and written.  Exceptions are
    values of [outcome]; a JavaScript exception carries [JsError].  Fuel: the loops that
    are not structural take fuel and stop without it; for each a theorem gives the fuel
    that is enough ([find_loop] the length of the entry, [inspect] the number of data
    types, [remove_all] the length of the text, [extend_into] the depth of the source,
    [chunks] the number of cells, [revisions] the length of the document, [tokenize] the length of
    the selector, [path] the number of nodes, [parents] the rank of the signer; the nested calls
    of events have the size of the stack, [levels], and the exception of a full one) or shows that the code does not end ([checkValidity_unbounded],
    [ordering_unbounded], [extend_cycle]).  The sort of the JDK is [small_sort], which is what
    it does with less than 32 elements.

    ** Not modelled

    The texts for display of src/cert-extensions, the extension of an XML document with
    tokens, document timestamps (requests to a service and PDFBox), the library that makes a
    token and that validates it (it is not in the repository), the XML beans that hold a
    report; HTTP connectors (input and output only).  Of
    jQuery: of the selector engine the filters of sets (positional pseudo-classes), :not
    and :has, the search below a context and the queries of the browser it prefers to its
    own, so the traversing methods take nodes, functions and selectors to filter with, but no
    selector to search the document with; manipulation of the document, styles and animation,
    properties of elements, the browser transports; of its events the extra parameters of a
    trigger, the copied properties of native events and plain objects with handlers; of the
    scripts the
    widget of the search menu, scroll positions and the loading of files.  jQuery UI,
    Migrate, 3.3.1 and JSZip are other vendored scripts. *)
From Stdlib Require Import ZArith Lia Ascii String.
From stdpp Require Import base gmap strings list relations.

(** ** Exceptions

    Java code signals errors with exceptions; a value of [exn] names the
    class of the exception and carries its message.  JavaScript code of the
    documentation site throws values; they are wrapped in [JsError]. *)
Inductive exn :=
  | IOException (msg : string)
  | RuntimeException (msg : string)
  | NullPointerException
  | IllegalArgumentException (msg : string)
  | ConcurrentModificationException
  | IndexOutOfBounds
  | SecurityException (msg : string)
  | CertPathBuilderException (msg : string)
  | XMLSignatureException (msg : string)
  | CertificateException (msg : string)
  | JsError (msg : string).

#[export] Instance exn_eq_dec : EqDecision exn.
Proof. solve_decision. Defined.

Inductive outcome (A : Type) :=
  | Ret (a : A)
  | Throw (e : exn).
Arguments Ret {A} a.
Arguments Throw {A} e.

#[export] Instance outcome_ret : MRet outcome := @Ret.
#[export] Instance outcome_bind : MBind outcome := λ A B f m,
  match m with Ret a => f a | Throw e => Throw e end.
#[export] Instance outcome_fmap : FMap outcome := λ A B f m,
  match m with Ret a => Ret (f a) | Throw e => Throw e end.

Definition is_Ret {A} (o : outcome A) : bool :=
  match o with Ret _ => true | Throw _ => false end.

(** ** A state monad with exceptions

    Updates made before an exception persist, as in the source. *)
Definition M (S A : Type) : Type := S → outcome A * S.

#[export] Instance M_ret S : MRet (M S) := λ A a s, (Ret a, s).
#[export] Instance M_bind S : MBind (M S) := λ A B f m s,
  match m s with
  | (Ret a, s') => f a s'
  | (Throw e, s') => (Throw e, s')
  end.

Section Monad.
Context {S : Type}.

Definition raise {A} (e : exn) : M S A := λ s, (Throw e, s).
Definition gets {A} (f : S → A) : M S A := λ s, (Ret (f s), s).
Definition modify (f : S → S) : M S unit := λ s, (Ret tt, f s).
Definition lift {A} (o : outcome A) : M S A := λ s, (o, s).
Definition try_catch {A} (m : M S A) (h : exn → M S A) : M S A := λ s,
  match m s with
  | (Ret a, s') => (Ret a, s')
  | (Throw e, s') => h e s'
  end.
Definition when (b : bool) (m : M S unit) : M S unit :=
  if b then m else mret tt.
(** A reference that may be [null]: using it throws when it is. *)
Definition deref {A} (o : option A) : M S A :=
  match o with Some a => mret a | None => raise NullPointerException end.
End Monad.

(** ** The same monad for code that may recurse without bound

    [None]: the fuel given was not enough. *)
Definition MF (S A : Type) : Type := S → option (outcome A * S).
#[export] Instance MF_ret S : MRet (MF S) := λ A a s, Some (Ret a, s).
#[export] Instance MF_bind S : MBind (MF S) := λ A B f m s,
  match m s with
  | Some (Ret a, s') => f a s'
  | Some (Throw e, s') => Some (Throw e, s')
  | None => None
  end.
Definition run {S A} (m : M S A) : MF S A := λ s, Some (m s).
Definition mf_raise {S A} (e : exn) : MF S A := λ s, Some (Throw e, s).
(** Runs a computation and returns what it did instead of throwing. *)
Definition attempt {S A} (m : M S A) : M S (outcome A) := λ s,
  match m s with (o, s') => (Ret o, s') end.
Definition mf_attempt {S A} (m : MF S A) : MF S (outcome A) := λ s,
  match m s with Some (o, s') => Some (Ret o, s') | None => None end.

Declare Scope sv_scope.
Delimit Scope sv_scope with sv.
Open Scope sv_scope.
Notation "'TRY' m 'CATCH' e => h" := (try_catch m (λ e, h))
  (at level 10, m at level 100, e binder, h at level 200) : sv_scope.

(** ** Programs that keep an invariant

    Whatever a program answers, the state it leaves has the property that the state before
    had.  [inv_step] takes a program apart; the facts about its parts come from the hint
    database [keeps]. *)
Definition keeps {S A} (P : S → Prop) (m : M S A) : Prop := ∀ s, P s → P (snd (m s)).
Definition keepsF {S A} (P : S → Prop) (m : MF S A) : Prop := ∀ s o s', P s → m s = Some (o, s') → P s'.
Section Keeps.
Context {S : Type} (P : S → Prop).
Lemma inv_bind {A B} (m : M S A) (f : A → M S B) : keeps P m → (∀ a, keeps P (f a)) → keeps P (m ≫= f).
Proof.
  intros Hm Hf s Hs. unfold mbind, M_bind. specialize (Hm s Hs). destruct (m s) as [[a|e] s']; [by apply Hf|done].
Qed.
Lemma inv_ret {A} (a : A) : keeps P (mret a : M S A).
Proof. by intros s Hs. Qed.
Lemma inv_modify f : (∀ s, P s → P (f s)) → keeps P (modify f).
Proof. intros Hf s Hs. by apply Hf. Qed.
Lemma inv_gets {A} (f : S → A) : keeps P (gets f).
Proof. by intros s Hs. Qed.
Lemma inv_raise {A} e : keeps P (raise e : M S A).
Proof. by intros s Hs. Qed.
Lemma inv_lift {A} (o : outcome A) : keeps P (lift o : M S A).
Proof. by intros s Hs. Qed.
Lemma inv_when b (m : M S unit) : keeps P m → keeps P (when b m).
Proof. intros Hm. destruct b; [exact Hm|apply inv_ret]. Qed.
Lemma inv_attempt {A} (m : M S A) : keeps P m → keeps P (attempt m).
Proof. intros Hm s Hs. unfold attempt. specialize (Hm s Hs). by destruct (m s). Qed.
Lemma invF_bind {A B} (m : MF S A) (f : A → MF S B) : keepsF P m → (∀ a, keepsF P (f a)) → keepsF P (m ≫= f).
Proof.
  intros Hm Hf s o s' Hs. unfold mbind, MF_bind. destruct (m s) as [[[a|e] s1]|] eqn:E; [| |done].
  - intros H. eapply Hf; [|exact H]. by eapply Hm.
  - intros [= _ <-]. by eapply Hm.
Qed.
Lemma invF_ret {A} (a : A) : keepsF P (mret a : MF S A).
Proof. intros s o s' Hs [= _ <-]. done. Qed.
Lemma invF_raise {A} e : keepsF P (mf_raise e : MF S A).
Proof. intros s o s' Hs [= _ <-]. done. Qed.
Lemma invF_run {A} (m : M S A) : keeps P m → keepsF P (run m).
Proof. intros Hm s o s' Hs [= E]. specialize (Hm s Hs). by rewrite E in Hm. Qed.
Lemma invF_attempt {A} (m : MF S A) : keepsF P m → keepsF P (mf_attempt m).
Proof.
  intros Hm s o s' Hs. unfold mf_attempt. destruct (m s) as [[r s1]|] eqn:E; [|done]. intros [= _ <-]. by eapply Hm.
Qed.
End Keeps.
Create HintDb keeps.
#[export] Hint Resolve inv_ret inv_gets inv_raise inv_lift invF_ret invF_raise : keeps.
Ltac inv_step :=
  first [ progress auto with keeps
        | apply inv_bind; [|intros ?]
        | apply inv_when
        | apply inv_attempt
        | apply invF_bind; [|intros ?]
        | apply invF_attempt
        | apply invF_run
        | match goal with
          | |- keeps _ (match ?x with _ => _ end) => destruct x
          | |- keepsF _ (match ?x with _ => _ end) => destruct x
          end ].

(** ** Java [long] arithmetic: 64-bit two's complement wrap-around. *)
Definition wrap64 (z : Z) : Z := (z + 2^63) `mod` 2^64 - 2^63.

Lemma wrap64_small z : (- 2^63 <= z < 2^63)%Z → wrap64 z = z.
Proof. unfold wrap64. intros. rewrite Z.mod_small; lia. Qed.

(** ** Strings (ASCII part of the library functions the sources use) *)
Definition ascii_lower (c : ascii) : ascii :=
  let n := Ascii.nat_of_ascii c in
  if (65 <=? n) && (n <=? 90) then Ascii.ascii_of_nat (n + 32) else c.
Definition ascii_upper (c : ascii) : ascii :=
  let n := Ascii.nat_of_ascii c in
  if (97 <=? n) && (n <=? 122) then Ascii.ascii_of_nat (n - 32) else c.
Fixpoint str_map (f : ascii → ascii) (s : string) : string :=
  match s with
  | EmptyString => EmptyString
  | String c s' => String (f c) (str_map f s')
  end.
Definition toLowerCase : string → string := str_map ascii_lower.
Definition toUpperCase : string → string := str_map ascii_upper.
Definition startsWith (p s : string) : bool := String.prefix p s.
Definition equalsIgnoreCase (a b : string) : bool :=
  String.eqb (toLowerCase a) (toLowerCase b).

Lemma equalsIgnoreCase_refl a : equalsIgnoreCase a a = true.
Proof. apply String.eqb_refl. Qed.

Lemma list_ascii_app a b :
  list_ascii_of_string (a ++ b) = (list_ascii_of_string a ++ list_ascii_of_string b)%list.
Proof. induction a; simpl; [done|by f_equal]. Qed.

Lemma str_app_inj_r s a b : (a ++ s = b ++ s)%string → a = b.
Proof.
  intros H. apply (f_equal list_ascii_of_string) in H. rewrite !list_ascii_app in H.
  apply app_inj_2 in H as [H _]; [|done].
  by rewrite <- (string_of_list_ascii_of_string a), H, string_of_list_ascii_of_string.
Qed.

(** ** Lists *)
(** [stream().filter(p).findFirst()] *)
Definition findFirst {A} (p : A → bool) (l : list A) : option A := List.find p l.

Section Lists.
Context {A : Type}.
Implicit Types (p : A → bool) (l : list A).

Lemma findFirst_Some p l a : findFirst p l = Some a → p a = true ∧ a ∈ l.
Proof. intros H. apply List.find_some in H as [? ?]. by rewrite list_elem_of_In. Qed.

Lemma findFirst_None p l : findFirst p l = None ↔ ∀ a, a ∈ l → p a = false.
Proof.
  split.
  - intros H a Ha. eapply List.find_none; [exact H|]. by apply list_elem_of_In.
  - intros H. induction l as [|b l IH]; simpl; [done|].
    rewrite H by (left). apply IH. intros. apply H. by right.
Qed.

Lemma findFirst_app p l1 l2 :
  findFirst p (l1 ++ l2) =
  match findFirst p l1 with Some a => Some a | None => findFirst p l2 end.
Proof. induction l1 as [|a l1 IH]; simpl; [done|]. by destruct (p a). Qed.

Lemma filter_length_mono p q l :
  (∀ a, p a = true → q a = true) → length (List.filter p l) ≤ length (List.filter q l).
Proof.
  intros H. induction l as [|a l IH]; simpl; [lia|]. specialize (H a).
  destruct (p a); [rewrite H by done; simpl; lia|]. destruct (q a); simpl; lia.
Qed.
Lemma filter_length_lt p q l a :
  (∀ a, p a = true → q a = true) → a ∈ l → p a = false → q a = true →
  length (List.filter p l) < length (List.filter q l).
Proof.
  intros H Ha Hp Hq. induction l as [|b l IH]; [by apply elem_of_nil in Ha|]. simpl.
  apply elem_of_cons in Ha as [<-|Ha].
  - rewrite Hp, Hq. simpl. pose proof (filter_length_mono p q l H). lia.
  - specialize (IH Ha). specialize (H b). destruct (p b); [rewrite H by done; simpl; lia|].
    destruct (q b); simpl; lia.
Qed.

Lemma filter_elem p l a : a ∈ List.filter p l ↔ a ∈ l ∧ p a = true.
Proof. rewrite !list_elem_of_In. apply List.filter_In. Qed.
Lemma NoDup_list_filter (p : A → bool) l : NoDup l → NoDup (List.filter p l).
Proof.
  induction 1 as [|x l Hx _ IH]; simpl; [constructor|]. destruct (p x); [|done]. constructor; [|done].
  by intros [? _]%filter_elem.
Qed.
Lemma filter_filter (p q : A → bool) l :
  List.filter p (List.filter q l) = List.filter (λ x, q x && p x) l.
Proof. induction l as [|x l IH]; simpl; [done|]. destruct (q x); simpl; by rewrite IH. Qed.
Lemma filter_all (p : A → bool) l : (∀ x, x ∈ l → p x = true) → List.filter p l = l.
Proof.
  induction l as [|x l IH]; intros H; simpl; [done|]. rewrite (H x) by left. f_equal. apply IH.
  intros y Hy. apply H. by right.
Qed.
Lemma filter_none (p : A → bool) l : (∀ x, x ∈ l → p x = false) → List.filter p l = [].
Proof.
  induction l as [|x l IH]; intros H; simpl; [done|]. rewrite (H x) by left. apply IH. intros y Hy. apply H. by right.
Qed.
Lemma NoDup_map_elem {B} (f : A → B) l x y : NoDup (map f l) → x ∈ l → y ∈ l → f x = f y → x = y.
Proof.
  induction l as [|z l IH]; simpl; [by intros _ ?%elem_of_nil|]. intros [Hz Hnd]%NoDup_cons.
  assert (H : ∀ w, w ∈ l → f w ≠ f z).
  { intros w Hw E. apply Hz. rewrite <- E. change (f w ∈ f <$> l). by apply list_elem_of_fmap_2. }
  intros [->|Hx]%elem_of_cons [->|Hy]%elem_of_cons E; [done| | |by apply IH].
  - by destruct (H y Hy).
  - by destruct (H x Hx).
Qed.
End Lists.

(** Rule induction for reachability: an invariant of the steps holds in every
    state reachable from one where it holds. *)
Lemma rtc_invariant {A} (R : A → A → Prop) (P : A → Prop) x y :
  P x → (∀ a b, P a → R a b → P b) → rtc R x y → P y.
Proof. intros Hx Hstep H. induction H; eauto. Qed.

(** ** Automation

    [mstep] unfolds one layer of the state monad; [mrun] runs a monadic
    computation in the goal and hypotheses as far as it evaluates. *)
Ltac mstep :=
  unfold mbind, M_bind, mret, M_ret, raise, gets, modify, lift, when, deref,
    try_catch, attempt, outcome_ret, outcome_bind, MF_ret, MF_bind, run, mf_raise,
    mf_attempt in *.
Ltac mrun := repeat (progress (mstep; simpl in *; simplify_eq)).

(** Case analysis on the scrutinee of the first [match] in a hypothesis or
    in the goal, keeping the equation. *)
Ltac case_match_in H :=
  match type of H with
  | context [match ?x with _ => _ end] => destruct x eqn:?
  end.
Ltac split_match H := repeat (case_match_in H; simpl in *; simplify_eq).

#[global] Arguments nth_error : simpl never.

Create HintDb sigval.
#[export] Hint Resolve equalsIgnoreCase_refl : sigval.
