(* ===== verification/CertModel.v ===== *)
(** * Certificates and revocation lists as the validation code observes them

    [X509Certificate] and [X509CRL] are JDK classes.  The records below keep
    the attributes the sources under cert-validation/ read, a field per
    accessor; [encoded] stands for the DER encoding that [equals] compares; names are numbers.
    The signature check [verify(PublicKey)] is cryptography of the JDK and is a
    parameter of the models that use it. *)
From Stdlib Require Import ZArith Lia Ascii String.
From stdpp Require Import base gmap strings list.
From S2P Require Import Prelude.

Abbreviation PublicKey := Z (only parsing).
(** [java.util.Date], in milliseconds. *)
Abbreviation Date := Z (only parsing).

(** [GeneralName]: tag number and, for tag 6 (URI), the string. *)
Record GeneralName := mkGeneralName { tagNo : nat; gn_string : string }.
Definition uniformResourceIdentifier : nat := 6.

(** The name of a distribution point: absent, relative to the CRL issuer
    (which [GeneralNames.getInstance] refuses), or a list of names. *)
Inductive DistributionPointName :=
  | NoName
  | RelativeName
  | FullName (names : list GeneralName).

Record DistributionPoint := mkDistributionPoint {
  distributionPoint : DistributionPointName;
  hasReasons : bool;
  hasCRLIssuer : bool
}.

(** The parts of an extension lookup: the DER value of the extension can be
    unreadable ([IOException]), absent, or decoded. *)
Inductive ext (A : Type) := ExtError | ExtAbsent | ExtValue (a : A).
Arguments ExtError {A}.
Arguments ExtAbsent {A}.
Arguments ExtValue {A} a.

(** One [AccessDescription] of the authority information access extension. *)
Record AccessDescription := mkAccessDescription {
  isOcspMethod : bool;
  accessLocation : GeneralName
}.

Record X509Certificate := mkCert {
  encoded : Z;
  issuerName : Z;
  serialNumber : Z;
  publicKey : PublicKey;
  notBefore : Date;
  notAfter : Date;
  basicConstraints : Z;
  keyUsage : option (list bool);
  extendedKeyUsage : option (list string);
  crlDistributionPoints : ext (list DistributionPoint);
  authorityInfoAccess : ext (list AccessDescription);
  ocspNoCheck : ext unit
}.

(** [Certificate.equals] compares the encodings. *)
Definition cert_eqb (c d : X509Certificate) : bool := Z.eqb (encoded c) (encoded d).

(** [java.security.cert.CRLReason] *)
Inductive CRLReason :=
  | UNSPECIFIED | KEY_COMPROMISE | CA_COMPROMISE | AFFILIATION_CHANGED | SUPERSEDED
  | CESSATION_OF_OPERATION | CERTIFICATE_HOLD | UNUSED | REMOVE_FROM_CRL
  | PRIVILEGE_WITHDRAWN | AA_COMPROMISE.

(** An entry of a CRL: the certificate it is about is known by its issuer (the issuer of the
    CRL, or the one that an indirect CRL names) and its serial number. *)
Record X509CRLEntry := mkEntry {
  revokedIssuer : Z;
  revokedSerial : Z;
  revocationDate : Date;
  revocationReason : option CRLReason
}.

Record X509CRL := mkCRL {
  crl_signature : Z;
  crl_nextUpdate : option Date;
  crl_entries : list X509CRLEntry
}.

(** [CertUtils.getOCSPUrl] *)
Definition getOCSPUrl (certificate : X509Certificate) : option string :=
  match authorityInfoAccess certificate with
  | ExtError => None
  | ExtAbsent => None
  | ExtValue accessDescriptions =>
      gn_string <$>
      head (map accessLocation
              (List.filter (λ ad, Nat.eqb (tagNo (accessLocation ad)) uniformResourceIdentifier)
                 (List.filter isOcspMethod accessDescriptions)))
  end.

(** [CertUtils.getCrlDistPoint] *)
Definition getCrlDistPoint (certificate : X509Certificate) : option (list DistributionPoint) :=
  match crlDistributionPoints certificate with
  | ExtError => None
  | ExtAbsent => None
  | ExtValue dps => Some dps
  end.

(** [CertUtils.isOCSPNocheckExt] *)
Definition isOCSPNocheckExt (certificate : X509Certificate) : bool :=
  match ocspNoCheck certificate with
  | ExtError => false
  | ExtAbsent => false
  | ExtValue _ => true
  end.

(** [CertUtils.isCurrentlyValid(certificate, validationTime)] *)
Definition isCurrentlyValid (certificate : X509Certificate) (validationTime : Date) : bool :=
  let notYetValid := Z.ltb validationTime (notBefore certificate) in
  let expired := Z.ltb (notAfter certificate) validationTime in
  negb notYetValid && negb expired.

Lemma isCurrentlyValid_spec c t :
  isCurrentlyValid c t = true ↔ (notBefore c <= t <= notAfter c)%Z.
Proof. unfold isCurrentlyValid. rewrite andb_true_iff, !negb_true_iff, !Z.ltb_ge. lia. Qed.

Lemma cert_eqb_refl c : cert_eqb c c = true.
Proof. apply Z.eqb_refl. Qed.
Lemma cert_eqb_sym c d : cert_eqb c d = cert_eqb d c.
Proof. apply Z.eqb_sym. Qed.
Lemma cert_eqb_trans c d e : cert_eqb c d = true → cert_eqb d e = true → cert_eqb c e = true.
Proof. unfold cert_eqb. rewrite !Z.eqb_eq. congruence. Qed.

#[export] Hint Resolve cert_eqb_refl : sigval.
