(* ===== verification/CrlCache.v ===== *)
(** * The file backed CRL cache

    Model of cert-validation/.../crl/impl/CRLCacheImpl.java.  The state holds
    the in-memory record list, the JSON file it is persisted to and the two
    directories of CRL files; the environment provides the clock and the
    network.  Reading the clock and downloading are counted, so that two reads
    in one call may differ.  The file system works: a file that exists can be read, and
    writing, copying and deleting do not fail. *)
From Stdlib Require Import ZArith Lia Ascii String.
From stdpp Require Import base gmap strings list relations.
From S2P Require Import Prelude CertModel.

(** [CRLCacheRecord] *)
Record CRLCacheRecord := mkRecord {
  lastCache : Z;
  nextUpdate : Z;
  url : string;
  fileName : string
}.

(** [CRLInfo] *)
Record CRLInfo := mkCRLInfo { crl : X509CRL; location : string }.

(** The JSON cache file: not readable ([canRead] is false), unparsable, or the
    serialised record list. *)
Inductive CacheFile := Unreadable | Malformed | Records (l : list CRLCacheRecord).

Record CRLCache := mkCache {
  crlCacheRecordList : option (list CRLCacheRecord);
  crlCacheFile : CacheFile;
  cacheDir : gmap string string;
  tempDir : gmap string string;
  clockReads : nat;
  downloads : nat
}.

Definition set_records l s := mkCache (Some l) (crlCacheFile s) (cacheDir s) (tempDir s) (clockReads s) (downloads s).
Definition set_file f s := mkCache (crlCacheRecordList s) f (cacheDir s) (tempDir s) (clockReads s) (downloads s).
Definition set_cacheDir d s := mkCache (crlCacheRecordList s) (crlCacheFile s) d (tempDir s) (clockReads s) (downloads s).
Definition set_tempDir d s := mkCache (crlCacheRecordList s) (crlCacheFile s) (cacheDir s) d (clockReads s) (downloads s).
Definition tick_clock s := mkCache (crlCacheRecordList s) (crlCacheFile s) (cacheDir s) (tempDir s) (S (clockReads s)) (downloads s).
Definition tick_download s := mkCache (crlCacheRecordList s) (crlCacheFile s) (cacheDir s) (tempDir s) (clockReads s) (S (downloads s)).

(** What the cache uses of its environment: [clock n] is the n-th reading of
    the system clock, [downloadCrl n url] the answer of the n-th call of the
    data loader, [generateCRL] the JDK's CRL parser, [isURI] whether
    [new URI(url)] succeeds, [sha1Name] the SHA-1 digest of a URL in base 32. *)
Record Env := mkEnv {
  clock : nat → Z;
  downloadCrl : nat → string → outcome string;
  generateCRL : string → option X509CRL;
  isURI : string → bool;
  sha1Name : string → string
}.

(** ** The choice of a distribution point *)
(** The names of a distribution point: [GeneralNames.getInstance(dp
    .getDistributionPoint().getName())] *)
Definition dp_names (dp : DistributionPoint) : outcome (list GeneralName) :=
  match distributionPoint dp with
  | NoName => Throw NullPointerException
  | RelativeName => Throw (IllegalArgumentException "unknown object in factory")
  | FullName names => Ret names
  end.

(** State of the collecting loop of [getCRL(CRLDistPoint)]. *)
Record Scan := mkScan {
  approvedUriList : list string;
  crlIssuerPresent : bool;
  reasonsPresent : bool
}.

Definition scan_uri (dp : DistributionPoint) (st : Scan) (uri : string) : Scan :=
  if negb (hasCRLIssuer dp) && negb (hasReasons dp)
  then mkScan (approvedUriList st ++ [uri]) (crlIssuerPresent st) (reasonsPresent st)
  else mkScan (approvedUriList st) (hasCRLIssuer dp || crlIssuerPresent st)
              (hasReasons dp || reasonsPresent st).

Fixpoint scan_points (dps : list DistributionPoint) (st : Scan) : outcome Scan :=
  match dps with
  | [] => Ret st
  | dp :: dps' =>
      names ← dp_names dp;
      let uriNameList :=
        map gn_string (List.filter (λ g, Nat.eqb (tagNo g) uniformResourceIdentifier) names) in
      scan_points dps' (fold_left (scan_uri dp) uriNameList st)
  end.

(** [getCRL(CRLDistPoint)], over [getCRL(String)]: both caches have the same text. *)
Definition getCRL_policy {S} (getCRL : string → M S CRLInfo)
    (crlDistributionPointExt : option (list DistributionPoint)) : M S CRLInfo :=
  dps ← deref crlDistributionPointExt;
  st ← lift (scan_points dps (mkScan [] false false));
  if bool_decide (approvedUriList st = []) && (crlIssuerPresent st) then
    raise (IOException "No acceptable CRL distribution point found. Declaration of crlIssuer is not allowed")
  else if bool_decide (approvedUriList st = []) && reasonsPresent st then
    raise (IOException "No acceptable CRL distribution point found. Declaration of reason is not allowed")
  else
    let httpUrl := findFirst (λ s, startsWith "http" (toLowerCase s)) (approvedUriList st) in
    let ldapUrl := findFirst (λ s, startsWith "ldap" (toLowerCase s)) (approvedUriList st) in
    let attempt_ldap :=
      match ldapUrl with
      | Some u => TRY getCRL u CATCH _ =>
          raise (IOException "No valid CRL could be obtained from the provided CRL distribution point")
      | None =>
          raise (IOException "No valid CRL could be obtained from the provided CRL distribution point")
      end in
    match httpUrl with
    | Some u => TRY getCRL u CATCH _ => attempt_ldap
    | None => attempt_ldap
    end.

Section Cache.
Context (env : Env) (recacheGracePeriod : Z).

Definition now : M CRLCache Z := λ s, (Ret (clock env (clockReads s)), tick_clock s).

Definition download (u : string) : M CRLCache string := λ s,
  (downloadCrl env (downloads s) u, tick_download s).

Definition getFileName (u : string) : string := (sha1Name env u ++ ".crl")%string.

(** [getCachedCrl(File)] *)
Definition getCachedCrl_file (dir : CRLCache → gmap string string) (f : string) :
    M CRLCache X509CRL :=
  d ← gets dir;
  match d !! f with
  | None => raise (IOException "file not found")
  | Some bytes =>
      match generateCRL env bytes with
      | Some c => mret c
      | None => raise (RuntimeException "CRLException")
      end
  end.

(** [getCachedCrl(String)]: any failure becomes an [IOException]. *)
Definition getCachedCrl (f : string) : M CRLCache X509CRL :=
  TRY getCachedCrl_file cacheDir f CATCH _ => raise (IOException "unreadable CRL").

(** [cacheCrlRecord]: the updated record is returned instead of being
    mutated in place. *)
Definition cacheCrlRecord (r : CRLCacheRecord) : M CRLCache CRLCacheRecord :=
  t ← now;
  if Z.ltb t (wrap64 (lastCache r + recacheGracePeriod)) then mret r else
  bytes ← download (url r);
  d ← gets tempDir; modify (set_tempDir (<[fileName r := bytes]> d));;
  c ← getCachedCrl_file tempDir (fileName r);
  nu ← deref (crl_nextUpdate c);
  t' ← now;
  if Z.ltb nu t' then
    d' ← gets tempDir; modify (set_tempDir (delete (fileName r) d'));;
    raise (IOException "Downloaded CRL expired")
  else
    t'' ← now;
    let r' := mkRecord t'' nu (url r) (fileName r) in
    cd ← gets cacheDir; modify (set_cacheDir (<[fileName r := bytes]> cd));;
    d' ← gets tempDir; modify (set_tempDir (delete (fileName r) d'));;
    mret r'.

(** [getCRL(String)] *)
Definition getCRL_refresh (u : string) : M CRLCache CRLInfo :=
  TRY
    (r ← cacheCrlRecord (mkRecord 0 0 u (getFileName u));
     o ← gets crlCacheRecordList; l ← deref o;
     modify (set_records (l ++ [r]));;
     modify (set_file (Records (l ++ [r])));;
     c ← getCachedCrl (fileName r);
     mret (mkCRLInfo c (url r)))
  CATCH _ => raise (IOException "Unable to cache CRL").

Definition getCRL (u : string) : M CRLCache CRLInfo :=
  if negb (isURI env u) then raise (IOException "Malformed url in requested CRL") else
  o ← gets crlCacheRecordList; l ← deref o;
  match findFirst (λ r, equalsIgnoreCase u (url r)) l with
  | Some r =>
      cachedCrl ← getCachedCrl (fileName r);
      nu ← deref (crl_nextUpdate cachedCrl);
      t ← now;
      if Z.ltb t nu then mret (mkCRLInfo cachedCrl (url r))
      else getCRL_refresh u
  | None => getCRL_refresh u
  end.

(** [getCRL(CRLDistPoint)] *)
Definition getCRL_dp : option (list DistributionPoint) → M CRLCache CRLInfo := getCRL_policy getCRL.

(** [reloadCrlCacheData] *)
Definition reloadCrlCacheData : M CRLCache unit :=
  f ← gets crlCacheFile;
  match f with
  | Unreadable => modify (set_records []);; modify (set_file (Records []))
  | Malformed => raise (IOException "JsonParseException")
  | Records l => modify (set_records l)
  end.

(** The [forEach] of [recache]: refreshes every record, collecting the URLs
    that could not be cached; a failed record keeps its old content. *)
Fixpoint recache_each (l : list CRLCacheRecord) :
    M CRLCache (list CRLCacheRecord * list string) :=
  match l with
  | [] => mret ([], [])
  | r :: l' =>
      o ← TRY (r' ← cacheCrlRecord r; mret (Some r')) CATCH _ => mret None;
      '(l'', bad) ← recache_each l';
      match o with
      | Some r' => mret (r' :: l'', bad)
      | None => mret (r :: l'', url r :: bad)
      end
  end.

Definition is_bad (badUrlList : list string) (r : CRLCacheRecord) : bool :=
  existsb (String.eqb (url r)) badUrlList.

(** [cacheFile.delete()] for every record given. *)
Definition delete_files (l : list CRLCacheRecord) (d : gmap string string) : gmap string string :=
  fold_left (λ d r, delete (fileName r) d) l d.

Definition recache : M CRLCache unit :=
  TRY
    (reloadCrlCacheData;;
     o ← gets crlCacheRecordList; l ← deref o;
     '(l', badUrlList) ← recache_each l;
     modify (set_records l');;
     when (negb (bool_decide (badUrlList = [])))
       (let filteredCacheRecords := List.filter (λ r, negb (is_bad badUrlList r)) l' in
        d ← gets cacheDir;
        modify (set_cacheDir (delete_files (List.filter (is_bad badUrlList) l') d));;
        modify (set_records filteredCacheRecords));;
     o' ← gets crlCacheRecordList; l'' ← deref o';
     modify (set_file (Records l'')))
  CATCH _ => mret tt.

(** The constructor: the directories are created empty when missing. *)
Definition new_CRLCacheImpl (file : CacheFile) (dir temp : gmap string string) : CRLCache :=
  snd (recache (mkCache None file dir temp 0 0)).
End Cache.

(** ** Lemmas *)
Section CacheFacts.
Context (env : Env) (grace : Z).
Implicit Types (s : CRLCache) (r : CRLCacheRecord) (l : list CRLCacheRecord).

(** A record refreshed from the network at state [s], with the file written. *)
Definition refreshed s r r' s' : Prop :=
  ∃ bytes c, downloadCrl env (downloads s) (url r) = Ret bytes ∧
    generateCRL env bytes = Some c ∧ crl_nextUpdate c = Some (nextUpdate r') ∧
    (clock env (S (clockReads s)) <= nextUpdate r')%Z ∧
    cacheDir s' = <[fileName r := bytes]> (cacheDir s) ∧
    clockReads s' = 3 + clockReads s.

(** What [cacheCrlRecord] may do: the record list and the JSON file are never
    touched; a failure leaves the cache directory as it was. *)
Lemma cacheCrlRecord_spec r s o s' :
  cacheCrlRecord env grace r s = (o, s') →
  crlCacheRecordList s' = crlCacheRecordList s ∧ crlCacheFile s' = crlCacheFile s ∧
  clockReads s < clockReads s' ∧
  match o with
  | Throw _ => cacheDir s' = cacheDir s
  | Ret r' =>
      url r' = url r ∧ fileName r' = fileName r ∧
      ((r' = r ∧ cacheDir s' = cacheDir s ∧
        (clock env (clockReads s) < wrap64 (lastCache r + grace))%Z)
       ∨ refreshed s r r' s')
  end.
Proof.
  unfold cacheCrlRecord, now, download, getCachedCrl_file, refreshed. mrun.
  destruct (Z.ltb_spec (clock env (clockReads s)) (wrap64 (lastCache r + grace))).
  { intros [= <- <-]. simpl. repeat split; auto with lia. }
  simpl. destruct (downloadCrl env (downloads s) (url r)) as [bytes|e] eqn:Hd.
  2:{ intros [= <- <-]. simpl. auto with lia. }
  simpl. rewrite lookup_insert_eq. simpl.
  destruct (generateCRL env bytes) as [c|] eqn:Hg; simpl.
  2:{ intros [= <- <-]. simpl. auto with lia. }
  destruct (crl_nextUpdate c) as [nu|] eqn:Hn; simpl.
  2:{ intros [= <- <-]. simpl. auto with lia. }
  destruct (Z.ltb_spec nu (clock env (S (clockReads s)))); intros [= <- <-]; simpl;
    repeat split; auto with lia.
  right. exists bytes, c. simpl. repeat split; auto.
Qed.

Lemma getCachedCrl_spec f s o s' :
  getCachedCrl env f s = (o, s') →
  s' = s ∧ match o with
           | Ret c => ∃ b, cacheDir s !! f = Some b ∧ generateCRL env b = Some c
           | Throw _ => True
           end.
Proof.
  unfold getCachedCrl, getCachedCrl_file. mrun.
  destruct (cacheDir s !! f) as [b|] eqn:Hb; simpl.
  - destruct (generateCRL env b) eqn:Hg; simpl; intros [= <- <-]; eauto.
  - intros [= <- <-]; auto.
Qed.

Lemma getCachedCrl_ok f s b c :
  cacheDir s !! f = Some b → generateCRL env b = Some c →
  getCachedCrl env f s = (Ret c, s).
Proof.
  intros Hb Hg. unfold getCachedCrl, getCachedCrl_file. mrun. rewrite Hb. simpl. by rewrite Hg.
Qed.

(** A refresh either leaves records and JSON file alone and throws, or
    appends one record for the URL and persists the longer list. *)
Lemma getCRL_refresh_spec u l s o s' :
  crlCacheRecordList s = Some l →
  getCRL_refresh env grace u s = (o, s') →
  clockReads s < clockReads s' ∧
  ((crlCacheRecordList s' = Some l ∧ crlCacheFile s' = crlCacheFile s ∧
    cacheDir s' = cacheDir s ∧ is_Ret o = false)
   ∨ ∃ r', url r' = u ∧ fileName r' = getFileName env u ∧
       crlCacheRecordList s' = Some (l ++ [r']) ∧ crlCacheFile s' = Records (l ++ [r']) ∧
       ((clock env (clockReads s) < wrap64 grace)%Z ∧ cacheDir s' = cacheDir s
        ∨ ∃ b c, o = Ret (mkCRLInfo c u) ∧ generateCRL env b = Some c ∧
            crl_nextUpdate c = Some (nextUpdate r') ∧
            (clock env (S (clockReads s)) <= nextUpdate r')%Z ∧
            clockReads s' = 3 + clockReads s ∧
            cacheDir s' = <[getFileName env u := b]> (cacheDir s))).
Proof.
  intros Hl. unfold getCRL_refresh. mrun.
  destruct (cacheCrlRecord _ _ _ s) as [[r'|e] s1] eqn:Hc;
    apply cacheCrlRecord_spec in Hc; simpl in Hc;
    destruct Hc as (Hrec & Hfile & Hclk & Hc).
  2:{ intros [= <- <-]. simpl. rewrite Hrec. split; [done|]. left. auto. }
  rewrite Hrec, Hl. simpl. destruct Hc as (Hu & Hf & Hc). simpl in *.
  destruct (getCachedCrl env (fileName r') _) as [o2 s2] eqn:Hg.
  pose proof Hg as Hg'. apply getCachedCrl_spec in Hg' as [-> Ho2]. simpl in *.
  intros Heq.
  assert (s' = set_file (Records (l ++ [r'])) (set_records (l ++ [r']) s1)) as ->
    by (destruct o2; simplify_eq; done).
  simpl. split; [done|]. right. exists r'. repeat split; auto.
  destruct Hc as [(_ & Hd & Hlt) | (b & c & _ & Hgen & Hnu & Hle & Hd & Hck)]; simpl in *.
  - left. done.
  - right. exists b, c. rewrite <- Hf in Hd |- *.
    unfold getCachedCrl, getCachedCrl_file in Hg. mrun.
    rewrite Hd, lookup_insert_eq in Hg. simpl in Hg. rewrite Hgen in Hg. simpl in Hg.
    simplify_eq. auto 10.
Qed.

(** The file [f] of the cache directory holds a CRL that parses. *)
Definition ok_file s (f : string) : Prop :=
  ∃ b, cacheDir s !! f = Some b ∧ is_Some (generateCRL env b).

Lemma ok_file_insert s s' f g b c :
  cacheDir s' = <[g := b]> (cacheDir s) → generateCRL env b = Some c →
  ok_file s f → ok_file s' f.
Proof.
  intros Hd Hg (b' & Hb' & ?). unfold ok_file. rewrite Hd.
  destruct (decide (g = f)) as [->|].
  - exists b. rewrite lookup_insert_eq. eauto.
  - exists b'. rewrite lookup_insert_ne; auto.
Qed.

Lemma ok_file_inserted s s' g b c :
  cacheDir s' = <[g := b]> (cacheDir s) → generateCRL env b = Some c → ok_file s' g.
Proof. intros Hd Hg. exists b. rewrite Hd, lookup_insert_eq. eauto. Qed.

Lemma cacheCrlRecord_ok_file r s o s' f :
  cacheCrlRecord env grace r s = (o, s') → ok_file s f → ok_file s' f.
Proof.
  intros H%cacheCrlRecord_spec Hf. destruct H as (_ & _ & _ & H).
  destruct o as [r'|e]; [|unfold ok_file; by rewrite H].
  destruct H as (_ & _ & [(_ & Hd & _) | (b & c & _ & Hg & _ & _ & Hd & _)]).
  - unfold ok_file. by rewrite Hd.
  - eauto using ok_file_insert.
Qed.

(** What one pass of [recache]'s loop does to a record: [r] became [r']
    between the states, [true] when it was good. *)
Definition recached s s' r r' (bad : list string) : Prop :=
  url r' = url r ∧ fileName r' = fileName r ∧
  (url r ∈ bad ∨ (r' = r ∧ ∃ n, clockReads s <= n ∧ (clock env n < wrap64 (lastCache r + grace))%Z)
   ∨ (ok_file s' (fileName r) ∧ ∃ n, clockReads s <= n ∧ (clock env n <= nextUpdate r')%Z)).

Lemma recache_each_spec l s :
  ∃ l' bad s', recache_each env grace l s = (Ret (l', bad), s') ∧
    crlCacheRecordList s' = crlCacheRecordList s ∧ crlCacheFile s' = crlCacheFile s ∧
    clockReads s <= clockReads s' ∧
    (∀ f, ok_file s f → ok_file s' f) ∧
    Forall2 (λ r r', recached s s' r r' bad) l l' ∧
    (∀ u, u ∈ bad → u ∈ map url l).
Proof.
  revert s. induction l as [|r l IH]; intros s; simpl.
  { exists [], [], s. mrun. auto 10. }
  mrun. destruct (cacheCrlRecord env grace r s) as [o s1] eqn:Hc.
  pose proof Hc as Hok. apply cacheCrlRecord_spec in Hc as (Hrec & Hfile & Hclk & Hc).
  destruct (IH s1) as (l' & bad & s2 & Hr & Hrec2 & Hfile2 & Hclk2 & Hok2 & HF & Hbad).
  assert (∀ bd', (∀ u, u ∈ bad → u ∈ bd') →
    Forall2 (λ r r', recached s s2 r r' bd') l l') as HF'.
  { intros bd' Hsub. eapply Forall2_impl; [exact HF|].
    intros x x' (? & ? & H). split; [done|]. split; [done|].
    destruct H as [?|[(? & n & ? & ?)|(? & n & ? & ?)]];
      [left; auto | right; left; split; [done|]; exists n; auto with lia
      | right; right; split; [done|]; exists n; auto with lia]. }
  destruct o as [r'|e].
  - rewrite Hr. exists (r' :: l'), bad, s2. simpl.
    split; [done|]. split; [congruence|]. split; [congruence|]. split; [lia|].
    split; [eauto using cacheCrlRecord_ok_file|]. split.
    2:{ intros u Hu. right. auto. }
    constructor; [|by apply HF'].
    destruct Hc as (? & ? & [(-> & _ & ?)|(b & c & _ & Hg & _ & ? & Hd & _)]).
    + split; [done|]. split; [done|]. right; left. split; [done|]. exists (clockReads s). auto.
    + split; [done|]. split; [done|]. right; right. split; [|exists (S (clockReads s)); auto].
      apply Hok2. eapply ok_file_inserted; eauto.
  - rewrite Hr. exists (r :: l'), (url r :: bad), s2. simpl.
    split; [done|]. split; [congruence|]. split; [congruence|]. split; [lia|].
    split; [eauto using cacheCrlRecord_ok_file|]. split.
    + constructor; [|apply HF'; intros; by right].
      split; [done|]. split; [done|]. left. left.
    + intros u Hu. apply elem_of_cons in Hu as [->|Hu]; [left | right; auto].
Qed.

Lemma delete_files_lookup l (d : gmap string string) f :
  delete_files l d !! f =
  if existsb (λ r, String.eqb (fileName r) f) l then None else d !! f.
Proof.
  revert d. induction l as [|r l IH]; intros d; [done|].
  change (delete_files (r :: l) d) with (delete_files l (delete (fileName r) d)).
  rewrite IH. simpl. destruct (existsb _ l); [by rewrite orb_true_r|].
  rewrite orb_false_r. destruct (String.eqb_spec (fileName r) f) as [->|];
    [apply lookup_delete_eq | by apply lookup_delete_ne].
Qed.

Lemma is_bad_spec bad r : is_bad bad r = true ↔ url r ∈ bad.
Proof.
  unfold is_bad. rewrite existsb_exists, list_elem_of_In.
  setoid_rewrite String.eqb_eq. split; [intros (? & ? & ->); done | eauto].
Qed.

Definition kept (bad : list string) l := List.filter (λ r, negb (is_bad bad r)) l.

(** [recache] after a successful reload. *)
Lemma recache_loop s l :
  crlCacheFile s = Records l ∨ (crlCacheFile s = Unreadable ∧ l = []) →
  ∃ l' bad s1 s', recache env grace s = (Ret tt, s') ∧
    Forall2 (λ r r', recached s s1 r r' bad) l l' ∧ (∀ u, u ∈ bad → u ∈ map url l) ∧
    (∀ f, ok_file s f → ok_file s1 f) ∧
    crlCacheRecordList s' = Some (kept bad l') ∧ crlCacheFile s' = Records (kept bad l') ∧
    clockReads s <= clockReads s' ∧
    cacheDir s' = delete_files (List.filter (is_bad bad) l') (cacheDir s1).
Proof.
  intros Hl.
  set (s0 := set_file (Records l) (set_records l s)).
  destruct (recache_each_spec l s0) as (l' & bad & s1 & Hr & Hrec & Hfile & Hck & Hok & HF & Hbad).
  exists l', bad, s1.
  assert (reloadCrlCacheData s = (Ret tt, s0)) as Hre.
  { unfold reloadCrlCacheData, s0. mrun.
    destruct Hl as [Hl|[Hl ->]]; rewrite Hl; simpl; [|done].
    unfold set_file, set_records. simpl. by rewrite Hl. }
  unfold recache. mrun. rewrite Hre. simpl. rewrite Hr. simpl.
  case_bool_decide as Hb; simpl.
  - eexists. split; [done|]. subst bad.
    assert (List.filter (is_bad []) l' = []) as Hf0 by (clear; induction l'; done).
    assert (kept [] l' = l') as Hk0
      by (clear; unfold kept; induction l' as [|? ? IH]; simpl; [done|by f_equal]).
    rewrite Hf0, Hk0. simpl. auto 10.
  - eexists. split; [done|]. simpl. auto 10.
Qed.
End CacheFacts.

(** ** The policy, for either cache *)
(** The collecting loop approves only URIs of points without CRL issuer and
    reasons, in the order of the extension. *)
Definition approved_of (dp : DistributionPoint) : list string :=
  if negb (hasCRLIssuer dp) && negb (hasReasons dp)
  then match distributionPoint dp with
       | FullName names =>
           map gn_string (List.filter (λ g, Nat.eqb (tagNo g) uniformResourceIdentifier) names)
       | _ => []
       end
  else [].

Lemma scan_uris_approved dp uris st :
  approvedUriList (fold_left (scan_uri dp) uris st) =
  approvedUriList st ++ (if negb (hasCRLIssuer dp) && negb (hasReasons dp) then uris else []).
Proof.
  revert st. induction uris as [|u uris IH]; intros st; simpl.
  - destruct (_ && _); by rewrite app_nil_r.
  - rewrite IH. unfold scan_uri. destruct (negb (hasCRLIssuer dp) && negb (hasReasons dp));
      simpl; [by rewrite <- app_assoc | done].
Qed.

Lemma scan_points_approved dps st st' :
  scan_points dps st = Ret st' →
  approvedUriList st' = approvedUriList st ++ concat (map approved_of dps).
Proof.
  revert st. induction dps as [|dp dps IH]; intros st; simpl.
  - intros [= ->]. by rewrite app_nil_r.
  - unfold approved_of at 1, dp_names. mrun.
    destruct (distributionPoint dp) as [| |names]; try discriminate.
    intros H%IH. rewrite H, scan_uris_approved, <- app_assoc. done.
Qed.

Lemma findFirst_In {A} p (l : list A) a : findFirst p l = Some a → a ∈ l.
Proof. intros H. by apply findFirst_Some in H as [_ ?]. Qed.

Section Policy.
Context {S : Type} (getCRL : string → M S CRLInfo).
(** A property of the cache that [getCRL(String)] preserves. *)
Lemma policy_invariant (I : S → Prop) dps s o s' :
  (∀ u s o s', u ∈ concat (map approved_of dps) → I s → getCRL u s = (o, s') → I s') → I s →
  getCRL_policy getCRL (Some dps) s = (o, s') → I s'.
Proof.
  intros Hstep Hs. unfold getCRL_policy. mrun.
  destruct (scan_points _ _) as [st|e] eqn:Hst; simpl; [|congruence].
  apply scan_points_approved in Hst. simpl in Hst. rewrite Hst. clear Hst.
  destruct (_ && _); [congruence|]. destruct (_ && _); [congruence|].
  assert (Hstep' : ∀ p u s o s', findFirst p (concat (map approved_of dps)) = Some u → I s → getCRL u s = (o, s') → I s').
  { intros p u t r t' Hu%findFirst_In. by eapply Hstep. }
  destruct (findFirst (λ s, startsWith "http" _) _) as [u|] eqn:Hh;
    [destruct (getCRL u s) as [[i|e] s1] eqn:Hu;
       [intros [= <- <-]; eauto|]|];
    (destruct (findFirst (λ s, startsWith "ldap" _) _) as [v|] eqn:Hl; [|by intros; simplify_eq; eauto]);
    match goal with |- context [getCRL v ?t] =>
      destruct (getCRL v t) as [[j|e'] s2] eqn:Hv end;
    intros; simplify_eq; eauto.
Qed.
(** A CRL that the policy returns was obtained by [getCRL] for a URI of a distribution
    point that names neither a CRL issuer nor reasons; the URI is the first http one, or
    the first ldap one after the http one failed or when there is none. *)
Lemma policy_answer dps s i s' :
  getCRL_policy getCRL (Some dps) s = (Ret i, s') →
  ∃ u s0, u ∈ concat (map approved_of dps) ∧ getCRL u s0 = (Ret i, s') ∧
    let first p := findFirst (λ s, startsWith p (toLowerCase s)) (concat (map approved_of dps)) in
    ((first "http" = Some u ∧ s0 = s)
     ∨ (first "ldap" = Some u ∧
        match first "http" with
        | None => s0 = s
        | Some v => ∃ e, getCRL v s = (Throw e, s0)
        end)).
Proof.
  unfold getCRL_policy. mrun. destruct (scan_points _ _) as [st|e] eqn:Hst; simpl; [|congruence].
  apply scan_points_approved in Hst. simpl in Hst. rewrite Hst. clear Hst.
  destruct (_ && _); [congruence|]. destruct (_ && _); [congruence|].
  destruct (findFirst (λ s, startsWith "http" _) _) as [u|] eqn:Hh.
  - destruct (getCRL u s) as [[j|e] s1] eqn:Hu.
    + intros [= -> ->]. exists u, s. split; [eauto using findFirst_In|]. auto.
    + destruct (findFirst (λ s, startsWith "ldap" _) _) as [v|] eqn:Hld; [|congruence].
      destruct (getCRL v s1) as [[j|e'] s2] eqn:Hv; [|congruence].
      intros [= -> ->]. exists v, s1. split; [eauto using findFirst_In|]. split; [done|]. right. split; [done|]. eauto.
  - destruct (findFirst (λ s, startsWith "ldap" _) _) as [v|] eqn:Hld; [|congruence].
    destruct (getCRL v s) as [[j|e'] s2] eqn:Hv; [|congruence].
    intros [= -> ->]. exists v, s. split; [eauto using findFirst_In|]. split; [done|]. right. auto.
Qed.

End Policy.

(** ** Reachable states of a cache *)
Section Reachable.
Context (env : Env) (grace : Z).

(** The URLs that clients ask for. *)
Context (asked : string → Prop).
(** A client calls [getCRL] (either form) or the background job [recache]. *)
Inductive cache_step : CRLCache → CRLCache → Prop :=
  | step_getCRL u s o s' : asked u → getCRL env grace u s = (o, s') → cache_step s s'
  | step_getCRL_dp dps s o s' : (∀ u, u ∈ concat (map approved_of dps) → asked u) →
      getCRL_dp env grace (Some dps) s = (o, s') → cache_step s s'
  | step_recache s o s' : recache env grace s = (o, s') → cache_step s s'.

(** The persisted list mirrors the one in memory, every record is stored
    under the name derived from its URL, which was asked for, and its file holds a CRL. *)
Definition cache_wf (s : CRLCache) : Prop :=
  ∃ l, crlCacheRecordList s = Some l ∧ crlCacheFile s = Records l ∧
    ∀ r, r ∈ l → fileName r = getFileName env (url r) ∧ asked (url r) ∧ ok_file env s (fileName r).

Hypothesis no_collision : ∀ u v, asked u → asked v → sha1Name env u = sha1Name env v → u = v.
Hypothesis clock_grace : ∀ n, (wrap64 grace <= clock env n)%Z.

Lemma getFileName_inj u v : asked u → asked v → getFileName env u = getFileName env v → u = v.
Proof. intros Hu Hv H%str_app_inj_r. by apply no_collision. Qed.

Lemma getCRL_refresh_wf u s o s' :
  asked u → cache_wf s → getCRL_refresh env grace u s = (o, s') → cache_wf s'.
Proof.
  intros Hask (l & Hl & Hf & Hr) H.
  eapply getCRL_refresh_spec in H as (_ & [(Hl' & Hf' & Hd & _)|(r' & Hu & Hn & Hl' & Hf' & H)]);
    [| | exact Hl].
  { exists l. rewrite Hl', Hf'. split; [done|]. split; [done|].
    intros r Hin. unfold ok_file. rewrite Hd. by apply Hr. }
  destruct H as [(Hlt & _)|(b & c & _ & Hg & _ & _ & _ & Hd)].
  - exfalso. specialize (clock_grace (clockReads s)). lia.
  - exists (l ++ [r']). split; [done|]. split; [done|].
    intros r [Hin| ->%list_elem_of_singleton]%elem_of_app.
    + destruct (Hr r Hin) as (? & ? & ?). eauto using ok_file_insert.
    + rewrite Hn, Hu. eauto using ok_file_inserted.
Qed.

Lemma wf_clock s s' :
  crlCacheRecordList s' = crlCacheRecordList s → crlCacheFile s' = crlCacheFile s →
  cacheDir s' = cacheDir s → cache_wf s → cache_wf s'.
Proof.
  intros H1 H2 H3 (l & Hl & Hf & Hr). exists l. rewrite H1, H2.
  split; [done|]. split; [done|]. intros r Hin. unfold ok_file. rewrite H3. by apply Hr.
Qed.

Lemma getCRL_wf u s o s' :
  asked u → cache_wf s → getCRL env grace u s = (o, s') → cache_wf s'.
Proof.
  intros Hask Hwf. unfold getCRL. destruct (negb (isURI env u)); [mrun; congruence|].
  pose proof Hwf as (l & Hl & _). mrun. rewrite Hl. simpl.
  destruct (findFirst _ l) as [r|]; [|by apply getCRL_refresh_wf].
  destruct (getCachedCrl env (fileName r) s) as [o1 s1] eqn:Hg.
  apply getCachedCrl_spec in Hg as [-> _].
  destruct o1 as [c|]; [|congruence].
  destruct (crl_nextUpdate c) as [nu|]; simpl; [|congruence].
  assert (cache_wf (tick_clock s)) by (eapply wf_clock; eauto).
  destruct (_ <? nu)%Z; [congruence|]. eauto using getCRL_refresh_wf.
Qed.

Lemma getCRL_dp_wf dps s o s' :
  (∀ u, u ∈ concat (map approved_of dps) → asked u) →
  cache_wf s → getCRL_dp env grace (Some dps) s = (o, s') → cache_wf s'.
Proof. intros Hask. apply policy_invariant. eauto using getCRL_wf. Qed.

Lemma kept_files bad l s s' :
  cacheDir s' = delete_files (List.filter (is_bad bad) l) (cacheDir s) →
  (∀ r, r ∈ l → fileName r = getFileName env (url r) ∧ asked (url r)) →
  ∀ r, r ∈ kept bad l → ok_file env s (fileName r) → ok_file env s' (fileName r).
Proof.
  intros Hd Hn r [Hin Hg]%filter_elem (b & Hb & Hp).
  exists b. split; [|done]. rewrite Hd, delete_files_lookup.
  destruct (existsb _ _) eqn:He; [|done].
  apply existsb_exists in He as (r2 & Hr2 & Heq).
  apply list_elem_of_In, filter_elem in Hr2 as [Hin2 Hb2].
  apply String.eqb_eq in Heq. destruct (Hn r Hin) as [Hn1 Ha1], (Hn r2 Hin2) as [Hn2 Ha2].
  rewrite Hn1, Hn2 in Heq. apply getFileName_inj in Heq; [|done..]. apply is_bad_spec in Hb2.
  apply negb_true_iff in Hg. rewrite Heq in Hb2.
  apply is_bad_spec in Hb2. congruence.
Qed.

Lemma recache_wf s l o s' :
  crlCacheFile s = Records l ∨ (crlCacheFile s = Unreadable ∧ l = []) →
  (∀ r, r ∈ l → fileName r = getFileName env (url r) ∧ asked (url r) ∧ ok_file env s (fileName r)) →
  recache env grace s = (o, s') → cache_wf s'.
Proof.
  intros Hl Hr H.
  destruct (recache_loop env grace s l Hl)
    as (l' & bad & s1 & s2 & Hrc & HF & _ & Hok & Hrec & Hfile & _ & Hd).
  rewrite Hrc in H. injection H as <- <-.
  assert (∀ r', r' ∈ l' → fileName r' = getFileName env (url r') ∧ asked (url r')
            ∧ ok_file env s1 (fileName r')) as Hl'.
  { intros r' [i Hi]%list_elem_of_lookup.
    destruct (Forall2_lookup_r _ _ _ _ _ HF Hi) as (r & Hri & (Hu & Hfn & _)).
    destruct (Hr r (list_elem_of_lookup_2 _ _ _ Hri)) as (? & ? & ?). rewrite Hu, Hfn. auto. }
  exists (kept bad l'). split; [done|]. split; [done|].
  intros r Hin. pose proof Hin as [Hin' _]%filter_elem. split; [by apply Hl'|].
  split; [by apply Hl'|]. eapply kept_files; [exact Hd| |exact Hin|by apply Hl'].
  intros x Hx. by destruct (Hl' x Hx) as (? & ? & _).
Qed.

Lemma cache_step_wf s s' : cache_wf s → cache_step s s' → cache_wf s'.
Proof.
  intros Hwf Hst. revert Hwf. destruct Hst as [? ? ? ? Ha H|? ? ? ? Ha H|? ? ? H]; intros Hwf.
  - eapply getCRL_wf; [exact Ha|exact Hwf|exact H].
  - eapply getCRL_dp_wf; [exact Ha|exact Hwf|exact H].
  - destruct Hwf as (l & _ & Hf & Hr). eapply recache_wf; [left; exact Hf|exact Hr|exact H].
Qed.

(** C17. Starting from a new cache directory, in every state that calls of
    [getCRL] and [recache] can reach, in any order and with any downloads
    failing, the persisted record list equals the list in memory, every record
    is filed under the name computed from its URL, and the file it points to
    is present and holds a CRL that parses; provided that no two of the URLs that
    are asked for have the same name (the SHA-1 digest), that the clock is past the grace
    period after 1970 (before, a record that was never cached counts as recent), and
    that the file system does not fail. *)
Theorem cache_reachable_wf dir temp s :
  rtc cache_step (new_CRLCacheImpl env grace Unreadable dir temp) s → cache_wf s.
Proof.
  apply rtc_invariant; [|eauto using cache_step_wf].
  unfold new_CRLCacheImpl. destruct (recache _ _ _) as [o s'] eqn:Hrc. simpl.
  eapply (recache_wf _ []); [| |exact Hrc]; [right; done|].
  intros r []%not_elem_of_nil.
Qed.
End Reachable.

(** ** Properties of single calls *)
Section Calls.
Context (env : Env) (grace : Z).
Hypothesis clock_grace : ∀ n, (wrap64 grace <= clock env n)%Z.

(** A CRL info returned for [u] between the states is fresh: its next update
    is not before some reading of the clock made during the call. *)
Definition fresh_answer s s' u (i : CRLInfo) : Prop :=
  equalsIgnoreCase u (location i) = true ∧
  ∃ nu n, crl_nextUpdate (crl i) = Some nu ∧ clockReads s <= n < clockReads s' ∧
    (clock env n <= nu)%Z.

Lemma getCRL_refresh_fresh u l s i s' :
  crlCacheRecordList s = Some l →
  getCRL_refresh env grace u s = (Ret i, s') → fresh_answer s s' u i.
Proof.
  intros Hl H. eapply getCRL_refresh_spec in H as (Hck & [(_ & _ & _ & Ho)|(r' & _ & _ & _ & _ & H)]);
    [done| |exact Hl].
  destruct H as [(Hlt & _)|(b & c & Ho & _ & Hnu & Hle & Hc & _)].
  - specialize (clock_grace (clockReads s)). lia.
  - injection Ho as ->. split; [apply equalsIgnoreCase_refl|].
    exists (nextUpdate r'), (S (clockReads s)). simpl. auto with lia.
Qed.

(** A CRL that [getCRL] returns for a URL, cached or downloaded, has a
    next-update time that was not in the past at one of the clock readings of
    the call, and its location is the requested URL up to letter case. *)
Theorem getCRL_fresh u s i s' :
  getCRL env grace u s = (Ret i, s') → fresh_answer s s' u i.
Proof.
  unfold getCRL. destruct (negb (isURI env u)); [mrun; congruence|]. mrun.
  destruct (crlCacheRecordList s) as [l|] eqn:Hl; simpl; [|congruence].
  destruct (findFirst _ l) as [r|] eqn:Hr; [|by eapply getCRL_refresh_fresh].
  apply findFirst_Some in Hr as [Hr _].
  destruct (getCachedCrl env (fileName r) s) as [o1 s1] eqn:Hg.
  apply getCachedCrl_spec in Hg as [-> _].
  destruct o1 as [c|]; [|congruence].
  destruct (crl_nextUpdate c) as [nu|] eqn:Hnu; simpl; [|congruence].
  destruct (Z.ltb_spec (clock env (clockReads s)) nu).
  - intros [= <- <-]. split; [done|]. exists nu, (clockReads s). simpl. auto with lia.
  - intros H'. eapply (getCRL_refresh_fresh u l (tick_clock s)) in H'; [|done].
    destruct H' as [Hloc (nu' & n & ? & ? & ?)]. split; [done|].
    exists nu', n. simpl in *. auto with lia.
Qed.
End Calls.

(** [recache] never throws; when the JSON file is readable it keeps, in
    order, exactly the records whose download did not fail, each either still
    within the grace period or backed by a file that parses and a next-update time
    that was in the future, it persists that list, and it deletes the files of
    the records it drops. *)
Theorem recache_keeps_good env grace s l :
  crlCacheFile s = Records l →
  ∃ l' bad s1 s', recache env grace s = (Ret tt, s') ∧
    Forall2 (λ r r', recached env grace s s1 r r' bad) l l' ∧
    crlCacheRecordList s' = Some (kept bad l') ∧ crlCacheFile s' = Records (kept bad l') ∧
    (∀ r, r ∈ l' → url r ∈ bad → cacheDir s' !! fileName r = None).
Proof.
  intros Hl. destruct (recache_loop env grace s l (or_introl Hl))
    as (l' & bad & s1 & s' & Hrc & HF & _ & _ & Hrec & Hfile & _ & Hd).
  exists l', bad, s1, s'. repeat (split; [done|]).
  intros r Hin Hbad. rewrite Hd, delete_files_lookup.
  replace (existsb _ _) with true; [done|]. symmetry. apply existsb_exists.
  exists r. rewrite String.eqb_refl, <- list_elem_of_In, filter_elem, is_bad_spec. auto.
Qed.

(** When the cached CRL of a URL has expired and the download succeeds, the
    record list keeps the old record and gains a second one for the same URL: the
    list is not free of duplicates. *)
Theorem getCRL_expired_duplicates env grace u s l r b c nu i s' :
  crlCacheRecordList s = Some l → isURI env u = true →
  findFirst (λ r, equalsIgnoreCase u (url r)) l = Some r →
  cacheDir s !! fileName r = Some b → generateCRL env b = Some c → crl_nextUpdate c = Some nu →
  (nu <= clock env (clockReads s))%Z →
  getCRL env grace u s = (Ret i, s') →
  ∃ r', crlCacheRecordList s' = Some (l ++ [r']) ∧ url r' = u ∧ r ∈ l ∧
    equalsIgnoreCase (url r') (url r) = true.
Proof.
  intros Hl Huri Hr Hb Hg Hnu Hexp. unfold getCRL. rewrite Huri. mrun. rewrite Hl. simpl.
  rewrite Hr. apply findFirst_Some in Hr as [Heq Hin].
  rewrite (getCachedCrl_ok _ _ _ _ _ Hb Hg), Hnu. simpl.
  replace (_ <? nu)%Z with false by (symmetry; by apply Z.ltb_ge).
  intros H. apply (getCRL_refresh_spec env grace u l) in H as (_ & H); [|done].
  destruct H as [(_ & _ & _ & Ho')|(r' & Hu & _ & Hl' & _)];
    [done|]. exists r'. rewrite Hu. auto.
Qed.

(** ** A concrete environment: one CRL at one URL, a clock that advances. *)
Definition demo_crl : X509CRL := mkCRL 7 (Some 1010%Z) [].
Definition demo_env : Env := mkEnv
  (λ n, 1000 + Z.of_nat n)%Z
  (λ _ u, if String.eqb u "http://a/crl" then Ret "DER"%string else Throw (IOException "404"))
  (λ b, if String.eqb b "DER" then Some demo_crl else None)
  (λ _, true)
  (λ u, u).
Definition demo_start : CRLCache := new_CRLCacheImpl demo_env 5 Unreadable ∅ ∅.
Definition demo_cached : CRLCache := snd (getCRL demo_env 5 "http://a/crl" demo_start).

Lemma demo_clock n : (wrap64 5 <= clock demo_env n)%Z.
Proof. replace (wrap64 5) with 5%Z by reflexivity. simpl. lia. Qed.

(** Names of one letter: those of the URLs that are asked for differ. *)
Definition letter_env : Env :=
  mkEnv (clock demo_env) (downloadCrl demo_env) (generateCRL demo_env) (isURI demo_env) (String.substring 7 1).
Definition letter_start : CRLCache := new_CRLCacheImpl letter_env 5 Unreadable ∅ ∅.
Definition letter_cached : CRLCache := snd (getCRL letter_env 5 "http://a/crl" letter_start).
Definition demo_asked : list string := ["http://a/crl"; "http://b/crl"]%string.
Lemma letter_names u v : u ∈ demo_asked → v ∈ demo_asked → sha1Name letter_env u = sha1Name letter_env v → u = v.
Proof.
  intros [->|[->|[]%not_elem_of_nil]%elem_of_cons]%elem_of_cons [->|[->|[]%not_elem_of_nil]%elem_of_cons]%elem_of_cons; done.
Qed.
Lemma cache_reachable_wf_witness :
  rtc (cache_step letter_env 5 (λ u, u ∈ demo_asked)) letter_start letter_cached ∧
  cache_wf letter_env (λ u, u ∈ demo_asked) letter_cached.
Proof.
  assert (rtc (cache_step letter_env 5 (λ u, u ∈ demo_asked)) letter_start letter_cached) as H.
  { apply rtc_once. eapply (step_getCRL _ _ _ "http://a/crl"); [by left|]. apply surjective_pairing. }
  split; [exact H|].
  apply (cache_reachable_wf letter_env 5 (λ u, u ∈ demo_asked) letter_names demo_clock ∅ ∅ _ H).
Defined.

Lemma getCRL_fresh_witness :
  fresh_answer demo_env demo_start demo_cached "http://a/crl" (mkCRLInfo demo_crl "http://a/crl").
Proof. apply (getCRL_fresh demo_env 5 demo_clock). vm_compute. reflexivity. Defined.

Lemma recache_keeps_good_witness :
  ∃ l' bad s1 s', recache demo_env 5 demo_cached = (Ret tt, s') ∧
    Forall2 (λ r r', recached demo_env 5 demo_cached s1 r r' bad)
      [mkRecord 1002 1010 "http://a/crl" "http://a/crl.crl"] l' ∧
    crlCacheRecordList s' = Some (kept bad l') ∧ crlCacheFile s' = Records (kept bad l') ∧
    (∀ r, r ∈ l' → url r ∈ bad → cacheDir s' !! fileName r = None).
Proof. apply (recache_keeps_good demo_env 5). vm_compute. reflexivity. Defined.

Definition demo_dps : list DistributionPoint :=
  [mkDistributionPoint (FullName [mkGeneralName 6 "http://b/crl"]) true false;
   mkDistributionPoint (FullName [mkGeneralName 6 "HTTP://c/crl"; mkGeneralName 4 "dn"]) false false;
   mkDistributionPoint (FullName [mkGeneralName 6 "ldap://d/crl"]) false false].

(** The approved URIs of an extension with three points. *)
Example demo_dps_approved :
  concat (map approved_of demo_dps) = ["HTTP://c/crl"; "ldap://d/crl"]%string.
Proof. reflexivity. Qed.

(** A cached CRL that expired at 1010, asked for again when the clock reads
    1020, when a newer CRL can be downloaded. *)
Definition demo_env2 : Env := mkEnv
  (λ n, 1020 + Z.of_nat n)%Z
  (λ _ _, Ret "DER2"%string)
  (λ b, Some (mkCRL 7 (Some (if String.eqb b "DER2" then 2000 else 1010)%Z) []))
  (λ _, true)
  (λ u, u).

Lemma getCRL_expired_duplicates_witness :
  ∃ r', crlCacheRecordList (snd (getCRL demo_env2 5 "http://a/crl" demo_cached)) =
      Some ([mkRecord 1002 1010 "http://a/crl" "http://a/crl.crl"] ++ [r']) ∧
    url r' = "http://a/crl"%string ∧
    mkRecord 1002 1010 "http://a/crl" "http://a/crl.crl" ∈
      [mkRecord 1002 1010 "http://a/crl" "http://a/crl.crl"] ∧
    equalsIgnoreCase (url r') "http://a/crl" = true.
Proof.
  eapply (getCRL_expired_duplicates demo_env2 5 "http://a/crl" demo_cached _
    (mkRecord 1002 1010 "http://a/crl" "http://a/crl.crl"));
    try (vm_compute; reflexivity). vm_compute; discriminate.
Defined.
