(* ===== verification/MemCache.v ===== *)
(** * The CRL cache in memory

    Model of cert-validation/.../crl/impl/InMemoryCRLCache.java: a map of records and a
    map of the bytes of the CRLs, over the environment of [CrlCache].  The maps are
    HashMaps: the order of their keys is a parameter, and the count of structural changes
    is kept, because a traversal that finds it changed throws. *)
From Stdlib Require Import ZArith Lia Ascii String.
From stdpp Require Import base gmap strings list relations.
From S2P Require Import Prelude CertModel.
From S2P Require Import CrlCache.

Record InMemoryCRLCache := mkMem {
  crlCacheMap : gmap string CRLCacheRecord;
  modCount : nat;                              (* of crlCacheMap *)
  crlDataMap : gmap string string;
  clockReads : nat;
  downloads : nat
}.
Definition set_map (m : gmap string CRLCacheRecord) (n : nat) (s : InMemoryCRLCache) : InMemoryCRLCache :=
  mkMem m n (crlDataMap s) (clockReads s) (downloads s).
Definition set_data (d : gmap string string) (s : InMemoryCRLCache) : InMemoryCRLCache :=
  mkMem (crlCacheMap s) (modCount s) d (clockReads s) (downloads s).
Definition tick_clock (s : InMemoryCRLCache) : InMemoryCRLCache :=
  mkMem (crlCacheMap s) (modCount s) (crlDataMap s) (S (clockReads s)) (downloads s).
Definition tick_download (s : InMemoryCRLCache) : InMemoryCRLCache :=
  mkMem (crlCacheMap s) (modCount s) (crlDataMap s) (clockReads s) (S (downloads s)).
(** [crlCacheMap.put]: a new key is a structural change, a new value is not. *)
Definition put_record (k : string) (r : CRLCacheRecord) (s : InMemoryCRLCache) : InMemoryCRLCache :=
  set_map (<[k := r]> (crlCacheMap s))
    (match crlCacheMap s !! k with Some _ => modCount s | None => S (modCount s) end) s.
(** The record object under the key changes in place. *)
Definition update_record (k : string) (r : CRLCacheRecord) (s : InMemoryCRLCache) : InMemoryCRLCache :=
  set_map (alter (λ _, r) k (crlCacheMap s)) (modCount s) s.
(** [crlCacheMap.remove] *)
Definition remove_record (k : string) (s : InMemoryCRLCache) : InMemoryCRLCache :=
  set_map (delete k (crlCacheMap s))
    (match crlCacheMap s !! k with Some _ => S (modCount s) | None => modCount s end) s.
Definition put_data (k b : string) (s : InMemoryCRLCache) : InMemoryCRLCache := set_data (<[k := b]> (crlDataMap s)) s.
Definition remove_data (k : string) (s : InMemoryCRLCache) : InMemoryCRLCache := set_data (delete k (crlDataMap s)) s.

Section InMemory.
Context (env : Env) (recacheGracePeriod : Z).
(** The order in which a HashMap of so many changes gives its keys. *)
Context (keySet : nat → gmap string CRLCacheRecord → list string).

Definition now : M InMemoryCRLCache Z := λ s, (Ret (clock env (clockReads s)), tick_clock s).
Definition download (u : string) : M InMemoryCRLCache string := λ s,
  (downloadCrl env (downloads s) u, tick_download s).
Definition getFileName (u : string) : string := (sha1Name env u ++ ".crl")%string.

Definition getCachedCrl (f : string) : M InMemoryCRLCache X509CRL :=
  d ← gets crlDataMap;
  bytes ← deref (d !! f);
  match generateCRL env bytes with
  | Some c => mret c
  | None => raise (RuntimeException "CRLException")
  end.

(** [cacheCrlRecord]: the updated record is returned; the caller's own is the object that
    is updated in place. *)
Definition cacheCrlRecord (r : CRLCacheRecord) : M InMemoryCRLCache CRLCacheRecord :=
  t ← now;
  if Z.ltb t (wrap64 (lastCache r + recacheGracePeriod)) then mret r else
  bytes ← download (url r);
  modify (put_data (fileName r) bytes);;
  c ← getCachedCrl (fileName r);
  nu ← deref (crl_nextUpdate c);
  t' ← now;
  if Z.ltb nu t' then
    modify (remove_record (url r));;
    modify (remove_data (fileName r));;
    raise (IOException "Downloaded CRL expired")
  else
    t'' ← now;
    mret (mkRecord t'' nu (url r) (fileName r)).

(** [crlCacheMap.keySet().stream().map( s -> crlCacheMap.get( s ) )] *)
Definition getCrlCacheRecords (s : InMemoryCRLCache) : list CRLCacheRecord :=
  omap (λ k, crlCacheMap s !! k) (keySet (modCount s) (crlCacheMap s)).

(** [getCRL(String)] *)
Definition getCRL_refresh (u : string) : M InMemoryCRLCache CRLInfo :=
  TRY
    (r ← cacheCrlRecord (mkRecord 0 0 u (getFileName u));
     modify (put_record (url r) r);;
     c ← getCachedCrl (fileName r);
     mret (mkCRLInfo c (url r)))
  CATCH _ => raise (IOException "Unable to cache CRL").
Definition getCRL (u : string) : M InMemoryCRLCache CRLInfo :=
  if negb (isURI env u) then raise (IOException "Malformed url in requested CRL") else
  l ← gets getCrlCacheRecords;
  match findFirst (λ r, equalsIgnoreCase u (url r)) l with
  | Some r =>
      cachedCrl ← getCachedCrl (fileName r);
      nu ← deref (crl_nextUpdate cachedCrl);
      t ← now;
      if Z.ltb t nu then mret (mkCRLInfo cachedCrl (url r))
      else getCRL_refresh u
  | None => getCRL_refresh u
  end.
(** [getCRL(CRLDistPoint)] *)
Definition getCRL_dp : option (list DistributionPoint) → M InMemoryCRLCache CRLInfo := getCRL_policy getCRL.

(** The body of the [forEach] of [recache] for one key: the records that could not be
    cached. An absent key gives null, which the handler of the exception uses again. *)
Definition recache_one (k : string) : M InMemoryCRLCache (list CRLCacheRecord) :=
  m ← gets crlCacheMap;
  r ← deref (m !! k);
  TRY (r' ← cacheCrlRecord r;
       modify (update_record k r');;
       mret [])
  CATCH _ => mret [r].
Fixpoint recache_each (ks : list string) : M InMemoryCRLCache (list CRLCacheRecord) :=
  match ks with
  | [] => mret []
  | k :: ks' => bad ← recache_one k; bads ← recache_each ks'; mret (bad ++ bads)
  end.
(** [forEachRemaining] of the keys compares the count of changes when it is done. *)
Definition for_each_record : M InMemoryCRLCache (list CRLCacheRecord) :=
  ks ← gets (λ s, keySet (modCount s) (crlCacheMap s));
  mc ← gets modCount;
  badUrlList ← recache_each ks;
  mc' ← gets modCount;
  if Nat.eqb mc mc' then mret badUrlList else raise ConcurrentModificationException.
Definition drop_record (r : CRLCacheRecord) (s : InMemoryCRLCache) : InMemoryCRLCache :=
  remove_data (fileName r) (remove_record (url r) s).
Definition recache : M InMemoryCRLCache unit :=
  TRY (badUrlList ← for_each_record; modify (λ s, fold_left (λ s r, drop_record r s) badUrlList s))
  CATCH _ => mret tt.
Definition new_InMemoryCRLCache : InMemoryCRLCache := snd (recache (mkMem ∅ 0 ∅ 0 0)).
End InMemory.

(** ** What [recache] does to a record *)
Inductive verdict := Keep (r : CRLCacheRecord) | Bad | Expired.
Definition is_expired (v : verdict) : bool := match v with Expired => true | _ => false end.
Definition is_kept (v : verdict) : bool := match v with Keep _ => true | _ => false end.

Section Recache.
Context (env : Env) (grace : Z) (keySet : nat → gmap string CRLCacheRecord → list string).
(** Reference: the verdict on a record when the clock was read [n] times and there were
    [d] downloads, with the new counts. *)
Definition judge (n d : nat) (r : CRLCacheRecord) : verdict * nat * nat :=
  if Z.ltb (clock env n) (wrap64 (lastCache r + grace)) then (Keep r, S n, d) else
  match downloadCrl env d (url r) with
  | Throw _ => (Bad, S n, S d)
  | Ret b =>
      match c ← generateCRL env b; crl_nextUpdate c with
      | None => (Bad, S n, S d)
      | Some nu =>
          if Z.ltb nu (clock env (S n)) then (Expired, S (S n), S d)
          else (Keep (mkRecord (clock env (S (S n))) nu (url r) (fileName r)), S (S (S n)), S d)
      end
  end.
Fixpoint judge_all (n d : nat) (rs : list CRLCacheRecord) : list (CRLCacheRecord * verdict) :=
  match rs with
  | [] => []
  | r :: rs' => let '(v, n', d') := judge n d r in (r, v) :: judge_all n' d' rs'
  end.
Definition apply_verdict (m : gmap string CRLCacheRecord) (p : CRLCacheRecord * verdict) : gmap string CRLCacheRecord :=
  match snd p with
  | Keep r' => <[url (fst p) := r']> m
  | Bad => m
  | Expired => delete (url (fst p)) m
  end.
Definition count_expired (js : list (CRLCacheRecord * verdict)) : nat := length (List.filter (is_expired ∘ snd) js).
Definition bad_records (js : list (CRLCacheRecord * verdict)) : list CRLCacheRecord :=
  map fst (List.filter (negb ∘ is_kept ∘ snd) js).

Lemma mem_recache_one_spec k r s : crlCacheMap s !! k = Some r → url r = k →
  let '(v, n', d') := judge (clockReads s) (downloads s) r in
  ∃ s', recache_one env grace k s = (Ret (if is_kept v then [] else [r]), s') ∧
    crlCacheMap s' = apply_verdict (crlCacheMap s) (r, v) ∧
    modCount s' = modCount s + (if is_expired v then 1 else 0) ∧ clockReads s' = n' ∧ downloads s' = d'.
Proof.
  intros Hr <-. unfold recache_one, cacheCrlRecord, judge, getCachedCrl, now, download. mrun. rewrite Hr. simpl.
  assert (U : ∀ m : gmap string CRLCacheRecord, m = crlCacheMap s → ∀ r', alter (λ _, r') (url r) m = <[url r := r']> m).
  { intros m -> r'. apply map_eq. intros j. destruct (decide (url r = j)) as [<-|Hne].
    - by rewrite lookup_alter_eq, lookup_insert_eq, Hr.
    - by rewrite lookup_alter_ne, lookup_insert_ne. }
  destruct (_ <? _)%Z; simpl.
  { eexists. split; [done|]. cbn. unfold apply_verdict. simpl. rewrite U, Nat.add_0_r by done. done. }
  destruct (downloadCrl env (downloads s) (url r)) as [b|e]; simpl.
  2:{ eexists. split; [done|]. cbn. by rewrite Nat.add_0_r. }
  rewrite lookup_insert_eq. simpl. destruct (generateCRL env b) as [c|]; simpl.
  2:{ eexists. split; [done|]. cbn. by rewrite Nat.add_0_r. }
  destruct (crl_nextUpdate c) as [nu|]; simpl.
  2:{ eexists. split; [done|]. cbn. by rewrite Nat.add_0_r. }
  destruct (nu <? _)%Z; simpl; eexists; (split; [done|]); cbn; unfold apply_verdict; simpl.
  - by rewrite Hr, Nat.add_1_r.
  - by rewrite U, Nat.add_0_r.
Qed.

Lemma apply_verdict_ne m p k : url (fst p) ≠ k → apply_verdict m p !! k = m !! k.
Proof.
  intros Hne. unfold apply_verdict. destruct (snd p); [by rewrite lookup_insert_ne|done|by rewrite lookup_delete_ne].
Qed.
(** The loop over the keys, all present. *)
Lemma mem_recache_each_spec rs s :
  NoDup (map url rs) → (∀ r, r ∈ rs → crlCacheMap s !! url r = Some r) →
  let js := judge_all (clockReads s) (downloads s) rs in
  ∃ s', recache_each env grace (map url rs) s = (Ret (bad_records js), s') ∧
    crlCacheMap s' = fold_left apply_verdict js (crlCacheMap s) ∧
    modCount s' = modCount s + count_expired js.
Proof.
  revert s. induction rs as [|r rs IH]; intros s; simpl; intros Hnd Hin.
  { exists s. mrun. by rewrite Nat.add_0_r. }
  apply NoDup_cons in Hnd as [Hr Hnd].
  pose proof (mem_recache_one_spec (url r) r s ltac:(apply Hin; left) eq_refl) as H.
  destruct (judge (clockReads s) (downloads s) r) as [[v n'] d'].
  destruct H as (s1 & H1 & Hm & Hc & <- & <-). mrun. rewrite H1.
  destruct (IH s1) as (s2 & H2 & Hm2 & Hc2); [done| |].
  { intros r' Hr'. rewrite Hm, apply_verdict_ne; [apply Hin; by right|]. simpl. intros E. apply Hr. rewrite E.
    by apply (list_elem_of_fmap_2 url). }
  rewrite H2. exists s2. unfold bad_records, count_expired in *. simpl. split; [|split].
  - by destruct v.
  - by rewrite Hm2, Hm.
  - rewrite Hc2, Hc. destruct v; simpl; lia.
Qed.
Lemma fold_verdicts_out js m k : k ∉ map (url ∘ fst) js → fold_left apply_verdict js m !! k = m !! k.
Proof.
  revert m. induction js as [|p js IH]; intros m; simpl; [done|]. intros [Hne Hk]%not_elem_of_cons.
  rewrite IH by done. apply apply_verdict_ne. intros E. by apply Hne.
Qed.
Lemma fold_verdicts_in js m r v : NoDup (map (url ∘ fst) js) → (r, v) ∈ js →
  fold_left apply_verdict js m !! url r = apply_verdict m (r, v) !! url r.
Proof.
  revert m. induction js as [|p js IH]; intros m; simpl; [by intros _ ?%elem_of_nil|].
  intros [Hp Hnd]%NoDup_cons [<-|Hin]%elem_of_cons; [by apply fold_verdicts_out|].
  rewrite IH by done. assert (Hne : url (fst p) ≠ url r).
  { intros E. apply Hp. simpl. rewrite E. change (url r ∈ (url ∘ fst) <$> js).
    apply list_elem_of_fmap. by exists (r, v). }
  destruct v as [r'| |].
  - change (<[url r := r']> (apply_verdict m p) !! url r = <[url r := r']> m !! url r).
    by rewrite !lookup_insert_eq.
  - exact (apply_verdict_ne m p (url r) Hne).
  - change (delete (url r) (apply_verdict m p) !! url r = delete (url r) m !! url r).
    by rewrite !lookup_delete_eq.
Qed.
Lemma judge_all_fst n d rs : map fst (judge_all n d rs) = rs.
Proof.
  revert n d. induction rs as [|r rs IH]; intros n d; simpl; [done|]. destruct (judge n d r) as [[v n'] d']. simpl.
  by rewrite IH.
Qed.

(** ** Caches and their keys *)
(** Every record is under its URL and names the file of that URL. *)
Definition mem_wf (s : InMemoryCRLCache) : Prop :=
  ∀ k r, crlCacheMap s !! k = Some r → url r = k ∧ fileName r = getFileName env k.
(** What the documentation of Set promises of [keySet]. *)
Hypothesis keySet_keys : ∀ n m, NoDup (keySet n m) ∧ ∀ k, k ∈ keySet n m ↔ is_Some (m !! k).

Lemma records_keys s : mem_wf s →
  map url (getCrlCacheRecords keySet s) = keySet (modCount s) (crlCacheMap s) ∧
  (∀ r, r ∈ getCrlCacheRecords keySet s ↔ crlCacheMap s !! url r = Some r).
Proof.
  intros Hwf. unfold getCrlCacheRecords. destruct (keySet_keys (modCount s) (crlCacheMap s)) as [_ Hk]. split.
  - assert (H : ∀ k, k ∈ keySet (modCount s) (crlCacheMap s) → is_Some (crlCacheMap s !! k)) by (intros k; apply Hk).
    revert H. generalize (keySet (modCount s) (crlCacheMap s)). intros ks. induction ks as [|k ks IH]; intros H; [done|].
    simpl. destruct (H k ltac:(left)) as [r Hr]. rewrite Hr. simpl. rewrite (proj1 (Hwf k r Hr)). f_equal. apply IH.
    intros k' ?. apply H. by right.
  - intros r. rewrite list_elem_of_omap. split.
    + intros (k & _ & Hr). by rewrite (proj1 (Hwf k r Hr)).
    + intros Hr. exists (url r). split; [|done]. apply Hk. eauto.
Qed.
Lemma drop_records_lookup l s k :
  crlCacheMap (fold_left (λ s r, drop_record r s) l s) !! k
  = if existsb (λ r, String.eqb (url r) k) l then None else crlCacheMap s !! k.
Proof.
  revert s. induction l as [|r l IH]; intros s; simpl; [done|]. rewrite IH. simpl.
  destruct (String.eqb_spec (url r) k) as [->|Hne]; simpl; [|by rewrite lookup_delete_ne].
  rewrite lookup_delete_eq. by destruct (existsb _ l).
Qed.

Lemma count_expired_none js : existsb (is_expired ∘ snd) js = false ↔ count_expired js = 0.
Proof.
  unfold count_expired. induction js as [|[r v] js IH]; [done|]. simpl. destruct (is_expired v); simpl; [done|]. done.
Qed.
Lemma bad_records_url js r v : NoDup (map (url ∘ fst) js) → (r, v) ∈ js →
  existsb (λ r', String.eqb (url r') (url r)) (bad_records js) = negb (is_kept v).
Proof.
  intros Hnd Hin. apply eq_true_iff_eq. rewrite existsb_exists. unfold bad_records. split.
  - intros (r' & [[r2 v2] [E Hr']]%List.in_map_iff & Hu%String.eqb_eq). simpl in E. subst r2.
    apply List.filter_In in Hr' as [Hr' Hv]. apply list_elem_of_In in Hr'.
    assert (E : (r', v2) = (r, v)) by (by eapply (NoDup_map_elem (url ∘ fst))). by injection E as -> ->.
  - intros Hv. exists r. split; [|apply String.eqb_refl]. apply List.in_map_iff. exists (r, v). split; [done|].
    apply List.filter_In. split; [by apply list_elem_of_In|done].
Qed.

(** A refresh of the whole cache never throws.  When no CRL that was downloaded has
    expired, the cache keeps exactly the records that are still in their grace period or
    were downloaded, with their new times, and drops the others with their data.  But when
    one has expired, its removal inside the traversal makes the traversal throw at its
    end: that record goes, and the records that could not be downloaded stay. *)
Theorem mem_recache_result s :
  mem_wf s →
  let js := judge_all (clockReads s) (downloads s) (getCrlCacheRecords keySet s) in
  let expired := existsb (is_expired ∘ snd) js in
  ∃ s', recache env grace keySet s = (Ret tt, s') ∧
    (∀ r v, (r, v) ∈ js →
       crlCacheMap s' !! url r
       = match v with Keep r' => Some r' | Expired => None | Bad => if expired then Some r else None end) ∧
    (∀ k, crlCacheMap s !! k = None → crlCacheMap s' !! k = None).
Proof.
  intros Hwf js expired. destruct (records_keys s Hwf) as [Hks Hin].
  destruct (keySet_keys (modCount s) (crlCacheMap s)) as [Hnd Hk]. rewrite <- Hks in Hnd.
  destruct (mem_recache_each_spec (getCrlCacheRecords keySet s) s Hnd ltac:(intros r; apply Hin)) as (s1 & H1 & Hm & Hc).
  fold js in H1, Hm, Hc. assert (Hfst : map (url ∘ fst) js = map url (getCrlCacheRecords keySet s)).
  { rewrite <- (judge_all_fst (clockReads s) (downloads s) (getCrlCacheRecords keySet s)) at 1. by rewrite map_map. }
  assert (Hv : ∀ r v, (r, v) ∈ js → crlCacheMap s1 !! url r = apply_verdict (crlCacheMap s) (r, v) !! url r ∧
                                    crlCacheMap s !! url r = Some r).
  { intros r v Hrv. rewrite Hm. split; [apply fold_verdicts_in; [by rewrite Hfst|done]|]. apply Hin.
    rewrite <- (judge_all_fst (clockReads s) (downloads s)). by apply (list_elem_of_fmap_2 fst js (r, v)). }
  assert (Hout : ∀ k, crlCacheMap s !! k = None → crlCacheMap s1 !! k = None).
  { intros k Hn. rewrite Hm, fold_verdicts_out; [done|]. rewrite Hfst, Hks, Hk. rewrite Hn. by intros [? ?]. }
  unfold recache, for_each_record. mrun. rewrite <- Hks, H1. simpl. rewrite Hc.
  destruct expired eqn:He; unfold expired in He.
  - destruct (Nat.eqb_spec (modCount s) (modCount s + count_expired js)) as [E|_].
    { rewrite (proj2 (count_expired_none js)) in He; [done|lia]. }
    exists s1. split; [done|]. split; [|done]. intros r v Hrv. destruct (Hv r v Hrv) as [-> Hr].
    unfold apply_verdict. simpl. destruct v; by rewrite ?lookup_insert_eq, ?lookup_delete_eq.
  - apply count_expired_none in He. rewrite He, Nat.add_0_r, Nat.eqb_refl. eexists. split; [done|]. split.
    + intros r v Hrv. rewrite drop_records_lookup, (bad_records_url js r v) by (rewrite ?Hfst; done).
      destruct (Hv r v Hrv) as [-> _]. unfold apply_verdict. simpl. destruct v; by rewrite ?lookup_insert_eq, ?lookup_delete_eq.
    + intros k Hn. rewrite drop_records_lookup. destruct (existsb _ (bad_records js)); [done|by apply Hout].
Qed.
End Recache.

(** ** Calls of [getCRL] *)
Section Calls.
Context (env : Env) (grace : Z) (keySet : nat → gmap string CRLCacheRecord → list string).
Hypothesis clock_grace : ∀ n, (wrap64 grace <= clock env n)%Z.

Lemma not_recent r n : lastCache r = 0%Z → (clock env n <? wrap64 (lastCache r + grace))%Z = false.
Proof. intros ->. apply Z.ltb_ge. apply clock_grace. Qed.
Lemma mem_getCachedCrl_spec f s o s' : getCachedCrl env f s = (o, s') →
  s' = s ∧ match o with Ret c => ∃ b, crlDataMap s !! f = Some b ∧ generateCRL env b = Some c | Throw _ => True end.
Proof.
  unfold getCachedCrl. mrun. destruct (crlDataMap s !! f) as [b|]; simpl; [|by intros [= <- <-]].
  destruct (generateCRL env b) as [c|] eqn:E; intros [= <- <-]; [|done]. eauto.
Qed.
(** A refresh that returns has put what it downloaded, not expired, under the URL. *)
Lemma mem_getCRL_refresh_spec u s o s' : getCRL_refresh env grace u s = (o, s') →
  clockReads s < clockReads s' ∧
  match o with
  | Ret i => location i = u ∧ ∃ b nu, downloadCrl env (downloads s) u = Ret b ∧ generateCRL env b = Some (crl i) ∧
      crl_nextUpdate (crl i) = Some nu ∧ (clock env (S (clockReads s)) <= nu)%Z ∧
      clockReads s' = 3 + clockReads s ∧ option_map nextUpdate (crlCacheMap s' !! u) = Some nu
  | Throw _ => True
  end.
Proof.
  unfold getCRL_refresh, cacheCrlRecord, getCachedCrl, now, download. mrun.
  rewrite (not_recent (mkRecord 0 0 u (getFileName env u))) by done. simpl.
  destruct (downloadCrl env (downloads s) u) as [b|e]; simpl; [|intros [= <- <-]; simpl; auto].
  rewrite lookup_insert_eq. simpl. destruct (generateCRL env b) as [c|] eqn:Hg; simpl; [|intros [= <- <-]; simpl; auto].
  destruct (crl_nextUpdate c) as [nu|] eqn:Hn; simpl; [|intros [= <- <-]; simpl; auto].
  destruct (Z.ltb_spec nu (clock env (S (clockReads s)))); [intros [= <- <-]; simpl; auto|].
  cbn. rewrite lookup_insert_eq. cbn. rewrite Hg. cbn. intros [= <- <-]. simpl. split; [lia|]. split; [done|].
  exists b, nu. rewrite lookup_insert_eq. auto 10.
Qed.
(** What [getCRL] returns is fresh, as for the cache on disk. *)
Lemma mem_getCRL_fresh_spec u s o s' : getCRL env grace keySet u s = (o, s') →
  clockReads s <= clockReads s' ∧
  match o with
  | Ret i => equalsIgnoreCase u (location i) = true ∧
      ∃ nu n, crl_nextUpdate (crl i) = Some nu ∧ clockReads s <= n < clockReads s' ∧ (clock env n <= nu)%Z
  | Throw _ => True
  end.
Proof.
  assert (R : ∀ t, getCRL_refresh env grace u t = (o, s') → clockReads s <= clockReads t →
    clockReads s <= clockReads s' ∧
    match o with
    | Ret i => equalsIgnoreCase u (location i) = true ∧
        ∃ nu n, crl_nextUpdate (crl i) = Some nu ∧ clockReads s <= n < clockReads s' ∧ (clock env n <= nu)%Z
    | Throw _ => True
    end).
  { intros t [Hc H]%mem_getCRL_refresh_spec Ht. split; [lia|]. destruct o as [i|]; [|done].
    destruct H as (-> & b & nu & _ & _ & Hn & Hle & Hck & _). split; [apply equalsIgnoreCase_refl|].
    exists nu, (S (clockReads t)). auto with lia. }
  unfold getCRL. destruct (negb _); [mrun; by intros [= <- <-]|]. mrun.
  destruct (findFirst _ _) as [r|] eqn:Hr; [|intros H; by apply (R s)]. apply findFirst_Some in Hr as [Hr _].
  destruct (getCachedCrl env (fileName r) s) as [o1 s1] eqn:Hg. apply mem_getCachedCrl_spec in Hg as [-> _].
  destruct o1 as [c|]; [|by intros [= <- <-]]. destruct (crl_nextUpdate c) as [nu|] eqn:Hn; simpl; [|by intros [= <- <-]].
  destruct (Z.ltb_spec (clock env (clockReads s)) nu); [|intros H'; apply (R (tick_clock s) H'); simpl; lia].
  intros [= <- <-]. simpl. split; [lia|]. split; [done|]. exists nu, (clockReads s). auto with lia.
Qed.
(** A URL whose only record points to bytes that are not a CRL. *)
Definition poisoned (u : string) (s : InMemoryCRLCache) : Prop :=
  ∃ r b, findFirst (λ r, equalsIgnoreCase u (url r)) (getCrlCacheRecords keySet s) = Some r ∧
    crlDataMap s !! fileName r = Some b ∧ generateCRL env b = None.
Lemma poisoned_stuck u s : isURI env u = true → poisoned u s →
  getCRL env grace keySet u s = (Throw (RuntimeException "CRLException"), s).
Proof.
  intros Hu (r & b & Hr & Hb & Hg). unfold getCRL. rewrite Hu. mrun. rewrite Hr. unfold getCachedCrl. mrun.
  rewrite Hb. simpl. by rewrite Hg.
Qed.
(** When the CRL of a URL has expired and the download gives bytes that are not a CRL, they
    have already replaced the old ones: the call throws an IOException, and from then on
    every call for the URL throws a RuntimeException that its interface does not declare,
    without a download and without a change of the cache, so that the URL is not served
    until the next recache. *)
Theorem mem_failed_refresh_sticks u s r b c nu b' :
  isURI env u = true →
  findFirst (λ r, equalsIgnoreCase u (url r)) (getCrlCacheRecords keySet s) = Some r →
  fileName r = getFileName env u →
  crlDataMap s !! fileName r = Some b → generateCRL env b = Some c → crl_nextUpdate c = Some nu →
  (nu <= clock env (clockReads s))%Z →
  downloadCrl env (downloads s) u = Ret b' → generateCRL env b' = None →
  ∃ s1, getCRL env grace keySet u s = (Throw (IOException "Unable to cache CRL"), s1) ∧
    crlCacheMap s1 = crlCacheMap s ∧ downloads s1 = S (downloads s) ∧
    ∀ n, let sn := Nat.iter n (λ t, snd (getCRL env grace keySet u t)) s1 in
         getCRL env grace keySet u sn = (Throw (RuntimeException "CRLException"), s1).
Proof.
  intros Hu Hr Hf Hb Hg Hn Hexp Hd Hbad.
  set (s1 := put_data (fileName r) b' (tick_download (tick_clock (tick_clock s)))).
  assert (H1 : getCRL env grace keySet u s = (Throw (IOException "Unable to cache CRL"), s1)).
  { unfold getCRL. rewrite Hu. mrun. rewrite Hr. unfold getCachedCrl at 1. mrun. rewrite Hb. simpl.
    rewrite Hg. simpl. rewrite Hn. simpl. rewrite (proj2 (Z.ltb_ge _ _) Hexp).
    unfold getCRL_refresh, cacheCrlRecord, getCachedCrl, now, download. mrun.
    rewrite (not_recent (mkRecord 0 0 u (getFileName env u))) by done. simpl. rewrite Hd. simpl.
    rewrite lookup_insert_eq. simpl. rewrite Hbad. unfold s1. by rewrite Hf. }
  assert (Hp : poisoned u s1).
  { exists r, b'. split; [exact Hr|]. split; [|done]. unfold s1. simpl. apply lookup_insert_eq. }
  exists s1. split; [done|]. split; [done|]. split; [done|]. intros n. simpl.
  assert (E : Nat.iter n (λ t, snd (getCRL env grace keySet u t)) s1 = s1).
  { induction n as [|n IH]; [done|]. simpl. by rewrite IH, poisoned_stuck. }
  rewrite E. by apply poisoned_stuck.
Qed.
End Calls.

(** ** Reachable caches *)
Section Reachable.
Context (env : Env) (grace : Z) (keySet : nat → gmap string CRLCacheRecord → list string).
(** Calls of the cache, as for the one on disk. *)
Inductive mem_step : InMemoryCRLCache → InMemoryCRLCache → Prop :=
  | mem_getCRL u s o s' : getCRL env grace keySet u s = (o, s') → mem_step s s'
  | mem_getCRL_dp dps s o s' : getCRL_dp env grace keySet dps s = (o, s') → mem_step s s'
  | mem_recache s o s' : recache env grace keySet s = (o, s') → mem_step s s'.
Lemma put_wf k r s : mem_wf env s → url r = k → fileName r = getFileName env k → mem_wf env (put_record k r s).
Proof.
  intros Hwf Hu Hf j r' H. simpl in H. destruct (decide (k = j)) as [<-|Hne].
  - rewrite lookup_insert_eq in H. by injection H as <-.
  - rewrite lookup_insert_ne in H by done. by apply Hwf.
Qed.
Lemma remove_wf k s : mem_wf env s → mem_wf env (remove_record k s).
Proof. intros Hwf j r H. simpl in H. apply lookup_delete_Some in H as [_ H]. by apply Hwf. Qed.
Lemma update_wf k r s : mem_wf env s → url r = k → fileName r = getFileName env k → mem_wf env (update_record k r s).
Proof.
  intros Hwf Hu Hf j r' H. simpl in H. apply lookup_alter_Some in H as [(<- & r0 & _ & ->)|[_ H]]; [done|by apply Hwf].
Qed.
Lemma mem_cacheCrlRecord_wf r s o s' : mem_wf env s → cacheCrlRecord env grace r s = (o, s') →
  mem_wf env s' ∧ match o with Ret r' => url r' = url r ∧ fileName r' = fileName r | Throw _ => True end.
Proof.
  intros Hwf. unfold cacheCrlRecord, getCachedCrl, now, download. mrun.
  destruct (_ <? _)%Z; simpl; [by intros [= <- <-]|].
  destruct (downloadCrl _ _ _) as [b|e]; simpl; [|by intros [= <- <-]]. rewrite lookup_insert_eq. simpl.
  destruct (generateCRL _ _) as [c|]; simpl; [|by intros [= <- <-]].
  destruct (crl_nextUpdate c) as [nu|]; simpl; [|by intros [= <- <-]].
  destruct (_ <? _)%Z; simpl; intros [= <- <-]; [|done]. split; [|done]. by apply remove_wf.
Qed.
Lemma mem_recache_one_wf k s o s' : mem_wf env s → recache_one env grace k s = (o, s') → mem_wf env s'.
Proof.
  intros Hwf. unfold recache_one. mrun. destruct (crlCacheMap s !! k) as [r|] eqn:Hk; simpl; [|by intros [= <- <-]].
  destruct (Hwf k r Hk) as [Hu Hf]. destruct (cacheCrlRecord env grace r s) as [[r'|e] s1] eqn:Hc;
    apply mem_cacheCrlRecord_wf in Hc as [Hwf1 Hr]; try done; intros [= <- <-]; [|done].
  destruct Hr. apply update_wf; [done|congruence..].
Qed.
Lemma mem_recache_each_wf ks s o s' : mem_wf env s → recache_each env grace ks s = (o, s') → mem_wf env s'.
Proof.
  revert s o s'. induction ks as [|k ks IH]; intros s o s' Hwf; simpl; mrun; [by intros [= <- <-]|].
  destruct (recache_one env grace k s) as [[bad|e] s1] eqn:H1; apply mem_recache_one_wf in H1; try done; [|by intros [= <- <-]].
  destruct (recache_each env grace ks s1) as [[bads|e] s2] eqn:H2; apply IH in H2; try done; by intros [= <- <-].
Qed.
Lemma mem_recache_wf s o s' : mem_wf env s → recache env grace keySet s = (o, s') → mem_wf env s'.
Proof.
  intros Hwf. unfold recache, for_each_record. mrun.
  destruct (recache_each env grace _ s) as [[bads|e] s1] eqn:H; apply mem_recache_each_wf in H; try done; simpl.
  2:{ by intros [= <- <-]. }
  destruct (Nat.eqb _ _); simpl; intros [= <- <-]; [|done].
  revert s1 H. induction bads as [|r bads IH]; intros s1 H; simpl; [done|]. apply IH. unfold drop_record.
  apply (remove_wf (url r)) in H. exact H.
Qed.
Lemma mem_getCRL_refresh_wf u s o s' : mem_wf env s → getCRL_refresh env grace u s = (o, s') → mem_wf env s'.
Proof.
  intros Hwf. unfold getCRL_refresh. mrun.
  destruct (cacheCrlRecord env grace _ s) as [[r|e] s1] eqn:Hc; apply mem_cacheCrlRecord_wf in Hc as [Hwf1 Hr]; try done;
    [|by intros [= <- <-]].
  destruct Hr as [Hu Hf]. simpl in Hu, Hf. assert (Hp : mem_wf env (put_record (url r) r s1)) by (apply put_wf; [done|congruence..]).
  destruct (getCachedCrl env (fileName r) _) as [o2 s2] eqn:Hg. apply mem_getCachedCrl_spec in Hg as [-> _].
  destruct o2; by intros [= <- <-].
Qed.
Lemma mem_getCRL_wf u s o s' : mem_wf env s → getCRL env grace keySet u s = (o, s') → mem_wf env s'.
Proof.
  intros Hwf. unfold getCRL. destruct (negb _); [mrun; by intros [= <- <-]|]. mrun.
  destruct (findFirst _ _) as [r|]; [|by apply mem_getCRL_refresh_wf].
  destruct (getCachedCrl env (fileName r) s) as [o1 s1] eqn:Hg. apply mem_getCachedCrl_spec in Hg as [-> _].
  destruct o1 as [c|]; [|by intros [= <- <-]]. destruct (crl_nextUpdate c) as [nu|]; simpl; [|by intros [= <- <-]].
  destruct (_ <? _)%Z; [by intros [= <- <-]|]. by apply mem_getCRL_refresh_wf.
Qed.
(** In every state that calls can reach the records are under their URLs. *)
Lemma mem_reachable_wf s : rtc mem_step (new_InMemoryCRLCache env grace keySet) s → mem_wf env s.
Proof.
  apply rtc_invariant.
  - unfold new_InMemoryCRLCache. destruct (recache _ _ _ _) as [o s'] eqn:H. apply mem_recache_wf in H; [done|].
    intros k r Hr. simpl in Hr. by rewrite lookup_empty in Hr.
  - intros t t' Hwf Hst. destruct Hst as [u t o t' H|dps t o t' H|t o t' H].
    + by apply mem_getCRL_wf in H.
    + destruct dps as [dps|]; [|by injection H as _ <-].
      revert H. apply policy_invariant; [|done]. intros. by eapply mem_getCRL_wf.
    + by apply mem_recache_wf in H.
Qed.
End Reachable.

(** ** Examples *)
(** Keys in the order of the map's own list. *)
Definition demo_keys (_ : nat) (m : gmap string CRLCacheRecord) : list string := map fst (map_to_list m).
Lemma demo_keys_ok n m : NoDup (demo_keys n m) ∧ ∀ k, k ∈ demo_keys n m ↔ is_Some (m !! k).
Proof.
  unfold demo_keys. split; [apply NoDup_fst_map_to_list|]. intros k. change (k ∈ fst <$> map_to_list m ↔ is_Some (m !! k)).
  rewrite list_elem_of_fmap. split.
  - intros ([k' r] & -> & H%elem_of_map_to_list). simpl. eauto.
  - intros [r Hr]. exists (k, r). split; [done|]. by apply elem_of_map_to_list.
Qed.
(** The clock reads 100, 101, …; a CRL's bytes are "old" (expired at 50), "new" (good
    until 900) or no CRL; the downloads by URL. *)
Definition demo_mem_env (answer : string → outcome string) : Env := mkEnv
  (λ n, 100 + Z.of_nat n)%Z (λ _, answer)
  (λ b, if String.eqb b "old" then Some (mkCRL 1 (Some 50) [])
        else if String.eqb b "new" then Some (mkCRL 2 (Some 900) []) else None)%Z
  (λ _, true) (λ u, u).
Definition demo_record (u : string) : CRLCacheRecord := mkRecord 10 50 u (u ++ ".crl").
Definition demo_mem (us : list string) : InMemoryCRLCache :=
  mkMem (list_to_map (map (λ u, (u, demo_record u)) us)) (length us)
    (list_to_map (map (λ u, ((u ++ ".crl")%string, "old"%string)) us)) 0 0.
Lemma demo_mem_wf answer us : mem_wf (demo_mem_env answer) (demo_mem us).
Proof.
  intros k r H. unfold demo_mem in H. simpl in H. apply elem_of_list_to_map_2 in H.
  change ((k, r) ∈ (λ u, (u, demo_record u)) <$> us) in H. apply list_elem_of_fmap in H as (u & [= -> ->] & _). done.
Qed.
(** "a" is downloaded, "b" is not, and "c" has expired: "b" stays. *)
Definition demo_answers (u : string) : outcome string :=
  if String.eqb u "a" then Ret "new"%string else if String.eqb u "c" then Ret "old"%string
  else Throw (IOException "no answer").
Lemma mem_recache_result_witness :
  (∃ s', recache (demo_mem_env demo_answers) 5 demo_keys (demo_mem ["a"; "b"]%string) = (Ret tt, s') ∧
     crlCacheMap s' !! "b"%string = None) ∧
  (∃ s', recache (demo_mem_env demo_answers) 5 demo_keys (demo_mem ["a"; "b"; "c"]%string) = (Ret tt, s') ∧
     crlCacheMap s' !! "b"%string = Some (demo_record "b") ∧ crlCacheMap s' !! "c"%string = None).
Proof.
  split.
  - destruct (mem_recache_result (demo_mem_env demo_answers) 5 demo_keys demo_keys_ok _ (demo_mem_wf demo_answers ["a"; "b"]%string))
      as (s' & H & Hv & _).
    exists s'. split; [exact H|]. refine (eq_trans (Hv (demo_record "b") Bad _) _).
    + apply list_elem_of_In. vm_compute. auto.
    + vm_compute. reflexivity.
  - destruct (mem_recache_result (demo_mem_env demo_answers) 5 demo_keys demo_keys_ok _ (demo_mem_wf demo_answers ["a"; "b"; "c"]%string))
      as (s' & H & Hv & _).
    exists s'. split; [exact H|]. split.
    + refine (eq_trans (Hv (demo_record "b") Bad _) _); [apply list_elem_of_In; vm_compute; auto|vm_compute; reflexivity].
    + refine (eq_trans (Hv (demo_record "c") Expired _) _); [apply list_elem_of_In; vm_compute; auto|vm_compute; reflexivity].
Defined.
Lemma mem_failed_refresh_sticks_witness :
  ∃ s1, getCRL (demo_mem_env (λ _, Ret "<html>"%string)) 5 demo_keys "a" (demo_mem ["a"]%string)
        = (Throw (IOException "Unable to cache CRL"), s1) ∧
    crlCacheMap s1 = crlCacheMap (demo_mem ["a"]%string) ∧ downloads s1 = 1 ∧
    ∀ n, let sn := Nat.iter n (λ t, snd (getCRL (demo_mem_env (λ _, Ret "<html>"%string)) 5 demo_keys "a" t)) s1 in
         getCRL (demo_mem_env (λ _, Ret "<html>"%string)) 5 demo_keys "a" sn = (Throw (RuntimeException "CRLException"), s1).
Proof.
  eapply (mem_failed_refresh_sticks (demo_mem_env (λ _, Ret "<html>"%string)) 5 demo_keys) with (b := "old"%string);
    try (vm_compute; reflexivity); [|vm_compute; discriminate].
  intros n. change (wrap64 5) with 5%Z. cbn [clock demo_mem_env]. lia.
Defined.
