(* ===== verification/CrlSource.v ===== *)
(** * The interface of a CRL cache

    What the two implementations of CRLCache.java promise to their clients, as a class:
    a call of [getCRL] moves the clock forward, and a CRL it returns is for the URL and
    fresh.  The policy of distribution points is proved against the class. *)
From Stdlib Require Import ZArith Lia Ascii String.
From stdpp Require Import base gmap strings list.
From S2P Require Import Prelude CertModel.
From S2P Require Import CrlCache.
From S2P Require MemCache.

Class CrlSource (clock : nat → Z) (S : Type) := {
  source_getCRL : string → M S CRLInfo;
  source_clock : S → nat;
  source_forward u s o s' : source_getCRL u s = (o, s') → source_clock s ≤ source_clock s';
  source_fresh u s i s' : source_getCRL u s = (Ret i, s') →
    equalsIgnoreCase u (location i) = true ∧
    ∃ nu n, crl_nextUpdate (crl i) = Some nu ∧ source_clock s ≤ n < source_clock s' ∧ (clock n <= nu)%Z
}.

(** ** The implementations *)
Section File.
Context (env : Env) (grace : Z).
Hypothesis clock_grace : ∀ n, (wrap64 grace <= clock env n)%Z.
Lemma file_forward u s o s' : getCRL env grace u s = (o, s') → clockReads s ≤ clockReads s'.
Proof.
  unfold getCRL. destruct (negb (isURI env u)); [mrun; by intros [= <- <-]|]. mrun.
  destruct (crlCacheRecordList s) as [l|] eqn:Hl; simpl; [|by intros [= <- <-]].
  assert (R : ∀ t, crlCacheRecordList t = Some l → getCRL_refresh env grace u t = (o, s') →
    clockReads s ≤ clockReads t → clockReads s ≤ clockReads s').
  { intros t Ht [H _]%(getCRL_refresh_spec env grace u l) ?; [lia|done]. }
  destruct (findFirst _ l) as [r|]; [|intros H; by apply (R s)].
  destruct (getCachedCrl env (fileName r) s) as [o1 s1] eqn:Hg. apply getCachedCrl_spec in Hg as [-> _].
  destruct o1 as [c|]; [|by intros [= <- <-]]. destruct (crl_nextUpdate c) as [nu|]; simpl; [|by intros [= <- <-]].
  destruct (_ <? nu)%Z; [intros [= <- <-]; simpl; lia|]. intros H. apply (R (tick_clock s)); [done..|simpl; lia].
Qed.
Definition file_source : CrlSource (clock env) CRLCache := {|
  source_getCRL := getCRL env grace;
  source_clock := clockReads;
  source_forward := file_forward;
  source_fresh := getCRL_fresh env grace clock_grace
|}.
End File.
Section Memory.
Context (env : Env) (grace : Z) (keySet : nat → gmap string CRLCacheRecord → list string).
Hypothesis clock_grace : ∀ n, (wrap64 grace <= clock env n)%Z.
Lemma memory_forward u s o s' :
  MemCache.getCRL env grace keySet u s = (o, s') → MemCache.clockReads s ≤ MemCache.clockReads s'.
Proof. intros H. by apply (MemCache.mem_getCRL_fresh_spec env grace keySet clock_grace) in H as [? _]. Qed.
Lemma memory_fresh u s i s' : MemCache.getCRL env grace keySet u s = (Ret i, s') →
  equalsIgnoreCase u (location i) = true ∧
  ∃ nu n, crl_nextUpdate (crl i) = Some nu ∧ MemCache.clockReads s ≤ n < MemCache.clockReads s' ∧ (clock env n <= nu)%Z.
Proof. intros H. by apply (MemCache.mem_getCRL_fresh_spec env grace keySet clock_grace) in H as [_ ?]. Qed.
Definition memory_source : CrlSource (clock env) MemCache.InMemoryCRLCache := {|
  source_getCRL := MemCache.getCRL env grace keySet;
  source_clock := MemCache.clockReads;
  source_forward := memory_forward;
  source_fresh := memory_fresh
|}.
End Memory.

(** ** The client *)
(** What the policy promises of a CRL it returns while the clock is read from [start] on and
    before [stop]: the URI is the first http one that the acceptable distribution points name,
    or the first ldap one, the CRL is from there, and its next update was not in the past at
    a reading of the clock. *)
Definition from_policy (clk : nat → Z) (dps : list DistributionPoint) (start stop : nat) (i : CRLInfo) : Prop :=
  ∃ u dp, dp ∈ dps ∧ hasCRLIssuer dp = false ∧ hasReasons dp = false ∧ u ∈ approved_of dp ∧
    (∃ scheme, (scheme = "http" ∨ scheme = "ldap")%string ∧
       List.find (λ s, startsWith scheme (toLowerCase s)) (concat (map approved_of dps)) = Some u) ∧
    equalsIgnoreCase u (location i) = true ∧
    ∃ nu n, crl_nextUpdate (crl i) = Some nu ∧ start ≤ n < stop ∧ (clk n <= nu)%Z.
Section Client.
Context {clk : nat → Z} {S : Type} `{!CrlSource clk S}.
(** [getCRL(CRLDistPoint)] of any cache *)
Lemma policy_of_source dps s i s' :
  getCRL_policy source_getCRL (Some dps) s = (Ret i, s') → from_policy clk dps (source_clock s) (source_clock s') i.
Proof.
  intros (u & s0 & Hu & Hget & Hfrom)%policy_answer.
  destruct (source_fresh u s0 i s' Hget) as (Hloc & nu & n & Hnu & [Hn1 Hn2] & Hle).
  assert (Hclock : source_clock s ≤ source_clock s0).
  { destruct Hfrom as [[_ ->]|[_ H]]; [done|]. destruct (findFirst _ _) as [v|]; [|by subst].
    destruct H as [e H]. by apply source_forward in H. }
  apply list_elem_of_In, List.in_concat in Hu as (us & [dp [<- Hdp]]%List.in_map_iff & Hu%list_elem_of_In).
  apply list_elem_of_In in Hdp. exists u, dp. split; [done|].
  assert (Ha : hasCRLIssuer dp = false ∧ hasReasons dp = false).
  { unfold approved_of in Hu. destruct (hasCRLIssuer dp), (hasReasons dp); simpl in Hu; try done; by apply elem_of_nil in Hu. }
  destruct Ha. split; [done|]. split; [done|]. split; [done|]. split.
  - destruct Hfrom as [[Hf _]|[Hf _]]; [exists "http"%string|exists "ldap"%string]; auto.
  - split; [done|]. exists nu, n. split; [done|]. split; [lia|done].
Qed.
End Client.
(** C32. Through either cache, the one on disk and the one in memory, a CRL that [getCRL]
    returns for the distribution points of a certificate comes from a point that names neither
    a CRL issuer nor reasons, from the first http URI of such points or the first ldap one;
    its location is that URI up to letter case, and its next update was not in the past at
    some reading of the clock during the call.  The clock is past the grace period after 1970:
    before, a record that was never cached counts as recent. *)
Theorem policy_fresh env grace keySet dps :
  (∀ n, (wrap64 grace <= clock env n)%Z) →
  (∀ s i s', CrlCache.getCRL_dp env grace (Some dps) s = (Ret i, s') →
     from_policy (clock env) dps (CrlCache.clockReads s) (CrlCache.clockReads s') i) ∧
  (∀ s i s', MemCache.getCRL_dp env grace keySet (Some dps) s = (Ret i, s') →
     from_policy (clock env) dps (MemCache.clockReads s) (MemCache.clockReads s') i).
Proof.
  intros Hclk. split; intros s i s'.
  - apply (policy_of_source (CrlSource0 := file_source env grace Hclk)).
  - apply (policy_of_source (CrlSource0 := memory_source env grace keySet Hclk)).
Qed.

(** Of three points the one with reasons is passed over: both caches download from the
    second. *)
Lemma demo_clock_mem answer n : (wrap64 5 <= clock (MemCache.demo_mem_env answer) n)%Z.
Proof. change (wrap64 5) with 5%Z. cbn [clock MemCache.demo_mem_env]. lia. Qed.
Lemma policy_fresh_witness :
  let env := MemCache.demo_mem_env (λ _, Ret "new"%string) in
  let i := mkCRLInfo (mkCRL 2 (Some 900%Z) []) "HTTP://c/crl" in
  from_policy (clock env) demo_dps 2 5 i ∧ from_policy (clock env) demo_dps 0 3 i.
Proof.
  intros env i. destruct (policy_fresh env 5 MemCache.demo_keys demo_dps (demo_clock_mem _)) as [Hfile Hmem]. split.
  - refine (Hfile (mkCache (Some []) (Records []) ∅ ∅ 2 0) i
      (snd (getCRL_dp env 5 (Some demo_dps) (mkCache (Some []) (Records []) ∅ ∅ 2 0))) _). vm_compute. reflexivity.
  - refine (Hmem (MemCache.demo_mem []) i (snd (MemCache.getCRL_dp env 5 MemCache.demo_keys (Some demo_dps) (MemCache.demo_mem []))) _).
    vm_compute. reflexivity.
Defined.
