(* ===== verification/Validity.v ===== *)
(** * Certificate status checking

    Model of cert-validation/.../validity: the status object
    ([ValidationStatus.java]), the CRL checker ([CRLValidityChecker.java]), the
    OCSP checker ([OCSPCertificateVerifier.java]), the check of the path behind
    a status token ([BasicValidityPathChecker.java]) and the certificate checker
    that combines them ([BasicCertificateValidityChecker.java]), in the single
    threaded mode as a function and in the multi threaded mode as a step relation. *)
From Stdlib Require Import ZArith Lia Ascii String.
From stdpp Require Import base gmap strings list relations.
From S2P Require Import Prelude CertModel CrlCache.

Inductive ValidatorSourceType := OCSP | CRL | SELF_SIGNED.
Inductive CertificateValidity := VALID | INVALID | REVOKED | UNKNOWN.

#[export] Instance ValidatorSourceType_eq_dec : EqDecision ValidatorSourceType.
Proof. solve_decision. Defined.
#[export] Instance CertificateValidity_eq_dec : EqDecision CertificateValidity.
Proof. solve_decision. Defined.

(** [ValidationStatus]; a reference field that may be [null] is an option. *)
Record ValidationStatus := mkStatus {
  certificate : option X509Certificate;
  issuer : option X509Certificate;
  validity : CertificateValidity;
  valdationSourceLocation : option string;
  sourceType : option ValidatorSourceType;
  revocationObjectIssuingTime : option Date;
  revocationTime : option Date;
  validationTime : option Date;
  statusSignerCertificate : option X509Certificate;
  statusSignerCertificateChain : option (list X509Certificate);
  statusSignatureValid : bool;
  reason : Z;
  exception : option exn
}.

(** The setters the checkers use. *)
Definition setValidity v st := mkStatus (certificate st) (issuer st) v (valdationSourceLocation st) (sourceType st) (revocationObjectIssuingTime st) (revocationTime st) (validationTime st) (statusSignerCertificate st) (statusSignerCertificateChain st) (statusSignatureValid st) (reason st) (exception st).
Definition setException e st := mkStatus (certificate st) (issuer st) (validity st) (valdationSourceLocation st) (sourceType st) (revocationObjectIssuingTime st) (revocationTime st) (validationTime st) (statusSignerCertificate st) (statusSignerCertificateChain st) (statusSignatureValid st) (reason st) (Some e).
Definition setLocation u st := mkStatus (certificate st) (issuer st) (validity st) (Some u) (sourceType st) (revocationObjectIssuingTime st) (revocationTime st) (validationTime st) (statusSignerCertificate st) (statusSignerCertificateChain st) (statusSignatureValid st) (reason st) (exception st).
Definition setSigner c chain st := mkStatus (certificate st) (issuer st) (validity st) (valdationSourceLocation st) (sourceType st) (revocationObjectIssuingTime st) (revocationTime st) (validationTime st) (Some c) (Some chain) true (reason st) (exception st).
Definition setIssuer c st := mkStatus (certificate st) (Some c) (validity st) (valdationSourceLocation st) (sourceType st) (revocationObjectIssuingTime st) (revocationTime st) (validationTime st) (statusSignerCertificate st) (statusSignerCertificateChain st) (statusSignatureValid st) (reason st) (exception st).
Definition setIssuingTime t st := mkStatus (certificate st) (issuer st) (validity st) (valdationSourceLocation st) (sourceType st) (Some t) (revocationTime st) (validationTime st) (statusSignerCertificate st) (statusSignerCertificateChain st) (statusSignatureValid st) (reason st) (exception st).
Definition setRevocationTime t st := mkStatus (certificate st) (issuer st) (validity st) (valdationSourceLocation st) (sourceType st) (revocationObjectIssuingTime st) (Some t) (validationTime st) (statusSignerCertificate st) (statusSignerCertificateChain st) (statusSignatureValid st) (reason st) (exception st).
Definition setReason r st := mkStatus (certificate st) (issuer st) (validity st) (valdationSourceLocation st) (sourceType st) (revocationObjectIssuingTime st) (revocationTime st) (validationTime st) (statusSignerCertificate st) (statusSignerCertificateChain st) (statusSignatureValid st) r (exception st).
Definition setSignatureValid b st := mkStatus (certificate st) (issuer st) (validity st) (valdationSourceLocation st) (sourceType st) (revocationObjectIssuingTime st) (revocationTime st) (validationTime st) (statusSignerCertificate st) (statusSignerCertificateChain st) b (reason st) (exception st).

(** A status as [ValidationStatus.builder()...build()] makes it with only a
    certificate, a source, a validation time and a validity. *)
Definition newStatus (c i : option X509Certificate) (src : option ValidatorSourceType)
    (t : option Date) (v : CertificateValidity) : ValidationStatus :=
  mkStatus c i v None src None None t None None false 0 None.

(** ** OCSP messages (classes of Bouncy Castle, as the verifier observes them) *)
Record CertificateID := mkCertificateID { issuerHash : Z; cid_serial : Z }.
Definition cid_eqb (a b : CertificateID) : bool :=
  Z.eqb (issuerHash a) (issuerHash b) && Z.eqb (cid_serial a) (cid_serial b).

(** [SingleResp.getCertStatus()]; [getRevocationReason] is what the accessor of
    [RevokedStatus] does, which throws when the response carries no reason. *)
Inductive CertificateStatus :=
  | GOOD
  | RevokedStatus (revoked_at : Date) (getRevocationReason : outcome Z)
  | UnknownStatus.

Record SingleResp := mkSingleResp {
  getCertID : CertificateID;
  getThisUpdate : Date;
  getCertStatus : CertificateStatus
}.

Record BasicOCSPResp := mkBasicOCSPResp {
  getCerts : outcome (list X509Certificate);
  getProducedAt : Date;
  nonceExtension : option (option (list Z));
  getResponses : list SingleResp;
  signatureOf : Z
}.

Record OCSPResp := mkOCSPResp { getStatus : Z; getResponseObject : BasicOCSPResp }.

(** Cryptography the checkers use: [crl.verify], [cert.verify],
    [isSignatureValid] (it may throw), the hash of an issuer in a
    [CertificateID] and the DER octet string encoding. *)
Record Crypto := mkCrypto {
  crlVerify : X509CRL → PublicKey → bool;
  certVerify : X509Certificate → PublicKey → bool;
  isSignatureValid : BasicOCSPResp → X509Certificate → outcome bool;
  hashIssuer : X509Certificate → Z;
  derOctetString : list Z → list Z
}.

(** ** The environment of the checkers

    The checkers are written against the interface [CRLCache] of the source,
    the system clock, the random source and the OCSP client: a class over the
    type of the state these operations share. *)
Class ValidationEnv (S : Type) := {
  cacheGetCRL : option (list DistributionPoint) → M S CRLInfo;
  newDate : M S Z;
  nextBytes : M S (list Z);
  requestOCSPResponse : string → CertificateID → option (list Z) → M S OCSPResp
}.

(** The file backed cache, with the OCSP client and the random source as
    functions of a call counter, implements it. *)
Record Services := mkServices {
  ocspAnswer : nat → string → CertificateID → option (list Z) → outcome OCSPResp;
  randomBytes : nat → list Z
}.
Definition on_fst {S T A} (m : M S A) : M (S * T) A := λ s,
  let '(o, s1) := m (fst s) in (o, (s1, snd s)).
Definition cacheEnv (env : Env) (grace : Z) (sv : Services) : ValidationEnv (CRLCache * nat) := {|
  cacheGetCRL := λ dps, on_fst (getCRL_dp env grace dps);
  newDate := on_fst (now env);
  nextBytes := λ s, (Ret (randomBytes sv (snd s)), (fst s, S (snd s)));
  requestOCSPResponse := λ u cid n s, (ocspAnswer sv (snd s) u cid n, (fst s, S (snd s)))
|}.

Definition getReasonCode (r : CRLReason) : Z :=
  match r with
  | KEY_COMPROMISE => 1
  | CA_COMPROMISE => 2
  | AFFILIATION_CHANGED => 3
  | SUPERSEDED => 4
  | CESSATION_OF_OPERATION => 5
  | CERTIFICATE_HOLD => 6
  | REMOVE_FROM_CRL => 8
  | PRIVILEGE_WITHDRAWN => 9
  | AA_COMPROMISE => 10
  | _ => 0
  end.

(** [X509CRL.isRevoked] and [getRevokedCertificate] *)
Definition getRevokedCertificate (c : X509CRL) (cert : X509Certificate) : option X509CRLEntry :=
  findFirst (λ e, Z.eqb (revokedIssuer e) (issuerName cert) && Z.eqb (revokedSerial e) (serialNumber cert)) (crl_entries c).
Definition isRevoked (c : X509CRL) (cert : X509Certificate) : bool :=
  match getRevokedCertificate c cert with Some _ => true | None => false end.

Section Checkers.
Context {S : Type} `{VE : ValidationEnv S} (cr : Crypto).

(** [CRLValidityChecker.checkValidity] *)
Definition crl_checkValidity (cert iss : X509Certificate) : M S ValidationStatus :=
  t ← newDate;
  let b0 := newStatus (Some cert) None (Some CRL) (Some t) UNKNOWN in
  o ← attempt (cacheGetCRL (getCrlDistPoint cert));
  match o with
  | Throw ex => mret (setException ex b0)
  | Ret crlInfo =>
      let b1 := setLocation (location crlInfo) b0 in
      let c := crl crlInfo in
      if negb (crlVerify cr c (publicKey iss)) then
        mret (setException (SecurityException "SignatureException") b1)
      else
        let b2 := setSigner iss [iss] (setIssuer iss b1) in
        match getRevokedCertificate c cert with
        | None => mret (setValidity VALID b2)
        | Some crlEntry =>
            let b3 := setRevocationTime (revocationDate crlEntry) (setValidity REVOKED b2) in
            match revocationReason crlEntry with
            | Some r => mret (setReason (getReasonCode r) b3)
            | None => mret b3
            end
        end
  end.

(** ** [OCSPCertificateVerifier] *)
Definition getNonce (includeNonce : bool) : M S (option (list Z)) :=
  if negb includeNonce then mret None else n ← nextBytes; mret (Some n).

Definition bytes_eqb (a b : list Z) : bool := bool_decide (a = b).

Definition checkNonce (resp : BasicOCSPResp) (nonce : option (list Z)) : outcome unit :=
  match nonceExtension resp with
  | None => Ret tt
  | Some responseNonce =>
      match nonce with
      | None => Throw (IOException "There is a nonce in the response but no nonce was sent in the request")
      | Some n =>
          match responseNonce with
          | None => Throw (IOException "Response nonce has illegal content")
          | Some rn =>
              if Nat.ltb 1024 (length rn) then
                Throw (IOException "Response nonce has illegal content")
              else if bytes_eqb (derOctetString cr n) rn then Ret tt
              else if bytes_eqb n rn then Ret tt
              else Throw (IOException "Nonce in request does not match nonce provided in the response")
          end
      end
  end.

(** [checkResponseSignature]: every certificate is tried; the last one that
    verifies the response is recorded. *)
Definition try_signer (resp : BasicOCSPResp) (certList : list X509Certificate)
    (st : ValidationStatus) (c : X509Certificate) : ValidationStatus :=
  match isSignatureValid cr resp c with
  | Ret true => setSigner c certList st
  | _ => st
  end.
Definition checkResponseSignature (iss : X509Certificate) (resp : BasicOCSPResp)
    (st : ValidationStatus) : outcome ValidationStatus :=
  responseCerts ← getCerts resp;
  let certList := match responseCerts with [] => [iss] | _ => responseCerts end in
  Ret (fold_left (try_signer resp certList) certList st).

(** One matching entry of the response; the second component is the exception
    it ends with. *)
Definition single_response (date : Date) (resp : BasicOCSPResp) (r : SingleResp)
    (st : ValidationStatus) : ValidationStatus * option exn :=
  let st1 := setIssuingTime (getProducedAt resp) st in
  match getCertStatus r with
  | GOOD => (setValidity VALID st1, None)
  | RevokedStatus revocationDate rsn =>
      if Z.ltb date revocationDate then (setValidity VALID st1, None)
      else
        let st2 := setIssuingTime (getThisUpdate r) (setRevocationTime revocationDate st1) in
        match rsn with
        | Ret code => (setValidity REVOKED (setReason code st2), None)
        | Throw ex => (st2, Some ex)
        end
  | UnknownStatus => (st1, None)
  end.

Fixpoint responses_loop (cid : CertificateID) (date : Date) (resp : BasicOCSPResp)
    (l : list SingleResp) (found : bool) (st : ValidationStatus) :
    ValidationStatus * bool * option exn :=
  match l with
  | [] => (st, found, None)
  | r :: l' =>
      if negb (cid_eqb cid (getCertID r)) then responses_loop cid date resp l' found st
      else match single_response date resp r st with
           | (st', None) => responses_loop cid date resp l' true st'
           | (st', Some ex) => (st', true, Some ex)
           end
  end.

Definition RESPONSE_STATUS : list string :=
  ["SUCCESSFUL"; "MALFORMED_REQUEST"; "INTERNAL_ERROR"; "TRY_LATER"; "NO_USED";
   "SIG_REQUIRED"; "UNAUTHORIZED"]%string.

(** The part of [checkValidity] after a response arrived. *)
Definition ocsp_response (iss : X509Certificate) (cid : CertificateID)
    (nonce : option (list Z)) (date : Date) (ocspUrl : string)
    (ocspResp : OCSPResp) (st : ValidationStatus) : ValidationStatus :=
  if negb (Z.eqb (getStatus ocspResp) 0) then
    let st1 := setValidity INVALID st in
    match nth_error RESPONSE_STATUS (Z.to_nat (getStatus ocspResp)) with
    | Some name => setException (IOException ("OCSP response is invalid from" ++ ocspUrl ++ " - Status: " ++ name)) st1
    | None => setException IndexOutOfBounds st1
    end
  else
    let basic := getResponseObject ocspResp in
    match checkResponseSignature iss basic st with
    | Throw ex => setException ex st
    | Ret st1 =>
        match checkNonce basic nonce with
        | Throw ex => setException ex st1
        | Ret _ =>
            match responses_loop cid date basic (getResponses basic) false st1 with
            | (st2, _, Some ex) => setException ex st2
            | (st2, true, None) => st2
            | (st2, false, None) =>
                setException (IOException "There are no matching OCSP response entries") st2
            end
        end
    end.

(** [checkValidity(Date)] *)
Definition ocsp_checkValidity_at (includeNonce : bool) (cert iss : X509Certificate)
    (validationDate : Date) : M S ValidationStatus :=
  let st := newStatus (Some cert) (Some iss) (Some OCSP) (Some validationDate) UNKNOWN in
  match getOCSPUrl cert with
  | None => mret (setSignatureValid false st)
  | Some ocspUrl =>
      let st1 := setLocation ocspUrl st in
      let cid := mkCertificateID (hashIssuer cr iss) (serialNumber cert) in
      nonce ← getNonce includeNonce;
      o ← attempt (requestOCSPResponse ocspUrl cid (derOctetString cr <$> nonce));
      match o with
      | Throw ex => mret (setException ex st1)
      | Ret ocspResp => mret (ocsp_response iss cid nonce validationDate ocspUrl ocspResp st1)
      end
  end.

Definition ocsp_checkValidity (includeNonce : bool) (cert iss : X509Certificate) :
    M S ValidationStatus :=
  d ← newDate; ocsp_checkValidity_at includeNonce cert iss d.

(** ** [BasicValidityPathChecker] *)

(** [checkCrlTrustPath] *)
Definition checkCrlTrustPath (st : ValidationStatus) : M S unit :=
  match issuer st, statusSignerCertificate st with
  | Some iss, Some signer =>
      t ← newDate;
      if negb (isCurrentlyValid iss t) then
        raise (RuntimeException "CRL validation failed: Expired or not yet valid CRL issuer certificate")
      else if negb (cert_eqb iss signer) then
        raise (RuntimeException "CRL validation failed: CRL is not verified through the target CA certificate")
      else if Z.ltb (basicConstraints signer) 0 then
        raise (RuntimeException "CRL validation failed: Non CA CRL issuer")
      else
        match keyUsage signer with
        | None => raise (RuntimeException "CRL validation failed: CRL key usage bit not set")
        | Some bits =>
            match nth_error bits 6 with
            | None => raise IndexOutOfBounds
            | Some true => mret tt
            | Some false => raise (RuntimeException "CRL validation failed: CRL key usage bit not set")
            end
        end
  | _, _ => raise (RuntimeException "CRL validation failed: CRL issuer certificate missing for CRL validation")
  end.

Definition id_kp_OCSPSigning : string := "1.3.6.1.5.5.7.3.9".

(** [checkOcspTrustPath] up to the check of the responder certificate itself;
    the result says whether that last check is needed. *)
Definition checkOcspResponder (st : ValidationStatus) :
    M S (option (X509Certificate * X509Certificate)) :=
  match issuer st, statusSignerCertificate st, statusSignerCertificateChain st with
  | Some iss, Some signer, Some (c0 :: chain') =>
      t ← newDate;
      if negb (isCurrentlyValid iss t) then
        raise (RuntimeException "OCSP validation failed: Expired or not yet valid issuer certificate")
      else
      t' ← newDate;
      if negb (isCurrentlyValid signer t') then
        raise (RuntimeException "OCSP validation failed: Expired or not yet valid OCSP signer certificate")
      else if cert_eqb iss signer then mret None
      else if negb (certVerify cr signer (publicKey iss)) then
        raise (RuntimeException "OCSP validation failed: OCSP responder certificate can't be verified using target CA certificate")
      else if existsb (λ c, match certificate st with Some t => cert_eqb c t | None => false end)
                (c0 :: chain') then
        raise (RuntimeException "OCSP recursive error: OCSP responder certificate trust path contains target certificate")
      else if negb (match extendedKeyUsage signer with
                    | Some l => existsb (equalsIgnoreCase id_kp_OCSPSigning) l
                    | None => false
                    end) then
        raise (RuntimeException "OCSP validation failed: OCSP responder certificate lacks OCSP key usage")
      else if negb (isOCSPNocheckExt signer) && negb (cert_eqb iss signer)
           then mret (Some (signer, iss)) else mret None
  | _, _, _ => raise (RuntimeException "OCSP validation failed: Missing necessary certificates to validate OCSP response")
  end.

(** ** [BasicCertificateValidityChecker] *)
Definition conclusive_as (v : CertificateValidity) (l : list ValidationStatus) :
    option ValidationStatus :=
  findFirst (λ st, bool_decide (validity st = v)) (List.filter statusSignatureValid l).

(** The end of [checkValidity]: the result picked from the status list; the
    log statements read the certificate of the picked status. *)
Definition pickStatus (validationStatusList : list ValidationStatus) : outcome ValidationStatus :=
  let logged st := match certificate st with
                   | Some _ => Ret st
                   | None => Throw NullPointerException
                   end in
  match conclusive_as REVOKED validationStatusList with
  | Some st => logged st
  | None =>
      match conclusive_as VALID validationStatusList with
      | Some st => logged st
      | None =>
          match validationStatusList with
          | [] => Throw (RuntimeException "Validity checking: No valid responses")
          | st :: _ => logged st
          end
      end
  end.

(** [isCompleteValidation] *)
Definition isCompleteValidation (l : list ValidationStatus) (size : nat) : bool :=
  if bool_decide (l = []) then false
  else if Nat.eqb (length l) size then true
  else negb (bool_decide (List.filter (λ st, bool_decide (validity st = REVOKED)
                                           || bool_decide (validity st = VALID))
                            (List.filter statusSignatureValid l) = [])).

(** [checkStatusPath], given the path check. *)
Definition checkStatusPath (verifyPath : ValidationStatus → MF S unit)
    (status : option ValidationStatus) : MF S ValidationStatus :=
  match status with
  | None =>
      mret (setException (RuntimeException "No status information")
              (newStatus None None None None UNKNOWN))
  | Some st =>
      if statusSignatureValid st then
        o ← mf_attempt (verifyPath st);
        match o with
        | Ret _ => mret st
        | Throw ex => mret (setException ex (setValidity UNKNOWN st))
        end
      else mret (setException (RuntimeException "Unable to obtain valid status token") st)
  end.

(** The two checkers of [BasicCertificateValidityChecker], in order. *)
Definition validityCheckers (cert iss : X509Certificate) : list (M S ValidationStatus) :=
  [crl_checkValidity cert iss; ocsp_checkValidity true cert iss].

Fixpoint check_all (verifyPath : ValidationStatus → MF S unit)
    (checkers : list (M S ValidationStatus)) : MF S (list ValidationStatus) :=
  match checkers with
  | [] => mret []
  | c :: rest =>
      status ← run c;
      status' ← checkStatusPath verifyPath (Some status);
      l ← check_all verifyPath rest;
      mret (status' :: l)
  end.

(** [checkValidity] with [singleThreaded], [verifyValidityStatusTrustPath] and
    [checkOcspTrustPath]: the check of an OCSP responder certificate starts a
    new certificate check, so the three are one recursion on the fuel. *)
Fixpoint checkValidity (fuel : nat) (cert iss : X509Certificate) : MF S ValidationStatus :=
  match fuel with
  | 0 => λ _, None
  | Datatypes.S fuel' =>
      let checkOcspTrustPath st : MF S unit :=
        o ← run (checkOcspResponder st);
        match o with
        | None => mret tt
        | Some (signer, iss') =>
            st' ← checkValidity fuel' signer iss';
            if bool_decide (validity st' = VALID) then mret tt
            else mf_raise (RuntimeException "OCSP validation failed: OCSP responder certificate failed validity check")
        end in
      let verifyValidityStatusTrustPath st : MF S unit :=
        match sourceType st with
        | None => mf_raise NullPointerException
        | Some OCSP => checkOcspTrustPath st
        | Some CRL => run (checkCrlTrustPath st)
        | Some SELF_SIGNED => mret tt
        end in
      l ← check_all verifyValidityStatusTrustPath (validityCheckers cert iss);
      run (lift (pickStatus l))
  end.
End Checkers.

(** ** Picking the result *)
Section Pick.
Implicit Types (l : list ValidationStatus) (st : ValidationStatus).

(** A status counts when its signature verified. *)
Definition conclusive v l : Prop :=
  ∃ st, st ∈ l ∧ statusSignatureValid st = true ∧ validity st = v.

Lemma conclusive_as_Some v l st :
  conclusive_as v l = Some st → st ∈ l ∧ statusSignatureValid st = true ∧ validity st = v.
Proof. intros [H%bool_decide_eq_true [??]%filter_elem]%findFirst_Some. auto. Qed.

Lemma conclusive_as_None v l : conclusive_as v l = None ↔ ¬ conclusive v l.
Proof.
  unfold conclusive_as. rewrite findFirst_None. split.
  - intros H (st & Hin & Hs & Hv). specialize (H st). rewrite filter_elem in H.
    specialize (H (conj Hin Hs)). by case_bool_decide.
  - intros H st [Hin Hs]%filter_elem. case_bool_decide; [|done]. destruct H. exists st. auto.
Qed.

(** What the result of [pickStatus] is, by cases. *)
Lemma pickStatus_inv l st :
  pickStatus l = Ret st →
  st ∈ l ∧ is_Some (certificate st) ∧
  ((statusSignatureValid st = true ∧ validity st = REVOKED)
   ∨ (statusSignatureValid st = true ∧ validity st = VALID ∧ ¬ conclusive REVOKED l)
   ∨ (head l = Some st ∧ ¬ conclusive REVOKED l ∧ ¬ conclusive VALID l)).
Proof.
  unfold pickStatus. destruct (conclusive_as REVOKED l) as [r|] eqn:Hr.
  { apply conclusive_as_Some in Hr as (? & ? & ?).
    destruct (certificate r) eqn:?; intros; simplify_eq. eauto. }
  apply conclusive_as_None in Hr. destruct (conclusive_as VALID l) as [v|] eqn:Hv.
  { apply conclusive_as_Some in Hv as (? & ? & ?).
    destruct (certificate v) eqn:?; intros; simplify_eq. eauto 10. }
  apply conclusive_as_None in Hv. destruct l as [|x l]; [done|].
  destruct (certificate x) eqn:?; intros; simplify_eq. split; [left|]. eauto 10.
Qed.

Lemma pickStatus_total l :
  (∀ st, st ∈ l → is_Some (certificate st)) → l ≠ [] → ∃ st, pickStatus l = Ret st.
Proof.
  intros Hc Hl. unfold pickStatus.
  destruct (conclusive_as REVOKED l) as [r|] eqn:Hr.
  { apply conclusive_as_Some in Hr as (Hin & _). destruct (Hc r Hin) as [c ->]. eauto. }
  destruct (conclusive_as VALID l) as [r|] eqn:Hr'.
  { apply conclusive_as_Some in Hr' as (Hin & _). destruct (Hc r Hin) as [c ->]. eauto. }
  destruct l as [|x l]; [done|]. destruct (Hc x) as [c ->]; [left|eauto].
Qed.
End Pick.

(** ** The environment during a check

    What a check does to the shared state is a sequence of operations of the environment. *)
Section During.
Context {S : Type} `{VE : ValidationEnv S}.
Implicit Types (s : S).
Inductive env_step : S → S → Prop :=
  | env_crl dps s : env_step s (snd (cacheGetCRL dps s))
  | env_date s : env_step s (snd (newDate s))
  | env_bytes s : env_step s (snd (nextBytes s))
  | env_ocsp u cid n s : env_step s (snd (requestOCSPResponse u cid n s)).
(** Between two states, an operation was done and answered [a]. *)
Definition answered {A} (m : M S A) (a : A) (s s' : S) : Prop :=
  ∃ s1 s2, rtc env_step s s1 ∧ m s1 = (Ret a, s2) ∧ rtc env_step s2 s'.
Lemma answered_between {A} (m : M S A) a s0 s s' s1 :
  rtc env_step s0 s → rtc env_step s' s1 → answered m a s s' → answered m a s0 s1.
Proof. intros H1 H2 (t1 & t2 & ? & ? & ?). exists t1, t2. split; [by etrans|]. split; [done|by etrans]. Qed.
Lemma since_crl s0 dps : keeps (rtc env_step s0) (cacheGetCRL dps).
Proof. intros s Hs. eapply rtc_r; [exact Hs|constructor]. Qed.
Lemma since_date s0 : keeps (rtc env_step s0) newDate.
Proof. intros s Hs. eapply rtc_r; [exact Hs|constructor]. Qed.
Lemma since_bytes s0 : keeps (rtc env_step s0) nextBytes.
Proof. intros s Hs. eapply rtc_r; [exact Hs|constructor]. Qed.
Lemma since_ocsp s0 u cid n : keeps (rtc env_step s0) (requestOCSPResponse u cid n).
Proof. intros s Hs. eapply rtc_r; [exact Hs|constructor]. Qed.
#[local] Hint Resolve since_crl since_date since_bytes since_ocsp : keeps.
Lemma since_nonce s0 b : keeps (rtc env_step s0) (getNonce b).
Proof. unfold getNonce. repeat inv_step. Qed.
(** What an operation that keeps to the environment leads to. *)
Lemma since_run {A} (m : M S A) s r s' : (∀ s0, keeps (rtc env_step s0) m) → m s = (r, s') → rtc env_step s s'.
Proof. intros Hm E. specialize (Hm s s (rtc_refl _ _)). by rewrite E in Hm. Qed.
End During.
#[export] Hint Resolve since_crl since_date since_bytes since_ocsp since_nonce : keeps.
Ltac since_step := eapply since_run; [|eassumption]; auto with keeps.

(** ** What the two checkers establish *)
Section CheckerFacts.
Context {S : Type} `{VE : ValidationEnv S} (cr : Crypto).
Implicit Types (s : S) (st : ValidationStatus) (cert iss : X509Certificate).

(** A CRL that the cache answered for the certificate and the issuer signed, with [b]
    whether it lists the certificate. *)
Definition crl_says s s' cert iss (b : bool) : Prop :=
  ∃ i, answered (cacheGetCRL (getCrlDistPoint cert)) i s s' ∧
    crlVerify cr (crl i) (publicKey iss) = true ∧ isRevoked (crl i) cert = b.

Lemma crl_checkValidity_spec cert iss s o s' :
  crl_checkValidity cr cert iss s = (o, s') →
  (∃ e, o = Throw e ∧ fst (newDate s) = Throw e) ∨
  ∃ st, o = Ret st ∧ certificate st = Some cert ∧ sourceType st = Some CRL ∧
    if statusSignatureValid st then
      issuer st = Some iss ∧ statusSignerCertificate st = Some iss ∧
      (validity st = VALID ∧ crl_says s s' cert iss false
       ∨ validity st = REVOKED ∧ crl_says s s' cert iss true)
    else validity st = UNKNOWN.
Proof.
  unfold crl_checkValidity, crl_says, isRevoked. mrun.
  destruct (newDate s) as [[t|e] s1] eqn:Hd; simpl; [|intros [= <- <-]; eauto].
  destruct (cacheGetCRL _ s1) as [[i|e] s2] eqn:Hget; simpl.
  2:{ intros [= <- <-]. right. eexists. split; [done|]. done. }
  assert (Ha : answered (cacheGetCRL (getCrlDistPoint cert)) i s s2).
  { exists s1, s2. split; [since_step|]. by split. }
  destruct (crlVerify cr (crl i) (publicKey iss)) eqn:Hv; simpl.
  2:{ intros [= <- <-]. right. eexists. split; [done|]. done. }
  destruct (getRevokedCertificate (crl i) cert) as [en|] eqn:Hen;
    [destruct (revocationReason en)|]; intros [= <- <-]; right;
    (eexists; split; [done|]); simpl; repeat (split; [done|]);
    first [left; split; [done|]; exists i; rewrite Hen; auto
          |right; split; [done|]; exists i; rewrite Hen; auto].
Qed.

(** A response entry for the certificate that counts as valid at [date]. *)
Definition entry_valid (date : Date) (r : SingleResp) : Prop :=
  getCertStatus r = GOOD ∨ ∃ t rsn, getCertStatus r = RevokedStatus t rsn ∧ (date < t)%Z.

Lemma single_response_spec date basic r st st' ex :
  single_response date basic r st = (st', ex) →
  certificate st' = certificate st ∧ issuer st' = issuer st ∧ sourceType st' = sourceType st ∧
  statusSignatureValid st' = statusSignatureValid st ∧
  statusSignerCertificate st' = statusSignerCertificate st ∧
  statusSignerCertificateChain st' = statusSignerCertificateChain st ∧
  (validity st' = VALID → validity st = VALID ∨ entry_valid date r).
Proof.
  unfold single_response, entry_valid. destruct (getCertStatus r) as [|t rsn|] eqn:Hr.
  - intros [= <- <-]. simpl. auto 10.
  - destruct (Z.ltb_spec date t); [|destruct rsn]; intros [= <- <-]; simpl; auto 10.
    + repeat (split; [done|]). right. right. eauto.
    + repeat (split; [done|]). done.
  - intros [= <- <-]. simpl. auto 10.
Qed.

Lemma responses_loop_spec cid date basic l found st st' f ex :
  responses_loop cid date basic l found st = (st', f, ex) →
  certificate st' = certificate st ∧ issuer st' = issuer st ∧ sourceType st' = sourceType st ∧
  statusSignatureValid st' = statusSignatureValid st ∧
  statusSignerCertificate st' = statusSignerCertificate st ∧
  statusSignerCertificateChain st' = statusSignerCertificateChain st ∧
  (validity st' = VALID → validity st = VALID ∨
     ∃ r, r ∈ l ∧ cid_eqb cid (getCertID r) = true ∧ entry_valid date r).
Proof.
  revert found st. induction l as [|r l IH]; intros found st; simpl.
  { intros [= <- <- <-]. auto 10. }
  destruct (cid_eqb cid (getCertID r)) eqn:Hc; simpl.
  - destruct (single_response date basic r st) as [st1 [ex1|]] eqn:Hs;
      apply single_response_spec in Hs as (H1 & H2 & H3 & H4 & H5 & H6 & H7).
    + intros [= <- <- <-]. repeat (split; [congruence|]). intros [?|?]%H7; [auto|].
      right. exists r. split; [left|auto].
    + intros (I1 & I2 & I3 & I4 & I5 & I6 & I7)%IH.
      repeat (split; [congruence|]). intros [Hv|(r' & ? & ? & ?)]%I7.
      * apply H7 in Hv as [?|?]; [auto|]. right. exists r. split; [left|auto].
      * right. exists r'. split; [by right|auto].
  - intros (I1 & I2 & I3 & I4 & I5 & I6 & I7)%IH. repeat (split; [done|]).
    intros [?|(r' & ? & ? & ?)]%I7; [auto|]. right. exists r'. split; [by right|auto].
Qed.

(** The status carries a signer out of a chain that verified the response. *)
Definition signed_by (basic : BasicOCSPResp) chain st : Prop :=
  ∃ signer, statusSignerCertificate st = Some signer ∧
    statusSignerCertificateChain st = Some chain ∧ signer ∈ chain ∧
    isSignatureValid cr basic signer = Ret true.
(** The certificates that are tried: those of the response, or the issuer. *)
Definition offered iss (certs : list X509Certificate) : list X509Certificate := match certs with [] => [iss] | _ => certs end.

Lemma try_signers_spec basic chain l st :
  (∀ c, c ∈ l → c ∈ chain) →
  let st' := fold_left (try_signer cr basic chain) l st in
  certificate st' = certificate st ∧ issuer st' = issuer st ∧ sourceType st' = sourceType st ∧
  validity st' = validity st ∧
  (statusSignatureValid st' = true →
     (statusSignatureValid st = true ∧ st' = st) ∨ signed_by basic chain st').
Proof.
  revert st. induction l as [|c l IH]; intros st Hin; simpl; [auto 10|].
  assert (∀ c, c ∈ l → c ∈ chain) as Hin' by (intros; apply Hin; by right).
  destruct (IH (try_signer cr basic chain st c) Hin') as (I1 & I2 & I3 & I4 & I5).
  assert (try_signer cr basic chain st c = st ∨
          (try_signer cr basic chain st c = setSigner c chain st ∧
           isSignatureValid cr basic c = Ret true)) as [Ht|[Ht Hv]].
  { unfold try_signer. destruct (isSignatureValid cr basic c) as [[]|]; auto. }
  - rewrite Ht in I1, I2, I3, I4, I5 |- *. auto 10.
  - rewrite Ht in I1, I2, I3, I4, I5 |- *. repeat (split; [done|]).
    intros [[_ ->]|?]%I5; [|auto]. right. exists c.
    repeat (split; [done|]). split; [apply Hin; left|done].
Qed.

Lemma checkResponseSignature_spec iss basic st st' :
  checkResponseSignature cr iss basic st = Ret st' → statusSignatureValid st = false →
  certificate st' = certificate st ∧ issuer st' = issuer st ∧ sourceType st' = sourceType st ∧
  validity st' = validity st ∧
  (statusSignatureValid st' = true → ∃ certs, getCerts basic = Ret certs ∧ signed_by basic (offered iss certs) st').
Proof.
  unfold checkResponseSignature. mrun.
  destruct (getCerts basic) as [l|]; intros [= <-] Hf. fold (offered iss l).
  destruct (try_signers_spec basic (offered iss l) (offered iss l) st ltac:(auto)) as (I1 & I2 & I3 & I4 & I5).
  repeat (split; [done|]). intros [[Ht _]|?]%I5; [congruence|by exists l].
Qed.

(** What an OCSP response must contain for the status to be valid. *)
Definition response_says cert iss date nonce resp signer : Prop :=
  let basic := getResponseObject resp in
  getStatus resp = 0%Z ∧ (∃ certs, getCerts basic = Ret certs ∧ signer ∈ offered iss certs) ∧
  isSignatureValid cr basic signer = Ret true ∧ checkNonce cr basic nonce = Ret tt ∧
  ∃ r, r ∈ getResponses basic ∧
    cid_eqb (mkCertificateID (hashIssuer cr iss) (serialNumber cert)) (getCertID r) = true ∧ entry_valid date r.

Lemma ocsp_response_spec cert iss nonce date u resp st st' :
  ocsp_response cr iss (mkCertificateID (hashIssuer cr iss) (serialNumber cert))
    nonce date u resp st = st' →
  statusSignatureValid st = false → validity st = UNKNOWN →
  certificate st' = certificate st ∧ issuer st' = issuer st ∧ sourceType st' = sourceType st ∧
  (statusSignatureValid st' = true → validity st' = VALID →
     ∃ signer chain, statusSignerCertificate st' = Some signer ∧ statusSignerCertificateChain st' = Some chain ∧
       signer ∈ chain ∧ response_says cert iss date nonce resp signer).
Proof.
  unfold ocsp_response, response_says. intros H Hs Hv. destruct (Z.eqb_spec (getStatus resp) 0) as [Hst|]; simpl in H.
  2:{ destruct (nth_error _ _); subst st'; simpl; repeat (split; [done|]); done. }
  destruct (checkResponseSignature cr iss (getResponseObject resp) st) as [st1|ex] eqn:Hc.
  2:{ subst st'. simpl. repeat (split; [done|]). congruence. }
  apply checkResponseSignature_spec in Hc as (I1 & I2 & I3 & I4 & I5); [|done].
  destruct (checkNonce cr _ nonce) as [[]|ex] eqn:Hn.
  2:{ subst st'. simpl. repeat (split; [done|]). congruence. }
  destruct (responses_loop _ _ _ _ _ _) as [[st2 f] ex] eqn:Hl.
  apply responses_loop_spec in Hl as (L1 & L2 & L3 & L4 & L5 & L6 & L7).
  assert (certificate st' = certificate st2 ∧ issuer st' = issuer st2 ∧
    sourceType st' = sourceType st2 ∧ validity st' = validity st2 ∧
    statusSignatureValid st' = statusSignatureValid st2 ∧
    statusSignerCertificate st' = statusSignerCertificate st2 ∧
    statusSignerCertificateChain st' = statusSignerCertificateChain st2)
    as (K1 & K2 & K3 & K4 & K5 & K6 & K7)
    by (destruct f, ex; subst st'; simpl; auto 10).
  repeat (split; [congruence|]). intros Hsv Hva.
  destruct (L7 ltac:(congruence)) as [?|(r & ? & ? & ?)]; [congruence|].
  destruct (I5 ltac:(congruence)) as (certs & Hcs & sg & ? & ? & ? & ?).
  exists sg, (offered iss certs). split; [congruence|]. split; [congruence|]. split; [done|].
  split; [done|]. split; [by exists certs|]. split; [done|]. split; [done|]. by exists r.
Qed.

(** The response that was asked for at the address the certificate names, with a nonce that
    was drawn, and that says so at a time of the clock. *)
Definition ocsp_says b s s' cert iss signer : Prop :=
  ∃ url nonce date resp, getOCSPUrl cert = Some url ∧ answered (getNonce b) nonce s s' ∧ answered newDate date s s' ∧
    answered (requestOCSPResponse url (mkCertificateID (hashIssuer cr iss) (serialNumber cert)) (derOctetString cr <$> nonce))
      resp s s' ∧
    response_says cert iss date nonce resp signer.
Lemma ocsp_checkValidity_spec b cert iss s st s' :
  ocsp_checkValidity cr b cert iss s = (Ret st, s') →
  certificate st = Some cert ∧ issuer st = Some iss ∧ sourceType st = Some OCSP ∧
  (statusSignatureValid st = true → validity st = VALID →
     ∃ signer chain, statusSignerCertificate st = Some signer ∧ statusSignerCertificateChain st = Some chain ∧
       signer ∈ chain ∧ ocsp_says b s s' cert iss signer).
Proof.
  unfold ocsp_checkValidity, ocsp_checkValidity_at. mrun.
  destruct (newDate s) as [[d|e] s1] eqn:Hd; simpl; [|congruence].
  destruct (getOCSPUrl cert) as [u|] eqn:Hu; simpl.
  2:{ intros [= <- <-]. simpl. repeat (split; [done|]). done. }
  destruct (getNonce b s1) as [[n|e] s2] eqn:Hn; simpl; [|congruence].
  destruct (requestOCSPResponse _ _ _ s2) as [[resp|e] s3] eqn:Hr; simpl.
  2:{ intros [= <- <-]. simpl. repeat (split; [done|]). done. }
  intros [= H <-]. eapply ocsp_response_spec in H as (I1 & I2 & I3 & I4); [|done|done].
  rewrite I1, I2, I3. simpl. repeat (split; [done|]). intros H1 H2. destruct (I4 H1 H2) as (sg & ch & ? & ? & ? & Hsay).
  assert (E1 : rtc env_step s s1) by since_step.
  assert (E2 : rtc env_step s1 s2) by since_step.
  assert (E3 : rtc env_step s2 s3) by since_step.
  exists sg, ch. repeat (split; [done|]). exists u, n, d, resp. split; [done|].
  split; [by exists s1, s2|]. split; [exists s, s1; repeat split; [apply rtc_refl|done|by etrans]|].
  split; [exists s2, s3; repeat split; [by etrans|done|apply rtc_refl]|]. done.
Qed.
Lemma since_crl_checkValidity s0 cert iss : keeps (rtc env_step s0) (crl_checkValidity cr cert iss).
Proof. unfold crl_checkValidity. repeat inv_step. Qed.
Lemma since_ocsp_checkValidity s0 b cert iss : keeps (rtc env_step s0) (ocsp_checkValidity cr b cert iss).
Proof. unfold ocsp_checkValidity, ocsp_checkValidity_at. repeat inv_step. Qed.
Lemma since_crl_path s0 st : keeps (rtc env_step s0) (checkCrlTrustPath st).
Proof. unfold checkCrlTrustPath. repeat inv_step. Qed.
Lemma since_responder s0 st : keeps (rtc env_step s0) (checkOcspResponder cr st).
Proof. unfold checkOcspResponder. repeat inv_step. Qed.
End CheckerFacts.
#[export] Hint Resolve since_crl_checkValidity
  since_ocsp_checkValidity since_crl_path since_responder : keeps.

(** ** Soundness of the single threaded checker *)
Section Soundness.
Context {S : Type} `{VE : ValidationEnv S} (cr : Crypto).
Implicit Types (s : S) (st : ValidationStatus) (cert iss : X509Certificate).

Definition crl_signing_ca iss : Prop :=
  (0 <= basicConstraints iss)%Z ∧
  ∃ bits, keyUsage iss = Some bits ∧ nth_error bits 6 = Some true.

Definition has_ocsp_usage signer : Prop :=
  ∃ l, extendedKeyUsage signer = Some l ∧ existsb (equalsIgnoreCase id_kp_OCSPSigning) l = true.

(** Why a certificate of an issuer may be taken as not revoked by a check between two
    states. *)
Inductive Evidence (s s' : S) : X509Certificate → X509Certificate → Prop :=
  | ev_crl cert iss t :
      crl_says cr s s' cert iss false → answered newDate t s s' → isCurrentlyValid iss t = true → crl_signing_ca iss →
      Evidence s s' cert iss
  | ev_ocsp_issuer cert iss signer t :
      ocsp_says cr true s s' cert iss signer → answered newDate t s s' → isCurrentlyValid iss t = true →
      cert_eqb iss signer = true → Evidence s s' cert iss
  | ev_ocsp_nocheck cert iss signer t t' :
      ocsp_says cr true s s' cert iss signer → answered newDate t s s' → isCurrentlyValid iss t = true →
      answered newDate t' s s' → isCurrentlyValid signer t' = true →
      certVerify cr signer (publicKey iss) = true → has_ocsp_usage signer →
      cert_eqb signer cert = false → isOCSPNocheckExt signer = true → Evidence s s' cert iss
  | ev_ocsp_checked cert iss signer t t' :
      ocsp_says cr true s s' cert iss signer → answered newDate t s s' → isCurrentlyValid iss t = true →
      answered newDate t' s s' → isCurrentlyValid signer t' = true →
      certVerify cr signer (publicKey iss) = true → has_ocsp_usage signer →
      cert_eqb signer cert = false → Evidence s s' signer iss → Evidence s s' cert iss.
Lemma ocsp_says_between b s0 s s' s1 cert iss signer :
  rtc env_step s0 s → rtc env_step s' s1 → ocsp_says cr b s s' cert iss signer → ocsp_says cr b s0 s1 cert iss signer.
Proof.
  intros H1 H2 (u & n & d & resp & Hu & Hn & Hd & Hr & Hsay). exists u, n, d, resp. split; [done|].
  do 3 (split; [by eapply answered_between|]). exact Hsay.
Qed.
(** What was seen in a part of a check was seen in the check. *)
Lemma evidence_between s0 s s' s1 cert iss :
  rtc env_step s0 s → rtc env_step s' s1 → Evidence s s' cert iss → Evidence s0 s1 cert iss.
Proof.
  intros H1 H2. pose proof (λ A (m : M S A) a, answered_between m a s0 s s' s1 H1 H2) as Ha.
  induction 1 as [cert iss t (i & ? & ? & ?)|cert iss signer t Hs|cert iss signer t t' Hs|cert iss signer t t' Hs].
  - apply (ev_crl s0 s1 cert iss t); [exists i|..]; auto.
  - eapply ev_ocsp_issuer; eauto using ocsp_says_between.
  - apply (ev_ocsp_nocheck s0 s1 cert iss signer t t'); eauto using ocsp_says_between.
  - apply (ev_ocsp_checked s0 s1 cert iss signer t t'); eauto using ocsp_says_between.
Qed.

Lemma checkStatusPath_spec vp st s st' s' :
  checkStatusPath (S:=S) vp (Some st) s = Some (Ret st', s') →
  certificate st' = certificate st ∧ statusSignatureValid st' = statusSignatureValid st ∧
  ((st' = st ∧ statusSignatureValid st = true ∧ vp st s = Some (Ret tt, s'))
   ∨ validity st' = UNKNOWN
   ∨ (statusSignatureValid st = false ∧ validity st' = validity st)).
Proof.
  unfold checkStatusPath. destruct (statusSignatureValid st) eqn:Hs; mrun.
  - destruct (vp st s) as [[[[]|ex] s1]|]; [| |done]; intros [= <- <-]; auto 10.
  - intros [= <- <-]. auto 10.
Qed.

Lemma checkCrlTrustPath_spec st s s' iss :
  checkCrlTrustPath st s = (Ret tt, s') →
  issuer st = Some iss → statusSignerCertificate st = Some iss →
  crl_signing_ca iss ∧ ∃ t, answered newDate t s s' ∧ isCurrentlyValid iss t = true.
Proof.
  intros H Hi Hs. unfold checkCrlTrustPath in H. rewrite Hi, Hs in H. mrun.
  destruct (newDate s) as [[t|e] s1] eqn:Hd; simpl in H; [|congruence].
  destruct (isCurrentlyValid iss t) eqn:Ht; simpl in H; [|congruence].
  destruct (cert_eqb iss iss); simpl in H; [|congruence].
  destruct (Z.ltb_spec (basicConstraints iss) 0); [congruence|].
  destruct (keyUsage iss) as [bits|] eqn:Hk; [|congruence].
  destruct (nth_error bits 6) as [[]|] eqn:Hn; try congruence. injection H as <-.
  split; [split; [lia|]; exists bits; auto|]. exists t. split; [|done]. exists s, s1. repeat split; [apply rtc_refl|done|apply rtc_refl].
Qed.

(** The checks on the OCSP responder that precede the check of its status. *)
Lemma checkOcspResponder_spec st s o s' cert iss :
  checkOcspResponder cr st s = (Ret o, s') →
  issuer st = Some iss → certificate st = Some cert →
  ∃ signer t, statusSignerCertificate st = Some signer ∧ answered newDate t s s' ∧ isCurrentlyValid iss t = true ∧
    (cert_eqb iss signer = true ∧ o = None ∨
     ∃ t', answered newDate t' s s' ∧ isCurrentlyValid signer t' = true ∧ certVerify cr signer (publicKey iss) = true ∧
       has_ocsp_usage signer ∧
       (∀ chain, statusSignerCertificateChain st = Some chain → signer ∈ chain →
          cert_eqb signer cert = false) ∧
       (isOCSPNocheckExt signer = true ∧ o = None ∨ o = Some (signer, iss))).
Proof.
  intros H Hi Hc. unfold checkOcspResponder in H. rewrite Hi, Hc in H. mrun.
  destruct (statusSignerCertificate st) as [signer|]; [|congruence].
  destruct (statusSignerCertificateChain st) as [[|c0 ch]|]; simpl in H; [congruence| |congruence].
  destruct (newDate s) as [[t|e] s1] eqn:Hd; simpl in H; [|congruence].
  destruct (isCurrentlyValid iss t) eqn:Ht; simpl in H; [|congruence].
  destruct (newDate s1) as [[t'|e] s2] eqn:Hd'; simpl in H; [|congruence].
  destruct (isCurrentlyValid signer t') eqn:Ht'; simpl in H; [|congruence].
  assert (E1 : rtc env_step s s1) by since_step.
  assert (E2 : rtc env_step s1 s2) by since_step.
  assert (Es : s2 = s') by (repeat case_match; congruence). rewrite Es in *.
  exists signer, t. split; [done|]. split; [exists s, s1; repeat split; [apply rtc_refl|done|done]|]. split; [done|].
  destruct (cert_eqb iss signer) eqn:He; simpl in H; [left; split; congruence|right].
  destruct (certVerify cr signer (publicKey iss)) eqn:Hv; simpl in H; [|congruence].
  match type of H with context [if ?b then _ else _] => destruct b eqn:Hrec; [congruence|] end.
  match type of H with context [if negb ?b then _ else _] => destruct b eqn:Hku; simpl in H; [|congruence] end.
  exists t'. split; [exists s1, s'; repeat split; [done|done|apply rtc_refl]|]. split; [done|]. split; [done|]. split.
  { destruct (extendedKeyUsage signer) as [l|] eqn:Hl; [|congruence]. exists l. auto. }
  split.
  - intros chain [= <-] Hin. apply not_true_iff_false. intros Hcc.
    apply not_true_iff_false in Hrec. apply Hrec. change (existsb (λ c, cert_eqb c cert) (c0 :: ch) = true).
    apply existsb_exists. exists signer. split; [by apply list_elem_of_In|done].
  - destruct (isOCSPNocheckExt signer); simpl in H; [left; split; congruence|right; congruence].
Qed.

(** The path check [checkValidity] runs behind a status, given the checker for
    the responder certificate. *)
Definition verifyPath_of (rec : X509Certificate → X509Certificate → MF S ValidationStatus)
    st : MF S unit :=
  match sourceType st with
  | None => mf_raise NullPointerException
  | Some OCSP =>
      o ← run (checkOcspResponder cr st);
      match o with
      | None => mret tt
      | Some (signer, iss') =>
          st' ← rec signer iss';
          if bool_decide (validity st' = VALID) then mret tt
          else mf_raise (RuntimeException "OCSP validation failed: OCSP responder certificate failed validity check")
      end
  | Some CRL => run (checkCrlTrustPath st)
  | Some SELF_SIGNED => mret tt
  end.

Lemma checkValidity_unfold fuel cert iss :
  checkValidity cr (Datatypes.S fuel) cert iss =
  (l ← check_all (verifyPath_of (checkValidity cr fuel)) (validityCheckers cr cert iss);
   run (lift (pickStatus l))).
Proof. reflexivity. Qed.

(** The two statuses [checkValidity] collects, after the path check. *)
Lemma check_all_two fuel cert iss s o s' :
  checkValidity cr (Datatypes.S fuel) cert iss s = Some (Ret o, s') →
  ∃ st1 st2 st1' st2' s1 s2 s3,
    crl_checkValidity cr cert iss s = (Ret st1, s1) ∧
    checkStatusPath (verifyPath_of (checkValidity cr fuel)) (Some st1) s1 = Some (Ret st1', s2) ∧
    ocsp_checkValidity cr true cert iss s2 = (Ret st2, s3) ∧
    checkStatusPath (verifyPath_of (checkValidity cr fuel)) (Some st2) s3 = Some (Ret st2', s') ∧
    pickStatus [st1'; st2'] = Ret o.
Proof.
  rewrite checkValidity_unfold. unfold validityCheckers.
  set (vp := verifyPath_of _). unfold check_all. mstep.
  destruct (crl_checkValidity cr cert iss s) as [[st1|] s1] eqn:H1; [|congruence].
  destruct (checkStatusPath vp (Some st1) s1) as [[[st1'|] s2]|] eqn:H2; [|congruence|congruence].
  destruct (ocsp_checkValidity cr true cert iss s2) as [[st2|] s3] eqn:H3; [|congruence].
  destruct (checkStatusPath vp (Some st2) s3) as [[[st2'|] s4]|] eqn:H4; [|congruence|congruence].
  intros [= Hp <-]. exists st1, st2, st1', st2', s1, s2, s3. auto 10.
Qed.

(** The CRL status after its path check. *)
Lemma crl_status_sound rec cert iss s st s1 st' s2 :
  crl_checkValidity cr cert iss s = (Ret st, s1) →
  checkStatusPath (verifyPath_of rec) (Some st) s1 = Some (Ret st', s2) →
  certificate st' = Some cert ∧
  (validity st' = VALID → statusSignatureValid st' = true ∧ Evidence s s2 cert iss).
Proof.
  intros H1 H2. assert (E1 : rtc env_step s s1) by since_step.
  apply crl_checkValidity_spec in H1 as [(e & [=] & _)|(st0 & [= <-] & Hc & Hsrc & H1)].
  apply checkStatusPath_spec in H2 as (Hc' & Hs' & H2). split; [congruence|]. intros Hv.
  destruct (statusSignatureValid st) eqn:Hs; destruct H2 as [(-> & _ & Hp)|[H2|(? & H2)]]; try congruence.
  split; [done|]. destruct H1 as (Hi & Hsg & [[_ (i & Hget & Hsay)]|[? _]]); [|congruence].
  unfold verifyPath_of in Hp. rewrite Hsrc in Hp. unfold run in Hp. injection Hp as Hcp.
  assert (E2 : rtc env_step s1 s2) by since_step.
  eapply checkCrlTrustPath_spec in Hcp as (Hca & t & Ht & Hv'); [|done|done].
  eapply (ev_crl s s2 cert iss t); [|by eapply answered_between; [exact E1|apply rtc_refl|]|done|done].
  exists i. split; [|done]. by eapply answered_between; [apply rtc_refl|exact E2|].
Qed.

(** The OCSP status after its path check, given soundness of the check of the
    responder certificate. *)
Lemma ocsp_status_sound rec cert iss s st s1 st' s2 :
  (∀ s0 c i, keepsF (rtc env_step s0) (rec c i)) →
  (∀ c i s o s', rec c i s = Some (Ret o, s') → validity o = VALID → Evidence s s' c i) →
  ocsp_checkValidity cr true cert iss s = (Ret st, s1) →
  checkStatusPath (verifyPath_of rec) (Some st) s1 = Some (Ret st', s2) →
  certificate st' = Some cert ∧
  (validity st' = VALID → statusSignatureValid st' = true → Evidence s s2 cert iss).
Proof.
  intros Hkeep Hrec H1 H2. assert (E1 : rtc env_step s s1) by since_step.
  apply ocsp_checkValidity_spec in H1 as (Hc & Hi & Hsrc & Hsay).
  apply checkStatusPath_spec in H2 as (Hc' & Hs' & H2). split; [congruence|]. intros Hv Hsv.
  destruct H2 as [(-> & Hs & Hp)|[H2|(? & H2)]]; [|congruence|congruence].
  destruct (Hsay Hs Hv) as (sg & ch & Hsg & Hch & Hin & Hsays).
  unfold verifyPath_of in Hp. rewrite Hsrc in Hp.
  unfold mbind, MF_bind, mret, MF_ret, run, mf_raise in Hp.
  destruct (checkOcspResponder cr st s1) as [[o|e] s3] eqn:Hr; [|congruence].
  assert (E2 : rtc env_step s1 s3) by since_step.
  eapply checkOcspResponder_spec in Hr as (signer & t & Hsg' & Ht & Hvt & Hr); [|done|done].
  rewrite Hsg in Hsg'. injection Hsg' as <-.
  assert (E3 : rtc env_step s3 s2).
  { destruct o as [[sg' iss']|]; [|injection Hp as <-; apply rtc_refl].
    destruct (rec sg' iss' s3) as [[[o|e] s4]|] eqn:Hre; [|done..]. apply (Hkeep s3) in Hre; [|apply rtc_refl].
    case_bool_decide; [|done]. by injection Hp as <-. }
  pose proof (ocsp_says_between _ s s s1 s2 _ _ _ (rtc_refl _ _) (transitivity E2 E3) Hsays) as Hsays'.
  assert (Hread : ∀ t, answered newDate t s1 s3 → answered newDate t s s2) by (intros t0; by apply answered_between).
  destruct Hr as [[He _]|(t' & Ht' & Hvt' & Hcv & Hku & Hne & [[Hnc _]|Ho])].
  - eapply ev_ocsp_issuer; eauto.
  - apply (ev_ocsp_nocheck s s2 cert iss sg t t'); eauto.
  - subst o. destruct (rec sg iss s3) as [[[o|e] s4]|] eqn:Hre; [|congruence|congruence].
    case_bool_decide; [|congruence]. injection Hp as ->. apply (ev_ocsp_checked s s2 cert iss sg t t'); eauto.
    apply (evidence_between s s3 s2 s2); [by etrans|apply rtc_refl|by eapply Hrec].
Qed.
Lemma since_status_path s0 vp o : (∀ st, keepsF (rtc env_step s0) (vp st)) →
  keepsF (rtc env_step s0) (checkStatusPath (S := S) vp o).
Proof. intros Hvp. unfold checkStatusPath. repeat inv_step. Qed.
(** A check only works through the environment. *)
Lemma since_checkValidity s0 fuel cert iss : keepsF (rtc env_step s0) (checkValidity cr fuel cert iss).
Proof.
  revert cert iss. induction fuel as [|fuel IH]; intros cert iss; [by intros s o s'|]. rewrite checkValidity_unfold.
  assert (Hvp : ∀ st, keepsF (rtc env_step s0) (verifyPath_of (checkValidity cr fuel) st)).
  { intros st. unfold verifyPath_of. repeat inv_step. }
  unfold validityCheckers, check_all. repeat inv_step; by apply since_status_path.
Qed.

(** By induction on the fuel: the responders of an answer have evidence themselves. *)
Lemma checkValidity_valid fuel cert iss s st s' :
  checkValidity cr fuel cert iss s = Some (Ret st, s') → validity st = VALID →
  certificate st = Some cert ∧ statusSignatureValid st = true ∧ Evidence s s' cert iss.
Proof.
  revert cert iss s st s'. induction fuel as [|fuel IH]; intros cert iss s st s'; [done|].
  intros (st1 & st2 & st1' & st2' & s1 & s2 & s3 & H1 & H2 & H3 & H4 & Hp)%check_all_two Hv.
  assert (Hvp : ∀ s0 st, keepsF (rtc env_step s0) (verifyPath_of (checkValidity cr fuel) st)).
  { intros s0 st0. unfold verifyPath_of. repeat inv_step. apply since_checkValidity. }
  assert (E1 : rtc env_step s s1) by since_step. assert (E3 : rtc env_step s2 s3) by since_step.
  assert (E2 : rtc env_step s1 s2) by (eapply since_status_path; [apply Hvp|apply rtc_refl|exact H2]).
  assert (E4 : rtc env_step s3 s') by (eapply since_status_path; [apply Hvp|apply rtc_refl|exact H4]).
  eapply crl_status_sound in H2 as [Hc1 Hev1]; [|exact H1].
  eapply ocsp_status_sound in H4 as [Hc2 Hev2]; [| | |exact H3].
  2: intros; apply since_checkValidity.
  2:{ intros c i s0 o s0' Hre Hvo. by eapply IH. }
  assert (Hcrl : validity st1' = VALID → statusSignatureValid st1' = true ∧ Evidence s s' cert iss).
  { intros Hv1. destruct (Hev1 Hv1) as [? Hev]. split; [done|].
    eapply evidence_between; [apply rtc_refl| |exact Hev]. by etrans. }
  apply pickStatus_inv in Hp as (Hin & _ & Hp).
  apply elem_of_cons in Hin as [->|Hin]; [by destruct (Hcrl Hv)|].
  apply list_elem_of_singleton in Hin as ->.
  destruct Hp as [[Hs ?]|[[Hs _]|[Hhd [_ Hn]]]]; [congruence| |injection Hhd as ->; by destruct (Hcrl Hv)].
  split; [done|]. split; [done|]. eapply evidence_between; [|apply rtc_refl|by apply Hev2]. by etrans.
Qed.

(** C2. When the single threaded certificate checker answers VALID, the answer carries a
    verified status signature and there is evidence for it from this check: a CRL that the
    cache answered for the certificate, signed by the issuing CA, which was valid at a time
    of the clock and is allowed to sign CRLs, that does not list the certificate; or the OCSP
    response to the request that was made with a nonce drawn for it, with an entry for the
    certificate that is good or revoked only after the time of the check, whose signer is the
    issuer itself, then valid, or a responder that was valid then, verifies with the issuer's
    key, has the OCSP key usage, is not the checked certificate and is exempt from checking
    or has evidence itself. *)
Theorem checkValidity_sound fuel cert iss s st s' :
  checkValidity cr fuel cert iss s = Some (Ret st, s') → validity st = VALID →
  certificate st = Some cert ∧ statusSignatureValid st = true ∧ Evidence s s' cert iss.
Proof. apply checkValidity_valid. Qed.

(** C18. A verified REVOKED status wins: when one of the two statuses the
    checker collected carries a verified signature and says REVOKED, so does the
    answer, whatever the other one says. *)
Theorem pickStatus_revoked_wins l st st' :
  st ∈ l → statusSignatureValid st = true → validity st = REVOKED →
  pickStatus l = Ret st' → validity st' = REVOKED ∧ statusSignatureValid st' = true.
Proof.
  intros Hin Hs Hv (_ & _ & [[? ?]|[(_ & _ & Hn)|(_ & Hn & _)]])%pickStatus_inv; [auto| |];
    destruct Hn; exists st; auto.
Qed.
End Soundness.

(** ** Termination of the recursion through OCSP responders *)
Section Termination.
Context {S : Type} `{VE : ValidationEnv S} (cr : Crypto).

Lemma verifyPath_total rec cert iss st s :
  (∀ signer, certVerify cr signer (publicKey iss) = true → has_ocsp_usage signer →
     isOCSPNocheckExt signer = true) →
  (sourceType st = Some OCSP → issuer st = Some iss ∧ certificate st = Some cert) →
  is_Some (verifyPath_of cr rec st s).
Proof.
  intros Hnc Hst. unfold verifyPath_of.
  destruct (sourceType st) as [[| |]|]; mstep; [|eauto|eauto|eauto].
  destruct (Hst eq_refl) as [Hi Hc]. destruct (checkOcspResponder cr st s) as [[o|e] s4] eqn:Hr; [|eauto].
  pose proof Hr as Hr'. eapply checkOcspResponder_spec in Hr as (signer & t & Hsg & _ & Ht & Hr); [|done|done].
  destruct o as [[sg i]|]; [|eauto].
  exfalso. destruct Hr as [[_ ?]|(t' & _ & _ & Hcv & Hku & _ & [[_ ?]|Ho])]; [done|done|].
  injection Ho as <- <-.
  unfold checkOcspResponder in Hr'. rewrite Hi, Hsg in Hr'.
  destruct (statusSignerCertificateChain st) as [[|? ?]|]; [done| |done].
  specialize (Hnc _ Hcv Hku). rewrite Hnc in Hr'. mstep.
  repeat match type of Hr' with
         | (match ?x with _ => _ end) = _ => destruct x; try done
         | (if ?x then _ else _) _ = _ => destruct x; try done
         end.
Qed.

(** C19. When every OCSP responder certificate of the issuer carries the
    no-check extension, as the OCSP standard recommends, one unfolding of the
    recursion is enough: the checker always ends, with an answer or an
    exception. *)
Theorem checkValidity_terminates cert iss s :
  (∀ signer, certVerify cr signer (publicKey iss) = true → has_ocsp_usage signer →
     isOCSPNocheckExt signer = true) →
  ∃ o s', checkValidity cr 1 cert iss s = Some (o, s').
Proof.
  intros Hnc. rewrite checkValidity_unfold. unfold validityCheckers.
  assert (∀ st s, (sourceType st = Some OCSP → issuer st = Some iss ∧ certificate st = Some cert) →
    is_Some (checkStatusPath (verifyPath_of cr (checkValidity cr 0)) (Some st) s)) as Hcp.
  { intros st s0 Hst. unfold checkStatusPath. destruct (statusSignatureValid st); mstep; [|eauto].
    destruct (verifyPath_total (checkValidity cr 0) cert iss st s0 Hnc Hst) as [[[|] ?] ->]; eauto. }
  set (vp := verifyPath_of _ _) in *. unfold check_all. mstep.
  destruct (crl_checkValidity cr cert iss s) as [[st1|] s1] eqn:H1; [|eauto].
  apply crl_checkValidity_spec in H1 as [(? & [=] & _)|(? & [= <-] & _ & Hsrc & _)].
  destruct (Hcp st1 s1) as [[[st1'|] s2] ->]; [congruence| |eauto].
  destruct (ocsp_checkValidity cr true cert iss s2) as [[st2|] s3] eqn:H3; [|eauto].
  apply ocsp_checkValidity_spec in H3 as (Hc & Hi & _).
  destruct (Hcp st2 s3) as [[[st2'|] s4] ->]; eauto.
Qed.
End Termination.

(** ** OCSP details *)
Section OcspFacts.
Context (cr : Crypto).

(** The nonce check accepts exactly the responses without nonce and those
    whose nonce is at most 1024 bytes and equals the one sent, raw or wrapped
    in an octet string. *)
Theorem checkNonce_accepts resp nonce :
  checkNonce cr resp nonce = Ret tt ↔
  nonceExtension resp = None ∨
  ∃ n rn, nonce = Some n ∧ nonceExtension resp = Some (Some rn) ∧ length rn <= 1024 ∧
    (rn = n ∨ rn = derOctetString cr n).
Proof.
  unfold checkNonce, bytes_eqb.
  destruct (nonceExtension resp) as [[rn|]|]; destruct nonce as [n|]; split; try naive_solver.
  - destruct (Nat.ltb_spec 1024 (length rn)); [done|].
    case_bool_decide; [subst; eauto 10|]. case_bool_decide; [subst; eauto 10|done].
  - intros [?|(n' & rn' & [= <-] & [= <-] & Hl & Heq)]; [done|].
    destruct (Nat.ltb_spec 1024 (length rn)); [lia|].
    case_bool_decide; [done|]. case_bool_decide; [done|]. naive_solver.
Qed.

(** A response whose matching entry says the certificate was revoked
    before the validation date, but carries no reason code, leaves the status
    UNKNOWN: the accessor of the reason throws before the validity is set. *)
Theorem revoked_without_reason_unknown iss cid nonce date u basic r st t ex :
  getResponses basic = [r] → cid_eqb cid (getCertID r) = true →
  getCertStatus r = RevokedStatus t (Throw ex) → (t <= date)%Z →
  validity st = UNKNOWN →
  validity (ocsp_response cr iss cid nonce date u (mkOCSPResp 0 basic) st) = UNKNOWN.
Proof.
  intros Hr Hc Hs Ht Hv. unfold ocsp_response. simpl. rewrite Hr. simpl. rewrite Hc. simpl.
  unfold single_response. rewrite Hs.
  destruct (checkResponseSignature cr iss basic st) as [st1|] eqn:H1; [|done].
  assert (validity st1 = UNKNOWN) as Hv1.
  { revert H1. unfold checkResponseSignature. mrun. destruct (getCerts basic) as [l|]; [|done].
    intros [= <-]. match goal with |- context [fold_left (try_signer cr basic ?ch) ?l st] =>
      destruct (try_signers_spec cr basic ch l st ltac:(auto)) as (_ & _ & _ & -> & _) end. done. }
  destruct (checkNonce cr basic nonce); [|done].
  replace (Z.ltb date t) with false by (symmetry; by apply Z.ltb_ge). done.
Qed.

(** The reason codes are those of RFC 5280: the position of the reason in
    the enumeration, [removeFromCRL] being 8. *)
Definition rfc5280_code (r : CRLReason) : Z :=
  match r with
  | UNSPECIFIED => 0 | KEY_COMPROMISE => 1 | CA_COMPROMISE => 2 | AFFILIATION_CHANGED => 3
  | SUPERSEDED => 4 | CESSATION_OF_OPERATION => 5 | CERTIFICATE_HOLD => 6 | UNUSED => 7
  | REMOVE_FROM_CRL => 8 | PRIVILEGE_WITHDRAWN => 9 | AA_COMPROMISE => 10
  end.

Lemma getReasonCode_rfc r : r ≠ UNUSED → getReasonCode r = rfc5280_code r.
Proof. by destruct r. Qed.
End OcspFacts.

(** ** The multi threaded mode

    Each checker runs in a thread of its own; [propertyChange] checks the path
    behind the status it delivers and appends it to the list, one at a time.  The
    main thread polls [isCompleteValidation] and picks the result from whatever the
    list holds when it stops waiting. *)
Section Threads.
Record MTState := mkMT { pending : list ValidationStatus; delivered : list ValidationStatus }.

Inductive mt_step : MTState → MTState → Prop :=
  | mt_deliver p1 st p2 d : mt_step (mkMT (p1 ++ st :: p2) d) (mkMT (p1 ++ p2) (d ++ [st])).

(** [mt_answer sts timeout o]: with threads that will deliver the statuses
    [sts], the main thread can answer [o], having timed out or not. *)
Inductive mt_answer (sts : list ValidationStatus) : bool → outcome ValidationStatus → Prop :=
  | mt_complete m m' :
      rtc mt_step (mkMT sts []) m → isCompleteValidation (delivered m) (length sts) = true →
      rtc mt_step m m' → mt_answer sts false (pickStatus (delivered m'))
  | mt_timeout m : rtc mt_step (mkMT sts []) m → mt_answer sts true (pickStatus (delivered m)).

Lemma mt_steps_delivered m m' :
  rtc mt_step m m' →
  pending m' ++ delivered m' ≡ₚ pending m ++ delivered m ∧
  ∃ more, delivered m' = delivered m ++ more.
Proof.
  induction 1 as [m|m m1 m' Hs _ [IHp (more & IHd)]]; [split; [done|exists []; by rewrite app_nil_r]|].
  destruct Hs as [p1 st p2 d]. simpl in *. split.
  - rewrite IHp. rewrite (Permutation_app_comm d [st]), app_assoc.
    rewrite <- !app_assoc. simpl. by rewrite Permutation_middle.
  - rewrite IHd, <- app_assoc. eauto.
Qed.

Lemma complete_conclusive l n :
  isCompleteValidation l n = true →
  length l = n ∨ conclusive REVOKED l ∨ conclusive VALID l.
Proof.
  unfold isCompleteValidation. case_bool_decide; [done|].
  destruct (Nat.eqb_spec (length l) n); [auto|].
  match goal with |- context [bool_decide (?x = [])] => destruct x as [|st y] eqn:He end;
    [by rewrite bool_decide_true|].
  intros _. right. assert (st ∈ st :: y) as Hin by left. rewrite <- He in Hin.
  apply filter_elem in Hin as [[Hin Hs]%filter_elem Hv].
  apply orb_true_iff in Hv as [Hv%bool_decide_eq_true|Hv%bool_decide_eq_true];
    [left|right]; exists st; auto.
Qed.

(** Without a timeout the multi threaded checker agrees with the single
    threaded one on certificates about which the checkers do not contradict each
    other: if some status is verified and conclusive and no verified status says
    the opposite, every order of deliveries and every moment of stopping gives an
    answer with the validity of that status. *)
Theorem mt_answer_agrees sts v w o :
  (v = VALID ∧ w = REVOKED ∨ v = REVOKED ∧ w = VALID) →
  (∀ st, st ∈ sts → is_Some (certificate st)) →
  conclusive v sts → ¬ conclusive w sts → mt_answer sts false o →
  ∃ st, o = Ret st ∧ st ∈ sts ∧ validity st = v ∧ statusSignatureValid st = true.
Proof.
  intros Hvw Hcert Hc Hn Ho. inversion Ho as [m m' H1 Hcomp H2|]; subst. clear Ho.
  assert (rtc mt_step (mkMT sts []) m') as [Hp' _]%mt_steps_delivered by by etrans.
  apply mt_steps_delivered in H1 as [Hp _]. apply mt_steps_delivered in H2 as [_ (more & Hd)].
  simpl in *. rewrite app_nil_r in Hp, Hp'.
  assert (∀ st, st ∈ delivered m' → st ∈ sts) as Hsub'.
  { intros st Hin. rewrite <- Hp'. apply elem_of_app. by right. }
  assert (conclusive v (delivered m')) as Hc'.
  { destruct (complete_conclusive _ _ Hcomp) as [Hl|Hcc].
    - assert (pending m = []) as Hnil.
      { apply Permutation_length in Hp. rewrite length_app, Hl in Hp.
        destruct (pending m); [done|simpl in Hp; lia]. }
      rewrite Hnil in Hp. simpl in Hp. destruct Hc as (st & Hin & ?).
      exists st. split; [|done]. rewrite Hd, elem_of_app. left. by rewrite Hp.
    - assert (conclusive v (delivered m) ∨ conclusive w (delivered m)) as [H|H]
        by (destruct Hvw as [[-> ->]|[-> ->]]; tauto).
      + destruct H as (st & Hin & ?). exists st. rewrite Hd, elem_of_app. auto.
      + destruct Hn. destruct H as (st & Hin & ?). exists st. split; [|done].
        apply Hsub'. rewrite Hd, elem_of_app. auto. }
  assert (¬ conclusive w (delivered m')) as Hn'.
  { intros (st & Hin & ?). apply Hn. exists st. auto. }
  destruct (pickStatus (delivered m')) as [st|e] eqn:Hpk.
  - exists st. apply pickStatus_inv in Hpk as (Hin & _ & Hpk). split; [done|]. split; [auto|].
    destruct Hvw as [[-> ->]|[-> ->]]; destruct Hpk as [[? ?]|[(? & ? & ?)|(_ & ? & ?)]];
      try done; try (exfalso; apply Hn'; exists st; auto).
  - destruct (pickStatus_total (delivered m')) as [st Hst]; [auto| |congruence].
    destruct Hc' as (st & Hin & _). intros Hnil. rewrite Hnil in Hin. by apply not_elem_of_nil in Hin.
Qed.
End Threads.

(** ** A concrete environment for the checkers

    Three certificates of one CA that have only OCSP: the responses about
    certificate 1 are signed by certificate 2 and the other way round. *)
Section Demo.
Definition demo_aia : list AccessDescription :=
  [mkAccessDescription true (mkGeneralName 6 "http://ocsp")].
Definition demo_cert (n : Z) (nocheck : ext unit) (crldp : ext (list DistributionPoint)) : X509Certificate :=
  mkCert n 9 n n 0 100 (-1) None (Some [id_kp_OCSPSigning]) crldp (ExtValue demo_aia) nocheck.
Definition demo_ca : X509Certificate :=
  mkCert 9 9 9 9 0 100 0 (Some [false; false; false; false; false; true; true]) None
    ExtAbsent ExtAbsent ExtAbsent.

(** [good i]: the response about serial [i] says GOOD; signatures verify for
    the certificate whose encoding is [signatureOf]. *)
Definition demo_response (signer : X509Certificate) (sig : Z) (serial : Z)
    (status : CertificateStatus) : OCSPResp :=
  mkOCSPResp 0 (mkBasicOCSPResp (Ret [signer]) 50 None
    [mkSingleResp (mkCertificateID 9 serial) 40 status] sig).

Definition demo_crypto : Crypto := mkCrypto
  (λ c pk, Z.eqb (crl_signature c) pk)
  (λ _ pk, Z.eqb pk 9)
  (λ r c, Ret (Z.eqb (signatureOf r) (encoded c)))
  encoded
  (λ n, 4%Z :: Z.of_nat (length n) :: n).

Definition demo_validity_env (answer : Z → OCSPResp) (crl : outcome CRLInfo) : ValidationEnv unit := {|
  cacheGetCRL := λ _, lift crl;
  newDate := mret 50%Z;
  nextBytes := mret [1%Z; 2%Z];
  requestOCSPResponse := λ _ cid _, mret (answer (cid_serial cid))
|}.

(** Certificates 1 and 2 vouch for each other. *)
Definition demo_mutual : ValidationEnv unit := demo_validity_env
  (λ serial, let other := if Z.eqb serial 1 then 2%Z else 1%Z in
     demo_response (demo_cert other ExtAbsent ExtAbsent) other serial GOOD)
  (Throw (IOException "no CRL")).

(** The recursion through OCSP responders is not bounded by the code: the
    check that the responder's chain does not contain the target certificate
    looks one step back only, and with two responder certificates without the
    no-check extension whose status responses are signed by each other no amount
    of fuel is enough. *)
Theorem checkValidity_unbounded fuel :
  checkValidity (VE := demo_mutual) demo_crypto fuel (demo_cert 1 ExtAbsent ExtAbsent) demo_ca tt = None
  ∧ checkValidity (VE := demo_mutual) demo_crypto fuel (demo_cert 2 ExtAbsent ExtAbsent) demo_ca tt = None.
Proof.
  induction fuel as [|fuel [IH1 IH2]]; [done|].
  rewrite !checkValidity_unfold. revert IH1 IH2.
  generalize (checkValidity (VE := demo_mutual) demo_crypto fuel). intros rec IH1 IH2.
  vm_compute in IH1, IH2 |- *. by rewrite IH1, IH2.
Qed.

(** A CRL signed by the CA that lists serial 3. *)
Definition demo_ca_crl : CRLInfo :=
  mkCRLInfo (mkCRL 9 (Some 1000%Z) [mkEntry 9 3 30 (Some KEY_COMPROMISE)]) "http://a/crl".
Definition demo_with_crl : ValidationEnv unit := demo_validity_env
  (λ serial, demo_response (demo_cert 2 (ExtValue tt) ExtAbsent) 2 serial GOOD) (Ret demo_ca_crl).

Definition demo_result (c : X509Certificate) : ValidationStatus :=
  match checkValidity (VE := demo_with_crl) demo_crypto 1 c demo_ca tt with
  | Some (Ret st, _) => st
  | _ => newStatus None None None None INVALID
  end.

Lemma checkValidity_sound_witness :
  let c := demo_cert 1 ExtAbsent ExtAbsent in
  certificate (demo_result c) = Some c ∧ statusSignatureValid (demo_result c) = true ∧
  Evidence (VE := demo_with_crl) demo_crypto tt tt c demo_ca.
Proof.
  intros c. apply (checkValidity_sound (VE := demo_with_crl) demo_crypto 1 c demo_ca tt _ tt);
    vm_compute; reflexivity.
Defined.

Lemma pickStatus_revoked_wins_witness :
  let revoked := mkStatus (Some demo_ca) None REVOKED None (Some OCSP) None None None None None true 0 None in
  let valid := mkStatus (Some demo_ca) None VALID None (Some CRL) None None None None None true 0 None in
  validity revoked = REVOKED ∧ statusSignatureValid revoked = true.
Proof.
  intros revoked valid. apply (pickStatus_revoked_wins [valid; revoked] revoked revoked); try done.
  right. left.
Defined.

Lemma checkValidity_terminates_witness :
  ∃ o s', checkValidity (VE := demo_with_crl)
    (mkCrypto (crlVerify demo_crypto) (λ c _, isOCSPNocheckExt c)
       (isSignatureValid demo_crypto) (hashIssuer demo_crypto) (derOctetString demo_crypto))
    1 (demo_cert 1 ExtAbsent ExtAbsent) demo_ca tt = Some (o, s').
Proof. apply checkValidity_terminates. intros signer H _. exact H. Defined.

(** The revoked certificate 3 of a response without reason code. *)
Lemma revoked_without_reason_unknown_witness :
  validity (ocsp_response demo_crypto demo_ca (mkCertificateID 9 3) None 50 "http://ocsp"
    (demo_response demo_ca 9 3 (RevokedStatus 30 (Throw (RuntimeException "no reason"))))
    (newStatus None None (Some OCSP) None UNKNOWN)) = UNKNOWN.
Proof.
  apply (revoked_without_reason_unknown demo_crypto demo_ca (mkCertificateID 9 3) None 50 "http://ocsp" _
    (mkSingleResp (mkCertificateID 9 3) 40 (RevokedStatus 30 (Throw (RuntimeException "no reason"))))
    _ 30 (RuntimeException "no reason")); try reflexivity. lia.
Defined.

(** The same certificate and response, with a reason code. *)
Example revoked_with_reason :
  validity (ocsp_response demo_crypto demo_ca (mkCertificateID 9 3) None 50 "http://ocsp"
    (demo_response demo_ca 9 3 (RevokedStatus 30 (Ret 1%Z)))
    (newStatus None None (Some OCSP) None UNKNOWN)) = REVOKED.
Proof. vm_compute. reflexivity. Qed.

Definition demo_valid : ValidationStatus :=
  mkStatus (Some demo_ca) None VALID None (Some CRL) None None None None None true 0 None.
Definition demo_unknown : ValidationStatus :=
  newStatus (Some demo_ca) None (Some OCSP) None UNKNOWN.

Lemma mt_answer_agrees_witness :
  ∃ st, pickStatus [demo_unknown; demo_valid] = Ret st ∧ st ∈ [demo_valid; demo_unknown] ∧
    validity st = VALID ∧ statusSignatureValid st = true.
Proof.
  apply (mt_answer_agrees [demo_valid; demo_unknown] VALID REVOKED).
  - left. split; reflexivity.
  - intros st [->|[->|[]%not_elem_of_nil]%elem_of_cons]%elem_of_cons; eexists; reflexivity.
  - exists demo_valid. repeat split. left.
  - intros (st & [->|[->|[]%not_elem_of_nil]%elem_of_cons]%elem_of_cons & ? & ?); discriminate.
  - refine (mt_complete _ (mkMT [] [demo_unknown; demo_valid]) (mkMT [] [demo_unknown; demo_valid]) _ _ _);
      [|vm_compute; reflexivity|reflexivity].
    eapply rtc_l; [exact (mt_deliver [demo_valid] demo_unknown [] [])|].
    apply rtc_once. exact (mt_deliver [] demo_valid [] [demo_unknown]).
Defined.

(** The status of certificate 1 from an OCSP response that says GOOD and that
    no certificate verifies, and from the failing CRL check. *)
Definition unsigned_env : ValidationEnv unit := demo_validity_env
  (λ serial, demo_response (demo_cert 2 ExtAbsent ExtAbsent) 777 serial GOOD)
  (Throw (IOException "no CRL")).
Definition checked (c : M unit ValidationStatus) : ValidationStatus :=
  match checkStatusPath (verifyPath_of (VE := unsigned_env) demo_crypto (λ _ _ _, None))
          (match fst (c tt) with Ret st => Some st | Throw _ => None end) tt with
  | Some (Ret st, _) => st
  | _ => newStatus None None None None INVALID
  end.

(** In the multi threaded mode the checker can answer VALID without any
    verified signature: when the OCSP response is not signed by anybody and its
    thread is the first to deliver, and the CRL check fails, the first status of
    the list is returned as it is, VALID with an invalid status signature; the check
    of a responder certificate looks at the validity only. *)
Theorem mt_answer_unsigned_valid :
  let c := demo_cert 1 ExtAbsent ExtAbsent in
  let crl_st := checked (crl_checkValidity (VE := unsigned_env) demo_crypto c demo_ca) in
  let ocsp_st := checked (ocsp_checkValidity (VE := unsigned_env) demo_crypto true c demo_ca) in
  validity ocsp_st = VALID ∧ statusSignatureValid ocsp_st = false ∧
  mt_answer [crl_st; ocsp_st] false (Ret ocsp_st) ∧
  pickStatus [crl_st; ocsp_st] = Ret crl_st ∧ validity crl_st = UNKNOWN.
Proof.
  intros c crl_st ocsp_st. split; [done|]. split; [done|]. split; [|split; done].
  change (Ret ocsp_st) with (pickStatus (delivered (mkMT [] [ocsp_st; crl_st]))).
  apply (mt_complete _ (mkMT [] [ocsp_st; crl_st])); [|done|done].
  eapply rtc_l; [exact (mt_deliver [crl_st] ocsp_st [] [])|].
  apply rtc_once. exact (mt_deliver [] crl_st [] [ocsp_st]).
Qed.
End Demo.
