(* ===== verification/PathValidator.v ===== *)
(** * Certificate path validation

    Model of cert-validation/.../chain: the path builder
    ([BasicPathBuilder.java]), the path validator ([CertificatePathValidator.java])
    with its error object ([ExtendedCertPathValidatorException.java]) and the
    certificate validator that clients call
    ([StatusCheckingCertificateValidatorImpl.java]).  The PKIX path building
    algorithm is the JDK provider's and a parameter; the status checker is used
    through the interface of the factory. *)
From Stdlib Require Import ZArith Lia Ascii String.
From stdpp Require Import base gmap strings list relations.
From S2P Require Import Prelude.
From S2P Require Import CertModel.
From S2P Require Import CrlCache.
From S2P Require Import Validity.

(** [new TrustAnchor(certificate, null)] *)
Abbreviation TrustAnchor := X509Certificate (only parsing).
Abbreviation CertStore := (list X509Certificate) (only parsing).

(** [PKIXCertPathBuilderResult]: the path without its trust anchor, and the anchor. *)
Record PKIXResult := mkPKIX { certPath : list X509Certificate; trustAnchor : TrustAnchor }.

Record PathValidationResult := mkPVR {
  pkixCertPathBuilderResult : option PKIXResult;
  targetCertificate : option X509Certificate;
  validatedCertificatePath : option (list X509Certificate);
  validationStatusList : option (list ValidationStatus)
}.
Definition empty_result : PathValidationResult := mkPVR None None None None.

(** How validation ends: a result, or an [ExtendedCertPathValidatorException]
    with its cause and result. *)
Inductive PathOutcome :=
  | Validated (r : PathValidationResult)
  | Failed (cause : exn) (r : PathValidationResult).

(** [CertPathValidatorException.BasicReason] *)
Inductive BasicReason := UNSPECIFIED_REASON | REVOKED_REASON | UNDETERMINED_REVOCATION_STATUS.

(** The loops of [getFailure], over the reversed status list, and of [getIndex]. *)
Fixpoint failure_loop (l : list ValidationStatus) : BasicReason :=
  match l with
  | [] => UNSPECIFIED_REASON
  | st :: l' =>
      match validity st with
      | REVOKED => REVOKED_REASON
      | INVALID | UNKNOWN => UNDETERMINED_REVOCATION_STATUS
      | VALID => failure_loop l'
      end
  end.

Fixpoint index_loop (l : list ValidationStatus) (i : nat) : option Z :=
  match i with
  | 0 => Some (-1)%Z
  | S i' =>
      match nth_error l i' with
      | Some st => if bool_decide (validity st = VALID) then index_loop l i' else Some (Z.of_nat i')
      | None => None
      end
  end.

(** [ExtendedCertPathValidatorException.getFailure] and [getIndex]; [None] when
    the status list is null, which the methods dereference. *)
Definition getFailure (r : PathValidationResult) : option BasicReason :=
  match pkixCertPathBuilderResult r with
  | None => Some UNSPECIFIED_REASON
  | Some _ => (λ l, failure_loop (rev l)) <$> validationStatusList r
  end.

Definition getIndex (r : PathValidationResult) : option Z :=
  match pkixCertPathBuilderResult r with
  | None => Some (-1)%Z
  | Some _ => l ← validationStatusList r; index_loop l (length l)
  end.

(** The checker of the status of one certificate, as the path validator's
    factory provides it, and the clock. *)
Class StatusChecker (S : Type) := {
  checkStatus : X509Certificate → X509Certificate → MF S ValidationStatus;
  currentDate : M S Z
}.

(** The factory of the class itself: [BasicCertificateValidityChecker]. *)
Definition basicChecker {S} `{ValidationEnv S} (cr : Crypto) (fuel : nat) : StatusChecker S := {|
  checkStatus := checkValidity cr fuel;
  currentDate := newDate
|}.

Section Validator.
Context {S : Type} `{SC : StatusChecker S}.
(** [certVerify c pk]: [c.verify(pk)] succeeds; [pkixBuild target stores
    anchors]: the PKIX builder of the provider. *)
Context (certVerify : X509Certificate → PublicKey → bool).
Context (pkixBuild : X509Certificate → list CertStore → list TrustAnchor → outcome PKIXResult).

(** [BasicPathBuilder.buildPath] *)
Definition isSelfSigned (c : X509Certificate) : bool := certVerify c (publicKey c).
Definition chainCerts (target : X509Certificate) (supporting : option (list X509Certificate)) :
    list X509Certificate :=
  let l := default [] supporting in
  let l' := if existsb (λ c, cert_eqb c target) l then l else l ++ [target] in
  List.filter (λ c, negb (isSelfSigned c)) l'.
Definition buildPath (target : X509Certificate) (supporting : option (list X509Certificate))
    (intermediaryStore : option CertStore) (trustAnchors : list TrustAnchor) : outcome PKIXResult :=
  let certStoreList :=
    match intermediaryStore with Some st => [st] | None => [] end ++ [chainCerts target supporting] in
  pkixBuild target certStoreList trustAnchors.

(** [CertUtils.getResultPath] *)
Definition getResultPath (r : PKIXResult) : list X509Certificate := certPath r ++ [trustAnchor r].

(** [getStatus]: the first status whose certificate equals the given one. *)
Fixpoint getStatus (l : list ValidationStatus) (checkedCert : X509Certificate) :
    outcome (option ValidationStatus) :=
  match l with
  | [] => Ret None
  | st :: l' =>
      match certificate st with
      | None => Throw NullPointerException
      | Some c => if cert_eqb c checkedCert then Ret (Some st) else getStatus l' checkedCert
      end
  end.

(** [sortResults] *)
Fixpoint sortResults (l : list ValidationStatus) (path : list X509Certificate) :
    outcome (list ValidationStatus) :=
  match path with
  | [] => Ret []
  | c :: path' =>
      o ← getStatus l c;
      rest ← sortResults l path';
      Ret (match o with Some st => st :: rest | None => rest end)
  end.

(** The loop over the path, from the trust anchor's end down to the target:
    [todo] is the part of the path still to check, reversed. *)
Fixpoint checkPath (statusList : list ValidationStatus) (r : PathValidationResult)
    (todo : list X509Certificate) : outcome PathOutcome :=
  match todo with
  | [] => Ret (Validated r)
  | checkedCert :: todo' =>
      o ← getStatus statusList checkedCert;
      match o with
      | None => Ret (Failed (RuntimeException "Missing path validation result for ") r)
      | Some status =>
          if bool_decide (validity status = VALID) && statusSignatureValid status
          then checkPath statusList r todo'
          else if bool_decide (validity status = UNKNOWN)
          then Ret (Failed (RuntimeException "Certificate validity could not be determined for ") r)
          else if bool_decide (validity status = REVOKED)
          then Ret (Failed (RuntimeException "Certificate REVOKED for ") r)
          else Ret (Failed (RuntimeException "Certificate status checking failed for ") r)
      end
  end.

(** [getSingleThreadedValidityStatus] *)
Fixpoint singleThreadedStatus (path : list X509Certificate) : MF S (list ValidationStatus) :=
  match path with
  | c :: ((i :: _) as path') =>
      st ← checkStatus c i;
      l ← singleThreadedStatus path';
      mret (st :: l)
  | _ => mret []
  end.

(** What follows the collection of the statuses. *)
Definition conclude (r : PKIXResult) (path : list X509Certificate)
    (collected : list ValidationStatus) : outcome PathOutcome :=
  statusList ← sortResults collected path;
  let result := mkPVR (Some r) (head path) (Some path) (Some statusList) in
  checkPath statusList result (tl (rev path)).

(** [validateCertificatePath]; [threads path] stands for the statuses that the
    validation threads have delivered when the main thread stops waiting, and is
    used when the validator is not single threaded. *)
Definition validateCertificatePath (singleThreaded : bool)
    (threads : list X509Certificate → MF S (list ValidationStatus))
    (targetCert : X509Certificate) (chain : option (list X509Certificate))
    (certStore : option CertStore) (trustAnchors : list TrustAnchor) : MF S PathOutcome :=
  match findFirst (λ ta, cert_eqb ta targetCert) trustAnchors with
  | Some ta =>
      t ← run currentDate;
      mret (Validated (mkPVR (Some (mkPKIX [targetCert] ta)) (Some targetCert) (Some [targetCert])
        (Some [newStatus (Some targetCert) (Some targetCert) (Some SELF_SIGNED) (Some t) VALID])))
  | None =>
      match buildPath targetCert chain certStore trustAnchors with
      | Throw e => mret (Failed e empty_result)
      | Ret r =>
          let pathBuilderCertPath := getResultPath r in
          if Nat.ltb (length pathBuilderCertPath) 2 then
            mret (Failed (RuntimeException "Valid path too short for validity checking. Must be at least length = 2") empty_result)
          else if singleThreaded then
            l ← singleThreadedStatus pathBuilderCertPath;
            run (lift (conclude r pathBuilderCertPath l))
          else
            l ← threads pathBuilderCertPath;
            if negb (Nat.eqb (length l) (length pathBuilderCertPath - 1)) then
              mret (Failed (RuntimeException "Unable to obtain status information for all certificates in the path") empty_result)
            else run (lift (conclude r pathBuilderCertPath l))
      end
  end.

(** ** [StatusCheckingCertificateValidatorImpl] *)
Section Impl.
Context (certStore : option CertStore) (defaultTrustAnchors : list X509Certificate).
Context (singleThreaded : bool) (threads : list X509Certificate → MF S (list ValidationStatus)).

(** How a call of [validate] ends: a result, a path builder exception, an
    extended exception. *)
Inductive ValidateOutcome :=
  | VResult (r : PathValidationResult)
  | VPathBuilder (msg : string)
  | VExtended (cause : exn) (r : PathValidationResult).

Definition validatePath (subject : X509Certificate) (additional : option (list X509Certificate))
    (trustAnchorCerts : option (list X509Certificate)) : MF S ValidateOutcome :=
  match trustAnchorCerts with
  | None | Some [] => mret (VPathBuilder "No trust anchor is provided for path building")
  | Some anchors =>
      o ← validateCertificatePath singleThreaded threads subject additional certStore anchors;
      match o with
      | Validated r => mret (VResult r)
      | Failed (CertPathBuilderException msg) _ => mret (VPathBuilder msg)
      | Failed cause r => mret (VExtended cause r)
      end
  end.

Definition crl_input {A} (crls : option (list A)) : bool :=
  match crls with None | Some [] => false | Some _ => true end.

Definition crl_not_allowed : ValidateOutcome :=
  VExtended (IllegalArgumentException "CRL input is not allowed in this implementation") empty_result.

(** [validate] with the default trust anchors *)
Definition validate (subject : X509Certificate) (additional : option (list X509Certificate))
    (crls : option (list X509CRL)) : MF S ValidateOutcome :=
  if crl_input crls then mret crl_not_allowed
  else validatePath subject additional (Some defaultTrustAnchors).

(** [validate] with trust anchors; the list of all trusted certificates is
    computed and not used. *)
Definition validate_with (subject : X509Certificate) (additional : option (list X509Certificate))
    (crls : option (list X509CRL)) (trustAnchors : option (list X509Certificate)) :
    MF S ValidateOutcome :=
  if crl_input crls then mret crl_not_allowed
  else
    let allTrustedCerts := defaultTrustAnchors ++ default [] trustAnchors in
    validatePath subject additional trustAnchors.
End Impl.
End Validator.

(** ** Lemmas on the status list *)
Section StatusList.
Implicit Types (l : list ValidationStatus) (c : X509Certificate) (st : ValidationStatus).

Lemma cert_eqb_eq_l c d e : cert_eqb c d = true → cert_eqb c e = cert_eqb d e.
Proof. unfold cert_eqb. rewrite Z.eqb_eq. by intros ->. Qed.

Lemma getStatus_Some l c st :
  getStatus l c = Ret (Some st) →
  st ∈ l ∧ ∃ c', certificate st = Some c' ∧ cert_eqb c' c = true.
Proof.
  induction l as [|x l IH]; simpl; [done|].
  destruct (certificate x) as [c'|] eqn:Hc; [|done].
  destruct (cert_eqb c' c) eqn:He.
  - intros [= ->]. split; [left|eauto].
  - intros [Hin ?]%IH. split; [by right|done].
Qed.

(** Equal certificates have the same status. *)
Lemma getStatus_eqb l c d : cert_eqb c d = true → getStatus l c = getStatus l d.
Proof.
  intros He. induction l as [|x l IH]; simpl; [done|].
  destruct (certificate x) as [c'|]; [|done].
  replace (cert_eqb c' d) with (cert_eqb c' c); [by rewrite IH|].
  rewrite (cert_eqb_sym c' c), (cert_eqb_sym c' d). by apply cert_eqb_eq_l.
Qed.

Lemma getStatus_skip l c st d d' :
  certificate st = Some d' → cert_eqb d' d = true → cert_eqb d c = false →
  getStatus (st :: l) c = getStatus l c.
Proof. intros Hc He Hd. simpl. by rewrite Hc, (cert_eqb_eq_l d' d c He), Hd. Qed.

Lemma getStatus_sorted_none l path sl c :
  sortResults l path = Ret sl → (∀ d, d ∈ path → cert_eqb d c = false) →
  getStatus sl c = Ret None.
Proof.
  revert sl. induction path as [|d path IH]; intros sl; simpl; [by intros [= <-]|].
  destruct (getStatus l d) as [o|e] eqn:Hd; [|done]. mstep.
  destruct (sortResults l path) as [rest|e]; [|done]. intros [= <-] Hno.
  assert (getStatus rest c = Ret None) by (apply IH; [done|]; intros; apply Hno; by right).
  destruct o as [st|]; [|done]. apply getStatus_Some in Hd as (_ & c' & Hc' & He).
  rewrite (getStatus_skip rest c st d c'); auto. apply Hno. left.
Qed.

(** Sorting the statuses by the path does not change the status found for a
    certificate of the path. *)
Lemma getStatus_sorted l path sl c :
  sortResults l path = Ret sl → (∃ d, d ∈ path ∧ cert_eqb d c = true) →
  getStatus sl c = getStatus l c.
Proof.
  revert sl. induction path as [|x path IH]; intros sl; simpl; [by intros _ (? & []%not_elem_of_nil & _)|].
  destruct (getStatus l x) as [o|e] eqn:Hx; [|done]. mstep.
  destruct (sortResults l path) as [rest|e] eqn:Hrest; [|done]. intros [= <-] (d & Hin & He).
  destruct (cert_eqb x c) eqn:Hxc.
  - rewrite <- (getStatus_eqb l x c Hxc), Hx. destruct o as [st|].
    + simpl. apply getStatus_Some in Hx as (_ & c' & -> & Hc').
      by rewrite (cert_eqb_trans c' x c).
    + destruct (existsb (λ y, cert_eqb y c) path) eqn:Hex.
      * apply existsb_exists in Hex as (y & Hy & Hyc). apply list_elem_of_In in Hy.
        rewrite <- Hx, (getStatus_eqb l x c Hxc). eauto.
      * eapply getStatus_sorted_none; [exact Hrest|]. intros y Hy.
        apply not_true_iff_false. intros Hyc.
        apply not_true_iff_false in Hex. apply Hex, existsb_exists.
        exists y. by rewrite <- list_elem_of_In.
  - apply elem_of_cons in Hin as [->|Hin]; [congruence|].
    assert (getStatus rest c = getStatus l c) by eauto.
    destruct o as [st|]; [|done]. apply getStatus_Some in Hx as (_ & c' & Hc' & Hcx).
    by rewrite (getStatus_skip rest c st x c').
Qed.
End StatusList.

(** ** What validation establishes *)
Definition status_ok (st : ValidationStatus) : Prop :=
  validity st = VALID ∧ statusSignatureValid st = true.

Lemma checkPath_validated sl r todo r' :
  checkPath sl r todo = Ret (Validated r') →
  r' = r ∧ ∀ c, c ∈ todo → ∃ st, getStatus sl c = Ret (Some st) ∧ status_ok st.
Proof.
  induction todo as [|c todo IH]; simpl.
  { intros [= ->]. split; [done|]. by intros c []%not_elem_of_nil. }
  mstep. destruct (getStatus sl c) as [[st|]|e] eqn:Hc; [|done|done].
  destruct (bool_decide (validity st = VALID) && statusSignatureValid st) eqn:Hok.
  - intros [-> H]%IH. split; [done|]. intros d [->|Hd]%elem_of_cons; [|auto].
    apply andb_true_iff in Hok as [Hv%bool_decide_eq_true Hs]. exists st. by split.
  - repeat case_bool_decide; done.
Qed.

(** The certificates of a path that need a status: all but the trust anchor. *)
Lemma tl_rev_elem {A} (l : list A) (x : A) : x ∈ removelast l ↔ x ∈ tl (rev l).
Proof.
  destruct l as [|y l] using rev_ind; [done|].
  rewrite removelast_last, rev_app_distr. simpl. by rewrite !list_elem_of_In, <- in_rev.
Qed.

Lemma removelast_elem {A} (l : list A) (x : A) : x ∈ removelast l → x ∈ l.
Proof.
  destruct l as [|y l _] using rev_ind; [done|]. rewrite removelast_last, elem_of_app. auto.
Qed.

Lemma conclude_validated r path collected r' :
  conclude r path collected = Ret (Validated r') →
  validatedCertificatePath r' = Some path ∧
  ∀ c, c ∈ removelast path → ∃ st, getStatus collected c = Ret (Some st) ∧ status_ok st.
Proof.
  unfold conclude. mstep. destruct (sortResults collected path) as [sl|e] eqn:Hs; [|done].
  intros [-> H]%checkPath_validated. split; [done|]. intros c Hc.
  rewrite <- (getStatus_sorted collected path sl c Hs).
  - by apply H, tl_rev_elem.
  - exists c. split; [by apply removelast_elem|apply cert_eqb_refl].
Qed.

(** The path is judged by the status of every certificate in it: a run
    that collected a status for some certificate of the path (the trust anchor
    apart) that is not VALID with a verified signature does not end in a result. *)
Theorem conclude_rejects r path collected c st :
  c ∈ removelast path → getStatus collected c = Ret (Some st) →
  validity st ≠ VALID ∨ statusSignatureValid st = false →
  ∀ r', conclude r path collected ≠ Ret (Validated r').
Proof.
  intros Hc Hst Hbad r' (_ & H)%conclude_validated.
  destruct (H c Hc) as (st' & Hst' & Hv & Hs). rewrite Hst in Hst'. injection Hst' as ->.
  destruct Hbad; congruence.
Qed.

Lemma index_loop_app l1 l2 i : i <= length l1 → index_loop (l1 ++ l2) i = index_loop l1 i.
Proof.
  induction i as [|i IH]; intros Hi; simpl; [done|].
  rewrite nth_error_app1 by lia. rewrite IH by lia. done.
Qed.

(** The error object of a failed validation is coherent: its index is the
    last position of the status list that is not VALID, or -1 when there is none,
    and its reason is the one of the status at that position: revoked for REVOKED,
    undetermined otherwise, unspecified when the index is -1. *)
Theorem failure_at_index r p l :
  pkixCertPathBuilderResult r = Some p → validationStatusList r = Some l →
  (getIndex r = Some (-1)%Z ∧ getFailure r = Some UNSPECIFIED_REASON ∧
     ∀ st, st ∈ l → validity st = VALID) ∨
  ∃ i st, getIndex r = Some (Z.of_nat i) ∧ l !! i = Some st ∧ validity st ≠ VALID ∧
    getFailure r = Some (if bool_decide (validity st = REVOKED) then REVOKED_REASON
                         else UNDETERMINED_REVOCATION_STATUS) ∧
    ∀ j st', i < j → l !! j = Some st' → validity st' = VALID.
Proof.
  intros Hp Hl. unfold getIndex, getFailure. rewrite Hp, Hl. simpl. clear Hp Hl.
  induction l as [|x l IH] using rev_ind.
  { left. repeat split. by intros st []%not_elem_of_nil. }
  rewrite length_app, Nat.add_comm, rev_app_distr. simpl.
  rewrite nth_error_app2, Nat.sub_diag by lia. unfold nth_error at 1. simpl.
  rewrite index_loop_app by done.
  destruct (decide (validity x = VALID)) as [Hx|Hx].
  - rewrite bool_decide_true, Hx by done.
    destruct IH as [(Hi & Hf & Hall)|(i & st & Hi & Hst & Hv & Hf & Hall)]; [left|right].
    + split; [done|]. split; [done|].
      intros st [?| ->%list_elem_of_singleton]%elem_of_app; auto.
    + exists i, st. split; [done|]. pose proof (lookup_lt_Some _ _ _ Hst).
      split; [by rewrite lookup_app_l|]. split; [done|]. split; [done|].
      intros j st' Hij. destruct (decide (j < length l)).
      * rewrite lookup_app_l by done. by apply Hall.
      * rewrite lookup_app_r by lia. intros [_ <-]%list_lookup_singleton_Some. done.
  - rewrite bool_decide_false by done. right. exists (length l), x.
    split; [done|]. split; [by rewrite lookup_app_r, Nat.sub_diag|]. split; [done|].
    split; [by destruct (validity x)|]. intros j st' Hj.
    intros ?%lookup_lt_Some. rewrite length_app in *. simpl in *. lia.
Qed.

Section ValidatorFacts.
Context {S : Type} `{SC : StatusChecker S}.
Context (certVerify : X509Certificate → PublicKey → bool).
Context (pkixBuild : X509Certificate → list CertStore → list TrustAnchor → outcome PKIXResult).

(** The checks lead from one state to another. *)
Definition checks_lead (s s' : S) : Prop := ∀ P : S → Prop, (∀ c i, keepsF P (checkStatus c i)) → P s → P s'.
(** Each collected status is the checker's answer for a certificate of the
    path and the next one, on the way of the checks. *)
Lemma singleThreadedStatus_spec path s l s' :
  singleThreadedStatus path s = Some (Ret l, s') → checks_lead s s' ∧
  ∀ st, st ∈ l → ∃ k c i s1 s2, path !! k = Some c ∧ path !! (k + 1) = Some i ∧
    checkStatus c i s1 = Some (Ret st, s2) ∧ checks_lead s s1 ∧ checks_lead s2 s'.
Proof.
  assert (Hrefl : ∀ s, checks_lead s s) by (by intros ? P).
  revert s l. induction path as [|c path IH]; intros s l; simpl.
  { intros [= <- <-]. split; [done|]. by intros st []%not_elem_of_nil. }
  destruct path as [|i path]; [intros [= <- <-]; split; [done|]; by intros st []%not_elem_of_nil|]. mstep.
  destruct (checkStatus c i s) as [[[st0|] s1]|] eqn:H0; [|done|done].
  destruct (singleThreadedStatus (i :: path) s1) as [[[l0|] s2]|] eqn:H1; [|done|done].
  intros [= <- ->]. destruct (IH s1 l0 H1) as [Hlead Hall].
  assert (Hfirst : checks_lead s s1) by (intros P HP Hs; by eapply HP). split; [intros P HP Hs; by apply Hlead, Hfirst|].
  intros st [->|Hin]%elem_of_cons.
  - exists 0, c, i, s, s1. auto.
  - destruct (Hall st Hin) as (k & c' & i' & t1 & t2 & Hk & Hk' & Hch & Hl1 & Hl2).
    exists (Datatypes.S k), c', i', t1, t2. do 3 (split; [done|]). split; [|done]. intros P HP Hs. by apply Hl1, Hfirst.
Qed.

(** A validated path in single threaded mode is either the target alone
    when it is a trust anchor, or the path the PKIX builder found, ended by its
    trust anchor, of which every certificate but the anchor has a status, about an
    equal certificate of the path and its issuer in the path, that the checker
    reported as VALID with a verified signature. *)
Theorem validated_path_checked threads target chain store anchors s r s' :
  validateCertificatePath certVerify pkixBuild true threads target chain store anchors s
    = Some (Ret (Validated r), s') →
  (∃ ta, ta ∈ anchors ∧ cert_eqb ta target = true ∧ validatedCertificatePath r = Some [target]) ∨
  ∃ res path, buildPath certVerify pkixBuild target chain store anchors = Ret res ∧
    path = certPath res ++ [trustAnchor res] ∧ validatedCertificatePath r = Some path ∧
    ∀ c, c ∈ certPath res → ∃ k d i st s1 s2,
      path !! k = Some d ∧ path !! (k + 1) = Some i ∧
      checkStatus d i s1 = Some (Ret st, s2) ∧ checks_lead s s1 ∧ checks_lead s2 s' ∧ status_ok st ∧
      (∃ e, certificate st = Some e ∧ cert_eqb e c = true).
Proof.
  unfold validateCertificatePath. mstep.
  destruct (findFirst _ anchors) as [ta|] eqn:Hta.
  { apply findFirst_Some in Hta as [He Hin].
    destruct (currentDate s) as [[t|] s1]; [|done]. intros [= <- <-]. left. eauto. }
  destruct (buildPath _ _ target chain store anchors) as [res|e] eqn:Hb; [|by intros [=]].
  unfold getResultPath. destruct (Nat.ltb _ 2); [done|].
  destruct (singleThreadedStatus _ s) as [[[l|] s1]|] eqn:Hl; [|done|done].
  intros [= Hc <-]. right. exists res, (certPath res ++ [trustAnchor res]).
  apply conclude_validated in Hc as [Hpath Hall]. repeat (split; [done|]).
  intros c Hin. destruct (Hall c) as (st & Hst & Hok); [by rewrite removelast_last|].
  apply getStatus_Some in Hst as [Hst He].
  destruct (proj2 (singleThreadedStatus_spec _ _ _ _ Hl) st Hst) as (k & d & i & t1 & t2 & ? & ? & ? & ? & ?).
  exists k, d, i, st, t1, t2. auto 10.
Qed.

(** The certificates offered to the PKIX builder: the caller's store, when
    there is one, and a collection that contains no self-signed certificate, only
    caller certificates and the target, and the target unless it is self-signed. *)
Theorem chainCerts_spec target supporting c :
  c ∈ chainCerts certVerify target supporting ↔
  isSelfSigned certVerify c = false ∧
  (c ∈ default [] supporting ∨
   c = target ∧ ∀ d, d ∈ default [] supporting → cert_eqb d target = false).
Proof.
  unfold chainCerts. rewrite filter_elem, negb_true_iff.
  set (l := default [] supporting).
  destruct (existsb (λ c, cert_eqb c target) l) eqn:He.
  - split; [naive_solver|]. intros [? [?|[-> Hno]]]; [auto|].
    apply existsb_exists in He as (d & Hd & Hde). apply list_elem_of_In in Hd.
    rewrite (Hno d Hd) in Hde. done.
  - assert (∀ d, d ∈ l → cert_eqb d target = false) as Hno.
    { intros d Hd. apply not_true_iff_false. intros Hde.
      apply not_true_iff_false in He. apply He, existsb_exists. exists d. by rewrite <- list_elem_of_In. }
    rewrite elem_of_app, list_elem_of_singleton. naive_solver.
Qed.

(** [validate] with trust anchors does not use the default trust anchors:
    two validators that differ in them only give the same answer, and without trust
    anchors in the call it refuses even when default trust anchors are set. *)
Theorem validate_with_ignores_defaults store d1 d2 st threads subject additional crls anchors :
  validate_with certVerify pkixBuild store d1 st threads subject additional crls anchors
  = validate_with certVerify pkixBuild store d2 st threads subject additional crls anchors ∧
  ∀ s, validate_with certVerify pkixBuild store d1 st threads subject additional None None s
    = Some (Ret (VPathBuilder "No trust anchor is provided for path building"), s).
Proof. split; done. Qed.
End ValidatorFacts.

(** Each status of a validated path was a VALID answer of the checker. *)
Lemma checks_in_environment {S} {VE : ValidationEnv S} cr fuel s s' :
  checks_lead (SC := basicChecker cr fuel) s s' → rtc env_step s s'.
Proof. intros H. apply H; [|apply rtc_refl]. intros c i. apply since_checkValidity. Qed.
Lemma path_evidence {S} {VE : ValidationEnv S} cr fuel pkix threads target chain
    store anchors s r s' :
  validateCertificatePath (SC := basicChecker cr fuel) (certVerify cr) pkix true threads
    target chain store anchors s = Some (Ret (Validated r), s') →
  (∀ ta, ta ∈ anchors → cert_eqb ta target = false) →
  ∃ res, buildPath (certVerify cr) pkix target chain store anchors = Ret res ∧
    validatedCertificatePath r = Some (certPath res ++ [trustAnchor res]) ∧
    ∀ c, c ∈ certPath res → ∃ k d i, (certPath res ++ [trustAnchor res]) !! k = Some d ∧
      (certPath res ++ [trustAnchor res]) !! (k + 1) = Some i ∧ cert_eqb d c = true ∧ Evidence cr s s' d i.
Proof.
  intros [(ta & Hin & He & _)|(res & path & Hb & -> & Hp & Hall)]%validated_path_checked Hno.
  { by rewrite (Hno ta Hin) in He. }
  exists res. split; [done|]. split; [done|]. intros c Hc.
  destruct (Hall c Hc) as (k & d & i & st & s1 & s2 & Hk & Hk' & Hch & Hl1 & Hl2 & [Hv _] & e & He & Hec).
  apply checkValidity_valid in Hch as (Hd & _ & Hev); [|done].
  rewrite Hd in He. injection He as ->. exists k, e, i. do 3 (split; [done|]).
  eapply evidence_between; [| |exact Hev]; by eapply checks_in_environment.
Qed.

(** C3. End to end: with the status checker of the library, a path validated
    in single threaded mode has revocation evidence for each of its certificates but
    the trust anchor: a signed CRL or OCSP response about that certificate that its
    neighbour in the path vouches for, which was had in this validation. *)
Theorem validated_path_evidence {S} {VE : ValidationEnv S} cr fuel pkix threads target chain
    store anchors s r s' :
  validateCertificatePath (SC := basicChecker cr fuel) (certVerify cr) pkix true threads
    target chain store anchors s = Some (Ret (Validated r), s') →
  (∀ ta, ta ∈ anchors → cert_eqb ta target = false) →
  ∃ path ta, validatedCertificatePath r = Some (path ++ [ta]) ∧
    ∀ c, c ∈ path → ∃ k d i, (path ++ [ta]) !! k = Some d ∧ (path ++ [ta]) !! (k + 1) = Some i ∧
      cert_eqb d c = true ∧ Evidence cr s s' d i.
Proof. intros H Hno. apply path_evidence in H as (res & _ & ? & ?); [by exists (certPath res), (trustAnchor res)|done]. Qed.

(** ** A concrete path: certificate 1, issued by the trust anchor [demo_ca]. *)
Section Demo.
Definition demo_target : X509Certificate := demo_cert 1 ExtAbsent ExtAbsent.
Definition demo_pkix (target : X509Certificate) (_ : list CertStore) (anchors : list TrustAnchor) :
    outcome PKIXResult :=
  match anchors with
  | ta :: _ => Ret (mkPKIX [target] ta)
  | [] => Throw (CertPathBuilderException "no trust anchor")
  end.
Definition demo_checker : StatusChecker unit := basicChecker (H := demo_with_crl) demo_crypto 1.
Definition no_threads (_ : list X509Certificate) : MF unit (list ValidationStatus) := mret [].
Definition demo_validated : PathValidationResult :=
  match validateCertificatePath (SC := demo_checker) (certVerify demo_crypto) demo_pkix true
          no_threads demo_target None None [demo_ca] tt with
  | Some (Ret (Validated r), _) => r
  | _ => empty_result
  end.

Lemma conclude_rejects_witness :
  conclude (mkPKIX [demo_target] demo_ca) [demo_target; demo_ca]
    [newStatus (Some demo_target) None (Some CRL) None UNKNOWN] ≠ Ret (Validated empty_result).
Proof.
  apply (conclude_rejects _ _ _ demo_target (newStatus (Some demo_target) None (Some CRL) None UNKNOWN)).
  - left.
  - reflexivity.
  - left. discriminate.
Defined.

Definition demo_bad : ValidationStatus := newStatus (Some demo_target) None (Some CRL) None REVOKED.
Definition demo_failed : PathValidationResult :=
  mkPVR (Some (mkPKIX [] demo_ca)) None None (Some [demo_valid; demo_bad; demo_valid]).
Lemma failure_at_index_witness :
  getIndex demo_failed = Some 1%Z ∧ getFailure demo_failed = Some REVOKED_REASON.
Proof.
  destruct (failure_at_index demo_failed (mkPKIX [] demo_ca) [demo_valid; demo_bad; demo_valid] eq_refl eq_refl)
    as [(H & _)|(i & st & H1 & _ & _ & H2 & _)]; [vm_compute in H; discriminate|].
  split; reflexivity.
Defined.

Lemma validated_path_evidence_witness :
  ∃ path ta, validatedCertificatePath demo_validated = Some (path ++ [ta]) ∧
    ∀ c, c ∈ path → ∃ k d i, (path ++ [ta]) !! k = Some d ∧ (path ++ [ta]) !! (k + 1) = Some i ∧
      cert_eqb d c = true ∧ Evidence (VE := demo_with_crl) demo_crypto tt tt d i.
Proof.
  apply (validated_path_evidence (VE := demo_with_crl) demo_crypto 1 demo_pkix no_threads
    demo_target None None [demo_ca] tt demo_validated tt).
  - vm_compute. reflexivity.
  - intros ta [->|[]%not_elem_of_nil]%elem_of_cons. reflexivity.
Defined.
End Demo.
