(* ===== verification/Deferred.v ===== *)
(** * Callback lists and deferred objects of the documentation site's library

    Model of [jQuery.Callbacks], [jQuery.Deferred], [adoptValue] and
    [jQuery.when] in docs/javadoc/cert-extensions/jquery/jquery-3.5.1.js.

    Functions are values: a list holds user functions and closures the library
    makes, and any of them may call back into the library while a list is firing.
    The model is an interpreter over a heap that holds every callback list, the
    state of every deferred, the variables that the closures share and the timer
    queue; user functions are programs over the operations of the library. *)
From Stdlib Require Import ZArith Lia Ascii String.
From stdpp Require Import base gmap strings list relations.
From S2P Require Import Prelude.

(** The three tuples of a deferred, and its two lists per tuple: the listeners
    (progress, done, fail) and the handlers of [then]. *)
Inductive kind := KNotify | KResolve | KReject.
Inductive lid :=
  | LDef (d : nat) (k : kind) (handlers : bool)
  | LFree (n : nat).
#[export] Instance kind_eq_dec : EqDecision kind.
Proof. solve_decision. Defined.
#[export] Instance lid_eq_dec : EqDecision lid.
Proof. solve_decision. Defined.

(** [tuples[ 3 - i ]] *)
Definition other (k : kind) : kind :=
  match k with KResolve => KReject | KReject => KResolve | KNotify => KNotify end.
Definition stateString (k : kind) : option string :=
  match k with KNotify => None | KResolve => Some "resolved"%string | KReject => Some "rejected"%string end.

(** Values, and the functions a program can hold: user functions, the settling
    functions of a deferred, the closures made by [then], [pipe] and [when].
    [tid] names the [maxDepth] variable of one call of [then]. *)
Inductive val :=
  | VUndef | VBool (b : bool) | VNum (z : Z) | VStr (s : string) | VTypeError (s : string)
  | VFn (f : fn) | VPromise (d : nat) | VDeferred (d : nat) | VThenable (n : nat)
  | VArray (l : list val)
with fn :=
  | FUser (n : nat)
  | FSettle (d : nat) (k : kind)
  | FThen (tid depth d : nat) (h : handler) (special : bool)
  | FPipe (newd : nat) (k : kind) (f : option fn)
  | FWhen (w i : nat)
with handler := HFn (f : fn) | Identity | Thrower.

(** What a callback list holds: functions of the program, and the private
    closures a deferred puts into its own lists. *)
Inductive entry :=
  | EFn (f : fn)
  | ESetState (d : nat) (s : string)
  | EDisable (l : lid)
  | ELock (l : lid)
  | EFire (l : lid).

(** Arguments of [add]: functions, array-likes to inspect, anything else. *)
Inductive addArg := AFn (f : fn) | AOther | AArray (l : list addArg).
Fixpoint flatten (a : addArg) : list fn :=
  match a with
  | AFn f => [f]
  | AOther => []
  | AArray l => concat (map flatten l)
  end.

(** The options of [jQuery.Callbacks]. *)
Record flags := mkFlags { once : bool; memoryFlag : bool; unique : bool; stopOnFalse : bool }.

(** [createOptions]: a flag is set when its word occurs in the string. *)
Fixpoint words_from (cur : string) (s : string) : list string :=
  match s with
  | EmptyString => if String.eqb cur "" then [] else [cur]
  | String c s' =>
      let n := Ascii.nat_of_ascii c in
      if (n =? 32) || (n =? 9) || (n =? 13) || (n =? 10) || (n =? 12)
      then (if String.eqb cur "" then [] else [cur]) ++ words_from "" s'
      else words_from (cur ++ String c "") s'
  end.
Definition createOptions (options : string) : flags :=
  let object := words_from "" options in
  let has flag := existsb (String.eqb flag) object in
  mkFlags (has "once"%string) (has "memory"%string) (has "unique"%string) (has "stopOnFalse"%string).

(** The variables of one [jQuery.Callbacks] object.  [list] is [None] when it is
    the empty string; [memory] is [None] when it is falsy. *)
Record CB := mkCB {
  options : flags;
  firing : bool;
  memory : option (val * list val);
  fired : bool;
  locked : bool;
  list_ : option (list entry);
  queue : list (val * list val);
  firingIndex : Z
}.
Definition new_CB (o : flags) : CB := mkCB o false None false false (Some []) [] (-1).

Definition cb_list (c : CB) : list entry := default [] (list_ c).
Definition cb_len (c : CB) : Z := Z.of_nat (length (cb_list c)).
Definition is_some {A} (o : option A) : bool := match o with Some _ => true | None => false end.

(** [disable] *)
Definition cb_disable (c : CB) : CB :=
  mkCB (options c) (firing c) None (fired c) true None [] (firingIndex c).
(** [lock] *)
Definition cb_lock (c : CB) : CB :=
  let c' := mkCB (options c) (firing c) (memory c) (fired c) true (list_ c) [] (firingIndex c) in
  if negb (is_some (memory c)) && negb (firing c)
  then mkCB (options c) (firing c) None (fired c) true None [] (firingIndex c)
  else c'.
(** [empty] *)
Definition cb_empty (c : CB) : CB :=
  mkCB (options c) (firing c) (memory c) (fired c) (locked c)
    (match list_ c with Some _ => Some [] | None => None end) (queue c) (firingIndex c).

Definition fn_eqb (f g : fn) : bool :=
  match f, g with
  | FUser n, FUser m => Nat.eqb n m
  | FSettle d k, FSettle d' k' => Nat.eqb d d' && bool_decide (k = k')
  | _, _ => false
  end.
Definition entry_is (f : fn) (e : entry) : bool :=
  match e with EFn g => fn_eqb f g | _ => false end.

(** [has(fn)] and [has()] *)
Definition cb_has (f : fn) (c : CB) : bool := existsb (entry_is f) (cb_list c).
Definition cb_has_any (c : CB) : bool := Z.ltb 0 (cb_len c).

(** The pushes of [add], after [list] was found truthy. *)
Definition cb_push (c : CB) (e : entry) : CB :=
  mkCB (options c) (firing c) (memory c) (fired c) (locked c)
    (Some (cb_list c ++ [e])) (queue c) (firingIndex c).
Definition add_one (c : CB) (e : entry) : CB :=
  match e with
  | EFn f => if negb (unique (options c)) || negb (cb_has f c) then cb_push c e else c
  | _ => cb_push c e
  end.
(** [add] before it may start to fire, and whether it does. *)
Definition cb_add (es : list entry) (c : CB) : CB * bool :=
  match list_ c with
  | None => (c, false)
  | Some _ =>
      let refire := is_some (memory c) && negb (firing c) in
      let c1 := if refire
                then mkCB (options c) (firing c) (memory c) (fired c) (locked c) (list_ c)
                       (queue c ++ match memory c with Some m => [m] | None => [] end) (cb_len c - 1)
                else c in
      (fold_left add_one es c1, refire)
  end.

(** [remove]: every occurrence from the start; an index up to the one being
    fired moves the firing index back. *)
Fixpoint remove_from (f : fn) (l : list entry) (index : Z) (fi : Z) : list entry * Z :=
  match l with
  | [] => ([], fi)
  | e :: l' =>
      if entry_is f e
      then remove_from f l' index (if Z.leb index fi then fi - 1 else fi)
      else let '(l'', fi') := remove_from f l' (index + 1) fi in (e :: l'', fi')
  end.
Definition cb_remove (f : fn) (c : CB) : CB :=
  match list_ c with
  | None => c
  | Some l =>
      let '(l', fi) := remove_from f l 0 (firingIndex c) in
      mkCB (options c) (firing c) (memory c) (fired c) (locked c) (Some l') (queue c) fi
  end.

(** The start of [fire], the step to the next queued execution, the step to the
    next callback, the jump after a false result, and the end. *)
Definition cb_fire_start (c : CB) : CB :=
  mkCB (options c) true (memory c) true (locked c || once (options c)) (list_ c) (queue c) (firingIndex c).
Definition cb_shift (c : CB) (m : val * list val) (q : list (val * list val)) : CB :=
  mkCB (options c) (firing c) (Some m) (fired c) (locked c) (list_ c) q (firingIndex c).
Definition cb_index (i : Z) (c : CB) : CB :=
  mkCB (options c) (firing c) (memory c) (fired c) (locked c) (list_ c) (queue c) i.
Definition cb_stop (c : CB) : CB :=
  mkCB (options c) (firing c) None (fired c) (locked c) (list_ c) (queue c) (cb_len c).
Definition cb_fire_end (c : CB) : CB :=
  let m := if memoryFlag (options c) then memory c else None in
  mkCB (options c) false m (fired c) (locked c)
    (if locked c then (if is_some m then Some [] else None) else list_ c) (queue c) (firingIndex c).
(** [fireWith] before it may start to fire. *)
Definition cb_enqueue (m : val * list val) (c : CB) : CB :=
  mkCB (options c) (firing c) (memory c) (fired c) (locked c) (list_ c) (queue c ++ [m]) (firingIndex c).

(** ** The heap *)
Record When := mkWhen {
  remaining : Z;
  resolveContexts : list val;
  resolveValues : list val;
  master : nat
}.
(** A pending [setTimeout( process )] of a [then] closure. *)
Record Timer := mkTimer {
  t_tid : nat; t_depth : nat; t_deferred : nat; t_handler : handler; t_special : bool;
  t_that : val; t_args : list val
}.
Record Heap := mkHeap {
  lists : lid → CB;
  dstate : nat → string;
  next : nat;
  maxDepth : nat → nat;
  whens : nat → When;
  timers : list Timer;
  trace : list (nat * val * list val)
}.

Definition upd {K V} `{EqDecision K} (k : K) (v : V) (f : K → V) : K → V :=
  λ j, if decide (j = k) then v else f j.

Definition upd_list l f h := mkHeap (upd l (f (lists h l)) (lists h)) (dstate h) (next h) (maxDepth h) (whens h) (timers h) (trace h).
Definition set_state d s h := mkHeap (lists h) (upd d s (dstate h)) (next h) (maxDepth h) (whens h) (timers h) (trace h).
Definition set_next n h := mkHeap (lists h) (dstate h) n (maxDepth h) (whens h) (timers h) (trace h).
Definition set_depth t n h := mkHeap (lists h) (dstate h) (next h) (upd t n (maxDepth h)) (whens h) (timers h) (trace h).
Definition set_when w x h := mkHeap (lists h) (dstate h) (next h) (maxDepth h) (upd w x (whens h)) (timers h) (trace h).
Definition set_timers ts h := mkHeap (lists h) (dstate h) (next h) (maxDepth h) (whens h) ts (trace h).
Definition log_call n this args h := mkHeap (lists h) (dstate h) (next h) (maxDepth h) (whens h) (timers h) (trace h ++ [(n, this, args)]).

(** Programs of user functions. *)
Inductive prog :=
  | PRet (v : val)
  | PThrow (v : val)
  | PNew (k : val → prog)
  | PSettle (d : nat) (kd : kind) (ctx : val) (args : list val) (k : prog)
  | PListen (d : nat) (kd : kind) (fs : list addArg) (k : prog)
  | PAlways (d : nat) (fs : list addArg) (k : prog)
  | PThen (d : nat) (onFulfilled onRejected onProgress : option fn) (k : val → prog)
  | PPipe (d : nat) (fnDone fnFail fnProgress : option fn) (k : val → prog)
  | PState (d : nat) (k : string → prog)
  | PWhen (args : list val) (k : val → prog)
  | PCall (f : fn) (this : val) (args : list val) (k : val → prog)
  | PCallbacks (o : flags) (k : nat → prog)
  | PAdd (n : nat) (fs : list addArg) (k : prog)
  | PRemove (n : nat) (fs : list fn) (k : prog)
  | PEmpty (n : nat) (k : prog)
  | PDisable (n : nat) (k : prog)
  | PLock (n : nat) (k : prog)
  | PFireWith (n : nat) (ctx : val) (args : list val) (k : prog).

(** ** The interpreter *)
Inductive res := RVal (v : val) | RThrow (v : val).
Definition C := Heap → option (res * Heap).
Definition ret (v : val) : C := λ h, Some (RVal v, h).
Definition throw (v : val) : C := λ h, Some (RThrow v, h).
Definition bindC (m : C) (f : val → C) : C := λ h,
  match m h with
  | Some (RVal v, h') => f v h'
  | Some (RThrow e, h') => Some (RThrow e, h')
  | None => None
  end.
Definition catchC (m : C) (f : val → C) : C := λ h,
  match m h with Some (RThrow e, h') => f e h' | r => r end.
Definition withH (f : Heap → C) : C := λ h, f h h.
Definition update (f : Heap → Heap) : C := λ h, Some (RVal VUndef, f h).
Definition seqC (m n : C) : C := bindC m (λ _, n).
Infix ">>" := seqC (at level 51, right associativity) : sv_scope.

(** What the interpreter can be asked to run. *)
Inductive task :=
  | TCall (e : entry) (this : val) (args : list val)
  | TOuter (l : lid)
  | TInner (l : lid)
  | TProcess (t : Timer)
  | TProg (p : prog).

(** [arr[ i ] = v] *)
Definition js_set (l : list val) (i : nat) (v : val) : list val :=
  if Nat.ltb i (length l) then <[i:=v]> l else l ++ replicate (i - length l) VUndef ++ [v].

Definition head_val (args : list val) : val := default VUndef (head args).

(** Calling a method of an object that does not exist. *)
Definition exists_list (h : Heap) (l : lid) : bool :=
  match l with LDef d _ _ => negb (String.eqb (dstate h d) "") | LFree _ => true end.
Definition not_a_function : C := throw (VTypeError "not a function").
(** What [fireWith] returns: [this], the deferred for its own lists.  Nothing in
    the library uses the callback object that it is for the other lists. *)
Definition owner (l : lid) : val := match l with LDef d _ false => VDeferred d | _ => VUndef end.

Section Step.
Context (user : nat → val → list val → prog) (thenable : nat → fn → fn → option fn → prog).
(** The recursive calls, on less fuel. *)
Context (rec : task → C).

Definition fire (l : lid) : C := update (upd_list l cb_fire_start) >> rec (TOuter l).

Definition add (l : lid) (es : list entry) : C := withH (λ h,
  if negb (exists_list h l) then not_a_function else
  let '(c, refire) := cb_add es (lists h l) in
  update (upd_list l (λ _, c)) >> if refire then fire l else ret VUndef).

Definition fireWith (l : lid) (ctx : val) (args : list val) : C := withH (λ h,
  if negb (exists_list h l) then not_a_function else
  if locked (lists h l) then ret (owner l) else
  update (upd_list l (cb_enqueue (ctx, args))) >>
  (if firing (lists h l) then ret VUndef else fire l) >> ret (owner l)).

(** The two loops of [fire]. *)
Definition step_outer (l : lid) : C := withH (λ h,
  match queue (lists h l) with
  | [] => update (upd_list l cb_fire_end)
  | m :: q => update (upd_list l (λ c, cb_shift c m q)) >> rec (TInner l)
  end).
Definition step_inner (l : lid) : C := withH (λ h,
  let c := lists h l in
  let i := (firingIndex c + 1)%Z in
  if Z.ltb i (cb_len c) then
    match cb_list c !! Z.to_nat i with
    | Some e =>
        let '(ctx, args) := default (VUndef, []) (memory c) in
        update (upd_list l (cb_index i)) >>
        bindC (rec (TCall e ctx args)) (λ r, withH (λ h',
          let stop := match r with VBool false => stopOnFalse (options (lists h' l)) | _ => false end in
          (if stop then update (upd_list l cb_stop) else ret VUndef) >> rec (TInner l)))
    | None => throw (VTypeError "Cannot read property 'apply' of undefined")
    end
  else update (upd_list l (cb_index (-1))) >> rec (TOuter l)).

(** Settling a deferred: [notifyWith], [resolveWith], [rejectWith]. *)
Definition settleWith (d : nat) (k : kind) (ctx : val) (args : list val) : C :=
  fireWith (LDef d k false) ctx args.

(** [jQuery.Deferred()]: the lists and what the constructor adds to them. *)
Definition def_flags (k : kind) : flags :=
  match k with KNotify => mkFlags false true false false | _ => mkFlags true true false false end.
Definition internals (d : nat) (k : kind) : list entry :=
  match stateString k with
  | Some s => [ESetState d s; EDisable (LDef d (other k) false); EDisable (LDef d (other k) true);
               ELock (LDef d KNotify false); ELock (LDef d KNotify true)]
  | None => []
  end ++ [EFire (LDef d k true)].
Definition init_tuple (d : nat) (k : kind) (h : Heap) : Heap :=
  upd_list (LDef d k false) (λ _, fst (cb_add (internals d k) (new_CB (def_flags k))))
    (upd_list (LDef d k true) (λ _, new_CB (def_flags k)) h).
Definition new_deferred (h : Heap) : Heap :=
  let d := next h in
  set_next (S d) (set_state d "pending"
    (init_tuple d KReject (init_tuple d KResolve (init_tuple d KNotify h)))).

(** Calling a handler of [then]. *)
Definition apply_handler (hd : handler) (that : val) (args : list val) : C :=
  match hd with
  | HFn f => rec (TCall (EFn f) that args)
  | Identity => ret (head_val args)
  | Thrower => throw (head_val args)
  end.

(** [promise.then] of deferred [d], with handlers or the default ones. *)
Definition then_ (d : nat) (onFulfilled onRejected onProgress : option fn) : C := withH (λ h,
  let newDefer := next h in
  let h1 := new_deferred h in
  let tid := next h1 in
  let closure (o : option fn) (dflt : handler) special :=
    EFn (FThen tid 0 newDefer (match o with Some f => HFn f | None => dflt end) special) in
  update (λ _, set_next (S tid) (set_depth tid 0 h1)) >>
  add (LDef d KNotify true) [closure onProgress Identity true] >>
  add (LDef d KResolve true) [closure onFulfilled Identity false] >>
  add (LDef d KReject true) [closure onRejected Thrower false] >>
  ret (VPromise newDefer)).

(** [returned.then.call( returned, ... )] for a value with a [then] method. *)
Definition call_then (v : val) (r1 r2 : fn) (r3 : option fn) : option C :=
  match v with
  | VPromise d | VDeferred d => Some (then_ d (Some r1) (Some r2) r3)
  | VThenable n => Some (rec (TProg (thenable n r1 r2 r3)))
  | _ => None
  end.

(** [mightThrow] *)
Definition is_identity (hd : handler) : bool := match hd with Identity => true | _ => false end.
Definition is_thrower (hd : handler) : bool := match hd with Thrower => true | _ => false end.
Definition is_promise_of (d : nat) (v : val) : bool :=
  match v with VPromise d' => Nat.eqb d d' | _ => false end.
Definition mightThrow (t : Timer) : C := withH (λ h,
  if Nat.ltb (t_depth t) (maxDepth h (t_tid t)) then ret VUndef else
  bindC (apply_handler (t_handler t) (t_that t) (t_args t)) (λ returned,
    if is_promise_of (t_deferred t) returned then throw (VTypeError "Thenable self-resolution") else
    withH (λ h',
      let md := maxDepth h' (t_tid t) in
      let md' := if t_special t then md else S md in
      let r hd special := FThen (t_tid t) md' (t_deferred t) hd special in
      match call_then returned (r Identity (t_special t)) (r Thrower (t_special t))
              (if t_special t then None else Some (r Identity true)) with
      | Some m => update (set_depth (t_tid t) md') >> m
      | None =>
          let that := if is_identity (t_handler t) then t_that t else VUndef in
          let args := if is_identity (t_handler t) then t_args t else [returned] in
          settleWith (t_deferred t) (if t_special t then KNotify else KResolve) that args
      end))).

(** [process] *)
Definition process (t : Timer) : C :=
  if t_special t then mightThrow t else
  catchC (mightThrow t) (λ e, withH (λ h,
    if Nat.leb (maxDepth h (t_tid t)) (t_depth t + 1) then
      let that := if is_thrower (t_handler t) then t_that t else VUndef in
      let args := if is_thrower (t_handler t) then t_args t else [e] in
      settleWith (t_deferred t) KReject that args
    else ret VUndef)).

(** The closures of [then], [pipe] and [when]. *)
Definition call_fn (f : fn) (this : val) (args : list val) : C :=
  match f with
  | FUser n => update (log_call n this args) >> rec (TProg (user n this args))
  | FSettle d k =>
      settleWith d k (match this with
                      | VDeferred d' => if Nat.eqb d d' then VUndef else this
                      | _ => this
                      end) args >> ret this
  | FThen tid depth d hd special =>
      let t := mkTimer tid depth d hd special this args in
      if Nat.eqb depth 0
      then update (λ h, set_timers (timers h ++ [t]) h)
      else rec (TProcess t) >> ret VUndef
  | FPipe newd k fn =>
      bindC (match fn with Some f => rec (TCall (EFn f) this args) | None => ret (VBool false) end)
        (λ returned,
           match returned with
           | VPromise d | VDeferred d =>
               add (LDef d KNotify false) [EFn (FSettle newd KNotify)] >>
               add (LDef d KResolve false) [EFn (FSettle newd KResolve)] >>
               add (LDef d KReject false) [EFn (FSettle newd KReject)] >> ret VUndef
           | _ => settleWith newd k this (match fn with Some _ => [returned] | None => args end)
                    >> ret VUndef
           end)
  | FWhen w i => withH (λ h,
      let x := whens h w in
      let value := match args with _ :: _ :: _ => VArray args | _ => head_val args end in
      let x' := mkWhen (remaining x - 1) (js_set (resolveContexts x) i this)
                  (js_set (resolveValues x) i value) (master x) in
      update (set_when w x') >>
      if Z.eqb (remaining x') 0
      then settleWith (master x) KResolve (VArray (resolveContexts x')) (resolveValues x') >> ret VUndef
      else ret VUndef)
  end.

Definition call_entry (e : entry) (this : val) (args : list val) : C :=
  match e with
  | EFn f => call_fn f this args
  | ESetState d s => update (set_state d s)
  | EDisable l => update (upd_list l cb_disable) >> ret this
  | ELock l => update (upd_list l cb_lock) >> ret this
  | EFire l => fireWith l this args >> ret this
  end.

(** [pipe]: for every tuple a listener of the old deferred that forwards to the
    new one. *)
Definition pipe_ (d : nat) (fnDone fnFail fnProgress : option fn) : C := withH (λ h,
  let newDefer := next h in
  update (λ _, new_deferred h) >>
  add (LDef d KNotify false) [EFn (FPipe newDefer KNotify fnProgress)] >>
  add (LDef d KResolve false) [EFn (FPipe newDefer KResolve fnDone)] >>
  add (LDef d KReject false) [EFn (FPipe newDefer KReject fnFail)] >>
  ret (VPromise newDefer)).

(** [adoptValue] *)
Definition adoptValue (value : val) (resolve reject : fn) (noValue : bool) : C :=
  catchC
    (match value with
     | VPromise d | VDeferred d =>
         add (LDef d KResolve false) [EFn resolve] >> add (LDef d KReject false) [EFn reject] >> ret VUndef
     | VThenable n => rec (TProg (thenable n resolve reject None))
     | _ => rec (TCall (EFn resolve) VUndef (if noValue then [] else [value]))
     end)
    (λ e, rec (TCall (EFn reject) VUndef [e])).

Fixpoint adopt_down (w m i : nat) : C :=
  match i with
  | 0 => ret VUndef
  | S i' => withH (λ h,
      adoptValue (default VUndef (resolveValues (whens h w) !! i')) (FWhen w i') (FSettle m KReject) false
      >> adopt_down w m i')
  end.

Definition has_then (v : val) : bool :=
  match v with VPromise _ | VDeferred _ | VThenable _ => true | _ => false end.

(** [jQuery.when] *)
Definition when_ (args : list val) : C := withH (λ h,
  let m := next h in
  let h1 := new_deferred h in
  let w := next h1 in
  let n := length args in
  update (λ _, set_next (S w) (set_when w (mkWhen (Z.of_nat n) (replicate n VUndef) args m) h1)) >>
  (if Nat.leb n 1 then
     add (LDef m KResolve false) [EFn (FWhen w n)] >>
     adoptValue (head_val args) (FSettle m KResolve) (FSettle m KReject) (Nat.eqb n 0)
   else ret VUndef) >>
  withH (λ h2,
    if Nat.leb n 1 && (String.eqb (dstate h2 m) "pending"
                       || has_then (default VUndef (resolveValues (whens h2 w) !! n)))
    then then_ m None None None
    else adopt_down w m n >> ret (VPromise m))).

(** Programs. *)
Definition step_prog (p : prog) : C :=
  match p with
  | PRet v => ret v
  | PThrow v => throw v
  | PNew k => withH (λ h, update new_deferred >> rec (TProg (k (VDeferred (next h)))))
  | PSettle d kd ctx args k => settleWith d kd ctx args >> rec (TProg k)
  | PListen d kd fs k =>
      add (LDef d kd false) (map EFn (concat (map flatten fs))) >> rec (TProg k)
  | PAlways d fs k =>
      add (LDef d KResolve false) (map EFn (concat (map flatten fs))) >>
      add (LDef d KReject false) (map EFn (concat (map flatten fs))) >> rec (TProg k)
  | PThen d f r pr k => bindC (then_ d f r pr) (λ v, rec (TProg (k v)))
  | PPipe d f r pr k => bindC (pipe_ d f r pr) (λ v, rec (TProg (k v)))
  | PState d k => withH (λ h, rec (TProg (k (dstate h d))))
  | PWhen args k => bindC (when_ args) (λ v, rec (TProg (k v)))
  | PCall f this args k => bindC (rec (TCall (EFn f) this args)) (λ v, rec (TProg (k v)))
  | PCallbacks o k => withH (λ h,
      update (λ h, set_next (S (next h)) (upd_list (LFree (next h)) (λ _, new_CB o) h)) >>
      rec (TProg (k (next h))))
  | PAdd n fs k => add (LFree n) (map EFn (concat (map flatten fs))) >> rec (TProg k)
  | PRemove n fs k =>
      update (upd_list (LFree n) (λ c, fold_left (λ c f, cb_remove f c) fs c)) >> rec (TProg k)
  | PEmpty n k => update (upd_list (LFree n) cb_empty) >> rec (TProg k)
  | PDisable n k => update (upd_list (LFree n) cb_disable) >> rec (TProg k)
  | PLock n k => update (upd_list (LFree n) cb_lock) >> rec (TProg k)
  | PFireWith n ctx args k => fireWith (LFree n) ctx args >> rec (TProg k)
  end.

Definition step (t : task) : C :=
  match t with
  | TCall e this args => call_entry e this args
  | TOuter l => step_outer l
  | TInner l => step_inner l
  | TProcess t => process t
  | TProg p => step_prog p
  end.
End Step.

Fixpoint run_task (user : nat → val → list val → prog) (thenable : nat → fn → fn → option fn → prog)
    (fuel : nat) (t : task) : C :=
  match fuel with
  | 0 => λ _, None
  | S fuel' => step user thenable (run_task user thenable fuel') t
  end.

(** The event loop: run the oldest pending timer. *)
Definition run_timer user thenable fuel (h : Heap) : option (res * Heap) :=
  match timers h with
  | [] => Some (RVal VUndef, h)
  | t :: ts => run_task user thenable fuel (TProcess t) (set_timers ts h)
  end.

Definition empty_heap : Heap :=
  mkHeap (λ _, new_CB (mkFlags false false false false)) (λ _, ""%string) 0 (λ _, 0)
    (λ _, mkWhen 0 [] [] 0) [] [].
