(* ===== verification/DeferredFacts.v ===== *)
(** * Properties of deferred objects

    The central invariant of jquery-3.5.1.js lines 3690-3984: a deferred settles
    at most once and never changes its state again, for arbitrary user functions
    that call back into the library while lists are firing, throw, or never
    return; and what settling does to the lists of the deferred. *)
From Stdlib Require Import ZArith Lia Ascii String FunctionalExtensionality.
From stdpp Require Import base gmap strings list relations.
From S2P Require Import Prelude.
From S2P Require Import Deferred.

Lemma upd_eq {K V} `{EqDecision K} (k : K) (v : V) f : upd k v f k = v.
Proof. unfold upd. by rewrite decide_True. Qed.
Lemma upd_ne {K V} `{EqDecision K} (k j : K) (v : V) f : j ≠ k → upd k v f j = f j.
Proof. intros. unfold upd. by rewrite decide_False. Qed.

(** The entries that can do nothing to the state of a deferred by themselves. *)
Definition harmless (e : entry) : Prop :=
  match e with EFn _ => True | EFire (LDef _ _ true) => True | _ => False end.
(** The lists of [then] hold only the closures made by [then]. *)
Definition then_entry (e : entry) : Prop :=
  match e with EFn (FThen _ 0 _ _ _) => True | _ => False end.
Definition harmless_at (l : lid) (e : entry) : Prop :=
  match l with LDef _ _ true => then_entry e | _ => harmless e end.
Definition harmless_list (l : lid) (c : CB) : Prop := Forall (harmless_at l) (cb_list c).
Lemma harmless_at_harmless l e : harmless_at l e → harmless e.
Proof. destruct l as [d k []|], e as [[]| | | |]; simpl; tauto. Qed.

(** A listener list of a deferred that is not settled. *)
Definition pending_list (d : nat) (k : kind) (c : CB) : Prop :=
  options c = def_flags k ∧ firing c = false ∧ memory c = None ∧ locked c = false ∧
  queue c = [] ∧ firingIndex c = (-1)%Z ∧
  ∃ us, list_ c = Some (internals d k ++ map EFn us).

(** The list of a settled deferred for the opposite outcome. *)
Definition dead_list (c : CB) : Prop := list_ c = None ∧ locked c = true ∧ queue c = [].

(** The list for the outcome itself: firing past its private entries, or
    holding user functions only. *)
Definition private_list (d : nat) (k : kind) (c : CB) : Prop :=
  firing c = true ∧ (4 <= firingIndex c)%Z ∧ queue c = [] ∧
  ∃ us, list_ c = Some (internals d k ++ map EFn us).
Definition user_list (c : CB) : Prop := ∃ us, list_ c = None ∨ list_ c = Some (map EFn us).
Definition live_list (d : nat) (k : kind) (c : CB) : Prop :=
  locked c = true ∧ options c = def_flags k ∧ (private_list d k c ∨ user_list c).

Definition Pending (d : nat) (h : Heap) : Prop :=
  dstate h d = "pending"%string ∧
  pending_list d KResolve (lists h (LDef d KResolve false)) ∧
  pending_list d KReject (lists h (LDef d KReject false)).
Definition Settled (d : nat) (k : kind) (h : Heap) : Prop :=
  k ≠ KNotify ∧ Some (dstate h d) = stateString k ∧
  live_list d k (lists h (LDef d k false)) ∧ dead_list (lists h (LDef d (other k) false)).

(** The lists that hold the private entries of an existing deferred. *)
Definition outcome_list (h : Heap) (l : lid) : Prop :=
  match l with LDef d k false => k ≠ KNotify ∧ dstate h d ≠ ""%string | _ => False end.

Record wf (h : Heap) : Prop := {
  wf_state d : dstate h d ≠ ""%string → Pending d h ∨ ∃ k, Settled d k h;
  wf_fresh d : next h <= d → dstate h d = ""%string;
  wf_lists l : ¬ outcome_list h l → harmless_list l (lists h l)
}.

(** [h'] may follow [h]: deferreds stay, and settled ones stay as they are. *)
Record after (h h' : Heap) : Prop := {
  after_exists d : dstate h d ≠ ""%string → dstate h' d ≠ ""%string;
  after_settled d k : Settled d k h → Settled d k h'
}.

Lemma after_refl h : after h h.
Proof. split; auto. Qed.
Lemma after_trans h1 h2 h3 : after h1 h2 → after h2 h3 → after h1 h3.
Proof. intros [? ?] [? ?]. split; eauto. Qed.

Lemma other_other k : other (other k) = k.
Proof. by destruct k. Qed.
Lemma pending_exists d h : Pending d h → dstate h d ≠ ""%string.
Proof. intros (-> & _). done. Qed.
Lemma settled_exists d k h : Settled d k h → dstate h d ≠ ""%string.
Proof. intros (? & H & _) E. rewrite E in H. by destruct k. Qed.
Lemma settled_not_pending d k h : Settled d k h → Pending d h → False.
Proof. intros (? & H & _) (H' & _). rewrite H' in H. by destruct k. Qed.
Lemma settled_inj d k k' h : Settled d k h → Settled d k' h → k = k'.
Proof. intros (Hn & H & _) (Hn' & H' & _). rewrite H in H'. by destruct k, k'. Qed.

Lemma harmless_user us : Forall harmless (map EFn us).
Proof. induction us; constructor; simpl; auto. Qed.
Lemma user_list_harmless c : user_list c → Forall harmless (cb_list c).
Proof. unfold cb_list. intros (us & [->| ->]); simpl; auto using harmless_user. Qed.

(** *** Replacing one list *)
(** What the list [l] of [h] may be replaced by. *)
Definition good (h : Heap) (l : lid) (c' : CB) : Prop :=
  (¬ outcome_list h l → harmless_list l c') ∧
  ∀ d k, l = LDef d k false → k ≠ KNotify →
    (Pending d h → pending_list d k c') ∧ (Settled d k h → live_list d k c') ∧
    (Settled d (other k) h → dead_list c').

Lemma pending_upd l f h d :
  good h l (f (lists h l)) → Pending d h → Pending d (upd_list l f h).
Proof.
  intros [_ Hg] HP. pose proof HP as (Hs & H1 & H2).
  assert (∀ k, k ≠ KNotify → pending_list d k (lists h (LDef d k false)) →
    pending_list d k (lists (upd_list l f h) (LDef d k false))) as Hk.
  { intros k Hk HPk. simpl.
    destruct (decide (LDef d k false = l)) as [Hl|Hl]; [|by rewrite upd_ne by congruence].
    rewrite <- Hl in *. rewrite upd_eq. destruct (Hg d k eq_refl Hk) as (G & _). auto. }
  split; [done|]. split; apply Hk; done.
Qed.

Lemma settled_upd l f h d k :
  good h l (f (lists h l)) → Settled d k h → Settled d k (upd_list l f h).
Proof.
  intros [_ Hg] HP. pose proof HP as (Hn & Hs & H1 & H2). split; [done|]. split; [done|]. simpl.
  split.
  - destruct (decide (LDef d k false = l)) as [Hl|Hl]; [|by rewrite upd_ne by congruence].
    rewrite <- Hl in *. rewrite upd_eq. destruct (Hg d k eq_refl Hn) as (_ & G & _). auto.
  - destruct (decide (LDef d (other k) false = l)) as [Hl|Hl]; [|by rewrite upd_ne by congruence].
    rewrite <- Hl in *. rewrite upd_eq.
    destruct (Hg d (other k) eq_refl) as (_ & _ & G); [by destruct k|].
    apply G. by rewrite other_other.
Qed.

Lemma wf_upd l f h :
  wf h → good h l (f (lists h l)) → wf (upd_list l f h) ∧ after h (upd_list l f h).
Proof.
  intros [H1 H2 H3] Hg. split; [split|split]; simpl; eauto using settled_upd.
  - intros d Hd. destruct (H1 d Hd) as [HP|(k & HS)]; [left|right; exists k];
      eauto using pending_upd, settled_upd.
  - intros l' Hl'. destruct (decide (l' = l)) as [->|Hne].
    + rewrite upd_eq. by apply Hg.
    + rewrite upd_ne by done. by apply H3.
Qed.

(** Updates that do not touch lists, states or the counter. *)
Lemma wf_same h h' :
  lists h' = lists h → dstate h' = dstate h → next h <= next h' → wf h → wf h' ∧ after h h'.
Proof.
  intros E1 E2 E3 [H1 H2 H3]. split; [split|split]; unfold Pending, Settled, outcome_list in *;
    rewrite ?E1, ?E2; auto.
  intros d Hd. apply H2. lia.
Qed.

Lemma upd_upd {K V} `{EqDecision K} (k : K) (v w : V) f : upd k v (upd k w f) = upd k v f.
Proof. apply functional_extensionality. intros j. unfold upd. by destruct (decide (j = k)). Qed.
Lemma upd_list_twice l f g h :
  upd_list l f (upd_list l g h) = upd_list l (λ c, f (g c)) h.
Proof. unfold upd_list. simpl. by rewrite upd_eq, upd_upd. Qed.

(** A list that is not an outcome list of a deferred, or the one of its outcome. *)
Definition hot (h : Heap) (l : lid) : Prop :=
  ∀ d k, l = LDef d k false → k ≠ KNotify → Settled d k h.

Lemma hot_after h h' l : hot h l → after h h' → hot h' l.
Proof. intros H [_ Ha] d k -> Hk. auto. Qed.

Lemma good_hot h l c' :
  wf h → hot h l → (harmless_list l (lists h l) → harmless_list l c') →
  (∀ d k, live_list d k (lists h l) → live_list d k c') → good h l c'.
Proof.
  intros Hw Hh Hc Hl. split.
  - intros Hno. by apply Hc, Hw.
  - intros d k -> Hk. pose proof (Hh d k eq_refl Hk) as HS. split; [|split].
    + intros HP. by destruct (settled_not_pending _ _ _ HS HP).
    + intros _. apply Hl, HS.
    + intros HS'. pose proof (settled_inj _ _ _ _ HS HS'). by destruct k.
Qed.

Lemma good_fire_start h l : wf h → hot h l → good h l (cb_fire_start (lists h l)).
Proof.
  intros Hw Hh. apply good_hot; [done|done|done|].
  intros d k (Hlk & Ho & Hl). unfold live_list. simpl. rewrite Hlk. split; [done|]. split; [done|].
  destruct Hl as [(Hf & Hr)|Hl]; [left|by right]. by split.
Qed.
Lemma good_index h l i :
  wf h → hot h l → (firingIndex (lists h l) <= i)%Z → good h l (cb_index i (lists h l)).
Proof.
  intros Hw Hh Hi. apply good_hot; [done|done|done|].
  intros d k (Hlk & Ho & Hl). split; [done|]. split; [done|].
  destruct Hl as [(Hf & Hi' & Hr)|Hl]; [left|by right]. split; [done|]. split; [simpl; lia|done].
Qed.
Lemma live_user d k c c' :
  locked c' = locked c → options c' = options c → user_list c' → live_list d k c → live_list d k c'.
Proof. intros H1 H2 H3 (H4 & H5 & _). unfold live_list. rewrite H1, H2. auto. Qed.
Lemma fire_end_user c : locked c = true → user_list (cb_fire_end c).
Proof.
  intros H. exists []. unfold cb_fire_end. simpl. rewrite H. destruct (memoryFlag (options c)), (memory c); simpl; auto.
Qed.
Lemma harmless_fire_end l c : harmless_list l c → harmless_list l (cb_fire_end c).
Proof.
  unfold harmless_list, cb_fire_end, cb_list. simpl.
  destruct (locked c), (memoryFlag (options c)), (memory c); simpl; auto.
Qed.
Lemma good_fire_end h l f :
  wf h → hot h l → (∀ c, locked (f c) = locked c ∧ options (f c) = options c ∧ list_ (f c) = list_ c) →
  good h l (cb_fire_end (f (lists h l))).
Proof.
  intros Hw Hh Hf. destruct (Hf (lists h l)) as (E1 & E2 & E3). apply good_hot; [done|done| |].
  - intros Hl. apply harmless_fire_end. unfold harmless_list, cb_list. by rewrite E3.
  - intros d k HL. apply (live_user d k (lists h l)); simpl; [done..| |done].
    apply fire_end_user. rewrite E1. apply HL.
Qed.
Lemma good_shift h l m m' q :
  wf h → hot h l → queue (lists h l) = m :: q → good h l (cb_shift (lists h l) m' q).
Proof.
  intros Hw Hh Hq. apply good_hot; [done|done|done|].
  intros d k (Hlk & Ho & [(_ & _ & Hq' & _)|Hl]); [congruence|].
  split; [done|]. split; [done|]. by right.
Qed.

(** A list that no deferred uses for its outcome. *)
Definition inner_lid (l : lid) : Prop := ∀ d k, l = LDef d k false → k = KNotify.
Lemma inner_hot h l : inner_lid l → hot h l.
Proof. intros H d k -> Hk. by destruct (Hk (H d k eq_refl)). Qed.
Lemma inner_not_outcome h l : inner_lid l → ¬ outcome_list h l.
Proof. intros H Ho. destruct l as [d k []|]; simpl in *; try done. by destruct Ho, (H d k eq_refl). Qed.
Lemma good_inner h l c' : inner_lid l → harmless_list l c' → good h l c'.
Proof. intros H Hc. split; [done|]. intros d k -> Hk. by destruct (Hk (H d k eq_refl)). Qed.

Lemma harmless_lock l c : harmless_list l c → harmless_list l (cb_lock c).
Proof. unfold harmless_list, cb_lock, cb_list. intros. by destruct (_ && _); simpl. Qed.
Lemma harmless_remove x f c : harmless_list x c → harmless_list x (cb_remove f c).
Proof.
  unfold harmless_list, cb_remove, cb_list. destruct (list_ c) as [l|] eqn:E; [|by rewrite E].
  intros Hl.
  assert (∀ i fi, Forall (harmless_at x) (fst (remove_from f l i fi))) as H.
  { clear E. induction l as [|e l IH]; intros j fj; simpl; [done|].
    inversion Hl; subst. destruct (entry_is f e); [by apply IH|].
    specialize (IH ltac:(done) (j + 1)%Z fj). destruct (remove_from f l (j + 1) fj). by constructor. }
  specialize (H 0%Z (firingIndex c)). by destruct (remove_from f l 0 (firingIndex c)).
Qed.

(** *** [add] *)
(** Adding user functions appends some of them and changes nothing else. *)
Lemma fold_add_spec us c l :
  list_ c = Some l →
  ∃ us', fold_left add_one (map EFn us) c =
    mkCB (options c) (firing c) (memory c) (fired c) (locked c) (Some (l ++ map EFn us'))
      (queue c) (firingIndex c) ∧ us' ⊆ us ∧ (unique (options c) = false → us' = us).
Proof.
  revert c l. induction us as [|u us IH]; intros c l Hl; simpl.
  { exists []. rewrite app_nil_r, <- Hl. split; [by destruct c|]. split; [set_solver|done]. }
  destruct (negb (unique (options c)) || negb (cb_has u c)) eqn:Hu.
  - unfold cb_push at 1, cb_list at 1. rewrite Hl. simpl.
    edestruct IH as (us' & -> & Hs & Hus); [reflexivity|]. exists (u :: us'). simpl.
    rewrite <- app_assoc. split; [done|]. split; [set_solver|]. intros H. f_equal. auto.
  - destruct (IH c l Hl) as (us' & -> & Hs & Hus). exists us'. split; [done|]. split; [set_solver|].
    intros H. rewrite H in Hu. done.
Qed.

(** [cb_add] by cases. *)
Lemma cb_add_spec us c c' b :
  cb_add (map EFn us) c = (c', b) →
  (list_ c = None ∧ c' = c ∧ b = false) ∨
  ∃ l us' q i, list_ c = Some l ∧ us' ⊆ us ∧
    c' = mkCB (options c) (firing c) (memory c) (fired c) (locked c) (Some (l ++ map EFn us')) q i ∧
    b = is_some (memory c) && negb (firing c) ∧
    (b = false → q = queue c ∧ i = firingIndex c) ∧
    (b = true → ∃ m, memory c = Some m ∧ q = queue c ++ [m] ∧ i = (Z.of_nat (length l) - 1)%Z).
Proof.
  unfold cb_add. destruct (list_ c) as [l|] eqn:Hl; [|intros [= <- <-]; auto].
  intros H. right. exists l.
  match type of H with (fold_left add_one _ ?c1, _) = _ =>
    destruct (fold_add_spec us c1 l) as (us' & E & Hus & _); [by destruct (memory c), (firing c)|];
    rewrite E in H end.
  injection H as <- <-. exists us'.
  destruct (memory c) as [m|] eqn:Hm, (firing c) eqn:Hf; simpl in *; rewrite ?Hm, ?Hf;
    eexists _, _;
    repeat (split; [done|]); try done.
  intros _. exists m. unfold cb_len, cb_list. by rewrite Hl.
Qed.

Lemma good_add us c' b h l :
  wf h → Forall (λ u, harmless_at l (EFn u)) us → cb_add (map EFn us) (lists h l) = (c', b) → good h l c'.
Proof.
  intros Hw Hus H. apply cb_add_spec in H.
  split.
  - intros Hno. apply Hw in Hno. unfold harmless_list, cb_list in *.
    destruct H as [(_ & -> & _)|(l0 & us' & q & i & Hl & Hsub & -> & _)]; [done|]. simpl.
    rewrite Hl in Hno. apply Forall_app_2; [done|]. apply Forall_map.
    eapply Forall_forall. intros u Hu. rewrite Forall_forall in Hus. auto.
  - intros d k -> Hk. split; [|split].
    + intros (Hst & HP1 & HP2).
      assert (pending_list d k (lists h (LDef d k false))) as HP by (destruct k; done).
      destruct HP as (Ho & Hf & Hm & Hlk & Hq & Hi & us0 & Hls).
      destruct H as [(H & _)|(l0 & us' & q & i & Hl & _ & -> & -> & Hb & _)]; [congruence|].
      rewrite Hm in Hb. destruct (Hb eq_refl) as [-> ->].
      rewrite Hls in Hl. injection Hl as <-.
      unfold pending_list. simpl. rewrite <- app_assoc, <- map_app.
      repeat (split; [done|]). eauto.
    + intros (_ & _ & (Hlk & Ho & Hlive) & _).
      destruct H as [(H & -> & _)|(l0 & us' & q & i & Hl & _ & -> & -> & Hb & _)]; [done|].
      split; [done|]. split; [done|].
      destruct Hlive as [(Hf & Hi & Hq & us0 & Hls)|(us0 & [Hls|Hls])]; [left| |right].
      * rewrite Hf, andb_false_r in Hb. destruct (Hb eq_refl) as [-> ->].
        rewrite Hls in Hl. injection Hl as <-. split; [done|]. simpl. split; [done|]. split; [done|].
        rewrite <- app_assoc, <- map_app. eauto.
      * congruence.
      * rewrite Hls in Hl. injection Hl as <-. exists (us0 ++ us'). simpl. rewrite map_app. auto.
    + intros (_ & _ & _ & Hd). rewrite other_other in Hd. destruct Hd as (Hn & Hlk & Hq).
      destruct H as [(_ & -> & _)|(l0 & us' & q & i & Hl & _)]; [done|congruence].
Qed.

(** A refire of an outcome list can only happen when the deferred is settled that way. *)
Lemma refire_hot us c' h l :
  wf h → exists_list h l = true → cb_add (map EFn us) (lists h l) = (c', true) → hot h l.
Proof.
  intros Hw He H d k -> Hk. apply cb_add_spec in H.
  destruct H as [(_ & _ & H)|(l0 & us' & q & i & Hl & _ & _ & Hb & _)]; [done|].
  simpl in He. destruct (wf_state h Hw d) as [HP|(k' & HS)].
  - intros E. by rewrite E in He.
  - destruct HP as (_ & HP1 & HP2).
    assert (memory (lists h (LDef d k false)) = None) as E by (destruct k; by try apply HP1; try apply HP2).
    by rewrite E in Hb.
  - destruct (decide (k = k')) as [->|Hne]; [done|].
    destruct HS as (Hk' & _ & _ & (Hn & _)).
    replace (other k') with k in Hn by (destruct k, k'; done). congruence.
Qed.

(** *** Settling: the private entries of an outcome list *)
Ltac lst := simpl; repeat first [rewrite upd_eq | rewrite upd_ne by congruence]; simpl.

Section Run.
Context (user : nat → val → list val → prog) (thenable : nat → fn → fn → option fn → prog).
Abbreviation run := (run_task user thenable).

(** One turn of the inner loop over an entry that returns [undefined] or [this]
    after the update [g]. *)
Lemma inner_step l h e g (i : nat) n x :
  cb_list (lists h l) !! i = Some e → firingIndex (lists h l) = (Z.of_nat i - 1)%Z →
  (∀ n this args h r, run n (TCall e this args) h = Some r → ∃ v, r = (RVal v, g h)) →
  stopOnFalse (options (lists (g (upd_list l (cb_index (Z.of_nat i)) h)) l)) = false →
  run n (TInner l) h = Some x →
  ∃ n', n' < n ∧ run n' (TInner l) (g (upd_list l (cb_index (Z.of_nat i)) h)) = Some x.
Proof.
  intros He Hi Hg Hs H. destruct n as [|n]; [done|]. exists n. split; [lia|].
  simpl in H. unfold step_inner, withH in H. rewrite Hi in H.
  replace (Z.of_nat i - 1 + 1)%Z with (Z.of_nat i) in H by lia.
  rewrite Nat2Z.id, He in H.
  assert (i < length (cb_list (lists h l))) as Hlt by (by apply lookup_lt_is_Some; eauto).
  unfold cb_len in H. rewrite (proj2 (Z.ltb_lt _ _)) in H by lia.
  destruct (default (VUndef, []) (memory (lists h l))) as [ctx args].
  unfold seqC, bindC, update in H. cbv beta iota in H.
  match type of H with context [run n ?t ?hh] => destruct (run n t hh) as [r|] eqn:Hr end; [|done].
  apply Hg in Hr as (v & ->). rewrite Hs in H. by destruct v as [|[]| | | | | | | |].
Qed.

Definition const_entry (e : entry) (g : Heap → Heap) : Prop :=
  ∀ n this args h r, run n (TCall e this args) h = Some r → ∃ v, r = (RVal v, g h).
Lemma const_set_state d s : const_entry (ESetState d s) (set_state d s).
Proof. intros [|n] this args h r H; [done|]. injection H as <-. eauto. Qed.
Lemma const_disable l : const_entry (EDisable l) (upd_list l cb_disable).
Proof. intros [|n] this args h r H; [done|]. injection H as <-. eauto. Qed.
Lemma const_lock l : const_entry (ELock l) (upd_list l cb_lock).
Proof. intros [|n] this args h r H; [done|]. injection H as <-. eauto. Qed.

(** The heap when the private entries of [d]'s list for [k] have run. *)
Definition settling (d : nat) (k : kind) (m : val * list val) (h : Heap) : Heap :=
  let l := LDef d k false in
  let at_ (i : Z) := upd_list l (cb_index i) in
  let h1 := upd_list l (λ c, cb_shift (cb_fire_start (cb_enqueue m c)) m []) h in
  let h2 := set_state d (default "" (stateString k)) (at_ 0%Z h1) in
  let h3 := upd_list (LDef d (other k) false) cb_disable (at_ 1%Z h2) in
  let h4 := upd_list (LDef d (other k) true) cb_disable (at_ 2%Z h3) in
  let h5 := upd_list (LDef d KNotify false) cb_lock (at_ 3%Z h4) in
  upd_list (LDef d KNotify true) cb_lock (at_ 4%Z h5).

Lemma run_settling d k m h n x :
  k ≠ KNotify → pending_list d k (lists h (LDef d k false)) →
  run n (TOuter (LDef d k false)) (upd_list (LDef d k false) (λ c, cb_fire_start (cb_enqueue m c)) h) = Some x →
  ∃ n', n' < n ∧ run n' (TInner (LDef d k false)) (settling d k m h) = Some x.
Proof.
  intros Hk (Ho & Hf & Hm & Hlk & Hq & Hi & us & Hl) H. destruct n as [|n]; [done|].
  simpl in H. unfold step_outer, withH in H. simpl in H. rewrite upd_eq in H. simpl in H.
  rewrite Hq in H. simpl in H. unfold seqC, bindC, update in H.
  rewrite upd_list_twice in H.
  match type of H with run _ _ ?hh = _ => set (h1 := hh) in H end.
  unfold settling. fold h1.
  destruct k; [done| |];
  (eapply (inner_step _ _ _ _ 0) in H as (n1 & L1 & H); [|lst; unfold cb_list; lst; by rewrite Hl|by lst; rewrite Hi|apply const_set_state|by lst; rewrite Ho];
   eapply (inner_step _ _ _ _ 1) in H as (n2 & L2 & H); [|lst; unfold cb_list; lst; by rewrite Hl|by lst|apply const_disable|by lst; rewrite Ho];
   eapply (inner_step _ _ _ _ 2) in H as (n3 & L3 & H); [|lst; unfold cb_list; lst; by rewrite Hl|by lst|apply const_disable|by lst; rewrite Ho];
   eapply (inner_step _ _ _ _ 3) in H as (n4 & L4 & H); [|lst; unfold cb_list; lst; by rewrite Hl|by lst|apply const_lock|by lst; rewrite Ho];
   eapply (inner_step _ _ _ _ 4) in H as (n5 & L5 & H); [|lst; unfold cb_list; lst; by rewrite Hl|by lst|apply const_lock|by lst; rewrite Ho];
   exists n5; split; [lia|exact H]).
Qed.
End Run.

Lemma settling_lists d k m h :
  k ≠ KNotify →
  let h' := settling d k m h in
  lists h' (LDef d k false) =
    cb_index 4 (cb_shift (cb_fire_start (cb_enqueue m (lists h (LDef d k false)))) m []) ∧
  lists h' (LDef d (other k) false) = cb_disable (lists h (LDef d (other k) false)) ∧
  lists h' (LDef d (other k) true) = cb_disable (lists h (LDef d (other k) true)) ∧
  lists h' (LDef d KNotify false) = cb_lock (lists h (LDef d KNotify false)) ∧
  lists h' (LDef d KNotify true) = cb_lock (lists h (LDef d KNotify true)) ∧
  lists h' (LDef d k true) = lists h (LDef d k true) ∧
  (∀ d' k' b, d' ≠ d → lists h' (LDef d' k' b) = lists h (LDef d' k' b)) ∧
  (∀ n, lists h' (LFree n) = lists h (LFree n)).
Proof.
  intros Hk. destruct k; [done| |]; cbv zeta; unfold settling;
    repeat split; intros; lst; reflexivity.
Qed.
#[global] Arguments settling : simpl never.
Lemma settling_state d k m h :
  dstate (settling d k m h) = upd d (default ""%string (stateString k)) (dstate h)
  ∧ next (settling d k m h) = next h.
Proof. done. Qed.

Lemma harmless_disable l c : harmless_list l (cb_disable c).
Proof. constructor. Qed.

Lemma settling_pending d k m h d' :
  k ≠ KNotify → d' ≠ d → Pending d' h → Pending d' (settling d k m h).
Proof.
  intros Hk Hd (HS & H1 & H2). destruct (settling_lists d k m h Hk) as (_ & _ & _ & _ & _ & _ & E & _).
  unfold Pending. rewrite !E by done. destruct (settling_state d k m h) as [-> _].
  by rewrite upd_ne.
Qed.
Lemma settling_settled d k m h d' k' :
  k ≠ KNotify → d' ≠ d → Settled d' k' h → Settled d' k' (settling d k m h).
Proof.
  intros Hk Hd (HN & HS & H1 & H2). destruct (settling_lists d k m h Hk) as (_ & _ & _ & _ & _ & _ & E & _).
  unfold Settled. rewrite !E by done. destruct (settling_state d k m h) as [-> _].
  by rewrite upd_ne.
Qed.
Lemma settling_self d k m h :
  k ≠ KNotify → Pending d h → Settled d k (settling d k m h).
Proof.
  intros Hk (HS & H1 & H2). split; [done|].
  destruct (settling_state d k m h) as [-> _]. rewrite upd_eq. split; [by destruct k|].
  destruct (settling_lists d k m h Hk) as (-> & -> & _).
  split; [|done].
  assert (pending_list d k (lists h (LDef d k false))) as (Ho & Hf & Hm & Hlk & Hq & Hi & Hl)
    by (destruct k; done).
  split; [|split; [done|left]]; [simpl; rewrite Ho; destruct k; simpl; by rewrite ?orb_true_r|].
  split; [done|]. split; [simpl; lia|]. done.
Qed.

Lemma settling_wf d k m h :
  wf h → k ≠ KNotify → Pending d h → wf (settling d k m h) ∧ after h (settling d k m h).
Proof.
  intros Hw Hk HP. pose proof (settling_self d k m h Hk HP) as HS'.
  destruct (settling_state d k m h) as [Es En].
  assert (∀ d', dstate (settling d k m h) d' ≠ ""%string ↔ dstate h d' ≠ ""%string) as Hex.
  { intros d'. rewrite Es. destruct (decide (d' = d)) as [->|]; [|by rewrite upd_ne].
    rewrite upd_eq. pose proof (pending_exists d h HP). destruct k; done. }
  split; [split|split].
  - intros d' Hd'. apply Hex in Hd'. destruct (decide (d' = d)) as [->|Hne]; [eauto|].
    destruct (wf_state h Hw d' Hd') as [?|(k' & ?)]; [left|right; exists k'];
      auto using settling_pending, settling_settled.
  - intros d' Hd'. rewrite En in Hd'. apply (wf_fresh h Hw) in Hd' as E.
    destruct (decide (d' = d)) as [->|Hne]; [by destruct (pending_exists d h HP)|].
    by rewrite Es, upd_ne.
  - intros l Hl. assert (¬ outcome_list h l) as Hno.
    { intros Ho. apply Hl. destruct l as [d' k' []|]; try done. simpl in *. by rewrite Hex. }
    pose proof (wf_lists h Hw l Hno) as Hh.
    destruct (settling_lists d k m h Hk) as (_ & _ & E1 & E2 & E3 & E4 & E5 & E6).
    destruct l as [d' k' b|]; [|by rewrite E6].
    destruct (decide (d' = d)) as [->|]; [|by rewrite E5].
    pose proof (pending_exists d h HP).
    destruct b, k', k; try done; simpl in *;
      rewrite ?E1, ?E2, ?E3, ?E4; auto using harmless_lock, harmless_disable;
      (exfalso; apply Hl; split; [done|]; by apply Hex).
  - intros d'. apply Hex.
  - intros d' k' HS. destruct (decide (d' = d)) as [->|]; [|by apply settling_settled].
    by destruct (settled_not_pending d k' h).
Qed.

(** *** A new deferred *)
Lemma new_deferred_lists h :
  (∀ k, lists (new_deferred h) (LDef (next h) k false) =
    mkCB (def_flags k) false None false false (Some (internals (next h) k)) [] (-1)) ∧
  (∀ k, lists (new_deferred h) (LDef (next h) k true) = new_CB (def_flags k)) ∧
  (∀ d k b, d ≠ next h → lists (new_deferred h) (LDef d k b) = lists h (LDef d k b)) ∧
  (∀ n, lists (new_deferred h) (LFree n) = lists h (LFree n)).
Proof.
  repeat split; intros; try destruct k; unfold new_deferred, init_tuple; lst; reflexivity.
Qed.
Lemma new_deferred_pending h : Pending (next h) (new_deferred h).
Proof.
  split; [by simpl; rewrite upd_eq|]. destruct (new_deferred_lists h) as (E & _). rewrite !E.
  split; repeat (split; [done|]); exists []; done.
Qed.
Lemma new_deferred_wf h : wf h → wf (new_deferred h) ∧ after h (new_deferred h).
Proof.
  intros Hw. pose proof (wf_fresh h Hw (next h) (le_n _)) as Hf.
  destruct (new_deferred_lists h) as (E1 & E2 & E3 & E4).
  assert (∀ d, d ≠ next h → dstate (new_deferred h) d = dstate h d) as Es.
  { intros d Hd. simpl. by rewrite upd_ne. }
  assert (∀ d k, Settled d k h → Settled d k (new_deferred h)) as HS.
  { intros d k HS. assert (d ≠ next h) as Hd by (intros ->; by apply settled_exists in HS).
    unfold Settled. rewrite !E3, Es by done. done. }
  split; [split|split; [|done]].
  - intros d Hd. destruct (decide (d = next h)) as [->|Hne]; [left; apply new_deferred_pending|].
    rewrite Es in Hd by done. destruct (wf_state h Hw d Hd) as [HP|(k & HP)]; [left|eauto].
    unfold Pending. by rewrite !E3, Es.
  - intros d Hd. simpl in Hd. rewrite Es by lia. apply Hw. lia.
  - intros l Hl. destruct l as [d k b|n]; [|rewrite E4; by apply Hw].
    destruct (decide (d = next h)) as [->|Hne].
    + destruct b; [rewrite E2; constructor|]. rewrite E1. destruct k; [repeat constructor| |];
        (destruct Hl; split; [done|]; by simpl; rewrite upd_eq).
    + rewrite E3 by done. apply Hw. intros Ho. apply Hl. destruct b; [done|]. simpl in *.
      by rewrite upd_ne.
  - intros d Hd. destruct (decide (d = next h)) as [->|Hne]; [done|]. by rewrite Es.
Qed.

(** ** Every run keeps the invariant *)
(** A computation that keeps it from [h] on. *)
Definition keeps (m : C) (h : Heap) : Prop := ∀ r h', m h = Some (r, h') → wf h' ∧ after h h'.

Lemma keeps_ret v h : wf h → keeps (ret v) h.
Proof. intros Hw r h' [= <- <-]. auto using after_refl. Qed.
Lemma keeps_throw v h : wf h → keeps (throw v) h.
Proof. intros Hw r h' [= <- <-]. auto using after_refl. Qed.
Lemma keeps_bind m f h :
  keeps m h → (∀ v h', wf h' → after h h' → keeps (f v) h') → keeps (bindC m f) h.
Proof.
  intros Hm Hf r h' H. unfold bindC in H. destruct (m h) as [[[v|e] h1]|] eqn:H1; [| |done].
  - destruct (Hm _ _ H1) as [Hw Ha]. destruct (Hf v h1 Hw Ha r h' H) as [? ?].
    eauto using after_trans.
  - injection H as <- <-. eauto.
Qed.
Lemma keeps_catch m f h :
  keeps m h → (∀ v h', wf h' → after h h' → keeps (f v) h') → keeps (catchC m f) h.
Proof.
  intros Hm Hf r h' H. unfold catchC in H. destruct (m h) as [[[v|e] h1]|] eqn:H1; [| |done].
  - injection H as <- <-. eauto.
  - destruct (Hm _ _ H1) as [Hw Ha]. destruct (Hf e h1 Hw Ha r h' H) as [? ?].
    eauto using after_trans.
Qed.
Lemma keeps_withH f h : keeps (f h) h → keeps (withH f) h.
Proof. done. Qed.
Lemma keeps_update f h : wf (f h) ∧ after h (f h) → keeps (update f) h.
Proof. intros Hw r h' [= <- <-]. auto. Qed.
Lemma keeps_update_then f m h :
  wf (f h) ∧ after h (f h) → (wf (f h) → after h (f h) → keeps m (f h)) → keeps (update f >> m) h.
Proof.
  intros [Hw Ha] Hm r h' H. destruct (Hm Hw Ha r h' H). eauto using after_trans.
Qed.

Section Keeps.
Context (user : nat → val → list val → prog) (thenable : nat → fn → fn → option fn → prog).
Abbreviation run := (run_task user thenable).

(** The tasks that may be run in [h]. *)
Definition task_ok (h : Heap) (t : task) : Prop :=
  match t with
  | TCall e _ _ => harmless e
  | TOuter l | TInner l => hot h l
  | TProcess _ | TProg _ => True
  end.

Section Induction.
Context (n : nat).
Context (IH : ∀ m t h, m <= n → wf h → task_ok h t → keeps (run m t) h).

Lemma IHn t h : wf h → task_ok h t → keeps (run n t) h.
Proof. by apply IH. Qed.

Lemma keeps_fire l h : wf h → hot h l → keeps (fire (run n) l) h.
Proof.
  intros Hw Hh. apply keeps_update_then; [by apply wf_upd, good_fire_start|].
  intros Hw' Ha. apply IHn; [done|]. by eapply hot_after.
Qed.

Lemma keeps_add us l h :
  wf h → Forall (λ u, harmless_at l (EFn u)) us → keeps (add (run n) l (map EFn us)) h.
Proof.
  intros Hw Hus. apply keeps_withH. destruct (exists_list h l) eqn:He; [|by apply keeps_throw].
  simpl. destruct (cb_add (map EFn us) (lists h l)) as [c' b] eqn:Hc.
  apply keeps_update_then; [apply wf_upd; [done|]; by eapply good_add|].
  intros Hw' Ha. destruct b; [|by apply keeps_ret].
  apply keeps_fire; [done|]. apply (hot_after h); [by apply (refire_hot us c')|done].
Qed.

Lemma keeps_settle d k ctx args h :
  wf h → k ≠ KNotify → Pending d h →
  keeps (update (upd_list (LDef d k false) (cb_enqueue (ctx, args))) >>
         fire (run n) (LDef d k false)) h.
Proof.
  intros Hw Hk HP r h' H. unfold fire, seqC, bindC, update in H. cbv beta iota in H.
  rewrite upd_list_twice in H.
  apply (run_settling user thenable d k (ctx, args) h) in H as (n' & Hn & H); [|done|].
  2: { destruct HP as (_ & ? & ?). by destruct k. }
  destruct (settling_wf d k (ctx, args) h Hw Hk HP) as [Hw' Ha].
  eapply IH in H as [? ?]; [eauto using after_trans|lia|done|].
  intros d' k' [= <- <-] _. by apply settling_self.
Qed.

Lemma good_enqueue_inner l m h : wf h → inner_lid l → good h l (cb_enqueue m (lists h l)).
Proof. intros Hw Hl. apply good_inner; [done|]. by apply Hw, inner_not_outcome. Qed.

Lemma inner_dec l : (∃ d k, l = LDef d k false ∧ k ≠ KNotify) ∨ inner_lid l.
Proof.
  destruct l as [d k []|]; [by right| |by right].
  destruct (decide (k = KNotify)) as [->|]; [right; by intros ? ? [= <- <-]|left; eauto].
Qed.

Lemma keeps_fireWith l ctx args h : wf h → keeps (fireWith (run n) l ctx args) h.
Proof.
  intros Hw. apply keeps_withH. destruct (exists_list h l) eqn:He; [|by apply keeps_throw].
  simpl. destruct (locked (lists h l)) eqn:Hlk; [by apply keeps_ret|].
  destruct (inner_dec l) as [(d & k & -> & Hk)|Hl].
  - assert (Pending d h) as HP.
    { simpl in He. destruct (wf_state h Hw d) as [?|(k' & HS)]; [|done|].
      - intros E. by rewrite E in He.
      - destruct HS as (Hk' & _ & (Hl & _) & (_ & Hl' & _)).
        destruct (decide (k = k')) as [->|]; [congruence|].
        replace (other k') with k in Hl' by (destruct k, k'; done). congruence. }
    assert (firing (lists h (LDef d k false)) = false) as ->.
    { destruct HP as (_ & HP1 & HP2). by destruct k; [done|apply HP1|apply HP2]. }
    intros r h' H.
    assert (keeps (bindC (update (upd_list (LDef d k false) (cb_enqueue (ctx, args))) >>
         fire (run n) (LDef d k false)) (λ _, ret (VDeferred d))) h) as HK.
    { apply keeps_bind; [by apply keeps_settle|]. intros. by apply keeps_ret. }
    by apply (HK r h').
  - apply keeps_update_then; [by apply wf_upd, good_enqueue_inner|]. intros Hw' Ha.
    apply keeps_bind; [destruct (firing _)|intros; by apply keeps_ret]; [by apply keeps_ret|].
    apply keeps_fire; [done|by apply inner_hot].
Qed.

Lemma keeps_outer l h : wf h → hot h l → keeps (step_outer (run n) l) h.
Proof.
  intros Hw Hh. apply keeps_withH. destruct (queue (lists h l)) as [|m q] eqn:Hq.
  - apply keeps_update, wf_upd; [done|]. by apply (good_fire_end h l (λ c, c)).
  - apply keeps_update_then; [apply wf_upd; [done|]; by eapply good_shift|].
    intros Hw' Ha. apply IHn; [done|]. by eapply hot_after.
Qed.

(** The entry the inner loop runs next is harmless. *)
Lemma inner_entry h l e :
  wf h → hot h l → cb_list (lists h l) !! Z.to_nat (firingIndex (lists h l) + 1) = Some e →
  harmless e.
Proof.
  intros Hw Hh He. destruct (inner_dec l) as [(d & k & -> & Hk)|Hl].
  - destruct (Hh d k eq_refl Hk) as (_ & _ & (_ & _ & [(_ & Hi & _ & us & Hl)|Hl]) & _).
    + remember (Z.to_nat (firingIndex (lists h (LDef d k false)) + 1)) as i eqn:Ei.
      unfold cb_list in He. rewrite Hl in He. simpl in He.
      do 5 (destruct i as [|i]; [lia|]).
      destruct k; [done| |]; destruct i as [|i]; simpl in He; try (injection He as <-; done);
        (eapply Forall_lookup_1; [apply (harmless_user us)|exact He]).
    + eapply Forall_lookup_1; [apply (user_list_harmless _ Hl)|exact He].
  - eapply (harmless_at_harmless l), Forall_lookup_1;
      [apply (wf_lists h Hw l (inner_not_outcome h l Hl))|exact He].
Qed.

Lemma hot_stop h l :
  wf h → hot h l → stopOnFalse (options (lists h l)) = true → good h l (cb_stop (lists h l)).
Proof.
  intros Hw Hh Hs. destruct (inner_dec l) as [(d & k & -> & Hk)|Hl].
  - destruct (Hh d k eq_refl Hk) as (_ & _ & (_ & Ho & _) & _). rewrite Ho in Hs. by destruct k.
  - apply good_inner; [done|]. by apply Hw, inner_not_outcome.
Qed.

(** The turn from a finished inner loop to the outer loop. *)
Lemma keeps_inner_end l h :
  wf h → hot h l → keeps (update (upd_list l (cb_index (-1))) >> run n (TOuter l)) h.
Proof.
  intros Hw Hh. destruct (queue (lists h l)) as [|m q] eqn:Hq.
  - intros r h' H. unfold seqC, bindC, update in H. destruct n as [|n']; [done|].
    simpl in H. unfold step_outer, withH in H. simpl in H. rewrite upd_eq in H. simpl in H.
    rewrite Hq in H. injection H as <- <-. rewrite upd_list_twice.
    apply wf_upd; [done|]. by apply good_fire_end.
  - apply keeps_update_then.
    + apply wf_upd; [done|]. apply good_hot; [done..|].
      intros d k (Hlk & Ho & [(_ & _ & Hq' & _)|Hu]); [congruence|]. split; [done|]. split; [done|].
      by right.
    + intros Hw' Ha. apply IHn; [done|]. by eapply hot_after.
Qed.

Lemma keeps_inner l h : wf h → hot h l → keeps (step_inner (run n) l) h.
Proof.
  intros Hw Hh. apply keeps_withH. cbv zeta.
  destruct (_ <? _)%Z eqn:Hi; [|by apply keeps_inner_end].
  destruct (cb_list (lists h l) !! _) as [e|] eqn:He; [|by apply keeps_throw].
  destruct (default _ _) as [ctx args]. apply inner_entry in He; [|done..].
  apply keeps_update_then; [apply wf_upd, good_index; [done..|lia]|]. intros Hw1 Ha1.
  apply keeps_bind; [by apply IHn|]. intros v h2 Hw2 Ha2.
  assert (hot h2 l) as Hh2 by (eapply hot_after; [eapply hot_after; [exact Hh|done]|done]).
  apply keeps_withH, keeps_bind.
  - destruct v as [|b| | | | | | | |]; try by apply keeps_ret. destruct b; [by apply keeps_ret|].
    destruct (stopOnFalse _) eqn:Hs; [|by apply keeps_ret].
    apply keeps_update, wf_upd; [done|]. by apply hot_stop.
  - intros _ h3 Hw3 Ha3. apply IHn; [done|]. by eapply hot_after.
Qed.
Lemma keeps_rec t h : wf h → task_ok h t → keeps (run n t) h.
Proof. apply IHn. Qed.
Lemma keeps_add1 f l h : wf h → harmless_at l (EFn f) → keeps (add (run n) l [EFn f]) h.
Proof. intros. apply (keeps_add [f]); auto. Qed.
Lemma keeps_listen d k us h : wf h → keeps (add (run n) (LDef d k false) (map EFn us)) h.
Proof. intros. apply keeps_add; [done|]. by apply Forall_forall. Qed.
Lemma keeps_listen_free m us h : wf h → keeps (add (run n) (LFree m) (map EFn us)) h.
Proof. intros. apply keeps_add; [done|]. by apply Forall_forall. Qed.

(** Sequences of operations that keep the invariant each. *)
Ltac kstep :=
  match goal with
  | |- keeps (ret _) _ => by apply keeps_ret
  | |- keeps (throw _) _ => by apply keeps_throw
  | |- keeps (withH _) _ => apply keeps_withH; cbv zeta
  | |- keeps (fireWith _ _ _ _) _ => by apply keeps_fireWith
  | |- keeps (settleWith _ _ _ _ _) _ => by apply keeps_fireWith
  | |- keeps (add _ _ [EFn _]) _ => by apply keeps_add1
  | |- keeps (add _ (LDef _ _ false) (map EFn _)) _ => by apply keeps_listen
  | |- keeps (add _ (LFree _) (map EFn _)) _ => by apply keeps_listen_free
  | |- keeps (run n _) _ => by apply keeps_rec
  | |- keeps (update _ >> _) _ =>
      apply keeps_update_then; [|let H := fresh "Hw" in let H' := fresh "Ha" in intros H H']
  | |- keeps (_ >> _) _ =>
      apply keeps_bind;
        [|let H := fresh "Hw" in let H' := fresh "Ha" in intros _ ? H H'; cbv beta]
  | |- keeps (bindC _ _) _ =>
      apply keeps_bind;
        [|let H := fresh "Hw" in let H' := fresh "Ha" in intros ? ? H H'; cbv beta]
  | |- keeps (catchC _ _) _ =>
      apply keeps_catch;
        [|let H := fresh "Hw" in let H' := fresh "Ha" in intros ? ? H H'; cbv beta]
  | |- keeps (update _) _ => apply keeps_update
  | |- keeps (if ?b then _ else _) _ => destruct b eqn:?
  | |- keeps (match ?x with _ => _ end) _ => destruct x eqn:?
  | |- wf (set_depth _ _ _) ∧ _ => by apply wf_same
  | |- wf (set_when _ _ _) ∧ _ => by apply wf_same
  | |- wf (set_timers _ _) ∧ _ => by apply wf_same
  | |- wf (log_call _ _ _ _) ∧ _ => by apply wf_same
  | |- wf (upd_list (LFree _) _ _) ∧ _ => apply wf_upd; [done|]; apply good_inner; [done|]
  end.
Ltac ksteps := repeat kstep.

Lemma keeps_new h h' f :
  wf h → (∀ h1, wf h1 → after h h1 → wf (f h1) ∧ after h1 (f h1)) →
  h' = f (new_deferred h) → wf h' ∧ after h h'.
Proof.
  intros Hw Hf ->. destruct (new_deferred_wf h Hw) as [Hw1 Ha1].
  destruct (Hf _ Hw1 Ha1). eauto using after_trans.
Qed.
Lemma keeps_then d f1 f2 f3 h : wf h → keeps (then_ (run n) d f1 f2 f3) h.
Proof.
  intros Hw. unfold then_. kstep. kstep.
  { eapply (keeps_new h _ (λ h1, set_next (S (next h1)) (set_depth (next h1) 0 h1))); [done| |done].
    intros h1 Hw1 _. apply wf_same; simpl; auto. }
  ksteps.
Qed.
Lemma keeps_call_then v r1 r2 r3 m h : wf h → call_then thenable (run n) v r1 r2 r3 = Some m → keeps m h.
Proof.
  intros Hw H. destruct v; try done; simpl in H; injection H as <-;
    first [by apply keeps_then|by apply keeps_rec].
Qed.
Lemma keeps_mightThrow t h : wf h → keeps (mightThrow thenable (run n) t) h.
Proof.
  intros Hw. unfold mightThrow. kstep. kstep; [by kstep|]. kstep.
  { unfold apply_handler. ksteps. }
  kstep; [by kstep|]. kstep. kstep; ksteps. by eapply keeps_call_then.
Qed.
Lemma keeps_process t h : wf h → keeps (process thenable (run n) t) h.
Proof.
  intros Hw. unfold process. kstep; [by apply keeps_mightThrow|]. kstep; [by apply keeps_mightThrow|].
  ksteps.
Qed.
Lemma keeps_call_fn f this args h : wf h → keeps (call_fn user (run n) f this args) h.
Proof. intros Hw. destruct f; simpl; ksteps. Qed.
Lemma keeps_call_entry e this args h :
  wf h → harmless e → keeps (call_entry user (run n) e this args) h.
Proof.
  intros Hw He. destruct e as [f| | | |l]; try done; [by apply keeps_call_fn|]. simpl. ksteps.
Qed.
Lemma keeps_pipe d f1 f2 f3 h : wf h → keeps (pipe_ (run n) d f1 f2 f3) h.
Proof. intros Hw. unfold pipe_. kstep. kstep; [by apply new_deferred_wf|]. ksteps. Qed.
Lemma keeps_adoptValue v f1 f2 b h : wf h → keeps (adoptValue thenable (run n) v f1 f2 b) h.
Proof. intros Hw. unfold adoptValue. kstep; ksteps. Qed.
Lemma keeps_adopt_down w m i h : wf h → keeps (adopt_down thenable (run n) w m i) h.
Proof.
  revert h. induction i as [|i IHi]; intros h Hw; simpl; [by kstep|].
  kstep. kstep; [by apply keeps_adoptValue|]. by apply IHi.
Qed.
Lemma keeps_when args h : wf h → keeps (when_ thenable (run n) args) h.
Proof.
  intros Hw. unfold when_. kstep. kstep.
  { eapply (keeps_new h _ (λ h1, set_next (S (next h1)) (set_when (next h1) _ h1))); [done| |done].
    intros h1 Hw1 _. apply wf_same; simpl; auto. }
  kstep; [destruct (length args <=? 1); [|by kstep]; kstep; [by kstep|by apply keeps_adoptValue]|].
  kstep. kstep; [by apply keeps_then|]. kstep; [by apply keeps_adopt_down|]. ksteps.
Qed.
Lemma keeps_free h m c' :
  wf h → harmless_list (LFree m) c' →
  wf (upd_list (LFree m) (λ _, c') h) ∧ after h (upd_list (LFree m) (λ _, c') h).
Proof. intros. apply wf_upd; [done|]. by apply good_inner. Qed.
Lemma keeps_prog p h : wf h → keeps (step_prog thenable (run n) p) h.
Proof.
  intros Hw. assert (∀ m, harmless_list (LFree m) (lists h (LFree m))) as Hf by (intros m; apply (wf_lists h Hw); simpl; tauto).
  destruct p; simpl; try (ksteps; fail).
  - kstep. kstep; [by apply new_deferred_wf|]. by kstep.
  - kstep; [by apply keeps_then|]. by kstep.
  - kstep; [by apply keeps_pipe|]. by kstep.
  - kstep; [by apply keeps_when|]. by kstep.
  - kstep. kstep; [|by kstep].
    destruct (keeps_free h (next h) (new_CB o) Hw) as [H1 H2]; [constructor|].
    destruct (wf_same (upd_list (LFree (next h)) (λ _, new_CB o) h)
      (set_next (S (next h)) (upd_list (LFree (next h)) (λ _, new_CB o) h))) as [H3 H4];
      simpl; auto. eauto using after_trans.
  - kstep; [kstep|by kstep]. specialize (Hf n0). revert Hf. generalize (lists h (LFree n0)).
    induction fs as [|f fs IHf]; intros c Hc; simpl; [done|]. by apply IHf, harmless_remove.
  - kstep; [kstep|by kstep]. unfold harmless_list, cb_list. simpl. by destruct (list_ _).
  - kstep; [kstep|by kstep]. apply harmless_disable.
  - kstep; [kstep|by kstep]. by apply harmless_lock.
Qed.

Lemma keeps_step t h : wf h → task_ok h t → keeps (step user thenable (run n) t) h.
Proof.
  intros Hw Ht. destruct t; simpl;
    auto using keeps_call_entry, keeps_outer, keeps_inner, keeps_process, keeps_prog.
Qed.
End Induction.

Lemma keeps_run n t h : wf h → task_ok h t → keeps (run n t) h.
Proof.
  revert t h. induction n as [n IH] using lt_wf_ind. intros t h Hw Ht. destruct n as [|n]; [done|].
  simpl. apply keeps_step; [|done..]. intros m t' h' Hm. apply IH. lia.
Qed.
End Keeps.
