(* ===== verification/DeferredProps.v ===== *)
(** * What deferred objects and callback lists promise

    Settling is final, whatever user functions do; a resolution calls the done
    callbacks in order with its arguments and only schedules the handlers of
    [then]; [then] calls nothing synchronously; [remove] keeps the position of a
    list that is firing. *)
From Stdlib Require Import ZArith Lia Ascii String FunctionalExtensionality.
From stdpp Require Import base gmap strings list relations.
From S2P Require Import Prelude.
From S2P Require Import Deferred.
From S2P Require Import DeferredFacts.

Section Page.
Context (user : nat → val → list val → prog) (thenable : nat → fn → fn → option fn → prog).
Abbreviation run := (run_task user thenable).
Implicit Types (h : Heap) (d : nat) (k : kind).

(** The life of a page: scripts run to completion, then timers. *)
Inductive page_step : Heap → Heap → Prop :=
  | page_script n p r h h' : run n (TProg p) h = Some (r, h') → page_step h h'
  | page_timer n r h h' : run_timer user thenable n h = Some (r, h') → page_step h h'.

Lemma wf_empty : wf empty_heap.
Proof. split; simpl; [done|done|]. intros l _. constructor. Qed.
Lemma page_step_keeps h h' : wf h → page_step h h' → wf h' ∧ after h h'.
Proof.
  intros Hw H. destruct H as [n p r h h' H|n r h h' H].
  - by eapply (keeps_run user thenable n (TProg p)) in H.
  - unfold run_timer in H. destruct (timers h) as [|t ts]; [injection H as <- <-; auto using after_refl|].
    destruct (wf_same h (set_timers ts h)) as [Hw' Ha]; [done..|].
    eapply (keeps_run user thenable n (TProcess t)) in H as [? ?]; [|done|done].
    eauto using after_trans.
Qed.
Lemma page_steps_keep h h' : wf h → rtc page_step h h' → wf h' ∧ after h h'.
Proof.
  intros Hw H. induction H as [|h1 h2 h3 H1 H IH]; [auto using after_refl|].
  destruct (page_step_keeps h1 h2 Hw H1) as [Hw2 Ha]. destruct (IH Hw2). eauto using after_trans.
Qed.
Lemma page_wf h : rtc page_step empty_heap h → wf h.
Proof. intros H. by eapply page_steps_keep in H as [? _]; [|apply wf_empty]. Qed.

Lemma state_cases h d :
  wf h → dstate h d ≠ ""%string →
  dstate h d = "pending"%string ∨ ∃ k, Settled d k h ∧ Some (dstate h d) = stateString k.
Proof.
  intros Hw Hd. destruct (wf_state h Hw d Hd) as [[? _]|(k & HS)]; [by left|right].
  exists k. split; [done|]. apply HS.
Qed.

(** C15. A deferred settles at most once.  On a page that runs any scripts and
    timers, whose functions may call back into the library at any point, throw,
    or return thenables that misbehave: a deferred is pending, resolved or
    rejected, and once it is settled its state never changes again, its list for
    the opposite outcome stays disabled for good, and settling it again does
    nothing at all. *)
Theorem deferred_settles_once h h' d k :
  rtc page_step empty_heap h → rtc page_step h h' →
  Some (dstate h d) = stateString k → k ≠ KNotify →
  dstate h' d = dstate h d ∧
  list_ (lists h' (LDef d (other k) false)) = None ∧
  ∀ rec j ctx args, j ≠ KNotify → settleWith rec d j ctx args h' = Some (RVal (VDeferred d), h').
Proof.
  intros H0 H1 Hs Hk. apply page_wf in H0 as Hw.
  assert (dstate h d ≠ ""%string) as Hd by (intros E; rewrite E in Hs; by destruct k).
  destruct (state_cases h d Hw Hd) as [E|(k' & HS & E)]; [rewrite E in Hs; by destruct k|].
  assert (k' = k) as -> by (rewrite E in Hs; by destruct k, k').
  destruct (page_steps_keep h h' Hw H1) as [Hw' Ha]. apply (after_settled h h' Ha) in HS.
  destruct HS as (_ & E' & (Hlk & _) & (Hn & Hlk' & _)). split; [congruence|]. split; [done|].
  intros rec j ctx args Hj. unfold settleWith, fireWith, withH.
  assert (exists_list h' (LDef d j false) = true) as ->.
  { simpl. destruct (String.eqb_spec (dstate h' d) "") as [E2|]; [|done].
    rewrite E2 in E'. by destruct k. }
  assert (locked (lists h' (LDef d j false)) = true) as ->; [|done].
  destruct (decide (j = k)) as [->|]; [done|]. by replace j with (other k) by (destruct j, k; done).
Qed.

(** *** Runs with enough fuel *)
Definition runs (t : task) h (x : res * Heap) : Prop := ∃ n0, ∀ n, n0 <= n → run n t h = Some x.

Lemma runs_step t h x :
  (∃ n0, ∀ n, n0 <= n → step user thenable (run n) t h = Some x) → runs t h x.
Proof.
  intros (n0 & H). exists (S n0). intros [|n] Hn; [lia|]. simpl. apply H. lia.
Qed.

Lemma runs_inner l h h2 (i : nat) e ctx args v x :
  cb_list (lists h l) !! i = Some e → firingIndex (lists h l) = (Z.of_nat i - 1)%Z →
  memory (lists h l) = Some (ctx, args) →
  runs (TCall e ctx args) (upd_list l (cb_index (Z.of_nat i)) h) (RVal v, h2) →
  stopOnFalse (options (lists h2 l)) = false →
  runs (TInner l) h2 x → runs (TInner l) h x.
Proof.
  intros He Hi Hm (n1 & H1) Hs (n2 & H2). apply runs_step. exists (Nat.max n1 n2). intros n Hn.
  simpl. unfold step_inner, withH. rewrite Hi, Hm. cbv zeta.
  replace (Z.of_nat i - 1 + 1)%Z with (Z.of_nat i) by lia.
  assert (i < length (cb_list (lists h l))) as Hlt by (apply lookup_lt_is_Some; eauto).
  unfold cb_len. rewrite (proj2 (Z.ltb_lt _ _)) by lia. rewrite Nat2Z.id, He. simpl.
  unfold seqC, bindC, update. rewrite H1 by lia. rewrite Hs.
  destruct v as [|[]| | | | | | | |]; apply H2; lia.
Qed.
Lemma runs_inner_end l h c x :
  lists h l = c → firingIndex c = (cb_len c - 1)%Z → queue c = [] →
  x = (RVal VUndef, upd_list l (λ c, cb_fire_end (cb_index (-1) c)) h) → runs (TInner l) h x.
Proof.
  intros <- Hi Hq ->. apply runs_step. exists 1. intros [|n] Hn; [lia|].
  simpl. unfold step_inner, withH. cbv zeta. rewrite (proj2 (Z.ltb_ge _ _)) by lia.
  unfold seqC, bindC, update. simpl. unfold step_outer, withH. simpl. rewrite upd_eq. simpl. rewrite Hq.
  unfold update. by rewrite upd_list_twice.
Qed.

(** *** Entries that only log a call or schedule a timer *)
Definition pure_step (ctx : val) (args : list val) (e : entry) h : Heap :=
  match e with
  | EFn (FUser n) => log_call n ctx args h
  | EFn (FThen tid 0 d hd sp) => set_timers (timers h ++ [mkTimer tid 0 d hd sp ctx args]) h
  | _ => h
  end.
Definition calls_of (ctx : val) (args : list val) (es : list entry) : list (nat * val * list val) :=
  omap (λ e, match e with EFn (FUser n) => Some (n, ctx, args) | _ => None end) es.
Definition timers_of (ctx : val) (args : list val) (es : list entry) : list Timer :=
  omap (λ e, match e with EFn (FThen tid 0 d hd sp) => Some (mkTimer tid 0 d hd sp ctx args)
                        | _ => None end) es.
Abbreviation pure_steps ctx args es h := (fold_left (λ g e, pure_step ctx args e g) es h).

(** A user function that returns at once, or a closure of [then]. *)
Definition pure_entry (ctx : val) (args : list val) (e : entry) : Prop :=
  match e with EFn (FUser n) => ∃ v, user n ctx args = PRet v | _ => then_entry e end.

Lemma pure_call ctx args e h :
  pure_entry ctx args e → ∃ v, runs (TCall e ctx args) h (RVal v, pure_step ctx args e h).
Proof.
  destruct e as [[n| |tid [|] d hd sp| |]| | | |]; simpl; try done.
  - intros (v & Hv). exists v. apply runs_step. exists 1. intros [|m] Hm; [lia|].
    simpl. unfold seqC, bindC, update. by rewrite Hv.
  - intros _. exists VUndef. apply runs_step. by exists 0.
Qed.
Lemma pure_step_upd ctx args e l f h :
  pure_step ctx args e (upd_list l f h) = upd_list l f (pure_step ctx args e h).
Proof. by destruct e as [[n| |tid [|] d hd sp| |]| | | |]. Qed.
Lemma pure_steps_upd ctx args es l f h :
  pure_steps ctx args es (upd_list l f h) = upd_list l f (pure_steps ctx args es h).
Proof. revert h. induction es as [|e es IH]; intros h; simpl; [done|]. by rewrite pure_step_upd, IH. Qed.
Lemma pure_step_lists ctx args e h : lists (pure_step ctx args e h) = lists h.
Proof. by destruct e as [[n| |tid [|] d hd sp| |]| | | |]. Qed.
Lemma pure_steps_spec ctx args es h :
  let h' := pure_steps ctx args es h in
  lists h' = lists h ∧ dstate h' = dstate h ∧
  trace h' = trace h ++ calls_of ctx args es ∧ timers h' = timers h ++ timers_of ctx args es.
Proof.
  cbv zeta. revert h. induction es as [|e es IH]; intros h; simpl; [by rewrite !app_nil_r|].
  destruct (IH (pure_step ctx args e h)) as (-> & -> & -> & ->).
  destruct e as [[n| |tid [|] d hd sp| |]| | | |]; simpl; rewrite <- ?app_assoc; done.
Qed.

Lemma index_id l i h : firingIndex (lists h l) = i → upd_list l (cb_index i) h = h.
Proof.
  intros <-. unfold upd_list, cb_index. destruct h as [L ? ? ? ? ? ?]; simpl. f_equal.
  apply functional_extensionality. intros j. unfold upd. destruct (decide (j = l)) as [->|]; [|done].
  by destruct (L l).
Qed.

Lemma runs_loop l ctx args es pre h x :
  Forall (pure_entry ctx args) es →
  cb_list (lists h l) = pre ++ es → firingIndex (lists h l) = (Z.of_nat (length pre) - 1)%Z →
  memory (lists h l) = Some (ctx, args) → stopOnFalse (options (lists h l)) = false →
  runs (TInner l) (upd_list l (cb_index (Z.of_nat (length (pre ++ es)) - 1)) (pure_steps ctx args es h)) x →
  runs (TInner l) h x.
Proof.
  intros Hes. revert pre h. induction Hes as [|e es He Hes IH]; intros pre h Hl Hi Hm Hs H; simpl in *.
  { rewrite app_nil_r, index_id in H; done. }
  destruct (pure_call ctx args e (upd_list l (cb_index (Z.of_nat (length pre))) h) He) as (v & Hv).
  eapply (runs_inner l h _ (length pre)); [by rewrite Hl, list_lookup_middle|done|done|exact Hv| |].
  { rewrite pure_step_lists. simpl. by rewrite upd_eq. }
  rewrite pure_step_upd. apply (IH (pre ++ [e])); simpl; rewrite ?upd_eq, ?pure_step_lists; simpl.
  - unfold cb_list in *. simpl. by rewrite Hl, <- app_assoc.
  - rewrite length_app. simpl. lia.
  - done.
  - done.
  - rewrite pure_steps_upd, upd_list_twice. by rewrite <- app_assoc.
Qed.

(** Firing a list that holds only such entries. *)
Lemma runs_fire l ctx args es h c :
  lists h l = c → Forall (pure_entry ctx args) es → cb_list c = es → firingIndex c = (-1)%Z →
  queue c = [] → stopOnFalse (options c) = false →
  runs (TOuter l) (upd_list l (λ c, cb_fire_start (cb_enqueue (ctx, args) c)) h)
    (RVal VUndef, upd_list l (λ c, cb_fire_end (cb_index (-1) (cb_index (Z.of_nat (length es) - 1)
        (cb_shift (cb_fire_start (cb_enqueue (ctx, args) c)) (ctx, args) []))))
      (pure_steps ctx args es h)).
Proof.
  intros <- Hes Hl Hi Hq Hs. apply runs_step.
  assert (runs (TInner l) (upd_list l (λ c, cb_shift (cb_fire_start (cb_enqueue (ctx, args) c)) (ctx, args) []) h)
    (RVal VUndef, upd_list l (λ c, cb_fire_end (cb_index (-1) (cb_index (Z.of_nat (length es) - 1)
        (cb_shift (cb_fire_start (cb_enqueue (ctx, args) c)) (ctx, args) []))))
      (pure_steps ctx args es h))) as (n0 & H0).
  { apply (runs_loop l ctx args es []); simpl; rewrite ?upd_eq; simpl; try done.
    eapply runs_inner_end; simpl; [reflexivity| | |]; rewrite ?upd_eq, ?pure_steps_upd; simpl.
    - rewrite upd_eq. simpl. unfold cb_len, cb_list in *. simpl.
      destruct (pure_steps_spec ctx args es h) as (-> & _). by rewrite Hl.
    - by rewrite upd_eq.
    - by rewrite !upd_list_twice. }
  exists n0. intros n Hn. simpl. unfold step_outer, withH. simpl. rewrite upd_eq. simpl. rewrite Hq. simpl.
  unfold seqC, bindC, update. rewrite upd_list_twice. by apply H0.
Qed.

(** *** Settling a pending deferred *)
Lemma runs_settling d k ctx args us h x :
  k ≠ KNotify → pending_list d k (lists h (LDef d k false)) →
  list_ (lists h (LDef d k false)) = Some (internals d k ++ map EFn us) →
  runs (TInner (LDef d k false)) (settling d k (ctx, args) h) x →
  runs (TOuter (LDef d k false))
    (upd_list (LDef d k false) (λ c, cb_fire_start (cb_enqueue (ctx, args) c)) h) x.
Proof.
  intros Hk (Ho & Hf & Hm & Hlk & Hq & Hi & _) Hl H. apply runs_step.
  assert (runs (TInner (LDef d k false))
    (upd_list (LDef d k false) (λ c, cb_shift (cb_fire_start (cb_enqueue (ctx, args) c)) (ctx, args) []) h) x)
    as (n0 & H0).
  { unfold settling in H.
    destruct k; [done| |];
    (eapply (runs_inner _ _ _ 0); [lst; unfold cb_list; lst; by rewrite Hl|lst; by rewrite Hi|by lst
       |exists 1; intros [|?] ?; [lia|reflexivity]|lst; by rewrite Ho|];
     eapply (runs_inner _ _ _ 1); [lst; unfold cb_list; lst; by rewrite Hl|by lst|by lst
       |exists 1; intros [|?] ?; [lia|reflexivity]|lst; by rewrite Ho|];
     eapply (runs_inner _ _ _ 2); [lst; unfold cb_list; lst; by rewrite Hl|by lst|by lst
       |exists 1; intros [|?] ?; [lia|reflexivity]|lst; by rewrite Ho|];
     eapply (runs_inner _ _ _ 3); [lst; unfold cb_list; lst; by rewrite Hl|by lst|by lst
       |exists 1; intros [|?] ?; [lia|reflexivity]|lst; by rewrite Ho|];
     eapply (runs_inner _ _ _ 4); [lst; unfold cb_list; lst; by rewrite Hl|by lst|by lst
       |exists 1; intros [|?] ?; [lia|reflexivity]|lst; by rewrite Ho|];
     exact H). }
  exists n0. intros n Hn. simpl. unfold step_outer, withH. simpl. rewrite upd_eq. simpl. rewrite Hq. simpl.
  unfold seqC, bindC, update. rewrite upd_list_twice. by apply H0.
Qed.

(** The handlers of [then] that wait in an unfired list. *)
Definition waiting (k : kind) (hs : list entry) (c : CB) : Prop :=
  c = mkCB (def_flags k) false None false false (Some hs) [] (-1).

Lemma runs_fire_handlers d k ctx args hs h :
  dstate h d ≠ ""%string → waiting k hs (lists h (LDef d k true)) → Forall then_entry hs →
  ∃ c, runs (TCall (EFire (LDef d k true)) ctx args) h
    (RVal ctx, upd_list (LDef d k true) (λ _, c) (pure_steps ctx args hs h)).
Proof.
  intros Hd Hw Hhs.
  destruct (runs_fire (LDef d k true) ctx args hs h (lists h (LDef d k true))) as (n0 & H0);
    [done| |by rewrite Hw..|by rewrite Hw; destruct k|].
  { eapply Forall_impl; [exact Hhs|]. intros [[]| | | |]; simpl; done. }
  match type of H0 with ∀ n, _ → _ = Some (_, upd_list _ ?f _) => exists (f (lists h (LDef d k true))) end.
  apply runs_step. exists n0. intros n Hn.
  specialize (H0 n Hn). simpl. unfold fireWith, withH, seqC, bindC.
  assert (exists_list h (LDef d k true) = true) as ->.
  { simpl. by destruct (String.eqb_spec (dstate h d) ""). }
  simpl. rewrite Hw. simpl. unfold fire, seqC, bindC, update. rewrite upd_list_twice, H0.
  unfold ret. f_equal. f_equal. unfold upd_list. f_equal.
  rewrite (proj1 (pure_steps_spec ctx args hs h)). by rewrite Hw.
Qed.
Lemma timers_users ctx args ns : timers_of ctx args (map (λ n, EFn (FUser n)) ns) = [].
Proof. by induction ns. Qed.
Lemma calls_users ctx args ns :
  calls_of ctx args (map (λ n, EFn (FUser n)) ns) = map (λ n, (n, ctx, args)) ns.
Proof. induction ns; simpl; by f_equal. Qed.
Lemma calls_then ctx args hs : Forall then_entry hs → calls_of ctx args hs = [].
Proof. induction 1 as [|e hs He]; [done|]. by destruct e as [[]| | | |]. Qed.

(** The listeners and handlers of a deferred whose private entries have run. *)
Lemma runs_settled d k ctx args ns hs h :
  let l := LDef d k false in
  k ≠ KNotify → dstate h d ≠ ""%string →
  cb_list (lists h l) = internals d k ++ map (λ n, EFn (FUser n)) ns →
  firingIndex (lists h l) = 4%Z → memory (lists h l) = Some (ctx, args) →
  queue (lists h l) = [] → stopOnFalse (options (lists h l)) = false →
  waiting k hs (lists h (LDef d k true)) → Forall then_entry hs →
  Forall (λ n, ∃ v, user n ctx args = PRet v) ns →
  ∃ h', runs (TInner l) h (RVal VUndef, h') ∧ dstate h' = dstate h ∧
    trace h' = trace h ++ map (λ n, (n, ctx, args)) ns ∧
    timers h' = timers h ++ timers_of ctx args hs.
Proof.
  intros l Hk Hd Hl Hi Hm Hq Hs Hwait Hhs Hns. set (us := map (λ n, EFn (FUser n)) ns) in *.
  set (h1 := upd_list l (cb_index 5) h).
  assert (length (internals d k) = 6) as Hlen by (by destruct k).
  destruct (runs_fire_handlers d k ctx args hs h1) as (c & Hfire);
    [done|by simpl; rewrite upd_ne by done|done|].
  destruct (pure_steps_spec ctx args hs h1) as (P1 & P2 & P3 & P4).
  set (h2 := upd_list (LDef d k true) (λ _, c) (pure_steps ctx args hs h1)) in *.
  destruct (pure_steps_spec ctx args us h2) as (Q1 & Q2 & Q3 & Q4).
  assert (lists h2 l = cb_index 5 (lists h l)) as L2.
  { simpl. rewrite upd_ne by done. rewrite P1. simpl. by rewrite upd_eq. }
  eexists. split; [|split; [|split]].
  - eapply (runs_inner l h h2 5 (EFire (LDef d k true)) ctx args ctx);
      [|by rewrite Hi|done|exact Hfire|by rewrite L2|].
    { rewrite Hl, lookup_app_l by lia. by destruct k. }
    apply (runs_loop l ctx args us (internals d k)); rewrite ?L2; try done.
    + unfold us. apply Forall_map. by eapply Forall_impl.
    + by rewrite Hlen.
    + eapply runs_inner_end; [reflexivity| | |reflexivity]; simpl; rewrite ?upd_eq, ?Q1, ?L2; simpl; [|done].
      unfold cb_len. unfold cb_list in *. simpl. by rewrite Hl.
  - simpl. rewrite Q2; exact P2.
  - simpl. rewrite Q3. simpl. rewrite P3, calls_then, app_nil_r by done. unfold us. by rewrite calls_users.
  - simpl. rewrite Q4. simpl. rewrite P4. unfold us. by rewrite timers_users, app_nil_r.
Qed.

(** What a resolution (or rejection) does: on a pending deferred whose
    listeners are functions that return, it sets the state, calls the listeners
    of that outcome, each once, in the order they were added, with the context and
    arguments given, and calls no other user function; the handlers added by
    [then] are not called but scheduled, in order, each with those arguments. *)
Theorem resolve_effect d k ctx args ns hs h :
  rtc page_step empty_heap h → k ≠ KNotify → dstate h d = "pending"%string →
  list_ (lists h (LDef d k false)) = Some (internals d k ++ map (λ n, EFn (FUser n)) ns) →
  waiting k hs (lists h (LDef d k true)) →
  Forall (λ n, ∃ v, user n ctx args = PRet v) ns →
  ∃ h', (∃ n0, ∀ n, n0 <= n → settleWith (run n) d k ctx args h = Some (RVal (VDeferred d), h')) ∧
    Some (dstate h' d) = stateString k ∧
    trace h' = trace h ++ map (λ n, (n, ctx, args)) ns ∧
    timers h' = timers h ++ timers_of ctx args hs.
Proof.
  intros Hr Hk Hs Hl Hwait Hns. apply page_wf in Hr as Hw.
  assert (Pending d h) as HP.
  { destruct (wf_state h Hw d) as [?|(k' & _ & E & _)]; [by rewrite Hs|done|].
    rewrite Hs in E. by destruct k'. }
  assert (Forall then_entry hs) as Hhs.
  { pose proof (wf_lists h Hw (LDef d k true)) as E. rewrite Hwait in E. apply E. by intros []. }
  assert (pending_list d k (lists h (LDef d k false))) as HPk by (destruct HP as (_ & ? & ?); by destruct k).
  set (l := LDef d k false) in *.
  destruct (settling_lists d k (ctx, args) h Hk) as (L1 & _ & _ & _ & _ & L6 & _). fold l in L1.
  destruct (settling_state d k (ctx, args) h) as [Es _]. pose proof HPk as (Ho & Hf & _ & Hlk & _).
  destruct (runs_settled d k ctx args ns hs (settling d k (ctx, args) h)) as (h' & Hrun & E1 & E2 & E3);
    fold l; rewrite ?L1, ?L6, ?Es; try done; [rewrite upd_eq; by destruct k
      |unfold cb_list; simpl; by rewrite Hl|simpl; rewrite Ho; by destruct k|].
  exists h'. rewrite E1, E2, E3, Es, upd_eq. split; [|split; [by destruct k|done]].
  destruct (runs_settling d k ctx args (map FUser ns) h (RVal VUndef, h') Hk HPk) as (n0 & Hn0);
    [fold l; by rewrite Hl, map_map|done|].
  exists n0. intros n Hn. unfold settleWith, fireWith, withH, fire, seqC, bindC, update. fold l in Hn0 |- *.
  assert (exists_list h l = true) as -> by (simpl; by rewrite Hs).
  rewrite Hf, Hlk. simpl. rewrite upd_list_twice. by rewrite Hn0.
Qed.

(** *** [then] is asynchronous *)
(** A computation that calls no user function and only appends timers. *)
Definition quiet (m : C) h : Prop := ∀ r h', m h = Some (r, h') →
  wf h' ∧ trace h' = trace h ∧ ∃ ts, timers h' = timers h ++ ts.

Lemma quiet_id v h : wf h → quiet (ret v) h.
Proof. intros Hw r h' [= <- <-]. split; [done|]. split; [done|]. exists []. by rewrite app_nil_r. Qed.
Lemma quiet_update_then f m h :
  wf (f h) → trace (f h) = trace h → (∃ ts, timers (f h) = timers h ++ ts) →
  quiet m (f h) → quiet (update f >> m) h.
Proof.
  intros Hw Ht (ts & Hs) Hm r h' H. destruct (Hm r h' H) as (Hw' & Ht' & ts' & Hs').
  split; [done|]. split; [congruence|]. exists (ts ++ ts'). by rewrite Hs', Hs, <- app_assoc.
Qed.
Lemma quiet_bind m f h :
  quiet m h → (∀ v h', wf h' → quiet (f v) h') → quiet (bindC m f) h.
Proof.
  intros Hm Hf r h' H. unfold bindC in H. destruct (m h) as [[[v|e] h1]|] eqn:H1; [| |done].
  - destruct (Hm _ _ H1) as (Hw & Ht & ts & Hs). destruct (Hf v h1 Hw r h' H) as (Hw' & Ht' & ts' & Hs').
    split; [done|]. split; [congruence|]. exists (ts ++ ts'). by rewrite Hs', Hs, <- app_assoc.
  - injection H as <- <-. eauto.
Qed.
Lemma quiet_list f d k m h :
  wf h → harmless_list (LDef d k true) (f (lists h (LDef d k true))) →
  (wf (upd_list (LDef d k true) f h) → quiet m (upd_list (LDef d k true) f h)) →
  quiet (update (upd_list (LDef d k true) f) >> m) h.
Proof.
  intros Hw Hf Hm. destruct (wf_upd (LDef d k true) f h Hw) as [Hw' _];
    [by apply good_inner|].
  apply quiet_update_then; [done|done|exists []; by rewrite app_nil_r|auto].
Qed.
Lemma handlers_then h d k : wf h → harmless_list (LDef d k true) (lists h (LDef d k true)).
Proof. intros Hw. apply (wf_lists h Hw). by intros []. Qed.

Lemma quiet_loops n d k h :
  wf h → quiet (run n (TOuter (LDef d k true))) h ∧ quiet (run n (TInner (LDef d k true))) h.
Proof.
  revert h. induction n as [|n IH]; intros h Hw; [by split|].
  pose proof (handlers_then h d k Hw) as Hl. split; simpl.
  - unfold step_outer. intros r h' H. unfold withH in H. revert r h' H.
    destruct (queue (lists h (LDef d k true))) as [|m q] eqn:Hq.
    + intros r h' [= <- <-]. split; [|split; [done|exists []; by rewrite app_nil_r]].
      apply wf_upd; [done|]. apply good_inner; [done|]. by apply harmless_fire_end.
    + apply quiet_list; [done|done|]. intros Hw'. by apply IH.
  - unfold step_inner. intros r h' H. unfold withH in H at 1. cbv zeta in H. revert r h' H.
    destruct (_ <? _)%Z; [|by apply quiet_list; [..|intros; apply IH]].
    destruct (cb_list _ !! _) as [e|] eqn:He.
    2: { intros r h' [= <- <-]. split; [done|]. split; [done|]. exists []. by rewrite app_nil_r. }
    destruct (default _ _) as [ctx args]. eapply Forall_lookup_1 in He; [|exact Hl].
    apply quiet_list; [done|done|]. intros Hw1. apply quiet_bind.
    + intros r h' H. destruct n as [|n]; [done|].
      destruct e as [[| |tid [|] d' hd sp| |]| | | |]; try done. injection H as <- <-.
      simpl. split; [|split; [done|by eexists]]. by eapply wf_same in Hw1 as [? _].
    + intros v h2 Hw2 r h' H. unfold withH in H. revert r h' H. apply quiet_bind.
      * destruct v as [|[]| | | | | | | |]; try by apply quiet_id.
        destruct (stopOnFalse _); [|by apply quiet_id]. intros r h' [= <- <-].
        split; [|split; [done|exists []; by rewrite app_nil_r]].
        apply wf_upd; [done|]. apply good_inner; [done|]. by apply handlers_then.
      * intros _ h3 Hw3. by apply IH.
Qed.

Lemma quiet_add n d k f h : wf h → then_entry (EFn f) → quiet (add (run n) (LDef d k true) [EFn f]) h.
Proof.
  intros Hw Hf. unfold add. intros r h' H. unfold withH in H. revert r h' H.
  destruct (exists_list h (LDef d k true)).
  2: { intros r h' [= <- <-]. split; [done|]. split; [done|]. exists []. by rewrite app_nil_r. }
  simpl. destruct (cb_add [EFn f] (lists h (LDef d k true))) as [c b] eqn:Hc.
  assert (harmless_list (LDef d k true) c) as Hl.
  { apply (good_add [f] c b h); [done|by constructor|done|]. by intros []. }
  apply quiet_list; [done|done|]. intros Hw1. destruct b; [|by apply quiet_id].
  unfold fire. apply quiet_list; [done|by apply handlers_then|]. intros Hw2. by apply quiet_loops.
Qed.

(** [then] is asynchronous: whatever the state of the deferred and the
    handlers given, a call of [then] runs no user function; at most it schedules
    timers behind those already waiting. *)
Theorem then_async n d onFulfilled onRejected onProgress h r h' :
  rtc page_step empty_heap h →
  then_ (run n) d onFulfilled onRejected onProgress h = Some (r, h') →
  trace h' = trace h ∧ ∃ ts, timers h' = timers h ++ ts.
Proof.
  intros Hr H. apply page_wf in Hr as Hw.
  assert (quiet (then_ (run n) d onFulfilled onRejected onProgress) h) as Hq; [|by apply Hq in H as (_ & ? & ?)].
  unfold then_. clear H r h'. intros r h' H. unfold withH in H at 1. revert r h' H. cbv zeta.
  destruct (new_deferred_wf h Hw) as [Hw1 _].
  set (h1 := new_deferred h) in *.
  apply quiet_update_then; [eapply (wf_same h1) in Hw1 as [? _]; [done|done|done|simpl; lia]
    |done|exists []; by rewrite app_nil_r|].
  apply quiet_bind; [apply quiet_add; [eapply (wf_same h1) in Hw1 as [? _]; [done|done|done|simpl; lia]|done]|].
  intros _ h2 Hw2. apply quiet_bind; [by apply quiet_add|].
  intros _ h3 Hw3. apply quiet_bind; [by apply quiet_add|]. intros _ h4 Hw4. by apply quiet_id.
Qed.
End Page.

(** ** [remove] and [add] on a list *)
Abbreviation others f := (List.filter (λ e, negb (entry_is f e))).

Lemma remove_from_beyond f l i fi :
  (fi < i)%Z → remove_from f l i fi = (others f l, fi).
Proof.
  revert i. induction l as [|e l IH]; intros i Hi; simpl; [done|].
  destruct (entry_is f e); simpl.
  - rewrite (proj2 (Z.leb_gt _ _)) by lia. by apply IH.
  - rewrite IH by lia. done.
Qed.
Lemma remove_from_spec f l i fi :
  (i <= fi + 1)%Z →
  let '(l', fi') := remove_from f l i fi in
  l' = others f l ∧ (i <= fi' + 1)%Z ∧
  drop (Z.to_nat (fi' + 1 - i)) l' = others f (drop (Z.to_nat (fi + 1 - i)) l).
Proof.
  revert i fi. induction l as [|e l IH]; intros i fi Hi; simpl.
  { by rewrite !drop_nil. }
  destruct (decide (i = fi + 1)%Z) as [->|Hne].
  - replace (fi + 1 - (fi + 1))%Z with 0%Z by lia. rewrite drop_0. simpl.
    destruct (entry_is f e); simpl.
    + rewrite (proj2 (Z.leb_gt _ _)), remove_from_beyond by lia.
      replace (fi + 1 - (fi + 1))%Z with 0%Z by lia. rewrite drop_0. repeat split; lia.
    + rewrite remove_from_beyond by lia.
      replace (fi + 1 - (fi + 1))%Z with 0%Z by lia. rewrite drop_0. repeat split; lia.
  - replace (Z.to_nat (fi + 1 - i)) with (S (Z.to_nat (fi - i))) by lia. simpl.
    destruct (entry_is f e); simpl.
    + rewrite (proj2 (Z.leb_le _ _)) by lia. specialize (IH i (fi - 1)%Z ltac:(lia)).
      destruct (remove_from f l i (fi - 1)) as [l' fi']. destruct IH as (-> & H2 & H3).
      split; [done|]. split; [done|]. rewrite H3. do 2 f_equal. lia.
    + specialize (IH (i + 1)%Z fi ltac:(lia)).
      destruct (remove_from f l (i + 1) fi) as [l' fi']. destruct IH as (-> & H2 & H3).
      split; [done|]. split; [lia|].
      replace (Z.to_nat (fi' + 1 - i)) with (S (Z.to_nat (fi' + 1 - (i + 1)))) by lia. simpl.
      rewrite H3. do 2 f_equal. lia.
Qed.

(** [remove] takes every occurrence of the function out of the list and
    keeps the place of a firing in progress: the callbacks still to be called are
    those that were still to be called, less the removed one. *)
Theorem remove_keeps_position f c l :
  list_ c = Some l → (-1 <= firingIndex c)%Z →
  let c' := cb_remove f c in
  list_ c' = Some (others f l) ∧ cb_has f c' = false ∧
  drop (Z.to_nat (firingIndex c' + 1)) (cb_list c') =
  others f (drop (Z.to_nat (firingIndex c + 1)) (cb_list c)).
Proof.
  intros Hl Hi. unfold cb_remove, cb_has, cb_list. rewrite Hl.
  pose proof (remove_from_spec f l 0 (firingIndex c) ltac:(lia)) as H.
  destruct (remove_from f l 0 (firingIndex c)) as [l' fi']. destruct H as (-> & H2 & H3). simpl.
  rewrite !Z.sub_0_r in H3. split; [done|]. split; [|done].
  clear. induction l as [|e l IH]; simpl; [done|]. destruct (entry_is f e) eqn:E; simpl; [done|].
  by rewrite E.
Qed.

(** ** Witnesses *)
Section DeferredDemo.
(** User function 0 returns; 1 rejects deferred 0 again and throws; 2 adds a
    listener to it. *)
Definition demo_user (n : nat) (this : val) (args : list val) : prog :=
  match n with
  | 1 => PSettle 0 KReject VUndef [VNum 1] (PThrow (VStr "oops"))
  | 2 => PListen 0 KResolve [AFn (FUser 0)] (PRet VUndef)
  | _ => PRet (VNum (Z.of_nat n))
  end.
Definition demo_thenable (n : nat) (resolve reject : fn) (notify : option fn) : prog :=
  PCall resolve VUndef [VNum 7] (λ _, PCall reject VUndef [VNum 8] PRet).
Abbreviation demo_run := (run_task demo_user demo_thenable).

Definition page_after (p : prog) (h : Heap) : Heap :=
  match demo_run 200 (TProg p) h with Some (_, h') => h' | None => h end.
Lemma page_after_step p h :
  is_some (demo_run 200 (TProg p) h) = true → page_step demo_user demo_thenable h (page_after p h).
Proof.
  unfold page_after. destruct (demo_run 200 (TProg p) h) as [[r h']|] eqn:E; [|done].
  intros _. eapply page_script. exact E.
Qed.

(** A page that makes deferred 0 with two listeners and a handler. *)
Definition demo_setup : Heap := page_after
  (PNew (λ _, PListen 0 KResolve [AFn (FUser 0); AArray [AFn (FUser 3); AOther]]
    (PListen 0 KReject [AFn (FUser 4)]
      (PThen 0 (Some (FUser 5)) None None PRet)))) empty_heap.
Definition demo_settled : Heap := page_after
  (PListen 0 KResolve [AFn (FUser 1); AFn (FUser 2)] (PSettle 0 KResolve VUndef [VNum 9] (PRet VUndef)))
  demo_setup.
Definition demo_late : Heap := page_after (PSettle 0 KReject VUndef [] (PRet VUndef)) demo_settled.

Lemma demo_setup_reachable : rtc (page_step demo_user demo_thenable) empty_heap demo_setup.
Proof. apply rtc_once, page_after_step. reflexivity. Qed.

Lemma deferred_settles_once_witness :
  dstate demo_late 0 = "resolved"%string ∧
  trace demo_settled = [(0, VUndef, [VNum 9]); (3, VUndef, [VNum 9]); (1, VUndef, [VNum 9])].
Proof.
  assert (rtc (page_step demo_user demo_thenable) empty_heap demo_settled) as H1.
  { eapply rtc_r; [exact demo_setup_reachable|]. apply page_after_step. reflexivity. }
  assert (rtc (page_step demo_user demo_thenable) demo_settled demo_late) as H2.
  { apply rtc_once, page_after_step. reflexivity. }
  destruct (deferred_settles_once demo_user demo_thenable demo_settled demo_late 0 KResolve H1 H2)
    as (H & _); [reflexivity|done|].
  split; [|reflexivity]. rewrite H. reflexivity.
Defined.

Lemma resolve_effect_witness :
  ∃ h', (∃ n0, ∀ n, n0 <= n →
      settleWith (demo_run n) 0 KResolve (VStr "ctx") [VNum 9] demo_setup = Some (RVal (VDeferred 0), h')) ∧
    dstate h' 0 = "resolved"%string ∧
    trace h' = [(0, VStr "ctx", [VNum 9]); (3, VStr "ctx", [VNum 9])] ∧ length (timers h') = 1.
Proof.
  destruct (resolve_effect demo_user demo_thenable 0 KResolve (VStr "ctx") [VNum 9] [0; 3]
    [EFn (FThen 2 0 1 (HFn (FUser 5)) false)] demo_setup demo_setup_reachable)
    as (h' & H & H1 & H2 & H3); [done|reflexivity|reflexivity|reflexivity
      |repeat constructor; by eexists|].
  exists h'. split; [exact H|]. split; [by injection H1|]. rewrite H2, H3. split; reflexivity.
Defined.

Abbreviation demo_then := (then_ (demo_run 50) 0 (Some (FUser 3)) None None demo_settled).
Lemma demo_then_returns : match demo_then with Some (x, _) => x = RVal (VPromise 3) | None => False end.
Proof. lazy. reflexivity. Qed.
Lemma then_async_witness :
  ∃ h', demo_then = Some (RVal (VPromise 3), h')
    ∧ trace h' = trace demo_settled ∧ ∃ ts, timers h' = timers demo_settled ++ ts.
Proof.
  pose proof demo_then_returns as Hx. destruct demo_then as [[r h']|] eqn:E; [|destruct Hx].
  subst r. exists h'. split; [done|]. 
  apply (then_async demo_user demo_thenable 50 0 (Some (FUser 3)) None None demo_settled
    (RVal (VPromise 3)) h'); [|exact E].
  eapply rtc_r; [exact demo_setup_reachable|]. apply page_after_step. reflexivity.
Defined.

(** Function 1 removes itself while it is being called. *)
Definition demo_list : CB :=
  mkCB (mkFlags false false false false) true (Some (VUndef, [])) true false
    (Some (map (λ n, EFn (FUser n)) [1; 0; 1; 2])) [] 2.
Lemma remove_keeps_position_witness :
  cb_list (cb_remove (FUser 1) demo_list) = [EFn (FUser 0); EFn (FUser 2)] ∧
  drop (Z.to_nat (firingIndex (cb_remove (FUser 1) demo_list) + 1)) (cb_list (cb_remove (FUser 1) demo_list))
    = [EFn (FUser 2)].
Proof.
  destruct (remove_keeps_position (FUser 1) demo_list (map (λ n, EFn (FUser n)) [1; 0; 1; 2]) eq_refl
    ltac:(simpl; lia)) as (H1 & _ & H3).
  split; [reflexivity|]. rewrite H3. reflexivity.
Defined.
End DeferredDemo.
