(* ===== verification/JsString.v ===== *)
(** * Strings of the JavaScript components

    The string functions that the scripts of the documentation site use, on
    ASCII strings: case and character classes, trimming, splitting into words,
    searching, slicing, replacing, and the camel-case conversions of jQuery. *)
From Stdlib Require Import ZArith Lia Ascii String.
From stdpp Require Import base strings list.
From S2P Require Import Prelude.

(** ** Characters *)
Definition code (c : ascii) : nat := Ascii.nat_of_ascii c.
Definition is_upper (c : ascii) : bool := (65 <=? code c) && (code c <=? 90).
Definition is_lower (c : ascii) : bool := (97 <=? code c) && (code c <=? 122).
Definition is_digit (c : ascii) : bool := (48 <=? code c) && (code c <=? 57).
(** [\w] *)
Definition is_word (c : ascii) : bool :=
  is_upper c || is_lower c || is_digit c || (code c =? 95).
(** [\s] *)
Definition is_space (c : ascii) : bool := (code c =? 32) || ((9 <=? code c) && (code c <=? 13)).
(** The class of [rnothtmlwhite]: HTML white space. *)
Definition is_htmlwhite (c : ascii) : bool :=
  (code c =? 32) || (code c =? 9) || (code c =? 13) || (code c =? 10) || (code c =? 12).

Definition chr (n : nat) : ascii := Ascii.ascii_of_nat n.
Definition dash : ascii := "-"%char.

(** ** Functions on strings *)
Fixpoint str_forall (p : ascii → bool) (s : string) : bool :=
  match s with EmptyString => true | String c s' => p c && str_forall p s' end.
Fixpoint str_flat (f : ascii → string) (s : string) : string :=
  match s with EmptyString => EmptyString | String c s' => (f c ++ str_flat f s')%string end.
Fixpoint str_drop (n : nat) (s : string) : string :=
  match n, s with S n', String _ s' => str_drop n' s' | _, _ => s end.
Fixpoint str_take (n : nat) (s : string) : string :=
  match n, s with S n', String c s' => String c (str_take n' s') | _, _ => EmptyString end.
(** [s.slice( i, j )] for indices that are not negative. *)
Definition slice (s : string) (i j : nat) : string := str_take (j - i) (str_drop i s).

(** [s.replace( /[\s]/, … )] style splits: the maximal runs of characters outside
    the class. *)
Fixpoint words_of (sep : ascii → bool) (cur : string) (s : string) : list string :=
  match s with
  | EmptyString => if String.eqb cur "" then [] else [cur]
  | String c s' =>
      if sep c
      then (if String.eqb cur "" then [] else [cur]) ++ words_of sep "" s'
      else words_of sep (cur ++ String c "") s'
  end.
(** [s.match( rnothtmlwhite ) || []] *)
Definition htmlwords (s : string) : list string := words_of is_htmlwhite "" s.

(** [s.trim()] *)
Fixpoint ltrim (s : string) : string :=
  match s with String c s' => if is_space c then ltrim s' else s | EmptyString => s end.
Fixpoint rtrim (s : string) : string :=
  match s with
  | EmptyString => EmptyString
  | String c s' =>
      match rtrim s' with
      | EmptyString => if is_space c then EmptyString else String c EmptyString
      | t => String c t
      end
  end.
Definition trim (s : string) : string := rtrim (ltrim s).

(** [s.indexOf( t, from )] and [s.lastIndexOf( c, from )] (a character). *)
Fixpoint index_from (t s : string) (i : nat) : option nat :=
  if String.prefix t s then Some i
  else match s with EmptyString => None | String _ s' => index_from t s' (S i) end.
Definition indexOf (s t : string) (from : nat) : option nat := index_from t (str_drop from s) from.
Fixpoint last_from (c : ascii) (s : string) (i : nat) (from : nat) (acc : option nat) : option nat :=
  match s with
  | EmptyString => acc
  | String a s' =>
      last_from c s' (S i) from (if Ascii.eqb a c && (i <=? from) then Some i else acc)
  end.
Definition lastIndexOf (s : string) (c : ascii) (from : nat) : option nat := last_from c s 0 from None.

Definition charAt (s : string) (i : nat) : option ascii := String.get i s.
Definition str_length (s : string) : nat := String.length s.
Definition join (sep : string) (l : list string) : string := String.concat sep l.

(** ** camelCase *)
(** [.replace( rdashAlpha, fcamelCase )]: a dash and the lower-case letter after it
    become the upper-case letter. *)
Fixpoint dash_alpha (s : string) : string :=
  match s with
  | EmptyString => EmptyString
  | String a t =>
      if Ascii.eqb a dash
      then match t with
           | String c t' =>
               if is_lower c then String (ascii_upper c) (dash_alpha t') else String a (dash_alpha t)
           | EmptyString => String a EmptyString
           end
      else String a (dash_alpha t)
  end.
(** [.replace( rmsPrefix, "ms-" )] *)
Definition ms_prefix (s : string) : string :=
  if String.prefix "-ms-" s then ("ms-" ++ str_drop 4 s)%string else s.
Definition camelCase (s : string) : string := dash_alpha (ms_prefix s).

(** [key.replace( rmultiDash, "-$&" ).toLowerCase()] of [dataAttr]. *)
Definition dashed (s : string) : string :=
  toLowerCase (str_flat (λ c, if is_upper c then String dash (String c "") else String c "") s).

(** ** Lemmas *)
Lemma str_app_cons c (a b : string) : (String c a ++ b = String c (a ++ b))%string.
Proof. done. Qed.
Lemma str_app_nil_l (a : string) : ("" ++ a = a)%string.
Proof. done. Qed.
Lemma str_app_assoc (a b c : string) : ((a ++ b) ++ c = a ++ (b ++ c))%string.
Proof. induction a as [|x a IH]; [done|]. by rewrite !str_app_cons, IH. Qed.
Lemma str_app_nil_r (a : string) : (a ++ "" = a)%string.
Proof. induction a as [|x a IH]; [done|]. by rewrite !str_app_cons, IH. Qed.
Lemma str_app_length (a b : string) : str_length (a ++ b) = str_length a + str_length b.
Proof.
  unfold str_length. induction a as [|x a IH]; [done|]. rewrite str_app_cons. simpl. by rewrite IH.
Qed.
Lemma str_forall_app p (a b : string) : str_forall p (a ++ b) = str_forall p a && str_forall p b.
Proof. induction a as [|x a IH]; [done|]. rewrite str_app_cons. simpl. by rewrite IH, andb_assoc. Qed.
Lemma str_flat_app f (a b : string) : str_flat f (a ++ b) = (str_flat f a ++ str_flat f b)%string.
Proof. induction a as [|x a IH]; [done|]. rewrite str_app_cons. simpl. by rewrite IH, str_app_assoc. Qed.
Lemma str_drop_drop m n u : str_drop m (str_drop n u) = str_drop (n + m) u.
Proof. revert u. induction n as [|n IH]; intros u; simpl; [done|]. destruct u; [by destruct m|]. apply IH. Qed.
Lemma str_take_drop n s : (str_take n s ++ str_drop n s)%string = s.
Proof. revert s. induction n; intros [|c s]; simpl; try done. by rewrite str_app_cons, IHn. Qed.

(** Facts about one character, by enumeration of the 256 of them. *)
Ltac ascii_cases c := destruct c as [[] [] [] [] [] [] [] []].
Lemma upper_lower c : is_upper c = true → ascii_upper (ascii_lower c) = c ∧ is_lower (ascii_lower c) = true.
Proof. ascii_cases c; vm_compute; intros; split; congruence. Qed.
Lemma lower_not_upper c : is_upper c = false → ascii_lower c = c.
Proof. ascii_cases c; vm_compute; intros; congruence. Qed.

(** The name of a [data-*] attribute turns back into the key it was made from. *)
Lemma dash_alpha_dashed k :
  str_forall (λ c, negb (Ascii.eqb c dash)) k = true → dash_alpha (dashed k) = k.
Proof.
  unfold dashed. induction k as [|c k IH]; simpl; [done|]. intros H.
  apply andb_true_iff in H as [Hc Hk]. specialize (IH Hk).
  destruct (is_upper c) eqn:Hu.
  - destruct (upper_lower c Hu) as [E1 E2]. rewrite !str_app_cons, str_app_nil_l. unfold toLowerCase in *.
    simpl. by rewrite E2, E1, IH.
  - rewrite str_app_cons, str_app_nil_l. unfold toLowerCase in *. simpl.
    rewrite (lower_not_upper c Hu). destruct (Ascii.eqb c dash); [done|]. by rewrite IH.
Qed.
Lemma camelCase_dashed k :
  str_forall (λ c, negb (Ascii.eqb c dash)) k = true →
  String.prefix "-ms-" (dashed k) = false → camelCase (dashed k) = k.
Proof. intros H1 H2. unfold camelCase, ms_prefix. rewrite H2. by apply dash_alpha_dashed. Qed.

(** The key of a [data-*] attribute turns back into the name of the attribute. *)
Lemma lower_upper c : is_lower c = true → ascii_lower (ascii_upper c) = c ∧ is_upper (ascii_upper c) = true.
Proof. ascii_cases c; vm_compute; intros; split; congruence. Qed.
Lemma dash_not_upper c : Ascii.eqb c dash = true → is_upper c = false ∧ is_lower c = false.
Proof. intros H. apply Ascii.eqb_eq in H as ->. done. Qed.

(** Induction that follows [dash_alpha]. *)
Lemma dash_ind (P : string → Prop) :
  P EmptyString →
  (∀ c t, is_lower c = true → P t → P (String dash (String c t))) →
  (∀ a t, (Ascii.eqb a dash = true → match t with String c _ => is_lower c = false | _ => True end) →
     P t → P (String a t)) →
  ∀ s, P s.
Proof.
  intros H0 H1 H2 s. remember (str_length s) as n eqn:Hn. revert s Hn.
  induction n as [n IH] using lt_wf_ind. intros [|a t] ->; [done|].
  destruct (Ascii.eqb a dash) eqn:Ha.
  - destruct t as [|c t']; [apply H2; [done|by eapply (IH 0); [simpl; lia|]]|].
    destruct (is_lower c) eqn:Hc.
    + apply Ascii.eqb_eq in Ha as ->. apply H1; [done|]. eapply IH; [|reflexivity]. simpl. lia.
    + apply H2; [done|]. eapply IH; [|reflexivity]. simpl. lia.
  - apply H2; [by rewrite Ha|]. eapply IH; [|reflexivity]. simpl. lia.
Qed.
Lemma dash_alpha_other a t :
  (Ascii.eqb a dash = true → match t with String c _ => is_lower c = false | _ => True end) →
  dash_alpha (String a t) = String a (dash_alpha t).
Proof.
  intros H. simpl. destruct (Ascii.eqb a dash); [|done]. destruct t as [|c t']; [done|].
  by rewrite H.
Qed.

Definition not_lower_head (s : string) : Prop :=
  match s with String c _ => is_lower c = false | _ => True end.
Lemma upper_not_dash c :
  is_lower c = true → Ascii.eqb (ascii_upper c) dash = false ∧ is_lower (ascii_upper c) = false.
Proof. ascii_cases c; vm_compute; intros; split; congruence. Qed.
Lemma dash_alpha_head s : not_lower_head s → not_lower_head (dash_alpha s).
Proof.
  intros H. destruct s as [|a t]; [done|]. simpl. destruct (Ascii.eqb a dash) eqn:Ha; [|done].
  apply dash_not_upper in Ha as [_ Hl]. destruct t as [|c t']; [done|].
  destruct (is_lower c) eqn:Hc; [by apply upper_not_dash in Hc as [_ ?]|done].
Qed.
Lemma dash_alpha_idem s : dash_alpha (dash_alpha s) = dash_alpha s.
Proof.
  pattern s. apply dash_ind; [done| |].
  - intros c t Hc IH. simpl. rewrite Hc. simpl. destruct (upper_not_dash c Hc) as [-> _]. by f_equal.
  - intros a t Ha IH. rewrite (dash_alpha_other a t Ha), dash_alpha_other; [by rewrite IH|].
    intros E. apply (dash_alpha_head t), Ha, E.
Qed.
Lemma prefix_ms s : String.prefix "-ms-" s = true → ∃ u, s = String dash (String "m"%char u).
Proof.
  destruct s as [|a [|b u]]; cbn [String.prefix]; [done|by destruct (ascii_dec _ a)|].
  destruct (ascii_dec _ a) as [<-|]; [|done]. destruct (ascii_dec _ b) as [<-|]; [|done]. eauto.
Qed.
Lemma dash_alpha_no_ms s : String.prefix "-ms-" (dash_alpha s) = false.
Proof.
  destruct (String.prefix "-ms-" (dash_alpha s)) eqn:H; [|done]. exfalso.
  apply prefix_ms in H as (u & H). destruct s as [|a t]; [done|]. simpl in H.
  destruct (Ascii.eqb a dash) eqn:Ha; [|injection H as -> _; done].
  destruct t as [|c t']; [done|]. destruct (is_lower c) eqn:Hc.
  - injection H as E _. apply upper_not_dash in Hc as [E' _]. by rewrite E in E'.
  - injection H as _ H. pose proof (dash_alpha_head (String c t') Hc) as Hh. simpl in Hh, H.
    rewrite H in Hh. done.
Qed.
Lemma camelCase_idem s : camelCase (camelCase s) = camelCase s.
Proof.
  unfold camelCase at 1, ms_prefix at 1. unfold camelCase. by rewrite dash_alpha_no_ms, dash_alpha_idem.
Qed.

Lemma dashed_dash_alpha s :
  str_forall (λ c, negb (is_upper c)) s = true → dashed (dash_alpha s) = s.
Proof.
  unfold dashed. pattern s. apply dash_ind; [done| |].
  - intros c t Hc IH H. simpl in H. apply andb_true_iff in H as [_ H]. simpl. rewrite Hc. simpl.
    destruct (lower_upper c Hc) as [E1 E2]. rewrite E2, !str_app_cons, str_app_nil_l.
    unfold toLowerCase in *. simpl. by rewrite E1, IH.
  - intros a t Ha IH H. simpl in H. apply andb_true_iff in H as [Hu H].
    rewrite (dash_alpha_other a t Ha). simpl. apply negb_true_iff in Hu.
    rewrite Hu, str_app_cons, str_app_nil_l. unfold toLowerCase in *. simpl.
    by rewrite (lower_not_upper a Hu), IH.
Qed.
Lemma dashed_camelCase s :
  str_forall (λ c, negb (is_upper c)) s = true → String.prefix "-ms-" s = false → dashed (camelCase s) = s.
Proof. intros H1 H2. unfold camelCase, ms_prefix. rewrite H2. by apply dashed_dash_alpha. Qed.

(** ** [s.split( c )] *)
Fixpoint split_on (c : ascii) (s : string) : list string :=
  match s with
  | EmptyString => [EmptyString]
  | String a t =>
      if Ascii.eqb a c then EmptyString :: split_on c t
      else match split_on c t with
           | [] => [String a EmptyString]
           | w :: l => String a w :: l
           end
  end.
(** [c] is not in [s]. *)
Definition lacks (c : ascii) : string → bool := str_forall (λ a, negb (Ascii.eqb a c)).
Lemma split_on_lacks c s : lacks c s = true → split_on c s = [s].
Proof.
  unfold lacks. induction s as [|a t IH]; simpl; [done|]. intros [Ha Ht]%andb_true_iff.
  apply negb_true_iff in Ha. by rewrite Ha, IH.
Qed.
Lemma split_on_first c s t : lacks c s = true → split_on c (s ++ String c t) = s :: split_on c t.
Proof.
  unfold lacks. induction s as [|a s IH]; intros H.
  - rewrite str_app_nil_l. cbn [split_on]. by rewrite Ascii.eqb_refl.
  - simpl in H. apply andb_true_iff in H as [Ha Hs]. apply negb_true_iff in Ha.
    rewrite str_app_cons. cbn [split_on]. by rewrite Ha, IH.
Qed.
Lemma split_on_join c l :
  l ≠ [] → Forall (λ s, lacks c s = true) l → split_on c (join (String c "") l) = l.
Proof.
  intros Hne H. unfold join. induction H as [|s l Hs Hl IH]; [done|].
  destruct l as [|s' l]; [by apply split_on_lacks|].
  assert (E : String.concat (String c "") (s :: s' :: l)
              = (s ++ String c (String.concat (String c "") (s' :: l)))%string) by done.
  rewrite E, split_on_first by done. by rewrite IH.
Qed.

Lemma join_split c s : join (String c "") (split_on c s) = s.
Proof.
  induction s as [|a s IH]; [done|]. cbn [split_on]. destruct (Ascii.eqb a c) eqn:E.
  - apply Ascii.eqb_eq in E as ->. destruct (split_on c s) as [|w l] eqn:Es.
    { exfalso. destruct s as [|b s]; [done|]. cbn [split_on] in Es.
      destruct (Ascii.eqb b c); [done|]. by destruct (split_on c s). }
    rewrite <- IH. unfold join. done.
  - destruct (split_on c s) as [|w l]; [by rewrite <- IH|]. rewrite <- IH. by destruct l.
Qed.
Lemma split_on_cons c s : ∃ w l, split_on c s = w :: l.
Proof.
  destruct s as [|a s]; simpl; [eauto|]. destruct (Ascii.eqb a c); [eauto|].
  destruct (split_on c s); eauto.
Qed.

(** ** Objects used as tables: their properties in the order of insertion *)
Section Assoc.
Context {A : Type}.
Fixpoint assoc (k : string) (l : list (string * A)) : option A :=
  match l with
  | [] => None
  | (k', v) :: l' => if String.eqb k k' then Some v else assoc k l'
  end.
(** [l[ k ] = v] *)
Fixpoint assoc_set (k : string) (v : A) (l : list (string * A)) : list (string * A) :=
  match l with
  | [] => [(k, v)]
  | (k', w) :: l' => if String.eqb k k' then (k, v) :: l' else (k', w) :: assoc_set k v l'
  end.
Lemma assoc_elem k l v : assoc k l = Some v → (k, v) ∈ l.
Proof.
  induction l as [|[k' w] l IH]; simpl; [done|]. destruct (String.eqb_spec k k') as [->|].
  - intros [= ->]. by left.
  - intros H. right. auto.
Qed.
Lemma assoc_in k l v : (k, v) ∈ l → is_Some (assoc k l).
Proof.
  induction l as [|[k' w] l IH]; simpl; [by intros ?%elem_of_nil|].
  destruct (String.eqb_spec k k') as [->|]; [by eauto|]. intros [[= -> ->]|H]%elem_of_cons; [done|auto].
Qed.
Lemma assoc_NoDup k v l : NoDup (map fst l) → (k, v) ∈ l → assoc k l = Some v.
Proof.
  induction l as [|[k' v'] l IH]; [by intros _ ?%elem_of_nil|]. simpl. intros [Hk Hnd]%NoDup_cons.
  intros [[= -> ->]|Hin]%elem_of_cons; [by rewrite String.eqb_refl|].
  destruct (String.eqb_spec k k') as [->|]; [|by apply IH].
  exfalso. apply Hk. change (k' ∈ fst <$> l). apply list_elem_of_fmap. by exists (k', v).
Qed.
Lemma assoc_set_eq k v l : assoc k (assoc_set k v l) = Some v.
Proof.
  induction l as [|[k' w] l IH]; simpl; [by rewrite String.eqb_refl|].
  destruct (String.eqb_spec k k') as [->|]; simpl; [by rewrite String.eqb_refl|].
  destruct (String.eqb_spec k k'); [done|auto].
Qed.
Lemma assoc_set_ne k k' v l : k ≠ k' → assoc k (assoc_set k' v l) = assoc k l.
Proof.
  intros Hne. induction l as [|[x w] l IH]; simpl; [by rewrite (proj2 (String.eqb_neq k k') Hne)|].
  destruct (String.eqb_spec k' x) as [->|]; simpl; [by rewrite (proj2 (String.eqb_neq k x) Hne)|].
  by destruct (String.eqb k x).
Qed.
Lemma map_fst_assoc_set k (v : A) l :
  map fst (assoc_set k v l) = map fst l ++ (match assoc k l with Some _ => [] | None => [k] end).
Proof.
  induction l as [|[k' v'] l IH]; [done|]. simpl. destruct (String.eqb k k') eqn:E; simpl.
  - apply String.eqb_eq in E as ->. by rewrite app_nil_r.
  - by rewrite IH.
Qed.
Lemma assoc_set_set k (v w : A) l : assoc_set k v (assoc_set k w l) = assoc_set k v l.
Proof.
  induction l as [|[k' u] l IH]; simpl; [by rewrite String.eqb_refl|].
  destruct (String.eqb k k') eqn:E; simpl; [by rewrite String.eqb_refl|]. by rewrite E, IH.
Qed.
Lemma assoc_set_id k (v : A) l : assoc k l = Some v → assoc_set k v l = l.
Proof.
  induction l as [|[k' w] l IH]; [done|]. simpl. destruct (String.eqb k k') eqn:E.
  - apply String.eqb_eq in E as ->. by intros [= ->].
  - intros H. by rewrite IH.
Qed.
Lemma assoc_set_elem k v l p : p ∈ assoc_set k v l → p = (k, v) ∨ p ∈ l.
Proof.
  induction l as [|[x w] l IH]; simpl.
  - intros ?%list_elem_of_singleton. by left.
  - destruct (String.eqb k x); intros [->|H]%elem_of_cons; [by left|by right; right|by right; left|].
    destruct (IH H); [by left|by right; right].
Qed.
Lemma Forall_assoc_set (P : string * A → Prop) k v l :
  P (k, v) → Forall P l → Forall P (assoc_set k v l).
Proof.
  intros H1 H2. apply Forall_forall. intros p [->|H]%assoc_set_elem; [done|].
  by eapply Forall_forall in H2.
Qed.
End Assoc.
