(* ===== verification/Algorithms.v ===== *)
(** * Algorithm registries

    Model of sigval-commons/.../algorithms: the digest algorithms ([DigestAlgorithm.java])
    with their registry ([DigestAlgorithmRegistry.java]) and the registry of the JWS
    algorithms ([JWSAlgorithmRegistry.java]).  The URIs and the object identifiers are
    constants of other libraries and parameters of the model; a registry is its HashMap,
    whose order of iteration is a parameter. *)
From Stdlib Require Import ZArith Lia Ascii String.
From stdpp Require Import base gmap strings list.
From S2P Require Import Prelude.

Abbreviation ASN1ObjectIdentifier := string (only parsing).
Definition NoSuchAlgorithmException (m : string) : exn := SecurityException m.

(** ** [DigestAlgorithm] *)
(** The digests that xmlsec and BouncyCastle name. *)
Inductive Digest := SHA1 | SHA224 | SHA256 | SHA384 | SHA512 | SHA3_224 | SHA3_256 | SHA3_384 | SHA3_512.
#[export] Instance Digest_eq_dec : EqDecision Digest.
Proof. solve_decision. Defined.
Record DigestAlgorithm := mkDigestAlgorithm { uri : string; oid : ASN1ObjectIdentifier }.
#[export] Instance DigestAlgorithm_eq_dec : EqDecision DigestAlgorithm.
Proof. solve_decision. Defined.

Abbreviation DigestRegistry := (gmap string DigestAlgorithm) (only parsing).
Section Registries.
(** MessageDigestAlgorithm.ALGO_ID_DIGEST_x and the object identifier of x. *)
Context (ALGO_ID_DIGEST : Digest → string) (id_digest : Digest → ASN1ObjectIdentifier).
(** The constants [ID_x] of DigestAlgorithm. *)
Definition ID (d : Digest) : string :=
  match d with
  | SHA384 => ALGO_ID_DIGEST SHA3_384
  | _ => ALGO_ID_DIGEST d
  end.
Definition OID (d : Digest) : ASN1ObjectIdentifier := id_digest d.

(** ** [DigestAlgorithmRegistry] *)
Definition registerDigestAlgorithm (u : string) (o : ASN1ObjectIdentifier) (digestAlgorithmMap : DigestRegistry) :
    bool * DigestRegistry :=
  match digestAlgorithmMap !! u with
  | Some _ => (false, digestAlgorithmMap)
  | None => (true, <[u := mkDigestAlgorithm u o]> digestAlgorithmMap)
  end.
(** The order in which the static initializer registers. *)
Definition registered : list Digest := [SHA1; SHA224; SHA256; SHA384; SHA512; SHA3_224; SHA3_256; SHA3_384; SHA3_512].
Definition digestAlgorithmMap : DigestRegistry :=
  fold_left (λ m d, snd (registerDigestAlgorithm (ID d) (OID d) m)) registered ∅.
(** [get(String)]; a null argument is refused like an unknown one. *)
Definition getDigest (m : DigestRegistry) (u : option string) : outcome DigestAlgorithm :=
  match u with
  | None => Throw (NoSuchAlgorithmException "Null digest algorithm")
  | Some u =>
      match m !! u with
      | Some d => Ret d
      | None => Throw (NoSuchAlgorithmException ("Digest algorithm " ++ u ++ " is not registered"))
      end
  end.
(** [get(ASN1ObjectIdentifier)]: the first algorithm with the identifier, in the order of the
    key set. *)
Context (keySet : ∀ A, gmap string A → list string).
Definition getDigest_oid (m : DigestRegistry) (o : option ASN1ObjectIdentifier) : outcome DigestAlgorithm :=
  match o with
  | None => Throw (NoSuchAlgorithmException "Null digest algorithm")
  | Some o =>
      match List.find (λ d, String.eqb (oid d) o) (omap (m !!.) (keySet _ m)) with
      | Some d => Ret d
      | None => Throw (NoSuchAlgorithmException ("Digest algorithm " ++ o ++ " is not registered"))
      end
  end.

(** ** [JWSAlgorithmRegistry] *)
Inductive JWSAlgorithm := RS256 | RS384 | RS512 | ES256 | ES384 | ES512 | OtherJWS (name : string).
#[export] Instance JWSAlgorithm_eq_dec : EqDecision JWSAlgorithm.
Proof. solve_decision. Defined.
Definition jws_name (a : JWSAlgorithm) : string :=
  match a with
  | RS256 => "RS256" | RS384 => "RS384" | RS512 => "RS512" | ES256 => "ES256" | ES384 => "ES384" | ES512 => "ES512"
  | OtherJWS name => name
  end.
(** XMLSignature.ALGO_ID_SIGNATURE_x *)
Context (ALGO_ID_SIGNATURE : JWSAlgorithm → string).
Abbreviation JWSRegistry := (gmap string JWSAlgorithm) (only parsing).
Definition register (u : string) (a : JWSAlgorithm) (jwsAlgorithmMap : JWSRegistry) : bool * JWSRegistry :=
  match jwsAlgorithmMap !! u with
  | Some _ => (false, jwsAlgorithmMap)
  | None => (true, <[u := a]> jwsAlgorithmMap)
  end.
Definition jwsAlgorithmMap : JWSRegistry :=
  fold_left (λ m a, snd (register (ALGO_ID_SIGNATURE a) a m)) [RS256; RS384; RS512; ES256; ES384; ES512] ∅.
Definition getUri (m : JWSRegistry) (a : option JWSAlgorithm) : outcome string :=
  match a with
  | None => Throw (NoSuchAlgorithmException "Null algorithm")
  | Some a =>
      match List.find (λ u, bool_decide (m !! u = Some a)) (keySet _ m) with
      | Some u => Ret u
      | None => Throw (NoSuchAlgorithmException ("Not found JWS Algorithm: " ++ jws_name a))
      end
  end.
Definition getJWS (m : JWSRegistry) (u : option string) : outcome JWSAlgorithm :=
  match u with
  | None => Throw (NoSuchAlgorithmException "Null algorithm")
  | Some u =>
      match m !! u with
      | Some a => Ret a
      | None => Throw (NoSuchAlgorithmException ("Not found JWS Algorithm for " ++ u))
      end
  end.
End Registries.

(** ** Lookups *)
Section Lookups.
Context (ALGO_ID_DIGEST : Digest → string) (id_digest : Digest → ASN1ObjectIdentifier).
Context (keySet : ∀ A, gmap string A → list string).
Notation registry := (digestAlgorithmMap ALGO_ID_DIGEST id_digest).
(** Each algorithm is stored under its URI. *)
Definition registry_wf (m : DigestRegistry) : Prop := map_Forall (λ u d, uri d = u) m.
Lemma register_wf u o m : registry_wf m → registry_wf (snd (registerDigestAlgorithm u o m)).
Proof. intros H. unfold registerDigestAlgorithm. destruct (m !! u) eqn:E; [done|]. simpl. by apply map_Forall_insert_2. Qed.
(** A registration never replaces another. *)
Lemma register_lookup u o m v :
  snd (registerDigestAlgorithm u o m) !! v
  = match m !! v with Some d => Some d | None => if decide (u = v) then Some (mkDigestAlgorithm u o) else None end.
Proof.
  unfold registerDigestAlgorithm. destruct (m !! u) eqn:E; simpl.
  - destruct (m !! v) eqn:Ev; [done|]. by rewrite decide_False by congruence.
  - destruct (decide (u = v)) as [->|Hne]; [by rewrite lookup_insert_eq, E|rewrite lookup_insert_ne by done]. by destruct (m !! v).
Qed.
Definition registrations (l : list Digest) (m : DigestRegistry) : DigestRegistry :=
  fold_left (λ m d, snd (registerDigestAlgorithm (ID ALGO_ID_DIGEST d) (OID id_digest d) m)) l m.
Lemma registrations_lookup l m v :
  registrations l m !! v =
  match m !! v with
  | Some d => Some d
  | None => (λ d, mkDigestAlgorithm v (OID id_digest d)) <$> List.find (λ d, String.eqb (ID ALGO_ID_DIGEST d) v) l
  end.
Proof.
  unfold registrations. revert m. induction l as [|d l IH]; intros m; simpl; [by destruct (m !! v)|]. rewrite IH, register_lookup.
  destruct (m !! v); [done|]. destruct (decide _) as [->|Hne]; [by rewrite String.eqb_refl|].
  by rewrite (proj2 (String.eqb_neq _ _) Hne).
Qed.
Lemma registry_lookup v :
  registry !! v = (λ d, mkDigestAlgorithm v (OID id_digest d)) <$> List.find (λ d, String.eqb (ID ALGO_ID_DIGEST d) v) registered.
Proof. unfold digestAlgorithmMap. change (registrations registered ∅ !! v = (λ d, mkDigestAlgorithm v (OID id_digest d)) <$> List.find (λ d, String.eqb (ID ALGO_ID_DIGEST d) v) registered). by rewrite registrations_lookup, lookup_empty. Qed.
(** The URIs of the two SHA-384 digests are the only ones that are mixed up. *)
Definition plain (d : Digest) : bool := negb (bool_decide (d = SHA384 ∨ d = SHA3_384)).
Context `{!Inj (=) (=) ALGO_ID_DIGEST} `{!Inj (=) (=) id_digest}.
Lemma find_id d l :
  List.find (λ x, String.eqb (ID ALGO_ID_DIGEST x) (ALGO_ID_DIGEST d)) l
  = List.find (λ x, bool_decide (match x with SHA384 => SHA3_384 | _ => x end = d)) l.
Proof.
  induction l as [|x l IH]; simpl; [done|]. rewrite <- IH.
  replace (String.eqb (ID ALGO_ID_DIGEST x) (ALGO_ID_DIGEST d))
    with (bool_decide (match x with SHA384 => SHA3_384 | _ => x end = d)); [done|].
  apply eq_bool_prop_intro. rewrite bool_decide_spec, Is_true_true, String.eqb_eq.
  split; [intros <-; by destruct x|]. intros H. apply (inj ALGO_ID_DIGEST). by destruct x.
Qed.
Lemma registry_digest d :
  registry !! (ALGO_ID_DIGEST d) =
  match d with
  | SHA384 => None
  | SHA3_384 => Some (mkDigestAlgorithm (ALGO_ID_DIGEST d) (id_digest SHA384))
  | _ => Some (mkDigestAlgorithm (ALGO_ID_DIGEST d) (id_digest d))
  end.
Proof. rewrite registry_lookup, find_id. by destruct d. Qed.
(** What the registry holds. *)
Lemma registry_value u d : registry !! u = Some d →
  ∃ x, u = ID ALGO_ID_DIGEST x ∧ x ≠ SHA3_384 ∧ d = mkDigestAlgorithm u (id_digest x).
Proof.
  rewrite registry_lookup. intros (x & H & ->)%fmap_Some.
  assert (Hx : x ≠ SHA3_384).
  { intros ->. pose proof H as [_ E%String.eqb_eq]%List.find_some. subst u.
    change (ID ALGO_ID_DIGEST SHA3_384) with (ALGO_ID_DIGEST SHA3_384) in H. rewrite find_id in H. done. }
  apply List.find_some in H as [_ <-%String.eqb_eq]. exists x. auto.
Qed.
Context (keySet_elem : ∀ A (m : gmap string A) u, u ∈ keySet A m ↔ is_Some (m !! u)).
Lemma getDigest_oid_spec x d :
  getDigest_oid keySet registry (Some (id_digest x)) = Ret d ↔ x ≠ SHA3_384 ∧ d = mkDigestAlgorithm (ID ALGO_ID_DIGEST x) (id_digest x).
Proof.
  unfold getDigest_oid. destruct (List.find _ _) as [d'|] eqn:Hf.
  - apply List.find_some in Hf as [Hin Ho%String.eqb_eq]. apply list_elem_of_In, list_elem_of_omap in Hin as (u & _ & Hu).
    apply registry_value in Hu as (y & -> & Hy & ->). simpl in Ho. apply (inj id_digest) in Ho as ->.
    split; [by intros [= <-]|by intros [_ ->]].
  - split; [done|]. intros [Hx ->]. exfalso.
    set (u := ID ALGO_ID_DIGEST x). assert (Hu : registry !! u = Some (mkDigestAlgorithm u (id_digest x))).
    { unfold u. destruct x; try done; simpl; by rewrite registry_digest. }
    assert (Hin : In (mkDigestAlgorithm u (id_digest x)) (omap (registry !!.) (keySet _ registry))).
    { apply list_elem_of_In, list_elem_of_omap. exists u. split; [|done]. apply keySet_elem. eauto. }
    eapply List.find_none in Hf; [|exact Hin]. simpl in Hf. by rewrite String.eqb_refl in Hf.
Qed.
(** The digest algorithms that the registry finds.  Every digest but the two of 384 bits
    is found under its URI and under its object identifier as itself; the URI of SHA3-384
    is that of an entry with the object identifier of SHA-384, and neither the URI of
    SHA-384 nor the object identifier of SHA3-384 is found. *)
Theorem digest_registry_lookup d :
  (plain d = true →
     getDigest registry (Some (ALGO_ID_DIGEST d)) = Ret (mkDigestAlgorithm (ALGO_ID_DIGEST d) (id_digest d)) ∧
     getDigest_oid keySet registry (Some (id_digest d)) = Ret (mkDigestAlgorithm (ALGO_ID_DIGEST d) (id_digest d))) ∧
  getDigest registry (Some (ALGO_ID_DIGEST SHA3_384)) = Ret (mkDigestAlgorithm (ALGO_ID_DIGEST SHA3_384) (id_digest SHA384)) ∧
  getDigest_oid keySet registry (Some (id_digest SHA384)) = Ret (mkDigestAlgorithm (ALGO_ID_DIGEST SHA3_384) (id_digest SHA384)) ∧
  is_Ret (getDigest registry (Some (ALGO_ID_DIGEST SHA384))) = false ∧
  is_Ret (getDigest_oid keySet registry (Some (id_digest SHA3_384))) = false.
Proof.
  unfold getDigest. rewrite !registry_digest. repeat split.
  - by destruct d.
  - apply getDigest_oid_spec. by destruct d.
  - by apply (getDigest_oid_spec SHA384).
  - destruct (getDigest_oid _ _ _) as [x|] eqn:E; [|done]. by apply getDigest_oid_spec in E as [].
Qed.
End Lookups.

(** The URIs and object identifiers of the specifications. *)
Definition demo_digest_uri (d : Digest) : string :=
  match d with
  | SHA1 => "http://www.w3.org/2000/09/xmldsig#sha1"
  | SHA224 => "http://www.w3.org/2001/04/xmldsig-more#sha224"
  | SHA256 => "http://www.w3.org/2001/04/xmlenc#sha256"
  | SHA384 => "http://www.w3.org/2001/04/xmldsig-more#sha384"
  | SHA512 => "http://www.w3.org/2001/04/xmlenc#sha512"
  | SHA3_224 => "http://www.w3.org/2007/05/xmldsig-more#sha3-224"
  | SHA3_256 => "http://www.w3.org/2007/05/xmldsig-more#sha3-256"
  | SHA3_384 => "http://www.w3.org/2007/05/xmldsig-more#sha3-384"
  | SHA3_512 => "http://www.w3.org/2007/05/xmldsig-more#sha3-512"
  end.
Definition demo_digest_oid (d : Digest) : ASN1ObjectIdentifier :=
  match d with
  | SHA1 => "1.3.14.3.2.26"
  | SHA224 => "2.16.840.1.101.3.4.2.4" | SHA256 => "2.16.840.1.101.3.4.2.1"
  | SHA384 => "2.16.840.1.101.3.4.2.2" | SHA512 => "2.16.840.1.101.3.4.2.3"
  | SHA3_224 => "2.16.840.1.101.3.4.2.7" | SHA3_256 => "2.16.840.1.101.3.4.2.8"
  | SHA3_384 => "2.16.840.1.101.3.4.2.9" | SHA3_512 => "2.16.840.1.101.3.4.2.10"
  end.
#[export] Instance demo_digest_uri_inj : Inj (=) (=) demo_digest_uri.
Proof. intros [] []; (done || discriminate). Qed.
#[export] Instance demo_digest_oid_inj : Inj (=) (=) demo_digest_oid.
Proof. intros [] []; (done || discriminate). Qed.
Definition map_keys (A : Type) (m : gmap string A) : list string := (map_to_list m).*1.
Lemma map_keys_elem A (m : gmap string A) u : u ∈ map_keys A m ↔ is_Some (m !! u).
Proof.
  unfold map_keys. rewrite list_elem_of_fmap. split.
  - intros ([v a] & -> & H%elem_of_map_to_list). eauto.
  - intros [a H]. exists (u, a). by rewrite elem_of_map_to_list.
Qed.
Lemma digest_registry_lookup_witness :
  getDigest (digestAlgorithmMap demo_digest_uri demo_digest_oid) (Some (demo_digest_uri SHA3_384))
  = Ret (mkDigestAlgorithm (demo_digest_uri SHA3_384) "2.16.840.1.101.3.4.2.2").
Proof.
  exact (proj1 (proj2 (digest_registry_lookup demo_digest_uri demo_digest_oid map_keys map_keys_elem SHA256))).
Defined.
