(* ===== verification/NamedCurves.v ===== *)
(** * Named curves and public key parameters

    Model of [NamedCurveRegistry.java] and [PublicKeyType.java] (sigval-commons/.../algorithms)
    and of [GeneralCMSUtils.getPkParams], which describes a public key by them.  The object
    identifiers of the curves and the decoding of a key are those of other libraries and
    parameters; the registry is its HashMap, whose order of iteration is a parameter. *)
From Stdlib Require Import ZArith Lia Ascii String.
From stdpp Require Import base gmap strings list.
From S2P Require Import Prelude Algorithms.

(** ** [NamedCurve], [NamedCurveRegistry] *)
Record NamedCurve := mkNamedCurve { curve_oid : ASN1ObjectIdentifier; keyLen : Z }.
#[export] Instance NamedCurve_eq_dec : EqDecision NamedCurve.
Proof. solve_decision. Defined.
Abbreviation CurveRegistry := (gmap string NamedCurve) (only parsing).

Inductive DefaultCurve :=
  | NIST_P_192 | NIST_P_224 | NIST_P_256 | NIST_P_384 | NIST_P_521
  | brainpoolP160r1 | brainpoolP192r1 | brainpoolP224r1 | brainpoolP256r1 | brainpoolP320r1
  | brainpoolP384r1 | brainpoolP512r1.
#[export] Instance DefaultCurve_eq_dec : EqDecision DefaultCurve.
Proof. solve_decision. Defined.
Definition default_keyLen (c : DefaultCurve) : Z :=
  match c with
  | NIST_P_192 => 192 | NIST_P_224 => 224 | NIST_P_256 => 256 | NIST_P_384 => 384 | NIST_P_521 => 521
  | brainpoolP160r1 => 160 | brainpoolP192r1 => 192 | brainpoolP224r1 => 224 | brainpoolP256r1 => 256
  | brainpoolP320r1 => 320 | brainpoolP384r1 => 384 | brainpoolP512r1 => 512
  end.

(** [registerCurve(oid, keyLen)] *)
Definition registerCurve (oid : ASN1ObjectIdentifier) (keyLen : Z) (namedCurveMap : CurveRegistry) : bool * CurveRegistry :=
  match namedCurveMap !! oid with
  | Some _ => (false, namedCurveMap)
  | None => (true, <[oid := mkNamedCurve oid keyLen]> namedCurveMap)
  end.

Section Curves.
(** The constants of SECObjectIdentifiers and TeleTrusTObjectIdentifiers. *)
Context (default_oid : DefaultCurve → ASN1ObjectIdentifier).
(** [registerCurve(DefaultCurve)] *)
Definition registerDefault (curve : DefaultCurve) (m : CurveRegistry) : bool * CurveRegistry :=
  registerCurve (default_oid curve) (default_keyLen curve) m.
(** The order in which the static initializer registers. *)
Definition default_curves : list DefaultCurve :=
  [NIST_P_192; NIST_P_224; NIST_P_256; NIST_P_384; NIST_P_521;
   brainpoolP160r1; brainpoolP192r1; brainpoolP224r1; brainpoolP256r1; brainpoolP320r1;
   brainpoolP384r1; brainpoolP512r1].
Definition namedCurveMap : CurveRegistry :=
  fold_left (λ m c, snd (registerDefault c m)) default_curves ∅.
End Curves.

Section Get.
Context (keySet : ∀ A, gmap string A → list string).
(** [get(ASN1ObjectIdentifier)] *)
Definition getCurve (m : CurveRegistry) (oid : option ASN1ObjectIdentifier) : outcome NamedCurve :=
  match oid with
  | None => Throw (NoSuchAlgorithmException "Null curve oid")
  | Some oid =>
      match findFirst (λ c, String.eqb (curve_oid c) oid) (omap (m !!.) (keySet _ m)) with
      | Some c => Ret c
      | None => Throw (NoSuchAlgorithmException ("EC Curve with oid " ++ oid ++ " is not registered"))
      end
  end.
End Get.
#[global] Arguments getCurve : simpl never.

(** ** [PublicKeyType] *)
Inductive PublicKeyType := EC | RSA | Unknown.
#[export] Instance PublicKeyType_eq_dec : EqDecision PublicKeyType.
Proof. solve_decision. Defined.
Definition ID_ECDSA : string := "1.2.840.10045.2.1".
Definition ID_RSA : string := "1.2.840.113549.1.1.1".
(** [getObjectId]; null for [Unknown]. *)
Definition getObjectId (t : PublicKeyType) : option string :=
  match t with EC => Some ID_ECDSA | RSA => Some ID_RSA | Unknown => None end.
Definition values : list PublicKeyType := [EC; RSA; Unknown].
Fixpoint type_loop (l : list PublicKeyType) (oid : option string) : outcome PublicKeyType :=
  match l with
  | [] => Ret Unknown
  | pkType :: l =>
      match getObjectId pkType with
      | None => Throw NullPointerException
      | Some i => if match oid with Some o => equalsIgnoreCase i o | None => false end then Ret pkType else type_loop l oid
      end
  end.
Definition getTypeFromOid (oid : option string) : outcome PublicKeyType := type_loop values oid.

(** ** [GeneralCMSUtils.getPkParams] *)
Record PubKeyParams := mkPubKeyParams {
  pkType : PublicKeyType;
  namedEcCurve : option NamedCurve;
  keyLength : Z
}.
(** The algorithm identifier of an encoded key; [parameters] is its parameter read as an
    object identifier: null when there is none, an exception when it is something else. *)
Record AlgorithmIdentifier := mkAlgorithmIdentifier {
  algorithm : ASN1ObjectIdentifier;
  parameters : outcome (option ASN1ObjectIdentifier)
}.
(** A key: the algorithm identifier that its encoding decodes to, and its modulus when it is
    an RSAPublicKey. *)
Record PublicKey := mkPublicKey {
  algorithmIdentifier : outcome AlgorithmIdentifier;
  modulus : option Z
}.
(** [BigInteger.bitLength] *)
Definition bitLength (n : Z) : Z :=
  let m := (if n <? 0 then - n - 1 else n)%Z in
  (if m =? 0 then 0 else Z.log2 m + 1)%Z.
Section Params.
Context (keySet : ∀ A, gmap string A → list string) (m : CurveRegistry).
Definition readPkParams (pubKey : PublicKey) : outcome (option PubKeyParams) :=
  algoId ← algorithmIdentifier pubKey;
  t ← getTypeFromOid (Some (algorithm algoId));
  match t with
  | EC =>
      curveOid ← parameters algoId;
      curve ← getCurve keySet m curveOid;
      Ret (Some (mkPubKeyParams EC (Some curve) (keyLen curve)))
  | RSA =>
      match modulus pubKey with
      | Some n => Ret (Some (mkPubKeyParams RSA None (bitLength n)))
      | None => Throw (RuntimeException "ClassCastException")
      end
  | Unknown => Ret None
  end.
(** Every exception is logged and answered with null. *)
Definition getPkParams (pubKey : PublicKey) : option PubKeyParams :=
  match readPkParams pubKey with Ret r => r | Throw _ => None end.
End Params.

(** ** Curves *)
Definition curves_wf (m : CurveRegistry) : Prop := map_Forall (λ o c, curve_oid c = o) m.
Lemma registerCurve_wf o n m : curves_wf m → curves_wf (snd (registerCurve o n m)).
Proof. intros H. unfold registerCurve. destruct (m !! o) eqn:E; [done|]. simpl. by apply map_Forall_insert_2. Qed.
(** A registration never replaces a curve, and answers whether it added one. *)
Lemma registerCurve_lookup o n m o' :
  snd (registerCurve o n m) !! o'
  = match m !! o' with Some c => Some c | None => if decide (o = o') then Some (mkNamedCurve o n) else None end.
Proof.
  unfold registerCurve. destruct (m !! o) eqn:E; simpl.
  - destruct (m !! o') eqn:E'; [done|]. by rewrite decide_False by congruence.
  - destruct (decide (o = o')) as [->|Hne]; [by rewrite lookup_insert_eq, E|rewrite lookup_insert_ne by done]. by destruct (m !! o').
Qed.
Lemma registerCurve_fresh o n m : fst (registerCurve o n m) = true ↔ m !! o = None.
Proof. unfold registerCurve. by destruct (m !! o). Qed.

Section Facts.
Context (keySet : ∀ A, gmap string A → list string).
Context (keySet_elem : ∀ A (m : gmap string A) u, u ∈ keySet A m ↔ is_Some (m !! u)).
Context (default_oid : DefaultCurve → ASN1ObjectIdentifier).
(** In a well-formed registry the search over the key set is the lookup of the key. *)
Lemma findCurve_lookup m o : curves_wf m →
  findFirst (λ c, String.eqb (curve_oid c) o) (omap (m !!.) (keySet _ m)) = m !! o.
Proof.
  intros Hwf. destruct (findFirst _ _) as [c|] eqn:Hf.
  - apply findFirst_Some in Hf as [Ho%String.eqb_eq (u & _ & Hu)%list_elem_of_omap].
    pose proof (Hwf _ _ Hu) as E. simpl in E. by rewrite <- Ho, E.
  - destruct (m !! o) as [c|] eqn:Hm; [|done]. exfalso.
    assert (Hin : In c (omap (m !!.) (keySet _ m))).
    { apply list_elem_of_In, list_elem_of_omap. exists o. split; [|done]. apply keySet_elem. eauto. }
    eapply List.find_none in Hf; [|exact Hin]. simpl in Hf. pose proof (Hwf _ _ Hm) as E. simpl in E.
    by rewrite E, String.eqb_refl in Hf.
Qed.
Lemma getCurve_eq m o : curves_wf m →
  getCurve keySet m (Some o) =
  match m !! o with
  | Some c => Ret c
  | None => Throw (NoSuchAlgorithmException ("EC Curve with oid " ++ o ++ " is not registered"))
  end.
Proof. intros Hwf. unfold getCurve. by rewrite findCurve_lookup. Qed.
Lemma getCurve_Ret m o c : curves_wf m → getCurve keySet m (Some o) = Ret c ↔ m !! o = Some c.
Proof. intros Hwf. rewrite getCurve_eq by done. destruct (m !! o); split; congruence. Qed.

Definition register_all (l : list DefaultCurve) (m : CurveRegistry) : CurveRegistry :=
  fold_left (λ m c, snd (registerDefault default_oid c m)) l m.
Lemma register_all_wf l m : curves_wf m → curves_wf (register_all l m).
Proof. revert m. induction l as [|c l IH]; intros m H; [done|]. by apply IH, registerCurve_wf. Qed.
Lemma namedCurveMap_wf : curves_wf (namedCurveMap default_oid).
Proof. apply (register_all_wf default_curves). apply map_Forall_empty. Qed.
Lemma register_all_lookup l m o :
  register_all l m !! o =
  match m !! o with
  | Some c => Some c
  | None => (λ d, mkNamedCurve o (default_keyLen d)) <$> List.find (λ d, String.eqb (default_oid d) o) l
  end.
Proof.
  unfold register_all. revert m. induction l as [|d l IH]; intros m; simpl; [by destruct (m !! o)|].
  rewrite IH. unfold registerDefault. rewrite registerCurve_lookup. destruct (m !! o); [done|].
  destruct (decide _) as [->|Hne]; [by rewrite String.eqb_refl|]. by rewrite (proj2 (String.eqb_neq _ _) Hne).
Qed.

(** A registration is found and leaves the other curves as they were. *)
Theorem curve_register_get m o n o' : curves_wf m →
  getCurve keySet (snd (registerCurve o n m)) (Some o')
  = if fst (registerCurve o n m) && bool_decide (o = o') then Ret (mkNamedCurve o n) else getCurve keySet m (Some o').
Proof.
  intros H. unfold getCurve. rewrite !findCurve_lookup, registerCurve_lookup by auto using registerCurve_wf.
  unfold registerCurve. case_bool_decide as Hd; [subst o'; rewrite decide_True by done|rewrite decide_False by done].
  - by destruct (m !! o).
  - rewrite andb_false_r. by destruct (m !! o').
Qed.

(** The default registry holds each of the twelve curves with its own key length, and
    nothing else. *)
Context `{!Inj (=) (=) default_oid}.
Theorem default_curves_found o c :
  getCurve keySet (namedCurveMap default_oid) (Some o) = Ret c ↔
  ∃ d, o = default_oid d ∧ c = mkNamedCurve (default_oid d) (default_keyLen d).
Proof.
  rewrite getCurve_Ret by apply namedCurveMap_wf.
  change (namedCurveMap default_oid) with (register_all default_curves ∅). rewrite register_all_lookup, lookup_empty.
  split.
  - intros (d & [_ <-%String.eqb_eq]%List.find_some & ->)%fmap_Some. eauto.
  - intros (d & -> & ->). destruct (List.find _ _) as [d'|] eqn:Hf; simpl.
    + apply List.find_some in Hf as [_ H%String.eqb_eq]. by apply (inj default_oid) in H as ->.
    + eapply (List.find_none _ _) in Hf; [by rewrite String.eqb_refl in Hf|]. destruct d; simpl; tauto.
Qed.

(** ** Types of keys *)
Lemma getTypeFromOid_EC o : getTypeFromOid (Some o) = Ret EC ↔ equalsIgnoreCase ID_ECDSA o = true.
Proof. unfold getTypeFromOid, values. cbn [type_loop getObjectId]. by repeat case_match. Qed.
(** An object identifier that names neither type is not [Unknown] but a
    NullPointerException: the loop compares it with the identifier of [Unknown], which is
    null. *)
Theorem unknown_key_type_throws (o : option string) :
  getTypeFromOid o ≠ Ret Unknown ∧
  (getTypeFromOid o = Throw NullPointerException ↔
   from_option (λ o, equalsIgnoreCase ID_ECDSA o = false ∧ equalsIgnoreCase ID_RSA o = false) True o).
Proof.
  unfold getTypeFromOid, values. cbn [type_loop getObjectId]. destruct o as [o|]; simpl; [|done].
  destruct (equalsIgnoreCase ID_ECDSA o), (equalsIgnoreCase ID_RSA o); naive_solver.
Qed.

(** ** Parameters of keys *)
Definition params_case (m : CurveRegistry) (pubKey : PublicKey) (p : PubKeyParams) (algoId : AlgorithmIdentifier) : Prop :=
  (equalsIgnoreCase ID_ECDSA (algorithm algoId) = true ∧
   ∃ o c, parameters algoId = Ret (Some o) ∧ m !! o = Some c ∧ p = mkPubKeyParams EC (Some c) (keyLen c)) ∨
  (equalsIgnoreCase ID_ECDSA (algorithm algoId) = false ∧ equalsIgnoreCase ID_RSA (algorithm algoId) = true ∧
   ∃ n, modulus pubKey = Some n ∧ p = mkPubKeyParams RSA None (bitLength n)).
(** The parameters of a key: those of an EC key are its registered curve and the length of
    that curve, those of an RSA key the bits of its modulus; any other key has none. *)
Theorem pk_params_spec m pubKey p : curves_wf m →
  getPkParams keySet m pubKey = Some p ↔
  ∃ algoId, algorithmIdentifier pubKey = Ret algoId ∧ params_case m pubKey p algoId.
Proof.
  intros Hwf. unfold getPkParams, readPkParams. destruct (algorithmIdentifier pubKey) as [a|]; simpl.
  2:{ split; [done|]. by intros (? & ? & _). }
  transitivity (params_case m pubKey p a); [|split; [by exists a|by intros (? & [= <-] & H)]].
  unfold params_case, getTypeFromOid, values. cbn [type_loop getObjectId].
  destruct (equalsIgnoreCase ID_ECDSA _); [|destruct (equalsIgnoreCase ID_RSA _), (modulus pubKey); naive_solver]. simpl.
  destruct (parameters a) as [[o|]|]; simpl; [|naive_solver..].
  rewrite getCurve_eq by done. destruct (m !! o) eqn:Em; simpl; naive_solver.
Qed.
End Facts.

(** A modulus has the bits that [bitLength] counts. *)
Lemma bitLength_bounds n k : (0 < n)%Z → (2 ^ (k - 1) <= n < 2 ^ k)%Z → (0 < k)%Z → bitLength n = k.
Proof.
  intros Hn Hb Hk. unfold bitLength. rewrite (proj2 (Z.ltb_ge n 0)) by lia.
  rewrite (proj2 (Z.eqb_neq n 0)) by lia. rewrite (Z.log2_unique n (k - 1)); [lia|lia|].
  by replace (Z.succ (k - 1)) with k by lia.
Qed.

(** The object identifiers of the standards. *)
Definition demo_curve_oid (c : DefaultCurve) : ASN1ObjectIdentifier :=
  match c with
  | NIST_P_192 => "1.2.840.10045.3.1.1" | NIST_P_224 => "1.3.132.0.33" | NIST_P_256 => "1.2.840.10045.3.1.7"
  | NIST_P_384 => "1.3.132.0.34" | NIST_P_521 => "1.3.132.0.35"
  | brainpoolP160r1 => "1.3.36.3.3.2.8.1.1.1" | brainpoolP192r1 => "1.3.36.3.3.2.8.1.1.3"
  | brainpoolP224r1 => "1.3.36.3.3.2.8.1.1.5" | brainpoolP256r1 => "1.3.36.3.3.2.8.1.1.7"
  | brainpoolP320r1 => "1.3.36.3.3.2.8.1.1.9" | brainpoolP384r1 => "1.3.36.3.3.2.8.1.1.11"
  | brainpoolP512r1 => "1.3.36.3.3.2.8.1.1.13"
  end.
#[export] Instance demo_curve_oid_inj : Inj (=) (=) demo_curve_oid.
Proof. intros [] []; (done || discriminate). Qed.
Lemma default_curves_found_witness :
  getCurve map_keys (namedCurveMap demo_curve_oid) (Some "1.3.132.0.34") = Ret (mkNamedCurve "1.3.132.0.34" 384).
Proof. apply (default_curves_found map_keys map_keys_elem demo_curve_oid). by exists NIST_P_384. Defined.
Lemma pk_params_spec_witness :
  getPkParams map_keys (namedCurveMap demo_curve_oid)
    (mkPublicKey (Ret (mkAlgorithmIdentifier ID_ECDSA (Ret (Some "1.2.840.10045.3.1.7")))) None)
  = Some (mkPubKeyParams EC (Some (mkNamedCurve "1.2.840.10045.3.1.7" 256)) 256).
Proof.
  apply (pk_params_spec map_keys map_keys_elem); [apply namedCurveMap_wf|].
  eexists. split; [reflexivity|]. left. split; [reflexivity|]. do 2 eexists. repeat split; reflexivity.
Defined.
(** An Ed25519 key has no parameters, and no type. *)
Example ed25519_has_no_params :
  getTypeFromOid (Some "1.3.101.112") = Throw NullPointerException ∧
  getPkParams map_keys (namedCurveMap demo_curve_oid) (mkPublicKey (Ret (mkAlgorithmIdentifier "1.3.101.112" (Ret None))) None) = None.
Proof. by vm_compute. Qed.
