(* ===== verification/PdfContext.v ===== *)
(** * Revisions of a PDF document

    Model of sigval-pdf/.../pdfstruct: the values of PDF objects and their comparison
    (ObjectValue, Dictionary, ObjectArray, AcroForm), the safe objects, and
    DefaultPDFSignatureContext, which cuts a document into its revisions and judges what
    each changes.  The parser of PDFBox is a parameter, its objects are data. *)
From Stdlib Require Import ZArith Lia Ascii String.
From stdpp Require Import base gmap strings list sorting.
From S2P Require Import Prelude.
From S2P Require Import JsString.

(** ** Objects of PDFBox *)
Notation COSObjectKey := (Z * Z)%type.   (* number and generation *)
(** A reference to an indirect object is a [COSObject]; a stream is its dictionary; a
    float is [m] over [10 ^ e]. *)
Inductive COSBase :=
  | COSNull
  | COSObject (key : COSObjectKey)
  | COSDictionary (entries : list (string * COSBase))
  | COSArray (items : list COSBase)
  | COSName (name : string)
  | COSString (s : string)
  | COSBoolean (b : bool)
  | COSInteger (z : Z)
  | COSFloat (m : Z) (e : nat).
Record COSDocument := mkCOS {
  trailer : option (list (string * COSBase));
  xrefTable : gmap COSObjectKey Z;
  pool : COSObjectKey → option COSBase      (* getObjectFromPool( key ).getObject() *)
}.
Record PDSignature := mkPDSignature { byteRange : list Z; subFilter : option string }.
Record PDDocument := mkPDDocument { getDocument : COSDocument; getSignatureDictionaries : list PDSignature }.

Section Context.
(** [Loader.loadPDF], and the order in which a HashMap gives its entries. *)
Context (loadPDF : string → option PDDocument) (hashOrder : ∀ A, list (string * A) → list (string * A)).

(** ** ObjectValue *)
Inductive ObjectValue :=
  | VObject (number : Z) | VDictionary (valueMap : list (string * ObjectValue)) | VName (s : string)
  | VString (s : string) | VArray (values : list ObjectValue) | VOther | VBoolean (b : bool) | VNumber (z : Z) | VNull.
(** The constructor: an integer is first marked as such and then, like every number, as a
    number. *)
Fixpoint objectValue (o : COSBase) : ObjectValue :=
  match o with
  | COSNull => VOther
  | COSObject k => VObject (fst k)
  | COSDictionary es => VDictionary (hashOrder _ (map (λ p, (fst p, objectValue (snd p))) es))
  | COSArray l => VArray (map objectValue l)
  | COSName n => VName n
  | COSString s => VString s
  | COSBoolean b => VBoolean b
  | COSInteger z => VNumber z
  | COSFloat m e => VNumber (Z.quot m (10 ^ Z.of_nat e))
  end.
(** [null] has a type of its own. *)
Definition objectValue_of (o : option COSBase) : ObjectValue := match o with None => VNull | Some o => objectValue o end.
Definition is_dictionary (v : ObjectValue) : bool := match v with VDictionary _ => true | _ => false end.
Fixpoint matches (v w : ObjectValue) {struct v} : bool :=
  match v, w with
  | VNumber a, VNumber b => Z.eqb a b
  | VObject a, VObject b => Z.eqb a b
  | VDictionary l, VDictionary l' =>
      Nat.eqb (length l) (length l') &&
      forallb (λ p, match assoc (fst p) l' with Some w => matches (snd p) w | None => false end) l
  | VName a, VName b => equalsIgnoreCase a b
  | VString a, VString b => equalsIgnoreCase a b
  | VArray l, VArray l' =>
      (fix all2 (l l' : list ObjectValue) : bool :=
         match l, l' with
         | [], [] => true
         | v :: l, w :: l' => matches v w && all2 l l'
         | _, _ => false
         end) l l'
  | VOther, VOther => true
  | VBoolean a, VBoolean b => Bool.eqb a b
  | _, _ => false
  end.
(** [Dictionary.getValueByName]: the entry, or the first found in a nested dictionary. *)
Fixpoint getValueByName (name : string) (v : ObjectValue) : option ObjectValue :=
  match v with
  | VDictionary l =>
      match assoc name l with
      | Some w => Some w
      | None =>
          (fix first (l : list (string * ObjectValue)) : option ObjectValue :=
             match l with
             | [] => None
             | p :: l' => match getValueByName name (snd p) with Some w => Some w | None => first l' end
             end) l
      end
  | _ => None
  end.

(** ** AcroForm *)
Definition new_AcroForm (value : COSBase) (doc : COSDocument) : option ObjectValue :=
  match value with
  | COSDictionary _ => Some (objectValue value)
  | COSObject k => match pool doc k with Some (COSDictionary es) => Some (objectValue (COSDictionary es)) | _ => None end
  | _ => None
  end.
(** The loop of [getObjectRef]; [None] is the return of -1. *)
Fixpoint ref_path (path : list string) (search : option ObjectValue) (last : option ObjectValue) : option ObjectValue :=
  match path with
  | [] => last
  | name :: path' =>
      match search with
      | None => None
      | Some d =>
          match getValueByName name d with
          | None => None
          | Some v => ref_path path' (if is_dictionary v then Some v else search) (Some v)
          end
      end
  end.
Definition getObjectRef (path : list string) (dictionary : option ObjectValue) : Z :=
  match ref_path path dictionary None with Some (VObject n) => n | _ => -1 end.

(** ** Safe objects *)
Definition entry (name : string) (es : list (string * COSBase)) : option COSBase := assoc name es.
(** What an implementation of [GeneralSafeObjects] sees: the document of the revision, the
    key of its root and the safe objects so far. *)
Class GeneralSafeObjects := addGeneralSafeObjects : COSDocument → COSObjectKey → list Z → list Z.
Definition StrictGeneralSafeObjects : GeneralSafeObjects := λ _ _ safeObjects, safeObjects.
Definition object_numbers (vs : list ObjectValue) : list Z :=
  omap (λ v, match v with VObject n => Some n | _ => None end) vs.
Definition addSafeOjects (rootDic : list (string * COSBase)) (safeObjects : list Z) (objNames : list string) : list Z :=
  safeObjects ++ object_numbers (omap (λ s, option_map objectValue (entry s rootDic)) objNames).
(** The objects of the DSS dictionary; a DSS that is not a reference to a dictionary throws
    and is passed over. *)
Definition dss_objects (doc : COSDocument) (rootDic : list (string * COSBase)) : list Z :=
  match entry "DSS" rootDic with
  | Some (COSObject k) =>
      match pool doc k with
      | Some (COSDictionary es) =>
          match objectValue (COSDictionary es) with VDictionary l => object_numbers (map snd l) | _ => [] end
      | _ => []
      end
  | _ => []
  end.
Definition info_object (doc : COSDocument) : list Z :=
  match trailer doc with
  | Some es => match getValueByName "Info" (objectValue (COSDictionary es)) with Some (VObject n) => [n] | _ => [] end
  | None => []
  end.
Definition DefaultGeneralSafeObjects : GeneralSafeObjects := λ doc root safeObjects,
  (match pool doc root with
   | Some (COSDictionary rootDic) =>
       addSafeOjects rootDic safeObjects ["DSS"; "Extensions"; "Metadata"]%string ++ dss_objects doc rootDic
   | _ => safeObjects
   end) ++ info_object doc.
(** [addSafeObjects] of the context, for one entry of the root. *)
Definition addSafeObjects (key : string) (value : COSBase) (safeObjects : list Z) (doc : COSDocument) : list Z :=
  if String.eqb key "AcroForm" then
    let safeObjects := match value with COSObject k => safeObjects ++ [fst k] | _ => safeObjects end in
    let acroFormFont := getObjectRef ["DR"; "Font"]%string (new_AcroForm value doc) in
    if Z.ltb (-1) acroFormFont then safeObjects ++ [acroFormFont] else safeObjects
  else if String.eqb key "OpenAction" then
    match value with
    | COSArray l =>
        match object_numbers (map objectValue l) with [n] => safeObjects ++ [n] | _ => safeObjects end
    | _ => safeObjects
    end
  else safeObjects.

(** ** Revisions *)
(** What [getRevision] fills in of a PDFDocRevision. *)
Record Segment := mkSegment { rev_length : nat; signature : bool; documentTimestamp : bool }.
(** What is loaded for it. *)
Record Loaded := mkLoaded { segment : Segment; rootObject : COSObjectKey; cosDocument : COSDocument }.
Definition rootObjectId (r : Loaded) : Z := fst (rootObject r).
(** The judgement on it. *)
Record PDFDocRevision := mkRevision {
  loaded : Loaded;
  changedXref : gmap COSObjectKey (Z * Z);
  addedXref : gmap COSObjectKey Z;
  rootUpdate : bool;
  nonRootUpdate : bool;
  legalRootObject : bool;
  changedRootItems : list string;
  addedRootItems : list string;
  safeObjects : list Z;
  safeUpdate : bool;
  validDSS : bool
}.
Definition getLength (r : PDFDocRevision) : nat := rev_length (segment (loaded r)).

(** An int of 32 bits. *)
Definition wrap32 (z : Z) : Z := (z + 2^31) `mod` 2^32 - 2^31.
(** [byteRange[ 2 ] + byteRange[ 3 ]] *)
Definition signed_length (sig : PDSignature) : outcome Z :=
  match byteRange sig with
  | _ :: _ :: b2 :: b3 :: _ => Ret (wrap32 (b2 + b3))
  | _ => Throw IndexOutOfBounds
  end.
Definition EOF : string := "%%EOF".
(** [s.lastIndexOf( t )] *)
Fixpoint last_index (t s : string) (i : nat) (acc : option nat) : option nat :=
  let acc' := if String.prefix t s then Some i else acc in
  match s with EmptyString => acc' | String _ s' => last_index t s' (S i) acc' end.
Definition lastIndexOf_text (s t : string) : option nat := last_index t s 0 None.
Definition byte_is (n : nat) (pdfBytes : string) (i : nat) : bool :=
  match String.get i pdfBytes with Some c => code c =? n | None => false end.
(** The line end after the marker belongs to the revision. *)
Definition past_newline (pdfBytes : string) (n : nat) : nat :=
  if byte_is 10 pdfBytes n then n + 1
  else if byte_is 13 pdfBytes n && byte_is 10 pdfBytes (n + 1) then n + 2
  else n.
Definition ETSI_RFC3161 : string := "ETSI.RFC3161".
(** The last signature whose byte range ends there decides on the timestamp. *)
Fixpoint signed_by (signatures : list PDSignature) (len : nat) (acc : bool * bool) : outcome (bool * bool) :=
  match signatures with
  | [] => Ret acc
  | sig :: sigs =>
      n ← signed_length sig;
      signed_by sigs len
        (if Z.eqb n (Z.of_nat len) then (true, bool_decide (subFilter sig = Some ETSI_RFC3161)) else acc)
  end.
Definition getRevision (pdfBytes : string) (signatures : list PDSignature) (priorRevision : option Segment) :
    outcome (option Segment) :=
  let len := match priorRevision with None => str_length pdfBytes | Some r => rev_length r - 5 end in
  match lastIndexOf_text (str_take len pdfBytes) EOF with
  | None => Ret None
  | Some lastIndexOfEoF =>
      let revisionLen := past_newline pdfBytes (lastIndexOfEoF + 5) in
      '(revIsSignature, revIsDocTs) ← signed_by signatures revisionLen (false, false);
      Ret (Some (mkSegment revisionLen revIsSignature revIsDocTs))
  end.
(** The first loop of [extractPdfRevisionData], with fuel. *)
Fixpoint revisions (fuel : nat) (pdfBytes : string) (signatures : list PDSignature) (prior : option Segment) :
    option (outcome (list Segment)) :=
  match fuel with
  | 0 => None
  | S fuel' =>
      match getRevision pdfBytes signatures prior with
      | Throw e => Some (Throw e)
      | Ret None => Some (Ret [])
      | Ret (Some r) =>
          match revisions fuel' pdfBytes signatures (Some r) with
          | Some (Ret l) => Some (Ret (r :: l))
          | other => other
          end
      end
  end.
(** The second loop: a piece that does not load, or has no root object, is skipped. *)
Definition load_revision (pdfBytes : string) (r : Segment) : option Loaded :=
  doc ← loadPDF (str_take (rev_length r) pdfBytes);
  es ← trailer (getDocument doc);
  match entry "Root" es with Some (COSObject k) => Some (mkLoaded r k (getDocument doc)) | _ => None end.
(** [sorted( comparingInt( getLength ) )] *)
Definition by_length (a b : Loaded) : Prop := rev_length (segment a) ≤ rev_length (segment b).
#[global] Instance by_length_dec : RelDecision by_length.
Proof. intros a b. unfold by_length. apply _. Defined.
Definition sort_revisions (l : list Loaded) : list Loaded := merge_sort by_length l.

(** ** [getXrefUpdates] *)
Definition changed_xref (xref last : gmap COSObjectKey Z) : gmap COSObjectKey (Z * Z) :=
  map_imap (λ k newValue, match last !! k with
                          | Some lastValue => if Z.eqb lastValue newValue then None else Some (lastValue, newValue)
                          | None => None
                          end) xref.
Definition added_xref (xref last : gmap COSObjectKey Z) : gmap COSObjectKey Z :=
  map_imap (λ k newValue, match last !! k with Some _ => None | None => Some newValue end) xref.
Definition changed_numbers (changed : gmap COSObjectKey (Z * Z)) : list Z := map (fst ∘ fst) (map_to_list changed).
(** State of the scan of the root: legal, changed and added items, safe objects. *)
Record RootScan := mkRootScan { rs_legal : bool; rs_changed : list string; rs_added : list string; rs_safe : list Z }.
Definition scan_root_item (doc : COSDocument) (lastRoot : option COSBase) (st : RootScan) (item : string * COSBase) :
    RootScan :=
  let '(key, v) := item in
  match lastRoot with
  | Some (COSDictionary lastItems) =>
      let lastValue := objectValue_of (entry key lastItems) in
      let safe := addSafeObjects key v (rs_safe st) doc in
      match lastValue with
      | VNull => mkRootScan (rs_legal st) (rs_changed st) (rs_added st ++ [key]) safe
      | VOther => mkRootScan false (rs_changed st) (rs_added st) safe
      | _ => if matches (objectValue v) lastValue then mkRootScan (rs_legal st) (rs_changed st) (rs_added st) safe
             else mkRootScan (rs_legal st) (rs_changed st ++ [key]) (rs_added st) safe
      end
  | _ => mkRootScan false (rs_changed st) (rs_added st) (rs_safe st)
  end.
Definition scan_root (r : Loaded) (lastRoot : option COSBase) : RootScan :=
  match pool (cosDocument r) (rootObject r) with
  | Some (COSDictionary rootDic) => fold_left (scan_root_item (cosDocument r) lastRoot) rootDic (mkRootScan true [] [] [])
  | _ => mkRootScan false [] [] []
  end.
Definition addedRootItemsContains (added : list string) (matchNames : list string) : bool :=
  forallb (λ m, existsb (λ n, equalsIgnoreCase n m) added) matchNames.
Definition getXrefUpdates (provider : GeneralSafeObjects) (r : Loaded) (last : option Loaded) : PDFDocRevision :=
  let xref := xrefTable (cosDocument r) in
  let lastTable := match last with Some l => xrefTable (cosDocument l) | None => ∅ end in
  let changed := changed_xref xref lastTable in
  let root := rootObjectId r in
  let isRootUpdate := existsb (λ n, Z.eqb n root) (changed_numbers changed) in
  let scan :=
    if isRootUpdate
    then scan_root r (match last with Some l => pool (cosDocument l) (rootObject l) | None => None end)
    else mkRootScan true [] [] [] in
  let unsupportedRootItemUpdate := existsb (λ n, negb (String.eqb n "AcroForm")) (rs_changed scan) in
  let safe := provider (cosDocument r) (rootObject r) (rs_safe scan) in
  let unsafeRefupdate :=
    existsb (λ n, negb (Z.eqb n root) && negb (existsb (Z.eqb n) safe)) (changed_numbers changed) in
  let isSafe := negb unsupportedRootItemUpdate && negb unsafeRefupdate && rs_legal scan in
  mkRevision r changed (added_xref xref lastTable) isRootUpdate
    (existsb (λ n, negb (Z.eqb n root)) (changed_numbers changed))
    (rs_legal scan) (rs_changed scan) (rs_added scan) safe isSafe
    (isRootUpdate && isSafe && rs_legal scan && bool_decide (rs_changed scan = []) &&
     ((length (rs_added scan) =? 1) && addedRootItemsContains (rs_added scan) ["DSS"]%string
      || (length (rs_added scan) =? 2) && addedRootItemsContains (rs_added scan) ["DSS"; "Extensions"]%string)).
(** The third loop. *)
Fixpoint judge_revisions (provider : GeneralSafeObjects) (last : option Loaded) (l : list Loaded) : list PDFDocRevision :=
  match l with [] => [] | r :: l' => getXrefUpdates provider r last :: judge_revisions provider (Some r) l' end.
(** The constructor: [None] is a lack of fuel. *)
Record PDFSignatureContext := mkContext {
  pdfBytes : string; PDFDocRevisions : list PDFDocRevision; signatures : list PDSignature
}.
Definition new_PDFSignatureContext (provider : GeneralSafeObjects) (bytes : string) : option (outcome PDFSignatureContext) :=
  match loadPDF bytes with
  | None => Some (Throw (IOException "Loader.loadPDF"))
  | Some pdfDoc =>
      let sigs := getSignatureDictionaries pdfDoc in
      match revisions (S (str_length bytes)) bytes sigs None with
      | None => None
      | Some (Throw e) => Some (Throw e)
      | Some (Ret l) =>
          Some (Ret (mkContext bytes
            (judge_revisions provider None (sort_revisions (omap (load_revision bytes) l))) sigs))
      end
  end.

(** ** The questions about a signature *)
Definition IllegalArgument : exn := IllegalArgumentException "signature".
(** The index of the first revision of that length; -1 is [None]. *)
Definition getSignatureRevisionIndex (c : PDFSignatureContext) (sig : PDSignature) : outcome (option nat) :=
  match signed_length sig with
  | Throw _ => Throw IllegalArgument
  | Ret len => Ret (fst <$> list_find (λ r, Z.of_nat (getLength r) = len) (PDFDocRevisions c))
  end.
Definition getSignedDocument (c : PDFSignatureContext) (sig : PDSignature) : outcome string :=
  match getSignatureRevisionIndex c sig with
  | Ret (Some idx) =>
      match PDFDocRevisions c !! idx with Some r => Ret (str_take (getLength r) (pdfBytes c)) | None => Throw IllegalArgument end
  | _ => Throw IllegalArgument
  end.
(** The loop over the later revisions: it answers at the first that is neither a signature
    nor a DSS. *)
Fixpoint extended_loop (later : list PDFDocRevision) : bool :=
  match later with
  | [] => false
  | r :: later' =>
      if negb (signature (segment (loaded r))) && negb (validDSS r) then negb (safeUpdate r) else extended_loop later'
  end.
Definition isSignatureExtendedByNonSafeUpdates (c : PDFSignatureContext) (sig : PDSignature) : outcome bool :=
  match getSignatureRevisionIndex c sig with
  | Ret (Some idx) => Ret (extended_loop (drop (S idx) (PDFDocRevisions c)))
  | _ => Throw IllegalArgument
  end.
Definition isCoversWholeDocument (c : PDFSignatureContext) (sig : PDSignature) : outcome bool :=
  match getSignatureRevisionIndex c sig with
  | Ret (Some idx) =>
      if idx =? length (PDFDocRevisions c) - 1 then Ret true
      else Ret (forallb safeUpdate (drop (S idx) (PDFDocRevisions c)))
  | _ => Throw IllegalArgument
  end.
End Context.
