(* ===== verification/PdfContextProps.v ===== *)
(** * Facts of PDF revisions

    What a document that is covered by a signature may have changed after it, what the
    other question about later updates answers, and which pieces a document is cut into. *)
From Stdlib Require Import ZArith Lia Ascii String.
From stdpp Require Import base gmap strings list sorting.
From S2P Require Import Prelude.
From S2P Require Import JsString.
From S2P Require Import PdfContext.

Section Judgement.
Context (loadPDF : string → option PDDocument) (hashOrder : ∀ A, list (string * A) → list (string * A)).
Context (provider : GeneralSafeObjects).
Notation judged := (getXrefUpdates hashOrder provider).

Lemma judge_revisions_lookup last l i :
  judge_revisions hashOrder provider last l !! i =
  (λ r, judged r (match i with 0 => last | S j => l !! j end)) <$> (l !! i).
Proof.
  revert last i. induction l as [|r l IH]; intros last i; [done|]. destruct i as [|i]; [done|]. simpl.
  rewrite IH. by destruct i.
Qed.
Lemma changed_xref_lookup xref last k old new :
  last !! k = Some old → xref !! k = Some new → old ≠ new → changed_xref xref last !! k = Some (old, new).
Proof.
  intros Hl Hx Hne. unfold changed_xref. rewrite map_lookup_imap, Hx. simpl. rewrite Hl.
  by rewrite (proj2 (Z.eqb_neq _ _) Hne).
Qed.
Lemma changed_numbers_elem changed k p : changed !! k = Some p → fst k ∈ changed_numbers changed.
Proof.
  intros H. unfold changed_numbers. change (fst k ∈ (fst ∘ fst) <$> map_to_list changed). apply list_elem_of_fmap.
  exists (k, p). split; [done|]. by apply elem_of_map_to_list.
Qed.
(** A safe update moves no object but the root and the safe objects. *)
Lemma safe_update_objects r last k old new :
  safeUpdate (judged r (Some last)) = true →
  xrefTable (cosDocument last) !! k = Some old → xrefTable (cosDocument r) !! k = Some new → old ≠ new →
  fst k = rootObjectId r ∨ fst k ∈ safeObjects (judged r (Some last)).
Proof.
  intros Hs Hl Hx Hne. unfold getXrefUpdates in Hs. cbn [safeUpdate] in Hs.
  apply andb_true_iff in Hs as [[_ Hs]%andb_true_iff _]. apply negb_true_iff in Hs.
  pose proof (changed_numbers_elem _ _ _ (changed_xref_lookup _ _ _ _ _ Hl Hx Hne)) as Hk.
  destruct (Z.eqb_spec (fst k) (rootObjectId r)) as [->|Hr]; [by left|]. right. unfold getXrefUpdates. cbn [safeObjects].
  match type of Hs with existsb ?f ?l = false => assert (Hf : f (fst k) = false) end.
  { destruct (_ : bool) eqn:E in |- *; [|done]. exfalso. apply not_true_iff_false in Hs. apply Hs. apply existsb_exists.
    exists (fst k). split; [by apply list_elem_of_In|exact E]. }
  cbv beta in Hf. rewrite (proj2 (Z.eqb_neq _ _) Hr) in Hf. apply negb_false_iff in Hf.
  apply existsb_exists in Hf as (n & Hn & ->%Z.eqb_eq). by apply list_elem_of_In.
Qed.
(** An entry of the root against the root before. *)
Definition item_kept (changed : list string) (lastRoot : option COSBase) (item : string * COSBase) : Prop :=
  ∃ lastItems, lastRoot = Some (COSDictionary lastItems) ∧
    match entry (fst item) lastItems with
    | None => True
    | Some w => matches (objectValue hashOrder (snd item)) (objectValue hashOrder w) = true ∨ fst item ∈ changed
    end.
Lemma scan_root_step doc lastRoot st item final :
  rs_legal (scan_root_item hashOrder doc lastRoot st item) = true →
  rs_changed (scan_root_item hashOrder doc lastRoot st item) ⊆ final →
  rs_legal st = true ∧ rs_changed st ⊆ final ∧ item_kept final lastRoot item.
Proof.
  destruct item as [k v]. unfold scan_root_item, item_kept. cbn [fst snd].
  destruct lastRoot as [[| |lastItems| | | | | |]|]; try done. unfold objectValue_of.
  destruct (entry k lastItems) as [w|] eqn:Ek; simpl; intros Hl Hc.
  2:{ split; [done|]. split; [done|]. exists lastItems. by rewrite Ek. }
  assert (N : objectValue hashOrder w ≠ VNull) by (by destruct w).
  assert (R : rs_legal st = true ∧ rs_changed st ⊆ final ∧
    (matches (objectValue hashOrder v) (objectValue hashOrder w) = true ∨ k ∈ final)).
  { destruct (matches (objectValue hashOrder v) (objectValue hashOrder w));
      destruct (objectValue hashOrder w); try done; simpl in Hl, Hc; set_solver. }
  destruct R as (? & ? & ?). split; [done|]. split; [done|]. exists lastItems. by rewrite Ek.
Qed.
Lemma scan_root_items doc lastRoot items st :
  let st' := fold_left (scan_root_item hashOrder doc lastRoot) items st in
  rs_legal st' = true →
  rs_legal st = true ∧ rs_changed st ⊆ rs_changed st' ∧ ∀ item, item ∈ items → item_kept (rs_changed st') lastRoot item.
Proof.
  revert st. induction items as [|it items IH]; intros st st0 Hl; [split; [done|]; split; [done|]; by intros ? ?%elem_of_nil|].
  unfold st0 in *. cbn [fold_left] in *. destruct (IH _ Hl) as (Hl1 & Hc & Hit). destruct (scan_root_step _ _ _ _ _ Hl1 Hc) as (G1 & G2 & G3).
  split; [done|]. split; [done|]. intros item [->|Hi]%elem_of_cons; [done|]. by apply Hit.
Qed.
(** The root of a revision keeps the entries of the root before, but for the AcroForm. *)
Definition root_kept (r last : Loaded) : Prop :=
  ∃ rootDic, pool (cosDocument r) (rootObject r) = Some (COSDictionary rootDic) ∧
    ∀ name v, (name, v) ∈ rootDic →
      ∃ lastItems, pool (cosDocument last) (rootObject last) = Some (COSDictionary lastItems) ∧
        ∀ w, entry name lastItems = Some w → name ≠ "AcroForm"%string →
          matches (objectValue hashOrder v) (objectValue hashOrder w) = true.
Lemma safe_update_root r last k old new :
  safeUpdate (judged r (Some last)) = true →
  xrefTable (cosDocument last) !! k = Some old → xrefTable (cosDocument r) !! k = Some new → old ≠ new →
  fst k = rootObjectId r → root_kept r last.
Proof.
  intros Hs Hl Hx Hne Hk.
  pose proof (changed_numbers_elem _ _ _ (changed_xref_lookup _ _ _ _ _ Hl Hx Hne)) as Hin.
  unfold getXrefUpdates in Hs. cbn [safeUpdate] in Hs.
  assert (E : existsb (λ n, Z.eqb n (rootObjectId r))
    (changed_numbers (changed_xref (xrefTable (cosDocument r)) (xrefTable (cosDocument last)))) = true).
  { apply existsb_exists. exists (fst k). split; [by apply list_elem_of_In|]. by apply Z.eqb_eq. }
  rewrite E in Hs. apply andb_true_iff in Hs as [[Hu _]%andb_true_iff Hlegal]. apply negb_true_iff in Hu.
  unfold scan_root in Hu, Hlegal. unfold root_kept.
  destruct (pool (cosDocument r) (rootObject r)) as [[| |rootDic| | | | | |]|]; try done.
  destruct (scan_root_items _ _ _ _ Hlegal) as (_ & _ & Hitems). exists rootDic. split; [done|].
  intros name v Hv. destruct (Hitems _ Hv) as (lastItems & HL & Hkept). cbn [fst snd] in Hkept.
  exists lastItems. split; [done|]. intros w Hw Hname. rewrite Hw in Hkept. destruct Hkept as [?|Hc]; [done|].
  exfalso. apply not_true_iff_false in Hu. apply Hu. apply existsb_exists. exists name.
  split; [by apply list_elem_of_In|]. by rewrite (proj2 (String.eqb_neq _ _) Hname).
Qed.
(** What may differ from one revision to the next. *)
Definition kept_since (last r : PDFDocRevision) : Prop :=
  ∀ k old new, xrefTable (cosDocument (loaded last)) !! k = Some old → xrefTable (cosDocument (loaded r)) !! k = Some new →
    old ≠ new →
    (fst k = rootObjectId (loaded r) ∧ root_kept (loaded r) (loaded last)) ∨ fst k ∈ safeObjects r.
Lemma safe_update_kept r last last' : loaded last' = last →
  safeUpdate (judged r (Some last)) = true → kept_since last' (judged r (Some last)).
Proof.
  intros <- Hs k old new Hl Hx Hne. destruct (safe_update_objects r _ k old new Hs Hl Hx Hne) as [Hr|]; [|by right].
  left. split; [done|]. by eapply safe_update_root.
Qed.
End Judgement.

(** ** Questions about a signature *)
Section Questions.
Context (loadPDF : string → option PDDocument) (hashOrder : ∀ A, list (string * A) → list (string * A)).
Context (provider : GeneralSafeObjects).
Lemma new_context_revisions bytes c :
  new_PDFSignatureContext loadPDF hashOrder provider bytes = Some (Ret c) →
  ∃ l, PDFDocRevisions c = judge_revisions hashOrder provider None l ∧
    pdfBytes c = bytes.
Proof.
  unfold new_PDFSignatureContext. destruct (loadPDF bytes) as [doc|]; [|done].
  destruct (revisions _ _ _ _) as [[l|e]|]; [|done|done]. intros [= <-]. simpl. eauto.
Qed.
Lemma signature_index c sig idx : getSignatureRevisionIndex c sig = Ret (Some idx) →
  ∃ r, PDFDocRevisions c !! idx = Some r ∧ signed_length sig = Ret (Z.of_nat (getLength r)).
Proof.
  unfold getSignatureRevisionIndex. destruct (signed_length sig) as [len|e]; [|done]. intros [= H].
  apply fmap_Some in H as ([i r] & H & ->). apply list_find_Some in H as (H1 & H2 & _). exists r. simpl. by rewrite <- H2.
Qed.
(** C6. A signature that covers the whole document: from the revision it signs on, no object
    of the revision before moves in the next one, except safe objects and the root, and
    when the root moves all its entries but the AcroForm match those before. *)
Theorem covers_whole_sound bytes c sig :
  new_PDFSignatureContext loadPDF hashOrder provider bytes = Some (Ret c) →
  isCoversWholeDocument c sig = Ret true →
  ∃ idx r, PDFDocRevisions c !! idx = Some r ∧ signed_length sig = Ret (Z.of_nat (getLength r)) ∧
    ∀ i last next, idx ≤ i → PDFDocRevisions c !! i = Some last → PDFDocRevisions c !! S i = Some next →
      kept_since hashOrder last next.
Proof.
  intros (l & Hrevs & _)%new_context_revisions. unfold isCoversWholeDocument.
  destruct (getSignatureRevisionIndex c sig) as [[idx|]|e] eqn:Hidx; try done. intros Hc.
  apply signature_index in Hidx as (r & Hr & Hlen). exists idx, r. split; [done|]. split; [done|].
  intros i last next Hi Hlast Hnext.
  assert (Hsafe : safeUpdate next = true).
  { destruct (Nat.eqb_spec idx (length (PDFDocRevisions c) - 1)) as [E|_].
    - apply lookup_lt_Some in Hnext. apply lookup_lt_Some in Hr. lia.
    - injection Hc as Hc. rewrite forallb_forall in Hc. apply Hc. apply list_elem_of_In, list_elem_of_lookup.
      exists (i - idx). rewrite lookup_drop. by replace (S idx + (i - idx)) with (S i) by lia. }
  rewrite Hrevs, judge_revisions_lookup in Hnext, Hlast.
  apply fmap_Some in Hnext as (rn & Hn & ->). apply fmap_Some in Hlast as (rl & Hl & ->). rewrite Hl in Hsafe |- *.
  by apply safe_update_kept.
Qed.
Lemma extended_loop_first later :
  extended_loop later = match findFirst (λ r, negb (signature (segment (loaded r))) && negb (validDSS r)) later with
                        | Some r => negb (safeUpdate r)
                        | None => false
                        end.
Proof. induction later as [|r later IH]; [done|]. simpl. by destruct (_ && _). Qed.
Lemma covers_not_extended c sig :
  isCoversWholeDocument c sig = Ret true → isSignatureExtendedByNonSafeUpdates c sig = Ret false.
Proof.
  unfold isCoversWholeDocument, isSignatureExtendedByNonSafeUpdates.
  destruct (getSignatureRevisionIndex c sig) as [[idx|]|e]; try done. intros Hc. f_equal. rewrite extended_loop_first.
  destruct (findFirst _ _) as [r|] eqn:Hf; [|done]. apply findFirst_Some in Hf as [_ Hin].
  destruct (Nat.eqb_spec idx (length (PDFDocRevisions c) - 1)) as [E|_].
  - rewrite drop_ge in Hin by lia. by apply elem_of_nil in Hin.
  - injection Hc as Hc. rewrite forallb_forall in Hc. apply list_elem_of_In in Hin. by rewrite (Hc r Hin).
Qed.
(** Whether a signature is extended by unsafe updates is decided by the first later revision
    that is neither a signature nor a DSS, and by that alone.  A document that a signature
    covers is not extended; the converse fails, because nothing after that first revision
    counts. *)
Theorem extended_asks_first c sig idx :
  getSignatureRevisionIndex c sig = Ret (Some idx) →
  isSignatureExtendedByNonSafeUpdates c sig =
    Ret match findFirst (λ r, negb (signature (segment (loaded r))) && negb (validDSS r))
                (drop (S idx) (PDFDocRevisions c)) with
        | Some r => negb (safeUpdate r)
        | None => false
        end ∧
  (isCoversWholeDocument c sig = Ret true → isSignatureExtendedByNonSafeUpdates c sig = Ret false).
Proof.
  intros Hidx. split; [|apply covers_not_extended]. unfold isSignatureExtendedByNonSafeUpdates. rewrite Hidx.
  by rewrite extended_loop_first.
Qed.
(** A revision that only adds objects is a safe update: no offset has changed, so neither
    the root nor anything else is looked at. *)
Lemma additions_safe r last :
  (∀ k old new, xrefTable (cosDocument last) !! k = Some old → xrefTable (cosDocument r) !! k = Some new → old = new) →
  safeUpdate (getXrefUpdates hashOrder provider r (Some last)) = true.
Proof.
  intros H. assert (E : changed_xref (xrefTable (cosDocument r)) (xrefTable (cosDocument last)) = ∅).
  { apply map_eq. intros k. unfold changed_xref. rewrite map_lookup_imap, lookup_empty.
    destruct (xrefTable (cosDocument r) !! k) as [new|] eqn:Hn; [|done]. simpl.
    destruct (xrefTable (cosDocument last) !! k) as [old|] eqn:Ho; [|done]. by rewrite (H k old new Ho Hn), Z.eqb_refl. }
  unfold getXrefUpdates. cbn [safeUpdate]. rewrite E. unfold changed_numbers. by rewrite map_to_list_empty.
Qed.
(** Adding objects is never seen: when no revision after the signature moves an object that
    the one before has, the signature covers the whole document, whatever the new objects
    are and whatever root the new trailers name. *)
Theorem additions_covered bytes c sig idx :
  new_PDFSignatureContext loadPDF hashOrder provider bytes = Some (Ret c) →
  getSignatureRevisionIndex c sig = Ret (Some idx) →
  (∀ i last next, idx ≤ i → PDFDocRevisions c !! i = Some last → PDFDocRevisions c !! S i = Some next →
     ∀ k old new, xrefTable (cosDocument (loaded last)) !! k = Some old →
       xrefTable (cosDocument (loaded next)) !! k = Some new → old = new) →
  isCoversWholeDocument c sig = Ret true.
Proof.
  intros (l & Hrevs & _)%new_context_revisions Hidx Hadd. unfold isCoversWholeDocument. rewrite Hidx.
  destruct (Nat.eqb_spec idx (length (PDFDocRevisions c) - 1)) as [E|_]; [done|]. f_equal. apply forallb_forall.
  intros r Hr. apply list_elem_of_In, list_elem_of_lookup in Hr as [j Hj]. rewrite lookup_drop in Hj.
  change (S idx + j) with (S (idx + j)) in Hj. destruct (PDFDocRevisions c !! (idx + j)) as [last|] eqn:Hl.
  2:{ apply lookup_ge_None in Hl. apply lookup_lt_Some in Hj. lia. }
  specialize (Hadd (idx + j) last r ltac:(lia) Hl Hj). rewrite Hrevs, judge_revisions_lookup in Hj, Hl.
  apply fmap_Some in Hj as (rn & Hn & ->). apply fmap_Some in Hl as (rl & Hl & ->). rewrite Hl in *. by apply additions_safe.
Qed.
End Questions.

(** ** Examples *)
Definition no_order (A : Type) (l : list (string * A)) : list (string * A) := l.
Definition obj (number offset : Z) : COSObjectKey * Z := ((number, 0%Z), offset).
Definition table (l : list (COSObjectKey * Z)) : gmap COSObjectKey Z := list_to_map l.
Definition catalog (pages : Z) : COSBase := COSDictionary [("Type"%string, COSName "Catalog"); ("Pages"%string, COSObject (pages, 0%Z))].
(** A document with the catalog under [root] and its pages. *)
Definition demo_doc (root pages : Z) (t : list (COSObjectKey * Z)) : PDDocument :=
  mkPDDocument (mkCOS (Some [("Root"%string, COSObject (root, 0%Z))]) (table t)
    (λ k, if Z.eqb (fst k) root then Some (catalog pages) else None)) [mkPDSignature [0; 3; 4; 3]%Z None].
(** Three revisions of seven bytes, the first is signed; [d2] and [d3] load from the first
    two and from all three. *)
Definition demo_bytes : string :=
  let nl := String (chr 10) "" in ("A%%EOF" ++ nl ++ "B%%EOF" ++ nl ++ "C%%EOF" ++ nl)%string.
Definition demo_load (d1 d2 d3 : PDDocument) (bytes : string) : option PDDocument :=
  if str_length bytes =? 7 then Some d1 else if str_length bytes =? 14 then Some d2
  else if str_length bytes =? 21 then Some d3 else None.
Definition demo_context (d2 d3 : PDDocument) : PDFSignatureContext :=
  match new_PDFSignatureContext (demo_load (demo_doc 1 2 [obj 1 10; obj 2 20]) d2 d3) no_order (DefaultGeneralSafeObjects no_order) demo_bytes with
  | Some (Ret c) => c
  | _ => mkContext "" [] []
  end.
Definition demo_sig : PDSignature := mkPDSignature [0; 3; 4; 3]%Z None.
(** The second revision adds an object, the third moves the pages. *)
Notation moved_pages := (demo_context (demo_doc 1 2 [obj 1 10; obj 2 20; obj 3 30]) (demo_doc 1 2 [obj 1 10; obj 2 40; obj 3 30])) (only parsing).
Lemma extended_asks_first_witness :
  isSignatureExtendedByNonSafeUpdates moved_pages demo_sig = Ret false ∧
  map safeUpdate (PDFDocRevisions moved_pages) = [true; true; false] ∧
  isCoversWholeDocument moved_pages demo_sig = Ret false.
Proof.
  split; [|vm_compute; auto].
  refine (eq_trans (proj1 (extended_asks_first moved_pages demo_sig 0 _)) _); vm_compute; reflexivity.
Defined.
(** Two revisions that add an object each. *)
Notation additions := (demo_context (demo_doc 1 2 [obj 1 10; obj 2 20; obj 3 30])
  (demo_doc 1 2 [obj 1 10; obj 2 20; obj 3 30; obj 4 40])) (only parsing).
Notation demo_new d2 d3 := (new_PDFSignatureContext (demo_load (demo_doc 1 2 [obj 1 10; obj 2 20]) d2 d3) no_order
  (DefaultGeneralSafeObjects no_order) demo_bytes) (only parsing).
Lemma covers_whole_sound_witness :
  ∃ idx r, PDFDocRevisions additions !! idx = Some r ∧ signed_length demo_sig = Ret (Z.of_nat (getLength r)) ∧
    ∀ i last next, idx ≤ i → PDFDocRevisions additions !! i = Some last → PDFDocRevisions additions !! S i = Some next →
      kept_since no_order last next.
Proof.
  eapply (covers_whole_sound (demo_load (demo_doc 1 2 [obj 1 10; obj 2 20]) (demo_doc 1 2 [obj 1 10; obj 2 20; obj 3 30])
    (demo_doc 1 2 [obj 1 10; obj 2 20; obj 3 30; obj 4 40])) no_order (DefaultGeneralSafeObjects no_order) demo_bytes).
  - vm_compute. reflexivity.
  - vm_compute. reflexivity.
Defined.
Definition no_moves (last next : gmap COSObjectKey Z) : bool :=
  forallb (λ p, match last !! fst p with Some old => Z.eqb old (snd p) | None => true end) (map_to_list next).
Lemma no_moves_spec last next k old new :
  no_moves last next = true → last !! k = Some old → next !! k = Some new → old = new.
Proof.
  unfold no_moves. rewrite forallb_forall. intros H Ho Hn. specialize (H (k, new)). simpl in H. rewrite Ho in H.
  apply Z.eqb_eq, H, list_elem_of_In. by apply elem_of_map_to_list.
Qed.
(** The last two revisions bring a catalog of their own with pages of their own. *)
Notation replaced := (demo_context (demo_doc 8 9 [obj 1 10; obj 2 20; obj 8 30; obj 9 40])
  (demo_doc 8 9 [obj 1 10; obj 2 20; obj 8 30; obj 9 40])) (only parsing).
Lemma additions_covered_witness :
  isCoversWholeDocument replaced demo_sig = Ret true ∧
  map (rootObjectId ∘ loaded) (PDFDocRevisions replaced) = [1; 8; 8]%Z.
Proof.
  split; [|vm_compute; reflexivity].
  apply (additions_covered (demo_load (demo_doc 1 2 [obj 1 10; obj 2 20]) (demo_doc 8 9 [obj 1 10; obj 2 20; obj 8 30; obj 9 40])
    (demo_doc 8 9 [obj 1 10; obj 2 20; obj 8 30; obj 9 40])) no_order (DefaultGeneralSafeObjects no_order) demo_bytes _ _ 0).
  - vm_compute. reflexivity.
  - vm_compute. reflexivity.
  - intros i last next _ Hl Hn k old new. apply no_moves_spec.
    destruct i as [|[|i]]; [| |destruct i; discriminate Hn];
      injection Hl as <-; injection Hn as <-; vm_compute; reflexivity.
Defined.

(** ** The pieces of a document *)
(** The positions below [n] that [p] accepts, from the last to the first. *)
Fixpoint below (p : nat → bool) (n : nat) : list nat :=
  match n with 0 => [] | S m => if p m then m :: below p m else below p m end.
Lemma below_head p n i : head (below p n) = Some i → i < n ∧ p i = true ∧ below p n = i :: below p i.
Proof.
  induction n as [|n IH]; simpl; [done|]. destruct (p n) eqn:E.
  - intros [= <-]. auto with lia.
  - intros H. destruct (IH H) as (? & ? & ?). auto with lia.
Qed.
Lemma below_none p n : head (below p n) = None → below p n = [].
Proof. by destruct (below p n). Qed.
Lemma below_gap p m n : m ≤ n → (∀ j, m ≤ j < n → p j = false) → below p n = below p m.
Proof.
  induction n as [|n IH]; intros Hle H; [by replace m with 0 by lia|]. destruct (decide (m = S n)) as [->|]; [done|].
  simpl. rewrite H by lia. apply IH; [lia|]. intros j ?. apply H. lia.
Qed.
Lemma below_ext p q n : (∀ j, j < n → p j = q j) → below p n = below q n.
Proof. induction n as [|n IH]; intros H; [done|]. simpl. rewrite H by lia. rewrite IH; [done|]. intros. apply H. lia. Qed.
Lemma below_shift p n : below p (S n) = map S (below (λ i, p (S i)) n) ++ (if p 0 then [0] else []).
Proof.
  induction n as [|n IH]; [simpl; by destruct (p 0)|]. change (below p (S (S n))) with (if p (S n) then S n :: below p (S n) else below p (S n)).
  rewrite IH. simpl. by destruct (p (S n)).
Qed.
Lemma below_lt p n i : i ∈ below p n → i < n ∧ p i = true.
Proof.
  induction n as [|n IH]; simpl; [by intros ?%elem_of_nil|]. destruct (p n) eqn:E.
  - intros [->|Hi]%elem_of_cons; [auto with lia|]. destruct (IH Hi). auto with lia.
  - intros Hi. destruct (IH Hi). auto with lia.
Qed.
Definition found (t s : string) (i : nat) : bool := String.prefix t (str_drop i s).
Lemma last_index_below t s i acc :
  last_index t s i acc = match head (below (found t s) (S (str_length s))) with Some j => Some (i + j) | None => acc end.
Proof.
  revert i acc. induction s as [|c s IH]; intros i acc.
  - change (S (str_length "")) with 1. cbn [last_index below]. change (found t "" 0) with (String.prefix t "").
    destruct (String.prefix t ""); simpl; [f_equal; lia|done].
  - cbn [last_index]. rewrite IH. change (str_length (String c s)) with (S (str_length s)).
    rewrite (below_shift (found t (String c s))).
    change (below (λ i, found t (String c s) (S i))) with (below (found t s)).
    destruct (below (found t s) (S (str_length s))) as [|j l]; cbn [map app head]; [|f_equal; lia].
    change (found t (String c s) 0) with (String.prefix t (String c s)).
    destruct (String.prefix t (String c s)); cbn [head]; [f_equal; lia|done].
Qed.
Lemma lastIndexOf_below s t : lastIndexOf_text s t = head (below (found t s) (S (str_length s))).
Proof. unfold lastIndexOf_text. rewrite last_index_below. by destruct (head _). Qed.

Lemma str_take_length n s : n ≤ str_length s → str_length (str_take n s) = n.
Proof.
  unfold str_length. revert s. induction n as [|n IH]; intros [|c s]; simpl; try lia. intros H. rewrite IH; lia.
Qed.
Lemma prefix_take t n s : String.prefix t (str_take n s) = String.prefix t s && (str_length t <=? n).
Proof.
  unfold str_length. revert n s. induction t as [|a t IH]; intros n s; [by destruct (str_take n s), s|].
  destruct n as [|n]; [simpl; by rewrite andb_false_r|]. destruct s as [|c s]; [done|].
  cbn [str_take String.prefix]. destruct (ascii_dec a c); [|done]. apply IH.
Qed.
Lemma drop_take i n s : str_drop i (str_take n s) = str_take (n - i) (str_drop i s).
Proof.
  revert n s. induction i as [|i IH]; intros n s; [rewrite Nat.sub_0_r; by destruct s, n|].
  destruct n as [|n]; [by destruct s|]. destruct s as [|c s]; [simpl; by destruct (n - i)|]. apply IH.
Qed.


(** The markers of a document. *)
Definition is_marker (b : string) (i : nat) : bool := found EOF b i.
Lemma marker_take b n i : is_marker (str_take n b) i = is_marker b i && (5 <=? n - i).
Proof. unfold is_marker, found. by rewrite drop_take, prefix_take. Qed.
Lemma found_fits t b i : found t b i = true → t ≠ ""%string → i + str_length t ≤ str_length b.
Proof.
  unfold found, str_length. revert i. induction b as [|c b IH]; intros i H Ht.
  - destruct t; [done|]. by destruct i.
  - destruct i as [|i]; [|simpl in *; specialize (IH i H Ht); lia]. simpl str_drop in H. clear IH Ht. simpl.
    revert H. change (S (String.length b)) with (String.length (String c b)). generalize (String c b). clear.
    induction t as [|a t IH]; intros [|d s]; simpl; try lia; try done. destruct (ascii_dec a d); [|done]. intros H. specialize (IH s H). lia.
Qed.
Lemma prefix_app t s : String.prefix t s = true → ∃ u, s = (t ++ u)%string.
Proof.
  revert s. induction t as [|a t IH]; intros s H; [by exists s|]. destruct s as [|c s]; [done|]. simpl in H.
  destruct (ascii_dec a c) as [->|]; [|done]. destruct (IH s H) as [u ->]. by exists u.
Qed.
(** Markers do not overlap. *)
Lemma marker_gap b i j : is_marker b i = true → is_marker b j = true → j < i → j + 5 ≤ i.
Proof.
  unfold is_marker, found. intros Hi Hj Hlt. apply prefix_app in Hj as [u Hu].
  replace i with (j + (i - j)) in Hi by lia. rewrite <- str_drop_drop, Hu in Hi.
  destruct (decide (5 ≤ i - j)); [lia|]. exfalso. assert (E : i - j = 1 ∨ i - j = 2 ∨ i - j = 3 ∨ i - j = 4) by lia.
  destruct E as [E|[E|[E|E]]]; rewrite E in Hi; discriminate Hi.
Qed.
Lemma past_newline_bounds b n : n ≤ past_newline b n ≤ n + 2.
Proof. unfold past_newline. destruct (byte_is 10 b n); [lia|]. destruct (_ && _); lia. Qed.
Lemma past_newline_length b n : n ≤ str_length b → past_newline b n ≤ str_length b.
Proof.
  assert (G : ∀ k m, byte_is k b m = true → m < str_length b).
  { intros k m. unfold byte_is, str_length. destruct (String.get m b) eqn:E; [|done]. intros _. revert m E.
    induction b as [|c b IH]; intros m E; [by destruct m|]. destruct m as [|m]; [simpl; lia|]. simpl in *.
    specialize (IH m E). lia. }
  intros H. unfold past_newline. destruct (byte_is 10 b n) eqn:E; [apply G in E; lia|].
  destruct (byte_is 13 b n && _) eqn:E2; [|done]. apply andb_true_iff in E2 as [_ E2]. apply G in E2. lia.
Qed.
(** The last marker of the first [n] bytes. *)
Lemma last_marker b n : n ≤ str_length b → lastIndexOf_text (str_take n b) EOF = head (below (is_marker b) (n - 4)).
Proof.
  intros Hn. rewrite lastIndexOf_below, str_take_length by done.
  rewrite (below_ext _ (λ i, is_marker b i && (5 <=? n - i))) by (intros; apply marker_take).
  rewrite (below_gap _ (n - 4)); [|lia|].
  - f_equal. apply below_ext. intros j Hj. destruct (Nat.leb_spec 5 (n - j)); [by rewrite andb_true_r|lia].
  - intros j Hj. destruct (Nat.leb_spec 5 (n - j)); [lia|by rewrite andb_false_r].
Qed.
(** Where the search for the piece before a marker starts. *)
Lemma marker_before b i : is_marker b i = true → below (is_marker b) (past_newline b (i + 5) - 5 - 4) = below (is_marker b) i.
Proof.
  intros Hi. pose proof (past_newline_bounds b (i + 5)). symmetry. apply below_gap; [lia|]. intros j Hj.
  destruct (is_marker b j) eqn:E; [|done]. apply (marker_gap b i j Hi) in E; lia.
Qed.
(** The end of the piece of a marker. *)
Definition piece_end (b : string) (i : nat) : nat := past_newline b (i + 5).
(** A byte range that is cut short throws, when a piece is compared with it. *)
Definition short_range (sig : PDSignature) : Prop := length (byteRange sig) < 4.
Definition ends_at (sigs : list PDSignature) (n : nat) : Prop := ∃ sig, sig ∈ sigs ∧ signed_length sig = Ret (Z.of_nat n).
Lemma signed_by_spec sigs len acc :
  match signed_by sigs len acc with
  | Ret r => fst r = true ↔ fst acc = true ∨ ends_at sigs len
  | Throw _ => ∃ sig, sig ∈ sigs ∧ short_range sig
  end.
Proof.
  revert acc. induction sigs as [|sig sigs IH]; intros acc; cbn [signed_by].
  { split; [by left|]. intros [?|(? & []%not_elem_of_nil & _)]; done. }
  destruct (signed_length sig) as [z|e] eqn:Hz; mstep.
  2:{ exists sig. split; [left|]. unfold signed_length in Hz. unfold short_range.
      destruct (byteRange sig) as [|? [|? [|? [|? ?]]]]; simpl; first [lia|done]. }
  match goal with |- context [signed_by sigs len ?a] => specialize (IH a) end.
  destruct (signed_by sigs len _) as [r|e]; [|destruct IH as (x & ? & ?); exists x; split; [by right|done]].
  rewrite IH. unfold ends_at. setoid_rewrite elem_of_cons. destruct (Z.eqb_spec z (Z.of_nat len)) as [->|Hne]; simpl.
  - split; [intros _; right; exists sig; auto|by left].
  - split; [naive_solver|]. intros [?|(x & [->|?] & Hx)]; [by left|congruence|right; eauto].
Qed.
(** What the search for pieces gives: the ends after the markers, each known to be signed
    when a byte range ends there. *)
Definition pieces_found (b : string) (sigs : list PDSignature) (n : nat) (res : outcome (list Segment)) : Prop :=
  match res with
  | Ret l => map rev_length l = map (piece_end b) (below (is_marker b) n) ∧
      Forall (λ r, signature r = true ↔ ends_at sigs (rev_length r)) l
  | Throw _ => ∃ sig, sig ∈ sigs ∧ short_range sig
  end.
Lemma revisions_below b sigs n fuel prior :
  n < fuel →
  (let len := match prior with None => str_length b | Some r => rev_length r - 5 end in
   len ≤ str_length b ∧ below (is_marker b) (len - 4) = below (is_marker b) n) →
  ∃ res, revisions fuel b sigs prior = Some res ∧ pieces_found b sigs n res.
Proof.
  revert fuel prior. induction n as [n IH] using lt_wf_ind. intros fuel prior Hf [Hlen Hb].
  destruct fuel as [|fuel]; [lia|]. cbn [revisions]. unfold getRevision. rewrite last_marker, Hb by done.
  destruct (head (below (is_marker b) n)) as [i|] eqn:Hh.
  2:{ exists (Ret []). split; [done|]. split; [by rewrite below_none|constructor]. }
  apply below_head in Hh as (Hi & Hm & Eb). pose proof (signed_by_spec sigs (past_newline b (i + 5)) (false, false)) as Hs.
  destruct (signed_by _ _ _) as [[v ts]|e]; [|by exists (Throw e)].
  unfold mbind, outcome_bind. cbn [fst snd] in *.
  destruct (IH i Hi fuel (Some (mkSegment (past_newline b (i + 5)) v ts))) as (res & Hr & Hres); [lia| |].
  { cbn [rev_length]. split; [|by apply marker_before]. pose proof (found_fits EOF b i Hm ltac:(done)) as Hfit.
    pose proof (past_newline_length b (i + 5) Hfit). lia. }
  rewrite Hr. destruct res as [l|e]; [|by exists (Throw e)]. destruct Hres as [Hl Hall]. eexists. split; [done|].
  split; [cbn [map rev_length]; by rewrite Eb, Hl|]. constructor; [|done]. cbn [signature rev_length]. rewrite Hs. naive_solver.
Qed.
Lemma revisions_are_markers b sigs :
  ∃ res, revisions (S (str_length b)) b sigs None = Some res ∧ pieces_found b sigs (str_length b) res.
Proof.
  apply revisions_below; [lia|]. split; [done|]. symmetry. apply below_gap; [lia|]. intros j Hj.
  destruct (is_marker b j) eqn:E; [|done]. apply found_fits in E; [|done]. unfold EOF, str_length in *. simpl in E. lia.
Qed.

Section Pieces.
Context (loadPDF : string → option PDDocument) (hashOrder : ∀ A, list (string * A) → list (string * A)).
Context (provider : GeneralSafeObjects).
(** The first [n] bytes are a document with a root object. *)
Definition loads (b : string) (n : nat) : bool :=
  match load_revision loadPDF b (mkSegment n false false) with Some _ => true | None => false end.
Definition loaded_length (l : Loaded) : nat := rev_length (segment l).
Lemma load_revision_spec b r :
  match load_revision loadPDF b r with
  | Some l => loads b (rev_length r) = true ∧ segment l = r
  | None => loads b (rev_length r) = false
  end.
Proof.
  unfold loads, load_revision. cbn [rev_length]. destruct (loadPDF _) as [doc|]; [|done]. simpl.
  destruct (trailer _) as [es|]; [|done]. simpl. by destruct (entry "Root" es) as [[]|].
Qed.
Lemma loaded_lengths b l : map loaded_length (omap (load_revision loadPDF b) l) = List.filter (loads b) (map rev_length l).
Proof.
  induction l as [|r l IH]; [done|]. cbn [map List.filter]. pose proof (load_revision_spec b r) as H.
  change (omap (load_revision loadPDF b) (r :: l)) with
    (match load_revision loadPDF b r with Some x => x :: omap (load_revision loadPDF b) l | None => omap (load_revision loadPDF b) l end).
  destruct (load_revision loadPDF b r) as [x|]; [destruct H as [-> <-]; cbn [map]; by rewrite IH|by rewrite H].
Qed.
Lemma judged_lengths last l : map getLength (judge_revisions hashOrder provider last l) = map loaded_length l.
Proof. revert last. induction l as [|r l IH]; intros last; [done|]. simpl. by rewrite IH. Qed.
Lemma judged_loaded last l r : r ∈ judge_revisions hashOrder provider last l → loaded r ∈ l.
Proof.
  revert last. induction l as [|x l IH]; intros last; simpl; [by intros ?%elem_of_nil|].
  intros [->|H]%elem_of_cons; [left|right; by eapply IH].
Qed.
Lemma kept_segment b l x : x ∈ sort_revisions (omap (load_revision loadPDF b) l) → segment x ∈ l.
Proof.
  unfold sort_revisions. rewrite merge_sort_Permutation. intros (r & Hr & Hx)%list_elem_of_omap.
  pose proof (load_revision_spec b r) as H. rewrite Hx in H. by destruct H as [_ ->].
Qed.
(** Sorting by length a list that is sorted the other way round turns it round. *)
Lemma sort_descending l : StronglySorted (λ a b, b ≤ a) (map loaded_length l) →
  map loaded_length (sort_revisions l) = rev (map loaded_length l).
Proof.
  intros Hs. apply (StronglySorted_unique le).
  - unfold sort_revisions. assert (H : StronglySorted by_length (merge_sort by_length l)).
    { apply StronglySorted_merge_sort; [intros a b c ? ?; unfold by_length in *; lia|intros a b; unfold by_length; lia]. }
    clear Hs. induction H as [|x k _ IH Hx]; simpl; constructor; [done|]. apply Forall_forall.
    intros n Hn. change (n ∈ loaded_length <$> k) in Hn. apply list_elem_of_fmap in Hn as (y & -> & Hy).
    exact (proj1 (Forall_forall _ _) Hx y Hy).
  - induction Hs as [|x k _ IH Hx]; simpl; [constructor|]. apply StronglySorted_app. split; [|split; [done|]].
    + intros a c Ha ->%list_elem_of_singleton. apply (proj1 (Forall_forall _ _) Hx). apply list_elem_of_In. apply list_elem_of_In in Ha.
      by apply List.in_rev.
    + by repeat constructor.
  - rewrite <- Permutation_rev. unfold sort_revisions. apply Permutation_map, merge_sort_Permutation.
Qed.
Lemma ends_descending b n : StronglySorted (λ x y, y ≤ x) (map (piece_end b) (below (is_marker b) n)).
Proof.
  induction n as [|n IH]; simpl; [constructor|]. destruct (is_marker b n) eqn:E; [|done]. simpl. constructor; [done|].
  apply Forall_forall. intros x Hx. change (x ∈ piece_end b <$> below (is_marker b) n) in Hx.
  apply list_elem_of_fmap in Hx as (j & -> & [Hj Hm]%below_lt). pose proof (marker_gap b n j E Hm Hj).
  unfold piece_end. pose proof (past_newline_bounds b (j + 5)). pose proof (past_newline_bounds b (n + 5)). lia.
Qed.
Lemma filter_sorted (R : nat → nat → Prop) (p : nat → bool) l : StronglySorted R l → StronglySorted R (List.filter p l).
Proof.
  induction 1 as [|x l _ IH Hx]; simpl; [constructor|]. destruct (p x); [|done]. constructor; [done|].
  apply Forall_forall. intros y [Hy _]%filter_elem. exact (proj1 (Forall_forall _ _) Hx y Hy).
Qed.
Lemma filter_rev_nat (p : nat → bool) l : rev (List.filter p l) = List.filter p (rev l).
Proof. induction l as [|x l IH]; [done|]. simpl. rewrite List.filter_app, <- IH. simpl. destruct (p x); simpl; [done|by rewrite app_nil_r]. Qed.
(** C14. A document is cut at its markers and nowhere else: the search for markers ends, and
    the context is built unless the document does not load or one of its signatures has a
    byte range of less than four numbers.  It has the bytes and the signatures of the
    document; its revisions, in the order of the bytes, are the pieces from the start of the
    document to the line end after each marker that are documents with a root object; and a
    revision is known as signed exactly when the byte range of a signature ends with it. *)
Theorem context_pieces bytes :
  match new_PDFSignatureContext loadPDF hashOrder provider bytes with
  | None => False
  | Some (Throw _) => loadPDF bytes = None ∨
      ∃ doc sig, loadPDF bytes = Some doc ∧ sig ∈ getSignatureDictionaries doc ∧ short_range sig
  | Some (Ret c) =>
      pdfBytes c = bytes ∧ (∃ doc, loadPDF bytes = Some doc ∧ signatures c = getSignatureDictionaries doc) ∧
      map getLength (PDFDocRevisions c)
      = List.filter (loads bytes) (map (piece_end bytes) (rev (below (is_marker bytes) (str_length bytes)))) ∧
      ∀ r, r ∈ PDFDocRevisions c → signature (segment (loaded r)) = true ↔ ends_at (signatures c) (getLength r)
  end.
Proof.
  unfold new_PDFSignatureContext. destruct (loadPDF bytes) as [doc|]; [|by left].
  destruct (revisions_are_markers bytes (getSignatureDictionaries doc)) as (res & -> & Hres).
  destruct res as [l|e]; [|destruct Hres as (sig & ? & ?); right; by exists doc, sig]. destruct Hres as [Hl Hall].
  split; [done|]. split; [by exists doc|]. cbn [PDFDocRevisions signatures]. split.
  - rewrite judged_lengths, sort_descending; rewrite loaded_lengths, Hl.
    + by rewrite filter_rev_nat, map_rev.
    + apply filter_sorted, ends_descending.
  - intros r Hr%judged_loaded%kept_segment. rewrite Forall_forall in Hall. by apply Hall.
Qed.
End Pieces.
