(* ===== verification/Timestamps.v ===== *)
(** * Verified times and the PKIX decision

    Model of [TimeStamp.java] and [BasicTimstampPolicyVerifier.java] of sigval-commons and of
    the part of the PKIX policies of sigval-pdf, sigval-xml and sigval-jose that does not
    depend on the format of the signature.  Certificates are validated by a
    [CertificateValidator], such as the one of [PathValidator]. *)
From Stdlib Require Import ZArith Lia Ascii String.
From stdpp Require Import base gmap strings list.
From S2P Require Import Prelude CertModel.
From S2P Require Import Validity PathValidator.

(** ** Results *)
Inductive ValidationConclusion := PASSED | FAILED | INDETERMINATE.
(** [SignatureValidationResult.Status], the values the code sets. *)
Inductive Status := SUCCESS | ERROR_INVALID_SIGNATURE | ERROR_SIGNER_INVALID | ERROR_SIGNER_NOT_ACCEPTED | ERROR_NOT_TRUSTED |
  ERROR_BAD_FORMAT | INTERDETERMINE.
#[export] Instance ValidationConclusion_eq_dec : EqDecision ValidationConclusion.
Proof. solve_decision. Defined.
#[export] Instance Status_eq_dec : EqDecision Status.
Proof. solve_decision. Defined.
Record PolicyValidationClaims := mkClaims { pol : string; res : ValidationConclusion; msg : string }.
Record PolicyValidationResult := mkPolicyResult { claims : PolicyValidationClaims; policyStatus : Status }.
Definition SIG_VALIDATION_POLICY_BASIC_VALIDATION : string := "http://id.swedenconnect.se/svt/sigval-policy/basic/01".
Definition SIG_VALIDATION_POLICY_PKIX_VALIDATION : string := "http://id.swedenconnect.se/svt/sigval-policy/pkix/01".
Definition SIG_VALIDATION_POLICY_TIMESTAMPED_PKIX_VALIDATION : string := "http://id.swedenconnect.se/svt/sigval-policy/ts-pkix/01".

(** ** Timestamps *)
(** The serial number in hexadecimal; the time is absent when it does not parse; the hash is
    the URI that the registry has for its algorithm, absent when it has none. *)
Record TSTInfo := mkTSTInfo { tsSerial : string; genTime : option Z; hashUri : option string }.
Record TimeStamp := mkTimeStamp {
  sigValid : bool;
  policyValidationClaimsList : list PolicyValidationClaims;
  tstInfo : option TSTInfo;
  sigCert : option X509Certificate
}.
(** What the parser and the verifier of BouncyCastle answer for a timestamp. *)
Record TimeStampData := mkTimeStampData {
  tsCerts : X509Certificate * list X509Certificate;
  tsInfo : outcome TSTInfo;
  tsSignature : outcome unit;
  tsImprint : bool
}.
(** The claims about a verified time, and the result that holds them with the timestamp they
    come from; either may be null. *)
Record TimeValidationClaims := mkTimeClaims {
  tv_id : string; tv_iss : string; tv_time : Z; tv_type : string; tv_val : list PolicyValidationClaims;
  tv_hash : option string }.
Record TimeValidationResult := mkTimeResult {
  timeValidationClaims : option TimeValidationClaims; resultStamp : option TimeStamp }.
Definition TIME_VERIFICATION_TYPE_SIG_TIMESTAMP : string := "http://id.swedenconnect.se/svt/timeval-type/sig-timestamp/01".
Definition TIME_VERIFICATION_TYPE_PDF_DOC_TIMESTAMP : string := "http://id.swedenconnect.se/svt/timeval-type/pdf-doc-timestamp/01".

Section Times.
(** [CertificateValidator.validate] and the clock. *)
Context {S : Type} (certificateValidator : X509Certificate → option (list X509Certificate) → MF S ValidateOutcome).
Context (newDate : M S Z).

(** ** [BasicTimstampPolicyVerifier] *)
Section TimestampPolicy.
Context (policy : string) (hashBlackList : list string).
(** The claims, and whether the timestamp is valid. *)
Definition verifyTsPolicy (info : TSTInfo) (cert : X509Certificate) (certList : list X509Certificate) :
    MF S (PolicyValidationClaims * bool) :=
  match hashUri info with
  | None => mret (mkClaims policy FAILED "Error parsing Time Stamp digest algorithm", false)
  | Some uri =>
      if existsb (equalsIgnoreCase uri) hashBlackList
      then mret (mkClaims policy FAILED ("Using blacklisted hash algorithm for Time Stamp: " ++ uri), false)
      else
        r ← mf_attempt (certificateValidator cert (Some certList));
        match r with
        | Ret (VResult _) => mret (mkClaims policy PASSED "", true)
        | _ => mret (mkClaims policy FAILED "Time Stamp signing certificate is not trusted", false)
        end
  end.
(** [TimeStamp.init]: an exception leaves what was read and no valid signature. *)
Definition new_TimeStamp (data : outcome TimeStampData) : MF S TimeStamp :=
  match data with
  | Throw _ => mret (mkTimeStamp false [] None None)
  | Ret d =>
      let '(cert, certList) := tsCerts d in
      match tsInfo d with
      | Throw _ => mret (mkTimeStamp false [] None (Some cert))
      | Ret info =>
          if is_Ret (tsSignature d) && tsImprint d then
            '(result, validTimestamp) ← verifyTsPolicy info cert certList;
            mret (mkTimeStamp validTimestamp [result] (Some info) (Some cert))
          else mret (mkTimeStamp false [] (Some info) (Some cert))
      end
  end.
End TimestampPolicy.
Definition hasVerifiedTimestamp (ts : TimeStamp) : bool :=
  let l := policyValidationClaimsList ts in
  sigValid ts && (match l with [] => true | _ => false end || existsb (λ c, bool_decide (res c = PASSED)) l).

(** ** The time of a timestamp *)
Section Verified.
Context (subjectName : X509Certificate → string).
(** [getVerifiedTimeFromTimeStamp]; null when the time or the certificate is missing. *)
Definition getVerifiedTimeFromTimeStamp (ts : TimeStamp) (type : string) : option TimeValidationClaims :=
  info ← tstInfo ts; cert ← sigCert ts; t ← genTime info;
  Some (mkTimeClaims (tsSerial info) (subjectName cert) (Z.quot t 1000) type (policyValidationClaimsList ts) None).
Definition verified_time (type : string) (ts : TimeStamp) : option TimeValidationResult :=
  c ← getVerifiedTimeFromTimeStamp ts type; Some (mkTimeResult (Some c) (Some ts)).
End Verified.

(** ** The PKIX decision *)
Section Pkix.
Context (enforceCurrentTimeValidation : bool) (revocationGracePeriod : Z).
Definition pkix_policy : string :=
  if enforceCurrentTimeValidation then SIG_VALIDATION_POLICY_PKIX_VALIDATION
  else SIG_VALIDATION_POLICY_TIMESTAMPED_PKIX_VALIDATION.
(** The earliest time of the timestamps, starting from now; a time that does not parse is
    passed over. *)
Fixpoint earliest (firstDate : Z) (l : list TimeStamp) : outcome Z :=
  match l with
  | [] => Ret firstDate
  | ts :: l' =>
      match tstInfo ts with
      | None => Throw NullPointerException
      | Some info =>
          earliest match genTime info with
                   | Some t => if Z.ltb t firstDate then t else firstDate
                   | None => firstDate
                   end l'
      end
  end.
(** The verified timestamps of the results; a result without one is dereferenced. *)
Fixpoint verified_stamps (l : list TimeValidationResult) : outcome (list TimeStamp) :=
  match l with
  | [] => Ret []
  | r :: l' =>
      match resultStamp r with
      | None => Throw NullPointerException
      | Some ts => rest ← verified_stamps l'; Ret (if hasVerifiedTimestamp ts then ts :: rest else rest)
      end
  end.
Definition checkRevocationTime (st : ValidationStatus) (times : list TimeValidationResult) : MF S bool :=
  match revocationTime st with
  | None => mret false
  | Some revoked =>
      stamps ← run (lift (verified_stamps times));
      firstDate ← run newDate;
      first ← run (lift (earliest firstDate stamps));
      mret (Z.ltb (wrap64 (first + revocationGracePeriod)) revoked)
  end.
(** The loop over the revoked statuses: all are late enough. *)
Fixpoint all_late (l : list ValidationStatus) (times : list TimeValidationResult) : MF S bool :=
  match l with
  | [] => mret true
  | st :: l' => b ← checkRevocationTime st times; if (b : bool) then all_late l' times else mret false
  end.
Definition has_validity (v : CertificateValidity) (l : list ValidationStatus) : bool :=
  existsb (λ st, bool_decide (validity st = v)) l.
(** The decision of a PKIX policy, from what a result recorded: an exception, the result of
    the path and the times. *)
Definition pkix_judge (exception : option string) (certificateValidationResult : option PathValidationResult)
    (timeValidationResults : list TimeValidationResult) : MF S PolicyValidationResult :=
  let result (c : ValidationConclusion) (m : string) (st : Status) := mkPolicyResult (mkClaims pkix_policy c m) st in
  let finish : MF S PolicyValidationResult :=
    match exception with
    | Some m => mret (result FAILED m ERROR_INVALID_SIGNATURE)
    | None => mret (result PASSED "OK" SUCCESS)
    end in
  certValResult ← run (deref certificateValidationResult);
  statusList ← run (deref (validationStatusList certValResult));
  if has_validity INVALID statusList
  then mret (result FAILED "Invalid certificate in certificate path" ERROR_SIGNER_INVALID)
  else if has_validity UNKNOWN statusList
  then mret (result INDETERMINATE "Validity of the signature could not be determined" ERROR_NOT_TRUSTED)
  else if negb enforceCurrentTimeValidation then
    match List.filter (λ st, bool_decide (validity st = REVOKED)) statusList with
    | [] => finish
    | revokedStatusList =>
        late ← all_late revokedStatusList timeValidationResults;
        mret (if (late : bool) then result PASSED "Certificate revoked after trusted timestamp time" ERROR_SIGNER_INVALID
              else result FAILED "Certificate revoked" ERROR_SIGNER_INVALID)
    end
  else finish.
(** An exception on the way is a failure of the policy. *)
Definition pkix_caught (getMessage : exn → string) (decision : MF S PolicyValidationResult) : MF S PolicyValidationResult :=
  o ← mf_attempt decision;
  match o with
  | Ret p => mret p
  | Throw e => mret (mkPolicyResult (mkClaims pkix_policy FAILED
                       ("Unable to obtain path validation results: " ++ getMessage e)) ERROR_INVALID_SIGNATURE)
  end.
End Pkix.
End Times.

(** ** What the decision establishes *)
Section Decision.
Context {S : Type} (newDate : M S Z).
(** The statuses of the path are neither INVALID nor UNKNOWN. *)
Definition judged_path (p : PathValidationResult) (l : list ValidationStatus) : Prop :=
  validationStatusList p = Some l ∧ ∀ st, st ∈ l → validity st = VALID ∨ validity st = REVOKED.
(** Revoked later than the earliest verified timestamp (or the reading of the clock) by
    the grace period. *)
Definition revoked_late (grace : Z) (times : list TimeValidationResult) (st : ValidationStatus) : Prop :=
  ∃ revoked stamps now first s s', revocationTime st = Some revoked ∧ verified_stamps times = Ret stamps ∧
    newDate s = (Ret now, s') ∧ earliest now stamps = Ret first ∧ (wrap64 (first + grace) < revoked)%Z.
Lemma has_validity_false v l : has_validity v l = false ↔ ∀ st, st ∈ l → validity st ≠ v.
Proof.
  unfold has_validity. rewrite <- not_true_iff_false, existsb_exists. split.
  - intros H st Hst E. apply H. exists st. split; [by apply list_elem_of_In|]. by apply bool_decide_eq_true.
  - intros H (st & Hst & E%bool_decide_eq_true). by apply (H st); [apply list_elem_of_In|].
Qed.
Lemma all_late_spec grace l times s s' : all_late newDate grace l times s = Some (Ret true, s') →
  ∀ st, st ∈ l → revoked_late grace times st.
Proof.
  revert s. induction l as [|x l IH]; intros s H st Hst; [by apply elem_of_nil in Hst|]. simpl in H. mstep.
  destruct (checkRevocationTime newDate grace x times s) as [[[b|e] s1]|] eqn:Hx; [|done|done].
  destruct b; [|done]. apply elem_of_cons in Hst as [->|Hst]; [|by eapply IH].
  unfold checkRevocationTime in Hx. mstep. destruct (revocationTime x) as [revoked|] eqn:Hr; [|done].
  destruct (verified_stamps times) as [stamps|e] eqn:Hts; [|done]. destruct (newDate s) as [[now|e] s2] eqn:Hn; [|done].
  destruct (earliest now stamps) as [first|e] eqn:He; [|done]. injection Hx as Hx _.
  exists revoked, stamps, now, first, s, s2. repeat (split; [done|]). by apply Z.ltb_lt.
Qed.
#[local] Arguments all_late : simpl never.
(** What passes the PKIX policy. *)
Lemma pkix_judge_passed enforce grace exception cvr times s p s' :
  pkix_judge newDate enforce grace exception cvr times s = Some (Ret p, s') → res (claims p) = PASSED →
  ∃ path l, cvr = Some path ∧ judged_path path l ∧
    (exception = None ∨
     (enforce = false ∧ (∃ st, st ∈ l ∧ validity st = REVOKED))) ∧
    (enforce = false → ∀ st, st ∈ l → validity st = REVOKED → revoked_late grace times st).
Proof.
  intros H Hp. unfold pkix_judge in H. mstep. destruct cvr as [path|]; simpl in H; [|done].
  destruct (validationStatusList path) as [l|] eqn:Hl; simpl in H; [|done].
  destruct (has_validity INVALID l) eqn:Hi; [by injection H as <- _|].
  destruct (has_validity UNKNOWN l) eqn:Hu; [by injection H as <- _|].
  rewrite has_validity_false in Hi, Hu.
  assert (J : judged_path path l).
  { split; [done|]. intros st Hst. specialize (Hi st Hst). specialize (Hu st Hst). destruct (validity st); naive_solver. }
  exists path, l. split; [done|]. split; [done|]. destruct enforce; simpl in H.
  { split; [left|done]. destruct exception; [by injection H as <- _|done]. }
  destruct (List.filter _ l) as [|st rest] eqn:Hf.
  - split; [left; destruct exception; [by injection H as <- _|done]|]. intros _ st Hst Hv. exfalso.
    assert (E : st ∈ List.filter (λ st, bool_decide (validity st = REVOKED)) l)
      by (apply filter_elem; split; [done|by apply bool_decide_eq_true]). rewrite Hf in E. by apply elem_of_nil in E.
  - assert (Hst : st ∈ List.filter (λ st, bool_decide (validity st = REVOKED)) l) by (rewrite Hf; left).
    apply filter_elem in Hst as [Hst Hv%bool_decide_eq_true].
    destruct (all_late newDate grace (st :: rest) times s) as [[[late|e] s1]|] eqn:Ha; simpl in H; [|done|done].
    destruct late; [|by injection H as <- _]. split; [right; eauto|].
    intros _ x Hx Hxv. eapply all_late_spec; [exact Ha|]. rewrite <- Hf. apply filter_elem.
    split; [done|by apply bool_decide_eq_true].
Qed.
Lemma pkix_judge_status enforce grace exception cvr times s p s' :
  pkix_judge newDate enforce grace exception cvr times s = Some (Ret p, s') → res (claims p) ≠ PASSED → policyStatus p ≠ SUCCESS.
Proof.
  intros H Hp. unfold pkix_judge in H. mstep. destruct cvr as [path|]; simpl in H; [|done].
  destruct (validationStatusList path) as [l|]; simpl in H; [|done].
  destruct (has_validity INVALID l); [by injection H as <- _|]. destruct (has_validity UNKNOWN l); [by injection H as <- _|].
  destruct enforce; simpl in H; [by destruct exception; injection H as <- _|].
  destruct (List.filter _ l) as [|st rest]; [by destruct exception; injection H as <- _|].
  destruct (all_late newDate grace (st :: rest) times s) as [[[late|e] s1]|]; simpl in H; [|done|done].
  by destruct late; injection H as <- _.
Qed.
(** With the enforcement, a path whose statuses are not INVALID or UNKNOWN passes when no
    exception was recorded, revoked or not. *)
Lemma enforced_passes grace path l times s :
  judged_path path l →
  pkix_judge newDate true grace None (Some path) times s
  = Some (Ret (mkPolicyResult (mkClaims SIG_VALIDATION_POLICY_PKIX_VALIDATION PASSED "OK") SUCCESS), s).
Proof.
  intros [Hl Hj]. unfold pkix_judge. mstep. unfold mret, M_ret. cbn beta iota. rewrite Hl. cbn beta iota.
  assert (Hi : ∀ v, v = INVALID ∨ v = UNKNOWN → has_validity v l = false).
  { intros v Hq. apply has_validity_false. intros x Hx E. destruct (Hj x Hx), Hq; congruence. }
  by rewrite !Hi by auto.
Qed.
End Decision.
