(* ===== verification/PdfVerify.v ===== *)
(** * Signature policies and the verification of one PDF signature

    Model of the policies of sigval-pdf/.../policy/impl and of
    PDFSingleSignatureValidatorImpl, over the timestamps of [Timestamps].  BouncyCastle's view
    of the CMS data is a record of what its calls answer; certificates are validated by a
    [CertificateValidator], such as the one of [PathValidator]. *)
From Stdlib Require Import ZArith Lia Ascii String.
From stdpp Require Import base gmap strings list.
From S2P Require Import Prelude CertModel.
From S2P Require Import Validity PathValidator PdfContext Timestamps.

(** ** Document timestamps *)
(** A PDF document timestamp has the byte range it signs. *)
Record PDFDocTimeStamp := mkDocTimeStamp { timeStamp : TimeStamp; tsByteRange : list Z }.

Section Verify.
(** [CertificateValidator.validate], the clock, and the message of an exception. *)
Context {S : Type} (certificateValidator : X509Certificate → option (list X509Certificate) → MF S ValidateOutcome).
Context (newDate : M S Z) (getMessage : exn → string).

(** [PDFDocTimeStamp.isSignatureCovered] *)
Definition isSignatureCovered (ts : PDFDocTimeStamp) (sig : PDSignature) : bool :=
  match signed_length sig, tsByteRange ts with
  | Ret sigEndIndex, _ :: b1 :: _ => Z.ltb sigEndIndex b1
  | _, _ => false
  end.

(** ** The result of a verification

    The recorded exception is given by its message. *)
Record SigResult := mkSigResult {
  pdfSignature : PDSignature;
  coversDocument : bool;
  signedDocument : option string;
  signerCertificate : option X509Certificate;
  status : option Status;
  statusMessage : string;
  exception : option string;
  etsiAdes : bool;
  invalidSignCert : bool;
  timeValidationResults : list TimeValidationResult;
  certificateValidationResult : option PathValidationResult;
  validationPolicyResultList : list PolicyValidationClaims
}.
Definition isSuccess (r : SigResult) : bool := bool_decide (status r = Some SUCCESS).
Definition set_status (st : Status) (r : SigResult) : SigResult :=
  mkSigResult (pdfSignature r) (coversDocument r) (signedDocument r) (signerCertificate r) (Some st) (statusMessage r)
    (exception r) (etsiAdes r) (invalidSignCert r) (timeValidationResults r) (certificateValidationResult r)
    (validationPolicyResultList r).
Definition set_message (m : string) (r : SigResult) : SigResult :=
  mkSigResult (pdfSignature r) (coversDocument r) (signedDocument r) (signerCertificate r) (status r) m
    (exception r) (etsiAdes r) (invalidSignCert r) (timeValidationResults r) (certificateValidationResult r)
    (validationPolicyResultList r).
Definition set_exception (e : string) (r : SigResult) : SigResult :=
  mkSigResult (pdfSignature r) (coversDocument r) (signedDocument r) (signerCertificate r) (status r) (statusMessage r)
    (Some e) (etsiAdes r) (invalidSignCert r) (timeValidationResults r) (certificateValidationResult r)
    (validationPolicyResultList r).
Definition set_ades (ades bad : bool) (r : SigResult) : SigResult :=
  mkSigResult (pdfSignature r) (coversDocument r) (signedDocument r) (signerCertificate r) (status r) (statusMessage r)
    (exception r) ades bad (timeValidationResults r) (certificateValidationResult r) (validationPolicyResultList r).
Definition set_times (l : list TimeValidationResult) (r : SigResult) : SigResult :=
  mkSigResult (pdfSignature r) (coversDocument r) (signedDocument r) (signerCertificate r) (status r) (statusMessage r)
    (exception r) (etsiAdes r) (invalidSignCert r) l (certificateValidationResult r) (validationPolicyResultList r).
Definition set_path (p : PathValidationResult) (r : SigResult) : SigResult :=
  mkSigResult (pdfSignature r) (coversDocument r) (signedDocument r) (signerCertificate r) (status r) (statusMessage r)
    (exception r) (etsiAdes r) (invalidSignCert r) (timeValidationResults r) (Some p) (validationPolicyResultList r).
Definition set_policies (l : list PolicyValidationClaims) (r : SigResult) : SigResult :=
  mkSigResult (pdfSignature r) (coversDocument r) (signedDocument r) (signerCertificate r) (status r) (statusMessage r)
    (exception r) (etsiAdes r) (invalidSignCert r) (timeValidationResults r) (certificateValidationResult r) l.

(** ** Policies *)
(** What a subclass of AbstractBasicPDFSignaturePolicyChecks adds. *)
Class PolicyChecks := {
  getValidationPolicy : string;
  performAdditionalValidityChecks : SigResult → MF S PolicyValidationResult
}.
Definition validatePolicy {Policy : PolicyChecks} (ctx : PDFSignatureContext) (r : SigResult) : MF S PolicyValidationResult :=
  let failed (c : ValidationConclusion) (m : string) (st : Status) := mkPolicyResult (mkClaims getValidationPolicy c m) st in
  if negb (isSuccess r) then mret (failed FAILED (statusMessage r) ERROR_INVALID_SIGNATURE) else
  match isSignatureExtendedByNonSafeUpdates ctx (pdfSignature r) with
  | Throw e => mf_raise e
  | Ret true => mret (failed FAILED "Document content was altered after signing" ERROR_INVALID_SIGNATURE)
  | Ret false =>
      match p ← certificateValidationResult r; validatedCertificatePath p with
      | None | Some [] => mret (failed INDETERMINATE "No valid certificate path was found" ERROR_NOT_TRUSTED)
      | Some _ => performAdditionalValidityChecks r
      end
  end.
Definition BasicPolicy : PolicyChecks := {|
  getValidationPolicy := SIG_VALIDATION_POLICY_BASIC_VALIDATION;
  performAdditionalValidityChecks := λ _,
    mret (mkPolicyResult (mkClaims SIG_VALIDATION_POLICY_BASIC_VALIDATION PASSED "OK") SUCCESS)
|}.

(** ** [PkixPdfSignaturePolicyValidator] *)
Section Pkix.
Context (enforceCurrentTimeValidation : bool) (revocationGracePeriod : Z).
Definition pkix_checks (r : SigResult) : MF S PolicyValidationResult :=
  pkix_judge newDate enforceCurrentTimeValidation revocationGracePeriod
    (exception r) (certificateValidationResult r) (timeValidationResults r).
Definition PkixPolicy : PolicyChecks := {|
  getValidationPolicy := pkix_policy enforceCurrentTimeValidation;
  performAdditionalValidityChecks := λ r, pkix_caught enforceCurrentTimeValidation getMessage (pkix_checks r)
|}.
End Pkix.

(** ** [PDFSingleSignatureValidatorImpl] *)
(** The first entry of an ESS signing certificate attribute: the hash algorithm when it is
    named, and the hash, whose cast may throw. *)
Record ESSCertID := mkESSCertID { essHashAlgo : option string; certHash : outcome string }.
(** The signed attributes: algorithm protection (signature and digest algorithm, null where
    they are not found), and the ESS attributes, whose parsing may throw. *)
Record SignedAttributes := mkSignedAttributes {
  cmsAlgorithmProtect : option (option string * option string);
  essSigningCertV2Attr : option (outcome ESSCertID);
  signingCertAttr : option (outcome ESSCertID)
}.
(** What BouncyCastle answers about the CMS data of a signature. *)
Record CMSData := mkCMSData {
  cmsSigCert : X509Certificate;
  cmsChain : list X509Certificate;
  verifySignerInfo : outcome bool;          (* signerInformation.verify *)
  pkParams : outcome unit;
  encryptionAlgOID : string;
  digestAlgOID : string;
  signedAttributes : option SignedAttributes;
  cmsTimeStamps : list (outcome (outcome TimeStampData))  (* by attribute, whose parsing may throw *)
}.
Section Single.
(** The algorithm registries, which throw NoSuchAlgorithmException, and the digests of a
    certificate by algorithm. *)
Context (getAlgorithmURI : option string → option string → outcome string) (isRegistered : string → bool).
Context (digest : string → outcome (X509Certificate → string)).
Context (SHA1 SHA256 : string).
Context (tsPolicy : string) (hashBlackList : list string) (subjectName : X509Certificate → string).

(** [CMSVerifyUtils.checkAlgoritmConsistency] *)
Definition checkAlgoritmConsistency (signatureAlgorithm : string) (protection : option (option string * option string)) : bool :=
  isRegistered signatureAlgorithm &&
  match protection with
  | None => true
  | Some (sigAlgo, digestAlgo) =>
      match getAlgorithmURI sigAlgo digestAlgo with Ret uri => String.eqb uri signatureAlgorithm | Throw _ => false end
  end.
(** The hash of the attribute against the certificate. *)
Definition pades_exception (e : exn) : SigResult → SigResult :=
  set_message ("Exception while examining Pades signed cert attr: " ++ getMessage e).
Definition check_ess (hash : outcome ((X509Certificate → string) * string)) (cert : X509Certificate) (r : SigResult) : SigResult :=
  match hash with
  | Ret (md, octets) =>
      if String.eqb (md cert) octets then set_status SUCCESS (set_ades (etsiAdes r) false r)
      else set_message "Cert Hash mismatch" r
  | Throw e => pades_exception e r
  end.
(** The algorithm and the hash of the attribute in force, in the order they are read. *)
Definition ess_v2 (attr : outcome ESSCertID) : outcome ((X509Certificate → string) * string) :=
  e ← attr; md ← digest (default SHA256 (essHashAlgo e)); octets ← certHash e; Ret (md, octets).
Definition ess_v1 (attr : outcome ESSCertID) : outcome ((X509Certificate → string) * string) :=
  e ← attr; octets ← certHash e; md ← digest SHA1; Ret (md, octets).
Definition verifyPadesProperties (attrs : SignedAttributes) (cert : X509Certificate) (r : SigResult) : SigResult :=
  let examined := set_status ERROR_SIGNER_INVALID (set_ades true true r) in
  match essSigningCertV2Attr attrs, signingCertAttr attrs with
  | None, None => set_ades false false r
  | Some v2, _ => check_ess (ess_v2 v2) cert examined
  | None, Some v1 => check_ess (ess_v1 v1) cert examined
  end.
(** [checkTimeStamps]; a timestamp is built whatever it holds. *)
Fixpoint checkTimeStamps (l : list (outcome (outcome TimeStampData))) : MF S (list TimeStamp) :=
  match l with
  | [] => mret []
  | Throw e :: _ => mf_raise e
  | Ret d :: l' => ts ← new_TimeStamp certificateValidator tsPolicy hashBlackList d; tss ← checkTimeStamps l'; mret (ts :: tss)
  end.
(** [addVerifiedTimes] *)
Definition addVerifiedTimes (signatureStamps : list TimeStamp) (docTimeStampList : list PDFDocTimeStamp) (r : SigResult) : SigResult :=
  set_times (omap (verified_time subjectName TIME_VERIFICATION_TYPE_SIG_TIMESTAMP) signatureStamps ++
             omap (verified_time subjectName TIME_VERIFICATION_TYPE_PDF_DOC_TIMESTAMP) (map timeStamp docTimeStampList)) r.
(** The certificate of the signer, with what an exception leaves behind. *)
Definition validate_signer (cms : CMSData) (r : SigResult) : MF S SigResult :=
  o ← mf_attempt (certificateValidator (cmsSigCert cms) (Some (cmsChain cms)));
  mret match o with
       | Ret (VResult p) => set_path p r
       | Ret (VExtended cause p) => set_exception (getMessage cause) (set_message (getMessage cause) (set_path p r))
       | Ret (VPathBuilder m) => set_exception m (set_message "Signer certificate failed path validation" r)
       | Throw e => set_exception (getMessage e) (set_message "Signer certificate failed path validation" r)
       end.
(** The policy decides on the result. *)
Definition apply_policy {Policy : PolicyChecks} (ctx : PDFSignatureContext) (r : SigResult) : MF S SigResult :=
  p ← validatePolicy ctx r;
  mret (set_policies [claims p]
    (if bool_decide (res (claims p) = PASSED) then r
     else set_exception (msg (claims p)) (set_message (msg (claims p)) (set_status (policyStatus p) r)))).
Definition bad_signature (m e : string) (r : SigResult) : SigResult :=
  set_message m (set_exception e (set_status ERROR_INVALID_SIGNATURE r)).
(** [verifySignature], after the CMS data has been parsed. *)
Definition verifySignature {Policy : PolicyChecks} (sig : PDSignature) (cms : outcome CMSData)
    (documentTimestamps : list PDFDocTimeStamp) (ctx : PDFSignatureContext) : MF S SigResult :=
  covers ← run (lift (isCoversWholeDocument ctx sig));
  let unsignedDocument := match getSignedDocument ctx sig with Ret b => Some b | Throw _ => None end in
  cms ← run (lift cms);
  let r := mkSigResult sig covers unsignedDocument (Some (cmsSigCert cms)) None "" None false false [] None [] in
  match verifySignerInfo cms with
  | Throw e => mret (bad_signature ("Signature validation failure: " ++ getMessage e) (getMessage e) r)
  | Ret ok =>
      let r := set_status (if ok then SUCCESS else ERROR_INVALID_SIGNATURE) r in
      _ ← run (lift (pkParams cms));
      match getAlgorithmURI (Some (encryptionAlgOID cms)) (Some (digestAlgOID cms)) with
      | Throw e => mret (bad_signature "Signature was signed with unsupported algorithms" (getMessage e) r)
      | Ret signatureAlgorithm =>
          attrs ← run (deref (signedAttributes cms));
          if negb (checkAlgoritmConsistency signatureAlgorithm (cmsAlgorithmProtect attrs))
          then
          let m := "Signature algorithm mismatch in CMS algorithm protection extension" in
          mret (bad_signature m m r)
          else
            let r := if isSuccess r then verifyPadesProperties attrs (cmsSigCert cms) r else r in
            tss ← mf_attempt (checkTimeStamps (cmsTimeStamps cms));
            let r := addVerifiedTimes match tss with Ret l => l | Throw _ => [] end documentTimestamps r in
            r ← validate_signer cms r;
            apply_policy ctx r
      end
  end.
End Single.
End Verify.
