(* ===== verification/PdfVerifyProps.v ===== *)
(** * What a successful PDF signature establishes

    The policy's decision on every status of the path, and from a result with the status
    SUCCESS back to the signature value, the certificate hash, the revisions of the
    document and the certificate path. *)
From Stdlib Require Import ZArith Lia Ascii String.
From stdpp Require Import base gmap strings list.
From S2P Require Import Prelude CertModel.
From S2P Require Import Validity PathValidator PdfContext PdfContextProps Timestamps PdfVerify.

Section Policy.
Context {S : Type} (newDate : M S Z) (getMessage : exn → string).
Lemma pkix_policy_passed enforce grace r s p s' :
  performAdditionalValidityChecks (PolicyChecks := PkixPolicy newDate getMessage enforce grace) r s = Some (Ret p, s') →
  res (claims p) = PASSED →
  ∃ path l, certificateValidationResult r = Some path ∧ judged_path path l ∧
    (exception r = None ∨ (enforce = false ∧ (∃ st, st ∈ l ∧ validity st = REVOKED))) ∧
    (enforce = false → ∀ st, st ∈ l → validity st = REVOKED → revoked_late newDate grace (timeValidationResults r) st).
Proof.
  unfold performAdditionalValidityChecks, PkixPolicy. mstep.
  unfold pkix_caught, pkix_checks. mstep. destruct (pkix_judge _ _ _ _ _ _ s) as [[[q|e] s1]|] eqn:Hq; [|by intros [= <- _]|done].
  intros [= <- _]. by eapply pkix_judge_passed.
Qed.
Lemma validate_policy_passed {PC : PolicyChecks (S := S)} ctx r s p s' :
  validatePolicy ctx r s = Some (Ret p, s') → res (claims p) = PASSED →
  isSuccess r = true ∧ isSignatureExtendedByNonSafeUpdates ctx (pdfSignature r) = Ret false ∧
  (∃ path c cs, certificateValidationResult r = Some path ∧ validatedCertificatePath path = Some (c :: cs)) ∧
  performAdditionalValidityChecks r s = Some (Ret p, s').
Proof.
  unfold validatePolicy. destruct (isSuccess r); [|by intros [= <- _]]. simpl.
  destruct (isSignatureExtendedByNonSafeUpdates ctx (pdfSignature r)) as [[]|e]; [by intros [= <- _]| |done].
  destruct (certificateValidationResult r) as [path|]; simpl; [|by intros [= <- _]].
  destruct (validatedCertificatePath path) as [[|c cs]|] eqn:Hc; [by intros [= <- _]| |by intros [= <- _]].
  intros H Hp. split; [done|]. split; [done|]. split; [|done]. exists path, c, cs. auto.
Qed.
(** A policy whose status is SUCCESS only when it passes. *)
Class SoundPolicy (PC : PolicyChecks (S := S)) := sound_policy r s p s' :
  performAdditionalValidityChecks r s = Some (Ret p, s') → res (claims p) ≠ PASSED → policyStatus p ≠ SUCCESS.
#[export] Instance basic_sound : SoundPolicy BasicPolicy.
Proof. intros r s p s' [= <- _]. by intros []. Qed.
#[export] Instance pkix_sound enforce grace : SoundPolicy (PkixPolicy newDate getMessage enforce grace).
Proof.
  intros r s p s'. unfold performAdditionalValidityChecks, PkixPolicy. mstep.
  unfold pkix_caught, pkix_checks. mstep. destruct (pkix_judge _ _ _ _ _ _ s) as [[[q|e] s1]|] eqn:Hq; [|by intros [= <- _]|done].
  intros [= <- _]. by eapply pkix_judge_status.
Qed.
Lemma validate_policy_status {PC : PolicyChecks (S := S)} `{!SoundPolicy PC} ctx r s p s' :
  validatePolicy ctx r s = Some (Ret p, s') → res (claims p) ≠ PASSED → policyStatus p ≠ SUCCESS.
Proof.
  unfold validatePolicy. destruct (isSuccess r); [|by intros [= <- _]]. simpl.
  destruct (isSignatureExtendedByNonSafeUpdates ctx (pdfSignature r)) as [[]|e]; [by intros [= <- _]| |done].
  destruct (certificateValidationResult r) as [path|]; simpl; [|by intros [= <- _]].
  destruct (validatedCertificatePath path) as [[|c cs]|]; [by intros [= <- _]| |by intros [= <- _]]. apply sound_policy.
Qed.
(** A result that is a success after the policy was one before, and it passed. *)
Lemma apply_policy_success {PC : PolicyChecks (S := S)} `{!SoundPolicy PC} ctx r s r' s' :
  apply_policy ctx r s = Some (Ret r', s') → isSuccess r' = true →
  ∃ p, validatePolicy ctx r s = Some (Ret p, s') ∧ res (claims p) = PASSED ∧ r' = set_policies [claims p] r.
Proof.
  unfold apply_policy. mstep. destruct (validatePolicy ctx r s) as [[[p|e] s1]|] eqn:Hp; [|done|done].
  destruct (decide (res (claims p) = PASSED)) as [Hpass|Hpass].
  - rewrite bool_decide_true by done. intros [= <- <-] _. eauto.
  - rewrite bool_decide_false by done. intros [= <- <-] Hs%bool_decide_eq_true. exfalso. injection Hs as Hs.
    by eapply (validate_policy_status ctx r s p s1).
Qed.
End Policy.

(** ** A signature with the status SUCCESS *)
Section Single.
Context {S : Type} (certificateValidator : X509Certificate → option (list X509Certificate) → MF S ValidateOutcome).
Context (newDate : M S Z) (getMessage : exn → string).
Context (getAlgorithmURI : option string → option string → outcome string) (isRegistered : string → bool).
Context (digest : string → outcome (X509Certificate → string)) (SHA1 SHA256 : string).
Context (tsPolicy : string) (hashBlackList : list string) (subjectName : X509Certificate → string).
Notation verify policy := (verifySignature (Policy := policy) certificateValidator getMessage getAlgorithmURI isRegistered digest SHA1 SHA256 tsPolicy hashBlackList subjectName).

(** The hash of the ESS attribute, when there is one, is that of the certificate. *)
Definition ess_ok (attrs : SignedAttributes) (cert : X509Certificate) : Prop :=
  let matching (algo : string) (h : outcome string) := ∃ md, digest algo = Ret md ∧ h = Ret (md cert) in
  match essSigningCertV2Attr attrs, signingCertAttr attrs with
  | None, None => True
  | Some v2, _ => ∃ e, v2 = Ret e ∧ matching (default SHA256 (essHashAlgo e)) (certHash e)
  | None, Some v1 => ∃ e, v1 = Ret e ∧ matching SHA1 (certHash e)
  end.
(** What the CMS data shows. *)
Definition cms_ok (cms : CMSData) : Prop :=
  verifySignerInfo cms = Ret true ∧
  ∃ algorithm attrs, getAlgorithmURI (Some (encryptionAlgOID cms)) (Some (digestAlgOID cms)) = Ret algorithm ∧
    signedAttributes cms = Some attrs ∧
    checkAlgoritmConsistency getAlgorithmURI isRegistered algorithm (cmsAlgorithmProtect attrs) = true ∧
    ess_ok attrs (cmsSigCert cms).
(** What validating the signer gave a result. *)
Definition signer_judged (cms : CMSData) (r : SigResult) : Prop :=
  ∃ o s1 s2, certificateValidator (cmsSigCert cms) (Some (cmsChain cms)) s1 = Some (o, s2) ∧
    match o with
    | Ret (VResult p) => certificateValidationResult r = Some p ∧ exception r = None
    | Ret (VExtended _ p) => certificateValidationResult r = Some p ∧ exception r ≠ None
    | _ => certificateValidationResult r = None
    end.
(** A result before the policy of which nothing has been recorded yet. *)
Definition pristine (sig : PDSignature) (r : SigResult) : Prop :=
  pdfSignature r = sig ∧ exception r = None ∧ certificateValidationResult r = None.
Lemma check_ess_success hash cert r : isSuccess r = false →
  isSuccess (check_ess getMessage hash cert r) = true → ∃ md, hash = Ret (md, md cert).
Proof.
  intros Hr. unfold check_ess, isSuccess in *. destruct hash as [[md octets]|e]; [|by simpl; rewrite Hr].
  destruct (String.eqb_spec (md cert) octets) as [<-|]; [by eauto|by simpl; rewrite Hr].
Qed.
Lemma check_ess_pristine sig hash cert r : pristine sig r → pristine sig (check_ess getMessage hash cert r).
Proof. unfold check_ess. destruct hash as [[md octets]|e]; [|done]. by case_match. Qed.
Notation pades := (verifyPadesProperties getMessage digest SHA1 SHA256).
Lemma pades_pristine sig attrs cert r : pristine sig r → pristine sig (pades attrs cert r).
Proof.
  intros H. unfold verifyPadesProperties.
  destruct (essSigningCertV2Attr attrs), (signingCertAttr attrs); try done; by apply check_ess_pristine.
Qed.
Lemma pades_success attrs cert r : isSuccess (pades attrs cert r) = true → ess_ok attrs cert.
Proof.
  unfold verifyPadesProperties, ess_ok.
  destruct (essSigningCertV2Attr attrs) as [v2|], (signingCertAttr attrs) as [v1|]; try done; intros H;
    (apply check_ess_success in H as [md H]; [|done]); unfold ess_v2, ess_v1, mbind, outcome_bind in H.
  1, 2: destruct v2 as [e|]; [simpl in H|done]; exists e; destruct (digest _) as [md'|] eqn:Hd; [simpl in H|done];
    destruct (certHash e); [|done]; injection H as -> ->; eauto.
  destruct v1 as [e|]; [simpl in H|done]. destruct (certHash e) eqn:He; [simpl in H|done].
  destruct (digest SHA1) as [md'|] eqn:Hd; [|done]. injection H as -> ->. eauto.
Qed.
Lemma validate_signer_judged sig cms r s r' s' :
  validate_signer certificateValidator getMessage cms r s = Some (Ret r', s') → pristine sig r →
  signer_judged cms r' ∧ pdfSignature r' = sig ∧ status r' = status r ∧ timeValidationResults r' = timeValidationResults r.
Proof.
  unfold validate_signer, signer_judged. mstep.
  destruct (certificateValidator _ _ s) as [[o s1]|] eqn:Ho; [|done].
  intros [= <- <-] (Hs & He & Hc).
  split; [exists o, s, s1; split; [done|]|]; by destruct o as [[]|].
Qed.
(** The whole verification, up to the policy. *)
Lemma verify_success {PC : PolicyChecks (S := S)} `{!SoundPolicy PC} sig cms stamps ctx s r s' :
  verify PC sig (Ret cms) stamps ctx s = Some (Ret r, s') → isSuccess r = true →
  cms_ok cms ∧ ∃ r0 p s1, validatePolicy ctx r0 s1 = Some (Ret p, s') ∧ res (claims p) = PASSED ∧
    r = set_policies [claims p] r0 ∧ signer_judged cms r0 ∧ pdfSignature r0 = sig.
Proof.
  intros H Hs. unfold verifySignature in H. mstep. destruct (isCoversWholeDocument ctx sig) as [covers|]; simpl in H; [|done].
  unfold cms_ok. destruct (verifySignerInfo cms) as [ok|]; [|by injection H as <- _]. simpl in H.
  destruct (pkParams cms) as [[]|]; simpl in H; [|done].
  destruct (getAlgorithmURI _ _) as [algorithm|]; [|by injection H as <- _]. simpl in H.
  destruct (signedAttributes cms) as [attrs|]; simpl in H; [|done].
  destruct (checkAlgoritmConsistency _ _ _ _) eqn:Hcons; simpl in H; [|by injection H as <- _].
  match type of H with context [if isSuccess ?r then _ else _] => set (ra := r) in H end.
  set (r2 := if isSuccess ra then _ else ra) in H. assert (Hp2 : pristine sig r2).
  { unfold r2. by destruct (isSuccess ra); [apply pades_pristine|]. }
  match type of H with context [match ?ts s with _ => _ end] => destruct (ts s) as [[tss s1]|]; [|done] end.
  destruct (validate_signer _ _ _ _ s1) as [[[r3|e] s2]|] eqn:H3; simpl in H; [|done|done].
  apply (validate_signer_judged sig) in H3 as (Hj & Hsig & Hst & _); [|done].
  apply apply_policy_success in H as (p & Hpol & Hpass & ->); [|done].
  assert (Hr3 : isSuccess r2 = true).
  { unfold isSuccess in *. simpl in Hs, Hst. by rewrite Hst in Hs. }
  unfold r2 in Hr3. destruct ok; [|done]. split.
  - split; [done|]. exists algorithm, attrs. repeat (split; [done|]). by apply pades_success in Hr3.
  - exists r3, p, s2. auto.
Qed.
(** Up to the certificate path, with the PKIX policy. *)
Lemma pkix_success enforce grace sig cms stamps ctx s r s' :
  verify (PkixPolicy newDate getMessage enforce grace) sig (Ret cms) stamps ctx s = Some (Ret r, s') →
  isSuccess r = true →
  cms_ok cms ∧ isSignatureExtendedByNonSafeUpdates ctx sig = Ret false ∧
  ∃ path l s1 o s2, certificateValidationResult r = Some path ∧ judged_path path l ∧
    certificateValidator (cmsSigCert cms) (Some (cmsChain cms)) s1 = Some (Ret o, s2) ∧
    (o = VResult path ∨
     (∃ cause, o = VExtended cause path) ∧ enforce = false ∧ ∃ st, st ∈ l ∧ validity st = REVOKED) ∧
    (enforce = false → ∀ st, st ∈ l → validity st = REVOKED →
       revoked_late newDate grace (timeValidationResults r) st).
Proof.
  intros H Hs. apply verify_success in H as (Hcms & r0 & p & s1 & Hpol & Hpass & -> & Hj & <-); [|done].
  split; [done|]. apply validate_policy_passed in Hpol as (_ & Hext & _ & Hadd); [|done]. split; [done|].
  apply pkix_policy_passed in Hadd as (path & l & Hpath & Hjudged & Hexc & Hlate); [|done].
  destruct Hj as (o & t1 & t2 & Ho & Hj). destruct o as [o|e]; [|by rewrite Hj in Hpath].
  exists path, l, t1, o, t2. split; [done|]. split; [done|]. split; [done|]. split; [|done].
  destruct o as [q|m|cause q]; [| by rewrite Hj in Hpath |]; destruct Hj as [Hq He].
  - rewrite Hq in Hpath. injection Hpath as ->. by left.
  - rewrite Hq in Hpath. injection Hpath as ->. right. destruct Hexc as [|[? ?]]; [done|]. eauto.
Qed.
(** C7. With the PKIX policy, a result with the status SUCCESS shows that the CMS signature
    verifies with consistent algorithms, that the signing certificate attribute, when there
    is one, holds the hash of the certificate, that no later revision is known to extend the
    signature, and that the certificate validator returned a path whose statuses are all VALID
    or REVOKED.  It returned normally, or it failed with that path and enforcement is off; a
    REVOKED certificate is then one revoked later, by the grace period, than the earliest
    verified timestamp. *)
Theorem pdf_signature_success enforce grace sig cms stamps ctx s r s' :
  verify (PkixPolicy newDate getMessage enforce grace) sig (Ret cms) stamps ctx s = Some (Ret r, s') →
  isSuccess r = true →
  cms_ok cms ∧ isSignatureExtendedByNonSafeUpdates ctx sig = Ret false ∧
  ∃ path l s1 o s2, certificateValidationResult r = Some path ∧ judged_path path l ∧
    certificateValidator (cmsSigCert cms) (Some (cmsChain cms)) s1 = Some (Ret o, s2) ∧
    (o = VResult path ∨
     (∃ cause, o = VExtended cause path) ∧ enforce = false ∧ ∃ st, st ∈ l ∧ validity st = REVOKED) ∧
    (enforce = false → ∀ st, st ∈ l → validity st = REVOKED →
       revoked_late newDate grace (timeValidationResults r) st).
Proof. apply pkix_success. Qed.
End Single.

(** ** With the certificate validator of the library *)
Section Library.
Context {S : Type} {VE : ValidationEnv S} (getMessage : exn → string) (cr : Crypto) (fuel : nat).
Context (pkixBuild : X509Certificate → list CertStore → list TrustAnchor → outcome PKIXResult).
Context (certStore : option CertStore) (anchors : list X509Certificate)
  (threads : list X509Certificate → MF S (list ValidationStatus)).
(** StatusCheckingCertificateValidatorImpl in single threaded mode, over
    BasicCertificateValidityChecker; the caller's list of CRLs is null. *)
Definition libraryValidator (subject : X509Certificate) (chain : option (list X509Certificate)) : MF S ValidateOutcome :=
  validate (SC := basicChecker cr fuel) (certVerify cr) pkixBuild certStore anchors true threads subject chain
    (None : option (list X509CRL)).
Lemma library_result subject chain s p s' :
  libraryValidator subject chain s = Some (Ret (VResult p), s') →
  validateCertificatePath (SC := basicChecker cr fuel) (certVerify cr) pkixBuild true threads subject chain certStore
    anchors s = Some (Ret (Validated p), s').
Proof.
  unfold libraryValidator, validate, validatePath. simpl. destruct anchors as [|a l]; [done|]. mstep.
  destruct (validateCertificatePath _ _ _ _ _ _ _ _ s) as [[[[q|[] q]|e] s1]|]; try done. by intros [= <- <-].
Qed.
(** What the builder of the platform documents: the path that it finds ends at the target
    and starts from one of the trust anchors. *)
Definition pkix_documented : Prop := ∀ target stores tas res, pkixBuild target stores tas = Ret res →
  (∃ c, head (certPath res) = Some c ∧ cert_eqb c target = true) ∧ trustAnchor res ∈ tas.
(** What the path of a result shows of its signer: it is the one the validator answered, it
    leads from the signer to a trust anchor, and each certificate but the anchor has evidence
    that its neighbour vouches for. *)
Definition signer_shown (cms : CMSData) (r : SigResult) : Prop :=
  ∃ validated path ta t1 t2, certificateValidationResult r = Some validated ∧
    libraryValidator (cmsSigCert cms) (Some (cmsChain cms)) t1 = Some (Ret (VResult validated), t2) ∧
    validatedCertificatePath validated = Some (path ++ [ta]) ∧ ta ∈ anchors ∧
    (∃ c, head path = Some c ∧ cert_eqb c (cmsSigCert cms) = true) ∧
    ∀ c, c ∈ path → ∃ k d i, (path ++ [ta]) !! k = Some d ∧ (path ++ [ta]) !! (k + 1) = Some i ∧
      cert_eqb d c = true ∧ Evidence cr t1 t2 d i.
(** A result with the status SUCCESS of a signer that is not itself a trust anchor. *)
Lemma pdf_signature_evidence getURI registered digest SHA1 SHA256 tsPolicy black names grace sig cms stamps ctx s r s' :
  pkix_documented →
  verifySignature (Policy := PkixPolicy newDate getMessage true grace) libraryValidator getMessage getURI registered digest SHA1 SHA256
    tsPolicy black names sig (Ret cms) stamps ctx s = Some (Ret r, s') →
  isSuccess r = true → (∀ ta, ta ∈ anchors → cert_eqb ta (cmsSigCert cms) = false) →
  verifySignerInfo cms = Ret true ∧ isSignatureExtendedByNonSafeUpdates ctx sig = Ret false ∧ signer_shown cms r.
Proof.
  intros Hdoc H Hs Hno. apply pkix_success in H as ([Hsig _] & Hext & path & l & t1 & o & t2 & Hpath & _ & Ho & Hres & _); [|done].
  split; [done|]. split; [done|]. destruct Hres as [->|(_ & ? & _)]; [|done].
  pose proof Ho as (res & Hb & Hq & Hev)%library_result%path_evidence; [|done].
  apply Hdoc in Hb as [Hhead Hta]. exists path, (certPath res), (trustAnchor res), t1, t2. auto 10.
Qed.
End Library.

(** ** Revocation after a verified timestamp *)
Section Late.
#[local] Arguments all_late : simpl never.
Context {S : Type} (newDate : M S Z) (getMessage : exn → string).
(** Without enforcement of the current time, a path with a REVOKED certificate passes the
    PKIX policy when no status is INVALID or UNKNOWN and every revocation is late enough,
    whatever exception the path validation recorded: the exception is looked at only when no
    certificate is revoked. *)
Theorem late_revocation_passes grace ctx r path l s s' :
  isSuccess r = true → isSignatureExtendedByNonSafeUpdates ctx (pdfSignature r) = Ret false →
  certificateValidationResult r = Some path → judged_path path l →
  (∃ c cs, validatedCertificatePath path = Some (c :: cs)) → (∃ st, st ∈ l ∧ validity st = REVOKED) →
  all_late newDate grace (List.filter (λ st, bool_decide (validity st = REVOKED)) l) (timeValidationResults r) s
    = Some (Ret true, s') →
  validatePolicy (Policy := PkixPolicy newDate getMessage false grace) ctx r s
  = Some (Ret (mkPolicyResult (mkClaims SIG_VALIDATION_POLICY_TIMESTAMPED_PKIX_VALIDATION PASSED
                 "Certificate revoked after trusted timestamp time") ERROR_SIGNER_INVALID), s').
Proof.
  intros Hs Hext Hp [Hl Hj] (c & cs & Hc) (st & Hst & Hv) Hlate.
  unfold validatePolicy. rewrite Hs, Hext, Hp. simpl. rewrite Hc. unfold pkix_caught, pkix_checks, pkix_judge. mstep. rewrite Hp. simpl. rewrite Hl. simpl.
  assert (Hi : ∀ v, v = INVALID ∨ v = UNKNOWN → has_validity v l = false).
  { intros v Hq. apply has_validity_false. intros x Hx E. destruct (Hj x Hx), Hq; congruence. }
  rewrite !Hi by auto. assert (Hf : st ∈ List.filter (λ st, bool_decide (validity st = REVOKED)) l)
    by (apply filter_elem; split; [done|by apply bool_decide_eq_true]).
  destruct (List.filter _ l) as [|x rest]; [by apply elem_of_nil in Hf|]. by rewrite Hlate.
Qed.
End Late.

(** ** Examples *)
Section Demo.
Notation additions := (demo_context (demo_doc 1 2 [obj 1 10; obj 2 20; obj 3 30])
  (demo_doc 1 2 [obj 1 10; obj 2 20; obj 3 30; obj 4 40])) (only parsing).
(** A signed attribute with the encoding of the certificate for its hash. *)
Definition demo_digest (algo : string) : outcome (X509Certificate → string) :=
  if String.eqb algo "sha256" then Ret (λ c, String (ascii_of_nat (Z.to_nat (encoded c))) "")
  else Throw (RuntimeException "no such algorithm").
Definition demo_name (c : X509Certificate) : string := "CN=1".
Definition demo_message (e : exn) : string := match e with RuntimeException m => m | _ => "" end.
Definition demo_attrs (c : X509Certificate) : SignedAttributes :=
  mkSignedAttributes None (Some (Ret (mkESSCertID None (Ret (String (ascii_of_nat (Z.to_nat (encoded c))) ""))))) None.
Definition demo_cms (c : X509Certificate) : CMSData :=
  mkCMSData c [c] (Ret true) (Ret tt) "rsa" "sha" (Some (demo_attrs c)) [].
Definition demo_uri (enc dig : option string) : outcome string :=
  match enc, dig with Some e, Some d => Ret (e ++ d)%string | _, _ => Throw (RuntimeException "no such algorithm") end.
Notation demo_verify policy validator cms stamps := (verifySignature (Policy := policy) validator demo_message demo_uri
  (λ _, true) demo_digest "sha1" "sha256" "policy" [] demo_name demo_sig (Ret cms) stamps additions tt) (only parsing).
Definition demo_answer (c : option (outcome SigResult * unit)) : SigResult :=
  match c with Some (Ret r, _) => r | _ => mkSigResult demo_sig false None None None "" None false false [] None [] end.

(** A path whose second certificate is revoked at 500 and whose first certificate has no
    status, which the path validation reports; the clock is at 1000, and a document
    timestamp of time 400 is at hand. *)
Definition late_path : PathValidationResult :=
  mkPVR (Some (mkPKIX [demo_target; demo_ca] demo_ca)) (Some demo_target) (Some [demo_target; demo_ca; demo_ca])
    (Some [mkStatus (Some demo_ca) None REVOKED None (Some CRL) None (Some 500%Z) None None None true 0 None]).
Definition late_validator (_ : X509Certificate) (_ : option (list X509Certificate)) : MF unit ValidateOutcome :=
  mret (VExtended (RuntimeException "Missing path validation result for ") late_path).
Definition stamp (b1 : Z) : PDFDocTimeStamp :=
  mkDocTimeStamp (mkTimeStamp true [] (Some (mkTSTInfo "1" (Some 400%Z) (Some "h"%string))) (Some demo_ca)) [0; b1; 0; 0]%Z.
Notation late_now := (mret 1000%Z) (only parsing).
Notation late_verified stamps := (demo_verify (PkixPolicy late_now demo_message false 10) late_validator (demo_cms demo_target) stamps) (only parsing).
(** Without the timestamp the signature is refused; with it, also when it ends before the
    signature does, the result is a success that still has its exception. *)
Example late_needs_timestamp : isSuccess (demo_answer (late_verified [])) = false.
Proof. vm_compute. reflexivity. Qed.
Example earlier_timestamp_counts :
  isSignatureCovered (stamp 2) demo_sig = false ∧
  isSuccess (demo_answer (late_verified [stamp 2])) = true ∧
  exception (demo_answer (late_verified [stamp 2])) = Some "Missing path validation result for "%string.
Proof. vm_compute. auto. Qed.
Lemma late_revocation_passes_witness :
  let r := demo_answer (late_verified [stamp 2]) in
  exception r ≠ None ∧
  validatePolicy (Policy := PkixPolicy late_now demo_message false 10) additions r tt
  = Some (Ret (mkPolicyResult (mkClaims SIG_VALIDATION_POLICY_TIMESTAMPED_PKIX_VALIDATION PASSED
                 "Certificate revoked after trusted timestamp time") ERROR_SIGNER_INVALID), tt).
Proof.
  split; [done|]. eapply (late_revocation_passes _ demo_message 10 additions _ late_path).
  - vm_compute. reflexivity.
  - vm_compute. reflexivity.
  - vm_compute. reflexivity.
  - split; [reflexivity|]. intros st [->|[]%not_elem_of_nil]%elem_of_cons. by right.
  - eexists _, _. reflexivity.
  - eexists. split; [left|reflexivity].
  - vm_compute. reflexivity.
Defined.
Lemma pdf_signature_success_witness :
  cms_ok demo_uri (λ _, true) demo_digest "sha1" "sha256" (demo_cms demo_target) ∧
  revoked_late (mret 1000%Z : M unit Z) 10 (timeValidationResults (demo_answer (late_verified [stamp 2])))
    (mkStatus (Some demo_ca) None REVOKED None (Some CRL) None (Some 500%Z) None None None true 0 None).
Proof.
  destruct (pdf_signature_success late_validator late_now demo_message demo_uri (λ _, true) demo_digest "sha1" "sha256" "policy" [] demo_name
    false 10 demo_sig (demo_cms demo_target) [stamp 2] additions tt (demo_answer (late_verified [stamp 2])) tt)
    as (Hcms & _ & path & l & _ & _ & _ & Hpath & [Hl _] & _ & _ & Hlate).
  - vm_compute. reflexivity.
  - vm_compute. reflexivity.
  - split; [exact Hcms|].
    assert (E : certificateValidationResult (demo_answer (late_verified [stamp 2])) = Some late_path) by (vm_compute; reflexivity).
    rewrite E in Hpath. assert (El : late_path = path) by congruence. subst path. clear E Hpath.
    apply (Hlate eq_refl); [|reflexivity]. assert (E : validationStatusList late_path = Some (default [] (validationStatusList late_path)))
      by reflexivity. rewrite E in Hl. assert (El' : default [] (validationStatusList late_path) = l) by congruence. subst l. left.
Defined.
End Demo.
