(* ===== verification/PdfSvt.v ===== *)
(** * Signature validation tokens in PDF documents

    Model of [SVAUtils.java] (the verification of a token), [PDFSVTDocTimeStamp.java],
    [PDFSVTValidator.java] and [PDFSVAUtils.java].  Nimbus, BouncyCastle and PDFBox answer
    through the records of parsed data and the parameters of the section; [Collections.sort]
    is the sort of the JDK for lists of less than 32 elements. *)
From Stdlib Require Import ZArith Lia Ascii String.
From stdpp Require Import base gmap strings list pretty.
From S2P Require Import Prelude CertModel Algorithms.
From S2P Require Import Validity PathValidator PdfContext Timestamps PdfVerify.

(** ** Tokens *)
Record SigReferenceClaims := mkSigRef { sig_id : option string; sig_hash : string; sb_hash : string }.
Record SignedDataClaims := mkDataRef { dataRef : string; dataHash : string }.
(** How certificates are referred to: by their hashes, or as they are; both in Base64. *)
Inductive CertRefType := chain_ref | chain_hash.
#[export] Instance CertRefType_eq_dec : EqDecision CertRefType.
Proof. solve_decision. Defined.
Record CertReferenceClaims := mkCertRef { certRefType : CertRefType; certRefs : list string }.
(** The claims about one signature; what a parsed token does not have is null. *)
Record SignatureClaims := mkSigClaims {
  sig_ref : SigReferenceClaims;
  sig_val : option (list PolicyValidationClaims);
  time_val : option (list TimeValidationClaims);
  sig_data_ref : option (list SignedDataClaims);
  signer_cert_ref : option CertReferenceClaims
}.
Record SVTClaims := mkSVTClaims { hash_algo : option string; svtSig : list SignatureClaims }.
(** The claims set of a token: [sig_val_claims] may fail to parse. *)
Record JWTClaimsSet := mkClaimsSet {
  expirationTime : option Z;
  jwtIssuer : string;
  issueTime : option Z;
  jwtID : string;
  sig_val_claims : outcome SVTClaims
}.
Record SignedJWT := mkJWT {
  jwtAlgorithm : JWSAlgorithm;
  keyID : option string;
  x509CertChain : option (list (outcome X509Certificate));
  jwtClaimsSet : outcome JWTClaimsSet
}.
(** [SVAUtils.getSVTClaims] *)
Definition getSVTClaims (set : JWTClaimsSet) : outcome SVTClaims :=
  match sig_val_claims set with
  | Ret claims => Ret claims
  | Throw _ => Throw (IOException "No SVA claims available")
  end.

(** ** The sort of the JDK for less than 32 elements *)
Section Sort.
Context {A : Type} (compare : A → A → Z).
(** [countRunAndMakeAscending]: how far the list goes on like it starts. *)
Fixpoint run_length (down : bool) (x : A) (l : list A) : nat :=
  match l with
  | [] => 0
  | y :: l' => if Bool.eqb (Z.ltb (compare y x) 0) down then S (run_length down y l') else 0
  end.
Definition countRunAndMakeAscending (l : list A) : list A * list A :=
  match l with
  | x :: y :: l' =>
      let down := Z.ltb (compare y x) 0 in
      let n := S (S (run_length down y l')) in
      (if down then rev (take n l) else take n l, drop n l)
  | _ => (l, [])
  end.
(** [binarySort]: where a pivot goes among the sorted ones. *)
Fixpoint search (fuel : nat) (pivot : A) (a : list A) (left right : nat) : nat :=
  match fuel with
  | 0 => left
  | S fuel' =>
      if left <? right then
        let mid := Nat.div2 (left + right) in
        match a !! mid with
        | Some x => if Z.ltb (compare pivot x) 0 then search fuel' pivot a left mid else search fuel' pivot a (S mid) right
        | None => left
        end
      else left
  end.
Definition binary_insert (a : list A) (pivot : A) : list A :=
  let i := search (S (length a)) pivot a 0 (length a) in
  take i a ++ pivot :: drop i a.
Definition small_sort (l : list A) : list A :=
  let '(run, rest) := countRunAndMakeAscending l in fold_left binary_insert rest run.
End Sort.

(** ** Types of signatures *)
Inductive SigType := SIGNATURE_TYPE | DOC_TIMESTAMP_TYPE | ILLEGAL_SIGNATURE_TYPE | SVT_TYPE | UNKNOWN_TYPE.
#[export] Instance SigType_eq_dec : EqDecision SigType.
Proof. solve_decision. Defined.
(** What the libraries read from one signature of a document: the time stamp (when the
    contents can be read), the token in its TSTInfo, the signature value, the DER of its
    attributes, the signed bytes and the certificates. *)
Record Parsed := mkParsed {
  contentsOf : outcome unit;
  tokenOf : outcome SignedJWT;
  stampOf : outcome TimeStampData;
  valueOf : outcome string;
  attributesOf : outcome string;
  signedContentOf : outcome string;
  certificatesOf : outcome (list X509Certificate)
}.
(** [SVAUtils.isSVADocTimestamp] *)
Definition isSVADocTimestamp (p : Parsed) : bool :=
  is_Ret (jwt ← tokenOf p; set ← jwtClaimsSet jwt; getSVTClaims set).
(** [PDFSVAUtils.getSignatureType] *)
Definition getSignatureType (sig : PDSignature) (p : Parsed) : outcome SigType :=
  match subFilter sig with
  | None => Throw NullPointerException
  | Some f =>
      let subfilter := toLowerCase f in
      Ret (if String.eqb subfilter "adbe.pkcs7.detached" || String.eqb subfilter "etsi.cades.detached" then SIGNATURE_TYPE
           else if String.eqb subfilter "etsi.rfc3161" then
             if isSVADocTimestamp p then SVT_TYPE else DOC_TIMESTAMP_TYPE
           else UNKNOWN_TYPE)
  end.

Section Tokens.
Context {S : Type} (newDate : M S Z).
Context (tsValidator svaTokenCertVerifier : X509Certificate → option (list X509Certificate) → MF S ValidateOutcome).
Context (tsPolicy : string) (hashBlackList : list string).
(** Nimbus: the verifier for a public key, and [SignedJWT.verify], which answers whether the
    signature verifies; the digest that the registry of the token library has for an
    algorithm, and the digest that the signature library has. *)
Context (newVerifier : PublicKey → outcome unit) (jwtVerify : SignedJWT → PublicKey → outcome bool).
Context (getAlgoParams : JWSAlgorithm → outcome (option string)) (digestOf : string → outcome (option ASN1ObjectIdentifier)).
(** The registries of [Algorithms], and digests in Base64. *)
Context (digests : option string → outcome DigestAlgorithm) (digests_oid : option ASN1ObjectIdentifier → outcome DigestAlgorithm).
Context (getUri : option JWSAlgorithm → outcome string).
Context (hash64 : DigestAlgorithm → string → outcome string) (certHash64 : DigestAlgorithm → X509Certificate → outcome string).

(** ** [SVAUtils.verifySVA] *)
Definition SVAUtils_verifySVA (jwt : SignedJWT) (key : PublicKey) : M S unit :=
  set ← lift (jwtClaimsSet jwt);
  expired ← match expirationTime set with
            | Some t => now ← newDate; mret (Z.ltb t now)
            | None => mret false
            end;
  if (expired : bool) then raise (RuntimeException "The SVA has expired") else
  _ ← lift (newVerifier key);
  algoParams ← lift (getAlgoParams (jwtAlgorithm jwt));
  svaSigHashAlgo ← lift (digests algoParams);
  svtClaims ← lift (getSVTClaims set);
  svaClaimsHashAlgo ← lift (digests (hash_algo svtClaims));
  if negb (bool_decide (svaSigHashAlgo = svaClaimsHashAlgo)) then
    raise (IOException ("SVA hahs algo mismatch. SVA algo: " ++ uri svaClaimsHashAlgo ++ ", SVA token sig algo: " ++ uri svaSigHashAlgo))
  else
    _ ← lift (jwtVerify jwt key);      (* the answer is not looked at *)
    mret tt.

(** ** [PDFSVTDocTimeStamp] *)
Record PDFSVTDocTimeStamp := mkSvtStamp {
  svtStamp : PDFDocTimeStamp;
  stampChain : list X509Certificate;
  signedJWT : SignedJWT;
  svtClaims : SVTClaims
}.
(** The constructor, with the overridden [init]. *)
Definition new_PDFSVTDocTimeStamp (sig : PDSignature) (p : Parsed) : MF S PDFSVTDocTimeStamp :=
  _ ← run (lift (contentsOf p));
  _ ← run (lift (signedContentOf p));
  ts ← new_TimeStamp tsValidator tsPolicy hashBlackList (stampOf p);
  match tstInfo ts with
  | None => mf_raise (IOException "No SVA JWT is available in TSTInfo")
  | Some _ =>
      jwt ← run (lift (tokenOf p));
      set ← run (lift (jwtClaimsSet jwt));
      claims ← run (lift (getSVTClaims set));
      let chain := match stampOf p with Ret d => snd (tsCerts d) | Throw _ => [] end in
      mret (mkSvtStamp (mkDocTimeStamp ts (byteRange sig)) chain jwt claims)
  end.
(** The certificates of the header of a token. *)
Fixpoint read_chain (l : list (outcome X509Certificate)) : outcome (list X509Certificate) :=
  match l with
  | [] => Ret []
  | c :: l' => c ← c; cs ← read_chain l'; Ret (c :: cs)
  end.
(** [getSvaSigningCertificate] *)
Definition getSvaSigningCertificate (ts : PDFSVTDocTimeStamp) (certificates : list X509Certificate) :
    option X509Certificate * option (list X509Certificate) :=
  let jwt := signedJWT ts in
  let stampCerts := (sigCert (timeStamp (svtStamp ts)), Some (stampChain ts)) in
  match certificates with
  | c :: _ => (Some c, Some certificates)
  | [] =>
      let keyIsStampCert : outcome bool :=
        match keyID jwt with
        | None => Ret false
        | Some k =>
            u ← getUri (Some (jwtAlgorithm jwt));
            o ← digestOf u;
            d ← digests_oid o;
            c ← match sigCert (timeStamp (svtStamp ts)) with Some c => Ret c | None => Throw NullPointerException end;
            h ← certHash64 d c;
            Ret (String.eqb k h)
        end in
      match keyIsStampCert with
      | Throw _ => (None, None)
      | Ret true => stampCerts
      | Ret false =>
          match x509CertChain jwt with
          | None | Some [] => stampCerts
          | Some l => match read_chain l with Ret cs => (head cs, Some cs) | Throw _ => (None, None) end
          end
      end
  end.
(** [verifySVA]: whether the signature is found valid, and the result of the path. *)
Definition verifySVA (ts : PDFSVTDocTimeStamp) (certificates : list X509Certificate) : MF S (bool * PathValidationResult) :=
  let '(svaSigCert, svaChain) := getSvaSigningCertificate ts certificates in
  match svaSigCert with
  | None => mret (false, empty_result)
  | Some c =>
      verified ← run (attempt (SVAUtils_verifySVA (signedJWT ts) (publicKey c)));
      match verified with
      | Throw _ => mret (false, empty_result)
      | Ret _ =>
          r ← mf_attempt (svaTokenCertVerifier c svaChain);
          mret match r with
               | Ret (VResult p) => (true, p)
               | Ret (VExtended _ p) => (false, p)
               | _ => (false, empty_result)
               end
      end
  end.

(** ** [PDFSVTValidator] *)
Context (parsed : PDSignature → Parsed).
(** The loop of [getMostRecentValidSVA]: the inner loop over the policies only goes on with
    itself, and what [verifySVA] found out is not looked at. *)
Definition stamp_of (sig : PDSignature) : MF S (option PDFSVTDocTimeStamp) :=
  svaTs ← new_PDFSVTDocTimeStamp sig (parsed sig);
  if negb (sigValid (timeStamp (svtStamp svaTs))) then mret None
  else _ ← verifySVA svaTs []; mret (Some svaTs).
Fixpoint valid_stamps (svaSigList : list PDSignature) : MF S (list PDFSVTDocTimeStamp) :=
  match svaSigList with
  | [] => mret []
  | sig :: l =>
      o ← mf_attempt (stamp_of sig);
      validSvaTsList ← valid_stamps l;
      mret match o with Ret (Some svaTs) => svaTs :: validSvaTsList | _ => validSvaTsList end
  end.
Definition stamp_date (ts : PDFSVTDocTimeStamp) : option Z := tstInfo (timeStamp (svtStamp ts)) ≫= genTime.
Definition compare_dates (o1 o2 : PDFSVTDocTimeStamp) : Z :=
  match stamp_date o1, stamp_date o2 with
  | Some d1, Some d2 => if Z.ltb d2 d1 then (-1)%Z else 1%Z
  | _, _ => 0%Z
  end.
Definition getMostRecentValidSVA (svaSigList : list PDSignature) : MF S (option PDFSVTDocTimeStamp) :=
  l ← valid_stamps svaSigList; mret (head (small_sort compare_dates l)).

Record SignatureSVTData := mkSvtData {
  svtToken : SignedJWT;
  signatureReference : SigReferenceClaims;
  signedDataRefList : list SignedDataClaims;
  signerCertChain : list X509Certificate;
  signatureClaims : SignatureClaims
}.
Definition range_text (range : list Z) : outcome string :=
  match range with
  | b0 :: b1 :: b2 :: b3 :: _ => Ret (pretty b0 ++ " " ++ pretty b1 ++ " " ++ pretty b2 ++ " " ++ pretty b3)%string
  | _ => Throw IndexOutOfBounds
  end.
(** [collectSVTData]: nothing when there are no claims about the signature, an exception
    otherwise skips it too. *)
Definition collectSVTData (sig : PDSignature) (ts : PDFSVTDocTimeStamp) : outcome (option SignatureSVTData) :=
  let p := parsed sig in
  _ ← contentsOf p;
  sigValBytes ← valueOf p;
  md ← digests (hash_algo (svtClaims ts));
  signatureHash ← hash64 md sigValBytes;
  match List.find (λ claims, String.eqb (sig_hash (sig_ref claims)) signatureHash) (svtSig (svtClaims ts)) with
  | None => Ret None
  | Some sigSVTClaims =>
      sigAttrsEncBytes ← attributesOf p;
      signedAttrHash ← hash64 md sigAttrsEncBytes;
      signedContent ← signedContentOf p;
      signedDocHash ← hash64 md signedContent;
      ref ← range_text (byteRange sig);
      certs ← certificatesOf p;
      Ret (Some (mkSvtData (signedJWT ts) (mkSigRef None signatureHash signedAttrHash) [mkDataRef ref signedDocHash] certs sigSVTClaims))
  end.
(** The types of the signatures, of which any may fail to be read. *)
Fixpoint signature_types (l : list PDSignature) : outcome (list (PDSignature * SigType)) :=
  match l with
  | [] => Ret []
  | sig :: l' =>
      _ ← contentsOf (parsed sig);
      t ← getSignatureType sig (parsed sig);
      ts ← signature_types l';
      Ret ((sig, t) :: ts)
  end.
Definition of_type (t : SigType) (l : list (PDSignature * SigType)) : list PDSignature :=
  map fst (List.filter (λ p, bool_decide (snd p = t)) l).
(** [getSignatureSVTData] *)
Definition getSignatureSVTData (allSignatureList : list PDSignature) : MF S (list SignatureSVTData) :=
  types ← run (lift (signature_types allSignatureList));
  o ← getMostRecentValidSVA (of_type SVT_TYPE types);
  mret match o with
       | None => []
       | Some svtTimeStamp =>
           omap (λ sig, match collectSVTData sig svtTimeStamp with Ret (Some d) => Some d | _ => None end)
             (List.filter (isSignatureCovered (svtStamp svtTimeStamp)) (of_type SIGNATURE_TYPE types))
       end.
End Tokens.
