(* ===== verification/PdfSvtProps.v ===== *)
(** * Facts of signature validation tokens

    Which token is taken as the most recent one, and what is not asked of it. *)
From Stdlib Require Import ZArith Lia Ascii String.
From stdpp Require Import base gmap strings list sorting.
From S2P Require Import Prelude CertModel Algorithms.
From S2P Require Import Validity PathValidator PdfContext Timestamps PdfVerify PdfSvt.

(** ** The sort

    The order is given by a key, for the elements of the list; the sort is stable and puts
    greater keys first. *)
Section SortFacts.
Context {A : Type} (compare : A → A → Z) (good : A → Prop) (key : A → Z).
Context (compare_key : ∀ x y, good x → good y → Z.ltb (compare x y) 0 = Z.ltb (key y) (key x)).
Implicit Types (l a : list A).
Definition with_key (k : Z) l : list A := List.filter (λ x, Z.eqb (key x) k) l.
Definition descending : list A → Prop := StronglySorted (λ x y, (key y ≤ key x)%Z).
Lemma with_key_app k l l' : with_key k (l ++ l') = with_key k l ++ with_key k l'.
Proof. apply List.filter_app. Qed.
(** Both directions of a run. *)
Definition in_run (down : bool) (x y : A) : Prop := if down then (key x < key y)%Z else (key y ≤ key x)%Z.
Lemma run_sorted down x l : good x → Forall good l →
  Sorted (in_run down) (take (S (run_length compare down x l)) (x :: l)).
Proof.
  intros Hx Hl. revert x Hx. induction Hl as [|y l Hy _ IH]; intros x Hx; [repeat constructor|].
  cbn [take run_length]. rewrite compare_key by done. destruct (Bool.eqb _ _) eqn:E.
  - constructor; [by apply IH|]. constructor. apply eqb_prop in E. subst down. unfold in_run.
    destruct (Z.ltb_spec (key x) (key y)); lia.
  - repeat constructor.
Qed.
Lemma single_key k l : StronglySorted (λ x y, (key x < key y)%Z) l → with_key k (rev l) = with_key k l.
Proof.
  induction 1 as [|x l _ IH Hx]; [done|]. simpl. unfold with_key in *. rewrite List.filter_app, IH. simpl.
  destruct (Z.eqb_spec (key x) k) as [<-|]; [|by rewrite app_nil_r].
  replace (List.filter (λ y, Z.eqb (key y) (key x)) l) with (@nil A); [done|]. symmetry. clear IH.
  induction Hx as [|y l Hxy _ IH]; [done|]. simpl. by rewrite (proj2 (Z.eqb_neq _ _)) by lia.
Qed.
Lemma descending_rev l : StronglySorted (λ x y, (key x < key y)%Z) l → descending (rev l).
Proof.
  induction 1 as [|x l _ IH Hx]; simpl; [constructor|]. apply StronglySorted_app. split; [|split; [done|by repeat constructor]].
  intros y z Hy ->%list_elem_of_singleton. rewrite Forall_forall in Hx. apply list_elem_of_In, in_rev in Hy.
  specialize (Hx y). rewrite list_elem_of_In in Hx. specialize (Hx Hy). lia.
Qed.
Lemma count_run_spec l run rest : Forall good l → countRunAndMakeAscending compare l = (run, rest) →
  descending run ∧ run ++ rest ≡ₚ l ∧ ∀ k, with_key k run ++ with_key k rest = with_key k l.
Proof.
  intros Hl. destruct l as [|x [|y l]]; [intros [= <- <-]; by repeat constructor| |].
  { intros [= <- <-]. split; [repeat constructor|]. split; [done|]. intros k. by rewrite <- with_key_app. }
  inversion_clear Hl as [|? ? Hx Hl']. inversion_clear Hl' as [|? ? Hy Hl].
  unfold countRunAndMakeAscending. set (down := Z.ltb (compare y x) 0). set (n := S (S _)).
  assert (Hr : Sorted (in_run down) (take n (x :: y :: l))).
  { unfold n. constructor; [by apply run_sorted|]. constructor. unfold down. rewrite compare_key by done. unfold in_run.
    destruct (Z.ltb_spec (key x) (key y)); lia. }
  assert (Hs : StronglySorted (in_run down) (take n (x :: y :: l))).
  { apply Sorted_StronglySorted; [|done]. intros u v w. unfold in_run. destruct down; lia. }
  clearbody n. intros [= <- <-]. destruct down.
  - split; [by apply descending_rev|]. split; [by rewrite <- Permutation_rev, take_drop|]. intros k.
    rewrite single_key by done. by rewrite <- with_key_app, take_drop.
  - split; [done|]. split; [by rewrite take_drop|]. intros k. by rewrite <- with_key_app, take_drop.
Qed.
Lemma descending_lookup l i j x y : descending l → i ≤ j → l !! i = Some x → l !! j = Some y → (key y ≤ key x)%Z.
Proof.
  intros H. revert i j. induction H as [|z l _ IH Hz]; intros i j Hij Hi Hj; [done|].
  destruct i as [|i], j as [|j]; [by simplify_eq|..]; [|lia|by apply (IH i j); [lia|..]].
  injection Hi as ->. rewrite Forall_forall in Hz. apply Hz. by eapply list_elem_of_lookup_2.
Qed.
(** Where a pivot belongs. *)
Definition belongs (pivot : A) a (i : nat) : Prop :=
  (∀ j x, j < i → a !! j = Some x → (key pivot ≤ key x)%Z) ∧ (∀ j x, i ≤ j → a !! j = Some x → (key x < key pivot)%Z).
Lemma search_spec pivot a : descending a → Forall good a → good pivot → ∀ fuel left right,
  left ≤ right ≤ length a → right - left < fuel →
  (∀ j x, j < left → a !! j = Some x → (key pivot ≤ key x)%Z) →
  (∀ j x, right ≤ j → a !! j = Some x → (key x < key pivot)%Z) →
  belongs pivot a (search compare fuel pivot a left right).
Proof.
  intros Ha Hg Hp. induction fuel as [|fuel IH]; intros left right Hb Hf HL HR; [lia|]. cbn [search].
  destruct (Nat.ltb_spec left right) as [Hlt|]; [|by replace right with left in * by lia].
  set (mid := Nat.div2 (left + right)). assert (left ≤ mid < right) as Hmid.
  { pose proof (Nat.div2_odd (left + right)). unfold mid. destruct (Nat.odd _); simpl in *; lia. }
  destruct (lookup_lt_is_Some_2 a mid) as [x Hx]; [lia|]. rewrite Hx.
  assert (Hgx : good x) by (eapply Forall_lookup_1; eauto).
  rewrite compare_key by done. destruct (Z.ltb_spec (key x) (key pivot)).
  - apply IH; [lia|lia|done|]. intros j y Hj Hy. pose proof (descending_lookup a mid j x y Ha Hj Hx Hy). lia.
  - apply IH; [lia|lia| |done]. intros j y Hj Hy. pose proof (descending_lookup a j mid y x Ha ltac:(lia) Hy Hx). lia.
Qed.
Lemma belongs_split pivot a i : belongs pivot a i →
  (∀ x, x ∈ take i a → (key pivot ≤ key x)%Z) ∧ (∀ x, x ∈ drop i a → (key x < key pivot)%Z).
Proof.
  intros [HL HR]. split; intros x [j Hj]%list_elem_of_lookup.
  - apply lookup_take_Some in Hj as [Hj ?]. by eapply HL.
  - rewrite lookup_drop in Hj. eapply HR; [|exact Hj]. lia.
Qed.
Lemma with_key_none k l : (∀ x, x ∈ l → key x ≠ k) → with_key k l = [].
Proof.
  induction l as [|x l IH]; intros H; [done|]. unfold with_key. simpl. rewrite (proj2 (Z.eqb_neq _ _)) by (apply H; left).
  apply IH. intros y Hy. apply H. by right.
Qed.
Lemma binary_insert_spec a pivot : descending a → Forall good a → good pivot →
  descending (binary_insert compare a pivot) ∧ binary_insert compare a pivot ≡ₚ a ++ [pivot] ∧
  ∀ k, with_key k (binary_insert compare a pivot) = with_key k a ++ with_key k [pivot].
Proof.
  intros Ha Hg Hp. unfold binary_insert. set (i := search _ _ _ _ _ _).
  assert (Hi : belongs pivot a i).
  { apply search_spec; [done..|lia|lia|lia|]. intros j x Hj Hx%lookup_lt_Some. lia. }
  apply belongs_split in Hi as [HL HR]. clearbody i.
  rewrite <- (take_drop i a) in Ha at 1. apply StronglySorted_app in Ha as (Hmix & Ht & Hd). split; [|split].
  - apply StronglySorted_app. split; [|split; [done|]].
    + intros x y Hx [->|Hy]%elem_of_cons; [by apply HL|by apply Hmix].
    + constructor; [done|]. apply Forall_forall. intros x Hx. specialize (HR x Hx). lia.
  - rewrite <- (take_drop i a) at 3. rewrite <- app_assoc. apply Permutation_app_head. apply Permutation_cons_append.
  - intros k. rewrite with_key_app. rewrite <- (take_drop i a) at 3. rewrite with_key_app, <- app_assoc. f_equal.
    unfold with_key. simpl. destruct (Z.eqb_spec (key pivot) k) as [<-|]; [|by rewrite app_nil_r].
    change (pivot :: with_key (key pivot) (drop i a) = with_key (key pivot) (drop i a) ++ [pivot]).
    rewrite with_key_none; [done|]. intros x Hx. specialize (HR x Hx). lia.
Qed.
Lemma small_sort_spec l : Forall good l →
  descending (small_sort compare l) ∧ small_sort compare l ≡ₚ l ∧ ∀ k, with_key k (small_sort compare l) = with_key k l.
Proof.
  intros Hl. unfold small_sort. destruct (countRunAndMakeAscending compare l) as [run rest] eqn:E.
  apply count_run_spec in E as (Hd & Hp & Hk); [|done].
  assert (Hg : Forall good (run ++ rest)) by (by rewrite Hp). apply Forall_app in Hg as [Hgr Hgt].
  rewrite <- Hp. setoid_rewrite <- Hk. clear Hl Hp Hk. revert run Hd Hgr.
  induction rest as [|x rest IH]; intros run Hd Hgr; simpl; [split; [done|]; split; [by rewrite app_nil_r|intros k; by rewrite app_nil_r]|].
  inversion_clear Hgt as [|? ? Hx Hgt']. destruct (binary_insert_spec run x Hd Hgr Hx) as (Hd' & Hp' & Hk').
  destruct (IH Hgt' (binary_insert compare run x) Hd') as (G1 & G2 & G3).
  { rewrite Hp'. by apply Forall_app; repeat constructor. }
  split; [done|]. split; [by rewrite G2, Hp', <- app_assoc|]. intros k. rewrite G3, Hk', <- app_assoc. f_equal. symmetry. apply (with_key_app k [x]).
Qed.
Lemma find_ext_in (f g : A → bool) l : (∀ y, y ∈ l → f y = g y) → List.find f l = List.find g l.
Proof.
  induction l as [|y l IH]; intros H; [done|]. simpl. rewrite H by left. destruct (g y); [done|].
  apply IH. intros z Hz. apply H. by right.
Qed.
(** The first of the sorted list: the first of those with the greatest key. *)
Definition first_greatest l : option A :=
  List.find (λ x, forallb (λ y, Z.leb (key y) (key x)) l) l.
Lemma small_sort_head l : Forall good l → head (small_sort compare l) = first_greatest l.
Proof.
  intros Hl. destruct (small_sort_spec l Hl) as (Hd & Hp & Hk). destruct (small_sort compare l) as [|x sl] eqn:E.
  { by apply Permutation_nil in Hp as ->. }
  inversion_clear Hd as [|? ? _ Hmax].
  assert (Hall : ∀ y, y ∈ l → (key y ≤ key x)%Z).
  { intros y Hy. rewrite <- Hp in Hy. apply elem_of_cons in Hy as [->|Hy]; [lia|]. rewrite Forall_forall in Hmax.
    by apply Hmax. }
  specialize (Hk (key x)). unfold with_key in Hk. simpl in Hk. rewrite Z.eqb_refl in Hk. unfold first_greatest.
  assert (Hin : x ∈ l) by (rewrite <- Hp; left). simpl.
  replace (List.find (λ z, forallb (λ y, Z.leb (key y) (key z)) l) l) with (List.find (λ z, Z.eqb (key z) (key x)) l).
  { clear -Hk. revert Hk. generalize (List.filter (λ y, Z.eqb (key y) (key x)) sl). intros rest. revert rest.
    induction l as [|y l IH]; intros rest; [done|]. simpl. destruct (Z.eqb (key y) (key x)); [by intros [= <- _]|apply IH]. }
  apply find_ext_in. intros y Hy. apply eq_bool_prop_intro.
  rewrite !Is_true_true, Z.eqb_eq, forallb_forall. setoid_rewrite Z.leb_le. split.
  - intros -> z Hz%list_elem_of_In. by apply Hall.
  - intros H. specialize (H x ltac:(by apply list_elem_of_In)). specialize (Hall y Hy). lia.
Qed.
End SortFacts.

(** ** The token of a document *)
Section TokenFacts.
Context {S : Type} (newDate : M S Z).
Context (tsValidator svaTokenCertVerifier : X509Certificate → option (list X509Certificate) → MF S ValidateOutcome).
Context (tsPolicy : string) (hashBlackList : list string).
Context (newVerifier : PublicKey → outcome unit) (jwtVerify : SignedJWT → PublicKey → outcome bool).
Context (getAlgoParams : JWSAlgorithm → outcome (option string)) (digestOf : string → outcome (option ASN1ObjectIdentifier)).
Context (digests : option string → outcome DigestAlgorithm) (digests_oid : option ASN1ObjectIdentifier → outcome DigestAlgorithm).
Context (getUri : option JWSAlgorithm → outcome string).
Context (certHash64 : DigestAlgorithm → X509Certificate → outcome string) (parsed : PDSignature → Parsed).
Notation new_stamp := (new_PDFSVTDocTimeStamp tsValidator tsPolicy hashBlackList).
Notation verify_token vfy := (SVAUtils_verifySVA newDate newVerifier vfy getAlgoParams digests).
Notation verify_stamp := (verifySVA newDate svaTokenCertVerifier newVerifier jwtVerify getAlgoParams digestOf digests digests_oid getUri certHash64).
Notation valid := (valid_stamps newDate tsValidator svaTokenCertVerifier tsPolicy hashBlackList newVerifier jwtVerify
  getAlgoParams digestOf digests digests_oid getUri certHash64 parsed).
Notation most_recent := (getMostRecentValidSVA newDate tsValidator svaTokenCertVerifier tsPolicy hashBlackList newVerifier
  jwtVerify getAlgoParams digestOf digests digests_oid getUri certHash64 parsed).
(** The date of a token, for those that have one. *)
Definition date_key (ts : PDFSVTDocTimeStamp) : Z := default 0%Z (stamp_date ts).
Lemma compare_dates_key x y : is_Some (stamp_date x) → is_Some (stamp_date y) →
  Z.ltb (compare_dates x y) 0 = Z.ltb (date_key y) (date_key x).
Proof. unfold compare_dates, date_key. intros [d1 ->] [d2 ->]. simpl. by destruct (Z.ltb d2 d1). Qed.
(** C13. The most recent token: the sort by date answers what a search for the latest date
    answers, the first, in the order of the document, of the tokens with the latest date,
    when the dates of all the tokens parse and there are less than 32 of them. *)
Theorem most_recent_is_latest svaSigList s l s' :
  valid svaSigList s = Some (Ret l, s') → length l < 32 → Forall (λ ts, is_Some (stamp_date ts)) l →
  most_recent svaSigList s = Some (Ret (first_greatest date_key l), s').
Proof.
  intros H _ Hl. unfold getMostRecentValidSVA. mstep. rewrite H. do 3 f_equal.
  by apply (small_sort_head compare_dates (λ ts, is_Some (stamp_date ts)) date_key compare_dates_key).
Qed.
(** C21. What is not asked of a token: the answer of the signature check is not looked at,
    and a token whose verification fails is still the most recent one. *)
Theorem token_trust jwt key b s0 sig s ts s1 p s2 :
  jwtVerify jwt key = Ret b →
  new_stamp sig (parsed sig) s = Some (Ret ts, s1) → sigValid (timeStamp (svtStamp ts)) = true →
  verify_stamp ts [] s1 = Some (Ret (false, p), s2) →
  verify_token jwtVerify jwt key s0 = verify_token (λ _ _, Ret true) jwt key s0 ∧
  most_recent [sig] s = Some (Ret (Some ts), s2).
Proof.
  intros Hb Hn Hv Hf. split.
  - unfold SVAUtils_verifySVA. by rewrite Hb.
  - unfold getMostRecentValidSVA, valid_stamps, stamp_of. mstep. rewrite Hn. simpl. rewrite Hv. simpl. by rewrite Hf.
Qed.
End TokenFacts.

(** ** Tokens over SHA-384 *)
Section Sha384.
Context {S : Type} (newDate : M S Z) (svaTokenCertVerifier : X509Certificate → option (list X509Certificate) → MF S ValidateOutcome).
Context (newVerifier : PublicKey → outcome unit) (jwtVerify : SignedJWT → PublicKey → outcome bool).
Context (getAlgoParams : JWSAlgorithm → outcome (option string)) (digestOf : string → outcome (option ASN1ObjectIdentifier)).
Context (digests_oid : option ASN1ObjectIdentifier → outcome DigestAlgorithm) (getUri : option JWSAlgorithm → outcome string).
Context (certHash64 : DigestAlgorithm → X509Certificate → outcome string).
Context (ALGO_ID_DIGEST : Digest → string) (id_digest : Digest → ASN1ObjectIdentifier) `{!Inj (=) (=) ALGO_ID_DIGEST}.
Notation digests := (getDigest (digestAlgorithmMap ALGO_ID_DIGEST id_digest)).
Lemma sha384_throws jwt key s : getAlgoParams (jwtAlgorithm jwt) = Ret (Some (ALGO_ID_DIGEST SHA384)) →
  ∃ e s', SVAUtils_verifySVA newDate newVerifier jwtVerify getAlgoParams digests jwt key s = (Throw e, s').
Proof.
  intros Ha. unfold SVAUtils_verifySVA. rewrite Ha. mstep. unfold getDigest at 1. rewrite (registry_digest ALGO_ID_DIGEST id_digest).
  destruct (jwtClaimsSet jwt) as [set|e]; [|by eauto].
  assert (F : ∀ b s1, ∃ e s', (if b : bool then (λ s, (Throw (RuntimeException "The SVA has expired"), s))
    else λ s, match newVerifier key with
              | Ret _ => (Throw (NoSuchAlgorithmException ("Digest algorithm " ++ ALGO_ID_DIGEST SHA384 ++ " is not registered")), s)
              | Throw e => (Throw e, s)
              end : outcome unit * S) s1 = (Throw e, s')).
  { intros [] s1; [by eauto|]. destruct (newVerifier key); eauto. }
  destruct (expirationTime set) as [t|].
  - destruct (newDate s) as [[now|e] s1]; [|by eauto]. apply (F (Z.ltb t now) s1).
  - apply (F false s).
Qed.
(** With the registry as it is filled, a token whose algorithm hashes with SHA-384, as its
    own library names it, is never found valid, whatever its signature and certificates. *)
Theorem sha384_tokens_refused ts certificates s :
  getAlgoParams (jwtAlgorithm (signedJWT ts)) = Ret (Some (ALGO_ID_DIGEST SHA384)) →
  ∃ s', verifySVA newDate svaTokenCertVerifier newVerifier jwtVerify getAlgoParams digestOf digests digests_oid getUri
    certHash64 ts certificates s = Some (Ret (false, empty_result), s').
Proof.
  intros Ha. unfold verifySVA. destruct (getSvaSigningCertificate _ _ _ _ _ _) as [[c|] chain]; [|by eexists]. mstep.
  destruct (sha384_throws (signedJWT ts) (publicKey c) s Ha) as (e & s' & ->). by eexists.
Qed.
End Sha384.

(** ** Examples *)
Section Demo.
(** A time stamp of certificate 9 with the token [jwt], which names a SHA-384 algorithm. *)
Definition demo_stamp_data (time : Z) : TimeStampData :=
  mkTimeStampData (demo_ca, []) (Ret (mkTSTInfo "1" (Some time) (Some "h"%string))) (Ret tt) true.
Definition demo_jwt (alg : JWSAlgorithm) : SignedJWT :=
  mkJWT alg None None (Ret (mkClaimsSet None "issuer" (Some 0%Z) "id" (Ret (mkSVTClaims (Some (demo_digest_uri SHA384)) [])))).
Definition demo_parsed (alg : JWSAlgorithm) (sig : PDSignature) : Parsed :=
  mkParsed (Ret tt) (Ret (demo_jwt alg)) (Ret (demo_stamp_data (default 0%Z (head (byteRange sig))))) (Ret "value"%string)
    (Ret "attributes"%string) (Ret "content"%string) (Ret [demo_ca]).
Definition trusting (_ : X509Certificate) (_ : option (list X509Certificate)) : MF unit ValidateOutcome := mret (VResult empty_result).
Definition demo_params (alg : JWSAlgorithm) : outcome (option string) :=
  Ret (Some (demo_digest_uri match alg with RS384 | ES384 => SHA384 | RS512 | ES512 => SHA512 | _ => SHA256 end)).
Definition demo_registry : DigestRegistry := digestAlgorithmMap demo_digest_uri demo_digest_oid.
Definition no_hash (_ : DigestAlgorithm) (_ : X509Certificate) : outcome string := Ret ""%string.
Notation demo_now := (mret 1000%Z : M unit Z) (only parsing).
Notation accepting := (λ _ _, Ret true) (only parsing).
Notation demo_valid_stamps := (valid_stamps demo_now trusting trusting "policy" [] (λ _, Ret tt) accepting demo_params
  (λ _, Ret None) (getDigest demo_registry) (getDigest_oid map_keys demo_registry) (λ _, Ret ""%string) no_hash (demo_parsed ES384)) (only parsing).
Notation demo_most_recent := (getMostRecentValidSVA demo_now trusting trusting "policy" [] (λ _, Ret tt) accepting demo_params
  (λ _, Ret None) (getDigest demo_registry) (getDigest_oid map_keys demo_registry) (λ _, Ret ""%string) no_hash (demo_parsed ES384)) (only parsing).
Definition svt_sig (time : Z) : PDSignature := mkPDSignature [time; 0; 0; 0]%Z (Some "ETSI.RFC3161"%string).
Definition demo_svt (time : Z) : PDFSVTDocTimeStamp :=
  match new_PDFSVTDocTimeStamp trusting "policy" [] (svt_sig time) (demo_parsed ES384 (svt_sig time)) tt with
  | Some (Ret ts, _) => ts
  | _ => mkSvtStamp (mkDocTimeStamp (mkTimeStamp false [] None None) []) [] (demo_jwt ES384) (mkSVTClaims None [])
  end.
Lemma most_recent_is_latest_witness :
  demo_most_recent [svt_sig 3; svt_sig 7; svt_sig 5; svt_sig 7] tt = Some (Ret (Some (demo_svt 7)), tt).
Proof.
  refine (eq_trans (most_recent_is_latest demo_now trusting trusting "policy" [] (λ _, Ret tt) accepting demo_params
    (λ _, Ret None) (getDigest demo_registry) (getDigest_oid map_keys demo_registry) (λ _, Ret ""%string) no_hash (demo_parsed ES384)
    [svt_sig 3; svt_sig 7; svt_sig 5; svt_sig 7] tt [demo_svt 3; demo_svt 7; demo_svt 5; demo_svt 7] tt _ _ _) _).
  - vm_compute. reflexivity.
  - simpl. lia.
  - repeat constructor; vm_compute; eauto.
  - vm_compute. reflexivity.
Defined.
Notation demo_verify := (verifySVA demo_now trusting (λ _, Ret tt) accepting demo_params
  (λ _, Ret None) (getDigest demo_registry) (getDigest_oid map_keys demo_registry) (λ _, Ret ""%string) no_hash) (only parsing).
Lemma sha384_tokens_refused_witness : ∃ s', demo_verify (demo_svt 3) [] tt = Some (Ret (false, empty_result), s').
Proof.
  apply (sha384_tokens_refused demo_now trusting (λ _, Ret tt) accepting demo_params (λ _, Ret None)
    (getDigest_oid map_keys demo_registry) (λ _, Ret ""%string) no_hash demo_digest_uri demo_digest_oid (demo_svt 3) [] tt).
  reflexivity.
Defined.
(** A token that is not verified, its algorithm being unknown to the registry, is taken. *)
Lemma token_trust_witness :
  demo_most_recent [svt_sig 3] tt = Some (Ret (Some (demo_svt 3)), tt).
Proof.
  eapply (token_trust demo_now trusting trusting "policy" [] (λ _, Ret tt) accepting demo_params
    (λ _, Ret None) (getDigest demo_registry) (getDigest_oid map_keys demo_registry) (λ _, Ret ""%string) no_hash (demo_parsed ES384)
    (demo_jwt ES384) 0 true tt (svt_sig 3) tt (demo_svt 3) tt empty_result tt); vm_compute; reflexivity.
Defined.
End Demo.
