(* ===== verification/PdfDocument.v ===== *)
(** * The signatures of a PDF document

    Model of [SVTenabledPDFDocumentSigVerifier.java], with [verifyDocumentTimestamps] of
    [PDFSingleSignatureValidatorImpl.java] and the ordering of certificates of
    [SVAUtils.java].  The token validator that [PDFSVTValidator] extends is not part of the
    repository: it is a computation that is given [getSignatureSVTData]. *)
From Stdlib Require Import ZArith Lia Ascii String.
From stdpp Require Import base gmap strings list.
From S2P Require Import Prelude CertModel Algorithms.
From S2P Require Import Validity PathValidator PdfContext Timestamps PdfVerify PdfSvt.

(** ** Ordered certificates ([SVAUtils]) *)
Section Order.
Context (certVerify : X509Certificate → PublicKey → bool).
Definition getParentCert (sigCert : X509Certificate) (chain : list X509Certificate) : option X509Certificate :=
  List.find (λ c, certVerify sigCert (publicKey c)) chain.
(** The loop: the parents of a certificate up to a self-issued one. *)
Fixpoint parents (fuel : nat) (sigCert : X509Certificate) (chain : list X509Certificate) : option (list X509Certificate) :=
  match fuel with
  | 0 => None
  | S fuel' =>
      match getParentCert sigCert chain with
      | None => Some []
      | Some parentCert =>
          if certVerify parentCert (publicKey parentCert) then Some [parentCert]
          else (parentCert ::.) <$> parents fuel' parentCert chain
      end
  end.
Definition getCertOrNull (c : outcome X509Certificate) : option X509Certificate :=
  match c with Ret c => Some c | Throw _ => None end.
(** [getOrderedCertList]; certificates are given by what parsing their bytes answers. *)
Definition getOrderedCertList (fuel : nat) (signerCertificate : option (outcome X509Certificate))
    (certificateChain : option (list (outcome X509Certificate))) : option (option (list (option X509Certificate))) :=
  match signerCertificate with
  | None => Some None
  | Some signer =>
      let several := match certificateChain with Some l => 2 <=? length l | None => false end in
      if negb several then Some (Some [getCertOrNull signer])
      else
        match signer with
        | Throw _ => Some None
        | Ret sigCert =>
            l ← parents fuel sigCert (omap getCertOrNull (default [] certificateChain));
            Some (Some (map Some (sigCert :: l)))
        end
  end.
End Order.

(** ** Results of tokens *)
Record SignatureSVTValidationResult := mkSvtResult {
  resultJWT : SignedJWT;
  resultClaims : SignatureClaims;
  isSvtValidationSuccess : bool;
  resultSigner : outcome X509Certificate;
  resultChain : option (list (outcome X509Certificate))
}.
Definition TIME_VERIFICATION_TYPE_SVT : string := "http://id.swedenconnect.se/svt/timeval-type/svt/01".
Definition getStatusFromPolicyValidationClaims (l : option (list PolicyValidationClaims)) : Status :=
  let any (c : ValidationConclusion) (l : list PolicyValidationClaims) := existsb (λ p, bool_decide (res p = c)) l in
  match l with
  | None | Some [] => ERROR_INVALID_SIGNATURE
  | Some l =>
      if any PASSED l then SUCCESS
      else if any FAILED l then ERROR_INVALID_SIGNATURE
      else if any INDETERMINATE l then INTERDETERMINE
      else ERROR_INVALID_SIGNATURE
  end.
(** A new ExtendedPdfSigValResult for a signature; its status is not set. *)
Definition new_result (sig : PDSignature) : SigResult :=
  mkSigResult sig false None None None "" None false false [] None [].
Definition getErrorResult (sig : PDSignature) (m : string) : SigResult :=
  set_message ("Failed to process signature: " ++ m) (set_status ERROR_INVALID_SIGNATURE (new_result sig)).

Section Document.
Context {S : Type} (getMessage : exn → string) (parsed : PDSignature → Parsed) (cms : PDSignature → outcome CMSData).
(** The hash of a signature value for the algorithm of a token, and [getUri] of the registry. *)
Context (tokenHash64 : JWSAlgorithm → string → outcome string) (getUri : option JWSAlgorithm → outcome string).
Context (certVerify : X509Certificate → PublicKey → bool).

Fixpoint getMatchingSvtValidation (sigValue : string) (l : list SignatureSVTValidationResult) : option SignatureSVTValidationResult :=
  match l with
  | [] => None
  | r :: l' =>
      match tokenHash64 (jwtAlgorithm (resultJWT r)) sigValue with
      | Throw _ => getMatchingSvtValidation sigValue l'
      | Ret h =>
          if String.eqb h (sig_hash (sig_ref (resultClaims r))) && isSvtValidationSuccess r then Some r
          else getMatchingSvtValidation sigValue l'
      end
  end.
(** The time of a token, added to the times of its claims. *)
Definition svt_times (r : SignatureSVTValidationResult) : outcome (list TimeValidationResult) :=
  set ← jwtClaimsSet (resultJWT r);
  match time_val (resultClaims r), issueTime set with
  | Some l, Some t =>
      Ret (map (λ c, mkTimeResult (Some c) None)
             (l ++ [mkTimeClaims (jwtID set) (jwtIssuer set) (Z.quot t 1000) TIME_VERIFICATION_TYPE_SVT
                      [mkClaims SIG_VALIDATION_POLICY_PKIX_VALIDATION PASSED ""] None]))
  | _, _ => Throw NullPointerException
  end.
(** [compliePDFSigValResultsFromSvtValidation]; an exception leaves what was set before it. *)
Definition svt_failed (r : SigResult) : SigResult :=
  set_message "Unable to process SVA token or signature data" (set_status ERROR_INVALID_SIGNATURE r).
Definition svt_status (sv : SignatureSVTValidationResult) (r : SigResult) : SigResult :=
  if isSvtValidationSuccess sv then set_status (getStatusFromPolicyValidationClaims (sig_val (resultClaims sv))) r
  else set_message "Unable to verify SVT signature" (set_status ERROR_INVALID_SIGNATURE r).
Definition svt_read (sig : PDSignature) : outcome string :=
  _ ← contentsOf (parsed sig);
  _ ← valueOf (parsed sig);
  match subFilter sig with Some f => Ret f | None => Throw NullPointerException end.
Definition svt_data (sv : SignatureSVTValidationResult) (sig : PDSignature) : outcome CMSData :=
  _ ← getUri (Some (jwtAlgorithm (resultJWT sv)));
  _ ← resultSigner sv;
  cms sig.
Definition compliePDFSigValResultsFromSvtValidation (fuel : nat) (sv : SignatureSVTValidationResult) (sig : PDSignature)
    (ctx : PDFSignatureContext) : option SigResult :=
  let r := new_result sig in
  match svt_read sig with
  | Throw _ => Some (svt_failed r)
  | Ret f =>
      let r := set_ades (equalsIgnoreCase f "etsi.cades.detached") false r in
      match (_ ← attributesOf (parsed sig); isCoversWholeDocument ctx sig) : outcome bool with
      | Throw _ => Some (svt_failed r)
      | Ret covers =>
          let signed := match getSignedDocument ctx sig with Ret b => Some b | Throw _ => None end in
          let r := mkSigResult sig covers signed None None "" None (etsiAdes r) false [] None [] in
          match svt_data sv sig with
          | Throw _ => Some (svt_failed r)
          | Ret data =>
              path ← (getOrderedCertList certVerify fuel (Some (resultSigner sv)) (resultChain sv)
                      : option (option (list (option X509Certificate))));
              let cvr := mkPVR None None (match path with Some l => Some (omap id l) | None => None end) None in
              let r := mkSigResult sig covers signed (Some (cmsSigCert data)) None "" None (etsiAdes r) false []
                         (Some cvr) (default [] (sig_val (resultClaims sv))) in
              let r := svt_status sv r in
              Some match svt_times sv with
                   | Ret times => set_times times r
                   | Throw _ => svt_failed r
                   end
          end
      end
  end.

(** ** [validate] *)
Section Validate.
(** PDFBox, the validators and the policy that the document verifier is built with. *)
Context (loadPDF : string → option PDDocument) (hashOrder : ∀ A, list (string * A) → list (string * A)) (provider : GeneralSafeObjects).
Context (verify : PDSignature → outcome CMSData → list PDFDocTimeStamp → PDFSignatureContext → MF S SigResult).
Context (new_stamp : outcome TimeStampData → MF S TimeStamp).
Context (pdfsvtValidator : option (MF S (list SignatureSVTData) → MF S (list SignatureSVTValidationResult))).
Context (getSignatureSVTData : list PDSignature → MF S (list SignatureSVTData)).

(** The kind of a signature; one that cannot be read is illegal. *)
Definition signature_kind (sig : PDSignature) : SigType :=
  match (_ ← contentsOf (parsed sig); getSignatureType sig (parsed sig)) : outcome SigType with
  | Ret t => t
  | Throw _ => ILLEGAL_SIGNATURE_TYPE
  end.
Definition is_doc_stamp (sig : PDSignature) : bool :=
  match signature_kind sig with SVT_TYPE | DOC_TIMESTAMP_TYPE => true | _ => false end.
Definition is_signature (sig : PDSignature) : bool :=
  match signature_kind sig with SIGNATURE_TYPE | ILLEGAL_SIGNATURE_TYPE => true | _ => false end.
(** [verifyDocumentTimestamps]; a timestamp that cannot be read is passed over. *)
Fixpoint verifyDocumentTimestamps (l : list PDSignature) : MF S (list PDFDocTimeStamp) :=
  match l with
  | [] => mret []
  | sig :: l' =>
      o ← mf_attempt (_ ← run (lift (contentsOf (parsed sig))); _ ← run (lift (signedContentOf (parsed sig)));
                      new_stamp (stampOf (parsed sig)));
      rest ← verifyDocumentTimestamps l';
      mret match o with Ret ts => mkDocTimeStamp ts (byteRange sig) :: rest | Throw _ => rest end
  end.
(** A signature that no token covers; the document timestamps are verified once, with the
    first of them. *)
Definition validate_directly (ctx : PDFSignatureContext) (docTsSigList : list PDSignature)
    (docTimeStampList : option (list PDFDocTimeStamp)) (sig : PDSignature) : MF S (list PDFDocTimeStamp * SigResult) :=
  stamps ← match docTimeStampList with Some l => mret l | None => verifyDocumentTimestamps docTsSigList end;
  o ← mf_attempt (verify sig (cms sig) stamps ctx);
  mret (stamps, match o with Ret r => r | Throw e => getErrorResult sig (getMessage e) end).
Fixpoint validate_each (fuel : nat) (ctx : PDFSignatureContext) (svt : option (list SignatureSVTValidationResult))
    (docTsSigList : list PDSignature) (docTimeStampList : option (list PDFDocTimeStamp)) (l : list PDSignature) : MF S (list SigResult) :=
  match l with
  | [] => mret []
  | sig :: l' =>
      let svtValResult :=
        match valueOf (parsed sig) with
        | Ret v => getMatchingSvtValidation v (default [] svt)
        | Throw _ => None
        end in
      match svtValResult with
      | None =>
          '(stamps, r) ← validate_directly ctx docTsSigList docTimeStampList sig;
          rest ← validate_each fuel ctx svt docTsSigList (Some stamps) l';
          mret (r :: rest)
      | Some sv =>
          r ← (λ s, (λ r, (Ret r, s)) <$> compliePDFSigValResultsFromSvtValidation fuel sv sig ctx);
          rest ← validate_each fuel ctx svt docTsSigList docTimeStampList l';
          mret (r :: rest)
      end
  end.
Definition SignatureException (m : string) : exn := SecurityException m.
(** [validate(byte[])] *)
Definition validateDocument (fuel : nat) (pdfDocBytes : string) : MF S (list SigResult) :=
  o ← mf_attempt
        (ctx ← (λ s, (λ o, (o, s)) <$> new_PDFSignatureContext loadPDF hashOrder provider pdfDocBytes);
         let allSignatureList := signatures ctx in
         svtValidationResults ← match pdfsvtValidator with
                                | None => mret None
                                | Some v => l ← v (getSignatureSVTData allSignatureList); mret (Some l)
                                end;
         validate_each fuel ctx svtValidationResults (List.filter is_doc_stamp allSignatureList) None
           (List.filter is_signature allSignatureList));
  match o with
  | Ret l => mret l
  | Throw _ => mf_raise (SignatureException "Error validating signatures on PDF document")
  end.
End Validate.
End Document.

(** ** [getConcludingSigVerifyResult] *)
Record SignedDocumentValidationResult := mkDocResult {
  isSigned : bool;
  completeSuccess : bool;
  validSignatureSignsWholeDocument : bool;
  signatureCount : nat;
  validSignatureCount : nat;
  docStatusMessage : string;
  signatureValidationResults : list SigResult
}.
Definition getConcludingSigVerifyResult (l : list SigResult) : SignedDocumentValidationResult :=
  let valid := List.filter isSuccess l in
  match l, valid with
  | [], _ => mkDocResult false false false 0 0 "No signatures" l
  | _, [] => mkDocResult true false false (length l) 0 "No valid signatures" l
  | _, _ =>
      let all := length l =? length valid in
      mkDocResult true all (existsb coversDocument valid) (length l) (length valid)
        (if all then "OK" else "Some signatures are valid and some are invalid") l
  end.
