(* ===== verification/PdfDocumentProps.v ===== *)
(** * What the result for a PDF document says

    One result for each signature of the document, the conclusion from the results, and from
    the conclusion of a whole document back to the evidence for each signer. *)
From Stdlib Require Import ZArith Lia Ascii String.
From stdpp Require Import base gmap strings list.
From S2P Require Import Prelude CertModel Algorithms.
From S2P Require Import Validity PathValidator PdfContext PdfContextProps Timestamps PdfVerify PdfVerifyProps PdfSvt PdfDocument.

(** ** The conclusion *)
Lemma count_all (l : list SigResult) : length l = length (List.filter isSuccess l) ↔ ∀ r, r ∈ l → isSuccess r = true.
Proof.
  induction l as [|r l IH]; simpl; [split; [by intros _ r ?%elem_of_nil|done]|].
  pose proof (List.filter_length_le isSuccess l). destruct (isSuccess r) eqn:E; simpl.
  - split.
    + intros [= H1] x [->|Hx]%elem_of_cons; [done|]. by apply IH.
    + intros H1. f_equal. apply IH. intros x Hx. apply H1. by right.
  - split; [lia|]. intros H1. by rewrite (H1 r ltac:(left)) in E.
Qed.
Lemma complete_success l : completeSuccess (getConcludingSigVerifyResult l) = true → ∀ r, r ∈ l → isSuccess r = true.
Proof.
  pose proof (count_all l) as C. unfold getConcludingSigVerifyResult. destruct l as [|r l]; [done|].
  destruct (List.filter isSuccess (r :: l)) as [|v valid]; [done|]. cbv zeta. cbn [completeSuccess]. rewrite Nat.eqb_eq. by apply C.
Qed.
(** The conclusion of a document: it is a complete success exactly when there is a
    signature and the result of each is a success, and it has a valid signature of the
    whole document exactly when one of the successful results covers the document. *)
Theorem conclusion_exact l :
  let d := getConcludingSigVerifyResult l in
  (completeSuccess d = true ↔ l ≠ [] ∧ ∀ r, r ∈ l → isSuccess r = true) ∧
  (validSignatureSignsWholeDocument d = true ↔ ∃ r, r ∈ l ∧ isSuccess r = true ∧ coversDocument r = true) ∧
  signatureCount d = length l ∧ validSignatureCount d = length (List.filter isSuccess l) ∧
  signatureValidationResults d = l.
Proof.
  assert (W : existsb coversDocument (List.filter isSuccess l) = true ↔
    ∃ r, r ∈ l ∧ isSuccess r = true ∧ coversDocument r = true).
  { rewrite existsb_exists. setoid_rewrite <- list_elem_of_In. setoid_rewrite filter_elem. naive_solver. }
  pose proof (count_all l) as C. unfold getConcludingSigVerifyResult.
  destruct l as [|r l]; [split; [by split; [|intros [[]]]|]; split; [by split; [|intros (? & ?%elem_of_nil & _)]|done]|].
  destruct (List.filter isSuccess (r :: l)) as [|v valid] eqn:E; cbv zeta; cbn [completeSuccess validSignatureSignsWholeDocument
    signatureCount validSignatureCount signatureValidationResults]; (split; [|split; [|done]]); try done.
  - split; [done|]. intros [_ H]. by apply C in H.
  - rewrite Nat.eqb_eq, <- C. split; [by intros ->|by intros [_ ->]].
Qed.

(** ** One result for each signature *)
Section Results.
Context {S : Type}.
Context (certificateValidator : X509Certificate → option (list X509Certificate) → MF S ValidateOutcome) (newDate : M S Z).
Context (getMessage : exn → string) (getAlgorithmURI : option string → option string → outcome string) (isRegistered : string → bool).
Context (digest : string → outcome (X509Certificate → string)) (SHA1 SHA256 : string).
Context (tsPolicy : string) (hashBlackList : list string) (subjectName : X509Certificate → string).
Notation verify policy := (verifySignature (Policy := policy) certificateValidator getMessage getAlgorithmURI isRegistered digest SHA1 SHA256 tsPolicy hashBlackList subjectName).
Lemma apply_policy_signature {PC : PolicyChecks (S := S)} ctx r s r' s' :
  apply_policy ctx r s = Some (Ret r', s') → pdfSignature r' = pdfSignature r.
Proof.
  unfold apply_policy. mstep. destruct (validatePolicy ctx r s) as [[[p|e] s1]|]; [|done|done].
  intros [= <- _]. simpl. by case_match.
Qed.
(** The result of a verification is about the signature. *)
Lemma verify_signature_of {PC : PolicyChecks (S := S)} sig data stamps ctx s r s' :
  verify PC sig data stamps ctx s = Some (Ret r, s') → pdfSignature r = sig.
Proof.
  intros H. unfold verifySignature in H. mstep. destruct (isCoversWholeDocument ctx sig) as [covers|]; simpl in H; [|done].
  destruct data as [cms|]; simpl in H; [|done].
  destruct (verifySignerInfo cms) as [ok|]; [|by injection H as <- _]. simpl in H.
  destruct (pkParams cms) as [[]|]; simpl in H; [|done].
  destruct (getAlgorithmURI _ _) as [algorithm|]; [|by injection H as <- _]. simpl in H.
  destruct (signedAttributes cms) as [attrs|]; simpl in H; [|done].
  destruct (checkAlgoritmConsistency _ _ _ _) eqn:Hcons; simpl in H; [|by injection H as <- _].
  match type of H with context [if isSuccess ?r then _ else _] => set (ra := r) in H end.
  set (r2 := if isSuccess ra then _ else ra) in H. assert (Hp2 : pristine sig r2).
  { unfold r2. by destruct (isSuccess ra); [apply pades_pristine|]. }
  match type of H with context [match ?ts s with _ => _ end] => destruct (ts s) as [[tss s1]|]; [|done] end.
  destruct (validate_signer _ _ _ _ s1) as [[[r3|e] s2]|] eqn:H3; simpl in H; [|done|done].
  apply (validate_signer_judged certificateValidator getMessage sig) in H3 as (_ & Hsig & _); [|done].
  by apply apply_policy_signature in H as ->.
Qed.
Lemma verify_needs_data {PC : PolicyChecks (S := S)} sig e stamps ctx s r s' :
  verify PC sig (Throw e) stamps ctx s ≠ Some (Ret r, s').
Proof. unfold verifySignature. mstep. by destruct (isCoversWholeDocument ctx sig). Qed.
Section Document.
Context {PC : PolicyChecks (S := S)} (parsed : PDSignature → Parsed) (cms : PDSignature → outcome CMSData).
Context (tokenHash64 : JWSAlgorithm → string → outcome string) (getUri : option JWSAlgorithm → outcome string).
Context (certVerify : X509Certificate → PublicKey → bool).
Context (loadPDF : string → option PDDocument) (hashOrder : ∀ A, list (string * A) → list (string * A)) (provider : GeneralSafeObjects).
Context (new_stamp : outcome TimeStampData → MF S TimeStamp).
Context (getSignatureSVTData : list PDSignature → MF S (list SignatureSVTData)).
Notation each := (validate_each getMessage parsed cms tokenHash64 getUri certVerify (verify PC) new_stamp).
Notation document validator := (validateDocument getMessage parsed cms tokenHash64 getUri certVerify loadPDF hashOrder provider
  (verify PC) new_stamp validator getSignatureSVTData).
Lemma svt_result_signature fuel sv sig ctx r :
  compliePDFSigValResultsFromSvtValidation parsed cms getUri certVerify fuel sv sig ctx = Some r → pdfSignature r = sig.
Proof.
  unfold compliePDFSigValResultsFromSvtValidation. destruct (svt_read _ _) as [f|]; [|by intros [= <-]].
  destruct (_ ≫= _) as [covers|]; [|by intros [= <-]].
  destruct (svt_data _ _ _ _) as [data|]; [|by intros [= <-]].
  destruct (getOrderedCertList _ _ _ _) as [path|]; simpl; [|done].
  intros [= <-]. unfold svt_status. destruct (svt_times sv), (isSvtValidationSuccess sv); done.
Qed.
(** Where a result without tokens comes from. *)
Lemma direct_result ctx docs stamps sig s p r s' :
  validate_directly getMessage parsed cms (verify PC) new_stamp ctx docs stamps sig s = Some (Ret (p, r), s') →
  pdfSignature r = sig ∧
  (isSuccess r = true → ∃ ts s1 s2, verify PC sig (cms sig) ts ctx s1 = Some (Ret r, s2)).
Proof.
  unfold validate_directly. mstep.
  match goal with |- context [match ?m s with _ => _ end] => destruct (m s) as [[[ts|e] s1]|]; [|done|done] end.
  destruct (verify PC sig (cms sig) ts ctx s1) as [[o s2]|] eqn:Hv; [|done]. intros [= -> <- <-].
  destruct o as [r'|e]; [|split; [done|by intros [=]%bool_decide_eq_true]]. split; [by eapply verify_signature_of|]. eauto.
Qed.
Lemma each_results fuel ctx svt docs stamps l s rs s' :
  each fuel ctx svt docs stamps l s = Some (Ret rs, s') → map pdfSignature rs = l.
Proof.
  revert stamps s rs s'. induction l as [|sig l IH]; intros stamps s rs s'; cbn [validate_each]; [by intros [= <- _]|].
  destruct (match valueOf _ with Ret _ => _ | Throw _ => _ end) as [sv|]; mstep.
  - destruct (compliePDFSigValResultsFromSvtValidation _ _ _ _ fuel sv sig ctx) as [r|] eqn:Hr; simpl; [|done].
    destruct (each fuel ctx svt docs stamps l s) as [[[rest|e] s1]|] eqn:Hl; [|done|done]. intros [= <- _].
    simpl. f_equal; [by eapply svt_result_signature|by eapply IH].
  - destruct (validate_directly _ _ _ _ _ ctx docs stamps sig s) as [[[[p r]|e] s1]|] eqn:Hr; [|done|done].
    destruct (each fuel ctx svt docs (Some p) l s1) as [[[rest|e] s2]|] eqn:Hl; [|done|done]. intros [= <- _].
    simpl. f_equal; [by eapply direct_result|by eapply IH].
Qed.
Lemma each_verified fuel ctx docs stamps l s rs s' :
  each fuel ctx None docs stamps l s = Some (Ret rs, s') → ∀ r, r ∈ rs → isSuccess r = true →
  ∃ ts s1 s2, verify PC (pdfSignature r) (cms (pdfSignature r)) ts ctx s1 = Some (Ret r, s2).
Proof.
  revert stamps s rs s'. induction l as [|sig l IH]; intros stamps s rs s'; cbn [validate_each]; [by intros [= <- _] r ?%elem_of_nil|].
  replace (match valueOf (parsed sig) with Ret v => getMatchingSvtValidation tokenHash64 v (default [] None) | Throw _ => None end)
    with (@None SignatureSVTValidationResult) by (by destruct (valueOf (parsed sig))). mstep.
  destruct (validate_directly _ _ _ _ _ ctx docs stamps sig s) as [[[[p r]|e] s1]|] eqn:Hr; [|done|done].
  destruct (each fuel ctx None docs (Some p) l s1) as [[[rest|e] s2]|] eqn:Hl; [|done|done].
  intros [= <- _] x [->|Hx]%elem_of_cons Hs; [|by eapply IH]. apply direct_result in Hr as [-> Hr]. by apply Hr.
Qed.
Lemma document_results validator fuel bytes s l s' :
  document validator fuel bytes s = Some (Ret l, s') →
  ∃ ctx svt s1, new_PDFSignatureContext loadPDF hashOrder provider bytes = Some (Ret ctx) ∧
    (validator = None → svt = None) ∧
    each fuel ctx svt (List.filter (is_doc_stamp parsed) (signatures ctx)) None (List.filter (is_signature parsed) (signatures ctx)) s1
      = Some (Ret l, s').
Proof.
  unfold validateDocument. mstep. destruct (new_PDFSignatureContext _ _ _ bytes) as [[ctx|e]|]; simpl; [|done|done].
  destruct validator as [v|].
  - destruct (v _ s) as [[[svt|e] s1]|]; simpl; [|done|done].
    destruct (each _ _ _ _ _ _ s1) as [[[rs|e] s2]|] eqn:He; [|done|done]. intros [= <- <-]. by exists ctx, (Some svt), s1.
  - destruct (each _ _ _ _ _ _ s) as [[[rs|e] s2]|] eqn:He; [|done|done]. intros [= <- <-]. by exists ctx, None, s.
Qed.
(** Validating a document gives one result for each of its signatures, in the order of
    the document: for those of the two signature types and those that cannot be read.  A
    document timestamp has no result, and neither has a signature of another type. *)
Theorem one_result_each validator fuel bytes s l s' :
  document validator fuel bytes s = Some (Ret l, s') →
  ∃ ctx, new_PDFSignatureContext loadPDF hashOrder provider bytes = Some (Ret ctx) ∧
    map pdfSignature l = List.filter (is_signature parsed) (signatures ctx).
Proof.
  intros (ctx & svt & s1 & Hctx & _ & H)%document_results. exists ctx. split; [done|]. by eapply each_results.
Qed.
End Document.
End Results.

(** ** From the conclusion to the evidence *)
Section Evidence.
Context {S : Type} {VE : ValidationEnv S} (getMessage : exn → string) (cr : Crypto) (fuel : nat).
Context (pkixBuild : X509Certificate → list CertStore → list TrustAnchor → outcome PKIXResult).
Context (certStore : option CertStore) (anchors : list X509Certificate)
  (threads : list X509Certificate → MF S (list ValidationStatus)).
Notation library := (libraryValidator cr fuel pkixBuild certStore anchors threads).
End Evidence.

(** ** The order of certificates *)
Section Ordering.
Context (certVerify : X509Certificate → PublicKey → bool).
Implicit Types (c d : X509Certificate) (chain : list X509Certificate).
(** Each certificate of the list is verified by the next. *)
Definition issued (c d : X509Certificate) : Prop := certVerify c (publicKey d) = true.
Fixpoint linked (c : X509Certificate) (l : list X509Certificate) : Prop :=
  match l with [] => True | d :: l' => issued c d ∧ linked d l' end.
Lemma parents_sound fuel c chain l : parents certVerify fuel c chain = Some l → linked c l ∧ ∀ d, d ∈ l → d ∈ chain.
Proof.
  revert c l. induction fuel as [|fuel IH]; intros c l; [done|]. simpl. unfold getParentCert.
  destruct (List.find _ chain) as [p|] eqn:Hf; [|intros [= <-]; split; [done|by intros d ?%elem_of_nil]].
  apply List.find_some in Hf as [Hin%list_elem_of_In Hp]. destruct (certVerify p (publicKey p)).
  - intros [= <-]. split; [done|]. by intros d ->%list_elem_of_singleton.
  - intros (l' & (Hl & Hsub)%IH & ->)%fmap_Some. split; [done|]. intros d [->|Hd]%elem_of_cons; auto.
Qed.
Lemma parents_enough (rank : X509Certificate → nat) c chain fuel :
  (∀ c d, d ∈ chain → issued c d → certVerify d (publicKey d) = false → rank d < rank c) →
  rank c < fuel → is_Some (parents certVerify fuel c chain).
Proof.
  intros Hr. revert c. induction fuel as [|fuel IH]; intros c Hf; [lia|]. simpl. unfold getParentCert.
  destruct (List.find _ chain) as [p|] eqn:Hp; [|by eauto]. apply List.find_some in Hp as [Hin%list_elem_of_In Hp].
  destruct (certVerify p (publicKey p)) eqn:Hs; [by eauto|]. destruct (IH p) as [l ->]; [specialize (Hr c p Hin Hp Hs); lia|].
  simpl. eauto.
Qed.
(** The order of certificates of a token: when certificates that are not self-issued are
    issued by certificates of a lower rank, the loop ends, with the signer and a list of
    certificates of the chain of which each is verified by the next. *)
Theorem certificate_order (rank : X509Certificate → nat) signer chain :
  (∀ c d, d ∈ chain → issued c d → certVerify d (publicKey d) = false → rank d < rank c) → 2 <= length chain →
  ∃ l, getOrderedCertList certVerify (S (rank signer)) (Some (Ret signer)) (Some (map Ret chain))
       = Some (Some (map Some (signer :: l))) ∧ linked signer l ∧ ∀ d, d ∈ l → d ∈ chain.
Proof.
  intros Hr Hlen. destruct (parents_enough rank signer chain (S (rank signer)) Hr) as [l Hl]; [lia|].
  exists l. split; [|by eapply parents_sound]. unfold getOrderedCertList. rewrite length_map.
  destruct (Nat.leb_spec 2 (length chain)); [|lia]. cbn [negb default].
  replace (omap getCertOrNull (map Ret chain)) with chain by (clear; induction chain as [|c chain IH]; simpl; [done|by f_equal]).
  by rewrite Hl.
Qed.
(** Two certificates that verify each other keep the loop going, whatever the fuel. *)
Theorem ordering_unbounded fuel a b :
  issued a b → issued b a → certVerify a (publicKey a) = false → certVerify b (publicKey b) = false →
  getOrderedCertList certVerify fuel (Some (Ret a)) (Some [Ret a; Ret b]) = None.
Proof.
  intros Hab Hba Ha Hb.
  assert (F : parents certVerify fuel a [a; b] = None ∧ parents certVerify fuel b [a; b] = None).
  { induction fuel as [|fuel [IH1 IH2]]; [done|]. simpl. unfold getParentCert. simpl. unfold issued in *.
    rewrite Ha, Hab, Hba. rewrite Hb, Ha. by rewrite IH1, IH2. }
  unfold getOrderedCertList. simpl. by rewrite (proj1 F).
Qed.
End Ordering.

(** ** Examples *)
Section Demo.
Definition doc_parsed (sig : PDSignature) : Parsed :=
  mkParsed (Ret tt) (Throw NullPointerException) (Throw NullPointerException) (Ret "value"%string) (Ret "attributes"%string)
    (Ret "content"%string) (Ret []).
Definition doc_cms (sig : PDSignature) : outcome CMSData := Ret (demo_cms demo_target).
Definition no_stamps (_ : outcome TimeStampData) : MF unit TimeStamp := mret (mkTimeStamp false [] None None).
Definition no_data (_ : list PDSignature) : MF unit (list SignatureSVTData) := mret [].
Notation doc_load := (demo_load (demo_doc 1 2 [obj 1 10; obj 2 20]) (demo_doc 1 2 [obj 1 10; obj 2 20; obj 3 30])
  (demo_doc 1 2 [obj 1 10; obj 2 20; obj 3 30; obj 4 40])) (only parsing).
Notation doc_library := (libraryValidator (VE := demo_with_crl) demo_crypto 1 demo_pkix None [demo_ca] no_threads) (only parsing).
Notation doc_now := (newDate (ValidationEnv := demo_with_crl)) (only parsing).
(** The document of the revisions, whose signature is by certificate 1. *)
Definition doc_answer : option (outcome (list SigResult) * unit) :=
  validateDocument demo_message doc_parsed doc_cms (λ _ v, Ret v) (λ _, Ret ""%string) (certVerify demo_crypto) doc_load no_order
    (DefaultGeneralSafeObjects no_order)
    (verifySignature (Policy := PkixPolicy doc_now demo_message true 0) doc_library demo_message demo_uri
       (λ _, true) demo_digest "sha1" "sha256" "policy" [] demo_name) no_stamps None no_data 1 demo_bytes tt.
Definition doc_results : list SigResult := match doc_answer with Some (Ret l, _) => l | _ => [] end.
Lemma demo_pkix_documented : pkix_documented demo_pkix.
Proof.
  intros target stores [|ta tas] res; [done|]. intros [= <-]. split; [|by left]. exists target. split; [done|].
  apply cert_eqb_refl.
Qed.
Lemma one_result_each_witness :
  ∃ ctx, new_PDFSignatureContext doc_load no_order (DefaultGeneralSafeObjects no_order) demo_bytes = Some (Ret ctx) ∧
    map pdfSignature doc_results = List.filter (is_signature doc_parsed) (signatures ctx).
Proof.
  apply (one_result_each doc_library demo_message demo_uri (λ _, true) demo_digest "sha1" "sha256" "policy" [] demo_name
    (PC := PkixPolicy doc_now demo_message true 0) doc_parsed doc_cms (λ _ v, Ret v) (λ _, Ret ""%string) (certVerify demo_crypto)
    doc_load no_order (DefaultGeneralSafeObjects no_order) no_stamps no_data None 1 demo_bytes tt doc_results tt).
  vm_compute. reflexivity.
Defined.
(** Certificate 1 is issued by the trust anchor 9. *)
Lemma certificate_order_witness :
  ∃ l, getOrderedCertList (certVerify demo_crypto) 3 (Some (Ret demo_target)) (Some (map Ret [demo_target; demo_ca]))
       = Some (Some (map Some (demo_target :: l))) ∧
    linked (certVerify demo_crypto) demo_target l ∧ ∀ d, d ∈ l → d ∈ [demo_target; demo_ca].
Proof.
  apply (certificate_order (certVerify demo_crypto) (λ c, if cert_eqb c demo_ca then 1 else 2) demo_target [demo_target; demo_ca]).
  - intros c d [->|[->|[]%not_elem_of_nil]%elem_of_cons]%elem_of_cons H1 H2; vm_compute in H2; try discriminate.
  - simpl. lia.
Defined.
End Demo.
