(* ===== verification/SigVerify.v ===== *)
(** * Signatures of XML and JSON documents: what the two formats share

    Model of [ExtendedSigValResult.java] and of the steps that
    [XMLSignatureElementValidatorImpl.java] and [JOSESignatureDataValidatorImpl.java] write in
    the same way, with the policies of sigval-xml and sigval-jose: the certificate of the
    signer, the timestamps, the policy, the result of a token and the conclusion of a
    document.  What belongs to one format is the parameter [A]. *)
From Stdlib Require Import ZArith Lia Ascii String.
From stdpp Require Import base gmap strings list.
From S2P Require Import Prelude CertModel Algorithms.
From S2P Require Import Validity PathValidator PdfContext Timestamps PdfVerify PdfSvt PdfDocument.

(** ** Results *)
Record SigValResult (A : Type) := mkSvr {
  signature : option A;
  signatureAlgorithm : option string;
  signerCertificate : option X509Certificate;
  signatureCertificateChain : option (list X509Certificate);
  status : option Status;
  statusMessage : string;
  exception : option string;
  coversDocument : bool;
  signedDocument : option string;
  etsiAdes : bool;
  invalidSignCert : bool;
  claimedSigningTime : option Z;
  timeValidationResults : list TimeValidationResult;
  certificateValidationResult : option PathValidationResult;
  validationPolicyResultList : list PolicyValidationClaims
}.
Arguments mkSvr {A} _ _ _ _ _ _ _ _ _ _ _ _ _ _ _.
Arguments signature {A} _.
Arguments signatureAlgorithm {A} _.
Arguments signerCertificate {A} _.
Arguments signatureCertificateChain {A} _.
Arguments status {A} _.
Arguments statusMessage {A} _.
Arguments exception {A} _.
Arguments coversDocument {A} _.
Arguments signedDocument {A} _.
Arguments etsiAdes {A} _.
Arguments invalidSignCert {A} _.
Arguments claimedSigningTime {A} _.
Arguments timeValidationResults {A} _.
Arguments certificateValidationResult {A} _.
Arguments validationPolicyResultList {A} _.

Section Result.
Context {A : Type}.
Implicit Types (r : SigValResult A).
Definition new_svr (a : option A) : SigValResult A :=
  mkSvr a None None None None "" None false None false false None [] None [].
Definition isSuccess r : bool := bool_decide (status r = Some SUCCESS).
Definition with_signer (algorithm : option string) (cert : option X509Certificate) (chain : option (list X509Certificate)) r :=
  mkSvr (signature r) algorithm cert chain (status r) (statusMessage r) (exception r) (coversDocument r) (signedDocument r)
    (etsiAdes r) (invalidSignCert r) (claimedSigningTime r) (timeValidationResults r) (certificateValidationResult r)
    (validationPolicyResultList r).
Definition with_status (st : Status) (m : string) r :=
  mkSvr (signature r) (signatureAlgorithm r) (signerCertificate r) (signatureCertificateChain r) (Some st) m (exception r)
    (coversDocument r) (signedDocument r) (etsiAdes r) (invalidSignCert r) (claimedSigningTime r) (timeValidationResults r)
    (certificateValidationResult r) (validationPolicyResultList r).
(** [setError] *)
Definition setError (st : Status) (m : string) (e : option string) r :=
  mkSvr (signature r) (signatureAlgorithm r) (signerCertificate r) (signatureCertificateChain r) (Some st) m e
    (coversDocument r) (signedDocument r) (etsiAdes r) (invalidSignCert r) (claimedSigningTime r) (timeValidationResults r)
    (certificateValidationResult r) (validationPolicyResultList r).
Definition with_document (covers : bool) (doc : option string) (ades bad : bool) (claimed : option Z) r :=
  mkSvr (signature r) (signatureAlgorithm r) (signerCertificate r) (signatureCertificateChain r) (status r) (statusMessage r)
    (exception r) covers doc ades bad claimed (timeValidationResults r) (certificateValidationResult r)
    (validationPolicyResultList r).
Definition with_times (l : list TimeValidationResult) r :=
  mkSvr (signature r) (signatureAlgorithm r) (signerCertificate r) (signatureCertificateChain r) (status r) (statusMessage r)
    (exception r) (coversDocument r) (signedDocument r) (etsiAdes r) (invalidSignCert r) (claimedSigningTime r) l
    (certificateValidationResult r) (validationPolicyResultList r).
Definition with_path (p : PathValidationResult) r :=
  mkSvr (signature r) (signatureAlgorithm r) (signerCertificate r) (signatureCertificateChain r) (status r) (statusMessage r)
    (exception r) (coversDocument r) (signedDocument r) (etsiAdes r) (invalidSignCert r) (claimedSigningTime r)
    (timeValidationResults r) (Some p) (validationPolicyResultList r).
Definition with_claims (l : list PolicyValidationClaims) r :=
  mkSvr (signature r) (signatureAlgorithm r) (signerCertificate r) (signatureCertificateChain r) (status r) (statusMessage r)
    (exception r) (coversDocument r) (signedDocument r) (etsiAdes r) (invalidSignCert r) (claimedSigningTime r)
    (timeValidationResults r) (certificateValidationResult r) l.
End Result.

(** ** Policies *)
(** What a subclass of the abstract policy of a format adds. *)
Class FormatPolicy (A S : Type) := {
  formatPolicyName : string;
  additionalChecks : SigValResult A → MF S PolicyValidationResult
}.
Section Policy.
Context {A S : Type} {FP : FormatPolicy A S}.
(** [validatePolicy]: a result that is not an error needs a path. *)
Definition has_path (p : option PathValidationResult) : bool :=
  match (p ← p; validatedCertificatePath p) with None | Some [] => false | Some _ => true end.
Definition format_validatePolicy (r : SigValResult A) : MF S PolicyValidationResult :=
  let answer (c : ValidationConclusion) (m : string) (st : Status) := mkPolicyResult (mkClaims formatPolicyName c m) st in
  match status r with
  | None => mf_raise NullPointerException
  | Some ERROR_NOT_TRUSTED => mret (answer INDETERMINATE "No certificate path found to a trusted root" ERROR_NOT_TRUSTED)
  | Some ((ERROR_INVALID_SIGNATURE | ERROR_SIGNER_INVALID | ERROR_SIGNER_NOT_ACCEPTED | ERROR_BAD_FORMAT) as st) =>
      mret (answer FAILED (statusMessage r) st)
  | Some (SUCCESS | INTERDETERMINE) =>
      if has_path (certificateValidationResult r) then additionalChecks r
      else mret (answer INDETERMINATE "No certificate path found to a trusted root" ERROR_NOT_TRUSTED)
  end.
(** The policy has the last word. *)
Definition conclude_signature (r : SigValResult A) : MF S (SigValResult A) :=
  p ← format_validatePolicy r;
  mret (with_claims [claims p]
    (if bool_decide (res (claims p) = PASSED) then r
     else setError (policyStatus p) (msg (claims p)) (Some (msg (claims p))) r)).
End Policy.
(** [BasicXmlSignaturePolicyValidator], [BasicJOSESignaturePolicyValidator]; the status of a
    result that is not a success is passed on. *)
Definition BasicFormatPolicy (A S : Type) : FormatPolicy A S := {|
  formatPolicyName := SIG_VALIDATION_POLICY_BASIC_VALIDATION;
  additionalChecks := λ r,
    match status r with
    | None => mf_raise NullPointerException
    | Some st =>
        mret (if isSuccess r then mkPolicyResult (mkClaims SIG_VALIDATION_POLICY_BASIC_VALIDATION PASSED "OK") SUCCESS
              else mkPolicyResult (mkClaims SIG_VALIDATION_POLICY_BASIC_VALIDATION FAILED (statusMessage r)) st)
    end
|}.
(** [PkixXmlSignaturePolicyValidator], [PkixJOSESignaturePolicyValidator] *)
Definition PkixFormatPolicy {A S : Type} (newDate : M S Z) (getMessage : exn → string)
    (enforceCurrentTimeValidation : bool) (revocationGracePeriod : Z) : FormatPolicy A S := {|
  formatPolicyName := pkix_policy enforceCurrentTimeValidation;
  additionalChecks := λ r,
    pkix_caught enforceCurrentTimeValidation getMessage
      (pkix_judge newDate enforceCurrentTimeValidation revocationGracePeriod
         (exception r) (certificateValidationResult r) (timeValidationResults r))
|}.

(** ** The steps of [validateSignature] *)
Section Steps.
Context {A S : Type} (getMessage : exn → string).
Implicit Types (r : SigValResult A).
(** What the outer catch makes of an exception. *)
Definition parse_failed (e : exn) r : SigValResult A :=
  setError ERROR_INVALID_SIGNATURE "Failed to parse signature data" (Some (getMessage e)) r.
(** The path of the signer, when there is a validator and the signature verified: a failure
    with a path sets no error. *)
Section Signer.
Context (certificateValidator : option (X509Certificate → option (list X509Certificate) → MF S ValidateOutcome)).
Definition judge_signer (o : outcome ValidateOutcome) r : SigValResult A :=
  match o with
  | Ret (VResult p) => with_path p r
  | Ret (VExtended cause p) =>
      let r := with_path p r in
      if has_path (Some p) then r else setError ERROR_NOT_TRUSTED (getMessage cause) (Some (getMessage cause)) r
  | Ret (VPathBuilder m) =>
      setError ERROR_NOT_TRUSTED ("Failed to build a path to a trusted root for signer certificate - " ++ m) (Some m) r
  | Throw e =>
      setError ERROR_SIGNER_INVALID ("Certificate path validation failure for signer certificate - " ++ getMessage e)
        (Some (getMessage e)) r
  end.
Definition check_signer r : MF S (SigValResult A) :=
  match certificateValidator with
  | Some validate_cert =>
      if isSuccess r then
        o ← mf_attempt (cert ← run (deref (signerCertificate r)); validate_cert cert (signatureCertificateChain r));
        mret (judge_signer o r)
      else mret r
  | None => mret r
  end.
End Signer.
(** The timestamps whose TSTInfo could be read, and the times they verify. *)
Section Stamps.
Context (tsValidator : X509Certificate → option (list X509Certificate) → MF S ValidateOutcome).
Context (tsPolicy : string) (hashBlackList : list string) (subjectName : X509Certificate → string).
Fixpoint signature_stamps (l : list (outcome TimeStampData)) : MF S (list TimeStamp) :=
  match l with
  | [] => mret []
  | d :: l' =>
      o ← mf_attempt (new_TimeStamp tsValidator tsPolicy hashBlackList d);
      rest ← signature_stamps l';
      mret match o with
           | Ret ts => match tstInfo ts with Some _ => ts :: rest | None => rest end
           | Throw _ => rest
           end
  end.
Definition stamp_times (l : list (outcome TimeStampData)) : MF S (list TimeValidationResult) :=
  stamps ← signature_stamps l;
  mret (omap (verified_time subjectName TIME_VERIFICATION_TYPE_SIG_TIMESTAMP) stamps).
End Stamps.
(** The end: times and policy; a policy that throws leaves the times. *)
Definition finish_signature {FP : FormatPolicy A S} (times : list TimeValidationResult) r : MF S (SigValResult A) :=
  o ← mf_attempt (conclude_signature (with_times times r));
  mret match o with Ret r' => r' | Throw e => parse_failed e (with_times times r) end.

(** ** The result of a token

    An exception leaves what was set before it. *)
Definition svt_unreadable r : SigValResult A :=
  with_status ERROR_INVALID_SIGNATURE "Unable to process SVA token or signature data" r.
Definition svt_decision (sv : SignatureSVTValidationResult) r : SigValResult A :=
  if isSvtValidationSuccess sv
  then with_status (getStatusFromPolicyValidationClaims (sig_val (resultClaims sv))) (statusMessage r) r
  else with_status ERROR_INVALID_SIGNATURE "Unable to verify SVT signature" r.
(** From the algorithm of the token to its time; [cert] and [chain] come with the
    signature. *)
Definition svt_compile (certVerify : X509Certificate → PublicKey → bool) (getUri : option JWSAlgorithm → outcome string)
    (fuel : nat) (sv : SignatureSVTValidationResult) (cert : option X509Certificate) (chain : option (list X509Certificate)) r
    : option (SigValResult A) :=
  match getUri (Some (jwtAlgorithm (resultJWT sv))) with
  | Throw _ => Some (svt_unreadable r)
  | Ret uri =>
      let r := with_signer (Some uri) None None r in
      match resultSigner sv with
      | Throw _ => Some (svt_unreadable r)
      | Ret _ =>
          path ← (getOrderedCertList certVerify fuel (Some (resultSigner sv)) (resultChain sv)
                  : option (option (list (option X509Certificate))));
          let cvr := mkPVR None None (match path with Some l => Some (omap id l) | None => None end) None in
          let r := svt_decision sv (with_path cvr (with_signer (Some uri) cert chain r)) in
          let r := with_claims (default [] (sig_val (resultClaims sv))) r in
          Some match svt_times sv with
               | Ret times => with_times times r
               | Throw _ => svt_unreadable r
               end
      end
  end.
(** The ordering of certificates may run out of fuel. *)
Definition fueled {B} (o : option B) : MF S B := λ s, match o with Some b => Some (Ret b, s) | None => None end.
(** The first result that is valid is used. *)
Definition valid_token (l : option (list SignatureSVTValidationResult)) : option SignatureSVTValidationResult :=
  l ← l; findFirst isSvtValidationSuccess l.
End Steps.

(** ** [getConcludingSigVerifyResult] *)
Record FormatDocumentResult (A : Type) := mkFormatResult {
  isSigned : bool;
  completeSuccess : bool;
  validSignatureSignsWholeDocument : bool;
  signatureCount : nat;
  validSignatureCount : nat;
  docStatusMessage : string;
  signatureValidationResults : list (SigValResult A)
}.
Arguments mkFormatResult {A} _ _ _ _ _ _ _.
Arguments isSigned {A} _.
Arguments completeSuccess {A} _.
Arguments validSignatureSignsWholeDocument {A} _.
Arguments signatureCount {A} _.
Arguments validSignatureCount {A} _.
Arguments docStatusMessage {A} _.
Arguments signatureValidationResults {A} _.
Definition format_conclusion {A} (l : list (SigValResult A)) : FormatDocumentResult A :=
  let valid := List.filter isSuccess l in
  match l, valid with
  | [], _ => mkFormatResult false false false 0 0 "No signatures" l
  | _, [] => mkFormatResult true false false (length l) 0 "No valid signatures" l
  | _, _ =>
      let all := length l =? length valid in
      mkFormatResult true all (existsb coversDocument valid) (length l) (length valid)
        (if all then "OK" else "Some signatures are valid and some are invalid") l
  end.
