(* ===== verification/SvtTokens.v ===== *)
(** * Signature validation tokens of XML and JSON signatures

    Model of [XMLSVTValidator.java] and [JOSESVTValidator.java], which agree but for where a
    token is found and what of the signature is compared with it, and of
    [getMostRecentJwt] of [SVAUtils.java]. *)
From Stdlib Require Import ZArith Lia Ascii String.
From stdpp Require Import base gmap strings list.
From S2P Require Import Prelude CertModel Algorithms.
From S2P Require Import Validity PathValidator PdfContext Timestamps PdfVerify PdfSvt PdfDocument.

(** ** The most recent token *)
(** [getSVTIssueDate]: the claims may fail to parse, which gives the epoch; a set without the
    claim gives null. *)
Definition getSVTIssueDate (jwt : SignedJWT) : option Z :=
  match jwtClaimsSet jwt with Ret set => issueTime set | Throw _ => Some 0%Z end.
(** [compareSVTIssueDate], for dates that are there. *)
Definition compareSVTIssueDate (o1 o2 : SignedJWT) : Z :=
  match getSVTIssueDate o1, getSVTIssueDate o2 with
  | Some d1, Some d2 => if Z.ltb d2 d1 then (-1)%Z else 1%Z
  | _, _ => 0%Z
  end.
(** [getMostRecentJwt]: with two tokens or more every one is compared with another, which
    throws when its date is null. *)
Definition getMostRecentJwt (l : list SignedJWT) : outcome (option SignedJWT) :=
  if (2 <=? length l) && existsb (λ jwt, match getSVTIssueDate jwt with None => true | Some _ => false end) l
  then Throw NullPointerException
  else Ret (head (small_sort compareSVTIssueDate l)).

Section Tokens.
Context {S : Type} (newDate : M S Z).
Context (svaCertVerifier : X509Certificate → option (list X509Certificate) → MF S ValidateOutcome).
Context (supportingCertificates : list X509Certificate).
(** Nimbus and the registries, as in [PdfSvt]; the digest of a certificate for the algorithm
    of a token in Base64. *)
Context (newVerifier : PublicKey → outcome unit) (jwtVerify : SignedJWT → PublicKey → outcome bool).
Context (getAlgoParams : JWSAlgorithm → outcome (option string)) (digests : option string → outcome DigestAlgorithm).
Context (certKeyId : JWSAlgorithm → X509Certificate → outcome string).
Context (hash64 : DigestAlgorithm → string → outcome string).

(** ** The certificate of a token *)
Definition certMatchKeyId (cert : X509Certificate) (key : string) (algorithm : JWSAlgorithm) : bool :=
  match certKeyId algorithm cert with Ret h => String.eqb key h | Throw _ => false end.
Definition getJWTCerts (chain : option (list (outcome X509Certificate))) : list X509Certificate :=
  match chain with None => [] | Some l => omap getCertOrNull l end.
(** [getAllJwtCerts]: the signing certificate and all certificates. *)
Definition getAllJwtCerts (algorithm : JWSAlgorithm) (key : option string) (jwtCertList : list X509Certificate) :
    option (X509Certificate * list X509Certificate) :=
  let found :=
    match key with
    | None | Some ""%string => head jwtCertList
    | Some k =>
        match findFirst (λ cert, certMatchKeyId cert k algorithm) supportingCertificates with
        | Some cert => Some cert
        | None => findFirst (λ cert, certMatchKeyId cert k algorithm) jwtCertList
        end
    end in
  signerCert ← found; Some (signerCert, supportingCertificates ++ jwtCertList).
(** [verifyJWT]: only an exception tells that a token is not good. *)
Definition verifyJWT (jwt : SignedJWT) : MF S unit :=
  match getAllJwtCerts (jwtAlgorithm jwt) (keyID jwt) (getJWTCerts (x509CertChain jwt)) with
  | None => mf_raise (IOException "Unable to locate a SVT signing certificate")
  | Some (signingCert, supportingCertList) =>
      o ← svaCertVerifier signingCert (Some supportingCertList);
      match o with
      | VResult _ => run (SVAUtils_verifySVA newDate newVerifier jwtVerify getAlgoParams digests jwt (publicKey signingCert))
      | VPathBuilder m => mf_raise (CertPathBuilderException m)
      | VExtended cause _ => mf_raise cause
      end
  end.
(** The tokens that parse and verify. *)
Fixpoint verified_tokens (l : list (outcome SignedJWT)) : MF S (list SignedJWT) :=
  match l with
  | [] => mret []
  | t :: l' =>
      o ← mf_attempt (jwt ← run (lift t); _ ← verifyJWT jwt; mret jwt);
      rest ← verified_tokens l';
      mret match o with Ret jwt => jwt :: rest | Throw _ => rest end
  end.

(** ** What is compared with the token *)
(** [collectSignatureSVTData]; without a token the first access throws. *)
Definition collectSignatureSVTData (mostRecentJwt : option SignedJWT) (id : option string) (signatureBytes signedBytes : outcome string)
    (refs : DigestAlgorithm → outcome (list SignedDataClaims)) (chain : option (list X509Certificate)) : outcome SignatureSVTData :=
  match mostRecentJwt with
  | None => Throw NullPointerException
  | Some jwt =>
      set ← jwtClaimsSet jwt;
      claims ← getSVTClaims set;
      md ← digests (hash_algo claims);
      tbs ← signedBytes;
      sigBytes ← signatureBytes;
      signatureHash ← hash64 md sigBytes;
      signedInfoHash ← hash64 md tbs;
      match findFirst (λ c, String.eqb (sig_hash (sig_ref c)) signatureHash) (svtSig claims) with
      | None => Throw (RuntimeException "The validated SVT claims does not match the present signature")
      | Some sigClaims =>
          dataRefs ← refs md;
          match chain with
          | None => Throw NullPointerException
          | Some certs => Ret (mkSvtData jwt (mkSigRef id signatureHash signedInfoHash) dataRefs certs sigClaims)
          end
      end
  end.
(** [getSignatureSVTData] *)
Definition format_SignatureSVTData (tokens : list (outcome SignedJWT)) (id : option string) (signatureBytes signedBytes : outcome string)
    (refs : DigestAlgorithm → outcome (list SignedDataClaims)) (chain : option (list X509Certificate)) : MF S (list SignatureSVTData) :=
  signedJWTList ← verified_tokens tokens;
  mostRecentJwt ← run (lift (getMostRecentJwt signedJWTList));
  d ← run (lift (collectSignatureSVTData mostRecentJwt id signatureBytes signedBytes refs chain));
  mret [d].
End Tokens.
