(* ===== verification/XmlContext.v ===== *)
(** * What an XML signature refers to

    Model of [DefaultXMLSignatureContext.java], [SignatureData.java], [XMLSigUtils.java] and
    [XAdESObjectParser.java].  The DOM is the list of the elements of a document with their
    attributes; which attributes count as identifiers is a state of the document that
    [registerId] changes.  Santuario, JAXB and the transformers answer through the records
    of a signature element and the parameters of the section. *)
From Stdlib Require Import ZArith Lia Ascii String.
From stdpp Require Import base gmap strings list.
From S2P Require Import Prelude CertModel Algorithms.

Definition XMLDSIG_V2_TRANSFORM : string := "http://www.w3.org/2010/xmldsig2#transform".
Definition XADES_NAMESPACE : string := "http://uri.etsi.org/01903/v1.3.2#".

(** ** Documents *)
(** An element is known by its number. *)
Record Element := mkElement { elementId : nat; attributes : list (string * string) }.
(** [Element.getAttribute]: empty when there is none. *)
Fixpoint attribute_of (l : list (string * string)) (name : string) : string :=
  match l with
  | [] => ""
  | (n, v) :: l' => if String.eqb n name then v else attribute_of l' name
  end.
Definition getAttribute (e : Element) (name : string) : string := attribute_of (attributes e) name.
(** The document element with its name, and the elements below it in document order. *)
Record Document := mkDocument {
  documentElement : Element;
  namespaceURI : option string;
  localName : option string;
  descendants : list Element;
  canonicalBytes : outcome string
}.
(** The attributes that are identifiers. *)
Abbreviation Ids := (gset (nat * string)) (only parsing).
(** A state that holds the identifiers of the document. *)
Class IdStore (S : Type) := { get_ids : S → Ids; put_ids : Ids → S → S }.

(** ** Signature elements *)
Record Reference := mkReference { transforms : list string; refURI : string }.
(** The certificates of the X509Data elements; one may fail to decode. *)
Record KeyInfo := mkKeyInfo {
  kiPublicKey : outcome (option PublicKey);
  kiCertificate : outcome (option X509Certificate);
  x509Data : list (list (outcome X509Certificate))
}.
Record DigestAlgAndValue := mkDigestAlgAndValue { digestMethod : option (option string); digestValue : string }.
Record SignedSignatureProperties := mkSignedProps {
  signingTime : option Z;
  signingCertificateV2 : option (list (option DigestAlgAndValue));
  signingCertificateV1 : option (list (option DigestAlgAndValue))
}.
(** Encapsulated timestamps have their bytes, other entries none. *)
Record XAdESTimeStamp := mkXadesStamp { canonicalizationMethod : option string; encapsulated : list (option string) }.
Inductive UnsignedProperty :=
  | OtherProperty
  | JAXBElement (ns local : string) (isTimeStamp : bool) (value : XAdESTimeStamp).
(** The signed properties with their Id, and the unsigned ones, which may be absent. *)
Record QualifyingProperties := mkQP {
  signedPropertiesId : option (option string);
  signedSignatureProperties : option SignedSignatureProperties;
  unsignedProperties : option (list UnsignedProperty)
}.
Record SignatureElement := mkSigElement {
  xmlReferences : list Reference;
  xmlSignatureId : option string;
  xmlKeyInfo : option KeyInfo;
  signatureMethodURI : string;
  signatureValue : outcome string;
  canonicalSignedInfo : outcome string;
  qualifyingNodes : list (outcome QualifyingProperties);
  tokenTexts : list string;
  canonicalSignatureValue : string → outcome string       (* by canonicalization method *)
}.
Record SignatureData := mkSignatureData {
  dataSignature : SignatureElement;
  refDataMap : gmap string (option string);
  coversWholeDoc : bool;
  signatureSignedDocument : option string;
  signatureBytes : string;
  signedInfoBytes : string;
  dataSigner : option X509Certificate;
  dataChain : option (list X509Certificate)
}.

(** ** [DefaultXMLSignatureContext] *)
Definition idNames : list string := ["iD"; "id"; "Id"; "ID"].
Definition isNotEmpty (s : string) : bool := negb (String.eqb s "").
(** [String.trim] leaves something. *)
Definition hasText (s : string) : bool := existsb (λ c, 32 <? nat_of_ascii c) (list_ascii_of_string s).
(** The last of the names that has a value. *)
Definition getIdAttrVal (e : Element) : option string :=
  fold_left (λ candidate name, let v := getAttribute e name in if isNotEmpty v then Some v else candidate) idNames None.
(** A string with a null reference appended. *)
Definition text_of (s : option string) : string := default "null" s.

Record XMLSignatureContext := mkXmlContext {
  document : Document;
  documentBytes : string;
  rootNamespaceURI : option string;
  rootElementName : option string;
  rootIdAttrVal : option string
}.
Definition new_XMLSignatureContext (doc : Document) : outcome XMLSignatureContext :=
  match canonicalBytes doc with
  | Throw _ => Throw (IOException "")
  | Ret bytes => Ret (mkXmlContext doc bytes (namespaceURI doc) (localName doc) (getIdAttrVal (documentElement doc)))
  end.

Section Context.
Context {S : Type} `{IdStore S}.
(** The parser of fragments, the order of the keys of a HashMap, and the content of a
    reference after its transforms, which may depend on the identifiers. *)
Context (getDocument : string → outcome Document) (hashOrder : ∀ A, list (string * A) → list (string * A)).
Context (getReferencedContent : SignatureElement → nat → M S string).
Context (ctx : XMLSignatureContext).

Definition isCoversWholeDocument (refs : gmap string (option string)) : bool :=
  match refs !! "" with
  | Some _ => true
  | None => match refs !! ("#" ++ text_of (rootIdAttrVal ctx))%string with Some _ => true | None => false end
  end.
Definition isFragmentMatchingRootElement (fragment : Document) (refs : gmap string (option string)) : bool :=
  let nsMatch := bool_decide (rootNamespaceURI ctx = namespaceURI fragment) in
  let elmNameMatch := match rootElementName ctx with
                      | None => false
                      | Some n => bool_decide (localName fragment = Some n)
                      end in
  let key := match rootIdAttrVal ctx with
             | None | Some "" => ""
             | Some id => "#" ++ id
             end%string in
  nsMatch && elmNameMatch && match refs !! key with Some _ => true | None => false end.
(** The first fragment that stands for the document, in canonical form. *)
Definition parsed_fragment (bytes : option string) : option Document :=
  match bytes with
  | None => None
  | Some b => match getDocument b with Ret d => Some d | Throw _ => None end
  end.
Definition getSignedDocument (refs : gmap string (option string)) : option string :=
  let fragments := omap (λ kv, parsed_fragment (snd kv)) (hashOrder _ (map_to_list refs)) in
  match findFirst (λ d, isFragmentMatchingRootElement d refs) fragments with
  | Some d => match canonicalBytes d with Ret b => Some b | Throw _ => None end
  | None => None
  end.
(** [registerId]: the attributes of the one element that has the identifier. *)
Definition registerIdInElement (e : Element) (referenceUri : string) (ids : Ids) : Ids :=
  fold_left (λ ids name,
    let v := getAttribute e name in
    if isNotEmpty v && String.eqb ("#" ++ v) referenceUri then {[(elementId e, name)]} ∪ ids else ids) idNames ids.
Definition candidates : list Element := documentElement (document ctx) :: descendants (document ctx).
Definition has_id (referenceUri : string) (e : Element) : bool :=
  match getIdAttrVal e with
  | Some v => isNotEmpty v && String.eqb referenceUri ("#" ++ v)
  | None => false
  end.
Definition registerId (referenceUri : string) : M S unit :=
  match List.filter (has_id referenceUri) candidates with
  | [e] => modify (λ s, put_ids (registerIdInElement e referenceUri (get_ids s)) s)
  | _ => mret tt
  end.
(** The algorithm of the first transform, or null. *)
Definition getTransformAlgorithm (r : Reference) : option string :=
  match transforms r with
  | a :: _ => if isNotEmpty a then Some a else None
  | [] => None
  end.
(** The loop over the references; content that cannot be had is null. *)
Fixpoint reference_loop (sig : SignatureElement) (i : nat) (l : list Reference) (refs : gmap string (option string)) :
    M S (gmap string (option string)) :=
  match l with
  | [] => mret refs
  | r :: l' =>
      let v2 := match getTransformAlgorithm r with Some a => equalsIgnoreCase XMLDSIG_V2_TRANSFORM a | None => false end in
      if v2 then raise (IOException "XMLDsig version 2.0 signatures not supported") else
      _ ← when (hasText (refURI r)) (registerId (refURI r));
      o ← attempt (getReferencedContent sig i);
      reference_loop sig (i + 1) l' (<[refURI r := match o with Ret b => Some b | Throw _ => None end]> refs)
  end.
(** [getAllSignatureCertificates]: a certificate that does not decode ends its X509Data. *)
Fixpoint decoded_certificates (l : list (outcome X509Certificate)) : list X509Certificate :=
  match l with
  | Ret c :: l' => c :: decoded_certificates l'
  | _ => []
  end.
Definition getAllSignatureCertificates (k : KeyInfo) : list X509Certificate :=
  List.concat (map decoded_certificates (x509Data k)).
(** [getSignatureData]; a signature element that does not parse is an exception. *)
Definition signature_data (sig : SignatureElement) : M S SignatureData :=
  refs ← reference_loop sig 0 (xmlReferences sig) ∅;
  value ← lift (signatureValue sig);
  info ← lift (canonicalSignedInfo sig);
  let data := mkSignatureData sig refs (isCoversWholeDocument refs) (getSignedDocument refs) value info in
  match xmlKeyInfo sig with
  | None => mret (data None None)
  | Some k => cert ← lift (kiCertificate k); mret (data cert (Some (getAllSignatureCertificates k)))
  end.
Definition getSignatureData (node : outcome SignatureElement) : M S SignatureData :=
  try_catch (sig ← lift node; signature_data sig) (λ _, raise (IOException "Error parsing ref URI from signature")).
End Context.

(** ** [XAdESObjectParser] *)
Record XAdESObjectParser := mkXades {
  qualifyingProperties : option QualifyingProperties;
  claimedTime : option Z;
  certHashList : option (list (option DigestAlgAndValue));
  signatureTimeStampDataList : option (list (string * string))   (* canonicalization method, bytes *)
}.
(** The first properties whose signed part is referenced. *)
Fixpoint qualifying (nodes : list (outcome QualifyingProperties)) (refs : gmap string (option string)) :
    outcome (option QualifyingProperties) :=
  match nodes with
  | [] => Ret None
  | Throw e :: _ => Throw e
  | Ret qp :: l =>
      match signedPropertiesId qp with
      | Some id => match refs !! ("#" ++ text_of id)%string with Some _ => Ret (Some qp) | None => qualifying l refs end
      | None => qualifying l refs
      end
  end.
Definition isSignatureTimestamp (p : UnsignedProperty) : option XAdESTimeStamp :=
  match p with
  | JAXBElement ns local isTimeStamp value =>
      if String.eqb ns XADES_NAMESPACE && String.eqb local "SignatureTimeStamp" && isTimeStamp then Some value else None
  | OtherProperty => None
  end.
(** The first encapsulated timestamp of each; one without a method ends the loop. *)
Fixpoint stamp_data (l : list XAdESTimeStamp) : list (string * string) :=
  match l with
  | [] => []
  | ts :: l' =>
      match omap id (encapsulated ts) with
      | [] => stamp_data l'
      | bytes :: _ =>
          match canonicalizationMethod ts with
          | None => []
          | Some method => (method, bytes) :: stamp_data l'
          end
      end
  end.
Definition parseQualifyingProperties (qp : QualifyingProperties) : XAdESObjectParser :=
  let hashes :=
    props ← signedSignatureProperties qp;
    match signingCertificateV2 props with Some l => Some l | None => signingCertificateV1 props end in
  mkXades (Some qp) (props ← signedSignatureProperties qp; signingTime props) hashes
    (Some (stamp_data (omap isSignatureTimestamp (default [] (unsignedProperties qp))))).
Definition new_XAdESObjectParser (sig : SignatureElement) (refs : gmap string (option string)) : outcome XAdESObjectParser :=
  q ← qualifying (qualifyingNodes sig) refs;
  Ret match q with
      | None => mkXades None None None None
      | Some qp => parseQualifyingProperties qp
      end.
(** [isXadesVerified]: one of the digests is the certificate's. *)
Section Xades.
Context (digests : option string → outcome DigestAlgorithm) (certDigest : DigestAlgorithm → X509Certificate → string).
Definition digest_matches (signerCert : option X509Certificate) (d : option DigestAlgAndValue) : bool :=
  match (d ← d; m ← digestMethod d; Some (m, digestValue d)), signerCert with
  | Some (m, value), Some cert =>
      match digests m with Ret md => String.eqb (certDigest md cert) value | Throw _ => false end
  | _, _ => false
  end.
Definition isXadesVerified (p : XAdESObjectParser) (signerCert : option X509Certificate) : bool :=
  existsb (digest_matches signerCert) (default [] (certHashList p)).
End Xades.
