(* ===== verification/XmlVerify.v ===== *)
(** * The verification of XML signatures

    Model of [XMLSignatureElementValidatorImpl.java], of [getSignatureSVTData] of
    [XMLSVTValidator.java] and of [XMLSignedDocumentValidator.java].  Santuario verifies a
    signature value with a key, with what is registered as an identifier in the document. *)
From Stdlib Require Import ZArith Lia Ascii String.
From stdpp Require Import base gmap strings list.
From S2P Require Import Prelude CertModel Algorithms.
From S2P Require Import Validity PathValidator PdfContext Timestamps PdfVerify PdfSvt PdfDocument SigVerify SvtTokens XmlContext.

(** [ExtendedXmlSigvalResult] *)
Abbreviation XmlResult := (SigValResult SignatureElement) (only parsing).
(** The exceptions that the inner catch of [validateSignatureElement] expects. *)
Definition is_signature_exception (e : exn) : bool :=
  match e with XMLSignatureException _ | IOException _ => true | _ => false end.

Section Xml.
Context {S : Type} `{IdStore S} (getMessage : exn → string).
Context (checkSignatureValue : SignatureElement → PublicKey → M S bool).
Context (digests : option string → outcome DigestAlgorithm) (certDigest : DigestAlgorithm → X509Certificate → string).
Context (certVerify : X509Certificate → PublicKey → bool) (getUri : option JWSAlgorithm → outcome string).
(** BouncyCastle's view of a timestamp and the data it is over. *)
Context (stampData : string → string → outcome TimeStampData).
Context (certificateValidator : option (X509Certificate → option (list X509Certificate) → MF S ValidateOutcome)).
Context (tsValidator : X509Certificate → option (list X509Certificate) → MF S ValidateOutcome).
Context (tsPolicy : string) (hashBlackList : list string) (subjectName : X509Certificate → string).
Context {FP : FormatPolicy SignatureElement S}.

(** ** The signature value *)
(** [validateSignatureElement]; the key is the certificate's, or else the one of the
    KeyInfo. *)
Definition verify_value (sig : SignatureElement) (key : PublicKey) (r : XmlResult) : M S XmlResult := λ s,
  match checkSignatureValue sig key s with
  | (Ret true, s') =>
      (Ret match signerCertificate r with
           | None => setError ERROR_SIGNER_NOT_ACCEPTED "No signer certificate provided with signature" None r
           | Some _ => with_status SUCCESS (statusMessage r) r
           end, s')
  | (Ret false, s') =>
      (Ret (setError ERROR_INVALID_SIGNATURE
              "Signature is invalid - signature value did not validate correctly or reference digest comparison failed" None r), s')
  | (Throw e, s') =>
      (Ret (if is_signature_exception e
            then setError ERROR_INVALID_SIGNATURE ("Signature is invalid - " ++ getMessage e) (Some (getMessage e)) r
            else setError ERROR_BAD_FORMAT (getMessage e) (Some (getMessage e)) r), s')
  end.
Definition validation_key (sig : SignatureElement) (data : SignatureData) : outcome (option PublicKey) :=
  match dataSigner data with
  | Some cert => Ret (Some (publicKey cert))
  | None => match xmlKeyInfo sig with None => Throw NullPointerException | Some k => kiPublicKey k end
  end.
Definition validateSignatureElement (sig : SignatureElement) (data : SignatureData) : M S XmlResult :=
  let r := new_svr (Some sig) in
  let r := match dataSigner data with
           | Some cert => with_signer None (Some cert) (dataChain data) r
           | None => r
           end in
  match validation_key sig data with
  | Throw e => mret (setError ERROR_BAD_FORMAT (getMessage e) (Some (getMessage e)) r)
  | Ret None => mret (setError ERROR_BAD_FORMAT "No certificate or public key found in signature's KeyInfo" None r)
  | Ret (Some key) =>
      verify_value sig key
        (with_signer (Some (signatureMethodURI sig)) (signerCertificate r) (signatureCertificateChain r) r)
  end.

(** ** XAdES and timestamps *)
(** [getTimestampedBytes]: null when the canonicalization fails, which the timestamp then
    trips over. *)
Definition getTimestampedBytes (sig : SignatureElement) (method : string) : option string :=
  match canonicalSignatureValue sig method with Ret b => Some b | Throw _ => None end.
Definition stamp_over (sig : SignatureElement) (d : string * string) : outcome TimeStampData :=
  match getTimestampedBytes sig (fst d) with
  | Some b => stampData (snd d) b
  | None => Throw NullPointerException
  end.
Definition xades_step (data : SignatureData) (p : XAdESObjectParser) (r : XmlResult) : XmlResult :=
  let ades := match qualifyingProperties p with Some _ => true | None => false end in
  let bad := negb (isXadesVerified digests certDigest p (signerCertificate r)) in
  let r := with_document (coversWholeDoc data) (signatureSignedDocument data) ades bad (claimedTime p) r in
  let m := "Signature is XAdES signature, but signature certificate does not match signed certificate digest" in
  if ades && bad then setError ERROR_SIGNER_INVALID m (Some m) r else r.

(** ** The result of a token *)
(** [compileXMLSigValResultsFromSvtValidation]: the certificate is set after the XAdES data
    has been compared with it. *)
Definition compileXMLSigValResultsFromSvtValidation (fuel : nat) (sv : SignatureSVTValidationResult) (sig : SignatureElement)
    (data : SignatureData) : option XmlResult :=
  let r := new_svr (Some sig) in
  match new_XAdESObjectParser sig (refDataMap data) with
  | Throw _ => Some (svt_unreadable r)
  | Ret p =>
      let ades := match qualifyingProperties p with Some _ => true | None => false end in
      let bad := negb (isXadesVerified digests certDigest p (signerCertificate r)) in
      let r := with_document (coversWholeDoc data) (signatureSignedDocument data) ades bad (claimedTime p) r in
      svt_compile certVerify getUri fuel sv (dataSigner data) (dataChain data) r
  end.

(** ** [validateSignature] *)
Definition validate_directly (sig : SignatureElement) (data : SignatureData) : MF S XmlResult :=
  r ← run (validateSignatureElement sig data);
  r ← check_signer getMessage certificateValidator r;
  match new_XAdESObjectParser sig (refDataMap data) with
  | Throw e => mret (parse_failed getMessage e r)
  | Ret p =>
      times ← stamp_times tsValidator tsPolicy hashBlackList subjectName
                (map (stamp_over sig) (default [] (signatureTimeStampDataList p)));
      finish_signature getMessage times (xades_step data p r)
  end.
(** The token validator that XMLSVTValidator extends is given the data that is to be compared
    with a token. *)
Context (svtValidator : option (MF S (list SignatureSVTData) → MF S (list SignatureSVTValidationResult))).
Context (getSignatureSVTData : SignatureData → MF S (list SignatureSVTData)).
Definition validateSignature (fuel : nat) (sig : SignatureElement) (data : SignatureData) : MF S XmlResult :=
  svt ← mf_attempt match svtValidator with
                   | None => mret None
                   | Some v => l ← v (getSignatureSVTData data); mret (Some l)
                   end;
  match svt with
  | Throw e => mret (parse_failed getMessage e (new_svr None))
  | Ret l =>
      match valid_token l with
      | Some sv => fueled (compileXMLSigValResultsFromSvtValidation fuel sv sig data)
      | None => validate_directly sig data
      end
  end.

(** ** [XMLSignedDocumentValidator] *)
Context (getDocument : string → outcome Document) (hashOrder : ∀ A, list (string * A) → list (string * A)).
Context (getReferencedContent : SignatureElement → nat → M S string).
Fixpoint validate_each (fuel : nat) (ctx : XMLSignatureContext) (l : list (outcome SignatureElement)) : MF S (list XmlResult) :=
  match l with
  | [] => mret []
  | node :: l' =>
      data ← run (getSignatureData getDocument hashOrder getReferencedContent ctx node);
      r ← validateSignature fuel (dataSignature data) data;
      rest ← validate_each fuel ctx l';
      mret (r :: rest)
  end.
(** [validate(document, signatures)] and the wrapping of [validate(document)]. *)
Definition validate_signatures (fuel : nat) (doc : Document) (signatures : list (outcome SignatureElement)) : MF S (list XmlResult) :=
  ctx ← run (lift (new_XMLSignatureContext doc));
  validate_each fuel ctx signatures.
Definition wrapped {A} (m : MF S A) : MF S A :=
  o ← mf_attempt m;
  match o with Ret a => mret a | Throw e => mf_raise (SignatureException (getMessage e)) end.
Definition validate_document (fuel : nat) (doc : Document) (signatures : list (outcome SignatureElement)) : MF S (list XmlResult) :=
  wrapped (validate_signatures fuel doc signatures).
(** With a location, which may be null; the signature it finds may be null. *)
Definition validate_located (fuel : nat) (doc : Document) (signatures : list (outcome SignatureElement))
    (location : option (outcome (option (outcome SignatureElement)))) : MF S (list XmlResult) :=
  match location with
  | None => validate_document fuel doc signatures
  | Some found =>
      wrapped (o ← run (lift found);
               match o with
               | None => mf_raise (SignatureException "Could not find Signature element")
               | Some sig => validate_signatures fuel doc [sig]
               end)
  end.
Definition extendedResultValidation (fuel : nat) (doc : Document) (signatures : list (outcome SignatureElement)) :
    MF S (FormatDocumentResult SignatureElement) :=
  l ← validate_document fuel doc signatures; mret (format_conclusion l).
End Xml.

(** ** [XMLSVTValidator.getSignatureSVTData] *)
Section XmlToken.
Context {S : Type} (newDate : M S Z).
Context (svaCertVerifier : X509Certificate → option (list X509Certificate) → MF S ValidateOutcome).
Context (supportingCertificates : list X509Certificate).
Context (newVerifier : PublicKey → outcome unit) (jwtVerify : SignedJWT → PublicKey → outcome bool).
Context (getAlgoParams : JWSAlgorithm → outcome (option string)) (digests : option string → outcome DigestAlgorithm).
Context (certKeyId : JWSAlgorithm → X509Certificate → outcome string).
Context (hash64 : DigestAlgorithm → string → outcome string) (parseJWT : string → outcome SignedJWT).
Context (hashOrder : ∀ A, list (string * A) → list (string * A)).
(** The digests of the references; one without content cannot be hashed. *)
Fixpoint reference_hashes (md : DigestAlgorithm) (l : list (string * option string)) : outcome (list SignedDataClaims) :=
  match l with
  | [] => Ret []
  | (ref, data) :: l' =>
      b ← match data with Some b => Ret b | None => Throw NullPointerException end;
      h ← hash64 md b;
      rest ← reference_hashes md l';
      Ret (mkDataRef ref h :: rest)
  end.
Definition xml_SignatureSVTData (data : SignatureData) : MF S (list SignatureSVTData) :=
  let sig := dataSignature data in
  format_SignatureSVTData newDate svaCertVerifier supportingCertificates newVerifier jwtVerify getAlgoParams digests certKeyId
    hash64 (map parseJWT (tokenTexts sig)) (xmlSignatureId sig) (Ret (signatureBytes data)) (Ret (signedInfoBytes data))
    (λ md, reference_hashes md (hashOrder _ (map_to_list (refDataMap data)))) (dataChain data).
End XmlToken.
