(* ===== verification/JoseVerify.v ===== *)
(** * The verification of JSON signatures

    Model of [JOSESignedDocumentValidator.java], [JOSESignatureDataValidatorImpl.java] and of
    [getSignatureSVTData] of [JOSESVTValidator.java].  Nimbus parses the two serializations
    of a JWS and verifies a signature with a key. *)
From Stdlib Require Import ZArith Lia Ascii String.
From stdpp Require Import base gmap strings list.
From S2P Require Import Prelude CertModel Algorithms.
From S2P Require Import Validity PathValidator PdfContext Timestamps PdfVerify PdfSvt PdfDocument SigVerify SvtTokens.

(** ** Data *)
(** A JSON value, as far as the unprotected header is looked at. *)
Inductive JsonValue := JString (s : string) | JList (l : list JsonValue) | JOther.
(** The protected header: [sigT] is null when there is no such parameter. *)
Record JWSHeader := mkJWSHeader {
  headerAlgorithm : JWSAlgorithm;
  headerX509CertChain : option (list (outcome X509Certificate));
  sigT : option JsonValue;
  headerBase64 : string
}.
Record UnprotectedHeader := mkUnprotected {
  etsiU : option JsonValue;
  svt : option JsonValue;
  otherParams : list (string * JsonValue)
}.
Record Payload := mkPayload { payloadBytes : string; payloadBase64 : string }.
(** [JOSESignatureData] *)
Record JOSESignatureData := mkJoseData {
  detached : bool;
  isVerified : bool;
  joseException : option exn;
  joseHeader : option JWSHeader;
  joseAlgorithm : option string;
  unprotectedHeader : option UnprotectedHeader;
  payload : option Payload;
  joseSignatureBytes : option string;
  joseSigner : option X509Certificate;
  joseChain : option (list X509Certificate)
}.
(** What [ExtendedJOSESigvalResult] adds to a result. *)
Record JoseFields := mkJoseFields {
  resultSignatureValue : option string;
  resultHeader : option JWSHeader;
  resultUnprotected : option UnprotectedHeader;
  resultPayload : option Payload
}.
(** One signature of a JWS as Nimbus has it, and a JWS in the JSON serialization. *)
Record JWSSignature := mkJWSSignature {
  jwsHeader : JWSHeader;
  jwsUnprotected : option UnprotectedHeader;
  jwsSignatureBytes : string;
  jwsVerify : PublicKey → outcome bool
}.
Record JWSObjectJSON := mkJWSObjectJSON { jsonPayload : Payload; jsonSignatures : list JWSSignature }.
Record JWSObject := mkJWSObject { compactPayload : Payload; compactSignature : JWSSignature }.

(** ** [JOSESignedDocumentValidator]: reading a document *)
Inductive Family := EC_family | RSA_family | Other_family.
Section Document.
(** Nimbus: the serializations, with a detached payload or not; null is a ParseException.
    The family of an algorithm, and whether a key has the type that a verifier needs. *)
Context (parseCompact : string → option Payload → option JWSObject) (parseJSON : string → option JWSObjectJSON).
Context (withPayload : JWSObjectJSON → Payload → option JWSObjectJSON).
Context (family : JWSAlgorithm → Family) (newVerifier : Family → PublicKey → outcome unit).
Context (getUri : option JWSAlgorithm → outcome string).

Definition empty_data : JOSESignatureData := mkJoseData false false None None None None None None None None.
Definition with_chain (cert : X509Certificate) (chain : list X509Certificate) (algorithm : option string) : JOSESignatureData :=
  mkJoseData false false None None algorithm None None None (Some cert) (Some chain).
Definition data_exception (e : exn) (d : JOSESignatureData) : JOSESignatureData :=
  mkJoseData (detached d) (isVerified d) (Some e) (joseHeader d) (joseAlgorithm d) (unprotectedHeader d) (payload d)
    (joseSignatureBytes d) (joseSigner d) (joseChain d).
(** [getVerifierAndCerts]: the data that it sets, and whether it throws. *)
Definition getVerifierAndCerts (header : JWSHeader) : JOSESignatureData * outcome PublicKey :=
  let found :=
    uri ← getUri (Some (headerAlgorithm header));
    l ← match headerX509CertChain header with Some l => Ret l | None => Throw NullPointerException end;
    certs ← read_chain l;
    Ret (uri, certs) in
  match found with
  | Throw e => (empty_data, Throw e)
  | Ret (_, []) => (empty_data, Throw (IOException "No signing certificate in JWS header"))
  | Ret (uri, (cert :: _) as certs) =>
      let f := family (headerAlgorithm header) in
      match f with
      | EC_family | RSA_family =>
          (with_chain cert certs (Some uri), _ ← newVerifier f (publicKey cert); Ret (publicKey cert))
      | Other_family => (with_chain cert certs None, Throw (IOException "Unsupported algorithm type"))
      end
  end.
(** The data of one signature; an exception leaves what was set before it. *)
Definition signature_of (isDetached : bool) (pl : Payload) (unprotected : option UnprotectedHeader) (sig : JWSSignature) :
    JOSESignatureData :=
  let '(d, key) := getVerifierAndCerts (jwsHeader sig) in
  match (key ← key; jwsVerify sig key) with
  | Throw e => data_exception e d
  | Ret verified =>
      mkJoseData isDetached verified None (Some (jwsHeader sig)) (joseAlgorithm d) unprotected (Some pl)
        (Some (jwsSignatureBytes sig)) (joseSigner d) (joseChain d)
  end.
Definition getSignatureDataFromJWSObject (o : JWSObject) (isDetached : bool) : list JOSESignatureData :=
  [signature_of isDetached (compactPayload o) None (compactSignature o)].
Definition getSignatureDataFromJWSJSONObject (o : JWSObjectJSON) (isDetached : bool) : list JOSESignatureData :=
  map (λ sig, signature_of isDetached (jsonPayload o) (jwsUnprotected sig) sig) (jsonSignatures o).
(** [getJOSEDocumentSignatureData]: both serializations are tried, the second one wins. *)
Definition getJOSEDocumentSignatureData (document : string) (detachedPayload : option Payload) : list JOSESignatureData :=
  let isDetached := match detachedPayload with Some _ => true | None => false end in
  let compact := match parseCompact document detachedPayload with
                 | Some o => getSignatureDataFromJWSObject o isDetached
                 | None => []
                 end in
  match (o ← parseJSON document;
         match detachedPayload with Some p => withPayload o p | None => Some o end) with
  | Some o => getSignatureDataFromJWSJSONObject o isDetached
  | None => compact
  end.
(** [isSigned]; a compact JWS that parses has a signature. *)
Definition jose_isSigned (document : string) : bool :=
  match parseCompact document None with
  | Some _ => true
  | None => match parseJSON document with
            | Some o => match jsonSignatures o with [] => false | _ => true end
            | None => false
            end
  end.
End Document.

Section Jose.
Context {S : Type} (getMessage : exn → string).
(** Jackson's view of an entry of the etsiU header, as it is and decoded from Base64: null, or
    the values of the timestamp tokens in its sigTst component, absent when there is none. *)
Context (readComponent readEncoded : string → option (option (option (list (option string))))) (decode64 : string → outcome string).
Context (parseDate : string → option Z) (encodeURL : string → string).
Context (stampData : string → string → outcome TimeStampData).
Context (certVerify : X509Certificate → PublicKey → bool) (getUri : option JWSAlgorithm → outcome string).
Context (certificateValidator : option (X509Certificate → option (list X509Certificate) → MF S ValidateOutcome)).
Context (tsValidator : X509Certificate → option (list X509Certificate) → MF S ValidateOutcome).
Context (tsPolicy : string) (hashBlackList : list string) (subjectName : X509Certificate → string).
Context {FP : FormatPolicy JoseFields S}.

(** ** Times *)
Definition getClaimedSigningTime (header : option JWSHeader) : option Z :=
  match (h ← header; sigT h) with Some (JString s) => parseDate s | _ => None end.
(** The components of the entries that are texts; one that cannot be read ends it all. *)
Fixpoint components (l : list JsonValue) : option (list (option (option (list (option string))))) :=
  match l with
  | [] => Some []
  | JString item :: l' =>
      c ← match readComponent item with Some c => Some c | None => readEncoded item end;
      rest ← components l';
      Some (c :: rest)
  | _ :: l' => components l'
  end.
Definition decoded_token (val : option string) : option string :=
  match val with
  | Some v => match decode64 v with Ret b => Some b | Throw _ => None end
  | None => None
  end.
(** The tokens that decode; an entry that is null is dereferenced. *)
Fixpoint component_tokens (l : list (option (option (list (option string))))) : outcome (list string) :=
  match l with
  | [] => Ret []
  | None :: _ => Throw NullPointerException
  | Some sigTst :: l' => rest ← component_tokens l'; Ret (omap decoded_token (default [] sigTst) ++ rest)
  end.
Definition getSignatureTimestampList (header : option UnprotectedHeader) : outcome (list string) :=
  match (h ← header; etsiU h) with
  | Some (JList l) => match components l with Some cs => component_tokens cs | None => Ret [] end
  | _ => Ret []
  end.
(** The bytes that are timestamped are the text of the encoded signature; without
    timestamps they are not needed. *)
Definition jose_stamps (data : JOSESignatureData) : outcome (list (outcome TimeStampData)) :=
  match getSignatureTimestampList (unprotectedHeader data) with
  | Throw e => Throw e
  | Ret [] => Ret []
  | Ret l => match joseSignatureBytes data with
             | None => Throw NullPointerException
             | Some b => Ret (map (λ tsData, stampData tsData (encodeURL b)) l)
             end
  end.

(** ** The signature value *)
Definition validateSignatureData (data : JOSESignatureData) : SigValResult JoseFields :=
  let r := new_svr (Some (mkJoseFields (joseSignatureBytes data) (joseHeader data) (unprotectedHeader data) (payload data))) in
  match payload data with
  | None => setError ERROR_BAD_FORMAT (getMessage NullPointerException) (Some (getMessage NullPointerException)) r
  | Some p =>
      let r := with_document false (Some (payloadBytes p)) false false None r in
      match joseSigner data with
      | None => setError ERROR_BAD_FORMAT "No certificate or public key found in signature's KeyInfo" None r
      | Some cert =>
          let r := with_signer (joseAlgorithm data) (Some cert) (joseChain data) r in
          if isVerified data then with_status SUCCESS (statusMessage r) r
          else setError ERROR_INVALID_SIGNATURE
                 "Signature is invalid - signature value did not validate correctly or reference digest comparison failed" None r
      end
  end.
Definition is_ades (data : JOSESignatureData) : bool :=
  match (h ← unprotectedHeader data; etsiU h) with Some _ => true | None => false end.

(** ** The result of a token *)
Definition compileJOSESigValResultsFromSvtValidation (fuel : nat) (sv : SignatureSVTValidationResult) (data : JOSESignatureData) :
    option (SigValResult JoseFields) :=
  let r := new_svr (Some (mkJoseFields (joseSignatureBytes data) (joseHeader data) (unprotectedHeader data) None)) in
  match payload data with
  | None => Some (svt_unreadable r)
  | Some p =>
      let r := with_document true (Some (payloadBytes p)) (is_ades data) (negb (isVerified data))
                 (getClaimedSigningTime (joseHeader data)) r in
      svt_compile certVerify getUri fuel sv (joseSigner data) (joseChain data) r
  end.

(** ** [validateSignature] *)
Definition jose_directly (data : JOSESignatureData) : MF S (SigValResult JoseFields) :=
  r ← check_signer getMessage certificateValidator (validateSignatureData data);
  let r := with_document true (signedDocument r) (is_ades data) false (getClaimedSigningTime (joseHeader data)) r in
  match jose_stamps data with
  | Throw e => mret (parse_failed getMessage e r)
  | Ret stamps =>
      times ← stamp_times tsValidator tsPolicy hashBlackList subjectName stamps;
      finish_signature getMessage times r
  end.
Context (svtValidator : option (MF S (list SignatureSVTData) → MF S (list SignatureSVTValidationResult))).
Context (getSignatureSVTData : JOSESignatureData → MF S (list SignatureSVTData)).
Definition jose_validateSignature (fuel : nat) (data : JOSESignatureData) : MF S (SigValResult JoseFields) :=
  tokens ← mf_attempt match svtValidator with
                      | None => mret None
                      | Some v => l ← v (getSignatureSVTData data); mret (Some l)
                      end;
  match tokens with
  | Throw e => mret (parse_failed getMessage e (new_svr None))
  | Ret l =>
      match valid_token l with
      | Some sv => fueled (compileJOSESigValResultsFromSvtValidation fuel sv data)
      | None => jose_directly data
      end
  end.
(** [JOSESignedDocumentValidator.validate] *)
Fixpoint jose_each (fuel : nat) (l : list JOSESignatureData) : MF S (list (SigValResult JoseFields)) :=
  match l with
  | [] => mret []
  | data :: l' => r ← jose_validateSignature fuel data; rest ← jose_each fuel l'; mret (r :: rest)
  end.
Definition jose_validate (fuel : nat) (l : list JOSESignatureData) : MF S (list (SigValResult JoseFields)) :=
  o ← mf_attempt (jose_each fuel l);
  match o with Ret rs => mret rs | Throw e => mf_raise (SignatureException (getMessage e)) end.
Definition jose_extendedResultValidation (fuel : nat) (l : list JOSESignatureData) : MF S (FormatDocumentResult JoseFields) :=
  rs ← jose_validate fuel l; mret (format_conclusion rs).
End Jose.

(** ** [JOSESVTValidator.getSignatureSVTData] *)
Section JoseToken.
Context {S : Type} (newDate : M S Z).
Context (svtCertVerifier : X509Certificate → option (list X509Certificate) → MF S ValidateOutcome).
Context (supportingCertificates : list X509Certificate).
Context (newVerifier : PublicKey → outcome unit) (jwtVerify : SignedJWT → PublicKey → outcome bool).
Context (getAlgoParams : JWSAlgorithm → outcome (option string)) (digests : option string → outcome DigestAlgorithm).
Context (certKeyId : JWSAlgorithm → X509Certificate → outcome string).
Context (hash64 : DigestAlgorithm → string → outcome string) (parseJWT : string → outcome SignedJWT).
(** The texts in the svt parameter. *)
Definition getSignatureSvaTokens (header : option UnprotectedHeader) : list string :=
  match (h ← header; svt h) with
  | Some (JList l) => omap (λ v, match v with JString s => Some s | _ => None end) l
  | _ => []
  end.
Definition jose_signed_bytes (data : JOSESignatureData) : outcome string :=
  match joseHeader data, payload data with
  | Some h, Some p => Ret (headerBase64 h ++ "." ++ payloadBase64 p)%string
  | _, _ => Throw NullPointerException
  end.
Definition jose_data_refs (data : JOSESignatureData) (md : DigestAlgorithm) : outcome (list SignedDataClaims) :=
  match payload data with
  | None => Throw NullPointerException
  | Some p => h ← hash64 md (payloadBytes p); Ret [mkDataRef (if detached data then "detached" else "payload") h]
  end.
Definition jose_SignatureSVTData (data : JOSESignatureData) : MF S (list SignatureSVTData) :=
  format_SignatureSVTData newDate svtCertVerifier supportingCertificates newVerifier jwtVerify getAlgoParams digests certKeyId
    hash64 (map parseJWT (getSignatureSvaTokens (unprotectedHeader data))) None
    (match joseSignatureBytes data with Some b => Ret b | None => Throw NullPointerException end) (jose_signed_bytes data)
    (jose_data_refs data) (joseChain data).
End JoseToken.
