(* ===== verification/SigVerifyProps.v ===== *)
(** * What the shared steps of XML and JSON signatures establish

    From a result that is a success after the policy back to the path of the signer, and the
    results of a path validation that the steps do not tell apart. *)
From Stdlib Require Import ZArith Lia Ascii String.
From stdpp Require Import base gmap strings list.
From S2P Require Import Prelude CertModel Algorithms.
From S2P Require Import Validity PathValidator PdfContext Timestamps PdfVerify PdfSvt PdfDocument SigVerify.

(** ** The policy *)
(** A policy whose status is SUCCESS only when it passes. *)
Class SoundFormat {A S} (FP : FormatPolicy A S) := sound_format r s p s' :
  additionalChecks r s = Some (Ret p, s') → res (claims p) ≠ PASSED → policyStatus p ≠ SUCCESS.
#[export] Instance basic_format_sound A S : SoundFormat (BasicFormatPolicy A S).
Proof.
  intros r s p s'. unfold additionalChecks, BasicFormatPolicy, isSuccess. destruct (status r) as [st|] eqn:Hst; [|done].
  case_bool_decide as Hs; intros [= <- _]; [by intros []|]. simpl. intros _ ->. by apply Hs.
Qed.
#[export] Instance pkix_format_sound A S newDate getMessage enforce grace :
  SoundFormat (A := A) (S := S) (PkixFormatPolicy newDate getMessage enforce grace).
Proof.
  intros r s p s'. unfold additionalChecks, PkixFormatPolicy, pkix_caught. mstep.
  destruct (pkix_judge _ _ _ _ _ _ s) as [[[q|e] s1]|] eqn:Hq; [|by intros [= <- _]|done].
  intros [= <- _]. by eapply pkix_judge_status.
Qed.

Section Steps.
Context {A S : Type} {FP : FormatPolicy A S} `{!SoundFormat FP} (getMessage : exn → string).
Implicit Types (r : SigValResult A) (s : S).
Lemma is_success r : isSuccess r = true ↔ status r = Some SUCCESS.
Proof. apply bool_decide_eq_true. Qed.
Lemma format_policy_status r s p s' :
  format_validatePolicy r s = Some (Ret p, s') → res (claims p) ≠ PASSED → policyStatus p ≠ SUCCESS.
Proof.
  unfold format_validatePolicy.
  destruct (status r) as [[]|]; try (by intros [= <- _]); destruct (has_path _); try (by intros [= <- _]); apply sound_format.
Qed.
Lemma conclude_success r s r' s' :
  conclude_signature r s = Some (Ret r', s') → isSuccess r' = true →
  isSuccess r = true ∧ has_path (certificateValidationResult r) = true ∧
  ∃ p, additionalChecks r s = Some (Ret p, s') ∧ res (claims p) = PASSED ∧ r' = with_claims [claims p] r.
Proof.
  unfold conclude_signature. mstep. destruct (format_validatePolicy r s) as [[[p|e] s1]|] eqn:Hp; [|done|done].
  destruct (decide (res (claims p) = PASSED)) as [Hpass|Hpass].
  - rewrite bool_decide_true by done. intros [= <- <-] Hs. change (isSuccess r = true) in Hs. split; [done|].
    apply is_success in Hs. unfold format_validatePolicy in Hp. rewrite Hs in Hp.
    destruct (has_path _); [eauto|]. injection Hp as <- _. done.
  - rewrite bool_decide_false by done. intros [= <- <-] Hs%is_success. exfalso. injection Hs as Hs.
    by eapply (format_policy_status r s p s1).
Qed.
Lemma finish_success times r s r' s' :
  finish_signature getMessage times r s = Some (Ret r', s') → isSuccess r' = true →
  isSuccess r = true ∧ has_path (certificateValidationResult r) = true ∧
  ∃ p, additionalChecks (with_times times r) s = Some (Ret p, s') ∧ res (claims p) = PASSED ∧
    r' = with_claims [claims p] (with_times times r).
Proof.
  unfold finish_signature. mstep.
  destruct (conclude_signature (with_times times r) s) as [[[r1|e] s1]|] eqn:Hc; [| |done].
  - intros [= <- <-] Hs. by apply conclude_success in Hc.
  - intros [= <- _] [=]%is_success.
Qed.
(** What was recorded before the path of the signer is looked at. *)
Definition pristine r : Prop := certificateValidationResult r = None ∧ exception r = None.
(** A path as the steps take it: returned, or with an exception. *)
Definition path_given (v : X509Certificate → option (list X509Certificate) → MF S ValidateOutcome)
    (cert : X509Certificate) (chain : option (list X509Certificate)) (path : PathValidationResult) : Prop :=
  ∃ s s' o, v cert chain s = Some (Ret o, s') ∧ (o = VResult path ∨ ∃ cause, o = VExtended cause path).
Lemma check_signer_success v r s r' s' :
  check_signer getMessage v r s = Some (Ret r', s') → isSuccess r' = true → has_path (certificateValidationResult r') = true →
  (isSuccess r = true → pristine r) → isSuccess r = true ∧
  ∃ vc cert path, v = Some vc ∧ signerCertificate r = Some cert ∧ r' = with_path path r ∧
    path_given vc cert (signatureCertificateChain r) path.
Proof.
  intros H Hs Hp Hc. unfold check_signer in H. destruct v as [vc|]; [|injection H as <- _; by rewrite (proj1 (Hc Hs)) in Hp].
  destruct (isSuccess r) eqn:Hr; [|injection H as <- _; by rewrite Hr in Hs]. split; [done|]. mstep.
  destruct (signerCertificate r) as [cert|] eqn:Hcert; simpl in H.
  2: { injection H as <- _. by apply is_success in Hs. }
  destruct (vc cert (signatureCertificateChain r) s) as [[[o|e] s1]|] eqn:Ho; [| |done].
  2: { injection H as <- _. by apply is_success in Hs. }
  injection H as <- <-. exists vc, cert. unfold path_given.
  destruct o as [path|m|cause path]; cbn [judge_signer] in *; [exists path| |exists path].
  - do 3 (split; [done|]). exists s, s1, (VResult path). eauto.
  - by apply is_success in Hs.
  - revert Hs. fold (has_path (Some path)). destruct (has_path (Some path)) eqn:Hpath; [|by intros [=]%is_success].
    intros _. do 3 (split; [done|]). exists s, s1, (VExtended cause path). eauto.
Qed.
End Steps.

(** ** The PKIX policy *)
Section Pkix.
Context {A S : Type} (newDate : M S Z) (getMessage : exn → string).
(** A path of which every status is VALID or REVOKED; without the enforcement of the current
    time, what is revoked was revoked late enough. *)
Definition path_passed (enforce : bool) (grace : Z) (times : list TimeValidationResult) (path : PathValidationResult) : Prop :=
  has_path (Some path) = true ∧
  ∃ l, judged_path path l ∧
    (enforce = false → ∀ st, st ∈ l → validity st = REVOKED → revoked_late newDate grace times st).
Lemma pkix_format_passed enforce grace (r : SigValResult A) s p s' :
  additionalChecks (FormatPolicy := PkixFormatPolicy newDate getMessage enforce grace) r s = Some (Ret p, s') →
  res (claims p) = PASSED → has_path (certificateValidationResult r) = true →
  ∃ path, certificateValidationResult r = Some path ∧ path_passed enforce grace (timeValidationResults r) path.
Proof.
  unfold additionalChecks, PkixFormatPolicy, pkix_caught. mstep.
  destruct (pkix_judge _ _ _ _ _ _ s) as [[[q|e] s1]|] eqn:Hq; [|by intros [= <- _]|done].
  intros [= <- _] Hp Hpath. apply pkix_judge_passed in Hq as (path & l & Hr & Hj & _ & Hlate); [|done].
  exists path. split; [done|]. rewrite Hr in Hpath. split; [done|]. eauto.
Qed.
(** The steps together: from the result of the format's own checks to the success. *)
Lemma steps_success enforce grace v (prepare : SigValResult A → SigValResult A) times r0 r1 (s s1 s2 : S) r s' :
  check_signer getMessage v r0 s = Some (Ret r1, s1) →
  finish_signature (FP := PkixFormatPolicy newDate getMessage enforce grace) getMessage times (prepare r1) s2 = Some (Ret r, s') →
  isSuccess r = true → (isSuccess r0 = true → pristine r0) →
  (isSuccess (prepare r1) = true → isSuccess r1 = true ∧ certificateValidationResult (prepare r1) = certificateValidationResult r1) →
  isSuccess r0 = true ∧ isSuccess (prepare r1) = true ∧
  ∃ vc cert path claims, v = Some vc ∧ signerCertificate r0 = Some cert ∧ r1 = with_path path r0 ∧
    path_given vc cert (signatureCertificateChain r0) path ∧ path_passed enforce grace times path ∧
    r = with_claims claims (with_times times (prepare r1)).
Proof.
  intros Hc Hf Hs Hp Hprep. apply finish_success in Hf as (Hs2 & Hpath & p & Hadd & Hpass & ->); [|done].
  destruct (Hprep Hs2) as [Hs1 Hcvr]. rewrite Hcvr in Hpath.
  apply check_signer_success in Hc as (Hs0 & vc & cert & path & -> & Hcert & -> & Hgiven); [|done|done|done].
  split; [done|]. split; [done|]. exists vc, cert, path, [claims p]. split; [done|]. split; [done|]. split; [done|]. split; [done|].
  split; [|done]. rewrite <- Hcvr in Hpath.
  apply pkix_format_passed in Hadd as (path' & Hr & Hok); [|done|done].
  simpl in Hr, Hok. rewrite Hcvr in Hr. by injection Hr as <-.
Qed.

(** ** A path that failed *)
(** With the enforcement of the current time, a signature whose value verified passes with
    any path that the validator's exception carries, when no status of it is INVALID or
    UNKNOWN. *)
Lemma failed_path_passes grace vc (prepare : SigValResult A → SigValResult A) times r0 cert cause path l (s s1 s2 : S) :
  isSuccess r0 = true → pristine r0 → signerCertificate r0 = Some cert →
  vc cert (signatureCertificateChain r0) s = Some (Ret (VExtended cause path), s1) →
  has_path (Some path) = true → judged_path path l →
  (let r := with_path path r0 in status (prepare r) = status r ∧ exception (prepare r) = exception r ∧
     certificateValidationResult (prepare r) = certificateValidationResult r) →
  check_signer getMessage (Some vc) r0 s = Some (Ret (with_path path r0), s1) ∧
  ∃ r, finish_signature (FP := PkixFormatPolicy newDate getMessage true grace) getMessage times (prepare (with_path path r0)) s2
       = Some (Ret r, s2) ∧ isSuccess r = true ∧ exception r = None ∧
    validationPolicyResultList r = [mkClaims SIG_VALIDATION_POLICY_PKIX_VALIDATION PASSED "OK"].
Proof.
  intros Hs [Hc He] Hcert Hv Hpath Hj Hprep. split.
  { unfold check_signer. rewrite Hs. mstep. rewrite Hcert. simpl. rewrite Hv. simpl. fold (has_path (Some path)). by rewrite Hpath. }
  destruct Hprep as (Hst & Hex & Hcvr).
  exists (with_claims [mkClaims SIG_VALIDATION_POLICY_PKIX_VALIDATION PASSED "OK"] (with_times times (prepare (with_path path r0)))).
  split; [|split; [|split; [|done]]].
  - unfold finish_signature, conclude_signature, format_validatePolicy. mstep. cbn [status with_times].
    apply is_success in Hs. rewrite Hst. cbn [status with_path]. rewrite Hs. cbn [certificateValidationResult with_times].
    rewrite Hcvr. cbn [certificateValidationResult with_path]. rewrite Hpath.
    unfold additionalChecks, PkixFormatPolicy, pkix_caught. mstep. cbn [exception certificateValidationResult timeValidationResults with_times].
    rewrite Hcvr, Hex. cbn [exception certificateValidationResult with_path]. rewrite He.
    by rewrite (enforced_passes newDate grace path l times s2 Hj).
  - apply is_success. simpl. rewrite Hst. by apply is_success in Hs.
  - simpl. by rewrite Hex.
Qed.
End Pkix.

(** ** The conclusion of a document *)
Lemma format_count {A} (l : list (SigValResult A)) :
  length l = length (List.filter isSuccess l) ↔ ∀ r, r ∈ l → isSuccess r = true.
Proof.
  split.
  - intros H r Hr. destruct (isSuccess r) eqn:E; [done|]. exfalso.
    pose proof (filter_length_lt isSuccess (λ _, true) l r (λ _ _, eq_refl) Hr E eq_refl).
    rewrite (filter_all (λ _, true)) in H0 by done. lia.
  - intros H. by rewrite filter_all.
Qed.
Lemma format_complete {A} (l : list (SigValResult A)) :
  completeSuccess (format_conclusion l) = true → l ≠ [] ∧ ∀ r, r ∈ l → isSuccess r = true.
Proof.
  pose proof (format_count l) as C. unfold format_conclusion. destruct l as [|r l]; [done|].
  destruct (List.filter isSuccess (r :: l)) as [|v valid]; [done|]. cbv zeta. cbn [completeSuccess]. rewrite Nat.eqb_eq.
  intros H. split; [done|]. by apply C.
Qed.
Lemma format_whole {A} (l : list (SigValResult A)) :
  validSignatureSignsWholeDocument (format_conclusion l) = true → ∃ r, r ∈ l ∧ isSuccess r = true ∧ coversDocument r = true.
Proof.
  unfold format_conclusion. destruct l as [|r l]; [done|].
  destruct (List.filter isSuccess (r :: l)) as [|v valid] eqn:E; [done|]. cbv zeta. cbn [validSignatureSignsWholeDocument].
  rewrite <- E. intros (x & Hx & Hc)%existsb_exists. apply list_elem_of_In, filter_elem in Hx as [Hx Hs]. eauto.
Qed.
