(* ===== verification/XmlVerifyProps.v ===== *)
(** * What successful XML signatures establish

    What a signature covers, what its status SUCCESS shows, and from the conclusion of a
    document back to the signatures in it. *)
From Stdlib Require Import ZArith Lia Ascii String.
From stdpp Require Import base gmap strings list.
From S2P Require Import Prelude CertModel Algorithms.
From S2P Require Import Validity PathValidator PdfContext Timestamps PdfVerify PdfSvt PdfDocument SigVerify SvtTokens XmlContext XmlVerify.
From S2P Require Import SigVerifyProps.

(** ** What is covered *)
Section Context.
Context {S : Type} `{IdStore S}.
Context (getDocument : string → outcome Document) (hashOrder : ∀ A, list (string * A) → list (string * A)).
Context (getReferencedContent : SignatureElement → nat → M S string) (ctx : XMLSignatureContext).
(** A reference to the whole document: to nothing, or to the identifier of its root, a root
    without one being called null. *)
Definition refers_to_root (root : option string) (ref : Reference) : Prop :=
  refURI ref = "" ∨ refURI ref = ("#" ++ text_of root)%string.
Lemma covers_keys refs :
  isCoversWholeDocument ctx refs = true ↔
  is_Some (refs !! "") ∨ is_Some (refs !! ("#" ++ text_of (rootIdAttrVal ctx))%string).
Proof.
  unfold isCoversWholeDocument. destruct (refs !! "") as [a|]; [split; [intros _; left; eauto|done]|].
  destruct (refs !! _) as [b|]; [split; [intros _; right; eauto|done]|]. split; [done|]. by intros [[? ?]|[? ?]].
Qed.
(** The map of the references has their URIs. *)
Lemma reference_loop_keys sig i l refs s m s' :
  reference_loop getReferencedContent ctx sig i l refs s = (Ret m, s') →
  ∀ k, is_Some (m !! k) ↔ is_Some (refs !! k) ∨ ∃ r, r ∈ l ∧ refURI r = k.
Proof.
  revert i refs s. induction l as [|r l IH]; intros i refs s; cbn [reference_loop].
  { intros [= <- _] k. split; [by left|]. intros [?|(r & ?%elem_of_nil & _)]; done. }
  destruct (match getTransformAlgorithm r with Some a => _ | None => _ end); [done|]. mstep.
  match goal with |- context [match ?m s with _ => _ end] => destruct (m s) as [[u|e] s1]; [|done] end.
  destruct (getReferencedContent sig i s1) as [o s2]. intros Hm k. apply (IH _ _ _) with (k := k) in Hm. rewrite Hm.
  destruct (decide (refURI r = k)) as [<-|Hk].
  - split; [right; exists r; split; [left|done]|]. intros _. left. by rewrite lookup_insert_eq.
  - rewrite lookup_insert_ne by done. split; (intros [?|(r' & Hr & Hk')]; [by left|right]).
    + exists r'. split; [by right|done].
    + apply elem_of_cons in Hr as [->|Hr]; [done|]. eauto.
Qed.
(** The data of a signature that parses. *)
Lemma signature_data_of node s data s' :
  getSignatureData getDocument hashOrder getReferencedContent ctx node s = (Ret data, s') →
  ∃ sig, node = Ret sig ∧ dataSignature data = sig ∧
    (coversWholeDoc data = true ↔ ∃ ref, ref ∈ xmlReferences sig ∧ refers_to_root (rootIdAttrVal ctx) ref) ∧
    (∀ cert, dataSigner data = Some cert → ∃ k, xmlKeyInfo sig = Some k ∧ kiCertificate k = Ret (Some cert)).
Proof.
  unfold getSignatureData, signature_data. mstep. destruct node as [sig|e]; [|done].
  destruct (reference_loop _ _ sig 0 _ ∅ s) as [[refs|e] s1] eqn:Hl; [|done].
  destruct (signatureValue sig) as [value|e]; [|done]. destruct (canonicalSignedInfo sig) as [info|e]; [|done].
  assert (C : isCoversWholeDocument ctx refs = true ↔ ∃ ref, ref ∈ xmlReferences sig ∧ refers_to_root (rootIdAttrVal ctx) ref).
  { rewrite covers_keys. rewrite !(reference_loop_keys _ _ _ _ _ _ _ Hl). rewrite !lookup_empty. unfold refers_to_root.
    split; [intros [[[? ?]|?]|[[? ?]|?]]; naive_solver|naive_solver]. }
  destruct (xmlKeyInfo sig) as [k|] eqn:Hk.
  - destruct (kiCertificate k) as [c|e] eqn:Hc; [|done]. intros [= <- _]. exists sig. simpl. repeat split; [apply C|apply C|].
    intros cert ->. eauto.
  - intros [= <- _]. exists sig. simpl. by repeat split; [apply C|apply C|].
Qed.
End Context.

(** ** One signature *)
Section Signature.
Context {S : Type} `{IdStore S} (newDate : M S Z) (getMessage : exn → string).
Context (checkSignatureValue : SignatureElement → PublicKey → M S bool).
Context (digests : option string → outcome DigestAlgorithm) (certDigest : DigestAlgorithm → X509Certificate → string).
Context (certVerify : X509Certificate → PublicKey → bool) (getUri : option JWSAlgorithm → outcome string).
Context (stampData : string → string → outcome TimeStampData).
Context (certificateValidator : option (X509Certificate → option (list X509Certificate) → MF S ValidateOutcome)).
Context (tsValidator : X509Certificate → option (list X509Certificate) → MF S ValidateOutcome).
Context (tsPolicy : string) (hashBlackList : list string) (subjectName : X509Certificate → string).
Context (svtData : SignatureData → MF S (list SignatureSVTData)).
Notation element := (validateSignatureElement getMessage checkSignatureValue).
Notation xades := (xades_step digests certDigest).
Notation directly FP := (validate_directly (FP := FP) getMessage checkSignatureValue digests certDigest stampData certificateValidator
  tsValidator tsPolicy hashBlackList subjectName).
Lemma element_success sig data s r s' :
  element sig data s = (Ret r, s') → isSuccess r = true →
  ∃ cert, dataSigner data = Some cert ∧ checkSignatureValue sig (publicKey cert) s = (Ret true, s') ∧
    pristine r ∧ signerCertificate r = Some cert ∧ signatureCertificateChain r = dataChain data.
Proof.
  unfold validateSignatureElement, validation_key. destruct (dataSigner data) as [cert|].
  - unfold verify_value. destruct (checkSignatureValue sig (publicKey cert) s) as [[[]|e] s1] eqn:Hv; intros [= <- <-] Hs.
    + exists cert. do 4 (split; [done|]). done.
    + by apply is_success in Hs.
    + destruct (is_signature_exception e); by apply is_success in Hs.
  - destruct (xmlKeyInfo sig) as [k|]; [destruct (kiPublicKey k) as [[key|]|e]|].
    2-4: by intros [= <- _] [=]%is_success.
    unfold verify_value. destruct (checkSignatureValue sig key s) as [[[]|e] s1]; intros [= <- <-] Hs; try by apply is_success in Hs.
    destruct (is_signature_exception e); by apply is_success in Hs.
Qed.
(** A XAdES signature names its certificate. *)
Definition certificate_named (sig : SignatureElement) (refs : gmap string (option string)) (cert : X509Certificate) : Prop :=
  ∃ p, new_XAdESObjectParser sig refs = Ret p ∧
    (qualifyingProperties p = None ∨
     ∃ l d m value md, certHashList p = Some l ∧ Some d ∈ l ∧ digestMethod d = Some m ∧ digestValue d = value ∧
       digests m = Ret md ∧ certDigest md cert = value).
Lemma xades_verified p cert :
  isXadesVerified digests certDigest p (Some cert) = true →
  ∃ l d m value md, certHashList p = Some l ∧ Some d ∈ l ∧ digestMethod d = Some m ∧ digestValue d = value ∧
    digests m = Ret md ∧ certDigest md cert = value.
Proof.
  unfold isXadesVerified. intros (d & Hd & Hm)%existsb_exists. destruct (certHashList p) as [l|]; [|done].
  apply list_elem_of_In in Hd. unfold digest_matches in Hm. destruct d as [d|]; simpl in Hm; [|done].
  destruct (digestMethod d) as [m|] eqn:Hmd; simpl in Hm; [|done]. destruct (digests m) as [md|] eqn:Hdig; [|done].
  apply String.eqb_eq in Hm. exists l, d, m, (digestValue d), md. repeat (split; [done|]). done.
Qed.
Lemma xades_success data p r :
  isSuccess (xades data p r) = true →
  isSuccess r = true ∧ certificateValidationResult (xades data p r) = certificateValidationResult r ∧
  coversDocument (xades data p r) = coversWholeDoc data ∧
  (qualifyingProperties p = None ∨ isXadesVerified digests certDigest p (signerCertificate r) = true).
Proof.
  unfold xades_step. cbn [signerCertificate].
  destruct (qualifyingProperties p) as [q|]; simpl; [|intros Hs; by repeat split; [|left]].
  destruct (isXadesVerified _ _ _ _); simpl; [intros Hs; by repeat split; [|right]|]. by intros [=]%is_success.
Qed.
(** What a success of one signature is evidence of. *)
Definition xml_shown (enforce : bool) (grace : Z) (sig : SignatureElement) (data : SignatureData) (r : XmlResult) : Prop :=
  ∃ cert vc path, dataSigner data = Some cert ∧ certificateValidator = Some vc ∧
    (∃ s s', checkSignatureValue sig (publicKey cert) s = (Ret true, s')) ∧
    certificate_named sig (refDataMap data) cert ∧
    certificateValidationResult r = Some path ∧ path_given vc cert (dataChain data) path ∧
    path_passed newDate enforce grace (timeValidationResults r) path ∧ coversDocument r = coversWholeDoc data.
Lemma directly_success enforce grace sig data s r s' :
  directly (PkixFormatPolicy newDate getMessage enforce grace) sig data s = Some (Ret r, s') → isSuccess r = true →
  xml_shown enforce grace sig data r.
Proof.
  unfold validate_directly. mstep. destruct (element sig data s) as [[r0|e] s0] eqn:H0; [|done].
  destruct (check_signer getMessage certificateValidator r0 s0) as [[[r1|e] s1]|] eqn:H1; [|done|done].
  destruct (new_XAdESObjectParser sig (refDataMap data)) as [p|e] eqn:Hp; [|by intros [= <- _] [=]%is_success].
  destruct (stamp_times _ _ _ _ _ s1) as [[[times|e] s2]|]; [|done|done]. intros H2 Hs.
  eapply (steps_success newDate getMessage enforce grace certificateValidator (xades data p)) in H2
    as (Hs0 & Hs1 & vc & cert & path & c & Hv & Hc & Hr1 & Hg & Hok & ->); [|exact H1|done| |].
  - apply (element_success _ _ _ _ _ H0) in Hs0 as (cert' & Hd & Hsig & _ & Hc' & Hch). rewrite Hc' in Hc. injection Hc as ->.
    apply xades_success in Hs1 as (_ & Hcvr & Hcov & Hx). exists cert, vc, path. rewrite Hr1 in Hcvr, Hcov, Hx.
    rewrite Hch in Hg. split; [done|]. split; [done|]. split; [by eauto|].
    enough (Hn : certificate_named sig (refDataMap data) cert) 
      by (split; [done|]; rewrite Hr1; split; [exact Hcvr|]; split; [done|]; split; [done|]; exact Hcov).
    exists p. split; [done|]. destruct Hx as [?|Hx]; [by left|right]. cbn [signerCertificate with_path] in Hx. rewrite Hc' in Hx.
    by apply xades_verified.
  - intros Hs0. by apply (element_success _ _ _ _ _ H0) in Hs0 as (? & _ & _ & ? & _).
  - intros Hx. by apply xades_success in Hx as (? & ? & _).
Qed.
(** The XAdES properties, when there are any, name the certificate of the signer. *)
Definition xades_fits (p : XAdESObjectParser) (cert : X509Certificate) : Prop :=
  qualifyingProperties p = None ∨ isXadesVerified digests certDigest p (Some cert) = true.
(** With the PKIX policy and the enforcement of the current time, a signature whose value
    verifies, whose XAdES properties fit and whose timestamps can be looked at is a success
    with whatever path the certificate validator rejects, as long as no status of it is
    INVALID or UNKNOWN. *)
Lemma rejected_path_passes grace vc sig data cert cause path l p times s s1 s2 s3 :
  dataSigner data = Some cert → checkSignatureValue sig (publicKey cert) s = (Ret true, s1) →
  vc cert (dataChain data) s1 = Some (Ret (VExtended cause path), s2) → has_path (Some path) = true → judged_path path l →
  new_XAdESObjectParser sig (refDataMap data) = Ret p → xades_fits p cert →
  stamp_times tsValidator tsPolicy hashBlackList subjectName
    (map (stamp_over stampData sig) (default [] (signatureTimeStampDataList p))) s2 = Some (Ret times, s3) →
  ∃ r, validate_directly (FP := PkixFormatPolicy newDate getMessage true grace) getMessage checkSignatureValue digests certDigest
         stampData (Some vc) tsValidator tsPolicy hashBlackList subjectName sig data s = Some (Ret r, s3) ∧
    isSuccess r = true ∧ exception r = None ∧
    validationPolicyResultList r = [mkClaims SIG_VALIDATION_POLICY_PKIX_VALIDATION PASSED "OK"].
Proof.
  intros Hd Hv Hvc Hpath Hj Hx Hfits Hts.
  set (r0 := with_status SUCCESS "" (with_signer (Some (signatureMethodURI sig)) (Some cert) (dataChain data) (new_svr (Some sig)))).
  assert (H0 : element sig data s = (Ret r0, s1)).
  { unfold validateSignatureElement, validation_key. rewrite Hd. unfold verify_value. by rewrite Hv. }
  destruct (failed_path_passes newDate getMessage grace vc (xades data p) times r0 cert cause path l s1 s2 s3)
    as (Hc & r & Hf & Hr); try done.
  { unfold xades_step. cbn [signerCertificate with_path r0 with_status with_signer].
    destruct Hfits as [Hn|Hn]; rewrite Hn; [done|]. by rewrite andb_false_r. }
  exists r. split; [|done]. unfold validate_directly. mstep. rewrite H0, Hc, Hx, Hts. exact Hf.
Qed.
(** A token that is used for a signature marks its certificate as wrong, whether XAdES
    properties name it or not: the comparison comes before the certificate is set. *)
Theorem token_marks_certificate fuel sv sig data r p :
  compileXMLSigValResultsFromSvtValidation digests certDigest certVerify getUri fuel sv sig data = Some r →
  new_XAdESObjectParser sig (refDataMap data) = Ret p → invalidSignCert r = true.
Proof.
  unfold compileXMLSigValResultsFromSvtValidation. intros Hr Hp. rewrite Hp in Hr.
  assert (Hx : isXadesVerified digests certDigest p None = false).
  { unfold isXadesVerified. apply not_true_iff_false. intros (d & _ & Hd)%existsb_exists. revert Hd. unfold digest_matches.
    by destruct d as [d|]; simpl; [destruct (digestMethod d)|]. }
  revert Hr. cbn [signerCertificate new_svr]. rewrite Hx. simpl. unfold svt_compile.
  destruct (getUri _) as [uri|e]; [|by intros [= <-]]. destruct (resultSigner sv) as [c|e]; [|by intros [= <-]].
  destruct (getOrderedCertList _ _ _ _) as [path|]; simpl; [|done]. intros [= <-].
  unfold svt_decision. destruct (isSvtValidationSuccess sv), (svt_times sv); done.
Qed.
End Signature.

(** ** SHA-384 *)
Section Sha384.
Context {S : Type} `{IdStore S} (newDate : M S Z) (getMessage : exn → string).
Context (checkSignatureValue : SignatureElement → PublicKey → M S bool) (certDigest : DigestAlgorithm → X509Certificate → string).
Context (stampData : string → string → outcome TimeStampData).
Context (certificateValidator : option (X509Certificate → option (list X509Certificate) → MF S ValidateOutcome)).
Context (tsValidator : X509Certificate → option (list X509Certificate) → MF S ValidateOutcome).
Context (tsPolicy : string) (hashBlackList : list string) (subjectName : X509Certificate → string).
Context (ALGO_ID_DIGEST : Digest → string) (id_digest : Digest → ASN1ObjectIdentifier) `{!Inj (=) (=) ALGO_ID_DIGEST}.
Notation digests := (getDigest (digestAlgorithmMap ALGO_ID_DIGEST id_digest)).
(** With the registry as it is filled, a XAdES signature that names its certificate by
    SHA-384 digests is never a success. *)
Theorem sha384_xades_refused enforce grace sig data s r s' p l :
  validate_directly (FP := PkixFormatPolicy newDate getMessage enforce grace) getMessage checkSignatureValue digests certDigest stampData
    certificateValidator tsValidator tsPolicy hashBlackList subjectName sig data s = Some (Ret r, s') →
  new_XAdESObjectParser sig (refDataMap data) = Ret p → qualifyingProperties p ≠ None → certHashList p = Some l →
  (∀ d m, Some d ∈ l → digestMethod d = Some m → m = Some (ALGO_ID_DIGEST SHA384)) → isSuccess r = false.
Proof.
  intros Hr Hp Hq Hl Hall. destruct (isSuccess r) eqn:Hs; [|done]. exfalso.
  apply directly_success in Hr as (cert & vc & path & _ & _ & _ & (p' & Hp' & Hx) & _); [|done].
  rewrite Hp in Hp'. injection Hp' as <-. destruct Hx as [?|(l' & d & m & v & md & Hl' & Hd & Hm & _ & Hmd & _)]; [done|].
  rewrite Hl in Hl'. injection Hl' as <-. rewrite (Hall d m Hd Hm) in Hmd. unfold getDigest in Hmd.
  by rewrite (registry_digest ALGO_ID_DIGEST id_digest) in Hmd.
Qed.
End Sha384.

(** ** A document *)
Section Document.
Context {S : Type} `{IdStore S} (newDate : M S Z) (getMessage : exn → string).
Context (checkSignatureValue : SignatureElement → PublicKey → M S bool).
Context (digests : option string → outcome DigestAlgorithm) (certDigest : DigestAlgorithm → X509Certificate → string).
Context (certVerify : X509Certificate → PublicKey → bool) (getUri : option JWSAlgorithm → outcome string).
Context (stampData : string → string → outcome TimeStampData).
Context (certificateValidator : option (X509Certificate → option (list X509Certificate) → MF S ValidateOutcome)).
Context (tsValidator : X509Certificate → option (list X509Certificate) → MF S ValidateOutcome).
Context (tsPolicy : string) (hashBlackList : list string) (subjectName : X509Certificate → string).
Context (svtData : SignatureData → MF S (list SignatureSVTData)).
Context (getDocument : string → outcome Document) (hashOrder : ∀ A, list (string * A) → list (string * A)).
Context (getReferencedContent : SignatureElement → nat → M S string).
Notation shown := (xml_shown newDate checkSignatureValue digests certDigest certificateValidator).
Notation each FP := (validate_each (FP := FP) getMessage checkSignatureValue digests certDigest certVerify getUri stampData
  certificateValidator tsValidator tsPolicy hashBlackList subjectName None svtData getDocument hashOrder getReferencedContent).
Notation extended FP := (extendedResultValidation (FP := FP) getMessage checkSignatureValue digests certDigest certVerify getUri stampData
  certificateValidator tsValidator tsPolicy hashBlackList subjectName None svtData getDocument hashOrder getReferencedContent).
(** A signature element that parses, with the evidence for its result. *)
Definition node_shown (enforce : bool) (grace : Z) (ctx : XMLSignatureContext) (node : outcome SignatureElement) (r : XmlResult) : Prop :=
  ∃ sig data s s', node = Ret sig ∧ dataSignature data = sig ∧
    getSignatureData getDocument hashOrder getReferencedContent ctx node s = (Ret data, s') ∧ shown enforce grace sig data r.
Lemma each_shown enforce grace fuel ctx l s rs s' :
  each (PkixFormatPolicy newDate getMessage enforce grace) fuel ctx l s = Some (Ret rs, s') →
  (∀ r, r ∈ rs → isSuccess r = true) → Forall2 (node_shown enforce grace ctx) l rs.
Proof.
  revert s rs s'. induction l as [|node l IH]; intros s rs s'; cbn [validate_each]; [intros [= <- _] _; constructor|]. mstep.
  destruct (getSignatureData _ _ _ ctx node s) as [[data|e] s1] eqn:Hd; [|done].
  destruct (validateSignature _ _ _ _ _ _ _ _ _ _ _ _ _ _ fuel (dataSignature data) data s1) as [[[r|e] s2]|] eqn:Hr; [|done|done].
  destruct (each _ fuel ctx l s2) as [[[rest|e] s3]|] eqn:Hl; [|done|done]. intros [= <- _] Hs. constructor.
  - pose proof (signature_data_of _ _ _ _ _ _ _ _ Hd) as (sig & -> & Hds & _). rewrite Hds in Hr. exists sig, data, s, s1.
    split; [done|]. split; [done|]. split; [done|]. unfold validateSignature in Hr. mstep. simpl in Hr.
    eapply directly_success; [exact Hr|]. apply Hs. left.
  - eapply IH; [exact Hl|]. intros x Hx. apply Hs. by right.
Qed.
Lemma conclusion_results {A} (l : list (SigValResult A)) : signatureValidationResults (format_conclusion l) = l.
Proof. unfold format_conclusion. destruct l as [|r l]; [done|]. by destruct (List.filter isSuccess (r :: l)). Qed.
(** C4. From the conclusion of an XML document to its signatures: without tokens and with the
    PKIX policy, when the conclusion is a complete success every signature element of the
    document parses, its value verifies with the certificate of its KeyInfo, a XAdES
    signature among them holds a digest of that certificate, and the certificate validator
    gave a path for it, returned or with an exception, whose statuses are all VALID or
    REVOKED, the latter late enough when the current time is not enforced.  When it says that
    a valid signature signs the whole document, one of the signatures has a reference to the
    empty URI or to the identifier of the root, which is #null for a root without one. *)
Theorem xml_document_success enforce grace fuel doc signatures s d s' :
  extended (PkixFormatPolicy newDate getMessage enforce grace) fuel doc signatures s = Some (Ret d, s') →
  completeSuccess d = true →
  ∃ ctx, new_XMLSignatureContext doc = Ret ctx ∧
    Forall2 (node_shown enforce grace ctx) signatures (signatureValidationResults d) ∧
    (validSignatureSignsWholeDocument d = true →
     ∃ sig ref, Ret sig ∈ signatures ∧ ref ∈ xmlReferences sig ∧ refers_to_root (getIdAttrVal (documentElement doc)) ref).
Proof.
  unfold extendedResultValidation, validate_document, wrapped, validate_signatures. mstep.
  destruct (new_XMLSignatureContext doc) as [ctx|e] eqn:Hctx; [|done].
  destruct (each _ fuel ctx signatures s) as [[[rs|e] s1]|] eqn:He; [|done|done]. intros [= <- _] Hc.
  apply format_complete in Hc as [_ Hc]. apply each_shown in He; [|done]. rewrite conclusion_results.
  exists ctx. split; [done|]. split; [done|]. intros (r & Hr & _ & Hcov)%format_whole.
  apply list_elem_of_lookup in Hr as [i Hr]. eapply Forall2_lookup_r in He as (node & Hn & Hshown); [|exact Hr].
  destruct Hshown as (sig & data & t & t' & -> & Hsig & Hd & Hx). destruct Hx as (_ & _ & _ & _ & _ & _ & _ & _ & _ & _ & Hcovers).
  rewrite Hcovers in Hcov. apply signature_data_of in Hd as (sig' & Hsig' & _ & Hrefs & _). injection Hsig' as Hsig'.
  apply Hrefs in Hcov as (ref & Href & Hroot). rewrite <- Hsig' in Href. exists sig, ref. split; [by eapply list_elem_of_lookup_2|]. split; [done|].
  unfold new_XMLSignatureContext in Hctx. destruct (canonicalBytes doc); [|done]. by injection Hctx as <-.
Qed.
End Document.

(** ** Examples *)
Section Demo.
#[local] Instance unit_ids : IdStore unit := {| get_ids := λ _, ∅; put_ids := λ _ s, s |}.
(** A signature by certificate 1 with one reference. *)
Definition demo_signature (uri : string) : SignatureElement :=
  mkSigElement [mkReference [] uri] None (Some (mkKeyInfo (Ret None) (Ret (Some demo_target)) [[Ret demo_target]])) "rsa" (Ret "value")
    (Ret "info") [] [] (λ _, Throw NullPointerException).
Definition demo_check (_ : SignatureElement) (key : PublicKey) : M unit bool := mret (Z.eqb key 1).
Definition demo_digests (_ : option string) : outcome DigestAlgorithm := Throw NullPointerException.
Definition no_digest (_ : DigestAlgorithm) (_ : X509Certificate) : string := "".
Definition no_stamp (_ _ : string) : outcome TimeStampData := Throw NullPointerException.
Definition demo_uris (_ : option JWSAlgorithm) : outcome string := Ret "".
Definition demo_subject (_ : X509Certificate) : string := "CN=1".
Definition xml_message (e : exn) : string := match e with RuntimeException m => m | _ => "" end.
Definition xml_no_order (A : Type) (l : list (string * A)) : list (string * A) := l.
Definition no_xml_data (_ : SignatureData) : MF unit (list SignatureSVTData) := mret [].
Definition xml_content (_ : SignatureElement) (_ : nat) : M unit string := mret "part".
Definition xml_parse (_ : string) : outcome Document := Throw (IOException "").
Notation xml_now := (newDate (ValidationEnv := demo_with_crl)) (only parsing).
Notation xml_library := (λ c l, validate (SC := demo_checker) (certVerify demo_crypto) demo_pkix None [demo_ca] true no_threads c l
  (None : option (list X509CRL))) (only parsing).
(** A document whose root has no identifier, with an element that has the identifier null. *)
Definition null_document : Document :=
  mkDocument (mkElement 0 []) None (Some "order"%string) [mkElement 1 [("Id", "null")]] (Ret "order"%string).
Definition xml_answer (uri : string) : option (outcome (FormatDocumentResult SignatureElement) * unit) :=
  extendedResultValidation (FP := PkixFormatPolicy xml_now xml_message true 0) xml_message demo_check demo_digests no_digest
    (certVerify demo_crypto) demo_uris no_stamp (Some xml_library) xml_library "policy" [] demo_subject None no_xml_data xml_parse
    xml_no_order xml_content 1 null_document [Ret (demo_signature uri)] tt.
Definition xml_result (uri : string) : FormatDocumentResult SignatureElement :=
  match xml_answer uri with Some (Ret d, _) => d | _ => format_conclusion [] end.
(** A signature of the element null is counted as one of the whole document, one of another
    element is not. *)
Example null_counts_as_root :
  validSignatureSignsWholeDocument (xml_result "#null") = true ∧ validSignatureSignsWholeDocument (xml_result "#part") = false.
Proof. vm_compute. done. Qed.
Lemma xml_document_success_witness :
  completeSuccess (xml_result "#null") = true ∧
  ∃ ctx, new_XMLSignatureContext null_document = Ret ctx ∧
    Forall2 (node_shown xml_now demo_check demo_digests no_digest (Some xml_library) xml_parse xml_no_order xml_content true 0 ctx)
      [Ret (demo_signature "#null")] (signatureValidationResults (xml_result "#null")) ∧
    (validSignatureSignsWholeDocument (xml_result "#null") = true →
     ∃ sig ref, Ret sig ∈ [Ret (demo_signature "#null")] ∧ ref ∈ xmlReferences sig ∧ refers_to_root None ref).
Proof.
  split; [vm_compute; reflexivity|].
  apply (xml_document_success xml_now xml_message demo_check demo_digests no_digest (certVerify demo_crypto) demo_uris no_stamp
    (Some xml_library) xml_library "policy" [] demo_subject no_xml_data xml_parse xml_no_order xml_content true 0 1 null_document
    [Ret (demo_signature "#null")] tt (xml_result "#null") tt); vm_compute; reflexivity.
Defined.
End Demo.
