(* ===== verification/JoseVerifyProps.v ===== *)
(** * What successful JSON signatures establish

    From the conclusion of a JWS document back to its signatures, and the paths that the
    certificate validator rejects and both formats accept. *)
From Stdlib Require Import ZArith Lia Ascii String.
From stdpp Require Import base gmap strings list.
From S2P Require Import Prelude CertModel Algorithms.
From S2P Require Import Validity PathValidator PdfContext Timestamps PdfVerify PdfVerifyProps PdfSvt PdfDocument SigVerify SvtTokens XmlContext XmlVerify.
From S2P Require Import JoseVerify SigVerifyProps XmlVerifyProps.

(** ** Reading a document *)
Section Reading.
Context (parseCompact : string → option Payload → option JWSObject) (parseJSON : string → option JWSObjectJSON).
Context (withPayload : JWSObjectJSON → Payload → option JWSObjectJSON).
Context (family : JWSAlgorithm → Family) (newVerifier : Family → PublicKey → outcome unit).
Context (getUri : option JWSAlgorithm → outcome string).
Notation read := (getJOSEDocumentSignatureData parseCompact parseJSON withPayload family newVerifier getUri).
Notation data_of := (signature_of family newVerifier getUri).
Lemma read_chain_all l certs : read_chain l = Ret certs → l = map Ret certs.
Proof.
  revert certs. induction l as [|[c|e] l IH]; intros certs; simpl; [by intros [= <-]| |done]. mstep.
  destruct (read_chain l) as [cs|e]; [|done]. intros [= <-]. simpl. f_equal. by apply IH.
Qed.
(** The data of a signature that verifies. *)
Definition verified_by (sig : JWSSignature) (cert : X509Certificate) (certs : list X509Certificate) : Prop :=
  headerX509CertChain (jwsHeader sig) = Some (map Ret (cert :: certs)) ∧ jwsVerify sig (publicKey cert) = Ret true ∧
  ∃ uri f, getUri (Some (headerAlgorithm (jwsHeader sig))) = Ret uri ∧ family (headerAlgorithm (jwsHeader sig)) = f ∧
    f ≠ Other_family ∧ newVerifier f (publicKey cert) = Ret tt.
Lemma data_verified isDetached pl u sig :
  isVerified (data_of isDetached pl u sig) = true →
  ∃ cert certs, verified_by sig cert certs ∧ joseSigner (data_of isDetached pl u sig) = Some cert ∧
    joseChain (data_of isDetached pl u sig) = Some (cert :: certs) ∧ payload (data_of isDetached pl u sig) = Some pl.
Proof.
  unfold signature_of, getVerifierAndCerts, verified_by. mstep. destruct (getUri _) as [uri|e]; [|done].
  destruct (headerX509CertChain (jwsHeader sig)) as [l|]; [|done]. destruct (read_chain l) as [certs|e] eqn:Hl; [|done].
  apply read_chain_all in Hl as ->. destruct certs as [|cert certs]; [done|].
  destruct (family (headerAlgorithm (jwsHeader sig))) eqn:Hf; [| |done].
  all: destruct (newVerifier _ (publicKey cert)) as [[]|e] eqn:Hn; [|done].
  all: destruct (jwsVerify sig (publicKey cert)) as [[]|e] eqn:Hj; [|done|done].
  all: intros _; exists cert, certs; split; [|done]; split; [done|]; split; [done|]; eauto 10.
Qed.
(** The payload and the signatures that a document is read as. *)
Definition jws_of (document : string) (detachedPayload : option Payload) (pl : Payload) (sigs : list JWSSignature) : Prop :=
  (∃ o, parseCompact document detachedPayload = Some o ∧ pl = compactPayload o ∧ sigs = [compactSignature o]) ∨
  (∃ o o', parseJSON document = Some o ∧ match detachedPayload with Some p => withPayload o p | None => Some o end = Some o' ∧
     pl = jsonPayload o' ∧ sigs = jsonSignatures o').
Lemma read_document document detachedPayload :
  read document detachedPayload ≠ [] →
  ∃ pl sigs, jws_of document detachedPayload pl sigs ∧
    ∃ b us, length us = length sigs ∧ read document detachedPayload = zip_with (λ u sig, data_of b pl u sig) us sigs.
Proof.
  unfold getJOSEDocumentSignatureData, jws_of. intros Hne.
  set (b := match detachedPayload with Some _ => true | None => false end) in *.
  destruct (parseJSON document ≫= _) as [o'|] eqn:Ho.
  - apply bind_Some in Ho as (o & Ho & Ho'). exists (jsonPayload o'), (jsonSignatures o'). split; [right; eauto 10|].
    exists b, (map jwsUnprotected (jsonSignatures o')). rewrite length_map. split; [done|].
    unfold getSignatureDataFromJWSJSONObject. clear. induction (jsonSignatures o') as [|sig l IH]; simpl; [done|by f_equal].
  - destruct (parseCompact document detachedPayload) as [o|]; [|done].
    exists (compactPayload o), [compactSignature o]. split; [left; eauto|]. by exists b, [None].
Qed.
End Reading.

(** ** The signatures of a document *)
Section Jose.
Context {S : Type} (newDate : M S Z) (getMessage : exn → string).
Context (readComponent readEncoded : string → option (option (option (list (option string))))) (decode64 : string → outcome string).
Context (parseDate : string → option Z) (encodeURL : string → string).
Context (stampData : string → string → outcome TimeStampData).
Context (certVerify : X509Certificate → PublicKey → bool) (getUri : option JWSAlgorithm → outcome string).
Context (certificateValidator : option (X509Certificate → option (list X509Certificate) → MF S ValidateOutcome)).
Context (tsValidator : X509Certificate → option (list X509Certificate) → MF S ValidateOutcome).
Context (tsPolicy : string) (hashBlackList : list string) (subjectName : X509Certificate → string).
Context (svtData : JOSESignatureData → MF S (list SignatureSVTData)).
Notation directly FP := (jose_directly (FP := FP) getMessage readComponent readEncoded decode64 parseDate encodeURL stampData
  certificateValidator tsValidator tsPolicy hashBlackList subjectName).
Notation extended FP := (jose_extendedResultValidation (FP := FP) getMessage readComponent readEncoded decode64 parseDate encodeURL
  stampData certVerify getUri certificateValidator tsValidator tsPolicy hashBlackList subjectName None svtData).
Lemma data_success data :
  isSuccess (validateSignatureData getMessage data) = true →
  ∃ cert pl, joseSigner data = Some cert ∧ payload data = Some pl ∧ isVerified data = true ∧
    pristine (validateSignatureData getMessage data) ∧
    signerCertificate (validateSignatureData getMessage data) = Some cert ∧
    signatureCertificateChain (validateSignatureData getMessage data) = joseChain data ∧
    signedDocument (validateSignatureData getMessage data) = Some (payloadBytes pl).
Proof.
  unfold validateSignatureData. destruct (payload data) as [pl|]; [|by intros [=]%is_success].
  destruct (joseSigner data) as [cert|]; [|by intros [=]%is_success].
  destruct (isVerified data); [|by intros [=]%is_success]. intros _. exists cert, pl. do 6 (split; [done|]). done.
Qed.
(** What a success is evidence of. *)
Definition jose_shown (enforce : bool) (grace : Z) (data : JOSESignatureData) (r : SigValResult JoseFields) : Prop :=
  ∃ cert pl vc path, joseSigner data = Some cert ∧ payload data = Some pl ∧ isVerified data = true ∧
    certificateValidator = Some vc ∧ certificateValidationResult r = Some path ∧ path_given vc cert (joseChain data) path ∧
    path_passed newDate enforce grace (timeValidationResults r) path ∧ signedDocument r = Some (payloadBytes pl).
Lemma jose_directly_success enforce grace data s r s' :
  directly (PkixFormatPolicy newDate getMessage enforce grace) data s = Some (Ret r, s') → isSuccess r = true →
  jose_shown enforce grace data r.
Proof.
  unfold jose_directly. mstep. set (r0 := validateSignatureData getMessage data).
  destruct (check_signer getMessage certificateValidator r0 s) as [[[r1|e] s1]|] eqn:H1; [|done|done].
  destruct (jose_stamps _ _ _ _ _ _) as [stamps|e]; [|by intros [= <- _] [=]%is_success].
  destruct (stamp_times _ _ _ _ _ s1) as [[[times|e] s2]|]; [|done|done]. intros H2 Hs.
  eapply (steps_success newDate getMessage enforce grace certificateValidator
    (λ r, with_document true (signedDocument r) (is_ades data) false (getClaimedSigningTime parseDate (joseHeader data)) r)) in H2
    as (Hs0 & _ & vc & cert & path & c & Hv & Hc & Hr1 & Hg & Hok & ->); [|exact H1|done| |done].
  - apply data_success in Hs0 as (cert' & pl & Hd & Hpl & Hver & _ & Hc' & Hch & Hdoc). fold r0 in Hc', Hch, Hdoc.
    rewrite Hc' in Hc. injection Hc as ->. rewrite Hch in Hg. exists cert, pl, vc, path. rewrite Hr1.
    do 7 (split; [done|]). exact Hdoc.
  - intros Hs0. by apply data_success in Hs0 as (? & ? & _ & _ & _ & ? & _).
Qed.
Lemma jose_each_shown enforce grace fuel l s rs s' :
  jose_each (FP := PkixFormatPolicy newDate getMessage enforce grace) getMessage readComponent readEncoded decode64 parseDate
    encodeURL stampData certVerify getUri certificateValidator tsValidator tsPolicy hashBlackList subjectName None svtData fuel l s
  = Some (Ret rs, s') → (∀ r, r ∈ rs → isSuccess r = true) → Forall2 (jose_shown enforce grace) l rs.
Proof.
  revert s rs s'. induction l as [|data l IH]; intros s rs s'; cbn [jose_each]; [intros [= <- _] _; constructor|]. mstep.
  destruct (jose_validateSignature _ _ _ _ _ _ _ _ _ _ _ _ _ _ _ _ fuel data s) as [[[r|e] s1]|] eqn:Hr; [|done|done].
  match goal with |- context [match ?m s1 with _ => _ end] => destruct (m s1) as [[[rest|e] s2]|] eqn:Hl; [|done|done] end.
  intros [= <- _] Hs. constructor.
  - unfold jose_validateSignature in Hr. mstep. simpl in Hr. eapply jose_directly_success; [exact Hr|]. apply Hs. left.
  - eapply IH; [exact Hl|]. intros x Hx. apply Hs. by right.
Qed.
(** C5. From the bytes of a JWS to its signatures: without tokens and with the PKIX policy,
    when the conclusion is a complete success the document is read as a payload with
    signatures, in the compact or in the JSON serialization, and every one of them verifies
    with the first certificate of its own header; the certificate validator gave a path for
    that certificate, returned or with an exception, whose statuses are all VALID or
    REVOKED, and the document of the result is the payload. *)
Theorem jose_document_success parseCompact parseJSON withPayload family newVerifier enforce grace fuel document detachedPayload s d s' :
  extended (PkixFormatPolicy newDate getMessage enforce grace) fuel
    (getJOSEDocumentSignatureData parseCompact parseJSON withPayload family newVerifier getUri document detachedPayload) s
  = Some (Ret d, s') → completeSuccess d = true →
  ∃ pl sigs, jws_of parseCompact parseJSON withPayload document detachedPayload pl sigs ∧ sigs ≠ [] ∧
    Forall2 (λ sig r, ∃ cert certs vc path, verified_by family newVerifier getUri sig cert certs ∧ certificateValidator = Some vc ∧
      certificateValidationResult r = Some path ∧ path_given vc cert (Some (cert :: certs)) path ∧
      path_passed newDate enforce grace (timeValidationResults r) path ∧ signedDocument r = Some (payloadBytes pl))
      sigs (signatureValidationResults d).
Proof.
  unfold jose_extendedResultValidation, jose_validate. mstep.
  set (l := getJOSEDocumentSignatureData _ _ _ _ _ _ _ _).
  match goal with |- context [match ?m s with _ => _ end] => destruct (m s) as [[[rs|e] s1]|] eqn:He; [|done|done] end.
  intros [= <- _] Hc. rewrite conclusion_results. apply format_complete in Hc as [Hne Hc]. apply jose_each_shown in He; [|done].
  destruct (read_document parseCompact parseJSON withPayload family newVerifier getUri document detachedPayload)
    as (pl & sigs & Hj & b & us & Hlen & Hl).
  { fold l. intros El. rewrite El in He. by inversion He; subst. }
  fold l in Hl. exists pl, sigs. split; [done|]. split.
  { intros ->. rewrite Hl in He. destruct us; [|done]. by inversion He; subst. }
  rewrite Hl in He. clear -He Hlen. revert us rs Hlen He. induction sigs as [|sig sigs IH]; intros us rs Hlen He.
  { destruct us; [|done]. inversion He; subst. constructor. }
  destruct us as [|u us]; [done|]. simpl in He. inversion He as [|x r xs rs' Hx Hxs]; subst. constructor; [|by apply (IH us); [injection Hlen|]].
  destruct Hx as (cert & pl' & vc & path & Hcert & Hpl & Hver & Hvc & Hcvr & Hg & Hok & Hdoc).
  apply data_verified in Hver as (cert' & certs & Hby & Hc' & Hch & Hp'). rewrite Hc' in Hcert. injection Hcert as ->.
  rewrite Hp' in Hpl. injection Hpl as ->. rewrite Hch in Hg. by exists cert, certs, vc, path.
Qed.
(** The same as [rejected_path_passes] for a JWS. *)
Lemma jose_rejected_path_passes grace vc data cert pl cause path l stamps times s s1 s2 :
  joseSigner data = Some cert → payload data = Some pl → isVerified data = true →
  vc cert (joseChain data) s = Some (Ret (VExtended cause path), s1) → has_path (Some path) = true → judged_path path l →
  jose_stamps readComponent readEncoded decode64 encodeURL stampData data = Ret stamps →
  stamp_times tsValidator tsPolicy hashBlackList subjectName stamps s1 = Some (Ret times, s2) →
  ∃ r, jose_directly (FP := PkixFormatPolicy newDate getMessage true grace) getMessage readComponent readEncoded decode64 parseDate
         encodeURL stampData (Some vc) tsValidator tsPolicy hashBlackList subjectName data s = Some (Ret r, s2) ∧
    isSuccess r = true ∧ exception r = None ∧
    validationPolicyResultList r = [mkClaims SIG_VALIDATION_POLICY_PKIX_VALIDATION PASSED "OK"].
Proof.
  intros Hc Hp Hv Hvc Hpath Hj Hst Hts. set (r0 := validateSignatureData getMessage data).
  assert (Hs : isSuccess r0 = true) by (unfold r0, validateSignatureData; by rewrite Hp, Hc, Hv).
  pose proof (data_success data Hs) as (cert' & pl' & Hc' & _ & _ & Hpri & Hsc & Hch & _). rewrite Hc in Hc'. injection Hc' as <-.
  destruct (failed_path_passes newDate getMessage grace vc
    (λ r, with_document true (signedDocument r) (is_ades data) false (getClaimedSigningTime parseDate (joseHeader data)) r)
    times r0 cert cause path l s s1 s2) as (Hck & r & Hf & Hr); try done.
  { unfold r0. by rewrite Hch. }
  exists r. split; [|done]. unfold jose_directly. mstep. fold r0. rewrite Hck, Hst, Hts. exact Hf.
Qed.
End Jose.

(** ** Paths that the validator rejects *)
Section Rejected.
Context {S : Type} `{IdStore S} (newDate : M S Z) (getMessage : exn → string).
Context (checkSignatureValue : SignatureElement → PublicKey → M S bool).
Context (digests : option string → outcome DigestAlgorithm) (certDigest : DigestAlgorithm → X509Certificate → string).
Context (readComponent readEncoded : string → option (option (option (list (option string))))) (decode64 : string → outcome string).
Context (parseDate : string → option Z) (encodeURL : string → string) (stampData : string → string → outcome TimeStampData).
Context (vc tsValidator : X509Certificate → option (list X509Certificate) → MF S ValidateOutcome).
Context (tsPolicy : string) (hashBlackList : list string) (subjectName : X509Certificate → string).
Definition accepted {A} (r : SigValResult A) : Prop :=
  isSuccess r = true ∧ exception r = None ∧
  validationPolicyResultList r = [mkClaims SIG_VALIDATION_POLICY_PKIX_VALIDATION PASSED "OK"].
(** C11. A path that the certificate validator rejects is accepted for XML and for JSON
    signatures: with the PKIX policy that enforces the current time, when the validator
    throws with a path whose statuses are VALID or REVOKED, a signature whose value verifies
    is a success with the policy passed and no exception, whatever the validator threw for;
    provided that its XAdES properties, if it is an XML signature and has them, can be parsed
    and name the certificate, that the tokens in the header of a JSON signature can be read,
    and that looking at its timestamps ends, whatever they say.  So a certificate that is
    revoked now is accepted under the policy that is to require that it is not, and so is one
    without a status, or whose status has a signature that was not verified. *)
Theorem rejected_path_accepted grace cert chain cause path l s s' :
  vc cert chain s = Some (Ret (VExtended cause path), s') → has_path (Some path) = true → judged_path path l →
  (∀ sig data p times s0 s1, dataSigner data = Some cert → dataChain data = chain →
     new_XAdESObjectParser sig (refDataMap data) = Ret p → xades_fits digests certDigest p cert →
     stamp_times tsValidator tsPolicy hashBlackList subjectName
       (map (stamp_over stampData sig) (default [] (signatureTimeStampDataList p))) s' = Some (Ret times, s1) →
     checkSignatureValue sig (publicKey cert) s0 = (Ret true, s) →
     ∃ r, validate_directly (FP := PkixFormatPolicy newDate getMessage true grace) getMessage checkSignatureValue digests certDigest
            stampData (Some vc) tsValidator tsPolicy hashBlackList subjectName sig data s0 = Some (Ret r, s1) ∧ accepted r) ∧
  (∀ data pl stamps times s1, joseSigner data = Some cert → joseChain data = chain → payload data = Some pl → isVerified data = true →
     jose_stamps readComponent readEncoded decode64 encodeURL stampData data = Ret stamps →
     stamp_times tsValidator tsPolicy hashBlackList subjectName stamps s' = Some (Ret times, s1) →
     ∃ r, jose_directly (FP := PkixFormatPolicy newDate getMessage true grace) getMessage readComponent readEncoded decode64 parseDate
            encodeURL stampData (Some vc) tsValidator tsPolicy hashBlackList subjectName data s = Some (Ret r, s1) ∧ accepted r).
Proof.
  intros Hv Hp Hj. split.
  - intros sig data p times s0 s1 Hc <- Hx Hf Hts Hs. by eapply rejected_path_passes.
  - intros data pl stamps times s1 Hc <- Hpl Hver Hst Hts. by eapply jose_rejected_path_passes.
Qed.
End Rejected.

(** ** Examples *)
Section Demo.
#[local] Instance unit_ids : IdStore unit := {| get_ids := λ _, ∅; put_ids := λ _ s, s |}.
(** The OCSP responses say that certificates were revoked at 30. *)
Definition demo_revoking : ValidationEnv unit := demo_validity_env
  (λ serial, demo_response (demo_cert 2 (ExtValue tt) ExtAbsent) 2 serial (RevokedStatus 30 (Ret 1%Z))) (Ret demo_ca_crl).
Notation revoking_library := (λ c l, validate (SC := basicChecker (H := demo_revoking) demo_crypto 1) (certVerify demo_crypto)
  demo_pkix None [demo_ca] true no_threads c l (None : option (list X509CRL))) (only parsing).
Definition revoked_path : PathValidationResult :=
  match revoking_library demo_target None tt with Some (Ret (VExtended _ p), _) => p | _ => empty_result end.
Example revoked_path_status : (map validity <$> validationStatusList revoked_path) = Some [REVOKED].
Proof. vm_compute. reflexivity. Qed.
Definition revoked_data : SignatureData := mkSignatureData (demo_signature "") ∅ true None "" "" (Some demo_target) None.
Definition no_component (_ : string) : option (option (option (list (option string)))) := None.
Definition demo_decode (s : string) : outcome string := Ret s.
Definition no_date (_ : string) : option Z := None.
Definition demo_payload : Payload := mkPayload "order" "b3JkZXI".
Definition demo_jws_header : JWSHeader := mkJWSHeader RS256 (Some [Ret demo_target]) None "e30".
Definition demo_jws : JWSSignature := mkJWSSignature demo_jws_header None "value" (λ key, Ret (Z.eqb key 1)).
Definition revoked_jws : JOSESignatureData :=
  mkJoseData false true None (Some demo_jws_header) (Some "rs256"%string) None (Some demo_payload) (Some "value"%string)
    (Some demo_target) None.
Lemma rejected_path_accepted_witness :
  (map validity <$> validationStatusList revoked_path) = Some [REVOKED] ∧
  (∃ r, validate_directly (FP := PkixFormatPolicy (mret 50%Z) xml_message true 0) xml_message demo_check demo_digests no_digest
          no_stamp (Some revoking_library) revoking_library "policy" [] demo_subject (demo_signature "") revoked_data tt
        = Some (Ret r, tt) ∧ accepted r) ∧
  (∃ r, jose_directly (FP := PkixFormatPolicy (mret 50%Z) xml_message true 0) xml_message no_component no_component demo_decode no_date
          (λ s, s) no_stamp (Some revoking_library) revoking_library "policy" [] demo_subject revoked_jws tt = Some (Ret r, tt) ∧ accepted r).
Proof.
  split; [vm_compute; reflexivity|].
  destruct (rejected_path_accepted (mret 50%Z) xml_message demo_check demo_digests no_digest no_component no_component demo_decode no_date
    (λ s, s) no_stamp revoking_library revoking_library "policy" [] demo_subject 0 demo_target None
    (RuntimeException "Certificate REVOKED for ") revoked_path (default [] (validationStatusList revoked_path)) tt tt) as [Hx Hj].
  - vm_compute. reflexivity.
  - vm_compute. reflexivity.
  - split; [vm_compute; reflexivity|]. intros st Hst. vm_compute in Hst.
    apply elem_of_cons in Hst as [->|[]%not_elem_of_nil]. by right.
  - split; [eapply Hx; [reflexivity|reflexivity|vm_compute; reflexivity|by left|vm_compute; reflexivity|reflexivity]|].
    apply (Hj revoked_jws demo_payload [] [] tt); vm_compute; reflexivity.
Defined.
Definition demo_compact (_ : string) (_ : option Payload) : option JWSObject := Some (mkJWSObject demo_payload demo_jws).
Definition no_json (_ : string) : option JWSObjectJSON := None.
Definition keep_json (o : JWSObjectJSON) (_ : Payload) : option JWSObjectJSON := Some o.
Definition demo_family (_ : JWSAlgorithm) : Family := RSA_family.
Definition demo_verifier (_ : Family) (_ : PublicKey) : outcome unit := Ret tt.
Definition no_jose_data (_ : JOSESignatureData) : MF unit (list SignatureSVTData) := mret [].
Notation good_library := (λ c l, validate (SC := demo_checker) (certVerify demo_crypto) demo_pkix None [demo_ca] true no_threads c l
  (None : option (list X509CRL))) (only parsing).
Definition jose_answer : option (outcome (FormatDocumentResult JoseFields) * unit) :=
  jose_extendedResultValidation (FP := PkixFormatPolicy (mret 50%Z) xml_message true 0) xml_message no_component no_component demo_decode
    no_date (λ s, s) no_stamp (certVerify demo_crypto) demo_uris (Some good_library) good_library "policy" [] demo_subject None no_jose_data 1
    (getJOSEDocumentSignatureData demo_compact no_json keep_json demo_family demo_verifier demo_uris "jws" None) tt.
Definition jose_result : FormatDocumentResult JoseFields :=
  match jose_answer with Some (Ret d, _) => d | _ => format_conclusion [] end.
Lemma jose_document_success_witness :
  completeSuccess jose_result = true ∧
  ∃ pl sigs, jws_of demo_compact no_json keep_json "jws" None pl sigs ∧ sigs ≠ [] ∧
    Forall2 (λ sig r, ∃ cert certs vc path, verified_by demo_family demo_verifier demo_uris sig cert certs ∧
      Some (good_library : X509Certificate → option (list X509Certificate) → MF unit ValidateOutcome) = Some vc ∧
      certificateValidationResult r = Some path ∧ path_given vc cert (Some (cert :: certs)) path ∧
      path_passed (S := unit) (mret 50%Z) true 0 (timeValidationResults r) path ∧ signedDocument r = Some (payloadBytes pl))
      sigs (signatureValidationResults jose_result).
Proof.
  split; [vm_compute; reflexivity|].
  apply (jose_document_success (mret 50%Z) xml_message no_component no_component demo_decode no_date (λ s, s) no_stamp
    (certVerify demo_crypto) demo_uris (Some good_library) good_library "policy" [] demo_subject no_jose_data
    demo_compact no_json keep_json demo_family demo_verifier true 0 1 "jws" None tt jose_result tt); vm_compute; reflexivity.
Defined.
End Demo.
