(* ===== verification/SvtTokensProps.v ===== *)
(** * The token that an XML or JSON signature is compared with

    Which token is chosen, what was asked of it, and what is compared. *)
From Stdlib Require Import ZArith Lia Ascii String.
From stdpp Require Import base gmap strings list.
From S2P Require Import Prelude CertModel Algorithms.
From S2P Require Import Validity PathValidator PdfContext Timestamps PdfVerify PdfSvt PdfSvtProps PdfDocument SvtTokens.

Definition issue_key (jwt : SignedJWT) : Z := default 0%Z (getSVTIssueDate jwt).
Lemma compare_issue_key x y : is_Some (getSVTIssueDate x) → is_Some (getSVTIssueDate y) →
  Z.ltb (compareSVTIssueDate x y) 0 = Z.ltb (issue_key y) (issue_key x).
Proof. unfold compareSVTIssueDate, issue_key. intros [d1 ->] [d2 ->]. simpl. by destruct (Z.ltb d2 d1). Qed.
(** The token found is one with the latest date. *)
Lemma most_recent_jwt l jwt : getMostRecentJwt l = Ret (Some jwt) →
  jwt ∈ l ∧ ∀ j, j ∈ l → (issue_key j ≤ issue_key jwt)%Z.
Proof.
  unfold getMostRecentJwt. destruct (Nat.leb_spec 2 (length l)) as [Hlen|Hlen].
  - destruct (existsb _ l) eqn:He; [done|]. cbn [andb].
    assert (Hd : Forall (λ j, is_Some (getSVTIssueDate j)) l).
    { apply Forall_forall. intros j Hj. destruct (getSVTIssueDate j) eqn:E; [eauto|]. exfalso.
      apply not_true_iff_false in He. apply He, existsb_exists. exists j. rewrite <- list_elem_of_In, E. done. }
    rewrite (small_sort_head compareSVTIssueDate (λ j, is_Some (getSVTIssueDate j)) issue_key compare_issue_key) by done.
    intros [= H]. unfold first_greatest in H. apply List.find_some in H as [Hin%list_elem_of_In Hmax]. split; [done|].
    intros j Hj. rewrite forallb_forall in Hmax. apply Z.leb_le, Hmax. by apply list_elem_of_In.
  - destruct l as [|x [|y l]]; [done| |simpl in Hlen; lia]. intros [= <-]. split; [left|].
    intros j [->|[]%not_elem_of_nil]%elem_of_cons. lia.
Qed.

Section Tokens.
Context {S : Type} (newDate : M S Z).
Context (svaCertVerifier : X509Certificate → option (list X509Certificate) → MF S ValidateOutcome).
Context (supportingCertificates : list X509Certificate).
Context (newVerifier : PublicKey → outcome unit) (jwtVerify : SignedJWT → PublicKey → outcome bool).
Context (getAlgoParams : JWSAlgorithm → outcome (option string)) (digests : option string → outcome DigestAlgorithm).
Context (certKeyId : JWSAlgorithm → X509Certificate → outcome string).
Context (hash64 : DigestAlgorithm → string → outcome string).
Notation verified := (verified_tokens newDate svaCertVerifier supportingCertificates newVerifier jwtVerify getAlgoParams digests certKeyId).
Notation collect := (collectSignatureSVTData digests hash64).
Notation token_data := (format_SignatureSVTData newDate svaCertVerifier supportingCertificates newVerifier jwtVerify getAlgoParams digests
  certKeyId hash64).
(** What was asked of a token: its certificate is found by its key, the validator returns
    for it, and the verification does not throw. *)
Definition token_asked (jwt : SignedJWT) : Prop :=
  ∃ cert certs p s1 s2 s3,
    getAllJwtCerts supportingCertificates certKeyId (jwtAlgorithm jwt) (keyID jwt) (getJWTCerts (x509CertChain jwt)) = Some (cert, certs) ∧
    svaCertVerifier cert (Some certs) s1 = Some (Ret (VResult p), s2) ∧
    SVAUtils_verifySVA newDate newVerifier jwtVerify getAlgoParams digests jwt (publicKey cert) s2 = (Ret tt, s3).
Lemma verify_asked jwt s s' :
  verifyJWT newDate svaCertVerifier supportingCertificates newVerifier jwtVerify getAlgoParams digests certKeyId jwt s = Some (Ret tt, s') →
  token_asked jwt.
Proof.
  unfold verifyJWT. destruct (getAllJwtCerts _ _ _ _ _) as [[cert certs]|] eqn:Hc; mstep; [|done].
  destruct (svaCertVerifier cert (Some certs) s) as [[[[p|m|cause p]|e] s1]|] eqn:Hv; try done.
  intros [= Hs]. by exists cert, certs, p, s, s1, s'.
Qed.
Lemma verified_asked tokens s js s' : verified tokens s = Some (Ret js, s') →
  ∀ j, j ∈ js → Ret j ∈ tokens ∧ token_asked j.
Proof.
  revert s js. induction tokens as [|t tokens IH]; intros s js; cbn [verified_tokens]; [by intros [= <- _] j ?%elem_of_nil|].
  assert (IH' : ∀ s1 rest, verified tokens s1 = Some (Ret rest, s') → ∀ j, j ∈ rest → Ret j ∈ t :: tokens ∧ token_asked j).
  { intros s1 rest Hr j Hj. destruct (IH _ _ Hr j Hj). split; [by right|done]. }
  mstep. destruct t as [jwt|e].
  - destruct (verifyJWT _ _ _ _ _ _ _ _ jwt s) as [[[[]|e] s1]|] eqn:Hj; [| |done];
      destruct (verified tokens s1) as [[[rest|e'] s2]|] eqn:Hr; try done; intros [= <- <-].
    + intros j [->|Hin]%elem_of_cons; [|by eapply IH']. split; [left|]. by eapply verify_asked.
    + by eapply IH'.
  - destruct (verified tokens s) as [[[rest|e'] s2]|] eqn:Hr; try done. intros [= <- <-]. by eapply IH'.
Qed.
(** The claims of a token about a signature. *)
Definition claims_about (jwt : SignedJWT) (signatureBytes signedBytes : outcome string) (d : SignatureSVTData) : Prop :=
  ∃ set claims md b t, jwtClaimsSet jwt = Ret set ∧ getSVTClaims set = Ret claims ∧ digests (hash_algo claims) = Ret md ∧
    signatureBytes = Ret b ∧ signedBytes = Ret t ∧
    hash64 md b = Ret (sig_hash (signatureReference d)) ∧ hash64 md t = Ret (sb_hash (signatureReference d)) ∧
    signatureClaims d ∈ svtSig claims ∧ sig_hash (sig_ref (signatureClaims d)) = sig_hash (signatureReference d).
Lemma collect_spec o id sb tbs refs chain d : collect o id sb tbs refs chain = Ret d →
  ∃ jwt, o = Some jwt ∧ svtToken d = jwt ∧ claims_about jwt sb tbs d.
Proof.
  unfold collectSignatureSVTData, claims_about. destruct o as [jwt|]; [|done]. mstep.
  destruct (jwtClaimsSet jwt) as [set|e] eqn:Hset; [|done]. destruct (getSVTClaims set) as [claims|e] eqn:Hc; [|done].
  destruct (digests (hash_algo claims)) as [md|e] eqn:Hd; [|done]. destruct tbs as [t|e]; [|done]. destruct sb as [b|e]; [|done].
  destruct (hash64 md b) as [hb|e] eqn:Hb; [|done]. destruct (hash64 md t) as [ht|e] eqn:Ht; [|done].
  destruct (findFirst _ (svtSig claims)) as [c|] eqn:Hf; [|done]. destruct (refs md) as [r|e]; [|done].
  destruct chain as [certs|]; [|done]. intros [= <-]. exists jwt. split; [done|]. split; [done|].
  apply findFirst_Some in Hf as [Heq%String.eqb_eq Hin]. exists set, claims, md, b, t. do 8 (split; [done|]). done.
Qed.
(** C12. The token of an XML or JSON signature: what is given to the token validator is one
    item.  Its token is one of those of the signature that parsed and for which the
    verification did not throw, with the latest issue time of these when there are less
    than 32, and the claims in it are claims of that token with the hash of the signature
    value.  A signature of which no token verifies is an exception, not an empty list. *)
Theorem token_of_signature tokens id signatureBytes signedBytes refs chain s js s' :
  verified tokens s = Some (Ret js, s') →
  (js = [] → token_data tokens id signatureBytes signedBytes refs chain s = Some (Throw NullPointerException, s')) ∧
  ∀ l s2, token_data tokens id signatureBytes signedBytes refs chain s = Some (Ret l, s2) →
    ∃ d, l = [d] ∧ svtToken d ∈ js ∧ (length js < 32 → ∀ j, j ∈ js → (issue_key j ≤ issue_key (svtToken d))%Z) ∧
      Ret (svtToken d) ∈ tokens ∧ token_asked (svtToken d) ∧ claims_about (svtToken d) signatureBytes signedBytes d.
Proof.
  intros Hv. unfold format_SignatureSVTData. mstep. rewrite Hv. split; [by intros ->|]. intros l s2.
  destruct (getMostRecentJwt js) as [o|e] eqn:Ho; [|done].
  destruct (collect o id signatureBytes signedBytes refs chain) as [d|e] eqn:Hd; [|done]. intros [= <- _].
  apply collect_spec in Hd as (jwt & -> & Hj & Hc). subst jwt. apply most_recent_jwt in Ho as [Hin Hmax].
  destruct (verified_asked _ _ _ _ Hv _ Hin). by exists d.
Qed.
End Tokens.

(** ** Examples *)
Section Demo.
Definition jwt_claims : SVTClaims :=
  mkSVTClaims (Some "sha256"%string) [mkSigClaims (mkSigRef None "value" "info") None None None None].
(** A token with an issue time; its signature does not verify. *)
Definition demo_jwt (issued : Z) : SignedJWT :=
  mkJWT RS256 None (Some [Ret demo_target]) (Ret (mkClaimsSet None "iss" (Some issued) "id" (Ret jwt_claims))).
Definition jwt_digests (_ : option string) : outcome DigestAlgorithm := Ret (mkDigestAlgorithm "sha256" "2").
Definition jwt_validator (c : X509Certificate) (_ : option (list X509Certificate)) : MF unit ValidateOutcome := mret (VResult empty_result).
Notation jwt_data tokens := (format_SignatureSVTData (mret 50%Z) jwt_validator [] (λ _, Ret tt) (λ _ _, Ret false) (λ _, Ret None)
  jwt_digests (λ _ _, Ret ""%string) (λ _ b, Ret b) tokens None (Ret "value"%string) (Ret "info"%string) (λ _, Ret []) (Some []) tt)
  (only parsing).
Definition jwt_answer : list SignatureSVTData :=
  match jwt_data [Ret (demo_jwt 30); Throw NullPointerException; Ret (demo_jwt 40)] with Some (Ret l, _) => l | _ => [] end.
Lemma token_of_signature_witness :
  ∃ d, jwt_answer = [d] ∧ svtToken d = demo_jwt 40 ∧
    (jwt_data [] = Some (Throw NullPointerException, tt)).
Proof.
  destruct (token_of_signature (mret 50%Z) jwt_validator [] (λ _, Ret tt) (λ _ _, Ret false) (λ _, Ret None) jwt_digests
    (λ _ _, Ret ""%string) (λ _ b, Ret b) [Ret (demo_jwt 30); Throw NullPointerException; Ret (demo_jwt 40)] None (Ret "value"%string)
    (Ret "info"%string) (λ _, Ret []) (Some []) tt [demo_jwt 30; demo_jwt 40] tt) as [_ H]; [vm_compute; reflexivity|].
  destruct (H jwt_answer tt) as (d & Hl & Hin & Hmax & _); [vm_compute; reflexivity|].
  exists d. split; [exact Hl|]. split; [|vm_compute; reflexivity].
  apply elem_of_cons in Hin as [E|[E|[]%not_elem_of_nil]%elem_of_cons]; [|exact E].
  specialize (Hmax ltac:(simpl; lia) (demo_jwt 40) ltac:(right; left)). rewrite E in Hmax. vm_compute in Hmax. by destruct Hmax.
Defined.
End Demo.
