(* ===== verification/SvtIssue.v ===== *)
(** * Issuing signature validation tokens

    Model of [AbstractSVTSigValClaimsIssuer.java] and its subclasses for PDF, XML and JSON
    signatures, of [SVTUtils.java] and of [JOSEDocumentSVTIssuer.java].  The library that the
    issuers extend makes a token of the claims and signs it; Nimbus and Jackson write and read
    JSON. *)
From Stdlib Require Import ZArith Lia Ascii String.
From stdpp Require Import base gmap strings list.
From S2P Require Import Prelude CertModel Algorithms.
From S2P Require Import Validity PathValidator PdfContext Timestamps PdfVerify PdfSvt PdfDocument SigVerify SvtTokens XmlContext XmlVerify.
From S2P Require Import JoseVerify.

(** What an issuer reads of a validation result. *)
Record IssuedResult := mkIssued {
  issuedSigner : option X509Certificate;
  issuedChain : option (list X509Certificate);
  issuedPath : option PathValidationResult;
  issuedPolicies : list PolicyValidationClaims;
  issuedTimes : list TimeValidationResult;
  issuedSuccess : bool
}.
Definition of_svr {A} (r : SigValResult A) : IssuedResult :=
  mkIssued (SigVerify.signerCertificate r) (signatureCertificateChain r) (SigVerify.certificateValidationResult r)
    (SigVerify.validationPolicyResultList r) (SigVerify.timeValidationResults r) (SigVerify.isSuccess r).
(** A PDF result and the certificates of its signature. *)
Definition of_pdf (chain : option (list X509Certificate)) (r : SigResult) : IssuedResult :=
  mkIssued (PdfVerify.signerCertificate r) chain (PdfVerify.certificateValidationResult r)
    (PdfVerify.validationPolicyResultList r) (PdfVerify.timeValidationResults r) (PdfVerify.isSuccess r).

(** ** [AbstractSVTSigValClaimsIssuer] *)
Section Issuer.
(** The registry of digests of the token library, Base64, and the encoding of a
    certificate; the registry of [Algorithms], and its digests in Base64; the bytes of a
    timestamp. *)
Context (svtDigest : option string → outcome (string → string)) (base64 : string → string).
Context (certBytes : X509Certificate → outcome string).
Context (digests : option string → outcome DigestAlgorithm) (hash64 : DigestAlgorithm → string → outcome string).
Context (stampBytes : TimeStamp → string).

Definition isCertPathMatch (validatedCertificatePath signatureCertificateChain : option (list X509Certificate)) : outcome bool :=
  match validatedCertificatePath with
  | None | Some [] => Ret false
  | Some path =>
      match signatureCertificateChain with
      | None => Throw NullPointerException
      | Some chain => Ret (forallb (λ c, existsb (cert_eqb c) chain) path)
      end
  end.
Definition getCertRef (r : IssuedResult) (hashAlgoUri : option string) : outcome CertReferenceClaims :=
  match issuedPath r with
  | None => Throw (IOException "Unable to obtain the required certificate validation result object")
  | Some cvr =>
      let path := validatedCertificatePath cvr in
      same ← isCertPathMatch path (issuedChain r);
      let altered := negb same in
      md ← svtDigest hashAlgoUri;
      match path with
      | None | Some [] =>
          cert ← match issuedSigner r with Some c => Ret c | None => Throw NullPointerException end;
          e ← certBytes cert;
          Ret (mkCertRef chain_hash [base64 (md e)])
      | Some l =>
          refs ← mapM (λ c, e ← certBytes c; Ret (base64 (if altered then e else md e))) l;
          Ret (mkCertRef (if altered then chain_ref else chain_hash) refs)
      end
  end.
Definition isVerifiedTime (c : option TimeValidationClaims) : bool :=
  match c with None => false | Some c => existsb (λ v, bool_decide (res v = PASSED)) (tv_val c) end.
(** The setting of a basic result when there is none; XML and JSON issuers have a setter of
    their own that does not reach it. *)
Definition getSignaturePolicyValidations (defaultBasicValidation : bool) (r : IssuedResult) : list PolicyValidationClaims :=
  match issuedPolicies r with
  | [] => if defaultBasicValidation
          then [mkClaims SIG_VALIDATION_POLICY_BASIC_VALIDATION (if issuedSuccess r then PASSED else FAILED) ""]
          else []
  | l => l
  end.
Definition getB64Hash (bytes : string) (hashAlgoUri : option string) : outcome string :=
  md ← svtDigest hashAlgoUri; Ret (base64 (md bytes)).
Definition set_hash (h : string) (c : TimeValidationClaims) : TimeValidationClaims :=
  mkTimeClaims (tv_id c) (tv_iss c) (tv_time c) (tv_type c) (tv_val c) (Some h).
(** An algorithm that is not registered leaves the claims without a hash. *)
Definition extractTimeValClaims (hashAlgoUri : option string) (t : TimeValidationResult) : outcome (option TimeValidationClaims) :=
  match resultStamp t with
  | None => Ret (timeValidationClaims t)
  | Some ts =>
      match (md ← digests hashAlgoUri; hash64 md (stampBytes ts)) with
      | Throw _ => Ret (timeValidationClaims t)
      | Ret h => match timeValidationClaims t with Some c => Ret (Some (set_hash h c)) | None => Throw NullPointerException end
      end
  end.
Definition verified_claims (hashAlgoUri : option string) (l : list TimeValidationResult) : outcome (list TimeValidationClaims) :=
  cs ← mapM (extractTimeValClaims hashAlgoUri) l;
  Ret (omap id (List.filter isVerifiedTime cs)).
(** The builder of the claims of a signature, in the order in which its parts are made. *)
Definition build_claims (defaultBasicValidation : bool) (sigRef : outcome SigReferenceClaims)
    (dataRefs : outcome (list SignedDataClaims)) (r : IssuedResult) (hashAlgoUri : option string) : outcome SignatureClaims :=
  ref ← sigRef;
  data ← dataRefs;
  times ← verified_claims hashAlgoUri (issuedTimes r);
  certs ← getCertRef r hashAlgoUri;
  Ret (mkSigClaims ref (Some (getSignaturePolicyValidations defaultBasicValidation r)) (Some times) (Some data) (Some certs)).
(** [isIssueSVT] *)
Definition isIssueSVT (r : IssuedResult) : bool := existsb (λ c, bool_decide (res c = PASSED)) (issuedPolicies r).

(** ** [PDFSVTSigValClaimsIssuer] *)
Definition pdf_sig_ref (p : Parsed) (hashAlgoUri : option string) : outcome SigReferenceClaims :=
  sigAttrsEncBytes ← attributesOf p;
  sigBytes ← valueOf p;
  sigHash ← getB64Hash sigBytes hashAlgoUri;
  sbHash ← getB64Hash sigAttrsEncBytes hashAlgoUri;
  Ret (mkSigRef None sigHash sbHash).
Definition calculateDocRefHash (sig : PDSignature) (p : Parsed) (hashAlgoUri : option string) : outcome SignedDataClaims :=
  md ← svtDigest hashAlgoUri;
  content ← signedContentOf p;
  ref ← range_text (byteRange sig);
  Ret (mkDataRef ref (base64 (md content))).
Definition pdf_claims (defaultBasicValidation : bool) (sig : PDSignature) (p : Parsed) (r : IssuedResult)
    (hashAlgoUri : option string) : outcome SignatureClaims :=
  build_claims defaultBasicValidation (pdf_sig_ref p hashAlgoUri)
    (d ← calculateDocRefHash sig p hashAlgoUri; Ret [d]) r hashAlgoUri.
(** [verify]: a signature whose claims cannot be made is passed over. *)
Definition pdf_verify (defaultBasicValidation : bool) (hashAlgoUri : option string)
    (results : list (PDSignature * Parsed * IssuedResult)) : list SignatureClaims :=
  omap (λ '(sig, p, r), match pdf_claims defaultBasicValidation sig p r hashAlgoUri with Ret c => Some c | Throw _ => None end) results.

(** ** [XMLSVTSigValClaimsIssuer] *)
Section XmlClaims.
Context (hashOrder : ∀ A, list (string * A) → list (string * A)).
Fixpoint xml_issued_refs (hashAlgoUri : option string) (l : list (string * option string)) : outcome (list SignedDataClaims) :=
  match l with
  | [] => Ret []
  | (_, None) :: _ =>
      Throw (IOException "Missing referenced data in signed document. Unable to collect signed data references for SVT")
  | (ref, Some signedBytes) :: l' =>
      md ← digests hashAlgoUri;
      h ← hash64 md signedBytes;
      rest ← xml_issued_refs hashAlgoUri l';
      Ret (mkDataRef ref h :: rest)
  end.
Definition xml_sig_ref (data : SignatureData) (hashAlgoUri : option string) : outcome SigReferenceClaims :=
  md ← digests hashAlgoUri;
  sbHash ← hash64 md (signedInfoBytes data);
  sigHash ← hash64 md (signatureBytes data);
  Ret (mkSigRef (xmlSignatureId (dataSignature data)) sigHash sbHash).
Definition xml_claims (data : SignatureData) (r : IssuedResult) (hashAlgoUri : option string) : outcome SignatureClaims :=
  build_claims false (xml_sig_ref data hashAlgoUri)
    (xml_issued_refs hashAlgoUri (hashOrder _ (map_to_list (refDataMap data)))) r hashAlgoUri.
End XmlClaims.

(** ** [JOSESVTSigValClaimsIssuer] *)
Definition jose_issued_refs (data : JOSESignatureData) (hashAlgoUri : option string) : outcome (list SignedDataClaims) :=
  match payload data with
  | None => Throw (IOException "Missing referenced data in signed document. Unable to collect signed data references for SVT")
  | Some p =>
      md ← digests hashAlgoUri;
      h ← hash64 md (payloadBytes p);
      Ret [mkDataRef (if detached data then "detached" else "payload") h]
  end.
Definition jose_sig_ref (data : JOSESignatureData) (hashAlgoUri : option string) : outcome SigReferenceClaims :=
  match joseSignatureBytes data, joseHeader data, payload data with
  | Some signatureBytes, Some h, Some p =>
      md ← digests hashAlgoUri;
      sbHash ← hash64 md (headerBase64 h ++ "." ++ payloadBase64 p)%string;
      sigHash ← hash64 md signatureBytes;
      Ret (mkSigRef None sigHash sbHash)
  | _, _, _ => Throw (IOException "No signature or signed document bytes available")
  end.
Definition jose_claims (data : JOSESignatureData) (r : IssuedResult) (hashAlgoUri : option string) : outcome SignatureClaims :=
  build_claims false (jose_sig_ref data hashAlgoUri) (jose_issued_refs data hashAlgoUri) r hashAlgoUri.
(** [verify] of the XML and the JSON issuer: null when no policy passed. *)
Definition issue_verify {S A} (validateSignature : MF S (SigValResult A)) (claims_of : IssuedResult → outcome SignatureClaims) :
    MF S (option (list SignatureClaims)) :=
  r ← validateSignature;
  if isIssueSVT (of_svr r) then c ← run (lift (claims_of (of_svr r))); mret (Some [c]) else mret None.
End Issuer.

(** ** [SVTUtils] *)
(** The claims of a token, all of whose results passed; a null list is dereferenced. *)
Fixpoint all_passed (l : list SignatureClaims) : outcome bool :=
  match l with
  | [] => Ret true
  | c :: l' =>
      match sig_val c with
      | None => Throw NullPointerException
      | Some vs => if forallb (λ v, bool_decide (res v = PASSED)) vs then all_passed l' else Ret false
      end
  end.
Definition checkValidatedSignatures (signedSvtJWT : option SignedJWT) : outcome bool :=
  match signedSvtJWT with
  | None => Ret false
  | Some jwt => set ← jwtClaimsSet jwt; claims ← sig_val_claims set; all_passed (svtSig claims)
  end.
Definition checkIfSVTShouldBeIssued (signedSvtJWT : option SignedJWT) (issueSvtOnFailedValidation : bool) : outcome bool :=
  match signedSvtJWT with
  | None => Ret false
  | Some _ => all ← checkValidatedSignatures signedSvtJWT; Ret ((all : bool) || issueSvtOnFailedValidation)
  end.

(** ** [JOSEDocumentSVTIssuer] *)
Inductive SVTExtendpolicy := REPLACE | EXTEND.
(** [JSONFlattenedSerializedDocument] and [JSONSerializedDocument] *)
Record JOSESignature := mkJoseSignature {
  protectedHeader : string;
  unprotected : option UnprotectedHeader;
  signature64 : string
}.
Inductive JSONDocument :=
  | Flattened (payload64 : string) (sig : JOSESignature)
  | General (payload64 : string) (signatures : list JOSESignature).
(** What Jackson makes of a value as a list of texts: an exception, null, or the texts, which
    may be null. *)
Inductive TextList := Unreadable | NullList | Texts (l : list (option string)).

Section JoseDocument.
Context {S : Type} (readTexts : JsonValue → TextList) (serialize : SignedJWT → string) (encodeURL : string → string).
Context (write : JSONDocument → string).
Definition text_value (t : option string) : JsonValue := match t with Some s => JString s | None => JOther end.
Definition extendUnprotectedHeader (token : option SignedJWT) (header : option UnprotectedHeader) (svtMethod : option SVTExtendpolicy) :
    outcome (option UnprotectedHeader) :=
  let h := default (mkUnprotected None None []) header in
  match token with
  | None =>
      Ret match h with mkUnprotected None None [] => None | _ => Some h end
  | Some jwt =>
      tokens ← match svt h with
               | None => Ret [Some (serialize jwt)]
               | Some v =>
                   old ← match readTexts v with Unreadable => Ret [] | NullList => Throw NullPointerException | Texts l => Ret l end;
                   match svtMethod with
                   | None => Throw NullPointerException
                   | Some EXTEND => Ret (old ++ [Some (serialize jwt)])
                   | Some REPLACE => Ret [Some (serialize jwt)]
                   end
               end;
      Ret (Some (mkUnprotected (etsiU h) (Some (JList (map text_value tokens))) (otherParams h)))
  end.
(** [SVTExtensionData] *)
Record SVTExtensionData := mkExtension {
  extensionToken : option SignedJWT;
  extensionData : JOSESignatureData;
  extensionMethod : option SVTExtendpolicy
}.
Definition deref_out {A} (o : option A) : outcome A := match o with Some a => Ret a | None => Throw NullPointerException end.
Definition extend_signature (e : SVTExtensionData) : outcome JOSESignature :=
  b ← deref_out (joseSignatureBytes (extensionData e));
  h ← deref_out (joseHeader (extensionData e));
  u ← extendUnprotectedHeader (extensionToken e) (unprotectedHeader (extensionData e)) (extensionMethod e);
  Ret (mkJoseSignature (headerBase64 h) u (encodeURL b)).
Definition payload_text (data : JOSESignatureData) : outcome string :=
  if detached data then Ret ""%string else p ← deref_out (payload data); Ret (payloadBase64 p).
Definition extendDocumentSignature (document : string) (l : list SVTExtensionData) : outcome string :=
  match l with
  | [] => Ret document
  | [e] => p ← payload_text (extensionData e); s ← extend_signature e; Ret (write (Flattened p s))
  | e :: _ => p ← payload_text (extensionData e); ss ← mapM extend_signature l; Ret (write (General p ss))
  end.
(** [getSignedSvtJWT] of the issuer: the library makes a token of what [verify] answers. *)
Context (verify : JOSESignatureData → MF S (option (list SignatureClaims))).
Context (issueToken : option (list SignatureClaims) → MF S (option SignedJWT)).
Definition getSignedSvtJWT (data : JOSESignatureData) : MF S (option SignedJWT) := claims ← verify data; issueToken claims.
Fixpoint issue_each (svtMethod : SVTExtendpolicy) (issueSvtOnFailedValidation : bool) (l : list JOSESignatureData) :
    MF S (list SVTExtensionData) :=
  match l with
  | [] => mret []
  | data :: l' =>
      o ← mf_attempt (getSignedSvtJWT data);
      let signedSvtJWT := match o with Ret t => t | Throw _ => None end in
      issue ← run (lift (checkIfSVTShouldBeIssued signedSvtJWT issueSvtOnFailedValidation));
      if negb issue then mf_raise (IOException "SVT request for document with invalid signatures")
      else
        rest ← issue_each svtMethod issueSvtOnFailedValidation l';
        mret (match signedSvtJWT with
              | Some _ => mkExtension signedSvtJWT data (Some svtMethod)
              | None => mkExtension None data None
              end :: rest)
  end.
(** [issueSvt]; [read] is [getJOSEDocumentSignatureData]. *)
Context (read : string → option Payload → list JOSESignatureData).
Definition issueSvt (document : string) (svtMethod : SVTExtendpolicy) (detachedPayload : option Payload)
    (issueSvtOnFailedValidation : bool) : MF S string :=
  l ← issue_each svtMethod issueSvtOnFailedValidation (read document detachedPayload);
  run (lift (extendDocumentSignature document l)).
End JoseDocument.
