(* ===== verification/SvtIssueProps.v ===== *)
(** * What is issued is found again

    The claims that are issued for a signature are the ones that the token validators compare
    it with; documents are extended only when each of their signatures passed, and reading an
    extended JWS gives what was there with the new token. *)
From Stdlib Require Import ZArith Lia Ascii String.
From stdpp Require Import base gmap strings list.
From S2P Require Import Prelude CertModel Algorithms.
From S2P Require Import Validity PathValidator PdfContext Timestamps PdfVerify PdfSvt PdfDocument SigVerify SvtTokens XmlContext XmlVerify.
From S2P Require Import JoseVerify SvtIssue.

(** ** Claims *)
Section Claims.
Context (svtDigest : option string → outcome (string → string)) (base64 : string → string).
Context (certBytes : X509Certificate → outcome string).
Context (digests : option string → outcome DigestAlgorithm) (hash64 : DigestAlgorithm → string → outcome string).
Context (stampBytes : TimeStamp → string) (hashOrder : ∀ A, list (string * A) → list (string * A)).
Context (parsed : PDSignature → Parsed).
Notation collect := (collectSignatureSVTData digests hash64).
Notation for_pdf default := (pdf_claims svtDigest base64 certBytes digests hash64 stampBytes default).
Notation for_xml := (xml_claims svtDigest base64 certBytes digests hash64 stampBytes hashOrder).
Notation for_jose := (jose_claims svtDigest base64 certBytes digests hash64 stampBytes).

Lemma build_claims_parts dflt a b r u c :
  build_claims svtDigest base64 certBytes digests hash64 stampBytes dflt a b r u = Ret c →
  a = Ret (sig_ref c) ∧ ∃ d, b = Ret d ∧ sig_data_ref c = Some d.
Proof.
  unfold build_claims. mstep. destruct a as [ref|]; [|done]. destruct b as [d|]; [|done].
  destruct (verified_claims _ _ _ _ _) as [ts|]; [|done]. destruct (getCertRef _ _ _ _ _) as [cr|]; [|done].
  intros [= <-]. split; [done|]. by exists d.
Qed.
(** A token with the claims of one signature. *)
Definition token_for (jwt : SignedJWT) (u : option string) (l : list SignatureClaims) : Prop :=
  ∃ set, jwtClaimsSet jwt = Ret set ∧ sig_val_claims set = Ret (mkSVTClaims u l).
Lemma collect_issued jwt u c md id b t hb ht refs d certs :
  token_for jwt u [c] → digests u = Ret md → hash64 md b = Ret hb → hash64 md t = Ret ht → sig_ref c = mkSigRef id hb ht →
  refs md = Ret d →
  collect (Some jwt) id (Ret b) (Ret t) refs (Some certs) = Ret (mkSvtData jwt (sig_ref c) d certs c).
Proof.
  intros (set & Hset & Hc) Hd Hb Ht Hr Hrefs. unfold collectSignatureSVTData, getSVTClaims, findFirst. mstep.
  rewrite Hset, Hc. cbn [hash_algo svtSig]. rewrite Hd, Hb, Ht. cbn [List.find].
  by rewrite Hr, String.eqb_refl, Hrefs.
Qed.
Lemma issued_refs_read u md l d : digests u = Ret md →
  xml_issued_refs digests hash64 u l = Ret d → reference_hashes hash64 md l = Ret d.
Proof.
  intros Hd. revert d. induction l as [|[ref [b|]] l IH]; intros d; simpl; [done| |done]. mstep. rewrite Hd.
  destruct (hash64 md b) as [h|]; [|done]. destruct (xml_issued_refs _ _ _ l) as [rest|]; [|done].
  intros [= <-]. by rewrite (IH rest).
Qed.
Lemma xml_issued data r u c jwt certs :
  for_xml data r u = Ret c → token_for jwt u [c] →
  ∃ d, sig_data_ref c = Some d ∧
    collect (Some jwt) (xmlSignatureId (dataSignature data)) (Ret (signatureBytes data)) (Ret (signedInfoBytes data))
      (λ md, reference_hashes hash64 md (hashOrder _ (map_to_list (refDataMap data)))) (Some certs)
    = Ret (mkSvtData jwt (sig_ref c) d certs c).
Proof.
  intros [Hs (d & Hd & Hc)]%build_claims_parts Ht. exists d. split; [done|]. unfold xml_sig_ref in Hs. mstep.
  destruct (digests u) as [md|] eqn:Hu; [|done]. destruct (hash64 md (signedInfoBytes data)) as [ht|] eqn:Hi; [|done].
  destruct (hash64 md (signatureBytes data)) as [hb|] eqn:Hb; [|done]. injection Hs as Hs.
  eapply collect_issued; eauto using issued_refs_read.
Qed.
Lemma jose_issued data r u c jwt certs :
  for_jose data r u = Ret c → token_for jwt u [c] →
  ∃ d, sig_data_ref c = Some d ∧
    collect (Some jwt) None (deref_out (joseSignatureBytes data)) (jose_signed_bytes data) (jose_data_refs hash64 data) (Some certs)
    = Ret (mkSvtData jwt (sig_ref c) d certs c).
Proof.
  intros [Hs (d & Hd & Hc)]%build_claims_parts Ht. exists d. split; [done|].
  unfold jose_sig_ref, jose_issued_refs, jose_signed_bytes in *.
  destruct (joseSignatureBytes data) as [b|], (joseHeader data) as [h|], (payload data) as [p|] eqn:Hp; try done. simpl in *. mstep.
  destruct (digests u) as [md|] eqn:Hu; [|done]. destruct (hash64 md (_ ++ _)%string) as [ht|] eqn:Hi; [|done].
  destruct (hash64 md b) as [hb|] eqn:Hb; [|done]. injection Hs as Hs. eapply collect_issued; eauto.
  unfold jose_data_refs. rewrite Hp. mstep. by destruct (hash64 md (payloadBytes p)).
Qed.

(** PDF: the digest that the issuer's registry has for the algorithm and the one of the
    validator's are the same function. *)
Definition same_digest (u : option string) (md : DigestAlgorithm) : Prop :=
  ∀ f b, svtDigest u = Ret f → hash64 md b = Ret (base64 (f b)).
Lemma pdf_issued dflt sig r u md l c ts certs :
  same_digest u md → for_pdf dflt sig (parsed sig) r u = Ret c → digests u = Ret md → svtClaims ts = mkSVTClaims u l → c ∈ l →
  contentsOf (parsed sig) = Ret tt → certificatesOf (parsed sig) = Ret certs →
  ∃ d c', sig_data_ref c = Some d ∧ c' ∈ l ∧ sig_hash (sig_ref c') = sig_hash (sig_ref c) ∧
    collectSVTData digests hash64 parsed sig ts = Ret (Some (mkSvtData (signedJWT ts) (sig_ref c) d certs c')).
Proof.
  intros Hsame [Hs (d & Hd & Hc)]%build_claims_parts Hu Ht Hin Hcont Hcerts.
  unfold pdf_sig_ref, calculateDocRefHash, getB64Hash in *. mstep.
  destruct (attributesOf (parsed sig)) as [attrs|] eqn:Ha; [|done]. destruct (valueOf (parsed sig)) as [v|] eqn:Hv; [|done].
  destruct (svtDigest u) as [f|] eqn:Hf; [|done]. destruct (signedContentOf (parsed sig)) as [cont|] eqn:Hsc; [|done].
  destruct (range_text (byteRange sig)) as [ref|] eqn:Hr; [|done]. injection Hs as Hs. injection Hd as <-.
  assert (Hash : ∀ b, hash64 md b = Ret (base64 (f b))) by (intros b; by apply Hsame).
  unfold collectSVTData. mstep. rewrite Hcont, Hv, Ht, Ha, Hsc, Hr, Hcerts. cbn [hash_algo svtSig]. rewrite Hu, !Hash.
  destruct (List.find _ l) as [c'|] eqn:Hfind.
  - apply List.find_some in Hfind as [Hin'%list_elem_of_In He%String.eqb_eq].
    exists [mkDataRef ref (base64 (f cont))], c'. by rewrite <- Hs.
  - eapply List.find_none in Hfind; [|by apply list_elem_of_In]. by rewrite <- Hs, String.eqb_refl in Hfind.
Qed.
(** C20. Issued claims match the signature they were issued for: a token with the claims that
    the XML or the JSON issuer makes of a signature gives the validator exactly these claims,
    and what it computes from the signature to compare them with, the hashes of the value and
    of the signed bytes and the references to the signed data, is what the claims say.  In a
    PDF document, whose token has the claims of all signatures, the validator finds for each
    signature with claims those with the hash of its value, and computes what its own claims
    say, when it can read the contents and the certificates of the signature and the digest of
    the issuer for the algorithm of the token, which comes from another registry, is its own. *)
Theorem issued_claims_match jwt u certs :
  (∀ data r c, for_xml data r u = Ret c → token_for jwt u [c] →
     ∃ d, sig_data_ref c = Some d ∧
       collect (Some jwt) (xmlSignatureId (dataSignature data)) (Ret (signatureBytes data)) (Ret (signedInfoBytes data))
         (λ md, reference_hashes hash64 md (hashOrder _ (map_to_list (refDataMap data)))) (Some certs)
       = Ret (mkSvtData jwt (sig_ref c) d certs c)) ∧
  (∀ data r c, for_jose data r u = Ret c → token_for jwt u [c] →
     ∃ d, sig_data_ref c = Some d ∧
       collect (Some jwt) None (deref_out (joseSignatureBytes data)) (jose_signed_bytes data) (jose_data_refs hash64 data) (Some certs)
       = Ret (mkSvtData jwt (sig_ref c) d certs c)) ∧
  (∀ dflt results sig r c md ts, (sig, parsed sig, r) ∈ results →
     for_pdf dflt sig (parsed sig) r u = Ret c → digests u = Ret md → same_digest u md →
     svtClaims ts = mkSVTClaims u (pdf_verify svtDigest base64 certBytes digests hash64 stampBytes dflt u results) →
     contentsOf (parsed sig) = Ret tt → certificatesOf (parsed sig) = Ret certs →
     ∃ d c', sig_data_ref c = Some d ∧ sig_hash (sig_ref c') = sig_hash (sig_ref c) ∧
       collectSVTData digests hash64 parsed sig ts = Ret (Some (mkSvtData (signedJWT ts) (sig_ref c) d certs c'))).
Proof.
  split; [intros; by eapply xml_issued|]. split; [intros; by eapply jose_issued|].
  intros dflt results sig r c md ts Hin Hc Hu Hsame Hts Hcont Hcerts.
  destruct (pdf_issued dflt sig r u md _ c ts certs Hsame Hc Hu Hts) as (d & c' & Hd & _ & Hh & Hcol); [|done..|by exists d, c'].
  apply list_elem_of_omap. exists (sig, parsed sig, r). by rewrite Hc.
Qed.
End Claims.

(** ** Which documents are extended *)
Section Extended.
Context {S A : Type} (validateSignature : JOSESignatureData → MF S (SigValResult A)).
Context (claims_of : JOSESignatureData → IssuedResult → outcome SignatureClaims).
Context (issueToken : option (list SignatureClaims) → MF S (option SignedJWT)).
Notation verify := (λ data, issue_verify (validateSignature data) (claims_of data)).
Notation each := (issue_each verify issueToken).
(** Without claims the library makes no token. *)
Context (no_claims_no_token : ∀ s jwt s', issueToken None s ≠ Some (Ret (Some jwt), s')).
(** The token that a signature was given, and the result it was given for. *)
Definition issued_for (data : JOSESignatureData) (jwt : SignedJWT) : Prop :=
  ∃ s r s1 c s2, validateSignature data s = Some (Ret r, s1) ∧ (∃ p, p ∈ SigVerify.validationPolicyResultList r ∧ res p = PASSED) ∧
    claims_of data (of_svr r) = Ret c ∧ issueToken (Some [c]) s1 = Some (Ret (Some jwt), s2).
Lemma signed_issued data s jwt s' :
  getSignedSvtJWT verify issueToken data s = Some (Ret (Some jwt), s') → issued_for data jwt.
Proof.
  unfold getSignedSvtJWT, issue_verify, issued_for. mstep.
  destruct (validateSignature data s) as [[[r|e] s1]|] eqn:Hv; [|done..].
  destruct (isIssueSVT (of_svr r)) eqn:Hi; [|by intros H%no_claims_no_token].
  destruct (claims_of data (of_svr r)) as [c|] eqn:Hc; [|done]. intros Ht.
  apply existsb_exists in Hi as (p & Hin%list_elem_of_In & Hp%bool_decide_eq_true).
  exists s, r, s1, c, s'. eauto 10.
Qed.
Lemma each_issued method flag l s es s' : each method flag l s = Some (Ret es, s') →
  Forall2 (λ data e, ∃ jwt, e = mkExtension (Some jwt) data (Some method) ∧ issued_for data jwt ∧
    (flag = false → checkValidatedSignatures (Some jwt) = Ret true)) l es.
Proof.
  revert s es. induction l as [|data l IH]; intros s es; cbn [issue_each]; [by intros [= <- _]; apply Forall2_nil|].
  mstep. destruct (getSignedSvtJWT _ _ data s) as [[o s1]|] eqn:Hg; [|done].
  destruct (match o with Ret t => t | Throw _ => None end) as [jwt|] eqn:Ho; [|done].
  assert (o = Ret (Some jwt)) as -> by (destruct o; congruence).
  unfold checkIfSVTShouldBeIssued. mstep. destruct (checkValidatedSignatures (Some jwt)) as [all|e] eqn:Ha; [|done].
  destruct (all || flag) eqn:Haf; cbn [negb]; [|done].
  destruct (each method flag l s1) as [[[rest|e] s2]|] eqn:Hr; [|done..]. intros [= <- <-]. apply Forall2_cons. split; [|exact (IH _ _ Hr)].
  exists jwt. split; [done|]. split; [by eapply signed_issued|]. intros ->. by rewrite orb_false_r in Haf; subst all.
Qed.
End Extended.

(** ** Reading an extended document *)
Section Headers.
Context (readTexts : JsonValue → TextList) (serialize : SignedJWT → string).
(** The tokens that stay in a header. *)
Definition kept_tokens (method : SVTExtendpolicy) (header : option UnprotectedHeader) : list string :=
  match method with
  | REPLACE => []
  | EXTEND => match (h ← header; svt h) with
              | Some v => match readTexts v with Texts l => omap id l | _ => [] end
              | None => []
              end
  end.
Definition same_params (h h' : option UnprotectedHeader) : Prop :=
  (h ≫= etsiU) = (h' ≫= etsiU) ∧ default [] (otherParams <$> h) = default [] (otherParams <$> h').
Lemma tokens_of_texts e l o : getSignatureSvaTokens (Some (mkUnprotected e (Some (JList (map text_value l))) o)) = omap id l.
Proof. unfold getSignatureSvaTokens. simpl. induction l as [|[s|] l IH]; simpl; [done|by f_equal|done]. Qed.
Lemma extended_header jwt header method u :
  extendUnprotectedHeader readTexts serialize (Some jwt) header (Some method) = Ret u →
  getSignatureSvaTokens u = kept_tokens method header ++ [serialize jwt] ∧ same_params header u.
Proof.
  unfold extendUnprotectedHeader, kept_tokens, same_params. mstep.
  destruct header as [[e [v|] o]|]; cbn -[getSignatureSvaTokens text_value map].
  1: destruct (readTexts v) as [| |l]; try done.
  all: destruct method; intros [= <-]; try by split.
  change (getSignatureSvaTokens (Some (mkUnprotected e (Some (JList (map text_value (l ++ [Some (serialize jwt)])))) o))
    = omap id l ++ [serialize jwt] ∧ same_params (Some (mkUnprotected e (Some v) o))
        (Some (mkUnprotected e (Some (JList (map text_value (l ++ [Some (serialize jwt)])))) o))).
  by rewrite tokens_of_texts, omap_app.
Qed.
End Headers.

Section ReadBack.
Context (parseCompact : string → option Payload → option JWSObject) (parseJSON : string → option JWSObjectJSON).
Context (withPayload : JWSObjectJSON → Payload → option JWSObjectJSON).
Context (family : JWSAlgorithm → Family) (newVerifier : Family → PublicKey → outcome unit).
Context (getUri : option JWSAlgorithm → outcome string).
Context (readTexts : JsonValue → TextList) (serialize : SignedJWT → string) (encodeURL : string → string).
Context (write : JSONDocument → string).
Notation read := (getJOSEDocumentSignatureData parseCompact parseJSON withPayload family newVerifier getUri).
Notation data_of := (signature_of family newVerifier getUri).
(** Nimbus and Jackson: the header, the payload and the bytes of their texts in Base64, and
    the check of a signature, which does not look at the unprotected header. *)
Context (header_of : string → JWSHeader) (payload_of : string → Payload) (bytes_of : string → string).
Context (verifies : string → Payload → string → PublicKey → outcome bool).
Definition nimbus_sig (pl : Payload) (sig : JWSSignature) : Prop :=
  header_of (headerBase64 (jwsHeader sig)) = jwsHeader sig ∧
  ∀ key, jwsVerify sig key = verifies (headerBase64 (jwsHeader sig)) pl (encodeURL (jwsSignatureBytes sig)) key.
Definition doc_payload (d : JSONDocument) : string := match d with Flattened p _ | General p _ => p end.
Definition doc_signatures (d : JSONDocument) : list JOSESignature := match d with Flattened _ s => [s] | General _ l => l end.
Definition sig_of (pl : Payload) (s : JOSESignature) : JWSSignature :=
  mkJWSSignature (header_of (protectedHeader s)) (unprotected s) (bytes_of (signature64 s)) (verifies (protectedHeader s) pl (signature64 s)).
Definition object_of (pl : Payload) (l : list JOSESignature) : JWSObjectJSON := mkJWSObjectJSON pl (map (sig_of pl) l).
(** What is parsed has the parts of the texts it was parsed from; a detached payload takes the
    place of the one in the document.  Nothing is said of whether a written document parses:
    the library refuses headers that it does not like, and documents without signatures. *)
Class NimbusLaws : Prop := {
  bytes_encoded b : bytes_of (encodeURL b) = b;
  compact_read doc p o : parseCompact doc p = Some o → nimbus_sig (compactPayload o) (compactSignature o) ∧
    match p with Some p => compactPayload o = p | None => payload_of (payloadBase64 (compactPayload o)) = compactPayload o end;
  json_read doc o : parseJSON doc = Some o → Forall (nimbus_sig (jsonPayload o)) (jsonSignatures o) ∧
    payload_of (payloadBase64 (jsonPayload o)) = jsonPayload o;
  detached_read doc o p o' : parseJSON doc = Some o → withPayload o p = Some o' →
    Forall (nimbus_sig p) (jsonSignatures o') ∧ jsonPayload o' = p;
  written_read d o : parseJSON (write d) = Some o → o = object_of (payload_of (doc_payload d)) (doc_signatures d);
  written_detached pl l p o : withPayload (object_of pl l) p = Some o → o = object_of p l
}.
Context {Laws : NimbusLaws}.
(** The library parses a document as JSON, with the detached payload if there is one. *)
Definition parses (document : string) (detachedPayload : option Payload) : Prop :=
  is_Some (o ← parseJSON document; match detachedPayload with Some p => withPayload o p | None => Some o end).
Definition is_some {X} (o : option X) : bool := match o with Some _ => true | None => false end.
(** The signatures of a document as they are read. *)
Definition payload_fits (detachedPayload : option Payload) (pl : Payload) : Prop :=
  match detachedPayload with Some p => pl = p | None => payload_of (payloadBase64 pl) = pl end.
Lemma read_signatures document detachedPayload : read document detachedPayload ≠ [] →
  ∃ pl, payload_fits detachedPayload pl ∧
    Forall (λ data, ∃ u sig, data = data_of (is_some detachedPayload) pl u sig ∧ nimbus_sig pl sig) (read document detachedPayload).
Proof.
  unfold getJOSEDocumentSignatureData, payload_fits. intros Hne.
  destruct (parseJSON document ≫= _) as [o'|] eqn:Ho.
  - apply bind_Some in Ho as (o & Ho & Ho'). exists (jsonPayload o').
    assert (Forall (nimbus_sig (jsonPayload o')) (jsonSignatures o') ∧
      match detachedPayload with Some p => jsonPayload o' = p | None => payload_of (payloadBase64 (jsonPayload o')) = jsonPayload o' end) as [Hs Hp].
    { destruct detachedPayload as [p|]; [|injection Ho' as ->; by apply json_read in Ho].
      destruct (detached_read _ _ _ _ Ho Ho') as [Hs Hp]. by rewrite Hp. }
    split; [done|]. unfold getSignatureDataFromJWSJSONObject. apply Forall_map. eapply Forall_impl; [exact Hs|].
    intros sig Hsig. exists (jwsUnprotected sig), sig. by destruct detachedPayload.
  - destruct (parseCompact document detachedPayload) as [o|] eqn:Hc; [|done]. apply compact_read in Hc as [Hs Hp].
    exists (compactPayload o). split; [done|]. apply Forall_singleton. exists None, (compactSignature o). by destruct detachedPayload.
Qed.
Definition with_unprotected (u : option UnprotectedHeader) (d : JOSESignatureData) : JOSESignatureData :=
  mkJoseData (detached d) (isVerified d) (joseException d) (joseHeader d) (joseAlgorithm d) u (payload d)
    (joseSignatureBytes d) (joseSigner d) (joseChain d).
(** A signature with another unprotected header is read the same, but for this header. *)
Lemma signature_extended b pl u sig e s jwt method :
  nimbus_sig pl sig → e = mkExtension (Some jwt) (data_of b pl u sig) (Some method) →
  extend_signature readTexts serialize encodeURL e = Ret s →
  detached (data_of b pl u sig) = b ∧ payload (data_of b pl u sig) = Some pl ∧
  extendUnprotectedHeader readTexts serialize (Some jwt) (unprotectedHeader (data_of b pl u sig)) (Some method) = Ret (unprotected s) ∧
  data_of b pl (unprotected s) (sig_of pl s) = with_unprotected (unprotected s) (data_of b pl u sig).
Proof.
  intros [Hh Hv] -> He. unfold extend_signature, signature_of in *. cbn [extensionData extensionToken extensionMethod] in *.
  destruct (getVerifierAndCerts family newVerifier getUri (jwsHeader sig)) as [d key] eqn:Hg.
  assert (Hd : joseHeader d = None).
  { clear -Hg. unfold getVerifierAndCerts in Hg. repeat case_match; by injection Hg as <- _. }
  destruct (key ≫= λ key, jwsVerify sig key) as [v|x] eqn:Hk; cycle 1.
  { exfalso. unfold deref_out, data_exception in He. mstep. simpl in He. destruct (joseSignatureBytes d); [|done]. by rewrite Hd in He. }
  cbn [joseSignatureBytes joseHeader unprotectedHeader deref_out detached payload] in *. mstep. 
  destruct (extendUnprotectedHeader _ _ _ _ _) as [u'|] eqn:Hu; [|done]. injection He as <-.
  cbn [unprotected sig_of jwsHeader jwsSignatureBytes protectedHeader signature64 jwsVerify]. rewrite Hh, Hg, bytes_encoded.
  split; [done|]. split; [done|]. split; [done|].
  destruct key as [key|]; [|done]. by rewrite <- Hv, Hk.
Qed.
(** All signatures of a document, and the document that is written. *)
Lemma signatures_extended b pl method l es ss :
  Forall (λ data, ∃ u sig, data = data_of b pl u sig ∧ nimbus_sig pl sig) l →
  Forall2 (λ data e, ∃ jwt, e = mkExtension (Some jwt) data (Some method)) l es →
  mapM (extend_signature readTexts serialize encodeURL) es = Ret ss →
  Forall2 (λ data s, detached data = b ∧ payload data = Some pl ∧
    data_of b pl (unprotected s) (sig_of pl s) = with_unprotected (unprotected s) data) l ss.
Proof.
  intros Hl Hes. revert ss. induction Hes as [|data e l es (jwt & He) Hes IH]; intros ss; cbn [mapM]; [by intros [= <-]|].
  apply Forall_cons in Hl as [(u & sig & -> & Hsig) Hl]. mstep.
  destruct (extend_signature _ _ _ e) as [s|] eqn:Hs; [|done].
  destruct (mapM _ es) as [rest|] eqn:Hr; [|done]. intros [= <-]. apply Forall2_cons. split; [|by apply IH].
  destruct (signature_extended b pl u sig e s jwt method Hsig He Hs) as (Hd & Hp & _ & Hdata). done.
Qed.
Lemma document_written document e es out :
  extendDocumentSignature readTexts serialize encodeURL write document (e :: es) = Ret out →
  ∃ p ss d, payload_text (extensionData e) = Ret p ∧ mapM (extend_signature readTexts serialize encodeURL) (e :: es) = Ret ss ∧
    out = write d ∧ doc_payload d = p ∧ doc_signatures d = ss.
Proof.
  intros H. assert (∃ p ss, payload_text (extensionData e) = Ret p ∧
    mapM (extend_signature readTexts serialize encodeURL) (e :: es) = Ret ss ∧
    ∃ d, out = write d ∧ doc_payload d = p ∧ doc_signatures d = ss) as (p & ss & Hp & Hs & d & Hd); [|eauto 10].
  unfold extendDocumentSignature in H. cbn [mapM] in *. mstep.
  destruct es as [|e' es], (payload_text (extensionData e)) as [p|]; try done.
  - destruct (extend_signature _ _ _ e) as [s|]; [|done]. injection H as <-. exists p, [s]. cbn [mapM].
    split; [done|]. split; [done|]. by exists (Flattened p s).
  - destruct (extend_signature _ _ _ e) as [s|]; [|done].
    destruct (mapM _ (e' :: es)) as [ss|]; [|done]. injection H as <-. exists p, (s :: ss).
    split; [done|]. split; [done|]. by exists (General p (s :: ss)).
Qed.
Lemma read_written d detachedPayload pl :
  payload_fits detachedPayload pl → (detachedPayload = None → doc_payload d = payloadBase64 pl) →
  parses (write d) detachedPayload →
  read (write d) detachedPayload = map (λ s, data_of (is_some detachedPayload) pl (unprotected s) (sig_of pl s)) (doc_signatures d).
Proof.
  unfold payload_fits, parses, getJOSEDocumentSignatureData. intros Hp Hd [o' Ho]. rewrite Ho.
  apply bind_Some in Ho as (o & ->%written_read & Ho).
  destruct detachedPayload as [p|]; simpl.
  - subst pl. apply written_detached in Ho as ->. unfold getSignatureDataFromJWSJSONObject, object_of. simpl. by rewrite map_map.
  - injection Ho as <-. rewrite Hd, Hp by done. unfold getSignatureDataFromJWSJSONObject, object_of. simpl. by rewrite map_map.
Qed.

Section Issued.
Context {S A : Type} (validateSignature : JOSESignatureData → MF S (SigValResult A)).
Context (claims_of : JOSESignatureData → IssuedResult → outcome SignatureClaims).
Context (issueToken : option (list SignatureClaims) → MF S (option SignedJWT)).
Context (no_claims_no_token : ∀ s jwt s', issueToken None s ≠ Some (Ret (Some jwt), s')).
Notation verify := (λ data, issue_verify (validateSignature data) (claims_of data)).
Notation issue := (issueSvt readTexts serialize encodeURL write verify issueToken read).
(** A signature of the document and the same in the extended one. *)
Definition extended_with (method : SVTExtendpolicy) (flag : bool) (data data' : JOSESignatureData) : Prop :=
  ∃ jwt, issued_for validateSignature claims_of issueToken data jwt ∧
    (flag = false → checkValidatedSignatures (Some jwt) = Ret true) ∧
    data' = with_unprotected (unprotectedHeader data') data ∧
    getSignatureSvaTokens (unprotectedHeader data') = kept_tokens readTexts method (unprotectedHeader data) ++ [serialize jwt] ∧
    same_params (unprotectedHeader data) (unprotectedHeader data').
Lemma issue_forall2 method flag l es s s' ss (P : JOSESignatureData → JOSESignature → Prop) :
  issue_each verify issueToken method flag l s = Some (Ret es, s') →
  mapM (extend_signature readTexts serialize encodeURL) es = Ret ss →
  Forall2 P l ss →
  Forall2 (λ data s, P data s ∧ ∃ jwt, issued_for validateSignature claims_of issueToken data jwt ∧
    (flag = false → checkValidatedSignatures (Some jwt) = Ret true) ∧
    extendUnprotectedHeader readTexts serialize (Some jwt) (unprotectedHeader data) (Some method) = Ret (unprotected s)) l ss.
Proof.
  intros He%each_issued; [|done]. revert ss. induction He as [|data e l es (jwt & -> & Hi & Hf) He IH]; intros ss; cbn [mapM].
  { intros [= <-] _. done. }
  mstep. destruct (extend_signature _ _ _ (mkExtension (Some jwt) data (Some method))) as [x|] eqn:Hx; [|done].
  destruct (mapM _ es) as [rest|] eqn:Hr; [|done]. intros [= <-] [Hp Hps]%Forall2_cons. apply Forall2_cons. split; [|by apply IH].
  split; [done|]. exists jwt. split; [done|]. split; [done|]. unfold extend_signature in Hx. cbn [extensionData extensionToken extensionMethod] in Hx. mstep.
  destruct (deref_out (joseSignatureBytes data)); [|done]. destruct (deref_out (joseHeader data)); [|done].
  destruct (extendUnprotectedHeader _ _ _ _ _); [|done]. by injection Hx as <-.
Qed.
(** C22. Extending a JSON document: when the issuer answers a document that the JSON library
    parses, it is read again as the signatures that were there, in their order, each as it was
    read before but for its unprotected header; without signatures it is the document that was
    given.  The svt parameter of this header has the tokens that the policy keeps and then the
    new token, and the other parameters are as they were; the token was made of claims about
    this signature, and its validation had a policy that passed, whether tokens are to be
    issued on failed validation or not.  The token library makes no token without claims, and
    what the JSON library parses has the parts of the text that was written. *)
Theorem extended_document_reads document method detachedPayload flag s out s' :
  issue document method detachedPayload flag s = Some (Ret out, s') →
  match read document detachedPayload with
  | [] => out = document
  | l => parses out detachedPayload → Forall2 (extended_with method flag) l (read out detachedPayload)
  end.
Proof.
  unfold issueSvt. mstep. destruct (issue_each _ _ _ _ _ s) as [[[es|e] s1]|] eqn:He; [|done..]. intros [= Hout _].
  destruct (read document detachedPayload) as [|data l] eqn:Hl.
  { injection He as <- _. by injection Hout. }
  intros Hparses. destruct (read_signatures document detachedPayload) as (pl & Hpl & Hsigs); [by rewrite Hl|]. rewrite Hl in Hsigs.
  assert (Hes : Forall2 (λ data e, ∃ jwt, e = mkExtension (Some jwt) data (Some method)) (data :: l) es).
  { eapply Forall2_impl; [exact (each_issued _ _ _ no_claims_no_token _ _ _ _ _ _ He)|]. intros ? ? (j & -> & _). by exists j. }
  destruct (Forall2_cons_inv_l _ _ _ _ Hes) as (e & es' & (jwt & ->) & _ & ->).
  apply document_written in Hout as (p & ss & d & Hp & Hss & -> & Hdp & Hds).
  assert (Hdata := signatures_extended (is_some detachedPayload) pl method (data :: l) _ ss Hsigs Hes Hss).
  rewrite (read_written d detachedPayload pl Hpl), Hds; [| |done].
  2:{ intros ->. apply Forall2_cons_inv_l in Hdata as (s0 & ? & (Hb & Hpay & _) & _ & _).
      rewrite Hdp. unfold payload_text in Hp. cbn [extensionData] in Hp. rewrite Hb, Hpay in Hp. simpl in Hp. by injection Hp. }
  apply Forall2_fmap_r. eapply Forall2_impl; [exact (issue_forall2 _ _ _ _ _ _ _ _ He Hss Hdata)|].
  intros x s0 ((_ & _ & Hx) & j & Hi & Hf & Hu). exists j. rewrite Hx. split; [done|]. split; [done|]. split; [done|].
  by apply extended_header.
Qed.
End Issued.
End ReadBack.

(** The digest whose URI the registry does not know: no claims about an XML or a JSON
    signature are made with SHA-384. *)
Lemma sha384_not_issued (uri_of : Digest → string) (id_digest : Digest → string) `{!Inj (=) (=) uri_of}
    svtDigest base64 certBytes hash64 stampBytes hashOrder r :
  let registry := getDigest (digestAlgorithmMap uri_of id_digest) in
  let u := Some (uri_of SHA384) in
  (∀ data, is_Ret (xml_claims svtDigest base64 certBytes registry hash64 stampBytes hashOrder data r u) = false) ∧
  (∀ data, is_Ret (jose_claims svtDigest base64 certBytes registry hash64 stampBytes data r u) = false).
Proof.
  intros registry u. assert (Hu : is_Ret (registry u) = false).
  { unfold registry, u, getDigest. by rewrite registry_digest. }
  split; intros data; unfold xml_claims, jose_claims, build_claims, xml_sig_ref, jose_sig_ref; mstep.
  - by destruct (registry u).
  - destruct (joseSignatureBytes data), (joseHeader data), (payload data); try done. by destruct (registry u).
Qed.

(** ** Examples *)
Section Demo.
(** A writer of documents that can be read again: documents are countable. *)
Fixpoint json_tree (v : JsonValue) : gen_tree string :=
  match v with JString s => GenLeaf s | JList l => GenNode 0 (map json_tree l) | JOther => GenNode 1 [] end.
Fixpoint tree_json (t : gen_tree string) : JsonValue :=
  match t with GenLeaf s => JString s | GenNode 0 l => JList (map tree_json l) | GenNode _ _ => JOther end.
Fixpoint tree_json_tree (v : JsonValue) : tree_json (json_tree v) = v.
Proof.
  destruct v as [s|l|]; simpl; [done| |done]. f_equal. induction l as [|v l IH]; simpl; [done|]. by rewrite tree_json_tree, IH.
Qed.
#[local] Instance json_eq_dec : EqDecision JsonValue.
Proof.
  intros v w. destruct (decide (json_tree v = json_tree w)) as [E|E]; [left|right; by intros ->].
  by rewrite <- (tree_json_tree v), E, tree_json_tree.
Defined.
#[local] Instance json_countable : Countable JsonValue := inj_countable' json_tree tree_json tree_json_tree.
#[local] Instance header_eq_dec : EqDecision UnprotectedHeader.
Proof. solve_decision. Defined.
#[local] Instance header_countable : Countable UnprotectedHeader.
Proof. refine (inj_countable' (λ h, (etsiU h, svt h, otherParams h)) (λ '(a, b, c), mkUnprotected a b c) _). by intros []. Defined.
#[local] Instance jose_sig_eq_dec : EqDecision JOSESignature.
Proof. solve_decision. Defined.
#[local] Instance jose_sig_countable : Countable JOSESignature.
Proof.
  refine (inj_countable' (λ s, (protectedHeader s, unprotected s, signature64 s)) (λ '(a, b, c), mkJoseSignature a b c) _). by intros [].
Defined.
#[local] Instance doc_eq_dec : EqDecision JSONDocument.
Proof. solve_decision. Defined.
#[local] Instance doc_countable : Countable JSONDocument.
Proof.
  refine (inj_countable' (λ d, match d with Flattened p s => inl (p, s) | General p l => inr (p, l) end)
    (λ d, match d with inl (p, s) => Flattened p s | inr (p, l) => General p l end) _). by intros [].
Defined.
Fixpoint bits (p : positive) : string :=
  match p with xH => "" | xO p => String "0" (bits p) | xI p => String "1" (bits p) end.
Fixpoint from_bits (s : string) : option positive :=
  match s with
  | "" => Some xH
  | String c s => p ← from_bits s; if Ascii.eqb c "0" then Some (xO p) else if Ascii.eqb c "1" then Some (xI p) else None
  end%string.
Lemma from_bits_bits p : from_bits (bits p) = Some p.
Proof. induction p as [p IH|p IH|]; simpl; [by rewrite IH..|done]. Qed.
Definition demo_write (d : JSONDocument) : string := bits (encode d).
Definition demo_header (b : string) : JWSHeader := mkJWSHeader RS256 (Some [Ret demo_target]) None b.
Definition demo_payload (b : string) : Payload := mkPayload b b.
Definition demo_verifies (_ : string) (_ : Payload) (_ : string) (_ : PublicKey) : outcome bool := Ret true.
Notation demo_object := (object_of demo_header id demo_verifies).
Definition demo_parse (s : string) : option JWSObjectJSON :=
  p ← from_bits s; d ← decode p; Some (demo_object (demo_payload (doc_payload d)) (doc_signatures d)).
Definition demo_with (o : JWSObjectJSON) (p : Payload) : option JWSObjectJSON := Some (mkJWSObjectJSON p (jsonSignatures o)).
Lemma demo_written d : demo_parse (demo_write d) = Some (demo_object (demo_payload (doc_payload d)) (doc_signatures d)).
Proof. unfold demo_parse, demo_write. rewrite from_bits_bits. simpl. by rewrite decode_encode. Qed.
#[local] Instance demo_laws : NimbusLaws (λ _ _, None) demo_parse demo_with id demo_write demo_header demo_payload id demo_verifies.
Proof.
  assert (Hsigs : ∀ pl pl' l, Forall (nimbus_sig id demo_header demo_verifies pl) (map (sig_of demo_header id demo_verifies pl') l)).
  { intros pl pl' l. apply Forall_map, Forall_true. done. }
  split; [done..| | |by intros d o; rewrite demo_written; intros [= <-]|by intros pl l p o [= <-]].
  - intros doc o (p & _ & (d & _ & [= <-])%bind_Some)%bind_Some. split; [apply Hsigs|done].
  - intros doc o p o' (q & _ & (d & _ & [= <-])%bind_Some)%bind_Some [= <-]. split; [apply Hsigs|done].
Qed.
(** A document with one signature that has a token, which gets a second one. *)
Definition demo_readTexts (v : JsonValue) : TextList :=
  match v with JList l => Texts (map (λ v, match v with JString s => Some s | _ => None end) l) | _ => Unreadable end.
Definition demo_result (data : JOSESignatureData) : SigValResult JOSESignatureData :=
  with_claims [mkClaims "p" PASSED ""] (with_path empty_result (with_signer None (joseSigner data) None (new_svr (Some data)))).
Definition demo_claims (data : JOSESignatureData) (r : IssuedResult) : outcome SignatureClaims :=
  jose_claims (λ _, Ret id) id (λ _, Ret "c"%string) (λ _, Ret (mkDigestAlgorithm "u" "1")) (λ _ b, Ret b) (λ _, ""%string) data r
    (Some "u"%string).
Definition demo_token (l : list SignatureClaims) : SignedJWT :=
  mkJWT RS256 None None (Ret (mkClaimsSet None "iss" (Some 1%Z) "id" (Ret (mkSVTClaims (Some "u"%string) l)))).
Definition demo_issueToken (l : option (list SignatureClaims)) : MF unit (option SignedJWT) := mret (demo_token <$> l).
Definition demo_svt (l : list string) : option UnprotectedHeader := Some (mkUnprotected None (Some (JList (map JString l))) []).
Definition demo_document (tokens : list string) : JSONDocument := Flattened "p" (mkJoseSignature "h" (demo_svt tokens) "s").
Notation demo_read := (getJOSEDocumentSignatureData (λ _ _, None) demo_parse demo_with (λ _, RSA_family) (λ _ _, Ret tt) (λ _, Ret "rsa"%string)).
Lemma extended_document_reads_witness :
  Forall2 (λ data data', kept_tokens demo_readTexts EXTEND (unprotectedHeader data) = ["old"%string] ∧
      getSignatureSvaTokens (unprotectedHeader data') = ["old"; "new"]%string ∧ isVerified data' = true)
    (demo_read (demo_write (demo_document ["old"]%string)) None) (demo_read (demo_write (demo_document ["old"; "new"]%string)) None).
Proof.
  pose proof (extended_document_reads (λ _ _, None) demo_parse demo_with (λ _, RSA_family) (λ _ _, Ret tt) (λ _, Ret "rsa"%string)
    demo_readTexts (λ _, "new"%string) id demo_write demo_header demo_payload id demo_verifies (Laws := demo_laws)
    (λ data, mret (demo_result data)) demo_claims demo_issueToken ltac:(by intros [] jwt [])
    (demo_write (demo_document ["old"]%string)) EXTEND None false tt (demo_write (demo_document ["old"; "new"]%string)) tt
    ltac:(unfold issueSvt, getJOSEDocumentSignatureData; rewrite demo_written; reflexivity)) as H.
  unfold parses, getJOSEDocumentSignatureData in *. rewrite !demo_written in *. cbn in H.
  specialize (H ltac:(by eexists)). apply Forall2_cons in H as [(jwt & _ & _ & Hd & Ht & _) _]. repeat constructor; exact Ht.
Defined.
(** A JSON signature and a PDF signature, with the claims that are issued for them. *)
Definition demo_data : JOSESignatureData :=
  mkJoseData false true None (Some (demo_header "h")) None None (Some (demo_payload "p")) (Some "s"%string) (Some demo_target) (Some []).
Definition demo_sig_claims (ref : SigReferenceClaims) (data : SignedDataClaims) : SignatureClaims :=
  mkSigClaims ref (Some [mkClaims "p" PASSED ""]) (Some []) (Some [data]) (Some (mkCertRef chain_hash ["c"%string])).
Definition demo_pdf : PDSignature := mkPDSignature [0; 1; 2; 3]%Z None.
Definition demo_parsed (_ : PDSignature) : Parsed :=
  mkParsed (Ret tt) (Throw NullPointerException) (Throw NullPointerException) (Ret "v"%string) (Ret "a"%string) (Ret "d"%string) (Ret []).
Definition demo_issued : IssuedResult := of_svr (demo_result demo_data).
Definition demo_alg (_ : option string) : outcome DigestAlgorithm := Ret (mkDigestAlgorithm "u" "1").
Notation demo_pdf_claims := (pdf_verify (λ _, Ret id) id (λ _, Ret "c"%string) demo_alg (λ _ b, Ret b) (λ _, ""%string) false
  (Some "u"%string) [(demo_pdf, demo_parsed demo_pdf, demo_issued)]).
Definition demo_stamp : PDFSVTDocTimeStamp :=
  mkSvtStamp (mkDocTimeStamp (mkTimeStamp false [] None None) []) [] (demo_token demo_pdf_claims) (mkSVTClaims (Some "u"%string) demo_pdf_claims).
Lemma issued_claims_match_witness :
  (∃ d, collectSignatureSVTData demo_alg (λ _ b, Ret b)
          (Some (demo_token [demo_sig_claims (mkSigRef None "s" "h.p") (mkDataRef "payload" "p")])) None (Ret "s"%string) (Ret "h.p"%string)
          (jose_data_refs (λ _ b, Ret b) demo_data) (Some []) = Ret d ∧
        signedDataRefList d = [mkDataRef "payload" "p"] ∧ sig_hash (signatureReference d) = "s"%string) ∧
  (∃ d c, collectSVTData demo_alg (λ _ b, Ret b) demo_parsed demo_pdf demo_stamp = Ret (Some d) ∧ signatureClaims d = c ∧
        sig_hash (sig_ref c) = "v"%string).
Proof.
  destruct (issued_claims_match (λ _, Ret id) id (λ _, Ret "c"%string) demo_alg (λ _ b, Ret b) (λ _, ""%string) (λ _ l, l) demo_parsed
    (demo_token [demo_sig_claims (mkSigRef None "s" "h.p") (mkDataRef "payload" "p")])
    (Some "u"%string) []) as (_ & Hjose & Hpdf). split.
  - destruct (Hjose demo_data demo_issued _ eq_refl) as (d & [= <-] & Hc); [eexists; split; reflexivity|].
    eexists. split; [exact Hc|]. by split.
  - destruct (Hpdf false _ demo_pdf demo_issued _ (mkDigestAlgorithm "u" "1") demo_stamp ltac:(left) eq_refl eq_refl
      ltac:(by intros f b [= <-]) eq_refl eq_refl eq_refl)
      as (d & c & _ & Hh & Hc).
    eexists _, c. split; [exact Hc|]. by split.
Defined.
End Demo.
