(* ===== verification/SamlContext.v ===== *)
(** * The XML data of the authentication context extension

    Model of the classes in data/saci of src/cert-extensions: [AbstractDomData.java],
    [Attribute.java], [AttributeMapping.java], [IdAttributes.java], [AuthContextInfo.java] and
    [SAMLAuthContext.java].  An element is a value: adopting one takes it out of the tree it
    was in, which matters only for objects that hold an element and a part of it, or one
    element twice. *)
From Stdlib Require Import ZArith Lia Ascii String.
From stdpp Require Import base gmap strings list.
From S2P Require Import Prelude.

Definition SACI_NS : string := "http://id.elegnamnden.se/auth-cont/1.0/saci".
Definition SAML_ASSERTION_NS : string := "urn:oasis:names:tc:SAML:2.0:assertion".

(** ** The DOM *)
(** An attribute has a qualified name. *)
Record XAttr := mkXAttr { attrNs : option string; attrName : string; attrValue : string }.
(** Namespace, prefix and local name, attributes, and the nodes below: elements and texts. *)
Inductive XElement :=
  mkXE (ns prefix : option string) (local : string) (attrs : list XAttr) (nodes : list (XElement + string)).
Definition namespaceURI (e : XElement) : option string := let 'mkXE n _ _ _ _ := e in n.
Definition localName (e : XElement) : string := let 'mkXE _ _ l _ _ := e in l.
Definition attributes (e : XElement) : list XAttr := let 'mkXE _ _ _ a _ := e in a.
Definition childNodes (e : XElement) : list (XElement + string) := let 'mkXE _ _ _ _ c := e in c.
Definition element_of (n : XElement + string) : option XElement := match n with inl e => Some e | inr _ => None end.
Definition child_elements (e : XElement) : list XElement := omap element_of (childNodes e).
(** The elements below an element in document order. *)
Fixpoint descendants (e : XElement) : list XElement :=
  let 'mkXE _ _ _ _ nodes := e in
  (fix below (l : list (XElement + string)) :=
     match l with
     | [] => []
     | inl c :: l' => (c :: descendants c) ++ below l'
     | inr _ :: l' => below l'
     end) nodes.
Definition named (ns name : string) (e : XElement) : bool := bool_decide (namespaceURI e = Some ns) && String.eqb (localName e) name.
Definition createElementNS (ns name : string) : XElement := mkXE (Some ns) None name [] [].
Definition setPrefix (p : string) (e : XElement) : XElement := let 'mkXE n _ l a c := e in mkXE n (Some p) l a c.
Definition appendChild (e c : XElement) : XElement := let 'mkXE n p l a nodes := e in mkXE n p l a (nodes ++ [inl c]).
(** An attribute replaces the one with its name; the value alone is replaced when it is set
    by name. *)
Fixpoint put_attribute (a : XAttr) (l : list XAttr) : list XAttr :=
  match l with
  | [] => [a]
  | b :: l' => if String.eqb (attrName b) (attrName a) then a :: l' else b :: put_attribute a l'
  end.
Fixpoint set_value (name value : string) (l : list XAttr) : list XAttr :=
  match l with
  | [] => [mkXAttr None name value]
  | b :: l' => if String.eqb (attrName b) name then mkXAttr (attrNs b) name value :: l' else b :: set_value name value l'
  end.
Definition with_attributes (f : list XAttr → list XAttr) (e : XElement) : XElement := let 'mkXE n p l a c := e in mkXE n p l (f a) c.
Definition setAttributeNode (a : XAttr) : XElement → XElement := with_attributes (put_attribute a).
Definition attribute_text (l : list XAttr) (name : string) : string :=
  match findFirst (λ a, String.eqb (attrName a) name) l with Some a => attrValue a | None => "" end.

(** ** [AbstractDomData] *)
Definition getElements (parent : XElement) (ns name : string) : list XElement := List.filter (named ns name) (descendants parent).
Definition getSingleElement (parent : XElement) (ns name : string) : option XElement := head (getElements parent ns name).
Definition setAttribute (e : XElement) (name : string) (value : option string) : XElement :=
  match value with None => e | Some v => with_attributes (set_value name v) e end.
(** An empty value is null. *)
Definition getAttributeValue (e : XElement) (name : string) : option string :=
  let val := attribute_text (attributes e) name in
  if String.eqb val "" then None else Some val.
Definition adoptElements (e : XElement) (l : option (list XElement)) : XElement := fold_left appendChild (default [] l) e.
Definition adoptAttributes (e : XElement) (l : option (list XAttr)) : XElement := fold_left (λ e a, setAttributeNode a e) (default [] l) e.

(** The classes.  Fields may be null. *)
Record Attribute := mkAttribute {
  saml_name : option string;
  nameFormat : option string;
  friendlyName : option string;
  anyAttrList : option (list XAttr);
  attributeValues : option (list XElement)
}.
Inductive MappingType := rdn | san | sda.
Record AttributeMapping := mkMapping {
  mapping_type : option MappingType;
  ref : option string;
  attribute : option Attribute;
  mapping_anyList : option (list XElement)
}.
Record IdAttributes := mkIdAttributes { attributeMappings : option (list AttributeMapping) }.
Record AuthContextInfo := mkInfo {
  identityProvider : option string;
  authenticationInstant : option Z;        (* nanoseconds *)
  authnContextClassRef : option string;
  assertionRef : option string;
  serviceID : option string;
  info_anyList : option (list XElement)
}.
Record SAMLAuthContext := mkContext { authContextInfo : option AuthContextInfo; idAttributes : option IdAttributes }.

Section Saci.
(** The formatter and the parser of times, and the order of the items of a NamedNodeMap. *)
Context (format : Z → string) (parseDateTime : string → outcome Z) (items : list XAttr → list XAttr).
Definition instantToString (t : option Z) : option string := t ← t; Some (format t).
Definition parseTime (s : option string) : outcome (option Z) :=
  match s with None => Ret None | Some s => t ← parseDateTime s; Ret (Some t) end.
Definition getOtherAttributes (e : XElement) (excludeList : list string) : list XAttr :=
  List.filter (λ a, negb (bool_decide (attrName a ∈ excludeList))) (items (attributes e)).
(** What [requireNonNull] gives, in the exception that wraps it. *)
Definition required {A} (o : option A) (m : string) : outcome unit :=
  match o with Some _ => Ret tt | None => Throw (CertificateException ("java.lang.NullPointerException: " ++ m)) end.
Definition not_null {A} (o : option A) : outcome A := match o with Some a => Ret a | None => Throw NullPointerException end.

(** ** [Attribute] *)
Definition attribute_element (a : Attribute) : XElement :=
  let e := setPrefix "saml" (createElementNS SAML_ASSERTION_NS "Attribute") in
  let e := setAttribute e "Name" (saml_name a) in
  let e := setAttribute e "NameFormat" (nameFormat a) in
  let e := setAttribute e "FriendlyName" (friendlyName a) in
  adoptElements (adoptAttributes e (anyAttrList a)) (attributeValues a).
Definition new_Attribute (e : XElement) (strictMode : bool) : outcome Attribute :=
  let a := mkAttribute (getAttributeValue e "Name") (getAttributeValue e "NameFormat") (getAttributeValue e "FriendlyName")
             (Some (getOtherAttributes e ["Name"; "NameFormat"; "FriendlyName"]))
             (Some (getElements e SAML_ASSERTION_NS "AttributeValue")) in
  _ ← (if strictMode then required (saml_name a) "Name attribute must be present" else Ret tt);
  Ret a.

(** ** [AttributeMapping] *)
Definition type_name (t : MappingType) : string := match t with rdn => "rdn" | san => "san" | sda => "sda" end.
Definition getTypeFromName (name : option string) : option MappingType :=
  findFirst (λ t, bool_decide (Some (type_name t) = name)) [rdn; san; sda].
Definition mapping_element (m : AttributeMapping) : outcome XElement :=
  let e := createElementNS SACI_NS "AttributeMapping" in
  t ← not_null (mapping_type m);
  let e := setAttribute (setAttribute e "Type" (Some (type_name t))) "Ref" (ref m) in
  a ← not_null (attribute m);
  Ret (adoptElements (appendChild e (attribute_element a)) (mapping_anyList m)).
(** The child elements but for those named Attribute; one without a namespace is
    dereferenced. *)
Fixpoint other_elements (l : list XElement) : outcome (list XElement) :=
  match l with
  | [] => Ret []
  | e :: l' =>
      _ ← not_null (namespaceURI e);
      rest ← other_elements l';
      Ret (if named SAML_ASSERTION_NS "Attribute" e then rest else e :: rest)
  end.
Definition new_AttributeMapping (strictMode : bool) (e : XElement) : outcome AttributeMapping :=
  let t := getTypeFromName (getAttributeValue e "Type") in
  let r := getAttributeValue e "Ref" in
  a ← match getSingleElement e SAML_ASSERTION_NS "Attribute" with
      | Some el => a ← new_Attribute el strictMode; Ret (Some a)
      | None => Ret None
      end;
  any ← other_elements (child_elements e);
  _ ← required t "Type attribute must be present in AttributeMapping";
  _ ← required r "Ref attribute must be present in AttributeMapping";
  _ ← required a "Attribute element must be present in AttributeMapping";
  Ret (mkMapping t r a (Some any)).

(** ** [IdAttributes] *)
Definition idAttributes_element (i : IdAttributes) : outcome XElement :=
  l ← mapM mapping_element (default [] (attributeMappings i));
  Ret (fold_left appendChild l (createElementNS SACI_NS "IdAttributes")).
Definition new_IdAttributes (e : XElement) (strictMode : bool) : outcome IdAttributes :=
  l ← mapM (new_AttributeMapping strictMode) (getElements e SACI_NS "AttributeMapping");
  match l with
  | [] => Throw (CertificateException
            "No AttributeMapping present in IdAttributes. At least one Attribute mapping must be present in IdAttributes")
  | _ => Ret (mkIdAttributes (Some l))
  end.

(** ** [AuthContextInfo] *)
Definition info_element (i : AuthContextInfo) : XElement :=
  let e := createElementNS SACI_NS "AuthContextInfo" in
  let e := setAttribute e "IdentityProvider" (identityProvider i) in
  let e := setAttribute e "AuthenticationInstant" (instantToString (authenticationInstant i)) in
  let e := setAttribute e "AuthnContextClassRef" (authnContextClassRef i) in
  let e := setAttribute e "AssertionRef" (assertionRef i) in
  let e := setAttribute e "ServiceID" (serviceID i) in
  adoptElements e (info_anyList i).
Definition new_AuthContextInfo (e : XElement) : outcome AuthContextInfo :=
  let idp := getAttributeValue e "IdentityProvider" in
  t ← parseTime (getAttributeValue e "AuthenticationInstant");
  let c := getAttributeValue e "AuthnContextClassRef" in
  let a := getAttributeValue e "AssertionRef" in
  let s := getAttributeValue e "ServiceID" in
  _ ← required idp "IdentityProvider attribute must be present";
  _ ← required t "AuthenticationInstant attribute must be present";
  _ ← required c "AuthnContextClassRef attribute must be present";
  Ret (mkInfo idp t c a s (Some (child_elements e))).

(** ** [SAMLAuthContext] *)
(** The document that [getDocument] builds, by its root. *)
Definition context_element (c : SAMLAuthContext) : outcome XElement :=
  let e := createElementNS SACI_NS "SAMLAuthContext" in
  let e := match authContextInfo c with Some i => appendChild e (info_element i) | None => e end in
  match idAttributes c with
  | Some i => el ← idAttributes_element i; Ret (appendChild e el)
  | None => Ret e
  end.
Definition setValuesFromElement (e : XElement) (strictMode : bool) : outcome SAMLAuthContext :=
  i ← match getSingleElement e SACI_NS "AuthContextInfo" with
      | Some el => i ← new_AuthContextInfo el; Ret (Some i)
      | None => Ret None
      end;
  a ← match getSingleElement e SACI_NS "IdAttributes" with
      | Some el => a ← new_IdAttributes el strictMode; Ret (Some a)
      | None => Ret None
      end;
  Ret (mkContext i a).
(** A root is refused when both its namespace and its name are wrong. *)
Definition validateDocument (root : XElement) : outcome unit :=
  if negb (bool_decide (namespaceURI root = Some SACI_NS)) && negb (String.eqb (localName root) "SAMLAuthContext")
  then Throw (CertificateException "Illegal root element name") else Ret tt.
Definition new_SAMLAuthContext (root : XElement) (strictMode : bool) : outcome SAMLAuthContext :=
  c ← setValuesFromElement root strictMode;
  _ ← validateDocument root;
  Ret c.
End Saci.
