(* ===== verification/SamlContextProps.v ===== *)
(** * What is read back from the XML of an authentication context

    The element that an object builds is read as that object again, and what is lost or
    refused on the way. *)
From Stdlib Require Import ZArith Lia Ascii String.
From stdpp Require Import base gmap strings list.
From S2P Require Import Prelude SamlContext.

(** ** Trees *)
Definition all_of (e : XElement) : list XElement := e :: descendants e.
Lemma descendants_children e : descendants e = flat_map all_of (child_elements e).
Proof.
  destruct e as [n p l a nodes]. unfold child_elements. simpl. induction nodes as [|[c|s] nodes IH]; [done| |done].
  simpl. by rewrite IH.
Qed.
Lemma child_append e c : child_elements (appendChild e c) = child_elements e ++ [c].
Proof. destruct e as [n p l a nodes]. unfold child_elements. simpl. by rewrite omap_app. Qed.
Lemma fold_append l e : child_elements (fold_left appendChild l e) = child_elements e ++ l ∧
  attributes (fold_left appendChild l e) = attributes e ∧ namespaceURI (fold_left appendChild l e) = namespaceURI e ∧
  localName (fold_left appendChild l e) = localName e.
Proof.
  revert e. induction l as [|c l IH]; intros e; simpl; [by rewrite app_nil_r|].
  destruct (IH (appendChild e c)) as (-> & -> & -> & ->). rewrite child_append, <- app_assoc. by destruct e.
Qed.
Lemma adopt_elements e l : child_elements (adoptElements e l) = child_elements e ++ default [] l ∧
  attributes (adoptElements e l) = attributes e ∧ namespaceURI (adoptElements e l) = namespaceURI e ∧
  localName (adoptElements e l) = localName e.
Proof. apply fold_append. Qed.
Lemma adopt_attributes e l : child_elements (adoptAttributes e l) = child_elements e ∧
  attributes (adoptAttributes e l) = fold_left (λ k a, put_attribute a k) (default [] l) (attributes e) ∧
  namespaceURI (adoptAttributes e l) = namespaceURI e ∧ localName (adoptAttributes e l) = localName e.
Proof.
  unfold adoptAttributes. generalize (default [] l) as k. intros k. revert e. induction k as [|a k IH]; intros e; simpl; [done|].
  destruct (IH (setAttributeNode a e)) as (-> & -> & -> & ->). by destruct e.
Qed.
Lemma set_attribute e name v : child_elements (setAttribute e name v) = child_elements e ∧
  namespaceURI (setAttribute e name v) = namespaceURI e ∧ localName (setAttribute e name v) = localName e ∧
  attributes (setAttribute e name v) = match v with Some v => set_value name v (attributes e) | None => attributes e end.
Proof. by destruct v, e. Qed.
(** The elements with a property, when the tops of a list have it and nothing below has. *)
Lemma filter_tops (p : XElement → bool) l :
  (∀ e, e ∈ l → p e = true ∧ ∀ d, d ∈ descendants e → p d = false) → List.filter p (flat_map all_of l) = l.
Proof.
  induction l as [|e l IH]; intros H; [done|]. destruct (H e ltac:(left)) as [He Hd].
  change (flat_map all_of (e :: l)) with (e :: (descendants e ++ flat_map all_of l)). cbn [List.filter]. rewrite He.
  f_equal. rewrite List.filter_app, filter_none by done. apply IH. intros x Hx. apply H. by right.
Qed.
Lemma all_of_elem d l : d ∈ flat_map all_of l ↔ ∃ e, e ∈ l ∧ (d = e ∨ d ∈ descendants e).
Proof.
  rewrite list_elem_of_In, in_flat_map. setoid_rewrite <- list_elem_of_In. unfold all_of. setoid_rewrite elem_of_cons. done.
Qed.
Lemma named_ns ns name e : named ns name e = true → namespaceURI e = Some ns ∧ localName e = name.
Proof. unfold named. by intros [?%bool_decide_eq_true ?%String.eqb_eq]%andb_true_iff. Qed.
Lemma named_false ns name e : namespaceURI e ≠ Some ns → named ns name e = false.
Proof. intros H. unfold named. by rewrite bool_decide_false. Qed.
Lemma named_other ns name e : localName e ≠ name → named ns name e = false.
Proof. intros H. unfold named. apply andb_false_iff. right. by apply String.eqb_neq. Qed.

Lemma filter_permuted {A} (p : A → bool) l k : l ≡ₚ k → List.filter p l ≡ₚ List.filter p k.
Proof.
  induction 1 as [|x l k _ IH|x y l|l k m _ IH1 _ IH2]; simpl; [done| | |by etrans].
  - destruct (p x); [by constructor|done].
  - destruct (p x), (p y); [constructor|done..].
Qed.

(** ** Attributes *)
Lemma text_set name v l n :
  attribute_text (set_value name v l) n = if String.eqb name n then v else attribute_text l n.
Proof.
  unfold attribute_text, findFirst. induction l as [|b l IH]; simpl; [by destruct (String.eqb name n)|].
  destruct (String.eqb_spec (attrName b) name) as [E|E]; simpl.
  - rewrite E. by destruct (String.eqb_spec name n).
  - destruct (String.eqb_spec (attrName b) n) as [E'|E']; [|done]. destruct (String.eqb_spec name n); [congruence|done].
Qed.
Lemma text_put a l n :
  attribute_text (put_attribute a l) n = if String.eqb (attrName a) n then attrValue a else attribute_text l n.
Proof.
  unfold attribute_text, findFirst. induction l as [|b l IH]; simpl; [by destruct (String.eqb (attrName a) n)|].
  destruct (String.eqb_spec (attrName b) (attrName a)) as [E|E]; simpl.
  - rewrite E. by destruct (String.eqb_spec (attrName a) n).
  - destruct (String.eqb_spec (attrName b) n) as [E'|E']; [|done]. destruct (String.eqb_spec (attrName a) n); [congruence|done].
Qed.
Definition value_of (s : string) : option string := if String.eqb s "" then None else Some s.
Lemma value_set e name v n :
  getAttributeValue (setAttribute e name v) n
  = match v with Some s => if String.eqb name n then value_of s else getAttributeValue e n | None => getAttributeValue e n end.
Proof.
  unfold getAttributeValue. destruct (set_attribute e name v) as (_ & _ & _ & ->). destruct v as [s|]; [|done].
  rewrite text_set. by destruct (String.eqb name n).
Qed.
Lemma value_children e f n : attributes (f e) = attributes e → getAttributeValue (f e) n = getAttributeValue e n.
Proof. unfold getAttributeValue. by intros ->. Qed.
(** A text that is not empty is kept. *)
Definition kept (o : option string) : Prop := o ≠ Some ""%string.
Lemma kept_value s : kept (Some s) → value_of s = Some s.
Proof. unfold value_of. intros H. destruct (String.eqb_spec s ""); [by subst|done]. Qed.
(** An element of neither namespace, nor any below it. *)
Definition plain (e : XElement) : Prop :=
  ∀ d, d ∈ descendants e → namespaceURI d ≠ Some SACI_NS ∧ namespaceURI d ≠ Some SAML_ASSERTION_NS.
Definition foreign (e : XElement) : Prop :=
  namespaceURI e ≠ Some SACI_NS ∧ namespaceURI e ≠ Some SAML_ASSERTION_NS ∧ plain e.

Section Roundtrip.
Context (format : Z → string) (parseDateTime : string → outcome Z) (items : list XAttr → list XAttr).
Context (items_perm : ∀ l, items l ≡ₚ l).

(** ** [Attribute] *)
Definition attribute_names : list string := ["Name"; "NameFormat"; "FriendlyName"].
Record attribute_ok (strict : bool) (a : Attribute) : Prop := {
  ok_name : kept (saml_name a); ok_format : kept (nameFormat a); ok_friendly : kept (friendlyName a);
  ok_strict : strict = true → saml_name a ≠ None;
  ok_any : NoDup (map attrName (default [] (anyAttrList a)));
  ok_any_names : ∀ x, x ∈ default [] (anyAttrList a) → attrName x ∉ attribute_names;
  ok_values : ∀ v, v ∈ default [] (attributeValues a) → named SAML_ASSERTION_NS "AttributeValue" v = true ∧ plain v
}.
(** The same, but for the order of attributes and for lists that are null. *)
Definition same_attribute (a b : Attribute) : Prop :=
  saml_name b = saml_name a ∧ nameFormat b = nameFormat a ∧ friendlyName b = friendlyName a ∧
  default [] (anyAttrList b) ≡ₚ default [] (anyAttrList a) ∧ attributeValues b = Some (default [] (attributeValues a)).
Lemma put_fresh a l : attrName a ∉ map attrName l → put_attribute a l = l ++ [a].
Proof.
  induction l as [|b l IH]; simpl; [done|]. intros [Hb Hl]%not_elem_of_cons.
  destruct (String.eqb_spec (attrName b) (attrName a)); [congruence|]. by rewrite IH.
Qed.
Lemma put_all k l : NoDup (map attrName k) → (∀ a, a ∈ k → attrName a ∉ map attrName l) →
  fold_left (λ k a, put_attribute a k) k l = l ++ k.
Proof.
  revert l. induction k as [|a k IH]; intros l; simpl; [by rewrite app_nil_r|]. intros [Ha Hk]%NoDup_cons Hl.
  rewrite put_fresh by (apply Hl; left). rewrite IH; [by rewrite <- app_assoc|done|].
  intros b Hb. rewrite map_app. simpl. rewrite not_elem_of_app, not_elem_of_cons. split; [apply Hl; by right|]. split; [|apply not_elem_of_nil].
  intros E. apply Ha. rewrite <- E. change (attrName b ∈ attrName <$> k). by apply list_elem_of_fmap_2.
Qed.
Lemma put_values k l n : n ∉ map attrName k → attribute_text (fold_left (λ k a, put_attribute a k) k l) n = attribute_text l n.
Proof.
  revert l. induction k as [|a k IH]; intros l; simpl; [done|]. intros [Ha Hk]%not_elem_of_cons. rewrite IH by done.
  rewrite text_put. by destruct (String.eqb_spec (attrName a) n).
Qed.
Lemma set_value_names name v l x : x ∈ map attrName (set_value name v l) → x = name ∨ x ∈ map attrName l.
Proof.
  induction l as [|b l IH]; simpl; [by intros [->|[]%not_elem_of_nil]%elem_of_cons; left|].
  destruct (String.eqb_spec (attrName b) name) as [E|E]; simpl.
  - intros [->|H]%elem_of_cons; [by left|]. right. by right.
  - intros [->|H]%elem_of_cons; [right; left|]. destruct (IH H); [by left|]. right. by right.
Qed.
(** The element of an attribute without what is adopted. *)
Definition attribute_base (a : Attribute) : XElement :=
  setAttribute (setAttribute (setAttribute (setPrefix "saml" (createElementNS SAML_ASSERTION_NS "Attribute"))
    "Name" (saml_name a)) "NameFormat" (nameFormat a)) "FriendlyName" (friendlyName a).
Lemma base_names a x : x ∈ map attrName (attributes (attribute_base a)) → x ∈ attribute_names.
Proof.
  unfold attribute_base.
  destruct (set_attribute (setAttribute (setAttribute (setPrefix "saml" (createElementNS SAML_ASSERTION_NS "Attribute"))
    "Name" (saml_name a)) "NameFormat" (nameFormat a)) "FriendlyName" (friendlyName a)) as (_ & _ & _ & ->).
  destruct (set_attribute (setAttribute (setPrefix "saml" (createElementNS SAML_ASSERTION_NS "Attribute"))
    "Name" (saml_name a)) "NameFormat" (nameFormat a)) as (_ & _ & _ & ->).
  destruct (set_attribute (setPrefix "saml" (createElementNS SAML_ASSERTION_NS "Attribute")) "Name" (saml_name a)) as (_ & _ & _ & ->).
  unfold attribute_names. intros H.
  repeat match goal with H : _ ∈ map attrName (match ?o with _ => _ end) |- _ => destruct o; [apply set_value_names in H as [->|H]; [set_solver|]|] end;
    by apply elem_of_nil in H.
Qed.
Lemma attribute_element_parts a : let e := attribute_element a in
  child_elements e = default [] (attributeValues a) ∧ namespaceURI e = Some SAML_ASSERTION_NS ∧ localName e = "Attribute"%string ∧
  attributes e = fold_left (λ k a, put_attribute a k) (default [] (anyAttrList a)) (attributes (attribute_base a)).
Proof.
  cbn zeta. unfold attribute_element. fold (attribute_base a).
  destruct (adopt_elements (adoptAttributes (attribute_base a) (anyAttrList a)) (attributeValues a)) as (-> & -> & -> & ->).
  destruct (adopt_attributes (attribute_base a) (anyAttrList a)) as (-> & -> & -> & ->).
  unfold attribute_base. destruct a as [[] [] [] ? ?]; done.
Qed.
Lemma attribute_values a strict : attribute_ok strict a →
  getAttributeValue (attribute_element a) "Name" = saml_name a ∧ getAttributeValue (attribute_element a) "NameFormat" = nameFormat a ∧
  getAttributeValue (attribute_element a) "FriendlyName" = friendlyName a.
Proof.
  intros [Hn Hf Hr _ _ Hany _]. destruct (attribute_element_parts a) as (_ & _ & _ & Ha).
  assert (H : ∀ n, n ∈ attribute_names → getAttributeValue (attribute_element a) n = getAttributeValue (attribute_base a) n).
  { intros n Hin. unfold getAttributeValue. rewrite Ha, put_values; [done|]. intros (x & -> & Hx)%list_elem_of_fmap. by apply (Hany x). }
  rewrite !H by (unfold attribute_names; set_solver). unfold attribute_base. rewrite !value_set. simpl.
  split; [|split].
  - destruct (friendlyName a), (nameFormat a), (saml_name a); simpl; try done; by apply kept_value.
  - destruct (friendlyName a), (nameFormat a); simpl; try (by apply kept_value); by destruct (saml_name a).
  - destruct (friendlyName a); [by apply kept_value|]. by destruct (nameFormat a), (saml_name a).
Qed.
Lemma attribute_roundtrip strict a : attribute_ok strict a →
  ∃ b, new_Attribute items (attribute_element a) strict = Ret b ∧ same_attribute a b.
Proof.
  intros Hok. pose proof Hok as [_ _ _ Hs Hnd Hany Hval]. destruct (attribute_values a strict Hok) as (E1 & E2 & E3).
  destruct (attribute_element_parts a) as (Hc & _ & _ & Ha). unfold new_Attribute. rewrite E1, E2, E3.
  assert (Hv : getElements (attribute_element a) SAML_ASSERTION_NS "AttributeValue" = default [] (attributeValues a)).
  { unfold getElements. rewrite descendants_children, Hc. apply filter_tops. intros e He. destruct (Hval e He) as [Hn Hp]. split; [done|].
    intros d Hd. apply named_false. by destruct (Hp d Hd). }
  assert (Ho : getOtherAttributes items (attribute_element a) attribute_names ≡ₚ default [] (anyAttrList a)).
  { unfold getOtherAttributes. etrans; [apply filter_permuted, items_perm|]. rewrite Ha, put_all; [|done|].
    - rewrite List.filter_app, filter_none, filter_all; [done| |].
      + intros x Hx. apply negb_true_iff, bool_decide_eq_false. by apply Hany.
      + intros x Hx. apply negb_false_iff, bool_decide_eq_true, (base_names a).
        change (attrName x ∈ attrName <$> attributes (attribute_base a)). by apply list_elem_of_fmap_2.
    - intros x Hx Hin. apply (Hany x Hx). by apply (base_names a). }
  rewrite Hv. fold attribute_names. destruct strict; [destruct (saml_name a) eqn:En; [|by destruct (Hs eq_refl)]|];
    eexists; (split; [reflexivity|]); unfold same_attribute; simpl; by rewrite ?En.
Qed.

(** ** [AttributeMapping] *)
Record mapping_ok (strict : bool) (m : AttributeMapping) : Prop := {
  ok_type : mapping_type m ≠ None;
  ok_ref : ref m ≠ None ∧ kept (ref m);
  ok_attribute : ∃ a, attribute m = Some a ∧ attribute_ok strict a;
  ok_mapping_any : ∀ e, e ∈ default [] (mapping_anyList m) → foreign e ∧ namespaceURI e ≠ None
}.
Definition same_mapping (m n : AttributeMapping) : Prop :=
  mapping_type n = mapping_type m ∧ ref n = ref m ∧
  (∃ a b, attribute m = Some a ∧ attribute n = Some b ∧ same_attribute a b) ∧
  mapping_anyList n = Some (default [] (mapping_anyList m)).
Lemma append_value e c n : getAttributeValue (appendChild e c) n = getAttributeValue e n.
Proof. by destruct e. Qed.
Lemma adopt_value e l n : getAttributeValue (adoptElements e l) n = getAttributeValue e n.
Proof. unfold getAttributeValue. by destruct (adopt_elements e l) as (_ & -> & _). Qed.
Lemma others_kept l : (∀ e, e ∈ l → foreign e ∧ namespaceURI e ≠ None) → other_elements l = Ret l.
Proof.
  induction l as [|e l IH]; intros H; [done|]. cbn [other_elements]. destruct (H e ltac:(left)) as [(_ & Hf & _) Hn].
  rewrite IH by (intros x Hx; apply H; by right). rewrite (named_false _ _ e Hf). by destruct (namespaceURI e).
Qed.
Lemma type_read t : getTypeFromName (Some (type_name t)) = Some t.
Proof. by destruct t. Qed.
Lemma mapping_element_parts m el a : mapping_element m = Ret el → attribute m = Some a →
  child_elements el = attribute_element a :: default [] (mapping_anyList m) ∧ namespaceURI el = Some SACI_NS ∧
  localName el = "AttributeMapping"%string ∧ getAttributeValue el "Type" = value_of (default ""%string (type_name <$> mapping_type m)) ∧
  getAttributeValue el "Ref" = (r ← ref m; value_of r).
Proof.
  unfold mapping_element. intros Hel Ha. destruct (mapping_type m) as [t|]; [|done]. rewrite Ha in Hel. mstep. simpl in Hel.
  injection Hel as <-. set (base := setAttribute _ _ _).
  destruct (adopt_elements (appendChild base (attribute_element a)) (mapping_anyList m)) as (-> & _ & -> & ->).
  rewrite child_append, !adopt_value, !append_value. unfold base. rewrite !value_set. cbn [fmap option_fmap option_map].
  repeat split; by destruct (ref m).
Qed.
Lemma mapping_roundtrip strict m el : mapping_ok strict m → mapping_element m = Ret el →
  ∃ n, new_AttributeMapping items strict el = Ret n ∧ same_mapping m n.
Proof.
  intros [Ht [Hr Hk] (a & Ha & Hok) Hany] Hel. destruct (mapping_element_parts m el a Hel Ha) as (Hc & _ & _ & Et & Er).
  destruct (attribute_roundtrip strict a Hok) as (b & Hb & Hs). destruct (attribute_element_parts a) as (_ & Hns & Hl & _).
  unfold new_AttributeMapping. rewrite Et, Er.
  assert (Hsingle : getSingleElement el SAML_ASSERTION_NS "Attribute" = Some (attribute_element a)).
  { unfold getSingleElement, getElements. rewrite descendants_children, Hc. simpl. unfold named at 1. by rewrite Hns, Hl. }
  assert (Hother : other_elements (child_elements el) = Ret (default [] (mapping_anyList m))).
  { rewrite Hc. cbn [other_elements]. rewrite Hns, (others_kept _ Hany). unfold named. by rewrite Hns, Hl. }
  rewrite Hsingle, Hother, Hb. destruct (mapping_type m) as [t|] eqn:Em; [|done]. destruct (ref m) as [r|] eqn:E; [|done].
  simpl. rewrite (kept_value r) by done. replace (value_of (type_name t)) with (Some (type_name t)) by (by destruct t). rewrite type_read.
  eexists. split; [reflexivity|]. unfold same_mapping. simpl. rewrite Em, E. split; [done|]. split; [done|]. split; [by exists a, b|done].
Qed.
(** Below a mapping there is nothing of the namespace. *)
Lemma mapping_below strict m el : mapping_ok strict m → mapping_element m = Ret el →
  ∀ d, d ∈ descendants el → namespaceURI d ≠ Some SACI_NS.
Proof.
  intros [_ _ (a & Ha & [_ _ _ _ _ _ Hv]) Hany] Hel d. destruct (mapping_element_parts m el a Hel Ha) as (Hc & _).
  destruct (attribute_element_parts a) as (Hca & Hns & _). rewrite descendants_children, Hc, all_of_elem. intros (e & He & Hd).
  apply elem_of_cons in He as [->|He].
  - destruct Hd as [->|Hd]; [by rewrite Hns|]. rewrite descendants_children, Hca, all_of_elem in Hd. destruct Hd as (v & Hin & Hd).
    destruct (Hv v Hin) as [Hn Hp]. destruct Hd as [->|Hd]; [|by destruct (Hp d Hd)]. apply named_ns in Hn as [-> _]. done.
  - destruct (Hany e He) as [(Hs & _ & Hp) _]. destruct Hd as [->|Hd]; [done|]. by destruct (Hp d Hd).
Qed.

(** ** [IdAttributes] *)
Lemma mapM_Ret {A B} (f : A → outcome B) l k : mapM f l = Ret k ↔ Forall2 (λ x y, f x = Ret y) l k.
Proof.
  revert k. induction l as [|x l IH]; intros k; simpl; mstep.
  - split; [intros [= <-]; constructor|by inversion 1].
  - destruct (f x) as [y|e] eqn:Hx; [|split; [done|inversion 1; congruence]].
    destruct (mapM f l) as [ys|e] eqn:Hl; split; [intros [= <-]; constructor; [done|by apply IH]| |done|].
    + inversion 1 as [|? y' ? k' Hy Hk]; subst. rewrite Hx in Hy. injection Hy as ->. apply IH in Hk. by injection Hk as ->.
    + inversion 1 as [|? y' ? k' Hy Hk]; subst. by apply IH in Hk.
Qed.
Definition ids_ok (strict : bool) (i : IdAttributes) : Prop :=
  default [] (attributeMappings i) ≠ [] ∧ ∀ m, m ∈ default [] (attributeMappings i) → mapping_ok strict m.
Definition same_ids (i j : IdAttributes) : Prop :=
  ∃ l, attributeMappings j = Some l ∧ Forall2 same_mapping (default [] (attributeMappings i)) l.
Lemma ids_element_parts i el : idAttributes_element i = Ret el →
  Forall2 (λ m e, mapping_element m = Ret e) (default [] (attributeMappings i)) (child_elements el) ∧
  namespaceURI el = Some SACI_NS ∧ localName el = "IdAttributes"%string.
Proof.
  unfold idAttributes_element. mstep. destruct (mapM mapping_element _) as [l|e] eqn:Hl; [|done]. intros [= <-].
  destruct (fold_append l (createElementNS SACI_NS "IdAttributes")) as (-> & _ & -> & ->). by apply mapM_Ret in Hl.
Qed.
Lemma mappings_roundtrip strict l els : (∀ m, m ∈ l → mapping_ok strict m) → Forall2 (λ m e, mapping_element m = Ret e) l els →
  (∀ e, e ∈ els → named SACI_NS "AttributeMapping" e = true ∧ ∀ d, d ∈ descendants e → namespaceURI d ≠ Some SACI_NS) ∧
  ∃ k, mapM (new_AttributeMapping items strict) els = Ret k ∧ Forall2 same_mapping l k.
Proof.
  intros Hok H. induction H as [|m e l els Hm _ IH]; [split; [by intros e ?%elem_of_nil|by exists []]|].
  destruct IH as [IH (k & Hk & Hs)]; [intros x Hx; apply Hok; by right|]. pose proof (Hok m ltac:(left)) as Hmk. split.
  - intros x [->|Hx]%elem_of_cons; [|by apply IH]. split; [|by eapply mapping_below].
    destruct Hmk as [_ _ (a & Ha & _) _]. destruct (mapping_element_parts m e a Hm Ha) as (_ & Hn & Hl & _).
    unfold named. by rewrite Hn, Hl.
  - destruct (mapping_roundtrip strict m e Hmk Hm) as (n & Hn & Hsn). exists (n :: k). simpl. rewrite Hn, Hk. split; [done|by constructor].
Qed.
Lemma ids_roundtrip strict i el : ids_ok strict i → idAttributes_element i = Ret el →
  (∀ d, d ∈ descendants el → namespaceURI d = Some SACI_NS → localName d = "AttributeMapping"%string) ∧
  ∃ j, new_IdAttributes items el strict = Ret j ∧ same_ids i j.
Proof.
  intros [Hne Hok] Hel. destruct (ids_element_parts i el Hel) as (Hf & _).
  destruct (mappings_roundtrip strict _ _ Hok Hf) as [Hnamed (k & Hk & Hs)]. split.
  - intros d Hd Hns. rewrite descendants_children, all_of_elem in Hd. destruct Hd as (e & He & Hd). destruct (Hnamed e He) as [Hn Hb].
    destruct Hd as [->|Hd]; [by apply named_ns in Hn as [_ ?]|]. by destruct (Hb d Hd).
  - unfold new_IdAttributes, getElements. rewrite descendants_children, filter_tops.
    + rewrite Hk. mstep. destruct k as [|n k]; [inversion Hs; congruence|]. eexists. split; [reflexivity|]. by eexists.
    + intros e He. destruct (Hnamed e He) as [Hn Hb]. split; [done|]. intros d Hd. by apply named_false, Hb.
Qed.

(** ** [AuthContextInfo] *)
Section Times.
Context (truncate : Z → Z) (parse_format : ∀ t, parseDateTime (format t) = Ret (truncate t)) (format_text : ∀ t, format t ≠ ""%string).
Record info_ok (i : AuthContextInfo) : Prop := {
  ok_idp : identityProvider i ≠ None ∧ kept (identityProvider i);
  ok_instant : authenticationInstant i ≠ None;
  ok_class : authnContextClassRef i ≠ None ∧ kept (authnContextClassRef i);
  ok_assertion : kept (assertionRef i); ok_service : kept (serviceID i);
  ok_info_any : ∀ e, e ∈ default [] (info_anyList i) → foreign e
}.
(** The same, but for what the format of the time leaves out. *)
Definition same_info (i j : AuthContextInfo) : Prop :=
  identityProvider j = identityProvider i ∧ authenticationInstant j = truncate <$> authenticationInstant i ∧
  authnContextClassRef j = authnContextClassRef i ∧ assertionRef j = assertionRef i ∧ serviceID j = serviceID i ∧
  info_anyList j = Some (default [] (info_anyList i)).
Lemma info_element_parts i : let e := info_element format i in
  child_elements e = default [] (info_anyList i) ∧ namespaceURI e = Some SACI_NS ∧ localName e = "AuthContextInfo"%string.
Proof.
  cbn zeta. unfold info_element. match goal with |- context [adoptElements ?b _] => set (base := b) end.
  destruct (adopt_elements base (info_anyList i)) as (-> & _ & -> & ->). unfold base. by destruct i as [[] [] [] [] [] ?].
Qed.
Lemma info_roundtrip i : info_ok i → ∃ j, new_AuthContextInfo parseDateTime (info_element format i) = Ret j ∧ same_info i j.
Proof.
  intros [[Hi1 Hi2] Ht [Hc1 Hc2] Ha Hs _]. destruct (info_element_parts i) as (Hch & _).
  unfold new_AuthContextInfo. rewrite Hch. unfold info_element. rewrite !adopt_value, !value_set.
  destruct i as [idp t c a s any]. simpl in *. destruct idp as [idp|]; [|done]. destruct t as [t|]; [|done]. destruct c as [c|]; [|done].
  assert (E : value_of (format t) = Some (format t)) by (apply kept_value; unfold kept; intros [=]; by eapply format_text).
  destruct a, s; simpl; rewrite !kept_value by done; rewrite E; simpl; rewrite parse_format; simpl; by eexists.
Qed.
Lemma info_below i d : info_ok i → d ∈ descendants (info_element format i) → namespaceURI d ≠ Some SACI_NS.
Proof.
  intros [_ _ _ _ _ Hany] Hd. destruct (info_element_parts i) as (Hc & _). rewrite descendants_children, Hc, all_of_elem in Hd.
  destruct Hd as (e & He & Hd). destruct (Hany e He) as (Hs & _ & Hp). destruct Hd as [->|Hd]; [done|]. by destruct (Hp d Hd).
Qed.

(** ** [SAMLAuthContext] *)
Definition context_ok (strict : bool) (c : SAMLAuthContext) : Prop :=
  (∀ i, authContextInfo c = Some i → info_ok i) ∧ (∀ i, idAttributes c = Some i → ids_ok strict i).
Definition same_context (c d : SAMLAuthContext) : Prop :=
  option_Forall2 same_info (authContextInfo c) (authContextInfo d) ∧ option_Forall2 same_ids (idAttributes c) (idAttributes d).
(** What is below an element of the context, by name. *)
Lemma single_head e ns name c l : child_elements e = c :: l → named ns name c = true → getSingleElement e ns name = Some c.
Proof. intros Hc Hn. unfold getSingleElement, getElements. rewrite descendants_children, Hc. simpl. by rewrite Hn. Qed.
Lemma single_skip e ns name c l : child_elements e = c :: l → (∀ d, d ∈ all_of c → named ns name d = false) →
  getSingleElement e ns name = head (List.filter (named ns name) (flat_map all_of l)).
Proof.
  intros Hc Hn. unfold getSingleElement, getElements. rewrite descendants_children, Hc.
  change (flat_map all_of (c :: l)) with (all_of c ++ flat_map all_of l). by rewrite List.filter_app, filter_none.
Qed.
Lemma ids_built strict i : ids_ok strict i → ∃ el, idAttributes_element i = Ret el.
Proof.
  intros [_ Hok]. unfold idAttributes_element.
  assert (H : ∃ l, mapM mapping_element (default [] (attributeMappings i)) = Ret l).
  { induction (default [] (attributeMappings i)) as [|m l IH]; [by eexists|].
    destruct IH as [k Hk]; [intros x Hx; apply Hok; by right|]. destruct (Hok m ltac:(left)) as [Ht _ (a & Ha & _) _].
    assert (He : ∃ e, mapping_element m = Ret e) by (unfold mapping_element; destruct (mapping_type m); [rewrite Ha; by eexists|done]).
    destruct He as [e He]. simpl. rewrite He, Hk. by eexists. }
  destruct H as [l ->]. by eexists.
Qed.
Lemma info_named i : named SACI_NS "AuthContextInfo" (info_element format i) = true.
Proof. destruct (info_element_parts i) as (_ & Hn & Hl). unfold named. by rewrite Hn, Hl. Qed.
Lemma info_skipped i d : info_ok i → d ∈ all_of (info_element format i) → named SACI_NS "IdAttributes" d = false.
Proof.
  intros Hok [->|Hd]%elem_of_cons; [|apply named_false; by eapply info_below]. destruct (info_element_parts i) as (_ & _ & Hl).
  apply named_other. by rewrite Hl.
Qed.
(** The XML of an authentication context is read back: for a context whose required parts are
    there, without empty texts and without elements of the two namespaces among its
    extensions, a document is built, and from that document the context is read with the same
    fields, in strict mode or not.  The time loses what its format leaves out, the further
    attributes of a SAML attribute may come in another order, and a list that was null is
    empty. *)
Theorem context_roundtrip strict c : context_ok strict c →
  ∃ el d, context_element format c = Ret el ∧ new_SAMLAuthContext parseDateTime items el strict = Ret d ∧ same_context c d.
Proof.
  intros [Hi Ha]. unfold new_SAMLAuthContext, setValuesFromElement, context_element. set (root := createElementNS SACI_NS "SAMLAuthContext").
  assert (V : ∀ e, localName e = "SAMLAuthContext"%string → validateDocument e = Ret tt)
    by (intros e E; unfold validateDocument; rewrite E; by rewrite andb_false_r).
  destruct (authContextInfo c) as [i|] eqn:Ei, (idAttributes c) as [a|] eqn:Ea.
  - specialize (Hi i eq_refl). specialize (Ha a eq_refl). destruct (ids_built _ _ Ha) as [el Hel]. rewrite Hel.
    destruct (info_roundtrip i Hi) as (j & Hj & Hs). destruct (ids_roundtrip _ _ _ Ha Hel) as [Hb (b & Hb' & Hsb)].
    destruct (ids_element_parts a el Hel) as (_ & Hns & Hl).
    exists (appendChild (appendChild root (info_element format i)) el), (mkContext (Some j) (Some b)). split; [done|].
    assert (Hc : child_elements (appendChild (appendChild root (info_element format i)) el) = [info_element format i; el]) by done.
    rewrite (single_head _ _ _ _ _ Hc (info_named i)), Hj. simpl. rewrite (single_skip _ _ _ _ _ Hc) by (intros d; by apply info_skipped).
    simpl. unfold named at 1. rewrite Hns, Hl. simpl. rewrite Hb'. simpl. rewrite ?V by done. split; [done|].
    unfold same_context. rewrite Ei, Ea. split; by constructor.
  - specialize (Hi i eq_refl). destruct (info_roundtrip i Hi) as (j & Hj & Hs).
    exists (appendChild root (info_element format i)), (mkContext (Some j) None). split; [done|].
    assert (Hc : child_elements (appendChild root (info_element format i)) = [info_element format i]) by done.
    rewrite (single_head _ _ _ _ _ Hc (info_named i)), Hj. simpl. rewrite (single_skip _ _ _ _ _ Hc) by (intros d; by apply info_skipped).
    simpl. rewrite ?V by done. split; [done|]. unfold same_context. rewrite Ei, Ea. split; by constructor.
  - specialize (Ha a eq_refl). destruct (ids_built _ _ Ha) as [el Hel]. rewrite Hel.
    destruct (ids_roundtrip _ _ _ Ha Hel) as [Hb (b & Hb' & Hsb)]. destruct (ids_element_parts a el Hel) as (_ & Hns & Hl).
    exists (appendChild root el), (mkContext None (Some b)). split; [done|].
    assert (Hc : child_elements (appendChild root el) = [el]) by done.
    rewrite (single_head _ SACI_NS "IdAttributes" _ _ Hc) by (unfold named; by rewrite Hns, Hl).
    rewrite (single_skip _ SACI_NS "AuthContextInfo" _ _ Hc).
    + cbn [flat_map List.filter head]. mstep. rewrite Hb'. simpl. rewrite ?V by done. split; [done|]. unfold same_context. rewrite Ei, Ea. split; by constructor.
    + intros d [->|Hd]%elem_of_cons; [apply named_other; by rewrite Hl|].
      destruct (decide (namespaceURI d = Some SACI_NS)) as [E|E]; [|by apply named_false]. apply named_other. by rewrite (Hb d Hd E).
  - exists root, (mkContext None None). split; [done|]. split; [done|]. unfold same_context. rewrite Ei, Ea. split; by constructor.
Qed.
End Times.
End Roundtrip.

(** ** Examples *)
Section Demo.
(** Milliseconds as a sign and strokes. *)
Definition demo_strokes (n : nat) : string := string_of_list_ascii (repeat "1"%char n).
Definition demo_format (t : Z) : string :=
  let ms := Z.div t 1000000 in
  if Z.ltb ms 0 then String "-" (demo_strokes (Z.to_nat (- ms))) else String "+" (demo_strokes (Z.to_nat ms)).
Definition demo_parse (s : string) : outcome Z :=
  match s with
  | String c rest =>
      let ms := Z.of_nat (String.length rest) in
      Ret ((if Ascii.eqb c "-"%char then - ms else ms) * 1000000)%Z
  | "" => Throw (RuntimeException "DateTimeParseException")
  end.
Definition demo_truncate (t : Z) : Z := (Z.div t 1000000 * 1000000)%Z.
Lemma demo_strokes_length n : String.length (demo_strokes n) = n.
Proof. unfold demo_strokes. induction n as [|n IH]; [done|]. simpl. by rewrite IH. Qed.
Lemma demo_parse_format t : demo_parse (demo_format t) = Ret (demo_truncate t).
Proof.
  unfold demo_format, demo_truncate. destruct (Z.ltb_spec (t / 1000000) 0); simpl; rewrite demo_strokes_length, Z2Nat.id by lia;
    f_equal; lia.
Qed.
Lemma demo_format_text t : demo_format t ≠ ""%string.
Proof. unfold demo_format. by destruct (Z.ltb _ _). Qed.
Definition demo_items (l : list XAttr) : list XAttr := rev l.
Lemma demo_items_perm l : demo_items l ≡ₚ l.
Proof. symmetry. apply Permutation_rev. Qed.
Definition demo_value : XElement := mkXE (Some SAML_ASSERTION_NS) (Some "saml"%string) "AttributeValue" [] [inr "Jan"%string].
Definition demo_extension : XElement := mkXE (Some "urn:x"%string) None "Extra" [] [inl (mkXE None None "Part" [] [])].
Definition demo_attribute : Attribute :=
  mkAttribute (Some "givenName"%string) None (Some "given name"%string) (Some [mkXAttr None "a" "1"; mkXAttr None "b" "2"])
    (Some [demo_value]).
Definition demo_mapping : AttributeMapping := mkMapping (Some san) (Some "2.5.4.42"%string) (Some demo_attribute) (Some [demo_extension]).
Definition demo_context : SAMLAuthContext :=
  mkContext (Some (mkInfo (Some "idp"%string) (Some 3000001%Z) (Some "loa3"%string) None (Some "service"%string) (Some [demo_extension])))
    (Some (mkIdAttributes (Some [demo_mapping]))).
Lemma demo_extension_foreign : foreign demo_extension ∧ namespaceURI demo_extension ≠ None.
Proof. split; [|done]. split; [done|]. split; [done|]. intros d. simpl. by intros [->|[]%not_elem_of_nil]%elem_of_cons. Qed.
Lemma context_roundtrip_witness :
  ∃ el d, context_element demo_format demo_context = Ret el ∧ new_SAMLAuthContext demo_parse demo_items el true = Ret d ∧
    same_context demo_truncate demo_context d ∧ (authenticationInstant <$> authContextInfo d) = Some (Some 3000000%Z).
Proof.
  destruct (context_roundtrip demo_format demo_parse demo_items demo_items_perm demo_truncate demo_parse_format demo_format_text true
    demo_context) as (el & d & He & Hd & Hs).
  - split; intros i [= <-].
    + split; try (by split); try done. simpl. intros e [->|[]%not_elem_of_nil]%elem_of_cons. apply demo_extension_foreign.
    + split; [done|]. simpl. intros m [->|[]%not_elem_of_nil]%elem_of_cons. split; [done|done| |].
      * exists demo_attribute. split; [done|]. split; try done.
        -- apply (bool_decide_unpack _). vm_compute. exact I.
        -- simpl. intros x [->|[->|[]%not_elem_of_nil]%elem_of_cons]%elem_of_cons; apply (bool_decide_unpack _); vm_compute; exact I.
        -- simpl. intros v [->|[]%not_elem_of_nil]%elem_of_cons. split; [done|]. by intros x ?%elem_of_nil.
      * simpl. intros e [->|[]%not_elem_of_nil]%elem_of_cons. apply demo_extension_foreign.
  - exists el, d. split; [exact He|]. split; [exact Hd|]. split; [exact Hs|]. destruct Hs as [Hi _]. simpl in Hi.
    inversion Hi as [i j Hij E1 E2|]; subst. simpl. destruct Hij as (_ & -> & _). reflexivity.
Defined.
(** A root with the right namespace or the right name is enough. *)
Example root_half_right :
  new_SAMLAuthContext demo_parse demo_items (createElementNS SACI_NS "Order") true = Ret (mkContext None None) ∧
  new_SAMLAuthContext demo_parse demo_items (createElementNS "urn:x" "SAMLAuthContext") true = Ret (mkContext None None).
Proof. split; vm_compute; reflexivity. Qed.
(** An extension of a mapping without a namespace cannot be read. *)
Example plain_extension_throws : (el ← mapping_element (mkMapping (Some san) (Some "2.5.4.42"%string) (Some demo_attribute)
    (Some [mkXE None None "Extra" [] []])); new_AttributeMapping demo_items false el) = Throw NullPointerException.
Proof. vm_compute. reflexivity. Qed.
(** A value inside a value is read as a value of its own. *)
Example nested_value_counts :
  (attributeValues <$> new_Attribute demo_items
     (attribute_element (mkAttribute None None None None (Some [appendChild demo_value demo_value]))) false)
  = Ret (Some [appendChild demo_value demo_value; demo_value]).
Proof. vm_compute. reflexivity. Qed.
End Demo.
