(* ===== verification/Extensions.v ===== *)
(** * Certificate extensions

    Model of the extension classes of src/cert-extensions: [QCStatements.java],
    [InhibitAnyPolicy.java], [PrivateKeyUsagePeriod.java], [BiometricInfo.java],
    [SubjectInformationAccess.java], [OCSPNoCheck.java] and [AuthnContext.java].  The ASN.1
    objects of BouncyCastle are a class of constructors and readers with the laws that the
    theorems use; what is built is read from memory, not from its bytes. *)
From Stdlib Require Import ZArith Lia Ascii String.
From stdpp Require Import base gmap strings list.
From S2P Require Import Prelude SamlContext.

(** ** ASN.1 objects *)
(** A reader is [getInstance] of a class followed by the access to its value. *)
Class ASN1 := {
  Encodable : Type; GeneralName : Type; BiometricData : Type; AccessDescription : Type;
  oid : string → Encodable; printable : string → Encodable; ia5 : string → Encodable; utf8 : string → Encodable;
  integer : Z → Encodable; sequence : list Encodable → Encodable; tagged_time : nat → Z → Encodable; der_null : Encodable;
  name_value : GeneralName → Encodable; biometric_value : BiometricData → Encodable; access_value : AccessDescription → Encodable;
  getOid : Encodable → outcome string; getPrintable : Encodable → outcome string; getIA5 : Encodable → outcome string;
  getUTF8 : Encodable → outcome string; getInteger : Encodable → outcome Z; getPositiveValue : Encodable → outcome Z;
  getSequence : Encodable → outcome (list Encodable); getTaggedTime : Encodable → outcome (nat * Z);
  getName : Encodable → outcome GeneralName; getBiometric : Encodable → outcome BiometricData;
  getAccess : Encodable → outcome AccessDescription;
  isOid : Encodable → bool; isSequence : Encodable → bool; isPrintable : Encodable → bool;
  decimal : Z → string;                        (* BigInteger.toString *)
  id_qcs_pkixQCSyntax_v1 : string; id_qcs_pkixQCSyntax_v2 : string; id_etsi_qcs_QcCompliance : string;
  id_etsi_qcs_QcSSCD : string; id_etsi_qcs_LimiteValue : string; id_etsi_qcs_RetentionPeriod : string;
  inhibitAnyPolicy : string; authorityInfoAccess : string
}.
Definition QC_OID : string := "1.3.6.1.5.5.7.1.3".
Definition PKI_DISCLOSURE : string := "0.4.0.1862.1.5".
Definition QC_TYPE : string := "0.4.0.1862.1.6".
Definition QC_CC_LEGISLATION : string := "0.4.0.1862.1.7".
Definition BIOMETRIC_OID : string := "1.3.6.1.5.5.7.1.2".
Definition AUTHN_OID : string := "1.2.752.201.5.1".
Definition CONTENT_TYPE : string := "http://id.elegnamnden.se/auth-cont/1.0/saci".

Section Extensions.
Context {A1 : ASN1}.
(** [extensions.getExtensionParsedValue]: null when the extension is absent. *)
Abbreviation Parsed := (string → option Encodable) (only parsing).
Definition object_at {S} (l : list Encodable) (i : nat) : M S Encodable :=
  match l !! i with Some v => mret v | None => raise IndexOutOfBounds end.
Fixpoint for_all_do {S X} (f : X → M S unit) (l : list X) : M S unit :=
  match l with [] => mret tt | x :: l' => f x;; for_all_do f l' end.

(** ** [QCStatements] *)
Record MonetaryValue := mkMonetary { currency : string; amount : Z; exponent : Z }.
Record PDSLocation := mkLocation { lang : string; pdsUrl : string }.
(** The list may be null. *)
Record SemanticsInformation := mkSemantics {
  semanticsIdentifier : option string; nameRegistrationAuthorityList : option (list GeneralName) }.
Definition getNameRegistrationAuthorityList (s : SemanticsInformation) : list GeneralName := default [] (nameRegistrationAuthorityList s).
Record QCStatements := mkQC {
  pkixSyntaxV1 : bool; pkixSyntaxV2 : bool; qcCompliance : bool; pdsStatement : bool; qcSscd : bool; qcType : bool;
  retentionPeriod : bool; limitValue : bool; qcCClegislation : bool;
  monetaryValue : option MonetaryValue;
  qcTypeIdList : option (list string);
  retentionPeriodVal : option Z;
  locationList : option (list PDSLocation);
  semanticsInfo : option SemanticsInformation;
  legislationCountryList : option (list string)
}.
Definition new_QCStatements : QCStatements :=
  mkQC false false false false false false false false false None (Some []) None (Some []) None None.
(** The setters. *)
Definition with_syntax (v1 v2 : bool) (q : QCStatements) : QCStatements :=
  mkQC v1 v2 (qcCompliance q) (pdsStatement q) (qcSscd q) (qcType q) (retentionPeriod q) (limitValue q) (qcCClegislation q)
    (monetaryValue q) (qcTypeIdList q) (retentionPeriodVal q) (locationList q) (semanticsInfo q) (legislationCountryList q).
Definition with_semantics (s : option SemanticsInformation) (q : QCStatements) : QCStatements :=
  mkQC (pkixSyntaxV1 q) (pkixSyntaxV2 q) (qcCompliance q) (pdsStatement q) (qcSscd q) (qcType q) (retentionPeriod q) (limitValue q)
    (qcCClegislation q) (monetaryValue q) (qcTypeIdList q) (retentionPeriodVal q) (locationList q) s (legislationCountryList q).
Definition with_flags (compliance sscd : bool) (q : QCStatements) : QCStatements :=
  mkQC (pkixSyntaxV1 q) (pkixSyntaxV2 q) compliance (pdsStatement q) sscd (qcType q) (retentionPeriod q) (limitValue q)
    (qcCClegislation q) (monetaryValue q) (qcTypeIdList q) (retentionPeriodVal q) (locationList q) (semanticsInfo q)
    (legislationCountryList q).
Definition with_types (b : bool) (l : option (list string)) (q : QCStatements) : QCStatements :=
  mkQC (pkixSyntaxV1 q) (pkixSyntaxV2 q) (qcCompliance q) (pdsStatement q) (qcSscd q) b (retentionPeriod q) (limitValue q)
    (qcCClegislation q) (monetaryValue q) l (retentionPeriodVal q) (locationList q) (semanticsInfo q) (legislationCountryList q).
Definition with_limit (b : bool) (m : option MonetaryValue) (q : QCStatements) : QCStatements :=
  mkQC (pkixSyntaxV1 q) (pkixSyntaxV2 q) (qcCompliance q) (pdsStatement q) (qcSscd q) (qcType q) (retentionPeriod q) b
    (qcCClegislation q) m (qcTypeIdList q) (retentionPeriodVal q) (locationList q) (semanticsInfo q) (legislationCountryList q).
Definition with_retention (b : bool) (z : option Z) (q : QCStatements) : QCStatements :=
  mkQC (pkixSyntaxV1 q) (pkixSyntaxV2 q) (qcCompliance q) (pdsStatement q) (qcSscd q) (qcType q) b (limitValue q)
    (qcCClegislation q) (monetaryValue q) (qcTypeIdList q) z (locationList q) (semanticsInfo q) (legislationCountryList q).
Definition with_locations (b : bool) (l : option (list PDSLocation)) (q : QCStatements) : QCStatements :=
  mkQC (pkixSyntaxV1 q) (pkixSyntaxV2 q) (qcCompliance q) b (qcSscd q) (qcType q) (retentionPeriod q) (limitValue q)
    (qcCClegislation q) (monetaryValue q) (qcTypeIdList q) (retentionPeriodVal q) l (semanticsInfo q) (legislationCountryList q).
Definition with_countries (b : bool) (l : option (list string)) (q : QCStatements) : QCStatements :=
  mkQC (pkixSyntaxV1 q) (pkixSyntaxV2 q) (qcCompliance q) (pdsStatement q) (qcSscd q) (qcType q) (retentionPeriod q) (limitValue q)
    b (monetaryValue q) (qcTypeIdList q) (retentionPeriodVal q) (locationList q) (semanticsInfo q) l.

(** *** [toASN1Primitive] *)
Definition setStatementVal (id : string) (value : option Encodable) : Encodable :=
  sequence (oid id :: match value with Some v => [v] | None => [] end).
Definition setSemanticsInfo (q : QCStatements) (syntax : string) : Encodable :=
  match semanticsInfo q with
  | None => setStatementVal syntax None
  | Some s =>
      let names := getNameRegistrationAuthorityList s in
      setStatementVal syntax (Some (sequence
        (match semanticsIdentifier s with Some i => [oid i] | None => [] end ++
         match names with [] => [] | _ => [sequence (map name_value names)] end)))
  end.
Definition qc_part (b : bool) (v : outcome Encodable) : outcome (list Encodable) :=
  if b then v ← v; Ret [v] else Ret [].
Definition qc_statements (q : QCStatements) : outcome (list Encodable) :=
  v1 ← qc_part (pkixSyntaxV1 q) (Ret (setSemanticsInfo q id_qcs_pkixQCSyntax_v1));
  v2 ← qc_part (pkixSyntaxV2 q) (Ret (setSemanticsInfo q id_qcs_pkixQCSyntax_v2));
  compliance ← qc_part (qcCompliance q) (Ret (setStatementVal id_etsi_qcs_QcCompliance None));
  sscd ← qc_part (qcSscd q) (Ret (setStatementVal id_etsi_qcs_QcSSCD None));
  types ← qc_part (qcType q)
    (l ← not_null (qcTypeIdList q); Ret (setStatementVal QC_TYPE (Some (sequence (map oid l)))));
  limit ← qc_part (limitValue q)
    (m ← not_null (monetaryValue q);
     Ret (setStatementVal id_etsi_qcs_LimiteValue
       (Some (sequence [printable (currency m); integer (amount m); integer (exponent m)]))));
  retention ← qc_part (retentionPeriod q)
    (z ← not_null (retentionPeriodVal q); Ret (setStatementVal id_etsi_qcs_RetentionPeriod (Some (integer z))));
  pds ← qc_part (pdsStatement q)
    (l ← not_null (locationList q);
     Ret (setStatementVal PKI_DISCLOSURE (Some (sequence (map (λ p, sequence [ia5 (pdsUrl p); printable (lang p)]) l)))));
  legislation ← qc_part (qcCClegislation q)
    (l ← not_null (legislationCountryList q); Ret (setStatementVal QC_CC_LEGISLATION (Some (sequence (map printable l)))));
  Ret (v1 ++ v2 ++ compliance ++ sscd ++ types ++ limit ++ retention ++ pds ++ legislation).
Definition qc_toASN1Primitive (q : QCStatements) : outcome Encodable := l ← qc_statements q; Ret (sequence l).

(** *** Reading *)
Definition getSemanticsInfoVals (v : Encodable) : M QCStatements unit :=
  when (isOid v)
    (i ← lift (getOid v);
     s ← gets semanticsInfo; s ← deref s;
     modify (with_semantics (Some (mkSemantics (Some i) (nameRegistrationAuthorityList s)))));;
  when (isSequence v)
    (l ← lift (getSequence v);
     s ← gets semanticsInfo; s ← deref s;
     modify (with_semantics (Some (mkSemantics (semanticsIdentifier s)
       (Some (omap (λ v, match getName v with Ret n => Some n | Throw _ => None end) l)))))).
Definition read_currency (v : Encodable) : outcome string :=
  if isPrintable v then getPrintable v else (z ← getInteger v; Ret (decimal z)).
Definition read_limit (v : Encodable) : M QCStatements MonetaryValue :=
  l ← lift (getSequence v);
  c ← object_at l 0; c ← lift (read_currency c);
  a ← object_at l 1; a ← lift (getInteger a);
  e ← object_at l 2; e ← lift (getInteger e);
  mret (mkMonetary c a e).
(** The items are added one by one, so those before an exception stay. *)
Definition read_type (v : Encodable) : M QCStatements unit :=
  i ← lift (getOid v);
  modify (λ q, with_types (qcType q) (Some (default [] (qcTypeIdList q) ++ [i])) q).
Definition read_location (v : Encodable) : M QCStatements unit :=
  l ← lift (getSequence v);
  url ← object_at l 0; url ← lift (getIA5 url);
  lg ← object_at l 1; lg ← lift (getIA5 lg);
  modify (λ q, with_locations (pdsStatement q) (Some (default [] (locationList q) ++ [mkLocation lg url])) q).
Definition read_country (v : Encodable) : M QCStatements unit :=
  c ← lift (getPrintable v);
  modify (λ q, with_countries (qcCClegislation q) (Some (default [] (legislationCountryList q) ++ [c])) q).
Definition statement_vals (l : list Encodable) : M QCStatements unit :=
  v ← object_at l 0;
  id ← lift (getOid v);
  when (String.eqb id id_qcs_pkixQCSyntax_v1) (modify (λ q, with_syntax true (pkixSyntaxV2 q) q));;
  when (String.eqb id id_qcs_pkixQCSyntax_v2) (modify (λ q, with_syntax (pkixSyntaxV1 q) true q));;
  when (String.eqb id id_qcs_pkixQCSyntax_v2 || String.eqb id id_qcs_pkixQCSyntax_v1)
    (when (1 <? length l)
       (v ← object_at l 1; si ← lift (getSequence v);
        modify (with_semantics (Some (mkSemantics None None)));;
        for_all_do getSemanticsInfoVals si));;
  when (String.eqb id id_etsi_qcs_QcCompliance) (modify (λ q, with_flags true (qcSscd q) q));;
  when (String.eqb id id_etsi_qcs_QcSSCD) (modify (λ q, with_flags (qcCompliance q) true q));;
  when (String.eqb id QC_TYPE)
    (modify (λ q, with_types true (qcTypeIdList q) q);;
     v ← object_at l 1; types ← lift (getSequence v);
     modify (λ q, with_types (qcType q) (Some []) q);;
     for_all_do read_type types);;
  when (String.eqb id id_etsi_qcs_LimiteValue)
    (modify (λ q, with_limit true (monetaryValue q) q);;
     v ← object_at l 1; m ← read_limit v;
     modify (λ q, with_limit (limitValue q) (Some m) q));;
  when (String.eqb id id_etsi_qcs_RetentionPeriod)
    (modify (λ q, with_retention true (retentionPeriodVal q) q);;
     v ← object_at l 1; z ← lift (getInteger v);
     modify (λ q, with_retention (retentionPeriod q) (Some z) q));;
  when (String.eqb id PKI_DISCLOSURE)
    (modify (λ q, with_locations true (locationList q) q);;
     v ← object_at l 1; locations ← lift (getSequence v);
     modify (λ q, with_locations (pdsStatement q) (Some []) q);;
     for_all_do read_location locations);;
  when (String.eqb id QC_CC_LEGISLATION)
    (modify (λ q, with_countries true (legislationCountryList q) q);;
     v ← object_at l 1; countries ← lift (getSequence v);
     modify (λ q, with_countries (qcCClegislation q) (Some []) q);;
     for_all_do read_country countries).
(** [setStatementVals]: an exception leaves what was set before it. *)
Definition setStatementVals (l : list Encodable) : M QCStatements unit :=
  try_catch (statement_vals l) (λ _, mret tt).
Definition read_statements (l : list Encodable) : M QCStatements unit :=
  for_all_do (λ v, l ← lift (getSequence v); setStatementVals l) l.
(** [getInstance] of what is not already an object of the class; null gives null. *)
Definition qc_getInstance (obj : option Encodable) : outcome (option QCStatements) :=
  match obj with
  | None => Ret None
  | Some v =>
      seq ← getSequence v;
      match read_statements seq new_QCStatements with
      | (Ret _, q) => Ret (Some q)
      | (Throw _, _) => Throw (IllegalArgumentException "Bad extension content")
      end
  end.
Definition qc_fromExtensions (extensions : Parsed) : outcome (option QCStatements) := qc_getInstance (extensions QC_OID).
(** [clearAll], which is not used. *)
Definition clearAll (q : QCStatements) : QCStatements :=
  mkQC false false false false false false false false (qcCClegislation q) (monetaryValue q) (qcTypeIdList q) (retentionPeriodVal q)
    (locationList q) (semanticsInfo q) (legislationCountryList q).

(** ** [InhibitAnyPolicy] *)
Definition new_InhibitAnyPolicy (skipcerts : Z) : Z := skipcerts.
Definition inhibit_toASN1Primitive (skipCerts : Z) : Encodable := integer skipCerts.
(** [ASN1Integer.getInstance] and then [getPositiveValue]. *)
Definition inhibit_getInstance (obj : option Encodable) : outcome (option Z) :=
  match obj with
  | None => Ret None
  | Some v =>
      _ ← getInteger v;
      match getPositiveValue v with
      | Ret z => Ret (Some z)
      | Throw _ => Throw (IllegalArgumentException "Bad extension content")
      end
  end.
Definition inhibit_fromExtensions (extensions : Parsed) : outcome (option Z) := inhibit_getInstance (extensions inhibitAnyPolicy).

(** ** [PrivateKeyUsagePeriod] *)
Record PrivateKeyUsagePeriod := mkPeriod { notBefore : option Z; notAfter : option Z }.
Definition period_toASN1Primitive (p : PrivateKeyUsagePeriod) : Encodable :=
  sequence (match notBefore p with Some t => [tagged_time 0 t] | None => [] end ++
            match notAfter p with Some t => [tagged_time 1 t] | None => [] end).
(** An item that is not a tagged time is passed over. *)
Definition period_item (p : PrivateKeyUsagePeriod) (v : Encodable) : PrivateKeyUsagePeriod :=
  match getTaggedTime v with
  | Ret (0, t) => mkPeriod (Some t) (notAfter p)
  | Ret (1, t) => mkPeriod (notBefore p) (Some t)
  | _ => p
  end.
Definition period_getInstance (obj : option Encodable) : outcome (option PrivateKeyUsagePeriod) :=
  match obj with
  | None => Ret None
  | Some v => l ← getSequence v; Ret (Some (fold_left period_item l (mkPeriod None None)))
  end.
(** The extension that is looked for is the one for authority information. *)
Definition period_fromExtensions (extensions : Parsed) : outcome (option PrivateKeyUsagePeriod) :=
  period_getInstance (extensions authorityInfoAccess).

(** ** [BiometricInfo] *)
Definition biometric_toASN1Primitive (l : list BiometricData) : Encodable := sequence (map biometric_value l).
Definition biometric_getInstance (obj : option Encodable) : outcome (option (list BiometricData)) :=
  match obj with
  | None => Ret None
  | Some v =>
      l ← getSequence v;
      match mapM getBiometric l with
      | Ret k => Ret (Some k)
      | Throw _ => Throw (IllegalArgumentException "Bad extension content")
      end
  end.
Definition biometric_fromExtensions (extensions : Parsed) : outcome (option (list BiometricData)) :=
  biometric_getInstance (extensions BIOMETRIC_OID).

(** ** [SubjectInformationAccess] *)
Definition access_toASN1Primitive (l : list AccessDescription) : Encodable := sequence (map access_value l).
Definition access_getInstance (obj : option Encodable) : outcome (option (list AccessDescription)) :=
  match obj with
  | None => Ret None
  | Some v =>
      l ← getSequence v;
      match l with
      | [] => Throw (IllegalArgumentException "sequence may not be empty")
      | _ => k ← mapM getAccess l; Ret (Some k)
      end
  end.
(** The extension that is looked for is the one for authority information. *)
Definition access_fromExtensions (extensions : Parsed) : outcome (option (list AccessDescription)) :=
  access_getInstance (extensions authorityInfoAccess).

(** ** [OCSPNoCheck] *)
Definition nocheck_toASN1Primitive : Encodable := der_null.

(** ** [AuthnContext] *)
Section Authn.
(** The text of a document and the document of a text; the arguments of the XML classes. *)
Context (print : XElement → outcome string) (parse : string → outcome XElement).
Context (format : Z → string) (parseDateTime : string → outcome Z) (items : list XAttr → list XAttr).
Definition getAuthnContext (xml : string) (strictMode : bool) : outcome SAMLAuthContext :=
  el ← parse xml; new_SAMLAuthContext parseDateTime items el strictMode.
Definition printAuthnContext (c : SAMLAuthContext) : outcome string := el ← context_element format c; print el.
(** A context that cannot be printed is left out. *)
Definition authn_toASN1Primitive (l : list SAMLAuthContext) : Encodable :=
  sequence (omap (λ c, match printAuthnContext c with
                       | Ret xml => Some (sequence [utf8 CONTENT_TYPE; utf8 xml])
                       | Throw _ => None
                       end) l).
(** The context is read before its type is looked at. *)
Fixpoint authn_items (strictMode : bool) (l : list Encodable) : outcome (list SAMLAuthContext) :=
  match l with
  | [] => Ret []
  | v :: l' =>
      contSeq ← getSequence v;
      t ← match contSeq !! 0 with Some t => getUTF8 t | None => Throw IndexOutOfBounds end;
      i ← match contSeq !! 1 with Some i => getUTF8 i | None => Throw IndexOutOfBounds end;
      c ← getAuthnContext i strictMode;
      rest ← authn_items strictMode l';
      Ret (if equalsIgnoreCase t CONTENT_TYPE then c :: rest else rest)
  end.
Definition authn_getInstance (obj : option Encodable) (strictMode : bool) : outcome (option (list SAMLAuthContext)) :=
  match obj with
  | None => Ret None
  | Some v =>
      seq ← getSequence v;
      match authn_items strictMode seq with
      | Ret l => Ret (Some l)
      | Throw _ => Throw (IllegalArgumentException "Bad extension content")
      end
  end.
Definition authn_fromExtensions (extensions : Parsed) (strictMode : bool) : outcome (option (list SAMLAuthContext)) :=
  authn_getInstance (extensions AUTHN_OID) strictMode.
End Authn.
End Extensions.
