(* ===== verification/ExtensionsProps.v ===== *)
(** * What is read back from certificate extensions

    The laws of ASN.1 objects, and what each extension class reads of its own encoding. *)
From Stdlib Require Import ZArith Lia Ascii String.
From stdpp Require Import base gmap strings list.
From S2P Require Import Prelude SamlContext SamlContextProps Extensions.

(** What a reader answers for what a constructor built; a string of one type is not one of
    another, and times are kept to the second. *)
Class ASN1Laws (A1 : ASN1) : Prop := {
  oid_read s : getOid (oid s) = Ret s;
  printable_read s : getPrintable (printable s) = Ret s;
  ia5_read s : getIA5 (ia5 s) = Ret s;
  ia5_printable s : is_Ret (getIA5 (printable s)) = false;
  utf8_read s : getUTF8 (utf8 s) = Ret s;
  integer_read z : getInteger (integer z) = Ret z;
  positive_read z : (0 ≤ z)%Z → getPositiveValue (integer z) = Ret z;
  sequence_read l : getSequence (sequence l) = Ret l;
  name_read n : getName (name_value n) = Ret n;
  biometric_read b : getBiometric (biometric_value b) = Ret b;
  access_read a : getAccess (access_value a) = Ret a;
  time_read n t : getTaggedTime (tagged_time n t) = Ret (n, (t / 1000 * 1000)%Z);
  oid_kind s : isOid (oid s) = true ∧ isSequence (oid s) = false;
  sequence_kind l : isOid (sequence l) = false ∧ isSequence (sequence l) = true;
  printable_kind s : isPrintable (printable s) = true;
  qc_ids : NoDup [id_qcs_pkixQCSyntax_v1; id_qcs_pkixQCSyntax_v2; id_etsi_qcs_QcCompliance; id_etsi_qcs_QcSSCD; QC_TYPE;
    id_etsi_qcs_LimiteValue; id_etsi_qcs_RetentionPeriod; PKI_DISCLOSURE; QC_CC_LEGISLATION]
}.

Section Props.
Context {A1 : ASN1} {AL : ASN1Laws A1}.

(** ** One statement *)
#[local] Opaque QC_TYPE PKI_DISCLOSURE QC_CC_LEGISLATION.
(** Decides the comparisons of identifiers. *)
Ltac decide_ids :=
  let H := fresh in pose proof qc_ids as H;
  repeat (apply NoDup_cons in H; let N := fresh in destruct H as [N H];
          repeat (apply not_elem_of_cons in N; destruct N as [? N]));
  repeat match goal with
  | |- context [String.eqb ?a ?b] =>
      first [rewrite (String.eqb_refl a)
            |let E := fresh in assert (E : a ≠ b) by congruence; apply String.eqb_neq in E; rewrite E; clear E]
  end; cbn [orb].
Ltac statement := unfold setStatementVals, statement_vals, object_at; mstep; cbn [lookup list_lookup]; rewrite ?oid_read; decide_ids.
Lemma syntax_read b q : setStatementVals [oid (if b : bool then id_qcs_pkixQCSyntax_v1 else id_qcs_pkixQCSyntax_v2)] q
  = (Ret tt, if b then with_syntax true (pkixSyntaxV2 q) q else with_syntax (pkixSyntaxV1 q) true q).
Proof. destruct b; statement; done. Qed.
Lemma compliance_read q : setStatementVals [oid id_etsi_qcs_QcCompliance] q = (Ret tt, with_flags true (qcSscd q) q).
Proof. by statement. Qed.
Lemma sscd_read q : setStatementVals [oid id_etsi_qcs_QcSSCD] q = (Ret tt, with_flags (qcCompliance q) true q).
Proof. by statement. Qed.
Lemma retention_read z q :
  setStatementVals [oid id_etsi_qcs_RetentionPeriod; integer z] q = (Ret tt, with_retention true (Some z) q).
Proof. statement. by rewrite integer_read. Qed.
Lemma limit_read m q :
  setStatementVals [oid id_etsi_qcs_LimiteValue; sequence [printable (currency m); integer (amount m); integer (exponent m)]] q
  = (Ret tt, with_limit true (Some m) q).
Proof.
  statement. unfold read_limit, object_at, read_currency. mstep. rewrite sequence_read. cbn.
  rewrite printable_kind, printable_read, !integer_read. by destruct m.
Qed.

(** The loops over the items of a value. *)
Lemma types_loop l k q : qcTypeIdList q = Some k →
  for_all_do read_type (map oid l) q = (Ret tt, with_types (qcType q) (Some (k ++ l)) q).
Proof.
  revert k q. induction l as [|s l IH]; intros k q Hq; simpl; [rewrite app_nil_r, <- Hq; by destruct q|].
  mstep. unfold read_type at 1. mstep. rewrite oid_read, Hq. rewrite (IH (k ++ [s])) by done. by rewrite <- app_assoc.
Qed.
Lemma countries_loop l k q : legislationCountryList q = Some k →
  for_all_do read_country (map printable l) q = (Ret tt, with_countries (qcCClegislation q) (Some (k ++ l)) q).
Proof.
  revert k q. induction l as [|s l IH]; intros k q Hq; simpl; [rewrite app_nil_r, <- Hq; by destruct q|].
  mstep. unfold read_country at 1. mstep. rewrite printable_read, Hq. rewrite (IH (k ++ [s])) by done. by rewrite <- app_assoc.
Qed.
(** A location is not read: its language is not an IA5 string. *)
Lemma location_throws p q : ∃ e, read_location (sequence [ia5 (pdsUrl p); printable (lang p)]) q = (Throw e, q).
Proof.
  unfold read_location, object_at. mstep. rewrite sequence_read. cbn. rewrite ia5_read. pose proof (ia5_printable (lang p)) as H.
  destruct (getIA5 (printable (lang p))) as [s|e]; [done|by exists e].
Qed.
Lemma types_read l q :
  setStatementVals [oid QC_TYPE; sequence (map oid l)] q = (Ret tt, with_types true (Some l) q).
Proof. statement. rewrite sequence_read. cbn. by rewrite (types_loop l []). Qed.
Lemma countries_read l q :
  setStatementVals [oid QC_CC_LEGISLATION; sequence (map printable l)] q = (Ret tt, with_countries true (Some l) q).
Proof. statement. rewrite sequence_read. cbn. by rewrite (countries_loop l []). Qed.
Lemma locations_read l q :
  setStatementVals [oid PKI_DISCLOSURE; sequence (map (λ p, sequence [ia5 (pdsUrl p); printable (lang p)]) l)] q
  = (Ret tt, with_locations true (Some []) q).
Proof.
  statement. rewrite sequence_read. cbn. destruct l as [|p l]; [done|]. simpl. mstep.
  match goal with |- context [read_location _ ?s] => destruct (location_throws p s) as [e ->] end. done.
Qed.
(** What is read of semantics information: an empty list of names is null. *)
Definition read_semantics (s : SemanticsInformation) : SemanticsInformation :=
  mkSemantics (semanticsIdentifier s) (match getNameRegistrationAuthorityList s with [] => None | l => Some l end).
Lemma names_read l : omap (λ v, match getName v with Ret n => Some n | Throw _ => None end) (map name_value l) = l.
Proof. induction l as [|n l IH]; [done|]. simpl. rewrite name_read. by f_equal. Qed.
Definition semantics_items (s : SemanticsInformation) : list Encodable :=
  match semanticsIdentifier s with Some i => [oid i] | None => [] end ++
  match getNameRegistrationAuthorityList s with [] => [] | l => [sequence (map name_value l)] end.
Lemma semantics_loop s q : semanticsInfo q = Some (mkSemantics None None) →
  for_all_do getSemanticsInfoVals (semantics_items s) q = (Ret tt, with_semantics (Some (read_semantics s)) q).
Proof.
  intros Hq. unfold semantics_items, read_semantics. pose proof sequence_kind as Hs. pose proof oid_kind as Ho.
  destruct (semanticsIdentifier s) as [i|], (getNameRegistrationAuthorityList s) as [|n l]; simpl; unfold getSemanticsInfoVals; mstep.
  - destruct (Ho i) as [-> ->]. by rewrite oid_read, Hq.
  - destruct (Ho i) as [-> ->]. destruct (Hs (map name_value (n :: l))) as [Es1 Es2]. simpl in Es1, Es2. rewrite oid_read, Hq, Es1, Es2, sequence_read.
    simpl. pose proof (names_read (n :: l)) as Hn. simpl in Hn. by rewrite Hn.
  - rewrite <- Hq. by destruct q.
  - destruct (Hs (map name_value (n :: l))) as [Es1 Es2]. simpl in Es1, Es2. rewrite Es1, Es2, sequence_read. mstep; cbn beta iota; rewrite Hq.
    change (name_value n :: map name_value l) with (map name_value (n :: l)). by rewrite names_read.
Qed.
Lemma semantics_read b s q :
  setStatementVals [oid (if b : bool then id_qcs_pkixQCSyntax_v1 else id_qcs_pkixQCSyntax_v2); sequence (semantics_items s)] q
  = (Ret tt, with_semantics (Some (read_semantics s)) (if b then with_syntax true (pkixSyntaxV2 q) q else with_syntax (pkixSyntaxV1 q) true q)).
Proof. destruct b; statement; cbn; rewrite sequence_read; cbn; by rewrite semantics_loop. Qed.

(** ** All statements *)
Definition reads (l : list Encodable) (f : QCStatements → QCStatements) : Prop := ∀ s, read_statements l s = (Ret tt, f s).
Lemma reads_one l f : (∀ s, setStatementVals l s = (Ret tt, f s)) → reads [sequence l] f.
Proof. intros H s. unfold read_statements. simpl. mstep. by rewrite sequence_read, H. Qed.
Lemma for_all_app {S X} (f : X → M S unit) l k s s1 :
  for_all_do f l s = (Ret tt, s1) → for_all_do f (l ++ k) s = for_all_do f k s1.
Proof.
  revert s. induction l as [|x l IH]; intros s; simpl; [by intros [= ->]|]. mstep.
  destruct (f x s) as [[[]|e] s2]; [apply IH|done].
Qed.
Lemma reads_app l k f g : reads l f → reads k g → reads (l ++ k) (λ s, g (f s)).
Proof. intros Hl Hk s. unfold read_statements. rewrite (for_all_app _ _ _ _ _ (Hl s)). apply Hk. Qed.
Lemma reads_part (b : bool) v l f : qc_part b v = Ret l → (∀ x, v = Ret x → reads [x] f) → reads l (λ s, if b then f s else s).
Proof.
  unfold qc_part. destruct b; [|by intros [= <-] _ s]. mstep. destruct v as [x|e]; [|done]. intros [= <-] H. by apply H.
Qed.
Definition read_syntax (b : bool) (q s : QCStatements) : QCStatements :=
  let s := if b then with_syntax true (pkixSyntaxV2 s) s else with_syntax (pkixSyntaxV1 s) true s in
  match semanticsInfo q with None => s | Some i => with_semantics (Some (read_semantics i)) s end.
Lemma syntax_reads b q : reads [setSemanticsInfo q (if b : bool then id_qcs_pkixQCSyntax_v1 else id_qcs_pkixQCSyntax_v2)] (read_syntax b q).
Proof.
  unfold setSemanticsInfo, setStatementVal, read_syntax. destruct (semanticsInfo q) as [i|]; apply reads_one; intros s.
  - pose proof (semantics_read b i s) as H. unfold semantics_items in H. cbn zeta.
    destruct (getNameRegistrationAuthorityList i); exact H.
  - apply syntax_read.
Qed.
(** What is read back: the flags, and the value of each statement whose flag is set, but for
    the locations. *)
Definition read_back (q : QCStatements) : QCStatements :=
  mkQC (pkixSyntaxV1 q) (pkixSyntaxV2 q) (qcCompliance q) (pdsStatement q) (qcSscd q) (qcType q) (retentionPeriod q) (limitValue q)
    (qcCClegislation q)
    (if limitValue q then monetaryValue q else None)
    (if qcType q then qcTypeIdList q else Some [])
    (if retentionPeriod q then retentionPeriodVal q else None)
    (Some [])
    (if pkixSyntaxV1 q || pkixSyntaxV2 q then read_semantics <$> semanticsInfo q else None)
    (if qcCClegislation q then legislationCountryList q else None).
Lemma back_fields q :
  (let s := if pkixSyntaxV1 q then read_syntax true q new_QCStatements else new_QCStatements in
   let s := if pkixSyntaxV2 q then read_syntax false q s else s in
   let s := if qcCompliance q then with_flags true (qcSscd s) s else s in
   let s := if qcSscd q then with_flags (qcCompliance s) true s else s in
   let s := if qcType q then with_types true (qcTypeIdList q) s else s in
   let s := if limitValue q then with_limit true (monetaryValue q) s else s in
   let s := if retentionPeriod q then with_retention true (retentionPeriodVal q) s else s in
   let s := if pdsStatement q then with_locations true (Some []) s else s in
   if qcCClegislation q then with_countries true (legislationCountryList q) s else s) = read_back q.
Proof.
  destruct q as [v1 v2 c p s t r l g mv tl rv ll si cl]. unfold read_syntax, read_back. cbn.
  destruct v1, v2, si, c; cbn; destruct s, t; cbn; destruct l, r; cbn; destruct p, g; reflexivity.
Qed.
Lemma statements_read q l : qc_statements q = Ret l → read_statements l new_QCStatements = (Ret tt, read_back q).
Proof.
  unfold qc_statements. mstep.
  repeat match goal with |- context [match qc_part ?b ?v with _ => _ end] => destruct (qc_part b v) eqn:?; [|done] end.
  intros [= <-]. enough (H : ∃ f, reads (a ++ a0 ++ a1 ++ a2 ++ a3 ++ a4 ++ a5 ++ a6 ++ a7) f ∧ f new_QCStatements = read_back q)
    by (destruct H as (f & Hf & <-); apply Hf).
  eexists. split.
  { eapply reads_app; [eapply reads_part; [eassumption|intros x [= <-]; apply (syntax_reads true)]|].
    eapply reads_app; [eapply reads_part; [eassumption|intros x [= <-]; apply (syntax_reads false)]|].
    eapply reads_app; [eapply reads_part; [eassumption|intros x [= <-]; apply reads_one, compliance_read]|].
    eapply reads_app; [eapply reads_part; [eassumption|intros x [= <-]; apply reads_one, sscd_read]|].
    eapply reads_app; [eapply (reads_part _ _ _ (with_types true (qcTypeIdList q))); [eassumption|]|].
    { intros x Hx. destruct (qcTypeIdList q); [|done]. injection Hx as <-. apply reads_one, types_read. }
    eapply reads_app; [eapply (reads_part _ _ _ (with_limit true (monetaryValue q))); [eassumption|]|].
    { intros x Hx. destruct (monetaryValue q); [|done]. injection Hx as <-. apply reads_one, limit_read. }
    eapply reads_app; [eapply (reads_part _ _ _ (with_retention true (retentionPeriodVal q))); [eassumption|]|].
    { intros x Hx. destruct (retentionPeriodVal q); [|done]. injection Hx as <-. apply reads_one, retention_read. }
    eapply reads_app; [eapply (reads_part _ _ _ (with_locations true (Some []))); [eassumption|]|].
    { intros x Hx. destruct (locationList q); [|done]. injection Hx as <-. apply reads_one, locations_read. }
    eapply (reads_part _ _ _ (with_countries true (legislationCountryList q))); [eassumption|].
    intros x Hx. destruct (legislationCountryList q); [|done]. injection Hx as <-. apply reads_one, countries_read. }
  clear. apply back_fields.
Qed.

(** Values are there for the flags that are set and for no others, and there are no
    locations. *)
Record settled (q : QCStatements) : Prop := {
  settled_limit : limitValue q = false → monetaryValue q = None;
  settled_types : qcType q = false → qcTypeIdList q = Some [];
  settled_retention : retentionPeriod q = false → retentionPeriodVal q = None;
  settled_countries : qcCClegislation q = false → legislationCountryList q = None;
  settled_semantics : ∀ s, semanticsInfo q = Some s → pkixSyntaxV1 q || pkixSyntaxV2 q = true ∧ nameRegistrationAuthorityList s ≠ Some [];
  settled_locations : locationList q = Some []
}.
Lemma settled_back q : settled q → read_back q = q.
Proof.
  intros [H1 H2 H3 H4 H5 H6]. unfold read_back.
  assert (E : (if pkixSyntaxV1 q || pkixSyntaxV2 q then read_semantics <$> semanticsInfo q else None) = semanticsInfo q).
  { destruct (semanticsInfo q) as [s|] eqn:Es; [|by destruct (_ || _)]. destruct (H5 s eq_refl) as [-> Hs]. simpl. f_equal.
    destruct s as [i n]. unfold read_semantics, getNameRegistrationAuthorityList. simpl in *. by destruct n as [[]|]. }
  rewrite E.
  replace (if limitValue q then monetaryValue q else None) with (monetaryValue q) by (destruct (limitValue q); [done|by apply H1]).
  replace (if qcType q then qcTypeIdList q else Some []) with (qcTypeIdList q)
    by (destruct (qcType q); [done|by apply H2]).
  replace (if retentionPeriod q then retentionPeriodVal q else None) with (retentionPeriodVal q)
    by (destruct (retentionPeriod q); [done|by apply H3]).
  replace (if qcCClegislation q then legislationCountryList q else None) with (legislationCountryList q)
    by (destruct (qcCClegislation q); [done|by apply H4]).
  rewrite <- H6. by destruct q.
Qed.
(** C26. The statements of a qualified certificate as they are read from their own encoding: it
    is always read, the flags and the values whose flag is set are the same, and an object
    with values for its set flags only comes back as it was, unless it has locations of
    disclosure statements.  Those are always lost: the language is written as a printable
    string and read as an IA5 string, which throws, and the exception is dropped; the flag
    stays set. *)
Theorem qc_read_back q v : qc_toASN1Primitive q = Ret v →
  qc_getInstance (Some v) = Ret (Some (read_back q)) ∧
  (settled q → qc_getInstance (Some v) = Ret (Some q)) ∧
  (∀ r, qc_getInstance (Some v) = Ret (Some r) → pdsStatement r = pdsStatement q ∧ locationList r = Some []).
Proof.
  unfold qc_toASN1Primitive. mstep. destruct (qc_statements q) as [l|e] eqn:Hl; [|done]. intros [= <-].
  assert (H : qc_getInstance (Some (sequence l)) = Ret (Some (read_back q))).
  { unfold qc_getInstance. mstep. rewrite sequence_read. by rewrite (statements_read q l Hl). }
  split; [done|]. rewrite H. split; [intros Hs; by rewrite settled_back|]. by intros r [= <-].
Qed.
(** What throws in the encoding is a null value of a set flag. *)
Lemma part_null {X} (b : bool) (o : option X) (f : X → Encodable) :
  is_Ret (qc_part b (match not_null o with Ret x => Ret (f x) | Throw e => Throw e end)) = negb b || bool_decide (is_Some o).
Proof. destruct b, o; done. Qed.
Lemma qc_encodes q : is_Ret (qc_toASN1Primitive q) =
  (negb (qcType q) || bool_decide (is_Some (qcTypeIdList q))) && (negb (limitValue q) || bool_decide (is_Some (monetaryValue q))) &&
  (negb (retentionPeriod q) || bool_decide (is_Some (retentionPeriodVal q))) &&
  (negb (pdsStatement q) || bool_decide (is_Some (locationList q))) &&
  (negb (qcCClegislation q) || bool_decide (is_Some (legislationCountryList q))).
Proof.
  unfold qc_toASN1Primitive, qc_statements. mstep.
  rewrite <- (part_null _ _ (λ l, setStatementVal QC_TYPE (Some (sequence (map oid l))))),
    <- (part_null _ _ (λ m, setStatementVal id_etsi_qcs_LimiteValue
         (Some (sequence [printable (currency m); integer (amount m); integer (exponent m)])))),
    <- (part_null _ _ (λ z, setStatementVal id_etsi_qcs_RetentionPeriod (Some (integer z)))),
    <- (part_null _ _ (λ l, setStatementVal PKI_DISCLOSURE
         (Some (sequence (map (λ p, sequence [ia5 (pdsUrl p); printable (lang p)]) l))))),
    <- (part_null _ _ (λ l, setStatementVal QC_CC_LEGISLATION (Some (sequence (map printable l))))).
  repeat match goal with |- context [match qc_part ?b (Ret ?v) with _ => _ end] => destruct (qc_part b (Ret v)) eqn:?; [|by destruct b] end.
  repeat match goal with |- context [match qc_part ?b ?v with _ => _ end] => destruct (qc_part b v); [|done] end.
  done.
Qed.

(** ** The other extensions *)
Lemma mapM_read {X} (f : X → Encodable) (g : Encodable → outcome X) l : (∀ x, g (f x) = Ret x) → mapM g (map f l) = Ret l.
Proof. intros H. induction l as [|x l IH]; [done|]. simpl. mstep. by rewrite H, IH. Qed.
Lemma inhibit_roundtrip n : (0 ≤ n)%Z → inhibit_getInstance (Some (inhibit_toASN1Primitive (new_InhibitAnyPolicy n))) = Ret (Some n).
Proof.
  intros H. unfold inhibit_getInstance, inhibit_toASN1Primitive, new_InhibitAnyPolicy. rewrite integer_read. mstep. by rewrite positive_read.
Qed.
Lemma period_roundtrip p : period_getInstance (Some (period_toASN1Primitive p))
  = Ret (Some (mkPeriod ((λ t, t / 1000 * 1000)%Z <$> notBefore p) ((λ t, t / 1000 * 1000)%Z <$> notAfter p))).
Proof.
  unfold period_getInstance, period_toASN1Primitive. rewrite sequence_read. mstep.
  destruct p as [[b|] [a|]]; cbn; unfold period_item; by rewrite ?time_read.
Qed.
Lemma biometric_roundtrip l : biometric_getInstance (Some (biometric_toASN1Primitive l)) = Ret (Some l).
Proof.
  unfold biometric_getInstance, biometric_toASN1Primitive. rewrite sequence_read. mstep. by rewrite mapM_read by apply biometric_read.
Qed.
Lemma access_roundtrip a l : access_getInstance (Some (access_toASN1Primitive (a :: l))) = Ret (Some (a :: l)).
Proof.
  unfold access_getInstance, access_toASN1Primitive. rewrite sequence_read. mstep. cbn [map].
  change (access_value a :: map access_value l) with (map access_value (a :: l)). by rewrite mapM_read by apply access_read.
Qed.
(** An extension of the right class is not looked for: the one for authority information is
    read. *)
Lemma wrong_extension extensions : extensions authorityInfoAccess = None →
  period_fromExtensions extensions = Ret None ∧ access_fromExtensions extensions = Ret None.
Proof. intros H. unfold period_fromExtensions, access_fromExtensions. by rewrite H. Qed.
(** A context without information, of whatever type, makes the whole extension unreadable. *)
Lemma bare_context_throws parse parseDateTime items t l strict :
  sequence [utf8 t] ∈ l →
  ∃ e, authn_getInstance (A1 := A1) parse parseDateTime items (Some (sequence l)) strict = Throw e.
Proof.
  intros Hin. unfold authn_getInstance. rewrite sequence_read. mstep. enough (H : ∃ e, authn_items parse parseDateTime items strict l = Throw e)
    by (destruct H as [e ->]; by eexists).
  induction l as [|v l IH]; [by apply elem_of_nil in Hin|]. cbn [authn_items]. mstep. apply elem_of_cons in Hin as [<-|Hin].
  - rewrite sequence_read. cbn. rewrite utf8_read. by eexists.
  - destruct (getSequence v) as [c|e]; [|by eexists]. destruct (c !! 0); [|by eexists]. destruct (getUTF8 e); [|by eexists].
    destruct (c !! 1); [|by eexists]. destruct (getUTF8 e0); [|by eexists]. destruct (getAuthnContext _ _ _ _ _); [|by eexists].
    destruct (IH Hin) as [x ->]. by eexists.
Qed.
End Props.

(** ** Examples *)
Section Demo.
(** A concrete object for each constructor. *)
Inductive DemoObject :=
  | DOid (s : string) | DPrintable (s : string) | DIA5 (s : string) | DUtf8 (s : string) | DInt (z : Z)
  | DSeq (l : list DemoObject) | DTime (n : nat) (t : Z) | DNull | DName (s : string) | DBiometric (s : string) | DAccess (s : string).
Definition demo_error {A} : outcome A := Throw (IllegalArgumentException "illegal object in getInstance").
#[local] Instance demo_asn1 : ASN1 := {|
  Encodable := DemoObject; GeneralName := string; BiometricData := string; AccessDescription := string;
  oid := DOid; printable := DPrintable; ia5 := DIA5; utf8 := DUtf8; integer := DInt; sequence := DSeq; tagged_time := DTime;
  der_null := DNull; name_value := DName; biometric_value := DBiometric; access_value := DAccess;
  getOid := λ v, match v with DOid s => Ret s | _ => demo_error end;
  getPrintable := λ v, match v with DPrintable s => Ret s | _ => demo_error end;
  getIA5 := λ v, match v with DIA5 s => Ret s | _ => demo_error end;
  getUTF8 := λ v, match v with DUtf8 s => Ret s | _ => demo_error end;
  getInteger := λ v, match v with DInt z => Ret z | _ => demo_error end;
  getPositiveValue := λ v, match v with DInt z => Ret (Z.abs z) | _ => demo_error end;
  getSequence := λ v, match v with DSeq l => Ret l | _ => demo_error end;
  getTaggedTime := λ v, match v with DTime n t => Ret (n, t / 1000 * 1000)%Z | _ => demo_error end;
  getName := λ v, match v with DName s => Ret s | _ => demo_error end;
  getBiometric := λ v, match v with DBiometric s => Ret s | _ => demo_error end;
  getAccess := λ v, match v with DAccess s => Ret s | _ => demo_error end;
  isOid := λ v, match v with DOid _ => true | _ => false end;
  isSequence := λ v, match v with DSeq _ => true | _ => false end;
  isPrintable := λ v, match v with DPrintable _ => true | _ => false end;
  decimal := λ _, "0";
  id_qcs_pkixQCSyntax_v1 := "1.3.6.1.5.5.7.11.1"; id_qcs_pkixQCSyntax_v2 := "1.3.6.1.5.5.7.11.2";
  id_etsi_qcs_QcCompliance := "0.4.0.1862.1.1"; id_etsi_qcs_QcSSCD := "0.4.0.1862.1.4"; id_etsi_qcs_LimiteValue := "0.4.0.1862.1.2";
  id_etsi_qcs_RetentionPeriod := "0.4.0.1862.1.3"; inhibitAnyPolicy := "2.5.29.54"; authorityInfoAccess := "1.3.6.1.5.5.7.1.1"
|}.
#[local] Instance demo_laws : ASN1Laws demo_asn1.
Proof. split; try done; [intros z Hz; simpl; by rewrite Z.abs_eq|]. apply (bool_decide_unpack _). vm_compute. exact I. Qed.
Definition demo_qc : QCStatements :=
  mkQC false true true false true true false true false (Some (mkMonetary "EUR" 5 2)) (Some ["0.4.0.1862.1.6.1"%string]) None (Some [])
    (Some (mkSemantics (Some "0.4.0.194121.1.1"%string) (Some ["authority"%string]))) None.
(** The same with a location. *)
Definition demo_located : QCStatements := with_locations true (Some [mkLocation "en" "https://example.com/pds"]) demo_qc.
Definition encoded (q : QCStatements) : DemoObject := match qc_toASN1Primitive q with Ret v => v | Throw _ => DNull end.
Lemma qc_read_back_witness :
  qc_getInstance (Some (encoded demo_qc)) = Ret (Some demo_qc) ∧
  (∀ r, qc_getInstance (Some (encoded demo_located)) = Ret (Some r) → pdsStatement r = true ∧ locationList r = Some []) ∧
  locationList demo_located = Some [mkLocation "en" "https://example.com/pds"].
Proof.
  split; [|split; [|reflexivity]].
  - destruct (qc_read_back (A1 := demo_asn1) demo_qc (encoded demo_qc) eq_refl) as (_ & H & _). apply H.
    split; try done. intros s [= <-]. done.
  - exact (proj2 (proj2 (qc_read_back (A1 := demo_asn1) demo_located (encoded demo_located) eq_refl))).
Defined.
End Demo.
