(* ===== verification/Report.v ===== *)
(** * Validation reports

    Model of [AbstractSigValReportGenerator.java] and its subclasses, and of
    [ValidationObjectProcessor.java]: what a report says of each signature, and the objects
    that it refers to.  XML beans hold the report and write it; the record [SignatureReport]
    is what is put into them. *)
From Stdlib Require Import ZArith Lia Ascii String.
From stdpp Require Import base gmap strings list pretty.
From S2P Require Import Prelude CertModel Algorithms.
From S2P Require Import Validity PathValidator PdfContext Timestamps PdfVerify PdfSvt PdfDocument SigVerify.
From S2P Require SamlContext Extensions.

(** ** Data *)
Inductive MainIndication := TOTAL_PASSED | TOTAL_FAILED | INDETERMINATE_RESULT.
(** The sub-indications that are set. *)
Inductive SubIndication := FORMAT_FAILURE | SIG_CRYPTO_FAILURE | SUB_REVOKED | CERTIFICATE_CHAIN_GENERAL_FAILURE | EXPIRED |
  NOT_YET_VALID | POLICY_PROCESSING_ERROR | NO_SIGNING_CERTIFICATE_FOUND | NO_CERTIFICATE_CHAIN_FOUND | DOCUMENT_PARTIALLY_SIGNED.
#[export] Instance MainIndication_eq_dec : EqDecision MainIndication.
Proof. solve_decision. Defined.
#[export] Instance SubIndication_eq_dec : EqDecision SubIndication.
Proof. solve_decision. Defined.
Inductive SignedDataRepresentation := DIGEST | DIRECT.
Record SigvalReportOptions := mkOptions {
  includeTimeStampCertRefs : bool;
  includeSignatureCertChainRefs : bool;
  signedDataRepresentation : SignedDataRepresentation
}.
Definition new_SigvalReportOptions : SigvalReportOptions := mkOptions false false DIGEST.
(** The types of objects that are created, with their prefixes. *)
Inductive ValidationObjectType := vo_certificate | vo_timestamp | vo_signedData | vo_verifiedTime.
Definition typePrefix (t : ValidationObjectType) : string :=
  match t with vo_certificate => "C" | vo_timestamp => "T" | vo_signedData => "SD" | vo_verifiedTime => "VT" end.
Inductive Representation := base64_rep (bytes : string) | hash_rep (algorithm : option string) (value : string).
Record ValidationObject := mkValidationObject {
  vo_id : string;
  vo_type : ValidationObjectType;
  representation : Representation;
  poe : option Z
}.
Abbreviation ObjectMap := (gmap string ValidationObject) (only parsing).
Record POE := mkPOE { poeTime : Z; poeObject : option string }.
Record SignatureIdentifier := mkIdentifier {
  identifierId : option string;
  dtbsrAlgorithm : option string;
  dtbsrHash : string;
  identifierValue : option string
}.
Record SignatureAttributes := mkAttributes {
  attrSigningTime : option Z;
  attrCertificate : string;
  attrTimeStamps : list string;
  attrAlgorithm : option string;
  attrAuthnContext : option string
}.
Record SignatureReport := mkSigReport {
  reportTime : Z;
  bestSignatureTime : POE;
  signersDocument : option string;
  mainIndication : MainIndication;
  subIndications : list SubIndication;
  messages : list string;
  processID : string;
  signatureIdentifier : option SignatureIdentifier;
  signatureAttributes : option SignatureAttributes;
  signerInformation : option (string * string);
  signatureQuality : option string
}.
(** [signatureValidationObjects] is absent when there are none. *)
Record ValidationReport := mkReport {
  signatureValidationObjects : option (list (string * ValidationObject));
  signatureReports : list SignatureReport
}.
(** A result, the token it was made from, and what its format reads of the signature: the
    bytes that are signed and the signature value. *)
Record Reported (A : Type) := mkReported {
  reported : SigValResult A;
  svtJWT : option SignedJWT;
  reportedClaims : option SignatureClaims;
  dtbsBytes : outcome string;
  reportedValue : outcome (option string)
}.
Arguments mkReported {A} _ _ _ _ _.
Arguments reported {A} _.
Arguments svtJWT {A} _.
Arguments reportedClaims {A} _.
Arguments dtbsBytes {A} _.
Arguments reportedValue {A} _.

(** ** [ValidationObjectProcessor] *)
Definition substring40 (s : string) : string := String.substring 0 40 s.
Definition idTrim (hexString : string) : string :=
  if Nat.ltb (String.length hexString) 40 then hexString else substring40 hexString.
(** [StringUtils.isNotBlank] *)
Definition isNotBlank (s : string) : bool :=
  existsb (λ c, let n := nat_of_ascii c in negb ((9 <=? n) && (n <=? 13) || (28 <=? n) && (n <=? 32))) (list_ascii_of_string s).

Section Objects.
(** Digests, as bytes and in hexadecimal; Base64; the bytes of certificates and timestamps;
    the path that a timestamp was validated with. *)
Context (digests : option string → outcome DigestAlgorithm) (rawDigest : DigestAlgorithm → string → outcome string).
Context (toHexString : string → string) (decode64 : string → outcome string).
Context (certBytes : X509Certificate → outcome string) (stampBytes : TimeStamp → string).
Context (timePath : TimeValidationResult → option PathValidationResult).
Context {A : Type}.
Implicit Types (r : SigValResult A) (m : ObjectMap) (algo : option string).

Definition object_id (t : ValidationObjectType) (hash : string) : string := (typePrefix t ++ "-" ++ idTrim (toHexString hash))%string.
Definition digest_with algo (bytes : string) : outcome string := md ← digests algo; rawDigest md bytes.
(** [getId(byte[], ...)] *)
Definition getId (objectBytes : string) algo (t : ValidationObjectType) : outcome string :=
  h ← digest_with algo objectBytes; Ret (object_id t h).
Definition addCertificate (cert : X509Certificate) algo m : outcome ObjectMap :=
  b ← certBytes cert;
  i ← getId b algo vo_certificate;
  Ret match m !! i with
      | Some _ => m
      | None => <[i := mkValidationObject i vo_certificate (base64_rep b) None]> m
      end.
Fixpoint add_certificates (l : list X509Certificate) algo m : outcome ObjectMap :=
  match l with [] => Ret m | c :: l => m ← addCertificate c algo m; add_certificates l algo m end.
(** [ExtendedSigValResult.getAdditionalCertificates] *)
Definition getAdditionalCertificates r : list X509Certificate :=
  match signatureCertificateChain r with
  | None => []
  | Some l => List.filter (λ c, match SigVerify.signerCertificate r with Some s => negb (cert_eqb c s) | None => true end) l
  end.
Definition storeSigningCertificates r algo (includeChain : bool) m : outcome ObjectMap :=
  match SigVerify.signerCertificate r with
  | None => Ret m
  | Some cert =>
      m ← addCertificate cert algo m;
      if includeChain then add_certificates (getAdditionalCertificates r) algo m else Ret m
  end.
(** [addTimeEvidenceRef], up to the put: nothing for a time that is not verified. *)
Definition passed_claims (c : TimeValidationClaims) : bool := existsb (λ v, bool_decide (res v = PASSED)) (tv_val c).
Definition time_object (t : ValidationObjectType) algo (hash : string) (time : Z) : ValidationObject :=
  mkValidationObject (object_id t hash) t (hash_rep algo hash) (Some (time * 1000)%Z).
Definition time_evidence (t : TimeValidationResult) algo : outcome (option ValidationObject) :=
  match timeValidationClaims t with
  | None => Throw NullPointerException
  | Some c =>
      if negb (passed_claims c) || Z.eqb (tv_time c) 0 then Ret None
      else
        let hashVal : outcome (option string) :=
          match tv_hash c with
          | Some b64 =>
              if isNotBlank b64 then Some <$> decode64 b64
              else match resultStamp t with Some ts => Some <$> digest_with algo (stampBytes ts) | None => Ret None end
          | None => match resultStamp t with Some ts => Some <$> digest_with algo (stampBytes ts) | None => Ret None end
          end in
        match hashVal with
        | Throw _ => Ret None
        | Ret (Some h) => Ret (Some (time_object vo_timestamp algo h (tv_time c)))
        | Ret None => h ← digest_with algo (pretty (tv_time c)); Ret (Some (time_object vo_verifiedTime algo h (tv_time c)))
        end
  end.
Definition addTimeEvidenceRef (t : TimeValidationResult) algo m : outcome (bool * ObjectMap) :=
  o ← time_evidence t algo;
  Ret match o with Some o => (true, <[vo_id o := o]> m) | None => (false, m) end.
(** [getId(TimeValidationResult, ...)]: the key of a map with this object only. *)
Definition getTimeId (t : TimeValidationResult) algo : option string :=
  match time_evidence t algo with Ret o => vo_id <$> o | Throw _ => None end.
(** [addTimeValidationCertificatePath]: an exception keeps the certificates before it. *)
Fixpoint add_time_path (l : list X509Certificate) algo m : ObjectMap :=
  match l with
  | [] => m
  | c :: l => match addCertificate c algo m with Ret m => add_time_path l algo m | Throw _ => m end
  end.
Definition addTimeValidationCertificatePath (t : TimeValidationResult) algo m : ObjectMap :=
  match (p ← timePath t; validatedCertificatePath p) with Some l => add_time_path l algo m | None => m end.
Fixpoint storeTimeValidationObjects (l : list TimeValidationResult) algo (addCertificates : bool) m : outcome ObjectMap :=
  match l with
  | [] => Ret m
  | t :: l =>
      '(added, m) ← addTimeEvidenceRef t algo m;
      storeTimeValidationObjects l algo addCertificates
        (if (added : bool) && addCertificates then addTimeValidationCertificatePath t algo m else m)
  end.
Definition includeExplicitSignedDataReferences r algo (rep : SignedDataRepresentation) m : outcome ObjectMap :=
  match SigVerify.signedDocument r with
  | None => Ret m
  | Some doc =>
      i ← getId doc algo vo_signedData;
      rep ← match rep with
            | DIRECT => Ret (base64_rep doc)
            | DIGEST => h ← digest_with algo doc; Ret (hash_rep algo h)
            end;
      Ret (<[i := mkValidationObject i vo_signedData rep None]> m)
  end.
End Objects.

(** ** [AbstractSigValReportGenerator] *)
Section Generator.
Context {A S : Type} (newDate : M S Z).
Context (digests : option string → outcome DigestAlgorithm) (rawDigest : DigestAlgorithm → string → outcome string).
Context (toHexString : string → string) (decode64 : string → outcome string).
Context (certBytes : X509Certificate → outcome string) (stampBytes : TimeStamp → string).
Context (timePath : TimeValidationResult → option PathValidationResult).
Context (hashOrder : ∀ A, list (string * A) → list (string * A)).
(** What is read of a certificate: the statements of a qualified one, the XML of its first
    authentication context, its subject. *)
Context `{!Extensions.ASN1} (qcStatements : X509Certificate → outcome (option Extensions.QCStatements)).
Context (authnContext : X509Certificate → outcome (option string)) (subjectName : X509Certificate → string).
(** The algorithm that is used without a token, and whether the format asks for signatures
    that cover the document, as PDF and XML do. *)
Context (defaultHashAlgo : option string) (checksCoverage : bool).
Implicit Types (x : Reported A) (algo : option string) (rep : SignatureReport).
Notation getId := (getId digests rawDigest toHexString).
Notation getTimeId := (getTimeId digests rawDigest toHexString decode64 stampBytes).

Definition QUALITY_ADES : string := "http://id.swedenconnect.se/sigval-report/quality/ades".
Definition QUALITY_ETSI : string := "http://id.swedenconnect.se/sigval-report/quality/etsi".
Definition QUALITY_QC : string := "http://id.swedenconnect.se/sigval-report/quality/qc".
Definition QUALITY_QC_SQSCD : string := "http://id.swedenconnect.se/sigval-report/quality/qc-qscd".
Definition QC_TYPE_ELECTRONIC_SIGNATURE : string := "0.4.0.1862.1.6.1".
Definition qualified (cert : X509Certificate) : outcome (bool * bool) :=
  o ← qcStatements cert;
  match o with
  | None => Ret (false, false)
  | Some q =>
      qc ← (if Extensions.qcType q then
              match Extensions.qcTypeIdList q with
              | None => Throw NullPointerException
              | Some l => Ret (existsb (String.eqb QC_TYPE_ELECTRONIC_SIGNATURE) l)
              end
            else Ret false);
      Ret (qc, Extensions.qcSscd q)
  end.
Definition defaultSignatureQuality (cert : X509Certificate) (r : SigValResult A) : string :=
  match qualified cert with
  | Throw _ => "urn:cef:dss:signatureQualification:notApplicable"
  | Ret (qc, qscd) =>
      if qc && qscd then QUALITY_QC_SQSCD
      else if qc then QUALITY_QC
      else if SigVerify.etsiAdes r && negb (SigVerify.invalidSignCert r) then QUALITY_ETSI
      else QUALITY_ADES
  end.
Definition SVT_PKIX_VALIDATION : string := "http://id.swedenconnect.se/svt/sigval-policy/pkix/01/svt".
Definition SVT_TIMESTAMPED_PKIX_VALIDATION : string := "http://id.swedenconnect.se/svt/sigval-policy/ts-pkix/01/svt".
(** [defaultGetSignatureValidationProcess]: with a token, a policy that is null is
    dereferenced. *)
Definition validationProcess x (pol : option string) : outcome string :=
  match svtJWT x, reportedClaims x with
  | Some _, Some _ =>
      match pol with
      | None => Throw NullPointerException
      | Some p =>
          Ret (if equalsIgnoreCase p SIG_VALIDATION_POLICY_TIMESTAMPED_PKIX_VALIDATION then SVT_TIMESTAMPED_PKIX_VALIDATION
               else if equalsIgnoreCase p SIG_VALIDATION_POLICY_PKIX_VALIDATION then SVT_PKIX_VALIDATION
               else p)
      end
  | _, _ => Ret (default "undefined"%string pol)
  end.
(** [getHashAlgo] *)
Definition getHashAlgo x : option string :=
  match svtJWT x with
  | None => defaultHashAlgo
  | Some jwt => match (set ← jwtClaimsSet jwt; getSVTClaims set) with Ret c => hash_algo c | Throw _ => defaultHashAlgo end
  end.

(** ** Times *)
Definition isValidTime (t : TimeValidationResult) : bool :=
  match timeValidationClaims t with None => false | Some c => passed_claims c end.
(** The cast of a long to an int. *)
Definition int32 (z : Z) : Z := ((z + 2 ^ 31) mod 2 ^ 32 - 2 ^ 31)%Z.
Definition claims_time (t : TimeValidationResult) : Z := from_option tv_time 0%Z (timeValidationClaims t).
Definition compare_times (o1 o2 : TimeValidationResult) : Z := int32 (claims_time o1 - claims_time o2).
Definition best_time (l : list TimeValidationResult) : option TimeValidationResult :=
  head (small_sort compare_times (List.filter isValidTime l)).
Definition getBestSignatureTime (r : SigValResult A) (currentTime : Z) algo : POE :=
  match best_time (SigVerify.timeValidationResults r) with
  | None => mkPOE currentTime None
  | Some t => mkPOE (claims_time t * 1000) (getTimeId t algo)
  end.

(** ** The status *)
(** [addCertValidationSubindications]; the status list is looked at for its first entry. *)
Definition cert_subindications (r : SigValResult A) (now1 now2 : Z) : list SubIndication :=
  match SigVerify.signerCertificate r with
  | Some cert => (if Z.ltb (notAfter cert) now1 then [EXPIRED] else []) ++ (if Z.ltb now2 (notBefore cert) then [NOT_YET_VALID] else [])
  | None => []
  end ++
  match (p ← SigVerify.certificateValidationResult r; l ← validationStatusList p; head l) with
  | Some st => if bool_decide (validity st = REVOKED) then [SUB_REVOKED] else []
  | None => []
  end.
(** The clock is read where the signer is known. *)
Definition addCertValidationSubindications (r : SigValResult A) : M S (list SubIndication) :=
  match SigVerify.signerCertificate r with
  | None => mret (cert_subindications r 0 0)
  | Some _ => now1 ← newDate; now2 ← newDate; mret (cert_subindications r now1 now2)
  end.
Definition status_indication (r : SigValResult A) : M S (MainIndication * list SubIndication) :=
  match SigVerify.status r with
  | None => raise NullPointerException
  | Some SUCCESS => mret (TOTAL_PASSED, [])
  | Some INTERDETERMINE => subs ← addCertValidationSubindications r; mret (INDETERMINATE_RESULT, subs)
  | Some ERROR_INVALID_SIGNATURE => mret (TOTAL_FAILED, [SIG_CRYPTO_FAILURE])
  | Some (ERROR_SIGNER_INVALID | ERROR_SIGNER_NOT_ACCEPTED) =>
      subs ← addCertValidationSubindications r;
      mret (TOTAL_FAILED, match subs with [] => [CERTIFICATE_CHAIN_GENERAL_FAILURE] | _ => subs end)
  | Some ERROR_NOT_TRUSTED =>
      subs ← addCertValidationSubindications r; mret (INDETERMINATE_RESULT, subs ++ [NO_CERTIFICATE_CHAIN_FOUND])
  | Some ERROR_BAD_FORMAT => mret (TOTAL_FAILED, [FORMAT_FAILURE])
  end.

(** ** The parts of a signature report *)
Definition addSignedDocumentRepresentation (r : SigValResult A) algo : option string :=
  doc ← SigVerify.signedDocument r;
  match getId doc algo vo_signedData with Ret i => Some i | Throw _ => None end.
(** [addSignatureIdentifier]; an exception is an error of its own. *)
Definition sigIdentifier x algo : outcome SignatureIdentifier :=
  '(i, h) ← match reportedClaims x with
            | Some c =>
                h ← decode64 (sb_hash (sig_ref c));
                Ret (match sig_id (sig_ref c) with Some i => if isNotBlank i then Some i else None | None => None end, h)
            | None => b ← dtbsBytes x; h ← digest_with digests rawDigest algo b; Ret (None, h)
            end;
  v ← reportedValue x;
  Ret (mkIdentifier i algo h v).
(** [addSignerAttributes] *)
Definition signer_attributes (r : SigValResult A) (cert : X509Certificate) algo : outcome SignatureAttributes :=
  b ← certBytes cert;
  i ← getId b algo vo_certificate;
  ctx ← authnContext cert;
  Ret (mkAttributes (claimedSigningTime r) i (omap (λ t, getTimeId t algo) (SigVerify.timeValidationResults r))
         (signatureAlgorithm r) ctx).
Definition signer_part (r : SigValResult A) algo : option SignatureAttributes * list SubIndication :=
  match SigVerify.signerCertificate r with
  | None => (None, [NO_SIGNING_CERTIFICATE_FOUND])
  | Some cert => match signer_attributes r cert algo with
                 | Ret a => (Some a, [])
                 | Throw _ => (None, [NO_SIGNING_CERTIFICATE_FOUND])
                 end
  end.
Definition addSignerInformation (cert : X509Certificate) algo : outcome (string * string) :=
  b ← certBytes cert; i ← getId b algo vo_certificate; Ret (i, subjectName cert).
(** The report of one signature, in the order in which its parts are set. *)
Definition signature_report x : M S SignatureReport :=
  let r := reported x in
  let algo := getHashAlgo x in
  currentTime ← newDate;
  validationTime ← newDate;
  '(main, subs) ← status_indication r;
  process ← lift (validationProcess x (pol <$> head (SigVerify.validationPolicyResultList r)));
  let ident := sigIdentifier x algo in
  let '(main, subs) := match ident with Ret _ => (main, subs) | Throw _ => (TOTAL_FAILED, subs ++ [POLICY_PROCESSING_ERROR]) end in
  let '(attrs, signer_subs) := signer_part r algo in
  let subs := subs ++ signer_subs in
  let msgs := if isNotBlank (SigVerify.statusMessage r) then [SigVerify.statusMessage r] else [] in
  let report subs msgs info quality :=
    mkSigReport validationTime (getBestSignatureTime r currentTime algo) (addSignedDocumentRepresentation r algo) main subs msgs process
      match ident with Ret i => Some i | Throw _ => None end attrs info quality in
  match SigVerify.signerCertificate r with
  | None => mret (report subs msgs None None)
  | Some cert =>
      info ← lift (addSignerInformation cert algo);
      let partial := checksCoverage && negb (SigVerify.coversDocument r) in
      mret (report (if partial then subs ++ [DOCUMENT_PARTIALLY_SIGNED] else subs)
              (if partial then msgs ++ ["Signature does not cover the full document"%string] else msgs)
              (Some info) (Some (defaultSignatureQuality cert r)))
  end.

(** ** The report *)
(** [getValidationObejctMap]: a result that is null is dereferenced. *)
Definition store_result (options : SigvalReportOptions) x (m : ObjectMap) : outcome ObjectMap :=
  let r := reported x in
  let algo := getHashAlgo x in
  m ← storeSigningCertificates digests rawDigest toHexString certBytes r algo (includeSignatureCertChainRefs options) m;
  m ← storeTimeValidationObjects digests rawDigest toHexString decode64 certBytes stampBytes timePath
        (SigVerify.timeValidationResults r) algo (includeTimeStampCertRefs options) m;
  includeExplicitSignedDataReferences digests rawDigest toHexString r algo (signedDataRepresentation options) m.
Fixpoint getValidationObejctMap (options : SigvalReportOptions) (l : list (option (Reported A))) (m : ObjectMap) : outcome ObjectMap :=
  match l with
  | [] => Ret m
  | None :: _ => Throw NullPointerException
  | Some x :: l => m ← store_result options x m; getValidationObejctMap options l m
  end.
Fixpoint signature_reports (l : list (option (Reported A))) : M S (list SignatureReport) :=
  match l with
  | [] => mret []
  | None :: l => signature_reports l
  | Some x :: l => rep ← signature_report x; rest ← signature_reports l; mret (rep :: rest)
  end.
(** [getValidationReport]: without objects to refer to the report stays empty. *)
Definition getValidationReport (l : list (option (Reported A))) (options : option SigvalReportOptions) : M S ValidationReport :=
  match getValidationObejctMap (default new_SigvalReportOptions options) l ∅ with
  | Throw _ => mret (mkReport None [])
  | Ret m =>
      reports ← signature_reports l;
      mret (mkReport (if bool_decide (m = ∅) then None else Some (hashOrder _ (map_to_list m))) reports)
  end.
End Generator.
