(* ===== verification/ReportProps.v ===== *)
(** * What a validation report says

    Every object that a report refers to is in the report; a signature is reported as passed
    only when its result is a success; the best signature time is the earliest one. *)
From Stdlib Require Import ZArith Lia Ascii String.
From stdpp Require Import base gmap strings list pretty.
From S2P Require Import Prelude CertModel Algorithms.
From S2P Require Import Validity PathValidator PdfContext Timestamps PdfVerify PdfSvt PdfSvtProps PdfDocument SigVerify.
From S2P Require Import Report.
From S2P Require Extensions ExtensionsProps.

(** ** Sorting with any comparator *)
Lemma small_sort_perm {A} (compare : A → A → Z) l : small_sort compare l ≡ₚ l.
Proof.
  assert (Hins : ∀ a p, binary_insert compare a p ≡ₚ p :: a).
  { intros a p. unfold binary_insert. cbv zeta. rewrite <- Permutation_middle. by rewrite take_drop. }
  unfold small_sort. destruct (countRunAndMakeAscending compare l) as [run rest] eqn:E.
  assert (run ++ rest ≡ₚ l) as <-.
  { unfold countRunAndMakeAscending in E. destruct l as [|x [|y l]]; [by injection E as <- <-|by injection E as <- <-|].
    set (n := S (S _)) in E. cbv zeta in E. assert (Hp : take n (x :: y :: l) ++ drop n (x :: y :: l) ≡ₚ x :: y :: l).
    { by rewrite take_drop. }
    injection E as <- <-. destruct (_ <? 0)%Z; [|exact Hp]. etransitivity; [|exact Hp].
    apply Permutation_app_tail. symmetry. apply Permutation_rev. }
  clear E. revert run. induction rest as [|p rest IH]; intros run; simpl; [by rewrite app_nil_r|].
  by rewrite IH, Hins, <- Permutation_middle.
Qed.
Lemma best_time_in l t : best_time l = Some t → t ∈ l ∧ isValidTime t = true.
Proof.
  unfold best_time. intros H. assert (Hin : t ∈ small_sort compare_times (List.filter isValidTime l)).
  { destruct (small_sort _ _); [done|]. injection H as ->. left. }
  rewrite small_sort_perm in Hin. apply list_elem_of_In, List.filter_In in Hin as [Hin Hv]. by rewrite list_elem_of_In.
Qed.

(** ** Objects *)
Abbreviation has m i := (is_Some ((m : gmap string ValidationObject) !! i)) (only parsing).
Definition grows (m m' : gmap string ValidationObject) : Prop := ∀ i, has m i → has m' i.
#[export] Instance grows_preorder : PreOrder grows.
Proof. split; [by intros m i|]. intros m1 m2 m3 H1 H2 i Hi. by apply H2, H1. Qed.
Lemma grows_insert m i o : grows m (<[i := o]> m).
Proof. intros j Hj. destruct (decide (i = j)) as [->|Hne]; [by rewrite lookup_insert_eq|by rewrite lookup_insert_ne]. Qed.
(** Objects are stored under their identifiers. *)
Definition objects_wf (m : gmap string ValidationObject) : Prop := map_Forall (λ i o, vo_id o = i) m.
(** What an operation on the map keeps. *)
Definition extends (m m' : gmap string ValidationObject) : Prop := grows m m' ∧ (objects_wf m → objects_wf m').
#[export] Instance extends_preorder : PreOrder extends.
Proof. split; [by split|]. intros m1 m2 m3 [G1 W1] [G2 W2]. split; [by transitivity m2|auto]. Qed.
Lemma extends_insert m o : extends m (<[vo_id o := o]> m).
Proof. split; [apply grows_insert|]. intros Hm. by apply map_Forall_insert_2. Qed.

Section Objects.
Context (digests : option string → outcome DigestAlgorithm) (rawDigest : DigestAlgorithm → string → outcome string).
Context (toHexString : string → string) (decode64 : string → outcome string).
Context (certBytes : X509Certificate → outcome string) (stampBytes : TimeStamp → string).
Context (timePath : TimeValidationResult → option PathValidationResult).
Context {A : Type}.
Implicit Types (r : SigValResult A) (algo : option string).
Notation add_cert := (addCertificate digests rawDigest toHexString certBytes).
Notation cert_id b algo := (getId digests rawDigest toHexString b algo vo_certificate).
Notation evidence := (time_evidence digests rawDigest toHexString decode64 stampBytes).
Lemma cert_added c algo m m' : add_cert c algo m = Ret m' →
  extends m m' ∧ ∃ b i, certBytes c = Ret b ∧ cert_id b algo = Ret i ∧ has m' i.
Proof.
  unfold addCertificate. mstep. destruct (certBytes c) as [b|]; [|done]. destruct (cert_id b algo) as [i|] eqn:Hi; [|done].
  destruct (m !! i) eqn:Hm; intros [= <-].
  - split; [done|]. eexists _, _. split; [done|]. by rewrite Hi, Hm.
  - split; [apply (extends_insert m (mkValidationObject i _ _ _))|]. exists b, i. by rewrite lookup_insert_eq.
Qed.
Lemma certs_added l algo m m' : add_certificates digests rawDigest toHexString certBytes l algo m = Ret m' → extends m m'.
Proof.
  revert m. induction l as [|c l IH]; intros m; simpl; [by intros [= <-]|]. mstep.
  destruct (add_cert c algo m) as [m1|] eqn:H1; [|done]. apply cert_added in H1 as [H1 _]. intros H. by rewrite H1, (IH _ H).
Qed.
Lemma signing_stored r algo chain m m' :
  storeSigningCertificates digests rawDigest toHexString certBytes r algo chain m = Ret m' →
  extends m m' ∧ ∀ c, SigVerify.signerCertificate r = Some c → ∃ b i, certBytes c = Ret b ∧ cert_id b algo = Ret i ∧ has m' i.
Proof.
  unfold storeSigningCertificates. destruct (SigVerify.signerCertificate r) as [c|]; [|by intros [= <-]]. mstep.
  destruct (add_cert c algo m) as [m1|] eqn:H1; [|done]. apply cert_added in H1 as (H1 & b & i & Hb & Hi & Hm).
  assert (extends m1 m' → extends m m' ∧ ∀ c0, Some c = Some c0 → ∃ b i, certBytes c0 = Ret b ∧ cert_id b algo = Ret i ∧ has m' i) as Hgo.
  { intros H2. split; [by rewrite H1|]. intros ? [= <-]. exists b, i. split; [done|]. split; [done|]. by apply H2. }
  destruct chain; [by intros H2%certs_added; apply Hgo|]. intros [= <-]. by apply Hgo.
Qed.
Lemma time_path_added l algo m : extends m (add_time_path digests rawDigest toHexString certBytes l algo m).
Proof.
  revert m. induction l as [|c l IH]; intros m; simpl; [done|]. destruct (add_cert c algo m) as [m1|] eqn:H1; [|done].
  apply cert_added in H1 as [H1 _]. by rewrite H1.
Qed.
Lemma times_stored l algo certs m m' :
  storeTimeValidationObjects digests rawDigest toHexString decode64 certBytes stampBytes timePath l algo certs m = Ret m' →
  extends m m' ∧ ∀ t o, t ∈ l → evidence t algo = Ret (Some o) → has m' (vo_id o).
Proof.
  revert m. induction l as [|t l IH]; intros m; simpl; [intros [= <-]; by split; [|intros ?? ?%elem_of_nil]|].
  unfold addTimeEvidenceRef. mstep. destruct (evidence t algo) as [[o|]|] eqn:Ht; simpl; [| |done].
  - set (m1 := <[vo_id o := o]> m). set (m2 := if certs then _ else m1). assert (H2 : extends m1 m2).
    { unfold m2. destruct certs; [|done]. unfold addTimeValidationCertificatePath.
      destruct (timePath t ≫= validatedCertificatePath); [apply time_path_added|done]. }
    intros (H3 & Hin)%IH. split; [transitivity m1; [apply extends_insert|by rewrite H2]|].
    intros t' o' [->|Ht']%elem_of_cons He; [|by eapply Hin]. rewrite Ht in He. injection He as ->. apply H3, H2.
    unfold m1. by rewrite lookup_insert_eq.
  - intros (H3 & Hin)%IH. split; [done|]. intros t' o' [->|Ht']%elem_of_cons He; [congruence|by eapply Hin].
Qed.
Lemma document_stored r algo rep m m' :
  includeExplicitSignedDataReferences digests rawDigest toHexString r algo rep m = Ret m' →
  extends m m' ∧ ∀ doc, SigVerify.signedDocument r = Some doc →
    ∃ i, getId digests rawDigest toHexString doc algo vo_signedData = Ret i ∧ has m' i.
Proof.
  unfold includeExplicitSignedDataReferences. destruct (SigVerify.signedDocument r) as [doc|]; [|by intros [= <-]]. mstep.
  destruct (getId digests rawDigest toHexString doc algo vo_signedData) as [i|] eqn:Hi; [|done].
  destruct (match rep with DIGEST => _ | DIRECT => _ end) as [p|]; [|done]. intros [= <-].
  split; [apply (extends_insert m (mkValidationObject i _ _ _))|]. intros ? [= <-]. exists i. by rewrite lookup_insert_eq.
Qed.
End Objects.

(** ** Reports *)
Section Reports.
Context {A S : Type} (newDate : M S Z).
Context (digests : option string → outcome DigestAlgorithm) (rawDigest : DigestAlgorithm → string → outcome string).
Context (toHexString : string → string) (decode64 : string → outcome string).
Context (certBytes : X509Certificate → outcome string) (stampBytes : TimeStamp → string).
Context (timePath : TimeValidationResult → option PathValidationResult).
Context (hashOrder : ∀ A, list (string * A) → list (string * A)).
Context {ASN : Extensions.ASN1} (qcStatements : X509Certificate → outcome (option Extensions.QCStatements)).
Context (authnContext : X509Certificate → outcome (option string)) (subjectName : X509Certificate → string).
Context (defaultHashAlgo : option string) (checksCoverage : bool).
Implicit Types (x : Reported A) (l : list (option (Reported A))).
Notation report_of := (signature_report newDate digests rawDigest toHexString decode64 certBytes stampBytes qcStatements authnContext
  subjectName defaultHashAlgo checksCoverage).
Notation reports_of := (signature_reports newDate digests rawDigest toHexString decode64 certBytes stampBytes qcStatements authnContext
  subjectName defaultHashAlgo checksCoverage).
Notation getReport := (getValidationReport newDate digests rawDigest toHexString decode64 certBytes stampBytes timePath hashOrder
  qcStatements authnContext subjectName defaultHashAlgo checksCoverage).
Notation store := (store_result digests rawDigest toHexString decode64 certBytes stampBytes timePath defaultHashAlgo).
Notation objects_of := (getValidationObejctMap digests rawDigest toHexString decode64 certBytes stampBytes timePath defaultHashAlgo).
Notation evidence := (time_evidence digests rawDigest toHexString decode64 stampBytes).
Notation ident x := (sigIdentifier digests rawDigest decode64 x (getHashAlgo defaultHashAlgo x)).
(** The objects that a signature report refers to. *)
Definition option_list {X} (o : option X) : list X := match o with Some a => [a] | None => [] end.
Definition references (rep : SignatureReport) : list string :=
  option_list (poeObject (bestSignatureTime rep)) ++ option_list (signersDocument rep) ++
  match signatureAttributes rep with Some a => attrCertificate a :: attrTimeStamps a | None => [] end ++
  option_list (fst <$> signerInformation rep).

(** What is stored for a result: what its report may refer to. *)
Definition stored_for x (m : gmap string ValidationObject) : Prop :=
  let algo := getHashAlgo defaultHashAlgo x in
  (∀ c, SigVerify.signerCertificate (reported x) = Some c →
     ∃ b i, certBytes c = Ret b ∧ getId digests rawDigest toHexString b algo vo_certificate = Ret i ∧ has m i) ∧
  (∀ t o, t ∈ SigVerify.timeValidationResults (reported x) → evidence t algo = Ret (Some o) → has m (vo_id o)) ∧
  (∀ doc, SigVerify.signedDocument (reported x) = Some doc →
     ∃ i, getId digests rawDigest toHexString doc algo vo_signedData = Ret i ∧ has m i).
Lemma stored_grows x m m' : grows m m' → stored_for x m → stored_for x m'.
Proof.
  intros G (Hc & Ht & Hd). split; [|split].
  - intros c H. destruct (Hc c H) as (b & i & Hb & Hi & Hm). eauto 10.
  - intros t o H1 H2. by eapply G, Ht.
  - intros doc H. destruct (Hd doc H) as (i & Hi & Hm). eauto.
Qed.
Lemma result_stored options x m m' : store options x m = Ret m' → extends m m' ∧ stored_for x m'.
Proof.
  unfold store_result. mstep. destruct (storeSigningCertificates _ _ _ _ _ _ _ m) as [m1|] eqn:H1; [|done].
  destruct (storeTimeValidationObjects _ _ _ _ _ _ _ _ _ _ m1) as [m2|] eqn:H2; [|done]. intros H3.
  apply signing_stored in H1 as [E1 C1]. apply times_stored in H2 as [E2 C2]. apply document_stored in H3 as [E3 C3].
  split; [by rewrite E1, E2|]. split; [|split; [|done]].
  - intros c H. destruct (C1 c H) as (b & i & Hb & Hi & Hm). exists b, i. split; [done|]. split; [done|]. by apply E3, E2.
  - intros t o H He. by eapply E3, C2.
Qed.
Lemma all_stored options l m m' : objects_of options l m = Ret m' →
  extends m m' ∧ ∀ x, Some x ∈ l → stored_for x m'.
Proof.
  revert m. induction l as [|[x|] l IH]; intros m; simpl; [intros [= <-]; by split; [|intros ? ?%elem_of_nil]| |done]. mstep.
  destruct (store options x m) as [m1|] eqn:H1; [|done]. apply result_stored in H1 as [E1 C1]. intros [E2 C2]%IH.
  split; [by rewrite E1|]. intros y [[= ->]|Hy]%elem_of_cons; [|by apply C2]. eapply stored_grows; [apply E2|done].
Qed.

(** The parts of a report. *)
Lemma report_parts x s rep s' : report_of x s = (Ret rep, s') →
  let r := reported x in let algo := getHashAlgo defaultHashAlgo x in
  ∃ now main subs s1 s2,
    status_indication newDate r s1 = (Ret (main, subs), s2) ∧
    bestSignatureTime rep = getBestSignatureTime digests rawDigest toHexString decode64 stampBytes r now algo ∧
    signersDocument rep = addSignedDocumentRepresentation digests rawDigest toHexString r algo ∧
    mainIndication rep = (if is_Ret (ident x) then main else TOTAL_FAILED) ∧
    signatureAttributes rep = fst (signer_part digests rawDigest toHexString decode64 certBytes stampBytes authnContext r algo) ∧
    ∃ last,
    subIndications rep = subs ++ (if is_Ret (ident x) then [] else [POLICY_PROCESSING_ERROR]) ++
      snd (signer_part digests rawDigest toHexString decode64 certBytes stampBytes authnContext r algo) ++ last ∧
    match SigVerify.signerCertificate r with
    | None => last = [] ∧ signerInformation rep = None
    | Some cert => last = (if checksCoverage && negb (SigVerify.coversDocument r) then [DOCUMENT_PARTIALLY_SIGNED] else []) ∧
        ∃ b i, certBytes cert = Ret b ∧ getId digests rawDigest toHexString b algo vo_certificate = Ret i ∧
          signerInformation rep = Some (i, subjectName cert)
    end.
Proof.
  unfold signature_report. mstep. destruct (newDate s) as [[now|e] s0]; [|done].
  destruct (newDate s0) as [[time|e] s1]; [|done]. destruct (status_indication newDate (reported x) s1) as [[[main subs]|e] s2] eqn:Hst; [|done].
  destruct (validationProcess x _) as [process|e]; [|done].
  destruct (signer_part _ _ _ _ _ _ _ _ _) as [attrs signer_subs].
  destruct (ident x) as [i|e]; cbn [is_Ret]; (destruct (SigVerify.signerCertificate (reported x)) as [cert|]; [|intros [= <- <-]]).
  2,4: exists now, main, subs, s1, s2; repeat (split; [done|]); exists []; by rewrite !app_nil_r, ?app_nil_l, ?app_assoc.
  all: unfold addSignerInformation; mstep; destruct (certBytes cert) as [b|] eqn:Hb; [|done];
    destruct (getId digests rawDigest toHexString b _ vo_certificate) as [j|] eqn:Hj; [|done]; intros [= <- <-];
    exists now, main, subs, s1, s2; repeat (split; [done|]);
    exists (if checksCoverage && negb (SigVerify.coversDocument (reported x)) then [DOCUMENT_PARTIALLY_SIGNED] else []);
    (split; [|by split; [|exists b, j]]); destruct (checksCoverage && _); by rewrite ?app_nil_r, ?app_nil_l, ?app_assoc.
Qed.

Lemma time_id_stored x m t i : stored_for x m → t ∈ SigVerify.timeValidationResults (reported x) →
  getTimeId digests rawDigest toHexString decode64 stampBytes t (getHashAlgo defaultHashAlgo x) = Some i → has m i.
Proof.
  unfold getTimeId. intros (_ & Ht & _) Hin. destruct (evidence t _) as [[o|]|] eqn:He; [|done..]. intros [= <-]. by eapply Ht.
Qed.
Lemma report_resolves x s rep s' m i : report_of x s = (Ret rep, s') → stored_for x m → i ∈ references rep → has m i.
Proof.
  intros Hrep Hst. pose proof Hst as (Hc & _ & Hd).
  destruct (report_parts _ _ _ _ Hrep) as (now & _ & _ & _ & _ & _ & Hbest & Hdoc & _ & Hattrs & last & _ & Hinfo).
  unfold references. rewrite Hbest, Hdoc, Hattrs. rewrite !elem_of_app. intros [Hi|[Hi|[Hi|Hi]]].
  - unfold getBestSignatureTime in Hi. destruct (best_time _) as [t|] eqn:Hb; [|by apply elem_of_nil in Hi]. simpl in Hi.
    apply best_time_in in Hb as [Hin _].
    destruct (getTimeId _ _ _ _ _ t _) as [j|] eqn:Ht; [|by apply elem_of_nil in Hi]. apply list_elem_of_singleton in Hi as ->.
    by eapply time_id_stored.
  - unfold addSignedDocumentRepresentation in Hi. destruct (SigVerify.signedDocument (reported x)) as [doc|]; [|by apply elem_of_nil in Hi].
    simpl in Hi. destruct (Hd doc eq_refl) as (j & Hj & Hm). rewrite Hj in Hi. by apply list_elem_of_singleton in Hi as ->.
  - unfold signer_part in Hi. destruct (SigVerify.signerCertificate (reported x)) as [cert|]; [|by apply elem_of_nil in Hi].
    destruct (Hc cert eq_refl) as (b & j & Hb & Hj & Hm). unfold signer_attributes in Hi. mstep. rewrite Hb, Hj in Hi.
    destruct (authnContext cert) as [ctx|]; [|by apply elem_of_nil in Hi]. cbn [fst attrCertificate attrTimeStamps] in Hi.
    apply elem_of_cons in Hi as [->|(t & Hin & Ht)%list_elem_of_omap]; [done|]. by eapply time_id_stored.
  - destruct (SigVerify.signerCertificate (reported x)) as [cert|].
    + destruct Hinfo as (_ & b & j & Hb & Hj & Hs). destruct (Hc cert eq_refl) as (b' & j' & Hb' & Hj' & Hm).
      rewrite Hs in Hi. apply list_elem_of_singleton in Hi as ->. simpl. congruence.
    + destruct Hinfo as [_ Hn]. rewrite Hn in Hi. by apply elem_of_nil in Hi.
Qed.
Lemma reports_resolve l s reps s' m : reports_of l s = (Ret reps, s') → (∀ x, Some x ∈ l → stored_for x m) →
  ∀ rep i, rep ∈ reps → i ∈ references rep → has m i.
Proof.
  intros H Hst. revert s reps H. induction l as [|[x|] l IH]; intros s reps; simpl; mstep.
  - intros [= <- _] rep i []%elem_of_nil.
  - destruct (report_of x s) as [[rep|e] s1] eqn:Hrep; [|done]. destruct (reports_of l s1) as [[rest|e] s2] eqn:Hrest; [|done].
    intros [= <- <-] rep' i [->|Hin]%elem_of_cons Hi; [eapply report_resolves; [done|apply Hst; left|done]|].
    eapply IH; [intros y Hy; apply Hst; by right|done|done|done].
  - intros H. eapply IH; [|done]. intros y Hy. apply Hst. by right.
Qed.
(** A HashMap gives each of its entries once. *)
Context (hashOrder_perm : ∀ X (l : list (string * X)), hashOrder X l ≡ₚ l).
(** C23. A report is closed: every object that a signature of the report refers to (the
    evidence of its best time and of its timestamps, the signed document, the certificate of
    the signer) is one of the objects of the report, and each object is listed under its own
    identifier, once. *)
Theorem report_closed l options s report s' : getReport l options s = (Ret report, s') →
  (∀ rep i, rep ∈ signatureReports report → i ∈ references rep →
     ∃ objects o, signatureValidationObjects report = Some objects ∧ (i, o) ∈ objects) ∧
  (∀ objects, signatureValidationObjects report = Some objects →
     NoDup objects.*1 ∧ ∀ i o, (i, o) ∈ objects → vo_id o = i).
Proof.
  unfold getValidationReport. destruct (objects_of _ l ∅) as [m|e] eqn:Hm; [|intros [= <- _]; split; [by intros ?? []%elem_of_nil|done]].
  apply all_stored in Hm as [[_ Hwf] Hst]. mstep. destruct (reports_of l s) as [[reps|e] s1] eqn:Hr; [|done]. intros [= <- _].
  cbn [signatureReports signatureValidationObjects]. split.
  - intros rep i Hrep Hi. destruct (reports_resolve _ _ _ _ m Hr Hst rep i Hrep Hi) as [o Ho].
    rewrite bool_decide_eq_false_2 by (intros ->; by rewrite lookup_empty in Ho). eexists _, o. split; [done|].
    rewrite hashOrder_perm. by apply elem_of_map_to_list.
  - case_bool_decide; [done|]. intros objects [= <-]. split.
    + rewrite hashOrder_perm. apply NoDup_fst_map_to_list.
    + intros i o. rewrite hashOrder_perm. intros Hi%elem_of_map_to_list. exact (Hwf (map_Forall_empty _) _ _ Hi).
Qed.

(** ** The status *)
Lemma indication_cases (r : SigValResult A) s main subs s' : status_indication newDate r s = (Ret (main, subs), s') →
  match SigVerify.status r with
  | Some SUCCESS => main = TOTAL_PASSED
  | Some (INTERDETERMINE | ERROR_NOT_TRUSTED) => main = INDETERMINATE_RESULT
  | Some _ => main = TOTAL_FAILED ∧ subs ≠ []
  | None => False
  end ∧ DOCUMENT_PARTIALLY_SIGNED ∉ subs.
Proof.
  assert (Hadd : ∀ s, match addCertValidationSubindications (A := A) newDate r s with
                      | (Ret subs, _) => DOCUMENT_PARTIALLY_SIGNED ∉ subs
                      | _ => True
                      end).
  { assert (Hsub : ∀ a b, DOCUMENT_PARTIALLY_SIGNED ∉ cert_subindications r a b).
    { intros a b. unfold cert_subindications. rewrite not_elem_of_app. split.
      - destruct (SigVerify.signerCertificate r); [|apply not_elem_of_nil].
        destruct (_ <? a)%Z, (b <? _)%Z; rewrite list_elem_of_In; simpl; naive_solver.
      - repeat case_match; rewrite list_elem_of_In; simpl; naive_solver. }
    intros s0. unfold addCertValidationSubindications. mstep. destruct (SigVerify.signerCertificate r); [|apply Hsub].
    destruct (newDate s0) as [[n1|] s1]; [|done]. destruct (newDate s1) as [[n2|] s2]; [apply Hsub|done]. }
  unfold status_indication. specialize (Hadd s). destruct (SigVerify.status r) as [[]|]; mstep;
    try (destruct (addCertValidationSubindications newDate r s) as [[subs'|e] s1]; [|done]); intros [= <- <- _];
    repeat split; try done; rewrite ?not_elem_of_app, ?list_elem_of_singleton; try done; try apply not_elem_of_nil.
  all: by destruct subs'; rewrite ?list_elem_of_singleton.
Qed.
(** C30. The indication of a report: a signature is reported as passed exactly when its result
    is a success and its identifier (the hash of the signed bytes and the signature value)
    could be made, and as indeterminate exactly when the result is, or when the signer is not
    trusted.  A signature that failed has a reason, one whose signer is not known says so, and
    a signature is marked as covering only a part of the document exactly when its signer is
    known, its format asks for the coverage and it does not cover the document: the code skips
    the policy of the format for a signature whose signer is not known. *)
Theorem report_indication x s rep s' : report_of x s = (Ret rep, s') →
  let r := reported x in
  (mainIndication rep = TOTAL_PASSED ↔ SigVerify.status r = Some SUCCESS ∧ is_Ret (ident x) = true) ∧
  (mainIndication rep = INDETERMINATE_RESULT ↔
     (SigVerify.status r = Some INTERDETERMINE ∨ SigVerify.status r = Some ERROR_NOT_TRUSTED) ∧ is_Ret (ident x) = true) ∧
  (mainIndication rep = TOTAL_FAILED → subIndications rep ≠ []) ∧
  (SigVerify.signerCertificate r = None → NO_SIGNING_CERTIFICATE_FOUND ∈ subIndications rep) ∧
  (DOCUMENT_PARTIALLY_SIGNED ∈ subIndications rep ↔
     checksCoverage = true ∧ SigVerify.coversDocument r = false ∧ is_Some (SigVerify.signerCertificate r)).
Proof.
  intros Hrep r.
  destruct (report_parts _ _ _ _ Hrep) as (now & main & subs & s1 & s2 & Hst & _ & _ & Hmain & _ & last & Hsubs & Hlast).
  apply indication_cases in Hst as [Hst Hno]. fold r in Hst, Hlast, Hsubs.
  set (part := snd (signer_part digests rawDigest toHexString decode64 certBytes stampBytes authnContext r
    (getHashAlgo defaultHashAlgo x))) in *.
  assert (Hpart : DOCUMENT_PARTIALLY_SIGNED ∉ part ∧
    (SigVerify.signerCertificate r = None → NO_SIGNING_CERTIFICATE_FOUND ∈ part)).
  { unfold part, signer_part. repeat case_match; simpl; rewrite ?list_elem_of_singleton; split; try done; apply not_elem_of_nil. }
  assert (Hin : DOCUMENT_PARTIALLY_SIGNED ∈ last ↔
    checksCoverage = true ∧ SigVerify.coversDocument r = false ∧ is_Some (SigVerify.signerCertificate r)).
  { destruct (SigVerify.signerCertificate r); destruct Hlast as [-> _]; [|rewrite elem_of_nil; split; [done|by intros (_ & _ & [? ?])]].
    destruct checksCoverage, (SigVerify.coversDocument r); simpl; rewrite ?list_elem_of_singleton, ?elem_of_nil; naive_solver. }
  rewrite Hmain, Hsubs, !elem_of_app. split; [|split; [|split; [|split]]].
  - destruct (is_Ret (ident x)), (SigVerify.status r) as [[]|]; naive_solver.
  - destruct (is_Ret (ident x)), (SigVerify.status r) as [[]|]; naive_solver.
  - destruct (is_Ret (ident x)); [|by intros _ [_ [? _]%app_eq_nil]%app_eq_nil].
    intros Hf [Hs _]%app_eq_nil. destruct (SigVerify.status r) as [[]|]; naive_solver.
  - intros Hn. right; right; left. by apply Hpart.
  - rewrite Hin. split; [|naive_solver]. intros [?|[Hi|[?|?]]]; [done| |by destruct Hpart|done].
    destruct (is_Ret (ident x)); [by apply elem_of_nil in Hi|by apply list_elem_of_singleton in Hi].
Qed.
End Reports.

(** ** The best signature time *)
(** The first of the entries that satisfy both tests. *)
Lemma find_filter_split {X} (p f : X → bool) l x : List.find f (List.filter p l) = Some x →
  ∃ l1 l2, l = l1 ++ x :: l2 ∧ ∀ y, y ∈ l1 → p y = true → f y = false.
Proof.
  induction l as [|a l IH]; simpl; [done|]. destruct (p a) eqn:Hp; simpl; [destruct (f a) eqn:Hf|].
  { intros [= ->]. exists [], l. by split; [|intros y []%elem_of_nil]. }
  all: intros (l1 & l2 & -> & Hl)%IH; exists (a :: l1), l2; split; [done|];
    intros y [->|Hy]%elem_of_cons; [congruence|by apply Hl].
Qed.
(** C27. The time of a report: when the verified times lie within 68 years of each other (2^31
    seconds, so that no difference overflows an int), the best time is an earliest one of
    them, the first of these in the order of the results; and there is one when any time is
    verified.  The sort is the one of the JDK for less than 32 entries. *)
Theorem best_time_earliest l base :
  Forall (λ t, isValidTime t = true → base ≤ claims_time t < base + 2 ^ 31)%Z l →
  (best_time l = None ↔ Forall (λ t, isValidTime t = false) l) ∧
  ∀ t, best_time l = Some t →
    isValidTime t = true ∧ ∃ l1 l2, l = l1 ++ t :: l2 ∧
      (∀ u, u ∈ l1 → isValidTime u = true → (claims_time t < claims_time u)%Z) ∧
      (∀ u, u ∈ l2 → isValidTime u = true → (claims_time t ≤ claims_time u)%Z).
Proof.
  intros Hl. split.
  - unfold best_time. rewrite Forall_forall. split.
    + intros Hn t Ht. destruct (isValidTime t) eqn:Hv; [|done]. exfalso.
      assert (Hin : t ∈ small_sort compare_times (List.filter isValidTime l)).
      { rewrite small_sort_perm. by apply list_elem_of_In, List.filter_In; rewrite <- list_elem_of_In. }
      destruct (small_sort _ _); [by apply elem_of_nil in Hin|done].
    + intros Hn. assert (List.filter isValidTime l = []) as ->; [|done].
      destruct (List.filter isValidTime l) as [|t l'] eqn:E; [done|]. exfalso.
      assert (t ∈ List.filter isValidTime l) as Hin by (rewrite E; left). apply list_elem_of_In, List.filter_In in Hin as [Hin Hv].
      by rewrite Hn in Hv by by apply list_elem_of_In.
  - intros t Ht. pose proof (best_time_in _ _ Ht) as [_ Hv]. split; [done|].
    assert (Hgood : Forall (λ t, base ≤ claims_time t < base + 2 ^ 31)%Z (List.filter isValidTime l)).
    { rewrite Forall_forall in Hl |- *. intros v [Hv1 Hv2]%list_elem_of_In%List.filter_In. by apply Hl; [apply list_elem_of_In|]. }
    unfold best_time in Ht.
    rewrite (small_sort_head compare_times (λ t, base ≤ claims_time t < base + 2 ^ 31)%Z (λ t, - claims_time t)%Z) in Ht; [| |done].
    + pose proof (proj2 (List.find_some _ _ Ht)) as Hall. rewrite forallb_forall in Hall.
      assert (Hmin : ∀ u, u ∈ l → isValidTime u = true → (claims_time t ≤ claims_time u)%Z).
      { intros u Hu Huv. specialize (Hall u ltac:(apply List.filter_In; by rewrite <- list_elem_of_In)). apply Z.leb_le in Hall. lia. }
      apply find_filter_split in Ht as (l1 & l2 & E & H1). exists l1, l2. split; [done|]. split.
      * intros u Hu Huv. specialize (H1 u Hu Huv). apply Z.lt_nge. intros Hle. eapply eq_true_false_abs; [|exact H1].
        apply forallb_forall. intros w [Hw Hwv]%List.filter_In. apply list_elem_of_In in Hw. specialize (Hmin w Hw Hwv).
        apply Z.leb_le. lia.
      * intros u Hu. apply Hmin. rewrite E, elem_of_app. by right; right.
    + intros v w Hvb Hwb. unfold compare_times, int32.
      assert ((claims_time v - claims_time w + 2 ^ 31) mod 2 ^ 32 = claims_time v - claims_time w + 2 ^ 31)%Z as ->.
      { apply Z.mod_small. lia. }
      apply eq_bool_prop_intro. rewrite !Is_true_true, !Z.ltb_lt. lia.
Qed.

(** ** Examples *)
Section Demo.
Definition verified_at (time : Z) : TimeValidationResult :=
  mkTimeResult (Some (mkTimeClaims "1" "ca" time "t" [mkClaims "p" PASSED ""] None)) None.
Lemma best_time_earliest_witness :
  best_time [verified_at 40; verified_at 30; verified_at 30; verified_at 50] = Some (verified_at 30) ∧
  ∃ l1 l2, [verified_at 40; verified_at 30; verified_at 30; verified_at 50] = l1 ++ verified_at 30 :: l2 ∧
    verified_at 30 ∉ l1.
Proof.
  split; [reflexivity|].
  destruct (best_time_earliest [verified_at 40; verified_at 30; verified_at 30; verified_at 50] 0) as [_ H].
  { repeat constructor; vm_compute; intuition discriminate. }
  destruct (H (verified_at 30) eq_refl) as (_ & l1 & l2 & E & Hlt & _). exists l1, l2. split; [exact E|].
  intros Hin. specialize (Hlt _ Hin eq_refl). discriminate Hlt.
Defined.
(** Times that are further apart are sorted wrongly. *)
Example best_time_overflow : best_time [verified_at 1; verified_at (2 ^ 31 + 2)] = Some (verified_at (2 ^ 31 + 2)).
Proof. reflexivity. Qed.

Definition demo_svr (st : Status) (covers : bool) : SigValResult unit :=
  mkSvr (Some tt) (Some "alg"%string) (Some demo_target) (Some [demo_target]) (Some st) "OK" None covers (Some "doc"%string) false false None
    [verified_at 40; verified_at 30] None [mkClaims "p" PASSED ""].
Definition demo_reported (st : Status) (covers : bool) : Reported unit :=
  mkReported (demo_svr st covers) None None (Ret "tbs"%string) (Ret (Some "value"%string)).
Definition report_digests (_ : option string) : outcome DigestAlgorithm := Ret (mkDigestAlgorithm "sha256" "1").
#[local] Existing Instance ExtensionsProps.demo_asn1.
Definition demo_hash (_ : DigestAlgorithm) (b : string) : outcome string := Ret b.
Notation demo_report x := (signature_report (S := unit) (mret 5%Z) report_digests demo_hash id Ret (λ _, Ret "cert"%string) (λ _, ""%string)
  (λ _, Ret None) (λ _, Ret None) (λ _, "subject"%string) None true x) (only parsing).
Notation demo_reports l := (getValidationReport (S := unit) (mret 5%Z) report_digests demo_hash id Ret (λ _, Ret "cert"%string) (λ _, ""%string)
  (λ _, None) (λ _ es, es) (λ _, Ret None) (λ _, Ret None) (λ _, "subject"%string) None true l None) (only parsing).
Definition demo_whole : ValidationReport :=
  match demo_reports [Some (demo_reported SUCCESS false)] tt with (Ret r, _) => r | _ => mkReport None [] end.
Lemma report_closed_witness :
  signatureReports demo_whole ≠ [] ∧
  ∀ rep, rep ∈ signatureReports demo_whole → "C-cert"%string ∈ references rep ∧ "VT-30"%string ∈ references rep ∧
    ∃ objects o, signatureValidationObjects demo_whole = Some objects ∧ ("VT-30"%string, o) ∈ objects.
Proof.
  split; [by vm_compute|]. intros rep Hrep.
  destruct (report_closed (S := unit) (mret 5%Z) report_digests demo_hash id Ret (λ _, Ret "cert"%string) (λ _, ""%string)
    (λ _, None) (λ _ l, l) (λ _, Ret None) (λ _, Ret None) (λ _, "subject"%string) None true (λ _ _, Permutation_refl _)
    [Some (demo_reported SUCCESS false)] None tt demo_whole tt) as [Hrefs _]; [vm_compute; reflexivity|].
  assert (Hids : "C-cert"%string ∈ references rep ∧ "VT-30"%string ∈ references rep).
  { unfold demo_whole in Hrep. vm_compute in Hrep. apply list_elem_of_singleton in Hrep as ->. split; apply list_elem_of_In; vm_compute; tauto. }
  destruct Hids as [Hc Ht]. split; [exact Hc|]. split; [exact Ht|]. exact (Hrefs rep _ Hrep Ht).
Defined.
Definition demo_partial : SignatureReport :=
  match demo_report (demo_reported SUCCESS false) tt with (Ret r, _) => r | _ => mkSigReport 0 (mkPOE 0 None) None TOTAL_FAILED [] [] "" None None None None end.
Lemma report_indication_witness :
  mainIndication demo_partial = TOTAL_PASSED ∧ DOCUMENT_PARTIALLY_SIGNED ∈ subIndications demo_partial.
Proof.
  destruct (report_indication (S := unit) (mret 5%Z) report_digests demo_hash id Ret (λ _, Ret "cert"%string) (λ _, ""%string)
    (λ _, Ret None) (λ _, Ret None) (λ _, "subject"%string) None true (demo_reported SUCCESS false) tt demo_partial tt)
    as ([_ Hp] & _ & _ & _ & Hpart); [vm_compute; reflexivity|].
  split; [apply Hp; by split|]. apply Hpart. split; [reflexivity|]. split; [reflexivity|]. by eexists.
Defined.
(** A token whose claims name no policy: the report is not made at all. *)
Definition report_token : SignedJWT := mkJWT RS256 None None (Ret (mkClaimsSet None "iss" None "id" (Ret (mkSVTClaims None [])))).
Definition no_policy : Reported unit :=
  mkReported (with_claims [] (demo_svr ERROR_INVALID_SIGNATURE true)) (Some report_token)
    (Some (mkSigClaims (mkSigRef None "h" "h") None None None None)) (Ret ""%string) (Ret None).
Example token_without_policy_throws : demo_reports [Some no_policy] tt = (Throw NullPointerException, tt).
Proof. by vm_compute. Qed.
(** One result that is null leaves the whole report empty. *)
Example null_result_empties : demo_reports [Some (demo_reported SUCCESS true); None] tt = (Ret (mkReport None []), tt).
Proof. by vm_compute. Qed.
End Demo.
