(* ===== verification/JqData.v ===== *)
(** * Data attached to elements

    Model of the [Data] objects of jquery-3.5.1.js (lines 4204-4554: [camelCase],
    [acceptData], [Data.prototype], [getData], [dataAttr], [jQuery.fn.data]) and of
    the queues kept in them (lines 4557-4689).

    The store holds the owners (DOM nodes or plain objects) with their expando
    properties, the cache objects these point to, the queue arrays and the hook
    objects; caches and arrays are references, since [get] hands out the live cache
    object and [queue] the live array. *)
From Stdlib Require Import ZArith Lia Ascii String.
From stdpp Require Import base gmap strings list relations.
From S2P Require Import Prelude.
From S2P Require Import JsString.

(** ** Values and the store *)
(** A number is written as the string it converts to; [DBuiltin] is a function
    that every object inherits from [Object.prototype]. *)
Inductive dval :=
  | DUndef | DNull | DBool (b : bool) | DNum (repr : string) | DStr (s : string)
  | DRef (r : nat) | DArr (a : nat) | DHooks (h : nat) | DFn (f : nat) | DBuiltin (name : string).
#[export] Instance dval_eq_dec : EqDecision dval.
Proof. solve_decision. Defined.

Definition truthy (v : dval) : bool :=
  match v with
  | DUndef | DNull | DBool false => false
  | DNum n => negb (String.eqb n "0" || String.eqb n "NaN")
  | DStr s => negb (String.eqb s "")
  | _ => true
  end.

(** The value of [owner[ expando ]]: no property, a property set to undefined, or
    a cache object. *)
Inductive Slot := NoSlot | SlotUndefined | SlotCache (r : nat).
Record Owner := mkOwner {
  nodeType : option Z;
  attributes : list (string * string);
  expandos : gmap nat Slot
}.
(** A cache object: its own properties in order of creation. *)
Definition props := list (string * dval).
(** What waits in the [empty] list of a queue hook, and the hook. *)
Inductive emptyCb := RemoveQueue (elem : nat) (keys : list string) | ResolvePromise (p : nat).
Record Hooks := mkHooks { stop : option dval; empty_fired : bool; empty_list : list emptyCb }.
Record Promise := mkPromise { count : Z; resolved : bool }.

Record Store := mkStore {
  owners : gmap nat Owner;
  caches : gmap nat props;
  arrays : gmap nat (list dval);
  hooksOf : gmap nat Hooks;
  promises : gmap nat Promise;
  fresh : nat
}.
Definition set_owners o s := mkStore o (caches s) (arrays s) (hooksOf s) (promises s) (fresh s).
Definition set_caches c s := mkStore (owners s) c (arrays s) (hooksOf s) (promises s) (fresh s).
Definition set_arrays a s := mkStore (owners s) (caches s) a (hooksOf s) (promises s) (fresh s).
Definition set_hooks h s := mkStore (owners s) (caches s) (arrays s) h (promises s) (fresh s).
Definition set_promises p s := mkStore (owners s) (caches s) (arrays s) (hooksOf s) p (fresh s).
Definition set_fresh n s := mkStore (owners s) (caches s) (arrays s) (hooksOf s) (promises s) n.

Definition the_owner (o : nat) (s : Store) : Owner := default (mkOwner None [] ∅) (owners s !! o).
Definition slot (uid o : nat) (s : Store) : Slot := default NoSlot (expandos (the_owner o s) !! uid).
Definition set_slot (uid o : nat) (x : Slot) (s : Store) : Store :=
  let w := the_owner o s in
  set_owners (<[o := mkOwner (nodeType w) (attributes w) (<[uid := x]> (expandos w))]> (owners s)) s.
Definition the_cache (r : nat) (s : Store) : props := default [] (caches s !! r).
Definition the_array (a : nat) (s : Store) : list dval := default [] (arrays s !! a).

(** *** Properties of an object *)
Definition inherited : list string :=
  ["constructor"; "__defineGetter__"; "__defineSetter__"; "hasOwnProperty"; "__lookupGetter__";
   "__lookupSetter__"; "isPrototypeOf"; "propertyIsEnumerable"; "toString"; "valueOf";
   "toLocaleString"]%string.
Definition is_inherited (k : string) : bool := existsb (String.eqb k) inherited.
Fixpoint own_prop (k : string) (c : props) : option dval :=
  match c with
  | [] => None
  | (j, v) :: c' => if String.eqb j k then Some v else own_prop k c'
  end.
(** [cache[ k ]] *)
Definition read_prop (k : string) (c : props) : dval :=
  match own_prop k c with
  | Some v => v
  | None => if is_inherited k then DBuiltin k else DUndef
  end.
(** [cache[ k ] = v] *)
Fixpoint write_prop (k : string) (v : dval) (c : props) : props :=
  match c with
  | [] => [(k, v)]
  | (j, w) :: c' => if String.eqb j k then (j, v) :: c' else (j, w) :: write_prop k v c'
  end.
(** [delete cache[ k ]] *)
Definition delete_prop (k : string) (c : props) : props :=
  List.filter (λ p, negb (String.eqb (fst p) k)) c.
(** [k in cache] *)
Definition in_object (k : string) (c : props) : bool :=
  match own_prop k c with Some _ => true | None => is_inherited k end.

(** ** The [Data] object with identifier [uid] *)
Definition acceptData (o : nat) (s : Store) : bool :=
  match nodeType (the_owner o s) with
  | Some t => Z.eqb t 1 || Z.eqb t 9 || Z.eqb t 0
  | None => true
  end.

Definition cache (uid o : nat) (s : Store) : nat * Store :=
  match slot uid o s with
  | SlotCache r => (r, s)
  | _ =>
      let r := fresh s in
      let s1 := set_fresh (S r) (set_caches (<[r := []]> (caches s)) s) in
      (r, if acceptData o s then set_slot uid o (SlotCache r) s1 else s1)
  end.

Definition write_cache (r : nat) (k : string) (v : dval) (s : Store) : Store :=
  set_caches (<[r := write_prop (camelCase k) v (the_cache r s)]> (caches s)) s.

(** The key argument of [set] and [access]: a string, or an object given by its
    enumerable properties in order. *)
Inductive key := KStr (k : string) | KProps (l : props).

Definition data_set (uid o : nat) (data : key) (value : dval) (s : Store) : nat * Store :=
  let '(r, s1) := cache uid o s in
  match data with
  | KStr k => (r, write_cache r k value s1)
  | KProps l => (r, fold_left (λ s p, write_cache r (fst p) (snd p) s) l s1)
  end.

Definition data_get (uid o : nat) (k : option string) (s : Store) : dval * Store :=
  match k with
  | None => let '(r, s1) := cache uid o s in (DRef r, s1)
  | Some k =>
      (match slot uid o s with
       | SlotCache r => read_prop (camelCase k) (the_cache r s)
       | _ => DUndef
       end, s)
  end.

(** [access]; the second component is what it returns when it sets an object. *)
Definition data_access (uid o : nat) (k : option key) (value : dval) (s : Store) : (dval + props) * Store :=
  match k with
  | None => let '(v, s1) := data_get uid o None s in (inl v, s1)
  | Some (KStr k) =>
      if negb (String.eqb k "") && bool_decide (value = DUndef)
      then let '(v, s1) := data_get uid o (Some k) s in (inl v, s1)
      else let '(_, s1) := data_set uid o (KStr k) value s in
           (inl (if bool_decide (value = DUndef) then DStr k else value), s1)
  | Some (KProps l) =>
      let '(_, s1) := data_set uid o (KProps l) value s in
      (if bool_decide (value = DUndef) then inr l else inl value, s1)
  end.

(** The key argument of [remove]: nothing, an array of keys, a string. *)
Inductive removal := RAll | RKeys (l : list string) | RStr (k : string).
Definition removed_keys (key : removal) (c : props) : list string :=
  match key with
  | RAll => []
  | RKeys l => map camelCase l
  | RStr k =>
      let k := camelCase k in
      if in_object k c then [k] else htmlwords k
  end.
Definition clear_slot (uid o : nat) (s : Store) : Store :=
  match nodeType (the_owner o s) with
  | Some t => if Z.eqb t 0 then set_slot uid o NoSlot s else set_slot uid o SlotUndefined s
  | None => set_slot uid o NoSlot s
  end.
Definition data_remove (uid o : nat) (key : removal) (s : Store) : Store :=
  match slot uid o s with
  | SlotCache r =>
      let c := fold_left (λ c k, delete_prop k c) (rev (removed_keys key (the_cache r s))) (the_cache r s) in
      let s1 := set_caches (<[r := c]> (caches s)) s in
      match key, c with
      | RAll, _ | _, [] => clear_slot uid o s1
      | _, _ => s1
      end
  | _ => s
  end.

Definition hasData (uid o : nat) (s : Store) : bool :=
  match slot uid o s with
  | SlotCache r => match the_cache r s with [] => false | _ => true end
  | _ => false
  end.

(** [dataPriv] and [dataUser] *)
Definition dataPriv : nat := 1.
Definition dataUser : nat := 2.

(** ** [data-*] attributes and [jQuery.fn.data] *)
Section Attributes.
(** What the language gives: [JSON.parse], and [+data + ""]. *)
Context (parseJSON : string → outcome dval) (numberString : string → string).

(** [rbrace]: in braces or in brackets. *)
Fixpoint last_char (s : string) : option ascii :=
  match s with
  | EmptyString => None
  | String c EmptyString => Some c
  | String _ s' => last_char s'
  end.
Definition rbrace (s : string) : bool :=
  match s with
  | String "{"%char (String _ _) => bool_decide (last_char s = Some "}"%char)
  | String "["%char (String _ _) => bool_decide (last_char s = Some "]"%char)
  | _ => false
  end.

Definition getData (data : string) : outcome dval :=
  if String.eqb data "true" then Ret (DBool true)
  else if String.eqb data "false" then Ret (DBool false)
  else if String.eqb data "null" then Ret DNull
  else if String.eqb data (numberString data) then Ret (DNum (numberString data))
  else if rbrace data then parseJSON data
  else Ret (DStr data).

(** [elem.getAttribute( name )] *)
Fixpoint getAttribute (l : list (string * string)) (name : string) : option string :=
  match l with
  | [] => None
  | (n, v) :: l' => if String.eqb n name then Some v else getAttribute l' name
  end.

Definition dataAttr (elem : nat) (key : string) (data : dval) (s : Store) : dval * Store :=
  let w := the_owner elem s in
  if bool_decide (data = DUndef) && bool_decide (nodeType w = Some 1%Z) then
    match getAttribute (attributes w) ("data-" ++ dashed key)%string with
    | Some a =>
        let v := match getData a with Ret v => v | Throw _ => DStr a end in
        (v, snd (data_set dataUser elem (KStr key) v s))
    | None => (DUndef, s)
    end
  else (data, s).

(** The loop over the attributes, from the last to the first. *)
Definition read_attr (elem r : nat) (s : Store) (name : string) : Store :=
  if String.prefix "data-" name
  then let key := camelCase (str_drop 5 name) in
       snd (dataAttr elem key (read_prop key (the_cache r s)) s)
  else s.
Definition fn_data_all (elem : option nat) (s : Store) : dval * Store :=
  match elem with
  | None => (DUndef, s)
  | Some elem =>
      let '(data, s1) := data_get dataUser elem None s in
      let r := match data with DRef r => r | _ => 0 end in
      let w := the_owner elem s1 in
      if bool_decide (nodeType w = Some 1%Z)
         && negb (truthy (fst (data_get dataPriv elem (Some "hasDataAttrs"%string) s1)))
      then let s2 := fold_left (read_attr elem r) (rev (map fst (attributes w))) s1 in
           (data, snd (data_set dataPriv elem (KStr "hasDataAttrs") (DBool true) s2))
      else (data, s1)
  end.

(** [.data( key )] *)
Definition fn_data_get (elem : option nat) (k : string) (s : Store) : dval * Store :=
  match elem with
  | None => (DUndef, s)
  | Some elem =>
      let data := fst (data_get dataUser elem (Some k) s) in
      if negb (bool_decide (data = DUndef)) then (data, s) else dataAttr elem k DUndef s
  end.
(** [.data( key, value )] and [.data( object )] on all elements of the set. *)
Definition fn_data_set (elems : list nat) (k : key) (value : dval) (s : Store) : Store :=
  match k with
  | KStr _ =>
      if bool_decide (value = DUndef) then s
      else fold_left (λ s e, snd (data_set dataUser e k value s)) elems s
  | KProps _ => fold_left (λ s e, snd (data_set dataUser e k DUndef s)) elems s
  end.
Definition fn_removeData (elems : list nat) (key : removal) (s : Store) : Store :=
  fold_left (λ s e, data_remove dataUser e key s) elems s.
End Attributes.

(** ** Facts about caches *)
Lemma own_write k v c j :
  own_prop j (write_prop k v c) = if String.eqb k j then Some v else own_prop j c.
Proof.
  induction c as [|[i w] c IH]; simpl.
  - by destruct (String.eqb_spec k j).
  - destruct (String.eqb_spec i k) as [->|Hik]; simpl.
    + by destruct (String.eqb_spec k j).
    + rewrite IH. destruct (String.eqb_spec i j) as [->|]; [|done].
      by destruct (String.eqb_spec k j) as [->|].
Qed.
Lemma own_delete k c j :
  own_prop j (delete_prop k c) = if String.eqb k j then None else own_prop j c.
Proof.
  induction c as [|[i w] c IH]; simpl; [by destruct (String.eqb k j)|].
  destruct (String.eqb_spec i k) as [->|Hik]; simpl.
  - rewrite IH. by destruct (String.eqb_spec k j).
  - rewrite IH. destruct (String.eqb_spec i j) as [->|]; [|done].
    by destruct (String.eqb_spec k j) as [->|].
Qed.
Lemma read_write k v c j :
  read_prop j (write_prop k v c) = if String.eqb k j then v else read_prop j c.
Proof. unfold read_prop. rewrite own_write. by destruct (String.eqb k j). Qed.

Lemma the_owner_set_slot uid o x s p :
  the_owner p (set_slot uid o x s) =
  if decide (p = o)
  then mkOwner (nodeType (the_owner o s)) (attributes (the_owner o s)) (<[uid := x]> (expandos (the_owner o s)))
  else the_owner p s.
Proof.
  unfold set_slot, the_owner at 1. simpl. destruct (decide (p = o)) as [->|Hne].
  - by rewrite lookup_insert_eq.
  - by rewrite lookup_insert_ne.
Qed.
Lemma slot_set_slot uid o x s v p :
  slot v p (set_slot uid o x s) = if decide (p = o ∧ v = uid) then x else slot v p s.
Proof.
  unfold slot. rewrite the_owner_set_slot. destruct (decide (p = o)) as [->|Hp].
  - simpl. destruct (decide (v = uid)) as [->|Hv].
    + by rewrite lookup_insert_eq, decide_True.
    + rewrite lookup_insert_ne, decide_False by naive_solver. done.
  - by rewrite decide_False by naive_solver.
Qed.

(** ** Caches are not shared *)
(** Every attached cache object exists, belongs to one owner and one [Data]
    object, and is attached to something that accepts data. *)
Record data_wf (s : Store) : Prop := {
  wf_alloc r : is_Some (caches s !! r) → r < fresh s;
  wf_attached uid o r : slot uid o s = SlotCache r → is_Some (caches s !! r) ∧ acceptData o s = true;
  wf_unshared uid o r v p :
    slot uid o s = SlotCache r → slot v p s = SlotCache r → uid = v ∧ o = p
}.

Lemma accept_set_slot uid o x s p : acceptData p (set_slot uid o x s) = acceptData p s.
Proof. unfold acceptData. rewrite the_owner_set_slot. by destruct (decide (p = o)) as [->|]. Qed.

Lemma wf_set_caches s c :
  data_wf s → (∀ r, is_Some (c !! r) ↔ is_Some (caches s !! r)) → data_wf (set_caches c s).
Proof.
  intros [H1 H2 H3] Hc. split.
  - intros r Hr. by apply H1, Hc.
  - intros uid o r Hs. destruct (H2 uid o r Hs). split; [by apply Hc|done].
  - exact H3.
Qed.
Lemma wf_set_slot_none uid o x s :
  data_wf s → (∀ r, x ≠ SlotCache r) → data_wf (set_slot uid o x s).
Proof.
  intros [H1 H2 H3] Hx. split.
  - exact H1.
  - intros v p r. rewrite slot_set_slot. destruct (decide _); [by intros E; destruct (Hx r)|].
    rewrite accept_set_slot. apply H2.
  - intros v p r v' p'. rewrite !slot_set_slot. do 2 (destruct (decide _); [intros; by destruct (Hx r)|]).
    apply H3.
Qed.
Definition alloc_cache (s : Store) : Store :=
  set_fresh (S (fresh s)) (set_caches (<[fresh s := []]> (caches s)) s).
Lemma wf_alloc_cache s : data_wf s → data_wf (alloc_cache s).
Proof.
  intros [H1 H2 H3]. split; [| |exact H3].
  - intros r Hr. simpl in *. destruct (decide (r = fresh s)) as [->|]; [lia|].
    rewrite lookup_insert_ne in Hr by done. apply H1 in Hr. lia.
  - intros v p r Hr. destruct (H2 v p r Hr) as [? ?]. split; [|done]. simpl.
    destruct (decide (r = fresh s)) as [->|]; [by rewrite lookup_insert_eq|by rewrite lookup_insert_ne].
Qed.
Lemma wf_attach uid o r s :
  data_wf s → is_Some (caches s !! r) → acceptData o s = true →
  (∀ v p, slot v p s ≠ SlotCache r) → data_wf (set_slot uid o (SlotCache r) s).
Proof.
  intros [H1 H2 H3] Hr Ha Hn. split; [exact H1| |].
  - intros v p q. rewrite slot_set_slot, accept_set_slot.
    destruct (decide _) as [[-> ->]|]; [by intros [= <-]|apply H2].
  - intros v p q v' p'. rewrite !slot_set_slot.
    destruct (decide _) as [[-> ->]|], (decide _) as [[-> ->]|]; try done.
    + intros [= <-] E. by destruct (Hn v' p').
    + intros E [= <-]. by destruct (Hn v p).
    + apply H3.
Qed.

Lemma cache_wf uid o s r s' :
  data_wf s → cache uid o s = (r, s') →
  data_wf s' ∧ is_Some (caches s' !! r) ∧ (acceptData o s = true → slot uid o s' = SlotCache r).
Proof.
  intros Hw H. unfold cache in H. pose proof (wf_alloc_cache s Hw) as Hn.
  fold (alloc_cache s) in H.
  assert (is_Some (caches (alloc_cache s) !! fresh s)) as Hs by (simpl; by rewrite lookup_insert_eq).
  assert ((fresh s, if acceptData o s then set_slot uid o (SlotCache (fresh s)) (alloc_cache s)
                    else alloc_cache s) = (r, s') → data_wf s' ∧ is_Some (caches s' !! r) ∧
    (acceptData o s = true → slot uid o s' = SlotCache r)) as Hnew.
  { intros [= <- <-]. destruct (acceptData o s) eqn:Ha; [|done]. split; [|split; [done|]].
    - apply wf_attach; [done..|]. intros v p Hv.
      destruct (wf_attached s Hw v p _ Hv) as [Hi _]. apply (wf_alloc s Hw) in Hi. lia.
    - intros _. by rewrite slot_set_slot, decide_True. }
  destruct (slot uid o s) as [| |r0] eqn:Hsl; [by apply Hnew|by apply Hnew|].
  injection H as <- <-. destruct (wf_attached s Hw uid o r0 Hsl). auto.
Qed.

Lemma write_cache_wf r k v s : data_wf s → is_Some (caches s !! r) → data_wf (write_cache r k v s).
Proof.
  intros Hw Hr. apply wf_set_caches; [done|]. intros q. destruct (decide (q = r)) as [->|].
  - rewrite lookup_insert_eq. naive_solver.
  - by rewrite lookup_insert_ne.
Qed.
Lemma write_cache_dom r k v s q : is_Some (caches s !! q) → is_Some (caches (write_cache r k v s) !! q).
Proof.
  intros Hq. simpl. destruct (decide (q = r)) as [->|]; [by rewrite lookup_insert_eq|by rewrite lookup_insert_ne].
Qed.
Lemma fold_write_wf r l s :
  data_wf s → is_Some (caches s !! r) →
  data_wf (fold_left (λ s p, write_cache r (fst p) (snd p) s) l s).
Proof.
  revert s. induction l as [|p l IH]; intros s Hw Hr; simpl; [done|].
  apply IH; [by apply write_cache_wf|by apply write_cache_dom].
Qed.
Lemma data_set_wf uid o k v s : data_wf s → data_wf (snd (data_set uid o k v s)).
Proof.
  intros Hw. unfold data_set. destruct (cache uid o s) as [r s1] eqn:Hc.
  destruct (cache_wf uid o s r s1 Hw Hc) as (Hw1 & Hr & _).
  destruct k; simpl; [by apply write_cache_wf|by apply fold_write_wf].
Qed.
Lemma data_get_wf uid o k s : data_wf s → data_wf (snd (data_get uid o k s)).
Proof.
  intros Hw. destruct k; simpl; [done|]. destruct (cache uid o s) as [r s1] eqn:Hc.
  by destruct (cache_wf uid o s r s1 Hw Hc).
Qed.
Lemma data_access_wf uid o k v s : data_wf s → data_wf (snd (data_access uid o k v s)).
Proof.
  intros Hw. pose proof (λ k, data_get_wf uid o k s Hw) as Hg. pose proof (λ k, data_set_wf uid o k v s Hw) as Hs.
  unfold data_access. destruct k as [[k|l]|].
  - destruct (_ && _).
    + specialize (Hg (Some k)). by destruct (data_get uid o (Some k) s).
    + specialize (Hs (KStr k)). by destruct (data_set uid o (KStr k) v s).
  - specialize (Hs (KProps l)). destruct (data_set uid o (KProps l) v s). by case_bool_decide.
  - specialize (Hg None). by destruct (data_get uid o None s).
Qed.
Lemma clear_slot_wf uid o s : data_wf s → data_wf (clear_slot uid o s).
Proof.
  intros Hw. unfold clear_slot. destruct (nodeType _) as [t|]; [destruct (Z.eqb t 0)|];
    by apply wf_set_slot_none.
Qed.
Lemma data_remove_wf uid o key s : data_wf s → data_wf (data_remove uid o key s).
Proof.
  intros Hw. unfold data_remove. destruct (slot uid o s) as [| |r] eqn:Hs; [done..|].
  destruct (wf_attached s Hw uid o r Hs) as [Hr _].
  set (c := fold_left _ _ _).
  assert (data_wf (set_caches (<[r := c]> (caches s)) s)) as Hw1.
  { apply wf_set_caches; [done|]. intros q. destruct (decide (q = r)) as [->|];
      [rewrite lookup_insert_eq; naive_solver|by rewrite lookup_insert_ne]. }
  destruct key, c; auto using clear_slot_wf.
Qed.

Section AttributesWf.
Context (parseJSON : string → outcome dval) (numberString : string → string).
Lemma dataAttr_wf elem k v s : data_wf s → data_wf (snd (dataAttr parseJSON numberString elem k v s)).
Proof.
  intros Hw. unfold dataAttr. destruct (_ && _); [|done].
  destruct (getAttribute _ _); [|done]. simpl. by apply data_set_wf.
Qed.
Lemma read_attr_wf elem r s n : data_wf s → data_wf (read_attr parseJSON numberString elem r s n).
Proof. intros Hw. unfold read_attr. destruct (String.prefix _ _); [by apply dataAttr_wf|done]. Qed.
Lemma fold_wf {A} (f : Store → A → Store) l s :
  (∀ s a, data_wf s → data_wf (f s a)) → data_wf s → data_wf (fold_left f l s).
Proof. intros Hf. revert s. induction l; simpl; auto. Qed.
Lemma fn_data_all_wf elem s : data_wf s → data_wf (snd (fn_data_all parseJSON numberString elem s)).
Proof.
  intros Hw. unfold fn_data_all. destruct elem as [elem|]; [|done].
  pose proof (data_get_wf dataUser elem None s Hw) as Hg. destruct (data_get dataUser elem None s) as [d s1].
  simpl in Hg. destruct (_ && _); [|done]. simpl. apply data_set_wf, fold_wf; [|done].
  intros. by apply read_attr_wf.
Qed.
Lemma fn_data_get_wf elem k s : data_wf s → data_wf (snd (fn_data_get parseJSON numberString elem k s)).
Proof.
  intros Hw. unfold fn_data_get. destruct elem; [|done]. destruct (negb _); [done|]. by apply dataAttr_wf.
Qed.
Lemma fn_data_set_wf elems k v s : data_wf s → data_wf (fn_data_set elems k v s).
Proof.
  intros Hw. unfold fn_data_set. destruct k; [case_bool_decide; [done|]|];
    (apply fold_wf; [|done]; intros; by apply data_set_wf).
Qed.
Lemma fn_removeData_wf elems key s : data_wf s → data_wf (fn_removeData elems key s).
Proof. intros. apply fold_wf; [|done]. intros. by apply data_remove_wf. Qed.
End AttributesWf.

(** The value read under a key, by any owner and [Data] object. *)
Definition reads (s : Store) (uid o : nat) (k : string) : dval := fst (data_get uid o (Some k) s).

Lemma the_cache_write r k v s q :
  the_cache q (write_cache r k v s) =
  if decide (q = r) then write_prop (camelCase k) v (the_cache r s) else the_cache q s.
Proof.
  unfold the_cache at 1. simpl. destruct (decide (q = r)) as [->|]; [by rewrite lookup_insert_eq|].
  by rewrite lookup_insert_ne.
Qed.

(** Creating the cache changes nothing that can be read, except under the names
    every object inherits. *)
Lemma cache_reads uid o s r s1 :
  data_wf s → cache uid o s = (r, s1) →
  ∀ v p k, is_inherited (camelCase k) = false → reads s1 v p k = reads s v p k.
Proof.
  intros Hw H v p k Hk. unfold cache in H.
  assert (∀ v p k, reads (alloc_cache s) v p k = reads s v p k) as Ha.
  { intros v' p' k'. unfold reads, data_get. simpl. change (slot v' p' (alloc_cache s)) with (slot v' p' s).
    destruct (slot v' p' s) as [| |q] eqn:Hq; try done. f_equal. unfold the_cache. simpl.
    rewrite lookup_insert_ne; [done|]. intros <-.
    destruct (wf_attached s Hw v' p' _ Hq) as [Hi _]. apply (wf_alloc s Hw) in Hi. lia. }
  fold (alloc_cache s) in H.
  assert ((∀ q, slot uid o s ≠ SlotCache q) → (fresh s, if acceptData o s
    then set_slot uid o (SlotCache (fresh s)) (alloc_cache s) else alloc_cache s) = (r, s1) →
    reads s1 v p k = reads s v p k) as Hnew.
  { intros Hs [= <- <-]. destruct (acceptData o s); [|apply Ha]. rewrite <- Ha.
    unfold reads, data_get. simpl. rewrite slot_set_slot. destruct (decide _) as [[-> ->]|]; [|done].
    change (slot uid o (alloc_cache s)) with (slot uid o s). unfold the_cache. simpl.
    rewrite lookup_insert_eq. unfold read_prop. simpl. rewrite Hk.
    destruct (slot uid o s) as [| |q] eqn:E; [done..|]. by destruct (Hs q). }
  destruct (slot uid o s) as [| |r0] eqn:Hs; [by apply Hnew|by apply Hnew|by injection H as <- <-].
Qed.

Lemma write_cache_reads r k v s uid o p j j' :
  slot uid o s = SlotCache r → data_wf s →
  reads (write_cache r k v s) p j j' =
  if decide (p = uid ∧ j = o ∧ camelCase j' = camelCase k) then v else reads s p j j'.
Proof.
  intros Hs Hw. unfold reads, data_get. simpl. change (slot p j (write_cache r k v s)) with (slot p j s).
  destruct (slot p j s) as [| |q] eqn:Hq;
    [rewrite decide_False by (intros (-> & -> & _); congruence); done..|].
  rewrite the_cache_write. destruct (decide (q = r)) as [->|Hne].
  - destruct (wf_unshared s Hw _ _ _ _ _ Hq Hs) as [-> ->]. rewrite read_write.
    destruct (String.eqb_spec (camelCase k) (camelCase j')) as [E|E].
    + by rewrite decide_True.
    + by rewrite decide_False by naive_solver.
  - rewrite decide_False; [done|]. intros (-> & -> & _). congruence.
Qed.

(** Reading after writing: data stored for an element is read back under every
    spelling of its key, by that element and that [Data] object only, and nothing
    else that is stored changes; an owner that does not accept data (a text or
    comment node) keeps nothing.  Keys that objects inherit ("constructor",
    "toString") are excluded: see below. *)
Theorem data_set_get uid o k v s p j j' :
  data_wf s → is_inherited (camelCase j') = false →
  reads (snd (data_set uid o (KStr k) v s)) p j j' =
  if decide (p = uid ∧ j = o ∧ camelCase j' = camelCase k ∧ acceptData o s = true) then v
  else reads s p j j'.
Proof.
  intros Hw Hj. unfold data_set. destruct (cache uid o s) as [r s1] eqn:Hc. simpl.
  destruct (cache_wf uid o s r s1 Hw Hc) as (Hw1 & Hr & Hacc).
  rewrite <- (cache_reads uid o s r s1 Hw Hc p j j' Hj).
  destruct (acceptData o s) eqn:Ha.
  - rewrite (write_cache_reads r k v s1 uid o p j j' (Hacc eq_refl) Hw1).
    destruct (decide (p = uid ∧ j = o ∧ camelCase j' = camelCase k)) as [(?&?&?)|Hn];
      [by rewrite decide_True|by rewrite decide_False by naive_solver].
  - rewrite decide_False by naive_solver. unfold cache in Hc. rewrite Ha in Hc.
    assert (r = fresh s ∧ s1 = alloc_cache s) as [-> ->].
    { destruct (slot uid o s) as [| |r0] eqn:Hs; [by injection Hc as <- <-..|].
      destruct (wf_attached s Hw uid o r0 Hs). congruence. }
    unfold reads, data_get. simpl. change (slot p j (write_cache (fresh s) k v (alloc_cache s))) with (slot p j s).
    change (slot p j (alloc_cache s)) with (slot p j s).
    destruct (slot p j s) as [| |q] eqn:Hq; [done..|].
    rewrite the_cache_write, decide_False; [done|]. intros ->.
    destruct (wf_attached s Hw p j _ Hq) as [Hi _]. apply (wf_alloc s Hw) in Hi. lia.
Qed.

(** *** Removal *)
Lemma fold_delete_own l c j :
  own_prop j (fold_left (λ c k, delete_prop k c) l c) =
  if existsb (String.eqb j) l then None else own_prop j c.
Proof.
  revert c. induction l as [|k l IH]; intros c; simpl; [done|]. rewrite IH, own_delete.
  rewrite (String.eqb_sym j k). by destruct (existsb _ l), (String.eqb k j).
Qed.
Lemma existsb_rev {A} (p : A → bool) l : existsb p (rev l) = existsb p l.
Proof.
  induction l as [|a l IH]; simpl; [done|]. rewrite existsb_app, IH. simpl.
  by rewrite orb_false_r, orb_comm.
Qed.

Lemma slot_clear_slot uid o s p j :
  slot p j (clear_slot uid o s) = slot p j s ∧ (p, j) ≠ (uid, o) ∨
  p = uid ∧ j = o ∧ ∀ r, slot p j (clear_slot uid o s) ≠ SlotCache r.
Proof.
  unfold clear_slot. destruct (nodeType _) as [t|]; [destruct (Z.eqb t 0)|];
    rewrite slot_set_slot; destruct (decide _) as [[-> ->]|]; naive_solver.
Qed.
Lemma caches_clear_slot uid o s : caches (clear_slot uid o s) = caches s.
Proof. unfold clear_slot. destruct (nodeType _) as [t|]; [by destruct (Z.eqb t 0)|done]. Qed.

(** Removing keys: afterwards the owner has none of them and still has all
    its other keys; other owners and the other [Data] object are not touched; and
    when nothing is left the cache is detached, so that no empty cache stays
    attached. *)
Theorem data_remove_get uid o key s p j j' :
  data_wf s → is_inherited (camelCase j') = false →
  reads (data_remove uid o key s) p j j' =
    (if decide (p = uid ∧ j = o)
     then match key, slot uid o s with
          | RAll, _ => DUndef
          | _, SlotCache r => if existsb (String.eqb (camelCase j')) (removed_keys key (the_cache r s))
                              then DUndef else reads s p j j'
          | _, _ => DUndef
          end
     else reads s p j j') ∧
  ∀ r, slot uid o (data_remove uid o key s) = SlotCache r → the_cache r (data_remove uid o key s) ≠ [].
Proof.
  intros Hw Hj. unfold data_remove. destruct (slot uid o s) as [| |r] eqn:Hs.
  - split; [|intros r; by rewrite Hs]. unfold reads, data_get. simpl.
    destruct (decide _) as [[-> ->]|]; [rewrite Hs; by destruct key|done].
  - split; [|intros r; by rewrite Hs]. unfold reads, data_get. simpl.
    destruct (decide _) as [[-> ->]|]; [rewrite Hs; by destruct key|done].
  - set (ks := removed_keys key (the_cache r s)).
    set (c := fold_left (λ c k, delete_prop k c) (rev ks) (the_cache r s)).
    set (s1 := set_caches (<[r := c]> (caches s)) s).
    assert (∀ q, the_cache q s1 = if decide (q = r) then c else the_cache q s) as Hcache.
    { intros q. unfold the_cache, s1. simpl. destruct (decide (q = r)) as [->|];
        [by rewrite lookup_insert_eq|by rewrite lookup_insert_ne]. }
    assert (own_prop (camelCase j') c =
      if existsb (String.eqb (camelCase j')) ks then None else own_prop (camelCase j') (the_cache r s)) as Hc.
    { unfold c. by rewrite fold_delete_own, existsb_rev. }
    assert (Hkeep : reads s1 p j j' = if decide (p = uid ∧ j = o)
      then (if existsb (String.eqb (camelCase j')) ks then DUndef else reads s p j j') else reads s p j j').
    { unfold reads, data_get. simpl. change (slot p j s1) with (slot p j s).
      destruct (decide _) as [[-> ->]|Hne].
      - rewrite Hs, Hcache, decide_True by done. unfold read_prop. rewrite Hc, Hj.
        by destruct (existsb _ ks).
      - destruct (slot p j s) as [| |q] eqn:Hq; [done..|]. rewrite Hcache, decide_False; [done|].
        intros ->. apply Hne. by destruct (wf_unshared s Hw _ _ _ _ _ Hq Hs). }
    assert (Hclear : reads (clear_slot uid o s1) p j j' = if decide (p = uid ∧ j = o) then DUndef else reads s p j j').
    { unfold reads, data_get. simpl. unfold the_cache. rewrite caches_clear_slot.
      destruct (slot_clear_slot uid o s1 p j) as [[E Hne]|(-> & -> & Hn)].
      - rewrite E, (decide_False (P := p = uid ∧ j = o)) by naive_solver.
        rewrite (decide_False (P := p = uid ∧ j = o)) in Hkeep by naive_solver. exact Hkeep.
      - rewrite (decide_True (P := uid = uid ∧ o = o)) by done.
        destruct (slot uid o (clear_slot uid o s1)) eqn:E; [done..|by destruct (Hn r0)]. }
    assert (Hgone : ∀ q, slot uid o (clear_slot uid o s1) = SlotCache q → False).
    { intros q Hq. destruct (slot_clear_slot uid o s1 uid o) as [[_ E]|(_ & _ & Hn)]; [done|by apply (Hn q)]. }
    assert (c = [] → reads s1 p j j' = reads (clear_slot uid o s1) p j j') as Hempty.
    { intros E. rewrite Hclear, Hkeep. destruct (decide _) as [[-> ->]|]; [|done].
      rewrite E in Hc. destruct (existsb _ ks); [done|]. simpl in Hc.
      unfold reads, data_get. simpl. rewrite Hs. unfold read_prop. by rewrite <- Hc, Hj. }
    assert (slot uid o s1 = SlotCache r) as Hs1 by done.
    destruct key as [|l|k].
    + split; [by rewrite Hclear; destruct (decide _)|]. intros q Hq. by destruct (Hgone q).
    + destruct c as [|x c'] eqn:Ec.
      * rewrite <- Hempty by done. split; [exact Hkeep|]. intros q Hq. by destruct (Hgone q).
      * split; [exact Hkeep|]. intros q. rewrite Hs1. intros [= <-]. by rewrite Hcache, decide_True.
    + destruct c as [|x c'] eqn:Ec.
      * rewrite <- Hempty by done. split; [exact Hkeep|]. intros q Hq. by destruct (Hgone q).
      * split; [exact Hkeep|]. intros q. rewrite Hs1. intros [= <-]. by rewrite Hcache, decide_True.
Qed.

(** ** What [.data()] finds in the attributes *)
Section AttributesFacts.
Context (parseJSON : string → outcome dval) (numberString : string → string).

(** What an attribute value is converted to; text that is not JSON stays text. *)
Definition converted (a : string) : dval :=
  match getData parseJSON numberString a with Ret v => v | Throw _ => DStr a end.
Definition found (elem : nat) (n : string) (s : Store) : dval :=
  match getAttribute (attributes (the_owner elem s)) ("data-" ++ n)%string with
  | Some a => converted a
  | None => DUndef
  end.
(** A name after "data-" that the conversion of names handles. *)
Definition plain_name (n : string) : Prop :=
  str_forall (λ c, negb (is_upper c)) n = true ∧ String.prefix "-ms-" n = false ∧
  is_inherited (camelCase n) = false.

Lemma owner_fields uid o k v s p :
  nodeType (the_owner p (snd (data_set uid o k v s))) = nodeType (the_owner p s) ∧
  attributes (the_owner p (snd (data_set uid o k v s))) = attributes (the_owner p s).
Proof.
  unfold data_set. destruct (cache uid o s) as [r s1] eqn:Hc.
  assert (∀ q s, the_owner p (write_cache r q v s) = the_owner p s) as Hw by done.
  assert (nodeType (the_owner p s1) = nodeType (the_owner p s) ∧
          attributes (the_owner p s1) = attributes (the_owner p s)) as Hs1.
  { assert (s1 = s ∨ s1 = alloc_cache s ∨ ∃ x, s1 = set_slot uid o x (alloc_cache s))
      as [->|[->|(x & ->)]]; [|done|done|].
    - unfold cache in Hc. destruct (slot uid o s); injection Hc as <- <-; auto;
        destruct (acceptData o s); eauto.
    - rewrite the_owner_set_slot. by destruct (decide (p = o)) as [->|]. }
  destruct k as [k|l]; simpl; [done|].
  assert (∀ s, the_owner p (fold_left (λ s p, write_cache r (fst p) (snd p) s) l s) = the_owner p s) as ->; [|done].
  clear. induction l as [|x l IH]; intros s; simpl; [done|]. by rewrite IH.
Qed.

(** A discovery step on the key of attribute name [n]. *)
Lemma dataAttr_reads elem n m v s :
  data_wf s → plain_name n → nodeType (the_owner elem s) = Some 1%Z →
  v = reads s dataUser elem (camelCase m) →
  let s' := snd (dataAttr parseJSON numberString elem (camelCase m) v s) in
  reads s' dataUser elem n =
  if decide (camelCase m = camelCase n ∧ reads s dataUser elem n = DUndef)
  then found elem n s else reads s dataUser elem n.
Proof.
  intros Hw (Hn1 & Hn2 & Hn3) Ht Hv. unfold dataAttr.
  rewrite Ht, (bool_decide_true (Some 1%Z = Some 1%Z)), andb_true_r by done. assert (acceptData elem s = true) as Ha by (unfold acceptData; by rewrite Ht).
  assert (∀ v', reads (snd (data_set dataUser elem (KStr (camelCase m)) v' s)) dataUser elem n =
    if decide (camelCase m = camelCase n) then v' else reads s dataUser elem n) as Hset.
  { intros v'. rewrite data_set_get by done. rewrite camelCase_idem.
    destruct (decide (camelCase m = camelCase n)) as [E|E].
    - by rewrite decide_True.
    - rewrite decide_False; [done|]. intros (_ & _ & E' & _). congruence. }
  assert (camelCase m = camelCase n → v = reads s dataUser elem n) as Hvn.
  { intros E. rewrite Hv. unfold reads, data_get. simpl. by rewrite camelCase_idem, E. }
  destruct (decide (camelCase m = camelCase n ∧ reads s dataUser elem n = DUndef)) as [[E Hr]|Hne].
  - rewrite Hvn, Hr, bool_decide_true by done. unfold found.
    rewrite E, dashed_camelCase by done.
    destruct (getAttribute _ _) as [a|]; simpl; [|done]. rewrite <- E, Hset, decide_True by done. done.
  - destruct (bool_decide (v = DUndef)) eqn:Hb; [|done]. apply bool_decide_eq_true in Hb.
    destruct (getAttribute _ _) as [a|]; simpl; [|done]. rewrite Hset, decide_False; [done|].
    intros E. apply Hne. split; [done|]. by rewrite <- Hvn, Hb.
Qed.

Lemma data_set_slot uid o k v s r :
  slot uid o s = SlotCache r → slot uid o (snd (data_set uid o k v s)) = SlotCache r.
Proof.
  intros Hs. unfold data_set, cache. rewrite Hs. destruct k as [k|l]; simpl; [done|].
  assert (∀ s, slot uid o (fold_left (λ s p, write_cache r (fst p) (snd p) s) l s) = slot uid o s) as ->; [|done].
  clear. induction l as [|x l IH]; intros s; simpl; [done|]. by rewrite IH.
Qed.
Lemma dataAttr_keeps elem k v s r :
  slot dataUser elem s = SlotCache r →
  let s' := snd (dataAttr parseJSON numberString elem k v s) in
  nodeType (the_owner elem s') = nodeType (the_owner elem s) ∧
  attributes (the_owner elem s') = attributes (the_owner elem s) ∧ slot dataUser elem s' = SlotCache r.
Proof.
  intros Hs. unfold dataAttr. destruct (_ && _); [|done]. destruct (getAttribute _ _) as [a|]; [|done]. simpl.
  match goal with |- context [data_set dataUser elem ?k ?v s] =>
    destruct (owner_fields dataUser elem k v s elem) as [-> ->]; rewrite (data_set_slot dataUser elem k v s r Hs) end.
  done.
Qed.

(** Attribute [m] is one of those for the key of name [n]. *)
Definition names_key (n m : string) : bool :=
  String.prefix "data-" m && String.eqb (camelCase (str_drop 5 m)) (camelCase n).

Lemma read_attrs_reads elem r n l s :
  data_wf s → plain_name n → nodeType (the_owner elem s) = Some 1%Z → slot dataUser elem s = SlotCache r →
  let s' := fold_left (read_attr parseJSON numberString elem r) l s in
  data_wf s' ∧ reads s' dataUser elem n =
    if existsb (names_key n) l && bool_decide (reads s dataUser elem n = DUndef)
    then found elem n s else reads s dataUser elem n.
Proof.
  cbv zeta. revert s. induction l as [|m l IH]; intros s Hw Hn Ht Hs; [done|]. cbn [fold_left existsb].
  change (read_attr parseJSON numberString elem r s m) with
    (if String.prefix "data-" m
     then snd (dataAttr parseJSON numberString elem (camelCase (str_drop 5 m))
                (read_prop (camelCase (str_drop 5 m)) (the_cache r s)) s) else s).
  unfold names_key at 1. destruct (String.prefix "data-" m) eqn:Hp; [|by apply IH]. rewrite andb_true_l.
  set (key := camelCase (str_drop 5 m)). set (v := read_prop key (the_cache r s)).
  assert (v = reads s dataUser elem key) as Hv.
  { unfold reads, data_get. simpl. rewrite Hs. unfold v, key. by rewrite camelCase_idem. }
  pose proof (dataAttr_reads elem n (str_drop 5 m) v s Hw Hn Ht Hv) as Hr.
  pose proof (dataAttr_wf parseJSON numberString elem key v s Hw) as Hw1.
  destruct (dataAttr_keeps elem key v s r Hs) as (E1 & E2 & E3). fold key in Hr. cbv zeta in Hr.
  set (s1 := snd (dataAttr parseJSON numberString elem key v s)) in *.
  destruct (IH s1 Hw1 Hn (eq_trans E1 Ht) E3) as [Hw2 ->]. split; [done|].
  assert (found elem n s1 = found elem n s) as -> by (unfold found; by rewrite E2).
  rewrite Hr. destruct (String.eqb_spec key (camelCase n)) as [Ek|Ek]; simpl.
  - destruct (decide (reads s dataUser elem n = DUndef)) as [Eu|Eu].
    + rewrite decide_True, (bool_decide_true (reads s dataUser elem n = DUndef)) by done.
      by destruct (existsb _ l), (bool_decide _).
    + rewrite decide_False, (bool_decide_false (reads s dataUser elem n = DUndef)) by naive_solver.
      by rewrite andb_false_r.
  - by rewrite decide_False by naive_solver.
Qed.

Lemma getAttribute_elem l n a : getAttribute l n = Some a → n ∈ map fst l.
Proof.
  induction l as [|[m v] l IH]; simpl; [done|]. destruct (String.eqb_spec m n) as [->|]; [by left|].
  intros H. right. by apply IH.
Qed.
Lemma prefix_data_app n : String.prefix "data-" ("data-" ++ n) = true ∧ str_drop 5 ("data-" ++ n) = n.
Proof. rewrite !str_app_cons, str_app_nil_l. split; [|done]. by destruct n. Qed.

(** The first [.data()] of an element loads its [data-*] attributes: afterwards
    every name after "data-" reads as the value it had been given before, if any,
    and else as the converted value of the attribute, or undefined when the element
    has no such attribute. *)
Theorem fn_data_all_reads elem n s :
  data_wf s → plain_name n → nodeType (the_owner elem s) = Some 1%Z →
  truthy (reads s dataPriv elem "hasDataAttrs") = false →
  reads (snd (fn_data_all parseJSON numberString (Some elem) s)) dataUser elem n =
  if decide (reads s dataUser elem n = DUndef) then found elem n s else reads s dataUser elem n.
Proof.
  intros Hw Hn Ht Hf. unfold fn_data_all, data_get at 1. destruct (cache dataUser elem s) as [r s1] eqn:Hc.
  destruct (cache_wf dataUser elem s r s1 Hw Hc) as (Hw1 & _ & Hsl).
  assert (acceptData elem s = true) as Ha by (unfold acceptData; rewrite Ht; done).
  specialize (Hsl Ha). pose proof Hn as (_ & _ & Hinh).
  assert (nodeType (the_owner elem s1) = Some 1%Z ∧ attributes (the_owner elem s1) = attributes (the_owner elem s))
    as [Ht1 Hat].
  { pose proof (owner_fields dataUser elem (KProps []) DUndef s elem) as H. unfold data_set in H.
    rewrite Hc in H. simpl in H. destruct H as [-> ->]. done. }
  rewrite Ht1, (bool_decide_true (Some 1%Z = Some 1%Z)) by done. simpl.
  assert (fst (data_get dataPriv elem (Some "hasDataAttrs"%string) s1) = reads s dataPriv elem "hasDataAttrs") as Hflag
    by (by apply (cache_reads dataUser elem s r s1)).
  simpl in Hflag. rewrite Hflag, Hf. simpl.
  destruct (read_attrs_reads elem r n (rev (map fst (attributes (the_owner elem s1)))) s1 Hw1 Hn Ht1 Hsl) as [Hw2 Hr].
  rewrite data_set_get, decide_False by (done || naive_solver). rewrite Hr, existsb_rev, Hat.
  rewrite (cache_reads dataUser elem s r s1 Hw Hc) by done.
  assert (found elem n s1 = found elem n s) as -> by (unfold found; by rewrite Hat).
  destruct (decide (reads s dataUser elem n = DUndef)) as [Eu|Eu];
    [rewrite bool_decide_true, andb_true_r by done|by rewrite bool_decide_false, andb_false_r].
  unfold found. destruct (getAttribute _ _) as [a|] eqn:Hg.
  - apply getAttribute_elem in Hg. destruct (prefix_data_app n) as [Hp Hd].
    rewrite (proj2 (existsb_exists _ _)); [done|]. exists ("data-" ++ n)%string.
    split; [by apply list_elem_of_In|]. unfold names_key. by rewrite Hp, Hd, String.eqb_refl.
  - rewrite Eu. match goal with |- (if ?b then _ else _) = _ => by destruct b end.
Qed.
End AttributesFacts.

(** Every operation of the [Data] objects. *)
Inductive data_step parseJSON numberString : Store → Store → Prop :=
  | step_set uid o k v s : data_step parseJSON numberString s (snd (data_set uid o k v s))
  | step_get uid o k s : data_step parseJSON numberString s (snd (data_get uid o k s))
  | step_access uid o k v s : data_step parseJSON numberString s (snd (data_access uid o k v s))
  | step_remove uid o key s : data_step parseJSON numberString s (data_remove uid o key s)
  | step_all e s : data_step parseJSON numberString s (snd (fn_data_all parseJSON numberString e s))
  | step_fn_get e k s : data_step parseJSON numberString s (snd (fn_data_get parseJSON numberString e k s))
  | step_fn_set l k v s : data_step parseJSON numberString s (fn_data_set l k v s)
  | step_fn_remove l key s : data_step parseJSON numberString s (fn_removeData l key s).

(** Data never leaks between owners: starting from a document without data,
    after any sequence of operations every attached cache object belongs to one
    element and one of the two [Data] objects only, exists, and is attached to an
    element or object that accepts data. *)
Theorem data_reachable_wf parseJSON numberString s s' :
  (∀ uid o r, slot uid o s ≠ SlotCache r) → (∀ r, is_Some (caches s !! r) → r < fresh s) →
  rtc (data_step parseJSON numberString) s s' → data_wf s'.
Proof.
  intros Hno Hal. apply rtc_invariant; [split; [done| |]; intros; exfalso; by eapply Hno|].
  intros a b Hw Hs. destruct Hs; auto using data_set_wf, data_get_wf, data_access_wf, data_remove_wf,
    fn_data_all_wf, fn_data_get_wf, fn_data_set_wf, fn_removeData_wf.
Qed.

(** The keys every object inherits are seen as data that nobody stored, as soon as
    the owner has a cache. *)
Lemma inherited_key_read uid o k s r :
  slot uid o s = SlotCache r → own_prop (camelCase k) (the_cache r s) = None →
  is_inherited (camelCase k) = true → reads s uid o k = DBuiltin (camelCase k).
Proof. intros Hs Hn Hi. unfold reads, data_get. simpl. rewrite Hs. unfold read_prop. by rewrite Hn, Hi. Qed.

(** ** Witnesses *)
Section DataDemo.
Definition demo_json (s : string) : outcome dval := Throw (JsError "JSON").
Definition demo_number (s : string) : string := if String.eqb s "42" then "42" else "NaN".
(** An element with two attributes, and a text node. *)
Definition demo_doc : Store :=
  mkStore {[ 0 := mkOwner (Some 1%Z) [("id", "x"); ("data-max-size", "42"); ("data-note", "{broken}")]%string ∅;
             1 := mkOwner (Some 3%Z) [] ∅ ]} ∅ ∅ ∅ ∅ 0.
Lemma demo_doc_no_slot uid o r : slot uid o demo_doc ≠ SlotCache r.
Proof.
  unfold slot, the_owner, demo_doc. simpl. destruct (decide (o = 0)) as [->|H0]; [done|].
  destruct (decide (o = 1)) as [->|H1]; [done|].
  rewrite lookup_insert_ne, lookup_singleton_ne by done. done.
Qed.
Lemma demo_doc_reachable :
  rtc (data_step demo_json demo_number) demo_doc (snd (data_set dataUser 0 (KStr "max-size") (DBool true) demo_doc)).
Proof. apply rtc_once. constructor. Qed.
Lemma data_reachable_wf_witness :
  data_wf (snd (data_set dataUser 0 (KStr "max-size") (DBool true) demo_doc)).
Proof.
  apply (data_reachable_wf demo_json demo_number demo_doc).
  - exact demo_doc_no_slot.
  - intros r [x Hx]. discriminate Hx.
  - exact demo_doc_reachable.
Defined.
Lemma demo_doc_wf : data_wf demo_doc.
Proof.
  split; [intros r [x Hx]; discriminate Hx|intros uid o r H; by apply demo_doc_no_slot in H
         |intros uid o r v p H; by apply demo_doc_no_slot in H].
Qed.

Definition demo_set : Store := snd (data_set dataUser 0 (KStr "max-size") (DBool true) demo_doc).
Lemma demo_set_wf : data_wf demo_set.
Proof. apply data_set_wf, demo_doc_wf. Qed.
Lemma data_set_get_witness :
  reads demo_set dataUser 0 "maxSize" = DBool true ∧ reads demo_set dataPriv 0 "maxSize" = DUndef.
Proof.
  split.
  - exact (data_set_get dataUser 0 "max-size" (DBool true) demo_doc dataUser 0 "maxSize" demo_doc_wf eq_refl).
  - exact (data_set_get dataUser 0 "max-size" (DBool true) demo_doc dataPriv 0 "maxSize" demo_doc_wf eq_refl).
Defined.
Lemma data_remove_get_witness :
  reads (data_remove dataUser 0 (RStr "other max-size") demo_set) dataUser 0 "maxSize" = DUndef.
Proof.
  exact (proj1 (data_remove_get dataUser 0 (RStr "other max-size") demo_set dataUser 0 "maxSize"
    demo_set_wf eq_refl)).
Defined.
Lemma fn_data_all_reads_witness :
  reads (snd (fn_data_all demo_json demo_number (Some 0) demo_doc)) dataUser 0 "max-size" = DNum "42" ∧
  reads (snd (fn_data_all demo_json demo_number (Some 0) demo_doc)) dataUser 0 "note" = DStr "{broken}".
Proof.
  split.
  - refine (eq_trans (fn_data_all_reads demo_json demo_number 0 "max-size" demo_doc demo_doc_wf _ eq_refl eq_refl) eq_refl).
    repeat split.
  - refine (eq_trans (fn_data_all_reads demo_json demo_number 0 "note" demo_doc demo_doc_wf _ eq_refl eq_refl) eq_refl).
    repeat split.
Defined.
End DataDemo.
