(* ===== verification/JqQueue.v ===== *)
(** * Queues of functions on elements

    Model of [jQuery.queue], [jQuery.dequeue], [jQuery._queueHooks] and the queue
    methods of [jQuery.fn] (jquery-3.5.1.js lines 4557-4689).  A queue is an array
    kept in the private data of an element; the functions in it are arbitrary
    computations on the store, which may call the operations below through the
    [next] function they are given, or throw. *)
From Stdlib Require Import ZArith Lia Ascii String.
From stdpp Require Import base gmap strings list relations.
From S2P Require Import Prelude.
From S2P Require Import JsString.
From S2P Require Import JqData.

Section Queue.
(** [user f elem type]: what function [f] of a queue does when it is called for
    [elem] with the [next] of the queue [type]. *)
Context (user : nat → nat → string → M Store unit).

Definition inprogress : dval := DStr "inprogress".
Definition qkey (type : string) : string := (type ++ "queue")%string.
Definition hkey (type : string) : string := (type ++ "queueHooks")%string.
(** [type || "fx"] *)
Definition or_fx (type : string) : string := if String.eqb type "" then "fx"%string else type.

Definition new_array (l : list dval) (s : Store) : nat * Store :=
  (fresh s, set_fresh (S (fresh s)) (set_arrays (<[fresh s := l]> (arrays s)) s)).
Definition set_array (a : nat) (l : list dval) (s : Store) : Store :=
  set_arrays (<[a := l]> (arrays s)) s.

(** The data argument of [queue]: nothing (a lookup), an array, one entry. *)
Inductive qdata := QNone | QArr (l : list dval) | QOne (v : dval).

(** [jQuery.queue]: the array it returns. *)
Definition queue (elem : nat) (type : string) (data : qdata) (s : Store) : nat * Store :=
  let key := qkey (or_fx type) in
  let q := fst (data_get dataPriv elem (Some key) s) in
  match data, q with
  | QNone, DArr a => (a, s)
  | QNone, _ => new_array [] s
  | QOne v, DArr a => (a, set_array a (the_array a s ++ [v]) s)
  | QArr l, _ =>
      let '(a, s1) := new_array l s in
      (a, snd (data_access dataPriv elem (Some (KStr key)) (DArr a) s1))
  | QOne v, _ =>
      let '(a, s1) := new_array [v] s in
      (a, snd (data_access dataPriv elem (Some (KStr key)) (DArr a) s1))
  end.

(** [jQuery._queueHooks] *)
Definition queueHooks (elem : nat) (type : string) (s : Store) : nat * Store :=
  let key := hkey type in
  match fst (data_get dataPriv elem (Some key) s) with
  | DHooks h => (h, s)
  | _ =>
      let h := fresh s in
      let hooks := mkHooks None false [RemoveQueue elem [qkey type; key]] in
      let s1 := set_fresh (S h) (set_hooks (<[h := hooks]> (hooksOf s)) s) in
      (h, snd (data_access dataPriv elem (Some (KStr key)) (DHooks h) s1))
  end.

(** [hooks.empty.fire()]: a "once memory" list. *)
Definition the_hooks (h : nat) (s : Store) : Hooks := default (mkHooks None true []) (hooksOf s !! h).
Definition the_promise (p : nat) (s : Store) : Promise := default (mkPromise 0 false) (promises s !! p).
Definition resolve (p : nat) (s : Store) : Store :=
  let c := (count (the_promise p s) - 1)%Z in
  set_promises (<[p := mkPromise c (resolved (the_promise p s) || Z.eqb c 0)]> (promises s)) s.
Definition run_empty (s : Store) (cb : emptyCb) : Store :=
  match cb with
  | RemoveQueue elem keys => data_remove dataPriv elem (RKeys keys) s
  | ResolvePromise p => resolve p s
  end.
Definition fire_empty (h : nat) (s : Store) : Store :=
  let hk := the_hooks h s in
  if empty_fired hk then s
  else fold_left run_empty (empty_list hk)
         (set_hooks (<[h := mkHooks (stop hk) true []]> (hooksOf s)) s).
Definition add_empty (h : nat) (cb : emptyCb) (s : Store) : Store :=
  let hk := the_hooks h s in
  if empty_fired hk then run_empty s cb
  else set_hooks (<[h := mkHooks (stop hk) false (empty_list hk ++ [cb])]> (hooksOf s)) s.
Definition delete_stop (h : nat) (s : Store) : Store :=
  let hk := the_hooks h s in
  set_hooks (<[h := mkHooks None (empty_fired hk) (empty_list hk)]> (hooksOf s)) s.

(** [queue.shift()] *)
Definition shift (a : nat) (s : Store) : dval * Store :=
  match the_array a s with
  | [] => (DUndef, s)
  | v :: l => (v, set_array a l s)
  end.

Definition dequeue (elem : nat) (type0 : string) : M Store unit := λ s,
  let type := or_fx type0 in
  let '(a, s1) := queue elem type QNone s in
  let startLength := length (the_array a s1) in
  let '(fn, s2) := shift a s1 in
  let '(h, s3) := queueHooks elem type s2 in
  let '(fn, startLength, s4) :=
    if bool_decide (fn = inprogress)
    then let '(fn', s') := shift a s3 in (fn', startLength - 1, s')
    else (fn, startLength, s3) in
  ((if truthy fn then
     modify (λ s, delete_stop h
       (if String.eqb type "fx" then set_array a (inprogress :: the_array a s) s else s));;
     match fn with
     | DFn f => user f elem type
     | _ => raise (JsError "fn.call is not a function")
     end
   else mret tt);;
  when (Nat.eqb startLength 0) (modify (fire_empty h))) s4.

(** The methods on a set of elements. *)
Fixpoint for_each (f : nat → M Store unit) (elems : list nat) : M Store unit :=
  match elems with [] => mret tt | e :: l => f e;; for_each f l end.
Definition fn_queue (elems : list nat) (type : string) (data : qdata) : M Store unit :=
  match data with QNone => mret tt | _ => for_each (λ e s,
    let '(a, s1) := queue e type data s in
    let '(_, s2) := queueHooks e type s1 in
    if String.eqb type "fx" && negb (bool_decide (head (the_array a s2) = Some inprogress))
    then dequeue e type s2 else (Ret tt, s2)) elems
  end.
Definition fn_dequeue (elems : list nat) (type : string) : M Store unit :=
  for_each (λ e, dequeue e type) elems.
Definition clearQueue (elems : list nat) (type : string) : M Store unit :=
  fn_queue elems (or_fx type) (QArr []).

(** [promise]: resolved when the queues that exist now have become empty. *)
Definition fn_promise (elems : list nat) (type : string) (s : Store) : nat * Store :=
  let p := fresh s in
  let s1 := set_fresh (S p) (set_promises (<[p := mkPromise 1 false]> (promises s)) s) in
  let one s e :=
    match fst (data_get dataPriv e (Some (hkey (or_fx type))) s) with
    | DHooks h =>
        add_empty h (ResolvePromise p)
          (set_promises (<[p := mkPromise (count (the_promise p s) + 1) (resolved (the_promise p s))]>
             (promises s)) s)
    | _ => s
    end in
  (p, resolve p (fold_left one (rev elems) s1)).
End Queue.

(** ** Facts *)
Lemma camelCase_app x y :
  not_lower_head y → 4 <= str_length x → camelCase (x ++ y) = (camelCase x ++ dash_alpha y)%string.
Proof.
  intros Hy Hx. assert (∀ x, dash_alpha (x ++ y) = (dash_alpha x ++ dash_alpha y)%string) as Happ.
  { intros z. pattern z. apply dash_ind; [done| |].
    - intros c t Hc IH. rewrite !str_app_cons. simpl. rewrite Hc, IH. by rewrite str_app_cons.
    - intros a t Ha IH. rewrite str_app_cons, dash_alpha_other.
      + rewrite (dash_alpha_other a t Ha), IH. by rewrite str_app_cons.
      + intros E. specialize (Ha E). by destruct t. }
  unfold camelCase, ms_prefix.
  assert (String.prefix "-ms-" (x ++ y) = String.prefix "-ms-" x ∧ str_drop 4 (x ++ y) = (str_drop 4 x ++ y)%string)
    as [-> ->].
  { do 4 (destruct x as [|? x]; [simpl in Hx; lia|]). rewrite !str_app_cons. split; [|done].
    cbn [String.prefix]. repeat case_match; try done; by destruct x, y. }
  destruct (String.prefix "-ms-" x); rewrite <- ?str_app_assoc; apply Happ.
Qed.
Lemma keys_differ type : camelCase (qkey type) ≠ camelCase (hkey type).
Proof.
  unfold hkey. replace (type ++ "queueHooks")%string with (qkey type ++ "Hooks")%string
    by (unfold qkey; by rewrite str_app_assoc).
  rewrite camelCase_app; [|done|unfold qkey; rewrite str_app_length; simpl; lia].
  intros E. apply (f_equal str_length) in E. rewrite str_app_length in E. simpl in E. lia.
Qed.

(** Values of another kind than caches do not matter for what is read. *)
Lemma reads_frame s s' uid o k :
  owners s' = owners s → caches s' = caches s → reads s' uid o k = reads s uid o k.
Proof. intros E1 E2. unfold reads, data_get, slot, the_owner, the_cache. simpl. by rewrite E1, E2. Qed.
Lemma wf_frame s s' :
  owners s' = owners s → caches s' = caches s → fresh s <= fresh s' → data_wf s → data_wf s'.
Proof.
  intros E1 E2 E3 [H1 H2 H3]. unfold slot, acceptData, the_owner in *.
  split; unfold slot, acceptData, the_owner; rewrite ?E1, ?E2; [|done..].
  intros r Hr. apply H1 in Hr. lia.
Qed.

Lemma set_slot_rest uid o x s :
  arrays (set_slot uid o x s) = arrays s ∧ hooksOf (set_slot uid o x s) = hooksOf s ∧
  promises (set_slot uid o x s) = promises s ∧ fresh (set_slot uid o x s) = fresh s.
Proof. done. Qed.
Lemma data_set_rest uid o k v s :
  let s' := snd (data_set uid o (KStr k) v s) in
  arrays s' = arrays s ∧ hooksOf s' = hooksOf s ∧ promises s' = promises s.
Proof.
  unfold data_set, cache. destruct (slot uid o s); simpl; [| |done]; by destruct (acceptData o s).
Qed.
Lemma access_set uid o k v s :
  v ≠ DUndef → snd (data_access uid o (Some (KStr k)) v s) = snd (data_set uid o (KStr k) v s).
Proof.
  intros Hv. unfold data_access. rewrite bool_decide_false by done. rewrite andb_false_r.
  by destruct (data_set uid o (KStr k) v s).
Qed.
Lemma accept_frame s s' o : owners s' = owners s → acceptData o s' = acceptData o s.
Proof. intros E. unfold acceptData, the_owner. by rewrite E. Qed.

Section QueueFacts.
Context (user : nat → nat → string → M Store unit) (elem : nat) (type : string).
Context (Htype : type ≠ ""%string).
Context (Hq : is_inherited (camelCase (qkey type)) = false).
Context (Hh : is_inherited (camelCase (hkey type)) = false).

Lemma or_fx_type : or_fx type = type.
Proof. unfold or_fx. by destruct (String.eqb_spec type ""). Qed.

(** The hook object is found or made; nothing else of interest changes. *)
Lemma queueHooks_spec s h s' :
  data_wf s → acceptData elem s = true → queueHooks elem type s = (h, s') →
  data_wf s' ∧ acceptData elem s' = true ∧ reads s' dataPriv elem (hkey type) = DHooks h ∧
  reads s' dataPriv elem (qkey type) = reads s dataPriv elem (qkey type) ∧ arrays s' = arrays s ∧
  promises s' = promises s ∧
  (reads s dataPriv elem (hkey type) = DHooks h → s' = s).
Proof.
  intros Hw Ha H. unfold queueHooks in H. change (fst (data_get dataPriv elem (Some (hkey type)) s))
    with (reads s dataPriv elem (hkey type)) in H.
  set (s1 := set_fresh _ _) in H.
  assert ((∀ h', reads s dataPriv elem (hkey type) ≠ DHooks h') →
    (fresh s, snd (data_access dataPriv elem (Some (KStr (hkey type))) (DHooks (fresh s)) s1)) = (h, s') →
    data_wf s' ∧ acceptData elem s' = true ∧ reads s' dataPriv elem (hkey type) = DHooks h ∧
    reads s' dataPriv elem (qkey type) = reads s dataPriv elem (qkey type) ∧ arrays s' = arrays s ∧
    promises s' = promises s ∧ (reads s dataPriv elem (hkey type) = DHooks h → s' = s)) as Hnew.
  { intros Hno Heq. apply pair_eq in Heq as [<- <-]. rewrite access_set by done.
    assert (data_wf s1) as Hw1 by (apply (wf_frame s); [done|done|simpl; lia|done]).
    destruct (data_set_rest dataPriv elem (hkey type) (DHooks (fresh s)) s1) as (E1 & E2 & E3).
    split; [by apply data_set_wf|]. split.
    { destruct (owner_fields dataPriv elem (KStr (hkey type)) (DHooks (fresh s)) s1 elem) as [E _].
      unfold acceptData in *. by rewrite E. }
    split; [rewrite data_set_get by done; by rewrite decide_True|].
    split; [rewrite data_set_get by done; rewrite decide_False; [by apply reads_frame|]|].
    { intros (_ & _ & E & _). by apply keys_differ in E. }
    split; [done|]. split; [done|]. intros E. by destruct (Hno (fresh s)). }
  destruct (reads s dataPriv elem (hkey type)) eqn:E; try (by apply Hnew).
  injection H as <- <-. auto 10.
Qed.

(** Dequeuing runs the queue in order: when the first entry (behind the
    progress sentinel of the animation queue) is a function, exactly that function
    is called, on a store in which the queue holds the entries behind it, behind a
    sentinel again for the animation queue, and its outcome, a result or an
    exception, is the outcome. *)
Theorem dequeue_runs_head s a f rest :
  data_wf s → acceptData elem s = true →
  reads s dataPriv elem (qkey type) = DArr a →
  the_array a s = DFn f :: rest ∨ the_array a s = inprogress :: DFn f :: rest →
  ∃ s', dequeue user elem type s = user f elem type s' ∧
    reads s' dataPriv elem (qkey type) = DArr a ∧
    the_array a s' = (if String.eqb type "fx" then [inprogress] else []) ++ rest.
Proof.

  intros Hw Ha Hr Hl. unfold dequeue, queue. rewrite !or_fx_type.
  change (fst (data_get dataPriv elem (Some (qkey type)) s)) with (reads s dataPriv elem (qkey type)).
  rewrite Hr.
  assert (∃ v l, the_array a s = v :: l ∧ shift a s = (v, set_array a l s)) as (v & l & Hv & Hs).
  { unfold shift. destruct Hl as [-> | ->]; eauto. }
  rewrite Hs. destruct (queueHooks elem type (set_array a l s)) as [h s3] eqn:Hh3.
  destruct (queueHooks_spec (set_array a l s) h s3) as (_ & _ & _ & Hq3 & Ha3 & _); [|done|done|].
  { by apply (wf_frame s). }
  assert (the_array a s3 = l) as Hl3.
  { unfold the_array. rewrite Ha3. simpl. by rewrite lookup_insert_eq. }
  assert (reads s3 dataPriv elem (qkey type) = DArr a) as Hr3.
  { rewrite Hq3, <- Hr. by apply reads_frame. }
  assert (∀ n s4, Nat.eqb n 0 = false → the_array a s4 = rest → reads s4 dataPriv elem (qkey type) = DArr a →
    ∃ s', ((if truthy (DFn f) then modify (λ s, delete_stop h
       (if String.eqb type "fx" then set_array a (inprogress :: the_array a s) s else s));; user f elem type
       else mret tt);; when (Nat.eqb n 0) (modify (fire_empty h))) s4 = user f elem type s' ∧
      reads s' dataPriv elem (qkey type) = DArr a ∧
      the_array a s' = (if String.eqb type "fx" then [inprogress] else []) ++ rest) as Hcall.
  { intros n s4 -> Hl4 Hr4.
    exists (delete_stop h (if String.eqb type "fx" then set_array a (inprogress :: the_array a s4) s4 else s4)).
    split; [|split].
    - mstep. simpl. by destruct (user f elem type _) as [[[]|] ?].
    - destruct (String.eqb type "fx"); by rewrite <- Hr4; apply reads_frame.
    - destruct (String.eqb type "fx"); [|exact Hl4].
      unfold the_array at 1. simpl. by rewrite lookup_insert_eq, Hl4. }
  destruct Hl as [E|E]; rewrite E in Hv; injection Hv as <- <-.
  - rewrite bool_decide_false by done. apply Hcall; [by rewrite E|done..].
  - rewrite bool_decide_true by done. unfold shift. rewrite Hl3.
    apply Hcall; [by rewrite E| |by rewrite <- Hr3; apply reads_frame].
    unfold the_array. simpl. by rewrite lookup_insert_eq.
Qed.

(** *** Emptying *)

Lemma the_promise_resolve p q s :
  the_promise q (resolve p s) =
  if decide (q = p)
  then mkPromise (count (the_promise p s) - 1)
         (resolved (the_promise p s) || Z.eqb (count (the_promise p s) - 1) 0)
  else the_promise q s.
Proof.
  unfold the_promise at 1, resolve. simpl. destruct (decide (q = p)) as [->|];
    [by rewrite lookup_insert_eq|by rewrite lookup_insert_ne].
Qed.
Lemma fold_resolve ps s :
  NoDup ps →
  let s' := fold_left run_empty (map ResolvePromise ps) s in
  owners s' = owners s ∧ caches s' = caches s ∧
  ∀ p, the_promise p s' = if decide (p ∈ ps)
    then mkPromise (count (the_promise p s) - 1)
           (resolved (the_promise p s) || Z.eqb (count (the_promise p s) - 1) 0)
    else the_promise p s.
Proof.
  intros Hnd. revert s. induction Hnd as [|q ps Hqn Hnd IH]; intros s; [done|]. simpl.
  destruct (IH (resolve q s)) as (E1 & E2 & E3). split; [done|]. split; [done|].
  intros p. rewrite E3, the_promise_resolve. destruct (decide (p = q)) as [->|Hne].
  - rewrite decide_False, decide_True by (done || by left). done.
  - destruct (decide (p ∈ ps)); [rewrite decide_True by (by right); done|].
    rewrite decide_False; [done|]. rewrite elem_of_cons. naive_solver.
Qed.

Lemma remove_keys_reads s :
  data_wf s →
  let s' := data_remove dataPriv elem (RKeys [qkey type; hkey type]) s in
  reads s' dataPriv elem (qkey type) = DUndef ∧ reads s' dataPriv elem (hkey type) = DUndef ∧
  promises s' = promises s.
Proof.
  intros Hw s'. split; [|split].
  - unfold s'. rewrite (proj1 (data_remove_get dataPriv elem _ s dataPriv elem (qkey type) Hw Hq)).
    rewrite decide_True by done. destruct (slot dataPriv elem s); [done..|]. simpl.
    by rewrite String.eqb_refl.
  - unfold s'. rewrite (proj1 (data_remove_get dataPriv elem _ s dataPriv elem (hkey type) Hw Hh)).
    rewrite decide_True by done. destruct (slot dataPriv elem s); [done..|]. simpl.
    by rewrite String.eqb_refl, orb_true_r.
  - unfold s', data_remove. destruct (slot dataPriv elem s); [done..|].
    case_match; [|done]. unfold clear_slot. destruct (nodeType _) as [t|]; [by destruct (Z.eqb t 0)|done].
Qed.

(** Dequeuing an empty queue (one that does not exist, is empty, or holds only
    the progress sentinel) calls no function: it fires the [empty] hook, which
    removes the queue and the hook from the element and counts down exactly the
    promises waiting for this queue, resolving those it was the last one for. *)
Theorem dequeue_empty s h st ps :
  data_wf s → acceptData elem s = true →
  reads s dataPriv elem (qkey type) = DUndef ∨
    (∃ a, reads s dataPriv elem (qkey type) = DArr a ∧ (the_array a s = [] ∨ the_array a s = [inprogress])) →
  reads s dataPriv elem (hkey type) = DHooks h →
  the_hooks h s = mkHooks st false (RemoveQueue elem [qkey type; hkey type] :: map ResolvePromise ps) →
  NoDup ps →
  ∃ s', dequeue user elem type s = (Ret tt, s') ∧
    reads s' dataPriv elem (qkey type) = DUndef ∧ reads s' dataPriv elem (hkey type) = DUndef ∧
    ∀ p, the_promise p s' = if decide (p ∈ ps)
      then mkPromise (count (the_promise p s) - 1)
             (resolved (the_promise p s) || Z.eqb (count (the_promise p s) - 1) 0)
      else the_promise p s.
Proof.
  intros Hw Ha Hqueue Hhooks Hst Hps.
  assert (∀ s0, owners s0 = owners s → caches s0 = caches s → hooksOf s0 = hooksOf s → promises s0 = promises s →
    fresh s <= fresh s0 → ∃ s', fire_empty h s0 = s' ∧
      reads s' dataPriv elem (qkey type) = DUndef ∧ reads s' dataPriv elem (hkey type) = DUndef ∧
      ∀ p, the_promise p s' = if decide (p ∈ ps)
        then mkPromise (count (the_promise p s) - 1)
               (resolved (the_promise p s) || Z.eqb (count (the_promise p s) - 1) 0)
        else the_promise p s) as Hfire.
  { intros s0 E1 E2 E3 E4 E5. eexists. split; [reflexivity|]. unfold fire_empty.
    assert (the_hooks h s0 = the_hooks h s) as -> by (unfold the_hooks; by rewrite E3).
    rewrite Hst. cbn [empty_fired empty_list fold_left stop].
    set (s1 := set_hooks _ s0).
    assert (data_wf s1) as Hw1 by (by apply (wf_frame s)).
    destruct (remove_keys_reads s1 Hw1) as (R1 & R2 & R3). cbv zeta in R1, R2, R3.
    change (run_empty s1 (RemoveQueue elem [qkey type; hkey type]))
      with (data_remove dataPriv elem (RKeys [qkey type; hkey type]) s1).
    set (s2 := data_remove _ _ _ _) in *.
    destruct (fold_resolve ps s2 Hps) as (F1 & F2 & F3).
    assert (∀ p, the_promise p s2 = the_promise p s) as Hp.
    { intros p. unfold the_promise. rewrite R3. unfold s1. simpl. by rewrite E4. }
    split; [|split].
    - rewrite <- R1. by apply reads_frame.
    - rewrite <- R2. by apply reads_frame.
    - intros p. by rewrite F3, !Hp. }
  unfold dequeue, queue. rewrite !or_fx_type.
  change (fst (data_get dataPriv elem (Some (qkey type)) s)) with (reads s dataPriv elem (qkey type)).
  assert (∀ s0, owners s0 = owners s → caches s0 = caches s → queueHooks elem type s0 = (h, s0)) as Hhk.
  { intros s0 E1 E2. unfold queueHooks.
    change (fst (data_get dataPriv elem (Some (hkey type)) s0)) with (reads s0 dataPriv elem (hkey type)).
    rewrite (reads_frame s s0) by done. by rewrite Hhooks. }
  destruct Hqueue as [E|(a & E & [El|El])]; rewrite E.
  - unfold new_array, shift. set (s1 := set_fresh _ _).
    assert (the_array (fresh s) s1 = []) as -> by (unfold the_array; simpl; by rewrite lookup_insert_eq).
    rewrite (Hhk s1) by done. rewrite bool_decide_false by done.
    destruct (Hfire s1) as (s' & <- & H); [done..|simpl; lia|]. eexists. split; [reflexivity|exact H].
  - unfold shift. rewrite El, (Hhk s) by done. rewrite bool_decide_false by done.
    destruct (Hfire s) as (s' & <- & H); [done..|]. eexists. split; [reflexivity|exact H].
  - unfold shift at 1. rewrite El. rewrite (Hhk (set_array a [] s)) by done.
    rewrite bool_decide_true by done. unfold shift.
    assert (the_array a (set_array a [] s) = []) as -> by (unfold the_array; simpl; by rewrite lookup_insert_eq).
    destruct (Hfire (set_array a [] s)) as (s' & <- & H); [done..|]. eexists. split; [reflexivity|exact H].
Qed.
(** *** Draining *)
(** The queue of the element holds [l], and the promises [ps] wait for it alone. *)
Definition queue_state (a : nat) (l : list dval) (h : nat) (ps : list nat) (s : Store) : Prop :=
  data_wf s ∧ acceptData elem s = true ∧ reads s dataPriv elem (qkey type) = DArr a ∧ the_array a s = l ∧
  reads s dataPriv elem (hkey type) = DHooks h ∧
  (∃ st, the_hooks h s = mkHooks st false (RemoveQueue elem [qkey type; hkey type] :: map ResolvePromise ps)) ∧
  ∀ p, p ∈ ps → the_promise p s = mkPromise 1 false.
Lemma queue_state_frame a l l' h ps s s' :
  queue_state a l h ps s → owners s' = owners s → caches s' = caches s → fresh s' = fresh s → promises s' = promises s →
  the_array a s' = l' →
  (∃ st, the_hooks h s' = mkHooks st (empty_fired (the_hooks h s)) (empty_list (the_hooks h s))) → queue_state a l' h ps s'.
Proof.
  intros (Hw & Ha & Hr & _ & Hrh & (st & Hst) & Hp) E1 E2 E3 E4 El (st' & Hk). split; [by apply (wf_frame s); [..|lia|]|].
  split; [by rewrite (accept_frame s)|]. split; [by rewrite (reads_frame s)|]. split; [done|].
  split; [by rewrite (reads_frame s)|]. split; [exists st'; by rewrite Hk, Hst|]. intros p Hin. unfold the_promise.
  rewrite E4. by apply Hp.
Qed.
Lemma dequeue_serves a f rest h ps s :
  queue_state a (DFn f :: rest) h ps s ∨ queue_state a (inprogress :: DFn f :: rest) h ps s →
  ∃ s', dequeue user elem type s = user f elem type s' ∧
    queue_state a ((if String.eqb type "fx" then [inprogress] else []) ++ rest) h ps s'.
Proof.
  intros H. assert (∃ v l, queue_state a (v :: l) h ps s ∧ (v = DFn f ∧ l = rest ∨ v = inprogress ∧ l = DFn f :: rest)) as (v & l & Hq' & Hv).
  { destruct H; eauto 10. }
  clear H. pose proof Hq' as (Hw & Ha & Hr & Hl & Hrh & Hst & Hp).
  unfold dequeue, queue. rewrite !or_fx_type.
  change (fst (data_get dataPriv elem (Some (qkey type)) s)) with (reads s dataPriv elem (qkey type)). rewrite Hr.
  unfold shift at 1. rewrite Hl. cbv beta iota zeta.
  assert (Hhk : ∀ k, queueHooks elem type (set_array a k s) = (h, set_array a k s)).
  { intros k. unfold queueHooks. change (fst (data_get dataPriv elem (Some (hkey type)) (set_array a k s)))
      with (reads (set_array a k s) dataPriv elem (hkey type)). rewrite (reads_frame s) by done. by rewrite Hrh. }
  rewrite Hhk.
  assert (Hset : ∀ k k', the_array a (set_array a k (set_array a k' s)) = k)
    by (intros; unfold the_array; simpl; by rewrite lookup_insert_eq).
  assert (Hset1 : ∀ k, the_array a (set_array a k s) = k) by (intros; unfold the_array; simpl; by rewrite lookup_insert_eq).
  assert (Hend : ∀ n s4, Nat.eqb n 0 = false → queue_state a rest h ps s4 →
    ∃ s', ((if truthy (DFn f) then modify (λ s, delete_stop h
       (if String.eqb type "fx" then set_array a (inprogress :: the_array a s) s else s));; user f elem type
       else mret tt);; when (Nat.eqb n 0) (modify (fire_empty h))) s4 = user f elem type s' ∧
      queue_state a ((if String.eqb type "fx" then [inprogress] else []) ++ rest) h ps s').
  { intros n s4 -> H4. exists (delete_stop h (if String.eqb type "fx" then set_array a (inprogress :: the_array a s4) s4 else s4)).
    split; [mstep; simpl; by destruct (user f elem type _) as [[[]|] ?]|].
    pose proof H4 as (_ & _ & _ & Hl4 & _). apply (queue_state_frame a rest _ h ps s4); [done|by destruct (String.eqb type "fx")..| |].
    - destruct (String.eqb type "fx"); [|exact Hl4]. unfold the_array at 1. simpl. by rewrite lookup_insert_eq, Hl4.
    - exists None. unfold delete_stop, the_hooks. destruct (String.eqb type "fx"); simpl; by rewrite lookup_insert_eq. }
  destruct Hv as [[-> ->]|[-> ->]].
  - rewrite bool_decide_false by done. apply Hend; [done|].
    apply (queue_state_frame a (DFn f :: rest) _ h ps s); try done;
      first [apply Hset1|apply Hset|exists (stop (the_hooks h s)); unfold the_hooks; simpl; by destruct (default _ _)].
  - rewrite bool_decide_true by done. unfold shift. rewrite Hset1. apply Hend; [done|].
    apply (queue_state_frame a (inprogress :: DFn f :: rest) _ h ps s); try done;
      first [apply Hset1|apply Hset|exists (stop (the_hooks h s)); unfold the_hooks; simpl; by destruct (default _ _)].
Qed.
(** [served s fs s']: one call of dequeue after another runs the functions [fs]. *)
Inductive served : Store → list nat → Store → Prop :=
  | served_all s : served s [] s
  | served_next s f s1 s2 fs s3 :
      dequeue user elem type s = user f elem type s1 → user f elem type s1 = (Ret tt, s2) → served s2 fs s3 → served s (f :: fs) s3.
Lemma drain a fs h ps s :
  NoDup ps →
  (∀ f l s, f ∈ fs → queue_state a l h ps s → ∃ s', user f elem type s = (Ret tt, s') ∧ queue_state a l h ps s') →
  queue_state a (map DFn fs) h ps s ∨ queue_state a (inprogress :: map DFn fs) h ps s →
  ∃ s1 s2, served s fs s1 ∧ dequeue user elem type s1 = (Ret tt, s2) ∧
    reads s2 dataPriv elem (qkey type) = DUndef ∧ ∀ p, p ∈ ps → the_promise p s2 = mkPromise 0 true.
Proof.
  intros Hnd. revert s. induction fs as [|f fs IH]; intros s Hf Hs.
  - assert (∃ l, queue_state a l h ps s ∧ (l = [] ∨ l = [inprogress])) as (l & (Hw & Ha & Hr & Hl & Hrh & (st & Hst) & Hp) & Hcase)
      by (destruct Hs; eauto).
    destruct (dequeue_empty s h st ps) as (s2 & Hd & R1 & _ & R2); try done.
    { right. exists a. split; [done|]. by rewrite Hl. }
    exists s, s2. split; [constructor|]. split; [done|]. split; [done|]. intros p Hin. rewrite R2, decide_True by done. by rewrite Hp.
  - destruct (dequeue_serves a f (map DFn fs) h ps s) as (s1 & Hd & H1); [done|].
    destruct (Hf f _ s1 ltac:(left) H1) as (s2 & Hu & H2).
    destruct (IH s2) as (s3 & s4 & Hserved & Hrest).
    + intros g l s0 Hg. apply Hf. by right.
    + destruct (String.eqb type "fx"); [by right|by left].
    + exists s3, s4. split; [by econstructor|done].
Qed.
(** C16. A queue is served to its end: when the functions of a queue return and leave the queue
    and the promises that wait for it as they are, one call of dequeue after another runs
    each of them once, in the order of the queue, and the next call finds it empty: it
    removes the queue from the element and resolves every promise that waited for it alone. *)
Theorem queue_drains a fs h ps s :
  NoDup ps →
  (∀ f l s, f ∈ fs → queue_state a l h ps s → ∃ s', user f elem type s = (Ret tt, s') ∧ queue_state a l h ps s') →
  queue_state a (map DFn fs) h ps s ∨ queue_state a (inprogress :: map DFn fs) h ps s →
  ∃ s1 s2, served s fs s1 ∧ dequeue user elem type s1 = (Ret tt, s2) ∧
    reads s2 dataPriv elem (qkey type) = DUndef ∧ ∀ p, p ∈ ps → the_promise p s2 = mkPromise 0 true.
Proof. apply drain. Qed.
End QueueFacts.

(** ** Witnesses *)
Section QueueDemo.
(** Function 1 takes itself for done at once: it calls [next]; others throw. *)
Definition demo_fns (f elem : nat) (type : string) : M Store unit :=
  if Nat.eqb f 1 then mret tt else raise (JsError "boom").
Definition demo_queued : Store :=
  snd (queueHooks 0 "fx" (snd (queue 0 "fx" (QArr [inprogress; DFn 1; DFn 2]) demo_doc))).
Lemma demo_queued_wf : data_wf demo_queued.
Proof.
  unfold demo_queued. destruct (queueHooks 0 "fx" _) as [h s'] eqn:E.
  eapply (queueHooks_spec 0 "fx" eq_refl eq_refl) in E as [H _]; [exact H| |reflexivity].
  change (data_wf (snd (data_access dataPriv 0 (Some (KStr "fxqueue")) (DArr 0)
    (snd (new_array [inprogress; DFn 1; DFn 2] demo_doc))))).
  rewrite access_set by done. apply data_set_wf, (wf_frame demo_doc); [done|done|simpl; lia|exact demo_doc_wf].
Qed.
Lemma dequeue_runs_head_witness :
  ∃ s', dequeue demo_fns 0 "fx" demo_queued = demo_fns 1 0 "fx" s' ∧
    reads s' dataPriv 0 "fxqueue" = DArr 0 ∧ the_array 0 s' = [inprogress; DFn 2].
Proof.
  exact (dequeue_runs_head demo_fns 0 "fx" ltac:(discriminate) eq_refl eq_refl demo_queued 0 1 [DFn 2]
    demo_queued_wf eq_refl eq_refl (or_intror eq_refl)).
Defined.
Definition demo_waiting : Store := snd (fn_promise [0] "fx" (set_array 0 [inprogress] demo_queued)).
Lemma demo_waiting_wf : data_wf demo_waiting.
Proof. apply (wf_frame demo_queued); [done|done|vm_compute; lia|exact demo_queued_wf]. Qed.
Lemma dequeue_empty_witness :
  ∃ s', dequeue demo_fns 0 "fx" demo_waiting = (Ret tt, s') ∧ reads s' dataPriv 0 "fxqueue" = DUndef ∧
    the_promise 3 s' = mkPromise 0 true.
Proof.
  destruct (dequeue_empty demo_fns 0 "fx" ltac:(discriminate) eq_refl eq_refl demo_waiting 2 None [3]
    demo_waiting_wf eq_refl (or_intror (ex_intro _ 0 (conj eq_refl (or_intror eq_refl)))) eq_refl eq_refl
    ltac:(repeat constructor; set_solver)) as (s' & H1 & H2 & _ & H3).
  exists s'. split; [exact H1|]. split; [exact H2|]. rewrite H3. reflexivity.
Defined.
(** A function that returns at once, twice behind the sentinel, and a promise. *)
Definition demo_twice : Store :=
  snd (fn_promise [0] "fx" (set_array 0 [inprogress; DFn 1; DFn 1] demo_queued)).
Lemma queue_drains_witness :
  ∃ s1 s2, served demo_fns 0 "fx" demo_twice [1; 1] s1 ∧ dequeue demo_fns 0 "fx" s1 = (Ret tt, s2) ∧
    reads s2 dataPriv 0 (qkey "fx") = DUndef ∧ ∀ p, p ∈ [3] → the_promise p s2 = mkPromise 0 true.
Proof.
  apply (queue_drains demo_fns 0 "fx" ltac:(discriminate) eq_refl eq_refl 0 [1; 1] 2 [3] demo_twice).
  - repeat constructor. set_solver.
  - intros f l s Hf Hs. exists s. split; [|exact Hs].
    apply elem_of_cons in Hf as [->|[->|[]%not_elem_of_nil]%elem_of_cons]; reflexivity.
  - right. split; [apply (wf_frame demo_queued); [reflexivity|reflexivity|vm_compute; lia|exact demo_queued_wf]|].
    split; [reflexivity|]. split; [reflexivity|]. split; [reflexivity|]. split; [reflexivity|].
    split; [exists None; reflexivity|]. intros p [->|[]%not_elem_of_nil]%elem_of_cons. reflexivity.
Defined.
End QueueDemo.
