(* ===== verification/JqParam.v ===== *)
(** * Query strings and form data

    Model of [buildParams], [jQuery.param], [jQuery.fn.serializeArray] and
    [jQuery.fn.serialize] (jquery-3.5.1.js lines 8879-8999), with
    [encodeURIComponent] on ASCII text, and the decoding of query strings a server
    does as the specification they are checked against. *)
From Stdlib Require Import ZArith Lia Ascii String.
From stdpp Require Import base strings list.
From S2P Require Import Prelude.
From S2P Require Import JsString.

(** Values given to [param]: [PText] is a primitive by the string it converts to
    (strings are their UTF-8 bytes), [PFun] a function by its source text and what it
    returns; null and undefined are [PNull]. *)
Inductive pval :=
  | PNull
  | PText (s : string)
  | PFun (text : string) (result : option string)
  | PArray (l : list pval)
  | PObject (l : list (string * pval)).

(** ** [encodeURIComponent] *)
Definition is_unreserved (c : ascii) : bool :=
  is_upper c || is_lower c || is_digit c ||
  existsb (Ascii.eqb c) (list_ascii_of_string "-_.!~*'()").
Definition hex_digit (n : nat) : ascii := chr (if n <? 10 then 48 + n else 55 + n).
Definition encode_char (c : ascii) : string :=
  if is_unreserved c then String c "" else
  String "%" (String (hex_digit (code c / 16)) (String (hex_digit (code c mod 16)) "")).
Definition encodeURIComponent (s : string) : string := str_flat encode_char s.

(** ** [buildParams] *)
(** [rbracket] *)
Definition rbracket (prefix : string) : bool :=
  match lastIndexOf prefix "[" (str_length prefix) with
  | Some i => (S (S i) =? str_length prefix) && String.eqb (str_drop i prefix) "[]"
  | None => false
  end.
Fixpoint decimal (fuel n : nat) : string :=
  match fuel with
  | 0 => ""
  | S f => (if n <? 10 then "" else decimal f (n / 10)) ++ String (chr (48 + n mod 10)) ""
  end.
(** The string form of an index. *)
Definition indexString (n : nat) : string := decimal (S n) n.
Definition is_object (v : pval) : bool := match v with PArray _ | PObject _ => true | _ => false end.

(** [buildParams]: the calls of [add] it makes, in order. *)
Fixpoint buildParams (traditional : bool) (prefix : string) (obj : pval) {struct obj} : list (string * pval) :=
  match obj with
  | PArray l =>
      (fix items (i : nat) (l : list pval) : list (string * pval) :=
         match l with
         | [] => []
         | v :: l' =>
             (if traditional || rbracket prefix then [(prefix, v)]
              else buildParams traditional
                     (prefix ++ "[" ++ (if is_object v then indexString i else "") ++ "]") v)
             ++ items (S i) l'
         end) 0 l
  | PObject l =>
      if traditional then [(prefix, obj)]
      else (fix fields (l : list (string * pval)) : list (string * pval) :=
              match l with
              | [] => []
              | (name, v) :: l' => buildParams traditional (prefix ++ "[" ++ name ++ "]") v ++ fields l'
              end) l
  | _ => [(prefix, obj)]
  end.

(** The string a value contributes: arrays and objects in scalar position convert
    with [String]. *)
Fixpoint to_string (v : pval) : string :=
  match v with
  | PNull => ""
  | PText s => s
  | PFun text _ => text
  | PArray l => join "," (map to_string l)
  | PObject _ => "[object Object]"
  end.
Definition text_of (v : pval) : string :=
  match v with PFun _ r => default ""%string r | _ => to_string v end.
Definition pairs_of (traditional : bool) (a : list (string * pval)) : list (string * string) :=
  map (λ p, (fst p, text_of (snd p))) (concat (map (λ p, buildParams traditional (fst p) (snd p)) a)).
Definition add_pair (p : string * string) : string :=
  (encodeURIComponent (fst p) ++ "=" ++ encodeURIComponent (snd p))%string.

(** [jQuery.param]: nothing, form elements (name and value), or an object. *)
Inductive paramArg := ANull | AElements (l : list (string * pval)) | AObject (l : list (string * pval)).
Definition param_pairs (a : paramArg) (traditional : bool) : list (string * string) :=
  match a with
  | ANull => []
  | AElements l => map (λ p, (fst p, text_of (snd p))) l
  | AObject l => pairs_of traditional l
  end.
Definition param (a : paramArg) (traditional : bool) : string :=
  join "&" (map add_pair (param_pairs a traditional)).

(** ** Forms *)
Inductive fieldVal := VNone | VOne (s : string) | VMany (l : list string).
Record Control := mkControl {
  c_name : string; c_disabled : bool; c_nodeName : string; c_type : string; c_checked : bool; c_val : fieldVal
}.
(** An element of the set: a form with its elements, or a control. *)
Inductive formElem := Form (elements : list Control) | Single (c : Control).
Definition one_of (l : list string) (s : string) : bool := existsb (equalsIgnoreCase s) l.
(** [rsubmitterTypes], [rsubmittable] (a prefix), [rcheckableType] *)
Definition rsubmitterTypes : string → bool := one_of ["submit"; "button"; "image"; "reset"; "file"]%string.
Definition rsubmittable (s : string) : bool :=
  existsb (λ p, String.prefix p (toLowerCase s)) ["input"; "select"; "textarea"; "keygen"]%string.
Definition rcheckableType : string → bool := one_of ["checkbox"; "radio"]%string.
(** [val.replace( rCRLF, "\r\n" )] *)
Definition CR : ascii := chr 13.
Definition LF : ascii := chr 10.
Fixpoint crlf (s : string) : string :=
  match s with
  | EmptyString => EmptyString
  | String c t =>
      if Ascii.eqb c LF then String CR (String LF (crlf t))
      else if Ascii.eqb c CR
      then match t with
           | String d t' => if Ascii.eqb d LF then String CR (String LF (crlf t')) else String c (crlf t)
           | EmptyString => String c EmptyString
           end
      else String c (crlf t)
  end.
Definition successful (c : Control) : bool :=
  negb (String.eqb (c_name c) "") && negb (c_disabled c) && rsubmittable (c_nodeName c)
  && negb (rsubmitterTypes (c_type c)) && (c_checked c || negb (rcheckableType (c_type c))).
Definition control_pairs (c : Control) : list (string * string) :=
  match c_val c with
  | VNone => []
  | VOne s => [(c_name c, crlf s)]
  | VMany l => map (λ s, (c_name c, crlf s)) l
  end.
Definition form_controls (e : formElem) : list Control :=
  match e with Form l => l | Single c => [c] end.
Definition serializeArray (set : list formElem) : list (string * string) :=
  concat (map control_pairs (List.filter successful (concat (map form_controls set)))).
Definition serialize (set : list formElem) : string :=
  param (AElements (map (λ p, (fst p, PText (snd p))) (serializeArray set))) false.

(** ** Decoding, the specification *)
Definition hex_value (c : ascii) : nat := if code c <? 58 then code c - 48 else code c - 55.
Fixpoint form_decode (s : string) : string :=
  match s with
  | EmptyString => EmptyString
  | String c t =>
      if Ascii.eqb c "%"%char
      then match t with
           | String a (String b t') => String (chr (16 * hex_value a + hex_value b)) (form_decode t')
           | _ => String c (form_decode t)
           end
      else String (if Ascii.eqb c "+"%char then " "%char else c) (form_decode t)
  end.
Definition decode_pair (s : string) : string * string :=
  match split_on "="%char s with
  | k :: v => (form_decode k, form_decode (join "=" v))
  | [] => (EmptyString, EmptyString)
  end.
(** The pairs a server reads from a query string or a form body. *)
Definition decode_query (s : string) : list (string * string) :=
  if String.eqb s "" then [] else map decode_pair (split_on "&"%char s).

(** [s.data.replace( r20, "+" )], which [ajax] applies to a form body. *)
Fixpoint r20_plus (s : string) : string :=
  match s with
  | EmptyString => EmptyString
  | String c t =>
      match t with
      | String a (String b t') =>
          if Ascii.eqb c "%"%char && Ascii.eqb a "2"%char && Ascii.eqb b "0"%char
          then String "+"%char (r20_plus t') else String c (r20_plus t)
      | _ => String c (r20_plus t)
      end
  end.

(** ** Lemmas *)
(** Both encodings of a character, percent escapes and those with spaces as plus
    signs, are instances of a code a server can decode. *)
Class FormCode (enc : ascii → string) : Prop := {
  code_lacks_eq : ∀ c, lacks "="%char (enc c) = true;
  code_lacks_amp : ∀ c, lacks "&"%char (enc c) = true;
  code_decode : ∀ c t, form_decode (enc c ++ t) = String c (form_decode t)
}.
Definition plus_char (c : ascii) : string := if Ascii.eqb c " "%char then "+"%string else encode_char c.
#[export] Instance encode_char_code : FormCode encode_char.
Proof. split; intros c; try intros t; by ascii_cases c. Qed.
#[export] Instance plus_char_code : FormCode plus_char.
Proof. split; intros c; try intros t; by ascii_cases c. Qed.

Lemma lacks_app c a b : lacks c (a ++ b) = lacks c a && lacks c b.
Proof. apply str_forall_app. Qed.
Lemma lacks_flat c f s : (∀ a, lacks c (f a) = true) → lacks c (str_flat f s) = true.
Proof. intros H. induction s as [|a s IH]; simpl; [done|]. by rewrite lacks_app, H, IH. Qed.
Lemma join_nonempty sep l : l ≠ [] → Forall (λ s, s ≠ ""%string) l → join sep l ≠ ""%string.
Proof.
  intros Hne HF H. destruct l as [|s l']; [done|]. apply Forall_cons_1 in HF as [Hs _].
  destruct l' as [|s' l']; [done|].
  apply (f_equal str_length) in H.
  change (join sep (s :: s' :: l')) with (s ++ sep ++ join sep (s' :: l'))%string in H.
  rewrite str_app_length in H. destruct s; [done|]. simpl in H. lia.
Qed.

Section Code.
Context (enc : ascii → string) `{!FormCode enc}.
(** A pair with both texts in the code. *)
Definition code_pair (p : string * string) : string :=
  (str_flat enc (fst p) ++ "=" ++ str_flat enc (snd p))%string.
Lemma decode_flat s : form_decode (str_flat enc s) = s.
Proof. induction s as [|c s IH]; simpl; [done|]. by rewrite code_decode, IH. Qed.
Lemma decode_code_pair p : decode_pair (code_pair p) = p.
Proof.
  destruct p as [k v]. unfold decode_pair, code_pair. simpl.
  assert (E : ("=" ++ str_flat enc v)%string = String "=" (str_flat enc v)) by done.
  rewrite E, split_on_first by (apply lacks_flat, code_lacks_eq).
  rewrite split_on_lacks by (apply lacks_flat, code_lacks_eq). unfold join. simpl.
  by rewrite !decode_flat.
Qed.
Lemma code_pair_lacks p : lacks "&"%char (code_pair p) = true.
Proof. unfold code_pair. rewrite !lacks_app, !lacks_flat by apply code_lacks_amp. done. Qed.
Lemma code_pair_nonempty p : code_pair p ≠ ""%string.
Proof.
  intros H. apply (f_equal str_length) in H. unfold code_pair in H.
  rewrite !str_app_length in H. simpl in H. lia.
Qed.
Lemma decode_query_code l : decode_query (join "&" (map code_pair l)) = l.
Proof.
  unfold decode_query. destruct (String.eqb_spec (join "&" (map code_pair l)) "") as [E|E].
  - destruct l as [|p l]; [done|]. exfalso. revert E. apply join_nonempty; [done|].
    apply Forall_map, Forall_forall. intros; apply code_pair_nonempty.
  - destruct l as [|p l]; [done|]. rewrite split_on_join; [|done|].
    + rewrite map_map. rewrite (map_ext _ id) by (intros; apply decode_code_pair). apply map_id.
    + apply Forall_map, Forall_forall. intros; apply code_pair_lacks.
Qed.
End Code.

(** [r20_plus] acts on one encoded character after the other. *)
Lemma r20_plain c t : Ascii.eqb c "%"%char = false → r20_plus (String c t) = String c (r20_plus t).
Proof. intros H. simpl. destruct t as [|a [|b t']]; [done|done|]. by rewrite H. Qed.
Lemma r20_hex a b t :
  Ascii.eqb a "%"%char = false → Ascii.eqb b "%"%char = false →
  r20_plus (String "%" (String a (String b t)))
  = if Ascii.eqb a "2" && Ascii.eqb b "0" then String "+" (r20_plus t)
    else String "%" (String a (String b (r20_plus t))).
Proof.
  intros Ha Hb. rewrite <- (r20_plain b t Hb), <- (r20_plain a _ Ha). done.
Qed.
Lemma unreserved_plain c :
  is_unreserved c = true → Ascii.eqb c "%"%char = false ∧ Ascii.eqb c " "%char = false.
Proof. ascii_cases c; vm_compute; intros; split; congruence. Qed.
Lemma escape_plain c :
  let a := hex_digit (code c / 16) in let b := hex_digit (code c mod 16) in
  Ascii.eqb a "%"%char = false ∧ Ascii.eqb b "%"%char = false ∧
  Ascii.eqb a "2"%char && Ascii.eqb b "0"%char = Ascii.eqb c " "%char.
Proof. by ascii_cases c. Qed.
Lemma r20_encode_char c t : r20_plus (encode_char c ++ t) = (plus_char c ++ r20_plus t)%string.
Proof.
  unfold plus_char, encode_char. destruct (is_unreserved c) eqn:Hc.
  - destruct (unreserved_plain c Hc) as [H1 H2]. rewrite H2, !str_app_cons, !str_app_nil_l.
    by apply r20_plain.
  - destruct (escape_plain c) as (H1 & H2 & H3). rewrite !str_app_cons, !str_app_nil_l.
    rewrite r20_hex, H3 by done. by destruct (Ascii.eqb c " ").
Qed.
Lemma r20_encode s t : r20_plus (encodeURIComponent s ++ t) = (str_flat plus_char s ++ r20_plus t)%string.
Proof.
  unfold encodeURIComponent. induction s as [|c s IH]; simpl; [done|].
  by rewrite !str_app_assoc, r20_encode_char, IH.
Qed.
Lemma r20_pair p t : r20_plus (add_pair p ++ t) = (code_pair plus_char p ++ r20_plus t)%string.
Proof.
  unfold add_pair, code_pair. rewrite !str_app_assoc, r20_encode. f_equal.
  rewrite !str_app_cons, !str_app_nil_l, r20_plain by done. by rewrite r20_encode.
Qed.
Lemma join_cons2 {A} (f : A → string) (a b : A) l :
  join "&" (map f (a :: b :: l)) = (f a ++ String "&" (join "&" (map f (b :: l))))%string.
Proof. done. Qed.
Lemma r20_pairs l : r20_plus (join "&" (map add_pair l)) = join "&" (map (code_pair plus_char) l).
Proof.
  induction l as [|p l IH]; [done|]. destruct l as [|p' l].
  - cbn. rewrite <- (str_app_nil_r (add_pair p)), r20_pair. cbn. by rewrite str_app_nil_r.
  - rewrite !join_cons2, r20_pair, r20_plain by done. by rewrite IH.
Qed.

(** ** Properties *)
(** C28. What [param] writes is read back by a server as exactly the pairs it was made
    from, in order and whatever characters the names and values have (separators,
    percent and plus signs, brackets, bytes of other alphabets), also after [ajax]
    has replaced the encoded spaces of a form body by plus signs. *)
Theorem param_roundtrip (a : paramArg) (traditional : bool) :
  decode_query (param a traditional) = param_pairs a traditional ∧
  decode_query (r20_plus (param a traditional)) = param_pairs a traditional.
Proof.
  unfold param. rewrite r20_pairs.
  split; [apply (decode_query_code encode_char) | apply (decode_query_code plus_char)].
Qed.
Example param_roundtrip_nested :
  decode_query (param (AObject [("a b", PArray [PText "x&y"; PObject [("k", PNull)]])]) false)
  = [("a b[]", "x&y"); ("a b[1][k]", "")]%string.
Proof. reflexivity. Qed.
(** A serialized form is read back as the pairs of its successful controls. *)
Corollary serialize_pairs (set : list formElem) : decode_query (serialize set) = serializeArray set.
Proof.
  unfold serialize, param, param_pairs.
  assert (E : ∀ l : list (string * string), map (λ p, (fst p, text_of (snd p))) (map (λ p, (fst p, PText (snd p))) l) = l).
  { induction l as [|[k v] l IH]; [done|]. simpl. by rewrite IH. }
  rewrite E. apply (decode_query_code encode_char).
Qed.
