(* ===== verification/JqConvert.v ===== *)
(** * Responses of requests and their conversion

    Model of the pure parts of [jQuery.ajax] (jquery-3.5.1.js lines 9002-9351): the
    choice of a response type ([ajaxHandleResponses]), the chain of converters
    ([ajaxConvert]), response and request headers, and the default tables of
    [jQuery.ajaxSettings].  The names of [Object.prototype] are not used as data
    types or header names. *)
From Stdlib Require Import ZArith Lia Ascii String.
From stdpp Require Import base strings list.
From S2P Require Import Prelude.
From S2P Require Import JsString.
From S2P Require Import JqParam.

(** ** Values: responses, data and errors *)
Inductive jv := JUndef | JNull | JBool (b : bool) | JNum (z : Z) | JStr (s : string) | JObj (n : nat).
#[export] Instance jv_eq_dec : EqDecision jv.
Proof. solve_decision. Defined.
Definition js_truthy (v : jv) : bool :=
  match v with
  | JUndef | JNull => false
  | JBool b => b
  | JNum z => negb (Z.eqb z 0)
  | JStr s => negb (String.eqb s "")
  | JObj _ => true
  end.
(** [String( v )] *)
Definition js_String (v : jv) : string :=
  match v with
  | JUndef => "undefined"
  | JNull => "null"
  | JBool b => if b then "true" else "false"
  | JNum z => (if Z.ltb z 0 then "-" else "") ++ indexString (Z.to_nat (Z.abs z))
  | JStr s => s
  | JObj _ => "[object Object]"
  end.

(** A user function returns a value or throws one. *)
Inductive result := Throws (e : jv) | Returns (v : jv).
Inductive conv := CFalsy | CTrue | CFun (f : jv → result).

(** The settings of a request that this file uses. *)
Record ConvSettings := mkConvSettings {
  mimeType : option string;
  contents : list (string * (string → bool));
  responseFields : list (string * string);
  converters : list (string * conv);
  dataFilter : option (jv → option string → result);
  dataType : option string;
  throws : bool
}.

(** [converters[ key ]], when it is truthy. *)
Definition get_conv (cs : list (string * conv)) (k : string) : option conv :=
  match assoc k cs with Some CFalsy | None => None | c => c end.
Definition or_else {A} (a b : option A) : option A := match a with Some _ => a | None => b end.

(** ** [ajaxHandleResponses] *)
Fixpoint drop_auto (l : list string) : list string :=
  match l with
  | t :: l' => if String.eqb t "*" then drop_auto l' else l
  | [] => []
  end.
(** A text property that may be missing or empty. *)
Definition or_text (a b : option string) : option string :=
  match a with Some s => if String.eqb s "" then b else a | None => b end.
Definition handle_ct (s : ConvSettings) (header : option string) (dataTypes : list string) : option string :=
  match dataTypes with
  | t :: _ => if String.eqb t "*" then or_text (mimeType s) header else None
  | [] => None
  end.
Definition known_type (s : ConvSettings) (ct : option string) (dataTypes : list string) : list string :=
  match ct with
  | Some c =>
      if String.eqb c "" then dataTypes else
      match List.find (λ p, snd p c) (contents s) with
      | Some (t, _) => t :: dataTypes
      | None => dataTypes
      end
  | None => dataTypes
  end.
(** [for ( type in responses )]: the first convertible one, else the first one. *)
Definition convertible (s : ConvSettings) (dt0 : option string) (t : string) : bool :=
  match dt0 with
  | None => true
  | Some d => String.eqb d "" || (if get_conv (converters s) (t ++ " " ++ d) then true else false)
  end.
Fixpoint pick_type (s : ConvSettings) (dt0 : option string) (responses : list (string * jv))
    (firstDataType : option string) : option string :=
  match responses with
  | [] => firstDataType
  | (t, _) :: l =>
      if convertible s dt0 t then Some t else pick_type s dt0 l (or_text firstDataType (Some t))
  end.
Definition ajaxHandleResponses (s : ConvSettings) (header : option string) (dataTypes : list string)
    (responses : list (string * jv)) : list string * option jv :=
  let ct := handle_ct s header dataTypes in
  let dataTypes := known_type s ct (drop_auto dataTypes) in
  let final :=
    if assoc (default "undefined"%string (head dataTypes)) responses then head dataTypes
    else pick_type s (head dataTypes) responses None in
  match final with
  | None => (dataTypes, None)
  | Some t =>
      if String.eqb t "" then (dataTypes, None) else
      (if decide (head dataTypes = Some t) then dataTypes else t :: dataTypes, assoc t responses)
  end.

(** ** [ajaxConvert] *)
Inductive converted := CvSuccess (data : jv) | CvError (error : jv) | CvThrown (e : jv).

(** The map of converters by lower-case keys. *)
Definition lower_converters (cs : list (string * conv)) : list (string * conv) :=
  fold_left (λ m p, assoc_set (toLowerCase (fst p)) (snd p) m) cs [].

Definition direct (cs : list (string * conv)) (prev current : string) : option conv :=
  or_else (get_conv cs (prev ++ " " ++ current)) (get_conv cs ("* " ++ current)).

(** "If none found, seek a pair": the converter to apply, and the intermediate type
    with the rest of the way when one has to be inserted. *)
Fixpoint seek_pair (cs rest : list (string * conv)) (prev current : string)
    : conv * option (string * string) :=
  match rest with
  | [] => (CFalsy, None)
  | (conv2, c2) :: rest' =>
      match split_on " "%char conv2 with
      | t0 :: t1 :: _ =>
          if String.eqb t1 current then
            match direct cs prev t0 with
            | Some CTrue => (c2, None)
            | Some c => match c2 with CTrue => (c, None) | _ => (c, Some (t0, t1)) end
            | None => seek_pair cs rest' prev current
            end
          else seek_pair cs rest' prev current
      | _ => seek_pair cs rest' prev current
      end
  end.
Definition seek (cs : list (string * conv)) (prev current : string) : conv * option (string * string) :=
  match direct cs prev current with
  | Some c => (c, None)
  | None => seek_pair cs cs prev current
  end.

Definition set_field (s : ConvSettings) (t : string) (v : jv) (fields : list (string * jv)) : list (string * jv) :=
  match assoc t (responseFields s) with
  | Some f => if String.eqb f "" then fields else fields ++ [(f, v)]
  | None => fields
  end.
Definition apply_filter (s : ConvSettings) (first isSuccess : bool) (v : jv) : result :=
  match dataFilter s with
  | Some f => if first && isSuccess then f v (dataType s) else Returns v
  | None => Returns v
  end.

(** The loop [while ( current )]; the fields it sets on the jqXHR object are listed
    in order. *)
Fixpoint convert_loop (fuel : nat) (cs : list (string * conv)) (s : ConvSettings) (isSuccess first : bool)
    (current : string) (dataTypes : list string) (response : jv) (fields : list (string * jv))
    : option (list (string * jv) * converted) :=
  match fuel with
  | 0 => None
  | S fuel =>
      if String.eqb current "" then Some (fields, CvSuccess response) else
      let fields := set_field s current response fields in
      match apply_filter s first isSuccess response with
      | Throws e => Some (fields, CvThrown e)
      | Returns response =>
          let prev := current in
          let continue := λ current dataTypes response,
            convert_loop fuel cs s isSuccess false current dataTypes response fields in
          match dataTypes with
          | [] => Some (fields, CvSuccess response)
          | current :: dataTypes =>
              if String.eqb current "" then Some (fields, CvSuccess response)
              else if String.eqb current "*" then continue prev dataTypes response
              else if String.eqb prev "*" || String.eqb prev current then continue current dataTypes response
              else
                let '(c, inserted) := seek cs prev current in
                let '(current, dataTypes) :=
                  match inserted with
                  | Some (t0, t1) => (t0, t1 :: dataTypes)
                  | None => (current, dataTypes)
                  end in
                match c with
                | CTrue => continue current dataTypes response
                | CFun f =>
                    match f response with
                    | Returns v => continue current dataTypes v
                    | Throws e => Some (fields, if throws s then CvThrown e else CvError e)
                    end
                | CFalsy =>
                    Some (fields, CvError (JStr ("No conversion from " ++ prev ++ " to " ++ current)))
                end
          end
      end
  end.
(** Two iterations for each data type are enough (see [response_typed]). *)
Definition convert_fuel (dataTypes : list string) : nat := 2 * length dataTypes + 1.
Definition ajaxConvert (s : ConvSettings) (dataTypes : list string) (response : jv) (isSuccess : bool)
    : option (list (string * jv) * converted) :=
  let cs := match dataTypes with
            | _ :: t :: _ => if String.eqb t "" then [] else lower_converters (converters s)
            | _ => []
            end in
  match dataTypes with
  | [] => Some ([], CvSuccess response)
  | current :: rest => convert_loop (convert_fuel dataTypes) cs s isSuccess true current rest response []
  end.

(** ** Response headers *)
Definition is_newline (c : ascii) : bool := (code c =? 10) || (code c =? 13).
Fixpoint lines_from (cur : string) (s : string) : list string :=
  match s with
  | EmptyString => [cur]
  | String c s' => if is_newline c then cur :: lines_from "" s' else lines_from (cur ++ String c "") s'
  end.
Fixpoint drop_blank (s : string) : string :=
  match s with
  | String c s' => if (code c =? 32) || (code c =? 9) then drop_blank s' else s
  | EmptyString => s
  end.
(** [rheaders] on one line. *)
Definition header_line (line : string) : option (string * string) :=
  match split_on ":"%char line with
  | k :: v :: rest => Some (k, drop_blank (join ":" (v :: rest)))
  | _ => None
  end.
Definition add_header (m : list (string * list string)) (p : string * string) : list (string * list string) :=
  let k := (toLowerCase (fst p) ++ " ")%string in
  assoc_set k (default [] (assoc k m) ++ [snd p]) m.
Definition parse_headers (s : string) : list (string * list string) :=
  fold_left add_header (omap header_line (lines_from "" s)) [].
Definition header_value (m : list (string * list string)) (key : string) : option string :=
  option_map (join ", ") (assoc (toLowerCase key ++ " ")%string m).

(** ** Request headers: [requestHeaders] and [requestHeadersNames] *)
Record Headers := mkHeaders { h_values : list (string * string); h_names : list (string * string) }.
Definition put_header (name value : string) (h : Headers) : Headers :=
  let low := toLowerCase name in
  let name := match assoc low (h_names h) with
              | Some n => if String.eqb n "" then name else n
              | None => name
              end in
  mkHeaders (assoc_set name value (h_values h)) (assoc_set low name (h_names h)).

(** ** The default tables of [ajaxSettings] *)
(** [/\bw\b/] (or without the second boundary) for a word of word characters. *)
Fixpoint has_word (post : bool) (w : string) (before : bool) (s : string) : bool :=
  (negb before && String.prefix w s
     && (negb post || match str_drop (str_length w) s with String c _ => negb (is_word c) | EmptyString => true end))
  || match s with String c s' => has_word post w (is_word c) s' | EmptyString => false end.
Definition allTypes : string := "*/*".
Definition default_accepts : list (string * string) :=
  [("*", allTypes); ("text", "text/plain"); ("html", "text/html"); ("xml", "application/xml, text/xml");
   ("json", "application/json, text/javascript")]%string.
Definition default_contents : list (string * (string → bool)) :=
  [("xml"%string, has_word true "xml" false); ("html"%string, has_word false "html" false);
   ("json"%string, has_word true "json" false)].
Definition default_responseFields : list (string * string) :=
  [("xml", "responseXML"); ("text", "responseText"); ("json", "responseJSON")]%string.
(** [JSON.parse] and [jQuery.parseXML] are given. *)
Definition default_converters (JSON_parse parseXML : jv → result) : list (string * conv) :=
  [("* text"%string, CFun (λ v, Returns (JStr (js_String v)))); ("text html"%string, CTrue);
   ("text json"%string, CFun JSON_parse); ("text xml"%string, CFun parseXML)].

(** ** Lemmas on converters *)
(** A semantic reading of data types: [P t v] says that [v] is a value of type [t].
    A converter respects it when it turns values of its source into values of its
    target; [*] as a source stands for every value. *)
Section Typed.
Context (P : string → jv → Prop).
Definition respects (a b : string) (c : conv) : Prop :=
  ∀ v, a = "*"%string ∨ P a v →
  match c with
  | CFalsy => False
  | CTrue => P b v
  | CFun f => ∀ w, f v = Returns w → P b w
  end.
(** A key is two types separated by a single space. *)
Definition conv_ok (p : string * conv) : Prop :=
  ∃ a b, fst p = (a ++ " " ++ b)%string ∧ lacks " " a = true ∧ lacks " " b = true ∧ a ≠ ""%string ∧
         b ≠ "*"%string ∧ snd p ≠ CFalsy ∧ respects a b (snd p).

Lemma split_key a b : lacks " " a = true → lacks " " b = true → split_on " " (a ++ " " ++ b) = [a; b].
Proof.
  intros Ha Hb. assert (E : (" " ++ b)%string = String " " b) by done.
  by rewrite E, split_on_first, split_on_lacks.
Qed.
Lemma key_inj a b a' b' :
  lacks " " a = true → lacks " " b = true → lacks " " a' = true → lacks " " b' = true →
  (a ++ " " ++ b = a' ++ " " ++ b')%string → a = a' ∧ b = b'.
Proof.
  intros. assert (H' : [a; b] = [a'; b']) by (by rewrite <- !split_key, H3). by simplify_eq.
Qed.
Lemma get_conv_elem cs k c : get_conv cs k = Some c → (k, c) ∈ cs ∧ c ≠ CFalsy.
Proof.
  unfold get_conv. destruct (assoc k cs) as [c'|] eqn:H; [|done]. apply assoc_elem in H.
  destruct c'; intros [= <-]; done.
Qed.

Context (cs : list (string * conv)) (Hcs : Forall conv_ok cs).
Lemma elem_ok p : p ∈ cs → conv_ok p.
Proof. intros H. by eapply Forall_forall in Hcs. Qed.
Lemma get_conv_truthy k c : (k, c) ∈ cs → is_Some (get_conv cs k).
Proof.
  intros H. unfold get_conv. destruct (assoc_in k cs c H) as [c' E]. rewrite E.
  apply assoc_elem in E. destruct (elem_ok _ E) as (a & b & _ & _ & _ & _ & _ & Hc & _).
  simpl in Hc. destruct c'; [done|eauto|eauto].
Qed.
Lemma get_conv_respects a b c :
  lacks " " a = true → lacks " " b = true →
  get_conv cs (a ++ " " ++ b) = Some c → b ≠ "*"%string ∧ respects a b c.
Proof.
  intros Ha Hb [H _]%get_conv_elem. rewrite Forall_forall in Hcs.
  destruct (Hcs _ H) as (a' & b' & E & Ha' & Hb' & _ & Hs & _ & Hr). simpl in E, Hr.
  apply key_inj in E as [-> ->]; done.
Qed.
Lemma direct_respects a b c :
  lacks " " a = true → lacks " " b = true → direct cs a b = Some c → respects a b c.
Proof.
  intros Ha Hb. unfold direct, or_else. destruct (get_conv cs (a ++ " " ++ b)) eqn:E.
  - intros [= <-]. by eapply get_conv_respects.
  - intros E2. destruct (get_conv_respects "*" b c eq_refl Hb E2) as [_ Hr].
    intros v _. apply (Hr v). by left.
Qed.
Lemma direct_any b c : ("* " ++ b, c)%string ∈ cs → ∀ a, is_Some (direct cs a b).
Proof.
  intros H a. unfold direct, or_else. destruct (get_conv cs (a ++ _)); [eauto|].
  by eapply get_conv_truthy.
Qed.

(** What the search for a converter gives: a converter to the wanted type, or one to
    an intermediate type from which there is a direct one. *)
Definition seek_ok (prev current : string) (r : conv * option (string * string)) : Prop :=
  match snd r with
  | None => fst r = CFalsy ∨ respects prev current (fst r)
  | Some (t0, t1) =>
      t1 = current ∧ t0 ≠ "*"%string ∧ t0 ≠ ""%string ∧ lacks " " t0 = true ∧ respects prev t0 (fst r) ∧
      is_Some (direct cs t0 current)
  end.
Lemma seek_pair_ok prev current rest :
  lacks " " prev = true → lacks " " current = true → direct cs prev current = None →
  (∀ p, p ∈ rest → p ∈ cs) → seek_ok prev current (seek_pair cs rest prev current).
Proof.
  intros Hp Hc Hd. induction rest as [|[conv2 c2] rest IH]; intros Hin; [by left|]. simpl.
  specialize (IH (λ p H, Hin p (list_elem_of_further _ _ _ H))).
  assert (H2 : (conv2, c2) ∈ cs) by (apply Hin; left).
  destruct (elem_ok _ H2) as (t0 & t1 & E & L0 & L1 & S0 & S1 & N2 & R2). simpl in E, N2, R2. subst conv2.
  rewrite split_key by done. destruct (String.eqb_spec t1 current) as [->|]; [|done].
  destruct (direct cs prev t0) as [c|] eqn:Hdir; [|done].
  pose proof (direct_respects _ _ _ Hp L0 Hdir) as Rc.
  assert (Ht0 : t0 ≠ "*"%string).
  { intros ->. destruct (direct_any current c2 H2 prev) as [x Hx]. congruence. }
  assert (Hd0 : is_Some (direct cs t0 current)).
  { destruct (get_conv_truthy _ _ H2) as [x Hx]. unfold direct. rewrite Hx. simpl. eauto. }
  destruct c as [| |f].
  - unfold direct, or_else in Hdir. destruct (get_conv cs _) eqn:E; [simplify_eq|];
      by apply get_conv_elem in E as [_ ?] || by apply get_conv_elem in Hdir as [_ ?].
  - right. intros v Hv. apply R2. right. by apply (Rc v).
  - destruct c2; [done| |by repeat split]. right. intros v Hv w Hw. apply (R2 w). right. by eapply Rc.
Qed.
Lemma seek_spec prev current :
  lacks " " prev = true → lacks " " current = true → seek_ok prev current (seek cs prev current).
Proof.
  intros Hp Hc. unfold seek. destruct (direct cs prev current) eqn:E.
  - right. by eapply direct_respects.
  - by apply seek_pair_ok.
Qed.

(** The type a list of data types asks for in the end. *)
Fixpoint final_type (current : string) (dataTypes : list string) : string :=
  match dataTypes with
  | [] => current
  | d :: l =>
      if String.eqb d "" then current
      else if String.eqb d "*" then final_type current l else final_type d l
  end.

Context (s : ConvSettings) (isSuccess : bool).
Definition field_ok (f : string * jv) : Prop :=
  ∃ t, assoc t (responseFields s) = Some (fst f) ∧ P t (snd f).
Definition loop_ok (current : string) (dataTypes : list string)
    (r : option (list (string * jv) * converted)) : Prop :=
  ∃ fields res, r = Some (fields, res) ∧ Forall field_ok fields ∧
                ∀ v, res = CvSuccess v → P (final_type current dataTypes) v.
Definition filter_ok (first : bool) (t : string) : Prop :=
  ∀ v w, P t v → apply_filter s first isSuccess v = Returns w → P t w.
Definition loop_at (fuel : nat) (current : string) (dataTypes : list string) : Prop :=
  ∀ first response fields,
  lacks " " current = true → current ≠ "*"%string → current ≠ ""%string →
  P current response → filter_ok first current → Forall field_ok fields →
  loop_ok current dataTypes (convert_loop fuel cs s isSuccess first current dataTypes response fields).
Definition loop_from (fuel : nat) (dataTypes : list string) : Prop :=
  ∀ current, loop_at fuel current dataTypes.

Lemma filter_later t : filter_ok false t.
Proof. intros v w Hv. unfold apply_filter. destruct (dataFilter s); by intros [= <-]. Qed.
Lemma set_field_ok t v fields : P t v → Forall field_ok fields → Forall field_ok (set_field s t v fields).
Proof.
  intros Hv Hf. unfold set_field. destruct (assoc t (responseFields s)) as [f|] eqn:E; [|done].
  case_match; [done|]. apply Forall_app; split; [done|]. constructor; [|done]. by exists t.
Qed.
Lemma loop_stop t dataTypes fields res :
  Forall field_ok fields → (∀ v, res = CvSuccess v → P (final_type t dataTypes) v) →
  loop_ok t dataTypes (Some (fields, res)).
Proof. intros. exists fields, res. done. Qed.
Hint Resolve filter_later set_field_ok loop_stop : core.
Lemma loop_ok_throw t dataTypes fields e :
  Forall field_ok fields → loop_ok t dataTypes (Some (fields, if throws s then CvThrown e else CvError e)).
Proof. intros H. apply loop_stop; [done|]. by destruct (throws s). Qed.
Lemma loop_ok_final t dataTypes t' dataTypes' r :
  final_type t dataTypes = final_type t' dataTypes' → loop_ok t dataTypes r → loop_ok t' dataTypes' r.
Proof. intros E (fields & res & -> & Hf & Hv). exists fields, res. by rewrite <- E. Qed.

(** One iteration with the data type [d] next: it goes on with [d], unless it stops or
    an intermediate type is inserted. *)
Lemma loop_iteration fuel d dataTypes current :
  lacks " " d = true → loop_from fuel dataTypes →
  (∀ t0, snd (seek cs current d) = Some (t0, d) → is_Some (direct cs t0 d) →
         loop_at fuel t0 (d :: dataTypes)) →
  loop_at (S fuel) current (d :: dataTypes).
Proof.
  intros Ld Hgo Hins first response fields Lc Hstar Hne Hv Hfil Hf. cbn [convert_loop].
  rewrite (proj2 (String.eqb_neq current "") Hne).
  destruct (apply_filter s first isSuccess response) as [e|v] eqn:Ea; [by apply loop_stop; auto|].
  specialize (Hfil _ _ Hv Ea). pose proof (set_field_ok _ _ _ Hv Hf) as Hf'.
  destruct (String.eqb_spec d "") as [->|Hd]; [apply loop_stop; [done|]; by intros ? [= <-]|].
  destruct (String.eqb_spec d "*") as [->|Hd']; [by apply Hgo; auto|].
  assert (Hfin : final_type current (d :: dataTypes) = final_type d dataTypes).
  { simpl. by rewrite (proj2 (String.eqb_neq d "") Hd), (proj2 (String.eqb_neq d "*") Hd'). }
  rewrite (proj2 (String.eqb_neq current "*") Hstar). cbn [orb].
  destruct (String.eqb_spec current d) as [->|Hcd].
  { eapply loop_ok_final; [symmetry; exact Hfin|]. by apply Hgo; auto. }
  pose proof (seek_spec current d Lc Ld) as Hs. revert Hins Hs. unfold seek_ok.
  destruct (seek cs current d) as [c [[t0 t1]|]]; cbn [fst snd]; intros Hins Hs.
  - destruct Hs as (-> & H0 & H0' & L0 & Hr & Hd0). specialize (Hins t0 eq_refl Hd0).
    assert (Hgo' : ∀ w, P t0 w → loop_ok current (d :: dataTypes)
      (convert_loop fuel cs s isSuccess false t0 (d :: dataTypes) w (set_field s current response fields))).
    { intros w Hw. eapply (loop_ok_final t0 (d :: dataTypes)); [|apply Hins; auto].
      rewrite Hfin. simpl. by rewrite (proj2 (String.eqb_neq d "") Hd), (proj2 (String.eqb_neq d "*") Hd'). }
    specialize (Hr v (or_intror Hfil)). destruct c as [| |f]; [by apply loop_stop|by apply Hgo'|].
    destruct (f v) as [e|w] eqn:Efv; [by apply loop_ok_throw|]. by apply Hgo', Hr.
  - assert (Hgo' : ∀ w, P d w → loop_ok current (d :: dataTypes)
      (convert_loop fuel cs s isSuccess false d dataTypes w (set_field s current response fields))).
    { intros w Hw. eapply loop_ok_final; [symmetry; exact Hfin|]. by apply Hgo; auto. }
    destruct Hs as [->|Hr]; [by apply loop_stop|]. specialize (Hr v (or_intror Hfil)).
    destruct c as [| |f]; [done|by apply Hgo'|].
    destruct (f v) as [e|w] eqn:Efv; [by apply loop_ok_throw|]. by apply Hgo', Hr.
Qed.

Lemma loop_from_enough dataTypes fuel :
  Forall (λ d, lacks " " d = true) dataTypes → 2 * length dataTypes + 1 ≤ fuel → loop_from fuel dataTypes.
Proof.
  intros HL. revert fuel. induction HL as [|d dataTypes Ld HL IH]; intros fuel Hfuel;
    (destruct fuel as [|fuel]; [simpl in Hfuel; lia|]).
  - intros current first response fields Lc Hstar Hne Hv Hfil Hf. cbn [convert_loop].
    rewrite (proj2 (String.eqb_neq current "") Hne).
    destruct (apply_filter s first isSuccess response) as [e|v] eqn:Ea; [by apply loop_stop; auto|].
    apply loop_stop; [auto|]. intros w [= <-]. by eapply Hfil.
  - simpl in Hfuel. intros current. apply loop_iteration; [done|apply IH; lia|].
    intros t0 _ [c Hc]. destruct fuel as [|fuel]; [lia|].
    apply loop_iteration; [done|apply IH; lia|]. intros t0'. unfold seek. by rewrite Hc.
Qed.
End Typed.

(** ** The response of a request *)
Definition type_name (t : string) : Prop := lacks " " t = true ∧ t ≠ "*"%string ∧ t ≠ ""%string.

Section Response.
Context (P : string → jv → Prop) (s : ConvSettings).
Context (Hconv : Forall (λ p, conv_ok P (toLowerCase (fst p), snd p)) (converters s)).
Context (Hfilter : ∀ f, dataFilter s = Some f → ∀ t v w, P t v → f v (dataType s) = Returns w → P t w).
Context (Hcontents : Forall (λ p, type_name (fst p)) (contents s)).

Lemma lower_converters_ok : Forall (conv_ok P) (lower_converters (converters s)).
Proof.
  unfold lower_converters. assert (H0 : Forall (conv_ok P) []) by done. revert H0.
  generalize (@nil (string * conv)). induction Hconv as [|p l Hp Hl IH]; intros m Hm; simpl; [done|].
  apply IH, Forall_assoc_set; done.
Qed.

Lemma pick_type_in dt0 responses first :
  (responses ≠ [] ∨ is_Some first) → Forall (λ p, type_name (fst p)) responses →
  ∃ t, pick_type s dt0 responses first = Some t ∧ (is_Some (assoc t responses) ∨ first = Some t).
Proof.
  intros Hne H. revert first Hne. induction H as [|[t v] l Ht Hl IH]; intros first Hne; simpl.
  - destruct Hne as [?|[t ->]]; [done|]. eauto.
  - destruct (convertible s dt0 t); [exists t; rewrite String.eqb_refl; eauto|].
    destruct Ht as (_ & _ & Ht).
    destruct (IH (or_text first (Some t))) as (u & Hu & Hin).
    { right. unfold or_text. destruct first; [case_match|]; eauto. }
    exists u. split; [done|]. destruct (String.eqb u t) eqn:E; [left; eauto|].
    destruct Hin as [Hin|Hin]; [by left|]. unfold or_text in Hin.
    assert (u ≠ t) by (by apply String.eqb_neq). destruct first; [|congruence].
    case_match; [congruence|by right].
Qed.
Lemma drop_auto_ok dataTypes :
  Forall (λ d, lacks " " d = true) dataTypes →
  Forall (λ d, lacks " " d = true) (drop_auto dataTypes) ∧ head (drop_auto dataTypes) ≠ Some "*"%string.
Proof.
  induction 1 as [|d l Hd Hl IH]; simpl; [done|]. destruct (String.eqb_spec d "*"); [done|].
  split; [by constructor|simpl; congruence].
Qed.
Lemma known_type_ok ct dataTypes :
  Forall (λ d, lacks " " d = true) dataTypes → head dataTypes ≠ Some "*"%string →
  Forall (λ d, lacks " " d = true) (known_type s ct dataTypes) ∧
  head (known_type s ct dataTypes) ≠ Some "*"%string.
Proof.
  intros H1 H2. unfold known_type. destruct ct as [c|]; [|done]. case_match; [done|].
  destruct (List.find _ (contents s)) as [[t m]|] eqn:E; [|done].
  apply List.find_some in E as [E _]. apply list_elem_of_In in E.
  eapply Forall_forall in Hcontents as (H3 & H4 & _); [|exact E]. split; [by constructor|simpl; by intros [= ->]].
Qed.

(** The types asked for: the data types without the automatic ones, behind the type of
    a known content type. *)
Definition requested_types (header : option string) (dataTypes : list string) : list string :=
  known_type s (handle_ct s header dataTypes) (drop_auto dataTypes).
Lemma handle_spec header dataTypes responses :
  Forall (λ d, lacks " " d = true) dataTypes → responses ≠ [] →
  Forall (λ p, type_name (fst p)) responses → assoc "undefined" responses = None →
  ∃ t v rest, ajaxHandleResponses s header dataTypes responses = (t :: rest, Some v) ∧
    assoc t responses = Some v ∧ Forall (λ d, lacks " " d = true) rest ∧
    final_type t rest = final_type t (requested_types header dataTypes) ∧
    (∀ d, head (requested_types header dataTypes) = Some d → is_Some (assoc d responses) → t = d).
Proof.
  intros Hdt Hne Hresp Hundef. unfold ajaxHandleResponses. fold (requested_types header dataTypes).
  assert (Hreq : Forall (λ d, lacks " " d = true) (requested_types header dataTypes)).
  { destruct (drop_auto_ok dataTypes Hdt). by apply known_type_ok. }
  set (req := requested_types header dataTypes) in *.
  assert (Hfin : ∃ t, (if assoc (default "undefined"%string (head req)) responses then head req
                       else pick_type s (head req) responses None) = Some t ∧ is_Some (assoc t responses) ∧
                      (∀ d, head req = Some d → is_Some (assoc d responses) → t = d)).
  { destruct (assoc (default _ (head req)) responses) as [v|] eqn:E.
    - destruct req as [|d l]; simpl in *; [congruence|]. exists d. split; [done|].
      split; [eauto|]. by intros ? [= <-].
    - destruct (pick_type_in (head req) responses None) as (t & Ht & [Hin|]); [by left|done| |done].
      exists t. split; [done|]. split; [done|]. intros d Hd [v Hv]. rewrite Hd in E. simpl in E. congruence. }
  destruct Hfin as (t & -> & [v Hv] & Hd). exists t, v.
  assert (Ht : type_name t) by (apply assoc_elem in Hv; by eapply Forall_forall in Hresp; [|exact Hv]).
  destruct Ht as (Ht1 & Ht2 & Ht3). rewrite (proj2 (String.eqb_neq t "") Ht3), Hv.
  destruct (decide (head req = Some t)) as [E|E].
  - destruct req as [|d l]; [done|]. injection E as ->. exists l. apply Forall_cons in Hreq as [_ Hl].
    simpl. rewrite (proj2 (String.eqb_neq t "") Ht3), (proj2 (String.eqb_neq t "*") Ht2). done.
  - by exists req.
Qed.

(** C25. Data types are kept: when every converter turns values of its source type
    into values of its target type, the data filter keeps the type of its argument and
    every response has the type it is given for, then the request gets an answer of
    [ajaxHandleResponses] and [ajaxConvert] (the loop terminates), a response of the
    requested type is used if there is one, the data of a successful conversion has
    the type the data types ask for in the end, and each response field set on the way
    has the type the field is for. *)
Theorem response_typed header dataTypes responses isSuccess :
  Forall (λ d, lacks " " d = true) dataTypes → responses ≠ [] →
  Forall (λ p, type_name (fst p) ∧ P (fst p) (snd p)) responses →
  assoc "undefined" responses = None →
  let requested := requested_types header dataTypes in
  let '(dataTypes', response) := ajaxHandleResponses s header dataTypes responses in
  ∃ t v fields r,
    response = Some v ∧ assoc t responses = Some v ∧
    (∀ d, head requested = Some d → is_Some (assoc d responses) → t = d) ∧
    ajaxConvert s dataTypes' v isSuccess = Some (fields, r) ∧
    Forall (field_ok P s) fields ∧
    ∀ w, r = CvSuccess w → P (final_type t requested) w.
Proof.
  intros Hdt Hne Hresp Hundef requested.
  assert (Hnames : Forall (λ p, type_name (fst p)) responses).
  { eapply Forall_impl; [exact Hresp|]. by intros p [? _]. }
  destruct (handle_spec header dataTypes responses) as (t & v & rest & -> & Hv & Hrest & Hfin & Hd);
    [done..|]. fold requested in Hfin, Hd.
  assert (Ht : type_name t ∧ P t v).
  { apply assoc_elem in Hv. rewrite Forall_forall in Hresp. exact (Hresp _ Hv). }
  destruct Ht as [(Lt & Hstar & Hnt) HP].
  set (cs := match t :: rest with
             | _ :: u :: _ => if String.eqb u "" then [] else lower_converters (converters s)
             | _ => [] end).
  assert (Hcs : Forall (conv_ok P) cs).
  { unfold cs. destruct rest; [done|]. case_match; [done|]. apply lower_converters_ok. }
  assert (Hfil : filter_ok P s isSuccess true t).
  { intros x w Hx. unfold apply_filter. destruct (dataFilter s) as [f|] eqn:E; [|by intros [= <-]].
    destruct (true && isSuccess); [by apply Hfilter|by intros [= <-]]. }
  destruct (loop_from_enough P cs Hcs s isSuccess rest (convert_fuel (t :: rest)) Hrest
              ltac:(unfold convert_fuel; simpl; lia) t true v [] Lt Hstar Hnt HP Hfil (Forall_nil_2 _))
    as (fields & r & Hloop & Hfields & Hsucc).
  exists t, v, fields, r. rewrite <- Hfin. done.
Qed.
End Response.

(** The default tables with a small JSON parser. *)
Definition demo_json (v : jv) : result :=
  match v with JStr "1" => Returns (JNum 1) | _ => Throws (JStr "SyntaxError") end.
Definition demo_xml (v : jv) : result := Throws (JStr "Invalid XML").
Definition default_settings : ConvSettings :=
  mkConvSettings None default_contents default_responseFields (default_converters demo_json demo_xml)
    None None false.
Definition text_typed (t : string) (v : jv) : Prop :=
  (t = "text"%string ∨ t = "html"%string) → ∃ x, v = JStr x.
Lemma default_converters_ok :
  Forall (λ p, conv_ok text_typed (toLowerCase (fst p), snd p)) (converters default_settings).
Proof.
  repeat (apply Forall_cons; split); [| | | |done].
  - exists "*"%string, "text"%string. split_and!; try done. by intros v _ w [= <-] _; eauto.
  - exists "text"%string, "html"%string. split_and!; try done. intros v [|H] _; [done|]. apply H. by left.
  - exists "text"%string, "json"%string. split_and!; try done; by intros v _ w _ [|].
  - exists "text"%string, "xml"%string. split_and!; try done; by intros v _ w _ [|].
Qed.
Lemma default_contents_ok : Forall (λ p, type_name (fst p)) (contents default_settings).
Proof. by repeat constructor. Qed.
Lemma demo_responses_ok : Forall (λ p, type_name (fst p) ∧ text_typed (fst p) (snd p)) [("text"%string, JStr "1")].
Proof. constructor; [|done]. split; [done|]. intros _. by eexists. Qed.
Lemma response_typed_witness :
  ajaxHandleResponses default_settings (Some "application/json") ["*"%string] [("text"%string, JStr "1")]
  = (["text"; "json"]%string, Some (JStr "1")) ∧
  ajaxConvert default_settings ["text"; "json"]%string (JStr "1") true
  = Some ([("responseText"%string, JStr "1"); ("responseJSON"%string, JNum 1)], CvSuccess (JNum 1)) ∧
  let requested := requested_types default_settings (Some "application/json"%string) ["*"%string] in
  let '(dataTypes', response) :=
    ajaxHandleResponses default_settings (Some "application/json"%string) ["*"%string] [("text"%string, JStr "1")] in
  ∃ t v fields r,
    response = Some v ∧ assoc t [("text"%string, JStr "1")] = Some v ∧
    (∀ d, head requested = Some d → is_Some (assoc d [("text"%string, JStr "1")]) → t = d) ∧
    ajaxConvert default_settings dataTypes' v true = Some (fields, r) ∧
    Forall (field_ok text_typed default_settings) fields ∧
    ∀ w, r = CvSuccess w → text_typed (final_type t requested) w.
Proof.
  split; [reflexivity|]. split; [reflexivity|].
  apply (response_typed text_typed default_settings default_converters_ok
           ltac:(done) default_contents_ok (Some "application/json"%string) ["*"%string]
           [("text"%string, JStr "1")] true); [by repeat constructor|done|apply demo_responses_ok|done].
Defined.

(** ** Properties of the header tables *)
(** The names of the request headers differ by more than their case, and each is
    filed under its lower-case form. *)
Record headers_wf (h : Headers) : Prop := {
  wf_nodup : NoDup (map fst (h_values h));
  wf_filed : ∀ n v, assoc n (h_values h) = Some v → assoc (toLowerCase n) (h_names h) = Some n;
  wf_name : ∀ l n, assoc l (h_names h) = Some n → toLowerCase n = l ∧ is_Some (assoc n (h_values h))
}.
Definition no_headers : Headers := mkHeaders [] [].
Definition put_all (l : list (string * string)) (h : Headers) : Headers :=
  fold_left (λ h p, put_header (fst p) (snd p) h) l h.
(** The header of that name, whatever its case. *)
Definition read_header (n : string) (h : Headers) : option (string * string) :=
  match assoc (toLowerCase n) (h_names h) with
  | Some m => option_map (pair m) (assoc m (h_values h))
  | None => None
  end.

Lemma assoc_set_keys {A} k (v : A) l :
  map fst (assoc_set k v l) = if assoc k l then map fst l else map fst l ++ [k].
Proof.
  induction l as [|[k' w] l IH]; simpl; [done|].
  destruct (String.eqb_spec k k') as [->|]; simpl; [done|]. rewrite IH. by destruct (assoc k l).
Qed.
Lemma assoc_None_keys {A} k (l : list (string * A)) : assoc k l = None → k ∉ map fst l.
Proof.
  induction l as [|[k' w] l IH]; simpl; [intros _; apply not_elem_of_nil|].
  destruct (String.eqb_spec k k'); [done|]. intros H. apply not_elem_of_cons. auto.
Qed.
Lemma assoc_set_NoDup {A} k (v : A) l : NoDup (map fst l) → NoDup (map fst (assoc_set k v l)).
Proof.
  intros H. rewrite assoc_set_keys. destruct (assoc k l) eqn:E; [done|].
  apply NoDup_app. split; [done|]. split; [|by apply NoDup_singleton].
  intros x Hx ->%list_elem_of_singleton. by apply assoc_None_keys in E.
Qed.

(** The name a header is filed under. *)
Definition filed (name : string) (h : Headers) : string :=
  match assoc (toLowerCase name) (h_names h) with
  | Some n => if String.eqb n "" then name else n
  | None => name
  end.
Lemma filed_spec name h :
  headers_wf h →
  toLowerCase (filed name h) = toLowerCase name ∧
  (∀ n, assoc (toLowerCase name) (h_names h) = Some n → filed name h = n).
Proof.
  intros Hwf. unfold filed. destruct (assoc (toLowerCase name) (h_names h)) as [n|] eqn:E; [|done].
  destruct (wf_name h Hwf _ _ E) as [Hn _]. destruct (String.eqb_spec n "") as [->|].
  - destruct name; [|done]. split; [done|]. by intros ? [= <-].
  - split; [done|]. by intros ? [= <-].
Qed.
Lemma put_header_wf name value h : headers_wf h → headers_wf (put_header name value h).
Proof.
  intros Hwf. destruct (filed_spec name h Hwf) as [Hl Hf].
  change (put_header name value h)
    with (mkHeaders (assoc_set (filed name h) value (h_values h))
                    (assoc_set (toLowerCase name) (filed name h) (h_names h))).
  split; simpl.
  - by apply assoc_set_NoDup, Hwf.
  - intros n v Hn. destruct (decide (n = filed name h)) as [->|Hne].
    + by rewrite Hl, assoc_set_eq.
    + rewrite assoc_set_ne in Hn by done. pose proof (wf_filed h Hwf _ _ Hn) as E.
      rewrite assoc_set_ne; [done|]. intros E'. rewrite E' in E. apply Hf in E. congruence.
  - intros l n Hn. destruct (decide (l = toLowerCase name)) as [->|Hne].
    + rewrite assoc_set_eq in Hn. injection Hn as <-. by rewrite assoc_set_eq.
    + rewrite assoc_set_ne in Hn by done. destruct (wf_name h Hwf _ _ Hn) as [<- Hs]. split; [done|].
      destruct (decide (n = filed name h)) as [->|]; [by rewrite assoc_set_eq|by rewrite assoc_set_ne].
Qed.
Lemma read_put name value n h :
  headers_wf h →
  read_header n (put_header name value h) =
  if String.eqb (toLowerCase n) (toLowerCase name)
  then Some (filed name h, value) else read_header n h.
Proof.
  intros Hwf. destruct (filed_spec name h Hwf) as [Hl Hf]. unfold read_header.
  change (put_header name value h)
    with (mkHeaders (assoc_set (filed name h) value (h_values h))
                    (assoc_set (toLowerCase name) (filed name h) (h_names h))). simpl.
  destruct (String.eqb_spec (toLowerCase n) (toLowerCase name)) as [->|Hne].
  - by rewrite assoc_set_eq, assoc_set_eq.
  - rewrite assoc_set_ne by done. destruct (assoc (toLowerCase n) (h_names h)) as [m|] eqn:E; [|done].
    rewrite assoc_set_ne; [done|]. intros ->. apply (wf_name h Hwf) in E as [E _]. congruence.
Qed.
Lemma put_all_wf l h : headers_wf h → headers_wf (put_all l h).
Proof. revert h. induction l as [|p l IH]; intros h Hh; [done|]. apply IH. by apply put_header_wf. Qed.
Lemma no_headers_wf : headers_wf no_headers.
Proof. split; [constructor|done|done]. Qed.
Lemma put_all_snoc l p h : put_all (l ++ [p]) h = put_header (fst p) (snd p) (put_all l h).
Proof. unfold put_all. by rewrite fold_left_app. Qed.

Definition same_name (n : string) (p : string * string) : bool := equalsIgnoreCase n (fst p).
Definition first_name (n : string) (l : list (string * string)) : option string :=
  option_map fst (findFirst (same_name n) l).
Definition last_value (n : string) (l : list (string * string)) : option string :=
  option_map snd (findFirst (same_name n) (rev l)).

Lemma first_name_snoc n l p :
  first_name n (l ++ [p]) = or_else (first_name n l) (if same_name n p then Some (fst p) else None).
Proof.
  unfold first_name. rewrite findFirst_app. destruct (findFirst _ l); [done|]. simpl. by destruct (same_name n p).
Qed.
Lemma last_value_snoc n l p :
  last_value n (l ++ [p]) = if same_name n p then Some (snd p) else last_value n l.
Proof. unfold last_value. rewrite rev_app_distr. simpl. by destruct (same_name n p). Qed.
Lemma read_header_filed n name h :
  headers_wf h → toLowerCase n = toLowerCase name →
  Some (filed name h) = or_else (option_map fst (read_header n h)) (Some name).
Proof.
  intros Hwf E. destruct (filed_spec name h Hwf) as [_ Hf]. unfold read_header. rewrite E.
  destruct (assoc (toLowerCase name) (h_names h)) as [m|] eqn:Em.
  - destruct (wf_name h Hwf _ _ Em) as [_ [v Hv]]. rewrite Hv. simpl. by rewrite (Hf m eq_refl).
  - unfold filed. by rewrite Em.
Qed.
Lemma read_header_spec l n :
  option_map fst (read_header n (put_all l no_headers)) = first_name n l ∧
  option_map snd (read_header n (put_all l no_headers)) = last_value n l.
Proof.
  induction l as [|p l [IH1 IH2]] using rev_ind; [done|].
  pose proof (put_all_wf l _ no_headers_wf) as Hwf.
  rewrite put_all_snoc, read_put, first_name_snoc, last_value_snoc by done.
  unfold same_name, equalsIgnoreCase. destruct (String.eqb_spec (toLowerCase n) (toLowerCase (fst p))) as [E|E].
  - rewrite <- IH1. split; [|done]. simpl. by apply read_header_filed.
  - rewrite IH1. split; [|done]. by destruct (first_name n l).
Qed.

(** Request headers are case-insensitive: after any sequence of [setRequestHeader]
    calls no two headers differ only by case, and the header of a name is spelled as
    in the first call for it and has the value of the last one. *)
Theorem request_headers_ci (l : list (string * string)) :
  let h := put_all l no_headers in
  (∀ i j p q, h_values h !! i = Some p → h_values h !! j = Some q →
     toLowerCase (fst p) = toLowerCase (fst q) → i = j) ∧
  ∀ n, option_map fst (read_header n h) = first_name n l ∧
       option_map snd (read_header n h) = last_value n l.
Proof.
  intros h. pose proof (put_all_wf l _ no_headers_wf) as Hwf. fold h in Hwf. split.
  - intros i j [a v] [b w] Hi Hj E. simpl in E.
    assert (Ha : ∀ k x y, h_values h !! k = Some (x, y) → assoc (toLowerCase x) (h_names h) = Some x).
    { intros k x y Hk. apply list_elem_of_lookup_2 in Hk. destruct (assoc_in _ _ _ Hk) as [z Hz].
      by apply (wf_filed h Hwf) in Hz. }
    pose proof (Ha _ _ _ Hi) as E1. pose proof (Ha _ _ _ Hj) as E2. rewrite E, E2 in E1. injection E1 as ->.
    eapply (NoDup_lookup (map fst (h_values h))); [apply Hwf| |]; rewrite list_lookup_fmap.
    + by rewrite Hi.
    + by rewrite Hj.
  - intros n. apply read_header_spec.
Qed.
Lemma request_headers_ci_witness :
  let l := [("Content-Type", "text/plain"); ("accept", "*/*"); ("content-type", "text/html")]%string in
  let h := put_all l no_headers in
  h_values h = [("Content-Type", "text/html"); ("accept", "*/*")]%string ∧
  ((∀ i j p q, h_values h !! i = Some p → h_values h !! j = Some q →
     toLowerCase (fst p) = toLowerCase (fst q) → i = j) ∧
   ∀ n, option_map fst (read_header n h) = first_name n l ∧
        option_map snd (read_header n h) = last_value n l).
Proof. intros l h. split; [reflexivity|]. apply (request_headers_ci l). Defined.

(** ** Reading response headers back *)
Definition crlf_end : string := String CR (String LF "").
Definition header_text (p : string * string) : string := (fst p ++ ": " ++ snd p)%string.
Fixpoint header_block (l : list (string * string)) : string :=
  match l with [] => "" | p :: l' => header_text p ++ crlf_end ++ header_block l' end.
Definition one_line : string → bool := str_forall (λ c, negb (is_newline c)).
Definition header_pair (p : string * string) : Prop :=
  lacks ":" (fst p) = true ∧ one_line (fst p) = true ∧ one_line (snd p) = true ∧
  drop_blank (snd p) = snd p.

Lemma lines_from_app cur a s :
  one_line a = true → lines_from cur (a ++ s) = lines_from (cur ++ a) s.
Proof.
  unfold one_line. revert cur. induction a as [|c a IH]; intros cur H; [by rewrite str_app_nil_r|].
  simpl in H. apply andb_true_iff in H as [Hc Ha]. apply negb_true_iff in Hc.
  rewrite str_app_cons. cbn [lines_from]. rewrite Hc, IH by done. by rewrite str_app_assoc.
Qed.
Lemma header_line_text p : header_pair p → header_line (header_text p) = Some p.
Proof.
  destruct p as [k v]. intros (H1 & _ & _ & H4). simpl in H1, H4. unfold header_line, header_text. cbn [fst snd].
  assert (E : (": " ++ v)%string = String ":" (String " " v)) by done.
  rewrite E, split_on_first by done. destruct (split_on_cons ":" (String " " v)) as (w & l & Hs).
  rewrite Hs. assert (Ej : join ":" (w :: l) = String " " v) by (rewrite <- Hs; apply (join_split ":")).
  rewrite Ej. cbn [drop_blank]. change (code " " =? 32) with true. cbn [orb].
  by rewrite H4.
Qed.
Lemma lines_block l :
  Forall header_pair l → omap header_line (lines_from "" (header_block l)) = l.
Proof.
  induction 1 as [|p l Hp Hl IH]; [done|]. cbn [header_block].
  destruct Hp as (H1 & H2 & H3 & H4).
  assert (Hone : one_line (header_text p) = true).
  { unfold one_line, header_text in *. by rewrite !str_forall_app, H2, H3. }
  rewrite lines_from_app, str_app_nil_l by done. unfold crlf_end. rewrite !str_app_cons, str_app_nil_l.
  cbn [lines_from]. change (is_newline CR) with true. change (is_newline LF) with true.
  cbn [omap list_omap]. rewrite (header_line_text p) by done.
  change (header_line "") with (@None (string * string)). cbn. by rewrite IH.
Qed.
Definition header_values (key : string) (l : list (string * string)) : list string :=
  map snd (List.filter (same_name key) l).
Lemma fold_add_header key l m :
  default [] (assoc (toLowerCase key ++ " ")%string (fold_left add_header l m)) =
  default [] (assoc (toLowerCase key ++ " ")%string m) ++ header_values key l.
Proof.
  revert m. induction l as [|p l IH]; intros m; simpl; [by rewrite app_nil_r|].
  rewrite IH. unfold header_values. simpl. unfold add_header, same_name, equalsIgnoreCase.
  destruct (String.eqb_spec (toLowerCase key) (toLowerCase (fst p))) as [->|E].
  - rewrite assoc_set_eq. simpl. by rewrite <- app_assoc.
  - rewrite assoc_set_ne; [done|]. by intros ?%str_app_inj_r.
Qed.
Lemma add_header_nonempty l m :
  Forall (λ p, snd p ≠ []) m → Forall (λ p, snd p ≠ []) (fold_left add_header l m).
Proof.
  revert m. induction l as [|p l IH]; intros m Hm; simpl; [done|]. apply IH.
  apply Forall_assoc_set; [|done]. simpl. intros H.
  apply (f_equal length) in H. rewrite length_app in H. simpl in H. lia.
Qed.

(** Reading back a block of response headers, as the transports give it:
    [getResponseHeader] answers the values of all headers with that name in any case,
    in order and joined by commas, and nothing when there are none. *)
Theorem response_headers_read (l : list (string * string)) (key : string) :
  Forall header_pair l →
  header_value (parse_headers (header_block l)) key =
  match header_values key l with [] => None | vs => Some (join ", " vs) end.
Proof.
  intros Hl. unfold parse_headers. rewrite lines_block by done. unfold header_value.
  pose proof (fold_add_header key l []) as H. simpl in H.
  pose proof (add_header_nonempty l [] ltac:(done)) as Hne.
  destruct (assoc _ (fold_left add_header l [])) as [vs|] eqn:E; simpl in H.
  - apply assoc_elem in E. rewrite Forall_forall in Hne. specialize (Hne _ E). simpl in Hne.
    rewrite <- H. by destruct vs.
  - by rewrite <- H.
Qed.
Lemma response_headers_read_witness :
  let l := [("Set-Cookie", "a=1"); ("ETag", "x:y"); ("set-cookie", "b")]%string in
  header_value (parse_headers (header_block l)) "SET-COOKIE" = Some "a=1, b"%string ∧
  header_value (parse_headers (header_block l)) "SET-COOKIE" =
  match header_values "SET-COOKIE" l with [] => None | vs => Some (join ", " vs) end.
Proof.
  intros l. split; [reflexivity|]. apply (response_headers_read l). by repeat (constructor; [by split_and!|]).
Defined.
