(* ===== verification/JqUrl.v ===== *)
(** * URLs and bodies of requests

    Model of the part of [jQuery.ajax] that builds the URL that is requested, the URL
    under which modification dates are kept and the body (jquery-3.5.1.js lines
    9568-9607), with the regular expressions it uses. *)
From Stdlib Require Import ZArith Lia Ascii String.
From stdpp Require Import base strings list.
From S2P Require Import Prelude.
From S2P Require Import JsString.
From S2P Require Import JqParam.
From S2P Require Import JqConvert.

(** ** Regular expressions *)
(** [url.replace( rhash, "" )] *)
Fixpoint strip_hash (s : string) : string :=
  match s with
  | EmptyString => EmptyString
  | String c t => if Ascii.eqb c "#"%char && one_line t then EmptyString else String c (strip_hash t)
  end.
(** [rquery.test( url )] *)
Definition rquery (s : string) : bool := negb (lacks "?" s).
Fixpoint drop_until (c : ascii) (s : string) : string :=
  match s with
  | String a t => if Ascii.eqb a c then s else drop_until c t
  | EmptyString => EmptyString
  end.
(** [url.replace( rantiCache, "$1" )] *)
Fixpoint strip_anti (s : string) : string :=
  match s with
  | EmptyString => EmptyString
  | String c t =>
      if (Ascii.eqb c "?"%char || Ascii.eqb c "&"%char) && String.prefix "_=" t
      then String c (drop_until "&" (str_drop 2 t)) else String c (strip_anti t)
  end.
(** [url.replace( rprotocol, location.protocol + "//" )] *)
Definition rprotocol (protocol url : string) : string :=
  if String.prefix "//" url then (protocol ++ "//" ++ str_drop 2 url)%string else url.
(** [rnoContent.test( type )] *)
Definition rnoContent (type : string) : bool := String.eqb type "GET" || String.eqb type "HEAD".

(** ** The data of a request: none, a string, or an object by its string form *)
Inductive jdata := NoData | TextData (s : string) | RawData (text : string).
Definition data_truthy (d : jdata) : bool :=
  match d with NoData => false | TextData s => negb (String.eqb s "") | RawData _ => true end.
Definition is_text (d : jdata) : bool := match d with TextData _ => true | _ => false end.
Definition data_text (d : jdata) : string :=
  match d with NoData => "" | TextData s => s | RawData s => s end.
Definition form_type : string := "application/x-www-form-urlencoded".
Definition separator (url : string) : string := if rquery url then "&" else "?".

(** The URL to request, the URL without hash and anti-cache parameter, the data that is
    left to send and the next value of [nonce.guid]. *)
Record UrlParts := mkUrlParts { u_url : string; u_cacheURL : string; u_data : jdata; u_guid : nat }.
Definition build_url (url : string) (hasContent processData cacheFalse : bool) (data : jdata)
    (contentType : option string) (guid : nat) : UrlParts :=
  let cacheURL := strip_hash url in
  if negb hasContent then
    let uncached := str_drop (str_length cacheURL) url in
    let '(cacheURL, data) :=
      if data_truthy data && (processData || is_text data)
      then (cacheURL ++ separator cacheURL ++ data_text data, NoData)%string
      else (cacheURL, data) in
    let '(cacheURL, uncached, guid) :=
      if cacheFalse then
        let cacheURL := strip_anti cacheURL in
        (cacheURL, separator cacheURL ++ "_=" ++ indexString guid ++ uncached, S guid)%string
      else (cacheURL, uncached, guid) in
    mkUrlParts (cacheURL ++ uncached) cacheURL data guid
  else
    let data :=
      if data_truthy data && processData && String.prefix form_type (default ""%string contentType)
      then TextData (r20_plus (data_text data)) else data in
    mkUrlParts url cacheURL data guid.

(** ** Lemmas *)
Lemma encode_char_lacks_hash c : lacks "#" (encode_char c) = true.
Proof. by ascii_cases c. Qed.
Lemma encode_char_one_line c : one_line (encode_char c) = true.
Proof. by ascii_cases c. Qed.
(** Every pair of a query string is free of the characters [ok] excludes. *)
Lemma pair_forall (p : ascii → bool) kv :
  (∀ c, str_forall p (encode_char c) = true) → p "="%char = true → str_forall p (add_pair kv) = true.
Proof.
  intros H He. unfold add_pair, encodeURIComponent.
  assert (F : ∀ s, str_forall p (str_flat encode_char s) = true).
  { induction s as [|c s IH]; simpl; [done|]. by rewrite str_forall_app, H, IH. }
  rewrite !str_forall_app, !F. simpl. by rewrite He.
Qed.
Lemma join_forall (p : ascii → bool) (l : list (string * string)) :
  (∀ c, str_forall p (encode_char c) = true) → p "="%char = true → p "&"%char = true →
  str_forall p (join "&" (map add_pair l)) = true.
Proof.
  intros H He Ha. induction l as [|kv l IH]; [done|]. destruct l as [|kv' l].
  - cbn. by apply pair_forall.
  - rewrite join_cons2, str_forall_app, pair_forall by done. cbn [andb str_forall]. by rewrite Ha, IH.
Qed.
Lemma strip_hash_base (base hash : string) :
  lacks "#" base = true →
  (hash = ""%string ∨ ∃ t, hash = String "#" t ∧ one_line t = true) →
  strip_hash (base ++ hash) = base.
Proof.
  unfold lacks. intros Hb Hh. induction base as [|c base IH]; simpl in Hb.
  - rewrite str_app_nil_l. destruct Hh as [->|(t & -> & Ht)]; [done|]. cbn [strip_hash]. by rewrite Ht.
  - apply andb_true_iff in Hb as [Hc Hb]. apply negb_true_iff in Hc.
    rewrite str_app_cons. cbn [strip_hash]. by rewrite Hc, IH.
Qed.
Lemma str_drop_app (a b : string) : str_drop (str_length a) (a ++ b) = b.
Proof. induction a as [|c a IH]; [by destruct b|]. rewrite str_app_cons. exact IH. Qed.

(** [rantiCache] finds nothing where no parameter is named [_]. *)
Definition not_sep (c : ascii) : bool := negb (Ascii.eqb c "?" || Ascii.eqb c "&").
Lemma strip_anti_pass a s : str_forall not_sep a = true → strip_anti (a ++ s) = (a ++ strip_anti s)%string.
Proof.
  induction a as [|c a IH]; intros H; simpl in H; [by rewrite !str_app_nil_l|].
  apply andb_true_iff in H as [Hc Ha]. unfold not_sep in Hc. apply negb_true_iff in Hc.
  rewrite !str_app_cons. cbn [strip_anti]. by rewrite Hc, IH.
Qed.
Lemma strip_anti_id a : str_forall not_sep a = true → strip_anti a = a.
Proof. intros H. pose proof (strip_anti_pass a "" H) as E. by rewrite !str_app_nil_r in E. Qed.
Lemma encode_char_not_sep c : str_forall not_sep (encode_char c) = true.
Proof. by ascii_cases c. Qed.
Lemma encode_char_head c t :
  ∃ a u, (encode_char c ++ t)%string = String a u ∧ Ascii.eqb a "=" = false ∧
         (Ascii.eqb a "_" = true → c = "_"%char ∧ u = t).
Proof.
  exists (match encode_char c with String a _ => a | _ => c end),
         ((match encode_char c with String _ u => u | _ => "" end) ++ t)%string.
  split; [by ascii_cases c|]. split; [by ascii_cases c|].
  ascii_cases c; vm_compute; intros E; try discriminate. done.
Qed.
Lemma prefix_String a b s t : String.prefix (String a s) (String b t) = Ascii.eqb a b && String.prefix s t.
Proof. simpl. destruct (ascii_dec a b) as [->|H]; [by rewrite Ascii.eqb_refl|]. by rewrite (proj2 (Ascii.eqb_neq a b) H). Qed.
Lemma pair_not_anti kv t : fst kv ≠ "_"%string → String.prefix "_=" (add_pair kv ++ t) = false.
Proof.
  destruct kv as [k v]. unfold add_pair, encodeURIComponent. cbn [fst snd]. intros Hk.
  rewrite !str_app_assoc. destruct k as [|c k]; [done|]. cbn [str_flat]. rewrite str_app_assoc.
  destruct (encode_char_head c (str_flat encode_char k ++ "=" ++ str_flat encode_char v ++ t))
    as (a & u & -> & _ & Ha). rewrite prefix_String.
  destruct (Ascii.eqb "_" a) eqn:E; [|done]. rewrite Ascii.eqb_sym in E. destruct (Ha E) as [-> ->].
  destruct k as [|c' k]; [done|]. cbn [str_flat andb]. rewrite str_app_assoc.
  destruct (encode_char_head c' (str_flat encode_char k ++ "=" ++ str_flat encode_char v ++ t))
    as (a' & u' & -> & Ha' & _). by rewrite prefix_String, Ascii.eqb_sym, Ha'.
Qed.
Definition no_underscore (l : list (string * string)) : Prop := Forall (λ kv, fst kv ≠ "_"%string) l.
Lemma add_pair_not_sep kv : str_forall not_sep (add_pair kv) = true.
Proof. apply pair_forall; [apply encode_char_not_sep|done]. Qed.
Lemma strip_anti_pairs c l :
  no_underscore l → strip_anti (String c (join "&" (map add_pair l))) = String c (join "&" (map add_pair l)).
Proof.
  intros H. revert c. induction H as [|kv l Hkv Hl IH]; intros c.
  { cbn. by rewrite andb_false_r. }
  destruct l as [|kv' l].
  - cbn [map]. change (join "&" [add_pair kv]) with (add_pair kv).
    rewrite <- (str_app_nil_r (add_pair kv)). cbn [strip_anti].
    rewrite pair_not_anti, andb_false_r, strip_anti_pass by (done || apply add_pair_not_sep). done.
  - rewrite join_cons2. cbn [strip_anti].
    rewrite pair_not_anti, andb_false_r, strip_anti_pass by (done || apply add_pair_not_sep).
    by rewrite IH.
Qed.

(** The anti-cache parameter is an encoded pair. *)
Lemma chr_digit n : n < 10 → is_digit (chr (48 + n)) = true.
Proof. intros H. do 10 (destruct n as [|n]; [done|]). lia. Qed.
Lemma decimal_digits fuel n : str_forall is_digit (decimal fuel n) = true.
Proof.
  revert n. induction fuel as [|f IH]; intros n; [done|]. cbn [decimal].
  rewrite str_forall_app. cbn [str_forall].
  rewrite chr_digit by (apply Nat.mod_upper_bound; lia). destruct (n <? 10); [done|]. by rewrite IH.
Qed.
Lemma encode_digits s : str_forall is_digit s = true → encodeURIComponent s = s.
Proof.
  unfold encodeURIComponent. induction s as [|c s IH]; simpl; [done|]. intros [Hc Hs]%andb_true_iff.
  rewrite IH by done. unfold encode_char, is_unreserved. by rewrite Hc, !orb_true_r.
Qed.
Definition anti_pair (guid : nat) : string * string := ("_"%string, indexString guid).
Lemma add_anti_pair guid : add_pair (anti_pair guid) = ("_=" ++ indexString guid)%string.
Proof. unfold add_pair, anti_pair. cbn [fst snd]. by rewrite (encode_digits (indexString guid)) by apply decimal_digits. Qed.
Lemma join_snoc (l : list (string * string)) kv :
  l ≠ [] → join "&" (map add_pair (l ++ [kv])) = (join "&" (map add_pair l) ++ "&" ++ add_pair kv)%string.
Proof.
  induction l as [|a l IH]; [done|]. intros _. destruct l as [|b l]; [done|].
  cbn [app]. rewrite !join_cons2, str_app_assoc. cbn [app] in IH. rewrite IH by done. done.
Qed.
Lemma lacks_rquery s : lacks "?" s = true → rquery s = false.
Proof. unfold rquery. by intros ->. Qed.
Lemma rquery_app a t : rquery (a ++ String "?" t) = true.
Proof. unfold rquery, lacks. by rewrite str_forall_app, andb_false_r. Qed.
Lemma not_sep_base base : lacks "?" base = true → lacks "&" base = true → str_forall not_sep base = true.
Proof.
  unfold lacks, not_sep. induction base as [|c b IH]; simpl; [done|].
  intros [H1 H2]%andb_true_iff [H3 H4]%andb_true_iff. rewrite negb_orb, H1, H3. by apply IH.
Qed.
Lemma param_empty l : String.eqb (join "&" (map add_pair l)) "" = true → l = [].
Proof.
  intros H%String.eqb_eq. destruct l as [|p l]; [done|]. exfalso. revert H.
  apply join_nonempty; [done|]. apply Forall_map, Forall_forall. intros. apply (code_pair_nonempty encode_char).
Qed.

(** What a request without content asks for: the page, the query that carries the
    data and the anti-cache parameter, the hash at the end. *)
Definition with_query (base query hash : string) : string :=
  if String.eqb query "" then (base ++ hash)%string else (base ++ "?" ++ query ++ hash)%string.
Definition sent_pairs (a : paramArg) (traditional cacheFalse : bool) (guid : nat) : list (string * string) :=
  param_pairs a traditional ++ (if cacheFalse then [anti_pair guid] else []).

(** The data of a GET or HEAD request travels in the query of its URL: for a page
    without query and any hash, the URL requested is the page, then a query that a
    server reads as exactly the pairs of the data (and the anti-cache parameter, when
    caching is off), then the hash; nothing is left to send as a body. *)
Theorem get_url_carries_data base hash a traditional cacheFalse contentType guid :
  lacks "#" base = true → lacks "?" base = true → lacks "&" base = true →
  (hash = ""%string ∨ ∃ t, hash = String "#" t ∧ one_line t = true) →
  no_underscore (param_pairs a traditional) →
  let u := build_url (base ++ hash) false true cacheFalse (TextData (param a traditional)) contentType guid in
  ∃ query,
    u_url u = with_query base query hash ∧ lacks "#" query = true ∧
    decode_query query = sent_pairs a traditional cacheFalse guid ∧
    data_truthy (u_data u) = false ∧ u_guid u = (if cacheFalse then S guid else guid).
Proof.
  intros H1 H2 H3 Hhash Hund u. exists (join "&" (map add_pair (sent_pairs a traditional cacheFalse guid))).
  split; [|split; [by apply join_forall; [apply encode_char_lacks_hash|done|done]|]].
  2: { split; [apply (decode_query_code encode_char)|]. subst u. unfold build_url. cbn [negb data_truthy].
       destruct (String.eqb (param a traditional) "") eqn:E, cacheFalse; simpl; rewrite ?E; done. }
  assert (Hb : str_forall not_sep base = true) by by apply not_sep_base.
  subst u. unfold build_url. cbn [negb is_text data_text orb andb]. rewrite andb_true_r.
  rewrite strip_hash_base by done. rewrite str_drop_app. unfold data_truthy, with_query, sent_pairs, param.
  set (l := param_pairs a traditional) in *.
  destruct (String.eqb (join "&" (map add_pair l)) "") eqn:E; cbn [negb].
  - apply param_empty in E. rewrite E. destruct cacheFalse; [|reflexivity]. cbn [app map].
    rewrite strip_anti_id by done.
    cbn [u_url]. unfold separator. rewrite lacks_rquery by done.
    change (join "&" [add_pair (anti_pair guid)]) with (add_pair (anti_pair guid)).
    rewrite add_anti_pair. cbn. by rewrite !str_app_cons.
  - assert (Hl : l ≠ []) by (intros ->; done).
    assert (Hs : separator base = "?"%string) by (unfold separator; by rewrite lacks_rquery).
    rewrite Hs. destruct cacheFalse; cbn [u_url].
    + rewrite str_app_cons, str_app_nil_l, strip_anti_pass, strip_anti_pairs by done.
      unfold separator. rewrite rquery_app, join_snoc, add_anti_pair by done.
      destruct (String.eqb_spec (join "&" (map add_pair l) ++ "&" ++ "_=" ++ indexString guid) "") as [E'|_].
      { apply (f_equal str_length) in E'. rewrite !str_app_length in E'. simpl in E'. lia. }
      rewrite !str_app_assoc. done.
    + rewrite app_nil_r, E. by rewrite !str_app_assoc.
Qed.
Lemma get_url_carries_data_witness :
  let a := AObject [("q"%string, PText "a b&c")] in
  let u := build_url ("/find" ++ "#top") false true true (TextData (param a false)) None 7 in
  u_url u = "/find?q=a%20b%26c&_=7#top"%string ∧
  ∃ query,
    u_url u = with_query "/find" query "#top" ∧ lacks "#" query = true ∧
    decode_query query = sent_pairs a false true 7 ∧ data_truthy (u_data u) = false ∧ u_guid u = 8.
Proof.
  intros a u. split; [reflexivity|].
  apply (get_url_carries_data "/find" "#top" a false true None 7);
    [reflexivity|reflexivity|reflexivity|right; exists "top"%string; split; reflexivity|].
  constructor; [discriminate|constructor].
Defined.
