(* ===== verification/JqAjax.v ===== *)
(** * The life of a request

    Model of [jQuery.ajax] (jquery-3.5.1.js lines 9039-9097 and 9377-9814): prefilters
    and transports, the [jqXHR] object and its methods, the steps from the settings to
    [transport.send], the completion callback [done] and what can happen to a request
    afterwards.  User code (prefilters, [beforeSend], the handlers of global events, the
    callbacks of the deferred) is arbitrary: at each point where it runs it makes an
    arbitrary sequence of calls on the [jqXHR] object, may change the options and
    returns or throws.  A transport is given by the completions it makes when it is
    sent or aborted; later completions, time-outs and calls are steps. *)
From Stdlib Require Import ZArith Lia Ascii String.
From stdpp Require Import base strings list relations.
From S2P Require Import Prelude.
From S2P Require Import JsString.
From S2P Require Import JqParam.
From S2P Require Import JqConvert.
From S2P Require Import JqUrl.

(** ** Registration of prefilters and transports *)
Definition structure := list (string * list nat).
Definition add_one_type (func : nat) (m : structure) (dataType : string) : structure :=
  match dataType with
  | String "+" t =>
      let t := if String.eqb t "" then "*"%string else t in
      assoc_set t (func :: default [] (assoc t m)) m
  | _ => assoc_set dataType (default [] (assoc dataType m) ++ [func]) m
  end.
(** [func]: the function, if it is one; a missing expression is ["*"]. *)
Definition addToPrefiltersOrTransports (m : structure) (expr : option string) (func : option nat) : structure :=
  match func with
  | None => m
  | Some f => fold_left (add_one_type f) (htmlwords (toLowerCase (default "*"%string expr))) m
  end.

(** ** The request *)
Record Response := mkResponse {
  r_status : Z; r_text : jv; r_responses : option (list (string * jv)); r_headers : option string
}.
(** What a transport completes, and throws, at once when it is sent or aborted. *)
Record Transport := mkTransport {
  t_send : list (string * string) → list Response * option jv;
  t_abort : string → list Response
}.
Record Opts := mkOpts {
  o_url : string; o_type : string; o_dataTypes : list string; o_data : jdata; o_processData : bool;
  o_contentType : option string; o_cacheFalse : bool; o_ifModified : bool;
  o_headers : list (string * string); o_accepts : list (string * string);
  o_global : bool; o_async : bool; o_timeout : Z; o_beforeSend : bool; o_contentTypeGiven : bool;
  o_conv : ConvSettings
}.
Definition set_dataTypes (v : list string) (o : Opts) : Opts :=
  mkOpts (o_url o) (o_type o) v (o_data o) (o_processData o) (o_contentType o) (o_cacheFalse o)
    (o_ifModified o) (o_headers o) (o_accepts o) (o_global o) (o_async o) (o_timeout o) (o_beforeSend o)
    (o_contentTypeGiven o) (o_conv o).
Definition set_conv (v : ConvSettings) (o : Opts) : Opts :=
  mkOpts (o_url o) (o_type o) (o_dataTypes o) (o_data o) (o_processData o) (o_contentType o) (o_cacheFalse o)
    (o_ifModified o) (o_headers o) (o_accepts o) (o_global o) (o_async o) (o_timeout o) (o_beforeSend o)
    (o_contentTypeGiven o) v.
Definition set_target (url type : string) (data : jdata) (o : Opts) : Opts :=
  mkOpts url type (o_dataTypes o) data (o_processData o) (o_contentType o) (o_cacheFalse o)
    (o_ifModified o) (o_headers o) (o_accepts o) (o_global o) (o_async o) (o_timeout o) (o_beforeSend o)
    (o_contentTypeGiven o) (o_conv o).
Definition set_contentType (v : option string) (o : Opts) : Opts :=
  mkOpts (o_url o) (o_type o) (o_dataTypes o) (o_data o) (o_processData o) v (o_cacheFalse o)
    (o_ifModified o) (o_headers o) (o_accepts o) (o_global o) (o_async o) (o_timeout o) (o_beforeSend o)
    (o_contentTypeGiven o) (o_conv o).
(** The prefilter jQuery installs for all types: a header overrides the content type. *)
Definition content_type_prefilter (o : Opts) : Opts :=
  fold_left (λ o p, if String.eqb (toLowerCase (fst p)) "content-type" then set_contentType (Some (snd p)) o else o)
    (o_headers o) o.
(** The variables of a call of [ajax] and its [jqXHR] object. *)
Record Req := mkReq {
  opts : Opts;
  completed : option bool;
  transport : option Transport;
  timer : bool;
  responseHeadersString : string;
  readyState : Z;
  status : Z;
  statusText : string;
  requestHeaders : Headers;
  statusMap : list (Z * list nat);
  strAbort : string;
  cacheURL : string;
  xhrFields : list (string * jv);
  fireGlobals : bool
}.
Definition set_opts (v : Opts) (r : Req) : Req :=
    mkReq v (completed r) (transport r) (timer r) (responseHeadersString r) (readyState r) (status
    r) (statusText r) (requestHeaders r) (statusMap r) (strAbort r) (cacheURL r) (xhrFields r)
    (fireGlobals r).
Definition set_completed (v : option bool) (r : Req) : Req :=
    mkReq (opts r) v (transport r) (timer r) (responseHeadersString r) (readyState r) (status r)
    (statusText r) (requestHeaders r) (statusMap r) (strAbort r) (cacheURL r) (xhrFields r)
    (fireGlobals r).
Definition set_transport (v : option Transport) (r : Req) : Req :=
    mkReq (opts r) (completed r) v (timer r) (responseHeadersString r) (readyState r) (status r)
    (statusText r) (requestHeaders r) (statusMap r) (strAbort r) (cacheURL r) (xhrFields r)
    (fireGlobals r).
Definition set_timer (v : bool) (r : Req) : Req :=
    mkReq (opts r) (completed r) (transport r) v (responseHeadersString r) (readyState r) (status r)
    (statusText r) (requestHeaders r) (statusMap r) (strAbort r) (cacheURL r) (xhrFields r)
    (fireGlobals r).
Definition set_responseHeadersString (v : string) (r : Req) : Req :=
    mkReq (opts r) (completed r) (transport r) (timer r) v (readyState r) (status r) (statusText r)
    (requestHeaders r) (statusMap r) (strAbort r) (cacheURL r) (xhrFields r) (fireGlobals r).
Definition set_readyState (v : Z) (r : Req) : Req :=
    mkReq (opts r) (completed r) (transport r) (timer r) (responseHeadersString r) v (status r)
    (statusText r) (requestHeaders r) (statusMap r) (strAbort r) (cacheURL r) (xhrFields r)
    (fireGlobals r).
Definition set_status (v : Z) (r : Req) : Req :=
    mkReq (opts r) (completed r) (transport r) (timer r) (responseHeadersString r) (readyState r) v
    (statusText r) (requestHeaders r) (statusMap r) (strAbort r) (cacheURL r) (xhrFields r)
    (fireGlobals r).
Definition set_statusText (v : string) (r : Req) : Req :=
    mkReq (opts r) (completed r) (transport r) (timer r) (responseHeadersString r) (readyState r)
    (status r) v (requestHeaders r) (statusMap r) (strAbort r) (cacheURL r) (xhrFields r)
    (fireGlobals r).
Definition set_requestHeaders (v : Headers) (r : Req) : Req :=
    mkReq (opts r) (completed r) (transport r) (timer r) (responseHeadersString r) (readyState r)
    (status r) (statusText r) v (statusMap r) (strAbort r) (cacheURL r) (xhrFields r) (fireGlobals
    r).
Definition set_statusMap (v : list (Z * list nat)) (r : Req) : Req :=
    mkReq (opts r) (completed r) (transport r) (timer r) (responseHeadersString r) (readyState r)
    (status r) (statusText r) (requestHeaders r) v (strAbort r) (cacheURL r) (xhrFields r)
    (fireGlobals r).
Definition set_strAbort (v : string) (r : Req) : Req :=
    mkReq (opts r) (completed r) (transport r) (timer r) (responseHeadersString r) (readyState r)
    (status r) (statusText r) (requestHeaders r) (statusMap r) v (cacheURL r) (xhrFields r)
    (fireGlobals r).
Definition set_cacheURL (v : string) (r : Req) : Req :=
    mkReq (opts r) (completed r) (transport r) (timer r) (responseHeadersString r) (readyState r)
    (status r) (statusText r) (requestHeaders r) (statusMap r) (strAbort r) v (xhrFields r)
    (fireGlobals r).
Definition set_xhrFields (v : list (string * jv)) (r : Req) : Req :=
    mkReq (opts r) (completed r) (transport r) (timer r) (responseHeadersString r) (readyState r)
    (status r) (statusText r) (requestHeaders r) (statusMap r) (strAbort r) (cacheURL r) v
    (fireGlobals r).
Definition set_fireGlobals (v : bool) (r : Req) : Req :=
    mkReq (opts r) (completed r) (transport r) (timer r) (responseHeadersString r) (readyState r)
    (status r) (statusText r) (requestHeaders r) (statusMap r) (strAbort r) (cacheURL r) (xhrFields
    r) v.

(** What jQuery keeps for all requests. *)
Record Glob := mkGlob {
  active : Z; lastModified : list (string * string); etag : list (string * string); guid : nat
}.
Definition set_active v g := mkGlob v (lastModified g) (etag g) (guid g).
Definition set_lastModified v g := mkGlob (active g) v (etag g) (guid g).
Definition set_etag v g := mkGlob (active g) (lastModified g) v (guid g).
Definition set_guid v g := mkGlob (active g) (lastModified g) (etag g) v.

(** What can be observed, in order. *)
Inductive event :=
  | EvTrigger (name : string)
  | EvSend (headers : list (string * string))
  | EvTransportAbort (text : string)
  | EvResolve (success : jv) (statusText : jv)
  | EvReject (statusText : jv) (error : jv)
  | EvAlways (fns : list nat)
  | EvComplete (statusText : jv).
Record St := mkSt { req : Req; glob : Glob; log : list event }.
Definition on_req (f : Req → Req) (s : St) : St := mkSt (f (req s)) (glob s) (log s).
Definition on_glob (f : Glob → Glob) (s : St) : St := mkSt (req s) (f (glob s)) (log s).
Definition emit (e : event) (s : St) : St := mkSt (req s) (glob s) (log s ++ [e]).

(** Calls user code can make. *)
Inductive call :=
  | CAbort (text : option string)
  | CSetHeader (name value : string)
  | CMime (type : string)
  | CStatusCode (map : list (Z * list nat))
  | COptions (f : Opts → Opts).
(** The points where user code runs. *)
Inductive point :=
  | PPrefilter (f : nat) | PTransport (f : nat) | PBeforeSend | PInstall
  | PEvent (name : string) | PSettle | PStatus | PComplete.

(** ** Computations: they return, throw or do not terminate *)
Inductive res (A : Type) := Ok (a : A) | Exn (v : jv) | Diverges.
Arguments Ok {A} a.
Arguments Exn {A} v.
Arguments Diverges {A}.
Definition AM (X : Type) : Type := St → res X * St.
#[export] Instance AM_ret : MRet AM := λ X x s, (Ok x, s).
#[export] Instance AM_bind : MBind AM := λ X Y f m s,
  match m s with
  | (Ok x, s') => f x s'
  | (Exn v, s') => (Exn v, s')
  | (Diverges, s') => (Diverges, s')
  end.
Definition get : AM St := λ s, (Ok s, s).
Definition put (f : St → St) : AM unit := λ s, (Ok tt, f s).
Definition a_throw {X} (v : jv) : AM X := λ s, (Exn v, s).
Definition a_when (b : bool) (m : AM unit) : AM unit := if b then m else mret tt.
Fixpoint a_each {X} (f : X → AM unit) (l : list X) : AM unit :=
  match l with [] => mret tt | x :: l' => f x;; a_each f l' end.
Definition a_catch {X} (m : AM X) (h : jv → AM X) : AM X := λ s,
  match m s with (Exn v, s') => h v s' | r => r end.
Definition is_completed (s : St) : bool := bool_decide (completed (req s) = Some true).

(** ** The methods of the [jqXHR] object *)
Definition getResponseHeader (key : string) (s : St) : option string :=
  if is_completed s
  then header_value (parse_headers (responseHeadersString (req s))) key else None.
Definition getAllResponseHeaders (s : St) : option string :=
  if is_completed s then Some (responseHeadersString (req s)) else None.
Definition setRequestHeader (name value : string) (r : Req) : Req :=
  match completed r with
  | None => set_requestHeaders (put_header name value (requestHeaders r)) r
  | Some _ => r
  end.
Definition set_mimeType (t : string) (c : ConvSettings) : ConvSettings :=
  mkConvSettings (Some t) (contents c) (responseFields c) (converters c) (dataFilter c) (dataType c) (throws c).
Definition overrideMimeType (t : string) (r : Req) : Req :=
  match completed r with
  | None => set_opts (set_conv (set_mimeType t (o_conv (opts r))) (opts r)) r
  | Some _ => r
  end.
(** [map[ code ]]: the functions given for a status, in order. *)
Definition status_fns (code : Z) (map : list (Z * list nat)) : list nat :=
  concat (omap (λ p, if Z.eqb (fst p) code then Some (snd p) else None) map).
Definition statusCode (map : list (Z * list nat)) : AM unit :=
  s ← get;
  if is_completed s then put (emit (EvAlways (status_fns (status (req s)) map)))
  else put (on_req (λ r, set_statusMap (statusMap r ++ map) r)).
Definition final_text (text : option string) (r : Req) : string := default "" (or_text text (Some (strAbort r))).

Section Ajax.
(** User code: the calls it makes and what it returns or throws; factories of
    transports return one or not. *)
Context (user : point → St → list call * (jv + jv)).
Context (factory : nat → St → list call * (option Transport + jv)).
Context (prefilters transports : structure).

(** *** User code that runs when the request is complete *)
Definition do_call_c (c : call) : AM unit :=
  match c with
  | CAbort text =>
      s ← get;
      match transport (req s) with
      | Some _ => put (emit (EvTransportAbort (final_text text (req s))))
      | None => mret tt
      end
  | CSetHeader name value => put (on_req (setRequestHeader name value))
  | CMime t => put (on_req (overrideMimeType t))
  | CStatusCode map => statusCode map
  | COptions f => put (on_req (λ r, set_opts (f (opts r)) r))
  end.
Definition run_user_c (p : point) : AM unit := λ s,
  let '(calls, r) := user p s in
  (a_each do_call_c calls;; match r with inl _ => mret tt | inr e => a_throw e end) s.
Definition trigger_c (name : string) : AM unit :=
  put (emit (EvTrigger name));; run_user_c (PEvent name).

(** *** [done] *)
Definition is_success (status : Z) : bool := (Z.leb 200 status && Z.ltb status 300) || Z.eqb status 304.
Definition close (r : Response) (q : Req) : Req :=
  set_readyState (if Z.ltb 0 (r_status r) then 4 else 0)%Z
    (set_responseHeadersString (default ""%string (r_headers r))
       (set_transport None (set_timer false (set_completed (Some true) q)))).
Definition take_response (r : Response) (s : St) : list string * jv :=
  let o := opts (req s) in
  match r_responses r with
  | Some l =>
      let '(dts, v) := ajaxHandleResponses (o_conv o) (getResponseHeader "Content-Type" s) (o_dataTypes o) l in
      (dts, default JUndef v)
  | None => (o_dataTypes o, JUndef)
  end.
Definition noop_script (isSuccess : bool) (o : Opts) : Opts :=
  if negb isSuccess && existsb (String.eqb "script") (o_dataTypes o) then
    let c := o_conv o in
    set_conv (mkConvSettings (mimeType c) (contents c) (responseFields c)
                (assoc_set "text script" (CFun (λ _, Returns JUndef)) (converters c))
                (dataFilter c) (dataType c) (throws c)) o
  else o.
Definition convert_response (response : jv) (isSuccess : bool) : AM converted := λ s,
  let o := opts (req s) in
  match ajaxConvert (o_conv o) (o_dataTypes o) response isSuccess with
  | None => (Diverges, s)
  | Some (fields, c) =>
      let s' := on_req (λ r, set_xhrFields (xhrFields r ++ fields) r) s in
      match c with CvThrown e => (Exn e, s') | _ => (Ok c, s') end
  end.
(** [if ( modified ) { jQuery.lastModified[ cacheURL ] = modified; }] and the etag *)
Definition remember (f : string → Glob → Glob) (value : option string) (g : Glob) : Glob :=
  match value with Some v => if String.eqb v "" then g else f v g | None => g end.
Definition record_modified (s : St) : St :=
  let url := cacheURL (req s) in
  on_glob (λ g,
    remember (λ v g, set_etag (assoc_set url v (etag g)) g) (getResponseHeader "etag" s)
      (remember (λ v g, set_lastModified (assoc_set url v (lastModified g)) g)
         (getResponseHeader "Last-Modified" s) g)) s.

(** What becomes of the request. *)
Record judgement := mkJudgement {
  j_success : bool; j_data : jv; j_text : jv; j_error : jv; j_status : Z
}.
Definition judge (type : string) (status : Z) (native : jv) (c : converted) : judgement :=
  if is_success status then
    if Z.eqb status 204 || String.eqb type "HEAD" then mkJudgement true JUndef (JStr "nocontent") JUndef status
    else if Z.eqb status 304 then mkJudgement true JUndef (JStr "notmodified") JUndef status
    else match c with
         | CvSuccess d => mkJudgement true d (JStr "success") JUndef status
         | CvError e | CvThrown e => mkJudgement (negb (js_truthy e)) JUndef (JStr "parsererror") e status
         end
  else if negb (Z.eqb status 0) || negb (js_truthy native)
  then mkJudgement false JUndef (JStr "error") native (Z.max 0 status)
  else mkJudgement false JUndef native native status.
Definition settle_event (j : judgement) : event :=
  if j_success j then EvResolve (j_data j) (j_text j) else EvReject (j_text j) (j_error j).

(** The end of [done]: the counter of active requests. *)
Definition finish_globals : AM unit :=
  trigger_c "ajaxComplete";;
  put (on_glob (λ g, set_active (active g - 1)%Z g));;
  s ← get;
  a_when (Z.eqb (active (glob s)) 0) (trigger_c "ajaxStop").
(** The callbacks and events of a judgement. *)
Definition announce_end (j : judgement) : AM unit :=
  put (emit (settle_event j));;
  run_user_c PSettle;;
  s ← get;
  statusCode (statusMap (req s));;
  run_user_c PStatus;;
  put (on_req (set_statusMap []));;
  a_when (fireGlobals (req s)) (trigger_c (if j_success j then "ajaxSuccess" else "ajaxError"));;
  put (emit (EvComplete (j_text j)));;
  run_user_c PComplete;;
  a_when (fireGlobals (req s)) finish_globals.
(** From the converted response on. *)
Definition conclude (r : Response) (o : Opts) (c : converted) : AM unit :=
  a_when (is_success (r_status r) && o_ifModified o) (put record_modified);;
  let j := judge (o_type o) (r_status r) (r_text r) c in
  put (on_req (λ q, set_status (j_status j)
    (set_statusText (js_String (if js_truthy (r_text r) then r_text r else j_text j)) q)));;
  announce_end j.
Definition done (r : Response) : AM unit :=
  s0 ← get;
  if is_completed s0 then mret tt else
  let isSuccess := is_success (r_status r) in
  put (on_req (close r));;
  s ← get;
  let '(dts, response) := take_response r s in
  put (on_req (λ q, set_opts (noop_script isSuccess (set_dataTypes dts (opts q))) q));;
  c ← convert_response response isSuccess;
  conclude r (opts (req s)) c.

(** *** User code at any time *)
Definition abort (text : option string) : AM unit :=
  s ← get;
  let final := final_text text (req s) in
  match transport (req s) with
  | Some t => put (emit (EvTransportAbort final));; a_each done (t_abort t final)
  | None => mret tt
  end;;
  done (mkResponse 0 (JStr final) None None).
Definition do_call (c : call) : AM unit :=
  match c with
  | CAbort text => abort text
  | CSetHeader name value => put (on_req (setRequestHeader name value))
  | CMime t => put (on_req (overrideMimeType t))
  | CStatusCode map => statusCode map
  | COptions f => put (on_req (λ r, set_opts (f (opts r)) r))
  end.
Definition run_user (p : point) : AM jv := λ s,
  let '(calls, r) := user p s in
  (a_each do_call calls;; match r with inl v => mret v | inr e => a_throw e end) s.
Definition run_factory (f : nat) : AM (option Transport) := λ s,
  let '(calls, r) := factory f s in
  (a_each do_call calls;; match r with inl t => mret t | inr e => a_throw e end) s.
Definition trigger (name : string) : AM unit :=
  put (emit (EvTrigger name));; run_user (PEvent name);; mret tt.

(** *** Prefilters and transports *)
(** The recursion of [inspect] for prefilters: the functions of a type in order, until
    one asks for a type that was not inspected. *)
Fixpoint each_prefilter (go : string → list string → AM (list string)) (inspected : list string)
    (fns : list nat) : AM (list string) :=
  match fns with
  | [] => mret inspected
  | f :: fns' =>
      v ← run_user (PPrefilter f);
      match v with
      | JStr t =>
          if existsb (String.eqb t) inspected then each_prefilter go inspected fns'
          else put (on_req (λ r, set_opts (set_dataTypes (t :: o_dataTypes (opts r)) (opts r)) r));;
               go t inspected
      | _ => each_prefilter go inspected fns'
      end
  end.
Fixpoint inspect (fuel : nat) (dataType : string) (inspected : list string) : AM (list string) :=
  match fuel with
  | 0 => λ s, (Diverges, s)
  | S fuel =>
      each_prefilter (inspect fuel) (dataType :: inspected) (default [] (assoc dataType prefilters))
  end.
(** Each level inspects a type for the first time, and only registered types have
    functions. *)
Definition inspect_fuel : nat := length prefilters + 2.
Definition inspect_prefilters : AM unit :=
  s ← get;
  inspected ← inspect inspect_fuel (default ""%string (head (o_dataTypes (opts (req s))))) [];
  if existsb (String.eqb "*") inspected then mret tt
  else inspect inspect_fuel "*" inspected;; mret tt.

Fixpoint each_factory (fns : list nat) : AM (option Transport) :=
  match fns with
  | [] => mret None
  | f :: fns' =>
      t ← run_factory f;
      match t with Some _ => mret t | None => each_factory fns' end
  end.
Definition inspect_transports : AM (option Transport) :=
  s ← get;
  let dt := default ""%string (head (o_dataTypes (opts (req s)))) in
  t ← each_factory (default [] (assoc dt transports));
  match t with
  | Some _ => mret t
  | None =>
      if String.eqb dt "*" then mret None else each_factory (default [] (assoc "*" transports))
  end.

(** *** From the settings to the transport *)
(** "Watch for a new set of requests" *)
Definition announce_start : AM unit :=
  s ← get;
  let g := o_global (opts (req s)) in
  put (on_req (set_fireGlobals g));;
  a_when g
    (put (on_glob (λ g, set_active (active g + 1)%Z g));;
     a_when (Z.eqb (active (glob s)) 0) (trigger "ajaxStart")).
Definition make_target (s : St) : St :=
  let o := opts (req s) in
  let type := toUpperCase (o_type o) in
  let u := build_url (o_url o) (negb (rnoContent type)) (o_processData o) (o_cacheFalse o) (o_data o)
             (o_contentType o) (guid (glob s)) in
  on_glob (set_guid (u_guid u))
    (on_req (λ r, set_cacheURL (u_cacheURL u) (set_opts (set_target (u_url u) type (u_data u) o) r)) s).
Definition accept_header (o : Opts) : string :=
  let any := default "undefined"%string (assoc "*" (o_accepts o)) in
  match head (o_dataTypes o) with
  | Some d =>
      if String.eqb d "" then any else
      match assoc d (o_accepts o) with
      | Some a =>
          if String.eqb a "" then any
          else if String.eqb d "*" then a else (a ++ ", " ++ allTypes ++ "; q=0.01")%string
      | None => any
      end
  | None => any
  end.
Definition truthy_text (v : option string) : list string :=
  match v with Some s => if String.eqb s "" then [] else [s] | None => [] end.
Definition has_body (o : Opts) : bool :=
  data_truthy (o_data o) && negb (rnoContent (o_type o)) && bool_decide (o_contentType o ≠ None).
(** The calls of [setRequestHeader] before [beforeSend], in order. *)
Definition header_calls (s : St) : list (string * string) :=
  let o := opts (req s) in
  let url := cacheURL (req s) in
  (if o_ifModified o then
     map (pair "If-Modified-Since"%string) (truthy_text (assoc url (lastModified (glob s)))) ++
     map (pair "If-None-Match"%string) (truthy_text (assoc url (etag (glob s))))
   else []) ++
  (if has_body o || o_contentTypeGiven o
   then [("Content-Type"%string, default "false"%string (o_contentType o))] else []) ++
  [("Accept"%string, accept_header o)] ++ o_headers o.
Definition set_headers (s : St) : St :=
  fold_left (λ s p, on_req (setRequestHeader (fst p) (snd p)) s) (header_calls s) s.

(** "Allow custom headers/mimetypes and early abort": whether to abort. *)
Definition before_send : AM bool :=
  s ← get;
  if o_beforeSend (opts (req s)) then
    v ← run_user PBeforeSend;
    s' ← get;
    mret (bool_decide (v = JBool false) || is_completed s')
  else mret false.
Definition send (t : Transport) : AM unit :=
  s ← get;
  put (on_req (set_completed (Some false)));;
  let headers := h_values (requestHeaders (req s)) in
  put (emit (EvSend headers));;
  a_catch (X := unit) (a_each done (fst (t_send t headers));;
           match snd (t_send t headers) with Some e => a_throw e | None => mret tt end)
    (λ e, s ← get;
          if is_completed s then a_throw e else done (mkResponse (-1) e None None)).
Definition dispatch (t : Transport) : AM unit :=
  put (on_req (set_readyState 1));;
  s ← get;
  a_when (fireGlobals (req s)) (trigger "ajaxSend");;
  s' ← get;
  if is_completed s' then mret tt else
  a_when (o_async (opts (req s')) && Z.ltb 0 (o_timeout (opts (req s'))))
    (put (on_req (set_timer true)));;
  send t.
Definition go_on : AM unit :=
  put (on_req (set_strAbort "abort"));;
  s ← get;
  a_when (is_completed s) (run_user PInstall;; mret tt);;
  t ← inspect_transports;
  put (on_req (set_transport t));;
  match t with
  | None => done (mkResponse (-1) (JStr "No Transport") None None)
  | Some t => dispatch t
  end.
Definition ajax : AM unit :=
  inspect_prefilters;;
  s ← get;
  if is_completed s then mret tt else
  announce_start;;
  put make_target;;
  put set_headers;;
  aborted ← before_send;
  match aborted with true => abort None | false => go_on end.

(** *** What happens to a request after [ajax] has returned *)
Inductive step : St → St → Prop :=
  | step_done r s : step s (snd (done r s))
  | step_timeout s : timer (req s) = true → step s (snd (abort (Some "timeout"%string) s))
  | step_call c s : step s (snd (do_call c s)).
End Ajax.

(** ** The request at the start *)
Record AjaxArgs := mkAjaxArgs {
  a_url : option string; a_location : string; a_protocol : string;
  a_method : option string; a_type : option string; a_sMethod : option string;
  a_data : option (paramArg + jdata); a_traditional : bool; a_statusCode : list (Z * list nat)
}.
(** [( ( url || s.url || location.href ) + "" ).replace( rprotocol, … )] *)
Definition init_url (a : AjaxArgs) (s_url : string) : string :=
  rprotocol (a_protocol a) (default ""%string (or_text (a_url a) (or_text (Some s_url) (Some (a_location a))))).
Definition init_type (a : AjaxArgs) (s_type : string) : string :=
  default ""%string (or_text (a_method a) (or_text (a_type a) (or_text (a_sMethod a) (Some s_type)))).
Definition init_dataTypes (dataType : option string) : list string :=
  match htmlwords (toLowerCase (default "*"%string (or_text dataType (Some "*"%string)))) with
  | [] => [""%string]
  | l => l
  end.
(** "Convert data if not already a string" *)
Definition init_data (a : AjaxArgs) (processData : bool) : jdata :=
  match a_data a with
  | None => NoData
  | Some (inr d) => d
  | Some (inl p) => if processData then TextData (param p (a_traditional a)) else RawData "[object Object]"
  end.
Definition init_opts (a : AjaxArgs) (o : Opts) : Opts :=
  set_target (init_url a (o_url o)) (init_type a (o_type o)) (init_data a (o_processData o))
    (set_dataTypes (init_dataTypes (dataType (o_conv o))) o).
Definition init_req (a : AjaxArgs) (o : Opts) : Req :=
  mkReq (init_opts a o) None None false "" 0 0 "" no_headers (a_statusCode a) "canceled" "" [] false.
