(* ===== verification/JqAjaxProps.v ===== *)
(** * Properties of the life of a request

    A small program logic for the computations of [JqAjax], then the abstract life cycle
    that requests refine, the counter of active requests, the outcome of a completion
    and the termination of the inspection of prefilters. *)
From Stdlib Require Import ZArith Lia Ascii String.
From stdpp Require Import base strings list relations.
From S2P Require Import Prelude.
From S2P Require Import JsString.
From S2P Require Import JqParam.
From S2P Require Import JqConvert.
From S2P Require Import JqUrl.
From S2P Require Import JqAjax.

(** ** Triples

    [triple E P m Q]: from a state in [P], [m] ends in [Q] when it returns and in [E]
    when it throws or does not terminate. *)
Definition triple (E : St → Prop) {X} (P : St → Prop) (m : AM X) (Q : X → St → Prop) : Prop :=
  ∀ s, P s → match m s with (Ok x, s') => Q x s' | (_, s') => E s' end.

Section Triples.
Context (E : St → Prop).
Lemma triple_bind {X Y} P (m : AM X) (f : X → AM Y) R Q :
  triple E P m R → (∀ x, triple E (R x) (f x) Q) → triple E P (m ≫= f) Q.
Proof.
  intros Hm Hf s Hs. specialize (Hm s Hs). unfold mbind, AM_bind.
  destruct (m s) as [[x| |] s']; [|done|done]. by apply Hf.
Qed.
Lemma triple_seq {X Y} P R (m : AM X) (n : AM Y) Q :
  triple E P m (λ _, R) → triple E R n Q → triple E P (m;; n) Q.
Proof. intros H1 H2. eapply triple_bind; [exact H1|]. intros ?. exact H2. Qed.
Lemma triple_ret {X} P (x : X) (Q : X → St → Prop) : (∀ s, P s → Q x s) → triple E P (mret x) Q.
Proof. intros H s Hs. by apply H. Qed.
Lemma triple_get P (Q : St → St → Prop) : (∀ s, P s → Q s s) → triple E P get Q.
Proof. intros H s Hs. by apply H. Qed.
Lemma triple_put P f (Q : unit → St → Prop) : (∀ s, P s → Q tt (f s)) → triple E P (put f) Q.
Proof. intros H s Hs. by apply H. Qed.
Lemma triple_throw {X} P v (Q : X → St → Prop) : (∀ s, P s → E s) → triple E P (a_throw v) Q.
Proof. intros H s Hs. by apply H. Qed.
Lemma triple_conseq {X} (P P' : St → Prop) (m : AM X) (Q Q' : X → St → Prop) :
  triple E P' m Q' → (∀ s, P s → P' s) → (∀ x s, Q' x s → Q x s) → triple E P m Q.
Proof.
  intros H HP HQ s Hs. specialize (H s (HP s Hs)). destruct (m s) as [[x| |] s']; auto.
Qed.
Lemma triple_when P b m (Q : unit → St → Prop) :
  (b = true → triple E P m Q) → (b = false → ∀ s, P s → Q tt s) → triple E P (a_when b m) Q.
Proof. intros H1 H2. destruct b; [by apply H1|]. apply triple_ret. auto. Qed.
Lemma triple_each {X} P (f : X → AM unit) l :
  (∀ x, triple E P (f x) (λ _, P)) → triple E P (a_each f l) (λ _, P).
Proof.
  intros H. induction l as [|x l IH]; simpl; [by apply triple_ret|].
  eapply triple_bind; [apply H|]. by intros [].
Qed.
Lemma triple_catch {X} (R : St → Prop) P (m : AM X) f Q :
  triple R P m Q → (∀ v, triple E R (f v) Q) → (∀ s, R s → E s) → triple E P (a_catch m f) Q.
Proof.
  intros Hm Hf HE s Hs. specialize (Hm s Hs). unfold a_catch.
  destruct (m s) as [[x|v|] s']; [done|by apply Hf|by apply HE].
Qed.
Lemma triple_fun {X} P (m : AM X) Q :
  (∀ s0, ∃ m', m s0 = m' s0 ∧ triple E P m' Q) → triple E P m Q.
Proof. intros H s Hs. destruct (H s) as (m' & -> & Hm). by apply Hm. Qed.
Lemma triple_at {X} (P : St → Prop) s0 (m : AM X) Q : triple E P m Q → triple E (λ s, s = s0 ∧ P s) m Q.
Proof. intros H. eapply triple_conseq; [exact H|tauto|done]. Qed.
(** Uses the state that was read. *)
Lemma triple_read {X} (P : St → Prop) (f : St → AM X) Q :
  (∀ s0, P s0 → triple E (λ s, s = s0 ∧ P s) (f s0) Q) → triple E P (get ≫= f) Q.
Proof. intros H s Hs. unfold mbind, AM_bind, get. by apply (H s Hs). Qed.
Lemma triple_weaken_E {X} (E' : St → Prop) P (m : AM X) Q :
  triple E P m Q → (∀ s, E s → E' s) → triple E' P m Q.
Proof. intros H HE s Hs. specialize (H s Hs). destruct (m s) as [[x| |] s']; auto. Qed.
End Triples.

(** ** The abstract life cycle *)
Inductive phase := New | Sent | Settled (success : bool) | Ended.
(** What may happen in each phase, and the next one; the other events are free. *)
Definition life (p : phase) (e : event) : option phase :=
  match e with
  | EvSend _ => match p with New => Some Sent | _ => None end
  | EvResolve _ _ => match p with New | Sent => Some (Settled true) | _ => None end
  | EvReject _ _ => match p with New | Sent => Some (Settled false) | _ => None end
  | EvComplete _ => match p with Settled _ => Some Ended | _ => None end
  | EvTrigger name =>
      if String.eqb name "ajaxStart" then match p with New => Some p | _ => None end
      else if String.eqb name "ajaxSuccess" then match p with Settled true => Some p | _ => None end
      else if String.eqb name "ajaxError" then match p with Settled false => Some p | _ => None end
      else if String.eqb name "ajaxComplete" || String.eqb name "ajaxStop"
      then match p with Ended => Some p | _ => None end
      else Some p
  | EvTransportAbort _ | EvAlways _ => Some p
  end.
Fixpoint live (p : phase) (l : list event) : option phase :=
  match l with
  | [] => Some p
  | e :: l' => match life p e with Some p' => live p' l' | None => None end
  end.
(** The phases a request can be in, by its variable [completed]. *)
Definition agrees (p : phase) (completed : option bool) : Prop :=
  match completed with
  | None => p = New
  | Some false => p = Sent
  | Some true => True
  end.
Definition refines (s : St) : Prop := ∃ p, live New (log s) = Some p ∧ agrees p (completed (req s)).
(** A completed request in a given phase. *)
Definition at_phase (p : phase) (s : St) : Prop :=
  live New (log s) = Some p ∧ completed (req s) = Some true.

Lemma live_app p l l' : live p (l ++ l') = match live p l with Some p' => live p' l' | None => None end.
Proof. revert p. induction l as [|e l IH]; intros p; simpl; [done|]. by destruct (life p e). Qed.
Lemma live_emit p e s p' : live New (log s) = Some p → life p e = Some p' → live New (log (emit e s)) = Some p'.
Proof. intros H H'. simpl. rewrite live_app, H. simpl. by rewrite H'. Qed.
Lemma at_phase_refines p s : at_phase p s → refines s.
Proof. intros [H1 H2]. exists p. by rewrite H2. Qed.
Lemma at_phase_emit p e p' : life p e = Some p' → ∀ s, at_phase p s → at_phase p' (emit e s).
Proof. intros H s [H1 H2]. split; [by eapply live_emit|done]. Qed.

(** A request that was in state [c] when some user code started: it still is, or it
    was completed. *)
Definition alive (c : option bool) (s : St) : Prop :=
  refines s ∧ (completed (req s) = c ∨ completed (req s) = Some true).
Lemma at_phase_alive c p s : at_phase p s → alive c s.
Proof. intros H. split; [by eapply at_phase_refines|right; apply H]. Qed.
Lemma alive_on_req c f s : (∀ r, completed (f r) = completed r) → alive c s → alive c (on_req f s).
Proof. intros Hf [(p & Hp & Ha) Hc]. unfold alive, refines. simpl. rewrite Hf. eauto. Qed.
Lemma alive_free c e s : (∀ p, life p e = Some p) → alive c s → alive c (emit e s).
Proof.
  intros He [(p & Hp & Ha) Hc]. split; [|done]. exists p. split; [|done]. by eapply live_emit.
Qed.
Lemma at_phase_on_req p f s : (∀ r, completed (f r) = completed r) → at_phase p s → at_phase p (on_req f s).
Proof. intros Hf [H1 H2]. split; [done|]. simpl. by rewrite Hf. Qed.
Lemma at_phase_on_glob p f s : at_phase p s → at_phase p (on_glob f s).
Proof. done. Qed.
Lemma at_phase_free p e s : life p e = Some p → at_phase p s → at_phase p (emit e s).
Proof. intros. by eapply at_phase_emit. Qed.
Create HintDb ajax.
#[export] Hint Resolve at_phase_refines at_phase_alive at_phase_on_glob : ajax.

(** Assignments that keep the variables [completed] and [fireGlobals], and events that
    are free in every phase. *)
Definition same_run (f : Req → Req) : Prop :=
  ∀ r, completed (f r) = completed r ∧ fireGlobals (f r) = fireGlobals r.
Definition free (e : event) : Prop := ∀ p, life p e = Some p.
Lemma same_run_setRequestHeader n v : same_run (setRequestHeader n v).
Proof. intros r. unfold setRequestHeader. by destruct (completed r) eqn:E. Qed.
Lemma same_run_overrideMimeType t : same_run (overrideMimeType t).
Proof. intros r. unfold overrideMimeType. by destruct (completed r) eqn:E. Qed.
#[export] Hint Resolve same_run_setRequestHeader same_run_overrideMimeType : ajax.
#[export] Hint Extern 1 (same_run _) => (intros ?; split; reflexivity) : ajax.
#[export] Hint Extern 1 (free _) => (intros ?; reflexivity) : ajax.

(** Properties of a state that user code cannot break by itself. *)
Class Stable (I : St → Prop) : Prop := {
  stable_req : ∀ f s, same_run f → I s → I (on_req f s);
  stable_emit : ∀ e s, free e → I s → I (emit e s)
}.
#[export] Hint Extern 2 =>
  match goal with
  | |- ?I (on_req _ _) => apply stable_req
  | |- ?I (emit _ _) => apply stable_emit
  end : ajax.
#[export] Instance at_phase_stable p : Stable (at_phase p).
Proof.
  split.
  - intros f s Hf. apply at_phase_on_req. intros r. apply Hf.
  - intros e s He. by apply at_phase_free.
Qed.
#[export] Instance alive_stable c : Stable (alive c).
Proof.
  split.
  - intros f s Hf. apply alive_on_req. intros r. apply Hf.
  - intros e s He. by apply alive_free.
Qed.

(** One rule for each form of computation; leaves the facts about states. *)
Ltac tstep :=
  match goal with
  | |- triple _ _ (get ≫= _) _ => apply triple_read; intros ? ?
  | |- triple _ _ (_ ≫= _) _ => eapply triple_bind; [|intros []]
  | |- triple _ _ (put _) _ => apply triple_put; intros ? ?
  | |- triple _ _ (mret _) _ => apply triple_ret; intros ? ?
  | |- triple _ _ (a_throw _) _ => apply triple_throw; intros ? ?
  | |- triple _ _ (a_when _ _) _ => apply triple_when; intros ?
  end.
Ltac tauto_ajax := simpl in *; intuition eauto with ajax.

Section Life.
Context (user : point → St → list call * (jv + jv)).
Context (factory : nat → St → list call * (option Transport + jv)).
Context (prefilters transports : structure).

(** *** User code in a completed request *)
Section Completed.
Context (I : St → Prop) `{!Stable I}.
Lemma do_call_c_keeps c : triple I I (do_call_c c) (λ _, I).
Proof.
  destruct c as [text|n v|t|m|f]; cbn [do_call_c].
  - tstep. destruct (transport (req s0)); tstep; tauto_ajax.
  - tstep. tauto_ajax.
  - tstep. tauto_ajax.
  - unfold statusCode. tstep. destruct (is_completed s0); tstep; tauto_ajax.
  - tstep. tauto_ajax.
Qed.
Lemma run_user_c_keeps q : triple I I (run_user_c user q) (λ _, I).
Proof.
  apply triple_fun. intros s. unfold run_user_c. destruct (user q s) as [calls r].
  eexists. split; [reflexivity|].
  eapply triple_seq; [apply triple_each; intros; apply do_call_c_keeps|].
  destruct r; tstep; done.
Qed.
Lemma trigger_c_keeps name :
  (∀ s, I s → I (emit (EvTrigger name) s)) → triple I I (trigger_c user name) (λ _, I).
Proof.
  intros H. unfold trigger_c. eapply (triple_seq _ _ I); [|apply run_user_c_keeps].
  tstep. auto.
Qed.
End Completed.

(** *** User code at any time *)
Section Anytime.
Context (E I : St → Prop) `{!Stable I} (HE : ∀ s, I s → E s).
Context (Hdone : ∀ r, triple E I (done user r) (λ _, I)).
Lemma abort_keeps text : triple E I (abort user text) (λ _, I).
Proof.
  unfold abort. tstep. eapply (triple_seq _ _ I); [|apply Hdone].
  destruct (transport (req s0)); [|tstep; tauto_ajax].
  eapply (triple_seq _ _ I); [tstep; tauto_ajax|]. apply triple_each. intros. apply Hdone.
Qed.
Lemma do_call_keeps x : triple E I (do_call user x) (λ _, I).
Proof.
  destruct x as [text|n v|t|m|f]; cbn [do_call]; [apply abort_keeps|tstep; tauto_ajax..| |tstep; tauto_ajax].
  unfold statusCode. tstep. destruct (is_completed s0); tstep; tauto_ajax.
Qed.
Lemma calls_keep {X} calls (r : X + jv) :
  triple E I (a_each (do_call user) calls;; match r with inl v => mret v | inr e => a_throw e end) (λ _, I).
Proof. eapply triple_seq; [apply triple_each; intros; apply do_call_keeps|]. destruct r; tstep; auto. Qed.
Lemma run_user_keeps p : triple E I (run_user user p) (λ _, I).
Proof. apply triple_fun. intros s. unfold run_user. destruct (user p s).
  eexists. split; [reflexivity|]. apply calls_keep. Qed.
Lemma run_factory_keeps f : triple E I (run_factory user factory f) (λ _, I).
Proof. apply triple_fun. intros s. unfold run_factory. destruct (factory f s).
  eexists. split; [reflexivity|]. apply calls_keep. Qed.
Lemma trigger_keeps P name :
  (∀ s, P s → I (emit (EvTrigger name) s)) → triple E P (trigger user name) (λ _, I).
Proof.
  intros H. unfold trigger. eapply (triple_seq _ _ I); [by tstep; apply H|].
  eapply triple_seq; [apply run_user_keeps|]. by tstep.
Qed.
Lemma each_prefilter_keeps go l fns :
  (∀ t l, triple E I (go t l) (λ _, I)) → triple E I (each_prefilter user go l fns) (λ _, I).
Proof.
  intros Hgo. revert l. induction fns as [|f fns IH]; intros l; cbn [each_prefilter]; [tstep; done|].
  eapply triple_bind; [apply run_user_keeps|]. intros v. cbn beta. destruct v; try apply IH.
  destruct (existsb _ l); [apply IH|].
  eapply (triple_seq _ _ I); [tstep; tauto_ajax|]. apply Hgo.
Qed.
Lemma inspect_keeps fuel dt l : triple E I (inspect user prefilters fuel dt l) (λ _, I).
Proof.
  revert dt l. induction fuel as [|fuel IH]; intros dt l; [intros s Hs; by apply HE|].
  cbn [inspect]. apply each_prefilter_keeps, IH.
Qed.
Lemma inspect_prefilters_keeps : triple E I (inspect_prefilters user prefilters) (λ _, I).
Proof.
  unfold inspect_prefilters. tstep. eapply triple_at, triple_bind; [apply inspect_keeps|].
  intros l. cbn beta. destruct (existsb _ l); [tstep; done|].
  eapply triple_seq; [apply inspect_keeps|]. tstep. done.
Qed.
Lemma each_factory_keeps fns : triple E I (each_factory user factory fns) (λ _, I).
Proof.
  induction fns as [|f fns IH]; cbn [each_factory]; [tstep; done|].
  eapply triple_bind; [apply run_factory_keeps|]. intros [t|]; cbn beta; [tstep; done|apply IH].
Qed.
Lemma inspect_transports_keeps : triple E I (inspect_transports user factory transports) (λ _, I).
Proof.
  unfold inspect_transports. tstep. eapply triple_at, triple_bind; [apply each_factory_keeps|].
  intros [t|]; cbn beta; [tstep; done|]. destruct (String.eqb _ "*"); [tstep; done|apply each_factory_keeps].
Qed.
Lemma before_send_keeps : triple E I (before_send user) (λ _, I).
Proof.
  unfold before_send. tstep. apply triple_at. destruct (o_beforeSend _); [|tstep; done].
  eapply triple_bind; [apply run_user_keeps|]. intros v. cbn beta. tstep. tstep. tauto_ajax.
Qed.
Lemma set_headers_keeps : triple E I (put set_headers) (λ _, I).
Proof.
  apply triple_put. intros s. unfold set_headers. generalize (header_calls s). intros l. revert s.
  induction l as [|p l IH]; intros s Hs; simpl; [done|]. apply IH. eauto with ajax.
Qed.
End Anytime.

(** *** The life cycle *)
(** The end of [done]: from a settled request to an ended one. *)
Lemma finish_globals_ends : triple (at_phase Ended) (at_phase Ended) (finish_globals user) (λ _, at_phase Ended).
Proof.
  unfold finish_globals. eapply triple_seq; [by apply (trigger_c_keeps _), at_phase_emit|].
  eapply (triple_seq _ _ (at_phase Ended)); [tstep; eauto with ajax|].
  tstep. tstep; [|tauto_ajax].
  eapply triple_conseq; [by apply (trigger_c_keeps (at_phase Ended)), at_phase_emit|tauto_ajax|done].
Qed.
Lemma triple_throws_into {X} p c P (m : AM X) Q :
  triple (at_phase p) P m Q → triple (alive c) P m Q.
Proof. intros H. eapply triple_weaken_E; [exact H|]. eauto with ajax. Qed.
Lemma announce_end_ends c p j :
  life p (settle_event j) = Some (Settled (j_success j)) →
  triple (alive c) (at_phase p) (announce_end user j) (λ _, at_phase Ended).
Proof.
  intros Hp. set (q := Settled (j_success j)). unfold announce_end.
  eapply (triple_seq _ _ (at_phase q)); [tstep; by eapply at_phase_emit|].
  eapply triple_seq; [eapply triple_throws_into, (run_user_c_keeps (at_phase q))|].
  tstep. eapply (triple_seq _ _ (at_phase q)).
  { eapply triple_conseq; [eapply triple_throws_into, (do_call_c_keeps (at_phase q) (CStatusCode _))|tauto_ajax|done]. }
  eapply triple_seq; [eapply triple_throws_into, (run_user_c_keeps (at_phase q))|].
  eapply (triple_seq _ _ (at_phase q)); [tstep; eauto with ajax|].
  eapply (triple_seq _ _ (at_phase q)).
  { tstep; [|tauto_ajax]. eapply triple_throws_into, (trigger_c_keeps (at_phase q)), at_phase_emit. unfold q. by destruct (j_success j). }
  eapply (triple_seq _ _ (at_phase Ended)); [tstep; by apply (at_phase_emit q)|].
  eapply triple_seq; [eapply triple_throws_into, (run_user_c_keeps (at_phase Ended))|].
  tstep; [|done]. eapply triple_throws_into, finish_globals_ends.
Qed.

Lemma done_alive c r : triple (alive c) (alive c) (done user r) (λ _, alive c).
Proof.
  unfold done. tstep. destruct (is_completed s0) eqn:Hc; [tstep; tauto_ajax|].
  apply bool_decide_eq_false in Hc.
  assert (Hp : ∃ p, live New (log s0) = Some p ∧ ∀ b j, j_success j = b →
                    life p (settle_event j) = Some (Settled b)).
  { destruct H as [(p & Hp & Ha) _]. exists p. split; [done|]. intros b j <-. unfold settle_event.
    destruct (completed (req s0)) as [[]|]; [done| |]; simpl in Ha; subst p; by destruct (j_success j). }
  destruct Hp as (p & Hp & Hlife).
  eapply (triple_seq _ _ (at_phase p)).
  { tstep. destruct H0 as [-> _]. done. }
  tstep. destruct (take_response r s1) as [dts response].
  eapply (triple_seq _ _ (at_phase p)); [tstep; tauto_ajax|].
  eapply (triple_bind _ _ _ _ (λ _, at_phase p)).
  { intros s Hs. unfold convert_response. destruct (ajaxConvert _ _ _ _) as [[fields []]|]; eauto with ajax. }
  intros cv. unfold conclude. eapply (triple_seq _ _ (at_phase p)); [tstep; [tstep|]; tauto_ajax|].
  eapply (triple_seq _ _ (at_phase p)); [tstep; tauto_ajax|].
  eapply triple_conseq; [exact (announce_end_ends c p _ (Hlife _ _ eq_refl))|done|tauto_ajax].
Qed.

(** A request that was not completed when it was about to be sent. *)
Definition fresh (s : St) : Prop := live New (log s) = Some New ∧ completed (req s) = None.
Lemma alive_fresh s : alive None s → is_completed s = false → fresh s.
Proof.
  intros [(p & Hp & Ha) [Hc|Hc]] Hn.
  - rewrite Hc in Ha. simpl in Ha. subst p. done.
  - apply bool_decide_eq_false in Hn. done.
Qed.
Lemma fresh_alive s : fresh s → alive None s.
Proof. intros [H1 H2]. split; [|by left]. exists New. by rewrite H2. Qed.
Lemma alive_completed c s : alive c s → is_completed s = true → alive (Some true) s.
Proof. intros [H1 _] H2. split; [done|]. apply bool_decide_eq_true in H2. by left. Qed.
Lemma alive_refines c s : alive c s → refines s.
Proof. by intros [? _]. Qed.
Hint Resolve fresh_alive alive_refines : ajax.
Lemma triple_refines {X} c P (m : AM X) Q : triple (alive c) P m Q → triple refines P m Q.
Proof. intros H. eapply triple_weaken_E; [exact H|]. eauto with ajax. Qed.

Lemma announce_start_alive : triple (alive None) fresh (announce_start user) (λ _, alive None).
Proof.
  unfold announce_start. tstep. eapply (triple_seq _ _ fresh); [tstep; tauto_ajax|].
  tstep; [|tauto_ajax]. eapply (triple_seq _ _ fresh); [tstep; tauto_ajax|].
  tstep; [|tauto_ajax]. apply (trigger_keeps _ _ (λ _ H, H) (done_alive None)). intros s [Hn Hc]. apply fresh_alive. split; [|done].
  by eapply live_emit.
Qed.
Lemma send_alive t : triple refines fresh (send user t) (λ _, refines).
Proof.
  unfold send. tstep. eapply (triple_seq _ _ (λ s, log s = log s0 ∧ completed (req s) = Some false)).
  { tstep. destruct H0 as [-> _]. done. }
  eapply (triple_seq _ _ (alive (Some false))).
  { apply triple_put. intros s [Hl Hc]. destruct H as [Hn _]. split; [|by left]. exists Sent.
    split; [|by simpl; rewrite Hc]. simpl. by rewrite live_app, Hl, Hn. }
  apply (triple_catch _ (alive (Some false))); [| |eauto with ajax].
  - eapply (triple_conseq _ _ (alive (Some false)) _ _ (λ _, alive (Some false))); [|done|tauto_ajax].
    eapply triple_seq; [apply triple_each; intros; apply done_alive|]. destruct (snd _); by tstep.
  - intros v. tstep. apply triple_at. destruct (is_completed s1); [tstep; eauto with ajax|].
    eapply triple_conseq; [eapply triple_refines, (done_alive (Some false))|done|tauto_ajax].
Qed.
Lemma dispatch_alive t : triple refines (alive None) (dispatch user t) (λ _, refines).
Proof.
  unfold dispatch. eapply (triple_seq _ _ (alive None)); [tstep; tauto_ajax|].
  tstep. eapply (triple_seq _ _ (alive None)).
  { apply triple_at. tstep; [|tauto_ajax]. eapply triple_refines, (trigger_keeps _ _ (λ _ H, H) (done_alive None)). intros s Hs.
    apply alive_free; [|done]. done. }
  tstep. destruct (is_completed s1) eqn:Hc; [tstep; tauto_ajax|].
  eapply (triple_seq _ _ fresh); [|apply send_alive].
  eapply (triple_conseq _ _ fresh _ _ (λ _, fresh)); [|intros ? [-> ?]; by apply alive_fresh|done].
  tstep; [tstep|]; tauto_ajax.
Qed.
Lemma go_on_alive : triple refines (alive None) (go_on user factory transports) (λ _, refines).
Proof.
  unfold go_on. eapply (triple_seq _ _ (alive None)); [tstep; tauto_ajax|].
  tstep. eapply (triple_seq _ _ (alive None)).
  { apply triple_at. tstep; [|tauto_ajax]. eapply triple_refines, triple_seq; [apply (run_user_keeps _ _ (λ _ H, H) (done_alive None))|]. by tstep. }
  eapply triple_bind; [eapply triple_refines, (inspect_transports_keeps _ _ (λ _ H, H) (done_alive None))|]. intros t. cbn beta.
  eapply (triple_seq _ _ (alive None)); [tstep; tauto_ajax|]. destruct t; [apply dispatch_alive|].
  eapply triple_conseq; [eapply triple_refines, (done_alive None)|done|tauto_ajax].
Qed.
Lemma ajax_alive : triple refines fresh (ajax user factory prefilters transports) (λ _, refines).
Proof.
  unfold ajax. eapply triple_seq.
  { eapply triple_conseq; [eapply triple_refines, (inspect_prefilters_keeps _ _ (λ _ H, H) (done_alive None))|tauto_ajax|done]. }
  tstep. destruct (is_completed s0) eqn:Hc; [tstep; tauto_ajax|].
  eapply (triple_seq _ _ (alive None)).
  { eapply triple_conseq; [eapply triple_refines, announce_start_alive| |done].
    intros ? [-> ?]. by apply alive_fresh. }
  eapply (triple_seq _ _ (alive None)); [tstep; tauto_ajax|].
  eapply (triple_seq _ _ (alive None)).
  { apply set_headers_keeps. apply _. }
  eapply triple_bind; [eapply triple_refines, (before_send_keeps _ _ (λ _ H, H) (done_alive None))|]. intros []; [|apply go_on_alive].
  eapply triple_conseq; [eapply triple_refines, (abort_keeps _ _ (done_alive None))|done|tauto_ajax].
Qed.
End Life.

(** What the life cycle says about the order of events. *)
Definition is_settle (e : event) : bool :=
  match e with EvResolve _ _ | EvReject _ _ => true | _ => false end.
Definition is_send (e : event) : bool := match e with EvSend _ => true | _ => false end.
Definition is_complete (e : event) : bool := match e with EvComplete _ => true | _ => false end.
Definition rank (p : phase) : nat := match p with New => 0 | Sent => 1 | Settled _ => 2 | Ended => 3 end.
(** The rank a request has after an event of that kind. *)
Definition milestone (e : event) : nat :=
  if is_send e then 1 else if is_settle e then 2 else if is_complete e then 3 else 0.
Lemma life_rank p e q :
  life p e = Some q →
  rank p ≤ rank q ∧ (milestone e ≠ 0 → rank p < milestone e ∧ rank q = milestone e).
Proof.
  destruct e as [name|h|x|a b|a b|f|c]; unfold milestone; simpl.
  1: repeat case_match; intros [= <-]; split; lia.
  all: destruct p as [| |[]|]; intros [= <-]; simpl; split; lia.
Qed.
Lemma live_rank p l q : live p l = Some q → rank p ≤ rank q.
Proof.
  revert p. induction l as [|e l IH]; intros p; simpl; [by intros [= ->]|].
  destruct (life p e) as [p'|] eqn:E; [|done]. intros H. apply life_rank in E as [E _].
  apply IH in H. lia.
Qed.
Lemma live_order p l q i j e1 e2 :
  live p l = Some q → l !! i = Some e1 → l !! j = Some e2 →
  milestone e1 ≠ 0 → milestone e2 ≠ 0 → milestone e1 ≤ milestone e2 → i ≤ j.
Proof.
  intros H Hi Hj N1 N2 Hle. destruct (decide (i ≤ j)) as [|Hlt]; [done|]. exfalso.
  pose proof (take_drop_middle l j e2 Hj) as El. rewrite <- El, live_app in H.
  destruct (live p (take j l)) as [p1|] eqn:E1; [|done]. simpl in H.
  destruct (life p1 e2) as [p2|] eqn:E2; [|done].
  destruct (proj2 (life_rank _ _ _ E2) N2) as [_ R2].
  assert (Hi' : drop (S j) l !! (i - S j) = Some e1).
  { rewrite lookup_drop. by replace (S j + (i - S j)) with i by lia. }
  pose proof (take_drop_middle _ _ _ Hi') as El'. rewrite <- El', live_app in H.
  destruct (live p2 (take (i - S j) (drop (S j) l))) as [p3|] eqn:E3; [|done]. simpl in H.
  destruct (life p3 e1) as [p4|] eqn:E4; [|done].
  destruct (proj2 (life_rank _ _ _ E4) N1) as [R3 _].
  apply live_rank in E3. lia.
Qed.

(** A request from its start, with any user code, and what happens to it later, with
    any other user code. *)
Definition later (s s' : St) : Prop := ∃ user, step user s s'.
Definition reachable (user : point → St → list call * (jv + jv))
    (factory : nat → St → list call * (option Transport + jv)) (prefilters transports : structure)
    (a : AjaxArgs) (o : Opts) (g : Glob) (s : St) : Prop :=
  rtc later (snd (ajax user factory prefilters transports (mkSt (init_req a o) g []))) s.
Lemma triple_snd {X} E P (m : AM X) Q s : triple E P m Q → P s → (∀ x s, Q x s → E s) → E (snd (m s)).
Proof. intros H Hs HQ. specialize (H s Hs). destruct (m s) as [[x| |] s']; simpl; eauto. Qed.
Lemma refines_alive s : refines s → alive (completed (req s)) s.
Proof. intros H. split; [done|by left]. Qed.
Lemma step_refines user s s' : step user s s' → refines s → refines s'.
Proof.
  intros Hstep H%refines_alive. destruct Hstep as [r s|s _|c s]; eapply alive_refines.
  - eapply triple_snd; [apply done_alive|exact H|done].
  - eapply triple_snd; [apply abort_keeps; [apply _|apply done_alive]|exact H|done].
  - eapply triple_snd; [apply do_call_keeps; [apply _|apply done_alive]|exact H|done].
Qed.
Lemma reachable_refines user factory prefilters transports a o g s :
  reachable user factory prefilters transports a o g s → refines s.
Proof.
  intros H. eapply rtc_invariant; [| |exact H].
  - eapply triple_snd; [apply ajax_alive|done|done].
  - intros x y Hx [u Hu]. by eapply step_refines.
Qed.

(** C24. Requests refine the abstract life cycle, whatever the prefilters, handlers,
    callbacks, converters and transports do or throw and however completions,
    time-outs and calls of [abort] interleave: a request is sent at most once and never
    after it was settled, its deferred is resolved or rejected at most once and not
    before completion, [ajaxSuccess] and [ajaxError] agree with the outcome, and the
    complete callbacks run once, after it. *)
Theorem request_life user factory prefilters transports a o g s :
  reachable user factory prefilters transports a o g s →
  (∃ p, live New (log s) = Some p ∧ agrees p (completed (req s))) ∧
  (∀ i j e1 e2, log s !! i = Some e1 → log s !! j = Some e2 → is_settle e1 = true → is_settle e2 = true → i = j) ∧
  (∀ i j e1 e2, log s !! i = Some e1 → log s !! j = Some e2 → is_send e1 = true → is_settle e2 = true → i < j) ∧
  (∀ i j e1 e2, log s !! i = Some e1 → log s !! j = Some e2 → is_settle e1 = true → is_complete e2 = true → i < j).
Proof.
  intros H%reachable_refines. split; [exact H|]. destruct H as (p & Hp & _).
  assert (Ho : ∀ i j e1 e2, log s !! i = Some e1 → log s !! j = Some e2 →
    milestone e1 ≠ 0 → milestone e2 ≠ 0 → milestone e1 ≤ milestone e2 → i ≤ j).
  { intros. by eapply live_order. }
  split; [|split]; intros i j e1 e2 H1 H2 M1 M2.
  - destruct e1, e2; try done; (apply Nat.le_antisymm; [by eapply Ho|by eapply Ho]).
  - assert (i ≤ j) by (destruct e1, e2; try done; (eapply Ho; [exact H1|exact H2|done|done|unfold milestone; simpl; lia])).
    assert (i ≠ j) by (intros ->; destruct e1, e2; try done; congruence). lia.
  - assert (i ≤ j) by (destruct e1, e2; try done; (eapply Ho; [exact H1|exact H2|done|done|unfold milestone; simpl; lia])).
    assert (i ≠ j) by (intros ->; destruct e1, e2; try done; congruence). lia.
Qed.

(** A request answered at once by its transport, with no user code. *)
Definition no_user (p : point) (s : St) : list call * (jv + jv) := ([], inl JUndef).
Definition demo_transport : Transport :=
  mkTransport (λ _, ([mkResponse 200 (JStr "OK") (Some [("text"%string, JStr "hi")]) None], None)) (λ _, []).
Definition demo_factory (f : nat) (s : St) : list call * (option Transport + jv) :=
  ([], inl (Some demo_transport)).
Definition demo_opts : Opts :=
  mkOpts "/page" "GET" [] NoData true (Some form_type) false false [] default_accepts true true 0 false false
    default_settings.
Definition demo_args : AjaxArgs :=
  mkAjaxArgs None "http://h/" "http:" None None None None false [].
Definition demo_glob : Glob := mkGlob 0 [] [] 1.
Notation demo_run :=
  (snd (ajax no_user demo_factory [] [("*"%string, [0])] (mkSt (init_req demo_args demo_opts) demo_glob []))) (only parsing).
Lemma request_life_witness :
  log demo_run =
    [EvTrigger "ajaxStart"; EvTrigger "ajaxSend"; EvSend [("Accept", "*/*")]%string;
     EvResolve (JStr "hi") (JStr "success"); EvAlways []; EvTrigger "ajaxSuccess";
     EvComplete (JStr "success"); EvTrigger "ajaxComplete"; EvTrigger "ajaxStop"] ∧
  ((∃ p, live New (log demo_run) = Some p ∧ agrees p (completed (req demo_run))) ∧
   (∀ i j e1 e2, log demo_run !! i = Some e1 → log demo_run !! j = Some e2 →
      is_settle e1 = true → is_settle e2 = true → i = j) ∧
   (∀ i j e1 e2, log demo_run !! i = Some e1 → log demo_run !! j = Some e2 →
      is_send e1 = true → is_settle e2 = true → i < j) ∧
   (∀ i j e1 e2, log demo_run !! i = Some e1 → log demo_run !! j = Some e2 →
      is_settle e1 = true → is_complete e2 = true → i < j)).
Proof.
  split; [lazy; reflexivity|].
  apply (request_life no_user demo_factory [] [("*"%string, [0])] demo_args demo_opts demo_glob).
  apply rtc_refl.
Defined.

(** ** The counter of active requests *)
Definition outstanding (q : Req) : bool :=
  fireGlobals q && negb (bool_decide (completed q = Some true)).
Definition balanced (n : Z) (fg : bool) (s : St) : Prop :=
  fireGlobals (req s) = fg ∧ active (glob s) = (n + if outstanding (req s) then 1 else 0)%Z.
(** A completed request while the counter is [n]. *)
Definition counted (n : Z) (fg : bool) (s : St) : Prop :=
  fireGlobals (req s) = fg ∧ completed (req s) = Some true ∧ active (glob s) = n.
(** The state after an exception: only a completed request can lose its count. *)
Definition spared (n : Z) (fg : bool) (s : St) : Prop := is_completed s = false → balanced n fg s.
#[export] Instance balanced_stable n fg : Stable (balanced n fg).
Proof.
  split; [|done]. intros f s Hf [H1 H2]. unfold balanced, outstanding in *. simpl.
  by rewrite (proj1 (Hf _)), (proj2 (Hf _)).
Qed.
#[export] Instance counted_stable n fg : Stable (counted n fg).
Proof.
  split; [|done]. intros f s Hf (H1 & H2 & H3). unfold counted. simpl.
  by rewrite (proj1 (Hf _)), (proj2 (Hf _)).
Qed.
Lemma counted_balanced n fg s : counted n fg s → balanced n fg s.
Proof.
  intros (H1 & H2 & H3). split; [done|]. unfold outstanding. rewrite H2, H3. simpl.
  rewrite andb_false_r. lia.
Qed.
Lemma counted_spared m n fg fg' s : counted m fg s → spared n fg' s.
Proof. intros (_ & H & _). unfold spared, is_completed. by rewrite H. Qed.
Lemma triple_spared {X} m n fg fg' P (c : AM X) Q :
  triple (counted m fg) P c Q → triple (spared n fg') P c Q.
Proof. intros H. eapply triple_weaken_E; [exact H|]. intros s. apply counted_spared. Qed.

Section Counter.
Context (user : point → St → list call * (jv + jv)).
Context (factory : nat → St → list call * (option Transport + jv)).
Context (prefilters transports : structure).
Context (n : Z).

Lemma trigger_c_counted m fg name :
  triple (spared n fg) (counted m fg) (trigger_c user name) (λ _, counted m fg).
Proof. eapply triple_spared, trigger_c_keeps; [apply _|]. intros s Hs. exact Hs. Qed.
Lemma run_user_c_counted m fg p :
  triple (spared n fg) (counted m fg) (run_user_c user p) (λ _, counted m fg).
Proof. eapply triple_spared, run_user_c_keeps, _. Qed.
Lemma finish_globals_counted fg :
  triple (spared n fg) (counted (n + 1) fg) (finish_globals user) (λ _, counted n fg).
Proof.
  unfold finish_globals. eapply triple_seq; [apply trigger_c_counted|].
  eapply (triple_seq _ _ (counted n fg)).
  { tstep. destruct H as (H1 & H2 & H3). split; [done|]. split; [done|]. simpl. lia. }
  tstep. tstep; [|tauto_ajax]. apply triple_at, trigger_c_counted.
Qed.
Lemma announce_end_counted (fg : bool) j :
  triple (spared n fg) (counted (n + if fg then 1 else 0) fg) (announce_end user j) (λ _, counted n fg).
Proof.
  unfold announce_end. set (m := (n + if fg then 1 else 0)%Z).
  eapply (triple_seq _ _ (counted m fg)); [tstep; done|].
  eapply triple_seq; [apply run_user_c_counted|].
  tstep. destruct H as (Hfg & _). eapply (triple_seq _ _ (counted m fg)).
  { apply triple_at. eapply triple_spared, (do_call_c_keeps (counted m fg) (CStatusCode _)). }
  eapply triple_seq; [apply run_user_c_counted|].
  eapply (triple_seq _ _ (counted m fg)); [tstep; tauto_ajax|].
  eapply (triple_seq _ _ (counted m fg)); [tstep; [apply trigger_c_counted|done]|].
  eapply (triple_seq _ _ (counted m fg)); [tstep; done|].
  eapply triple_seq; [apply run_user_c_counted|]. unfold m. rewrite Hfg. destruct fg; tstep; try done.
  - apply finish_globals_counted.
  - intros Hs. revert Hs. unfold counted. by rewrite Z.add_0_r.
Qed.
Lemma record_modified_counted m fg s : counted m fg s → counted m fg (record_modified s).
Proof.
  intros (H1 & H2 & H3). split; [done|]. split; [done|]. rewrite <- H3. unfold record_modified, remember.
  simpl. by repeat case_match.
Qed.
Lemma done_balanced (fg : bool) r : triple (spared n fg) (balanced n fg) (done user r) (λ _, balanced n fg).
Proof.
  unfold done. tstep. destruct (is_completed s0) eqn:Hc; [tstep; tauto_ajax|].
  set (m := (n + if fg then 1 else 0)%Z).
  eapply (triple_seq _ _ (counted m fg)).
  { tstep. destruct H0 as [-> [H1 H2]]. split; [done|]. split; [done|]. simpl.
    rewrite H2. unfold outstanding. unfold is_completed in Hc. by rewrite Hc, H1, andb_true_r. }
  tstep. destruct (take_response r s1) as [dts response].
  eapply (triple_seq _ _ (counted m fg)); [tstep; tauto_ajax|].
  eapply (triple_bind _ _ _ _ (λ _, counted m fg)).
  { intros s Hs. unfold convert_response. destruct (ajaxConvert _ _ _ _) as [[fields []]|];
      [eauto with ajax|eauto with ajax|eapply counted_spared; eauto with ajax|by eapply counted_spared]. }
  intros cv. unfold conclude. eapply (triple_seq _ _ (counted m fg)).
  { tstep; [tstep; by apply record_modified_counted|tauto_ajax]. }
  eapply (triple_seq _ _ (counted m fg)); [tstep; tauto_ajax|].
  eapply triple_conseq; [apply announce_end_counted|done|]. intros. by apply counted_balanced.
Qed.

Lemma balanced_at fg c s : balanced n fg s → is_completed s = false → c ≠ Some true →
  balanced n fg (on_req (set_completed c) s).
Proof.
  intros [H1 H2] Hn Hc. split; [done|]. simpl. rewrite H2. unfold outstanding, is_completed in *. simpl.
  rewrite Hn. by rewrite bool_decide_eq_false_2.
Qed.
Lemma balanced_spared fg s : balanced n fg s → spared n fg s.
Proof. by intros H _. Qed.
Hint Resolve balanced_spared : ajax.
Lemma send_balanced fg t :
  triple (spared n fg) (λ s, balanced n fg s ∧ is_completed s = false) (send user t) (λ _, balanced n fg).
Proof.
  unfold send. tstep. eapply (triple_seq _ _ (balanced n fg)).
  { tstep. destruct H0 as [-> [H1 H2]]. by apply balanced_at. }
  eapply (triple_seq _ _ (balanced n fg)); [tstep; tauto_ajax|].
  apply (triple_catch _ (spared n fg)); [| |done].
  - eapply triple_seq; [apply triple_each; intros; apply done_balanced|]. destruct (snd _); tstep; eauto with ajax.
  - intros v. tstep. destruct (is_completed s1) eqn:Hc.
    + tstep; tauto_ajax.
    + eapply triple_conseq; [apply (done_balanced fg)|intros s [-> H2]; auto|done].
Qed.
Lemma balanced_req fg f s : same_run f → balanced n fg s → balanced n fg (on_req f s).
Proof. apply stable_req. Qed.
Lemma dispatch_balanced fg t :
  triple (spared n fg) (balanced n fg) (dispatch user t) (λ _, balanced n fg).
Proof.
  unfold dispatch. eapply (triple_seq _ _ (balanced n fg)); [tstep; tauto_ajax|].
  tstep. eapply (triple_seq _ _ (balanced n fg)).
  { apply triple_at. tstep; [|tauto_ajax]. by apply (trigger_keeps _ _ _ (balanced_spared fg) (done_balanced fg)). }
  tstep. destruct (is_completed s1) eqn:Hc; [tstep; tauto_ajax|].
  eapply (triple_seq _ _ (λ s, balanced n fg s ∧ is_completed s = false)); [|apply send_balanced].
  apply triple_when; intros _; [|by intros s [-> ?]].
  apply triple_put. intros s [-> Hs]. split; [apply stable_req; eauto with ajax|done].
Qed.
Lemma go_on_balanced fg :
  triple (spared n fg) (balanced n fg) (go_on user factory transports) (λ _, balanced n fg).
Proof.
  unfold go_on. eapply (triple_seq _ _ (balanced n fg)); [tstep; tauto_ajax|].
  tstep. eapply (triple_seq _ _ (balanced n fg)).
  { apply triple_at. tstep; [|tauto_ajax]. eapply triple_seq; [|by tstep].
    apply (run_user_keeps _ _ _ (balanced_spared fg) (done_balanced fg)). }
  eapply triple_bind; [apply (inspect_transports_keeps _ _ _ _ _ (balanced_spared fg) (done_balanced fg))|].
  intros t. cbn beta. eapply (triple_seq _ _ (balanced n fg)); [tstep; tauto_ajax|].
  destruct t; [apply dispatch_balanced|apply done_balanced].
Qed.
Lemma announce_start_balanced fg :
  triple (spared n fg) (λ s, balanced n false s ∧ completed (req s) = None ∧ o_global (opts (req s)) = fg)
    (announce_start user) (λ _, balanced n fg).
Proof.
  unfold announce_start. tstep. destruct H as (H1 & H2 & Hg). rewrite Hg.
  eapply (triple_seq _ _ (λ s, fireGlobals (req s) = fg ∧ completed (req s) = None ∧ active (glob s) = n)).
  { tstep. destruct H as (-> & [H3 H4] & H5 & H6). split; [done|]. split; [done|]. simpl.
    rewrite H4. unfold outstanding. rewrite H3. simpl. lia. }
  destruct fg; cbn [a_when].
  - eapply (triple_seq _ _ (balanced n true)).
    { tstep. destruct H as (H3 & H4 & H5). split; [done|]. simpl. unfold outstanding. by rewrite H3, H4, H5. }
    tstep; [|done]. by apply (trigger_keeps _ _ _ (balanced_spared true) (done_balanced true)).
  - tstep. destruct H as (H3 & H4 & H5). split; [done|]. unfold outstanding. rewrite H3, H5. simpl. lia.
Qed.
Lemma ajax_rest_balanced fg :
  triple (spared n fg) (λ s, balanced n false s ∧ completed (req s) = None ∧ o_global (opts (req s)) = fg)
    (announce_start user;; put make_target;; put set_headers;;
     aborted ← before_send user;
     match aborted with true => abort user None | false => go_on user factory transports end)
    (λ _, balanced n fg).
Proof.
  eapply triple_seq; [apply announce_start_balanced|].
  eapply (triple_seq _ _ (balanced n fg)); [tstep; by apply (stable_req (I := balanced n fg))|].
  eapply triple_seq; [apply set_headers_keeps, _|].
  eapply triple_bind; [apply (before_send_keeps _ _ _ (balanced_spared fg) (done_balanced fg))|].
  intros []; [apply (abort_keeps _ _ _ (done_balanced fg))|apply go_on_balanced].
Qed.
Lemma ajax_balanced s s' :
  balanced n false s → fresh s → ajax user factory prefilters transports s = (Ok tt, s') →
  ∃ fg, balanced n fg s'.
Proof.
  intros Hs Hf Hrun.
  pose proof (inspect_prefilters_keeps user factory prefilters _ _ (balanced_spared false) (done_balanced false) s Hs) as H1.
  pose proof (inspect_prefilters_keeps user factory prefilters _ _ (λ _ H, H) (done_alive user None) s (fresh_alive _ Hf)) as H2.
  revert Hrun. unfold ajax. unfold mbind at 1, AM_bind at 1.
  destruct (inspect_prefilters user prefilters s) as [[[]| |] s1]; [|done|done].
  unfold mbind at 1, AM_bind at 1. cbn [get].
  destruct (is_completed s1) eqn:Hc1; [intros [= <-]; by exists false|]. intros Hrun.
  destruct (alive_fresh _ H2 Hc1) as [_ Hnone].
  pose proof (ajax_rest_balanced (o_global (opts (req s1))) s1 (conj H1 (conj Hnone eq_refl))) as H3.
  rewrite Hrun in H3. eauto.
Qed.
End Counter.

(** Several requests share the counter.  [quiet_op]: an operation on a request that has
    been started, which returned normally. *)
Record World := mkWorld { w_glob : Glob; w_reqs : list Req }.
Inductive op : (point → St → list call * (jv + jv)) → Req → AM unit → Prop :=
  | op_done user q r : op user q (done user r)
  | op_timeout user q : timer q = true → op user q (abort user (Some "timeout"%string))
  | op_call user q c : op user q (do_call user c).
Inductive w_step : World → World → Prop :=
  | w_new user factory prefilters transports a o w s :
      ajax user factory prefilters transports (mkSt (init_req a o) (w_glob w) []) = (Ok tt, s) →
      w_step w (mkWorld (glob s) (w_reqs w ++ [req s]))
  | w_later user q m i l w s :
      w_reqs w !! i = Some q → op user q m → m (mkSt q (w_glob w) l) = (Ok tt, s) →
      w_step w (mkWorld (glob s) (<[i := req s]> (w_reqs w))).
Definition outstanding_count (l : list Req) : Z := Z.of_nat (length (List.filter outstanding l)).
Definition one_if (b : bool) : Z := if b then 1 else 0.
Lemma count_app l q : outstanding_count (l ++ [q]) = (outstanding_count l + one_if (outstanding q))%Z.
Proof.
  unfold outstanding_count. rewrite List.filter_app, length_app. simpl.
  destruct (outstanding q); simpl; lia.
Qed.
Lemma count_insert l i q q' :
  l !! i = Some q →
  (outstanding_count (<[i := q']> l) + one_if (outstanding q) = outstanding_count l + one_if (outstanding q'))%Z.
Proof.
  unfold outstanding_count. revert i. induction l as [|x l IH]; intros [|i] H; simpl in *; simplify_eq.
  - destruct (outstanding q), (outstanding q'); simpl; lia.
  - specialize (IH i H). destruct (outstanding x); simpl; lia.
Qed.

Lemma init_balanced a o g l : balanced (active g) false (mkSt (init_req a o) g l).
Proof. split; [done|]. simpl. lia. Qed.
Lemma init_fresh a o g : fresh (mkSt (init_req a o) g []).
Proof. done. Qed.

(** [jQuery.active] counts the outstanding requests: while callbacks and
    converters return normally, after any interleaving of new requests, completions,
    time-outs and calls on any of the requests it is the number of requests with global
    events that were started and are not completed. *)
Theorem active_counts (g : Glob) (w : World) :
  active g = 0%Z → rtc w_step (mkWorld g []) w →
  active (w_glob w) = outstanding_count (w_reqs w).
Proof.
  intros Hg H. revert Hg.
  cut (active (w_glob (mkWorld g [])) = outstanding_count (w_reqs (mkWorld g [])) →
       active (w_glob w) = outstanding_count (w_reqs w)); [intros Hcut Hg; apply Hcut; exact Hg|].
  induction H as [|x y z Hxy _ IH]; [done|]. intros Hx. apply IH. clear IH.
  destruct Hxy as [user factory pf tr a o w s Hrun|user q m i l w s Hi Hop Hrun]; cbn [w_glob w_reqs].
  - destruct (ajax_balanced user factory pf tr _ _ s (init_balanced a o (w_glob w) []) (init_fresh a o (w_glob w)) Hrun)
      as (fg & _ & H).
    rewrite count_app, H, Hx. done.
  - pose (n := (active (w_glob w) - one_if (outstanding q))%Z).
    assert (Hb : balanced n (fireGlobals q) (mkSt q (w_glob w) l)).
    { split; [done|]. simpl. unfold n, one_if. destruct (outstanding q); lia. }
    assert (Ht : triple (spared n (fireGlobals q)) (balanced n (fireGlobals q)) m (λ _, balanced n (fireGlobals q))).
    { destruct Hop; [apply done_balanced|apply abort_keeps; [apply _|apply done_balanced]|
        apply do_call_keeps; [apply _|apply done_balanced]]. }
    specialize (Ht _ Hb). rewrite Hrun in Ht. destruct Ht as [_ H].
    pose proof (count_insert (w_reqs w) i q (req s) Hi) as Hc. unfold one_if in *. unfold n in H. lia.
Qed.
(** A transport that has not answered yet. *)
Definition slow_factory (f : nat) (s : St) : list call * (option Transport + jv) :=
  ([], inl (Some (mkTransport (λ _, ([], None)) (λ _, [])))).
Notation slow_run :=
  (ajax no_user slow_factory [] [("*"%string, [0])] (mkSt (init_req demo_args demo_opts) demo_glob []))
  (only parsing).
Lemma active_counts_witness :
  active (glob (snd slow_run)) = 1%Z ∧
  active (w_glob (mkWorld (glob (snd slow_run)) ([] ++ [req (snd slow_run)]))) =
  outstanding_count (w_reqs (mkWorld (glob (snd slow_run)) ([] ++ [req (snd slow_run)]))).
Proof.
  split; [lazy; reflexivity|]. apply (active_counts demo_glob); [reflexivity|].
  apply rtc_once, (w_new no_user slow_factory [] [("*"%string, [0])] demo_args demo_opts (mkWorld demo_glob [])).
  lazy. reflexivity.
Defined.

(** A callback that throws: the request is settled, but its complete callbacks never
    run and it stays counted. *)
Definition throwing_user (p : point) (s : St) : list call * (jv + jv) :=
  ([], match p with PSettle => inr (JStr "oops") | _ => inl JUndef end).
Example callback_exception_leaks :
  let '(r, s) := ajax throwing_user demo_factory [] [("*"%string, [0])]
                   (mkSt (init_req demo_args demo_opts) demo_glob []) in
  r = Exn (JStr "oops") ∧ is_completed s = true ∧ existsb is_complete (log s) = false ∧ active (glob s) = 1%Z.
Proof. lazy. repeat split. Qed.

(** ** The outcome of a completion *)
Definition extends (base : list event) (s : St) : Prop := ∃ l, log s = base ++ l.
Lemma extends_emit base e s : extends base s → extends base (emit e s).
Proof. intros [l H]. exists (l ++ [e]). simpl. by rewrite H, app_assoc. Qed.
#[export] Instance extends_stable base : Stable (extends base).
Proof. split; [done|]. intros e s _. apply extends_emit. Qed.

Section Outcome.
Context (user : point → St → list call * (jv + jv)).
Lemma trigger_c_extends base name : triple (extends base) (extends base) (trigger_c user name) (λ _, extends base).
Proof. apply trigger_c_keeps; [apply _|]. intros s. apply extends_emit. Qed.
Lemma announce_end_settles base j :
  triple (extends (base ++ [settle_event j])) (λ s, log s = base) (announce_end user j)
    (λ _, extends (base ++ [settle_event j])).
Proof.
  unfold announce_end. set (I := extends (base ++ [settle_event j])).
  assert (Huser : ∀ p, triple I I (run_user_c user p) (λ _, I)) by (intros; apply run_user_c_keeps, _).
  eapply (triple_seq _ _ I).
  { tstep. exists []. simpl. by rewrite H, app_nil_r. }
  eapply triple_seq; [apply Huser|]. tstep. eapply (triple_seq _ _ I).
  { apply triple_at. apply (do_call_c_keeps I (CStatusCode _)). }
  eapply triple_seq; [apply Huser|]. eapply (triple_seq _ _ I); [tstep; exact H0|].
  eapply (triple_seq _ _ I); [tstep; [apply trigger_c_extends|done]|].
  eapply (triple_seq _ _ I); [tstep; by apply extends_emit|].
  eapply triple_seq; [apply Huser|]. tstep; [|done]. unfold finish_globals.
  eapply triple_seq; [apply trigger_c_extends|]. eapply (triple_seq _ _ I); [tstep; exact H1|].
  tstep. apply triple_at. tstep; [apply trigger_c_extends|done].
Qed.

(** The conversion of the response, in the state where the request was closed. *)
Definition conversion (r : Response) (s : St) : option (list (string * jv) * converted) :=
  let s1 := on_req (close r) s in
  let isSuccess := is_success (r_status r) in
  let '(dts, response) := take_response r s1 in
  let o := noop_script isSuccess (set_dataTypes dts (opts (req s1))) in
  ajaxConvert (o_conv o) (o_dataTypes o) response isSuccess.

Lemma conclude_settles base r o c :
  let e := settle_event (judge (o_type o) (r_status r) (r_text r) c) in
  triple (extends (base ++ [e])) (λ s, log s = base) (conclude user r o c) (λ _, extends (base ++ [e])).
Proof.
  intros e. unfold conclude. eapply (triple_seq _ _ (λ s, log s = base)); [tstep; [tstep|]; done|].
  eapply (triple_seq _ _ (λ s, log s = base)); [by tstep|]. apply announce_end_settles.
Qed.
Lemma done_settles r s o s' fields c :
  done user r s = (o, s') → is_completed s = false → conversion r s = Some (fields, c) →
  match c with
  | CvThrown e => o = Exn e ∧ log s' = log s
  | _ => ∃ l, log s' = log s ++ settle_event (judge (o_type (opts (req s))) (r_status r) (r_text r) c) :: l
  end.
Proof.
  intros Hrun Hc. unfold conversion. revert Hrun. unfold done.
  unfold mbind at 1, AM_bind at 1. cbn [get]. rewrite Hc.
  unfold mbind at 1, AM_bind at 1. cbn [put]. unfold mbind at 1, AM_bind at 1. cbn [get].
  destruct (take_response r (on_req (close r) s)) as [dts response].
  unfold mbind at 1, AM_bind at 1. cbn [put]. unfold mbind at 1, AM_bind at 1.
  intros Hrun Hconv. unfold convert_response in Hrun. cbn [opts req on_req set_opts] in Hrun, Hconv.
  rewrite Hconv in Hrun. destruct c as [d|e|e]; [| |by apply pair_eq in Hrun as [<- <-]].
  all: match type of Hrun with
       | conclude _ ?r' ?op ?c ?s1 = _ => pose proof (conclude_settles (log s1) r' op c s1 eq_refl) as H
       end.
  all: rewrite Hrun in H; destruct o; destruct H as [l Hl]; exists l; by rewrite Hl, <- app_assoc.
Qed.

(** The outcome of a completion, for any callbacks (which may throw): it is
    decided by the status and the conversion of the response, and it is the next event
    of the request.  Status 204 and HEAD requests resolve without data, 304 as "not
    modified", other successes resolve with the converted data or are rejected with the
    error of the conversion when that is not falsy; all other statuses are rejected, a
    cancellation (status 0 with a text) with its text, the others as "error". *)
Theorem done_outcome r s o s' fields c :
  done user r s = (o, s') → is_completed s = false → conversion r s = Some (fields, c) →
  let type := o_type (opts (req s)) in
  let next e := ∃ l, log s' = log s ++ e :: l in
  (is_success (r_status r) = true → (∀ e, c ≠ CvThrown e) →
     (r_status r = 204%Z ∨ type = "HEAD"%string → next (EvResolve JUndef (JStr "nocontent"))) ∧
     (r_status r = 304%Z → type ≠ "HEAD"%string → next (EvResolve JUndef (JStr "notmodified"))) ∧
     (r_status r ≠ 204%Z → r_status r ≠ 304%Z → type ≠ "HEAD"%string →
        (∀ d, c = CvSuccess d → next (EvResolve d (JStr "success"))) ∧
        (∀ e, c = CvError e → js_truthy e = true → next (EvReject (JStr "parsererror") e)))) ∧
  (is_success (r_status r) = false → (∀ e, c ≠ CvThrown e) →
     (r_status r = 0%Z → js_truthy (r_text r) = true → next (EvReject (r_text r) (r_text r))) ∧
     (r_status r ≠ 0%Z → next (EvReject (JStr "error") (r_text r)))) ∧
  (∀ e, c = CvThrown e → o = Exn e ∧ log s' = log s).
Proof.
  intros Hrun Hc Hconv type next. pose proof (done_settles _ _ _ _ _ _ Hrun Hc Hconv) as H.
  assert (Hnext : (∀ e, c ≠ CvThrown e) → next (settle_event (judge type (r_status r) (r_text r) c))).
  { intros Hn. destruct c; [exact H|exact H|by destruct (Hn e)]. }
  clear Hrun Hconv. split; [|split].
  - intros Hs Hn. specialize (Hnext Hn). unfold judge in Hnext. rewrite Hs in Hnext. split; [|split].
    + intros [E|E]; [rewrite E in Hnext|rewrite E, orb_true_r in Hnext]; exact Hnext.
    + intros E Ht. rewrite E, (proj2 (String.eqb_neq _ _) Ht) in Hnext. exact Hnext.
    + intros N1 N2 Ht. rewrite (proj2 (Z.eqb_neq _ _) N1), (proj2 (Z.eqb_neq _ _) N2),
        (proj2 (String.eqb_neq _ _) Ht) in Hnext. simpl in Hnext. split.
      * intros d ->. exact Hnext.
      * intros e -> He. rewrite He in Hnext. exact Hnext.
  - intros Hs Hn. specialize (Hnext Hn). unfold judge in Hnext. rewrite Hs in Hnext. split.
    + intros E Ht. rewrite E, Ht in Hnext. exact Hnext.
    + intros N. rewrite (proj2 (Z.eqb_neq _ _) N) in Hnext. exact Hnext.
  - intros e ->. exact H.
Qed.
End Outcome.
Lemma done_outcome_witness :
  let s := mkSt (init_req demo_args demo_opts) demo_glob [] in
  let r := mkResponse 404 (JStr "Not Found") (Some [("text"%string, JStr "x")]) None in
  ∃ l, log (snd (done no_user r s)) = log s ++ EvReject (JStr "error") (JStr "Not Found") :: l.
Proof.
  intros s r. unshelve eapply (proj2 (proj1 (proj2 (done_outcome no_user r s (fst (done no_user r s))
    (snd (done no_user r s)) [("responseText"%string, JStr "x")] (CvSuccess (JStr "x")) _ _ _)) _ _)).
  - apply surjective_pairing.
  - reflexivity.
  - lazy. reflexivity.
  - reflexivity.
  - discriminate.
  - discriminate.
Defined.

(** ** Termination of the inspection of prefilters *)
Definition terminates {X} (m : AM X) : Prop := ∀ s, fst (m s) ≠ Diverges.
Lemma terminates_bind {X Y} (m : AM X) (f : X → AM Y) :
  terminates m → (∀ x, terminates (f x)) → terminates (m ≫= f).
Proof.
  intros Hm Hf s. unfold mbind, AM_bind. specialize (Hm s). destruct (m s) as [[x| |] s']; [apply Hf|done|done].
Qed.
Lemma terminates_ret {X} (x : X) : terminates (mret x).
Proof. by intros s. Qed.
Hint Resolve terminates_ret : ajax.

Section Inspection.
Context (user : point → St → list call * (jv + jv)) (prefilters : structure).
Context (Huser : ∀ f, terminates (run_user user (PPrefilter f))).
(** The registered types that were not inspected. *)
Definition unseen (inspected : list string) : nat :=
  length (List.filter (λ p, negb (existsb (String.eqb (fst p)) inspected)) prefilters).
Lemma unseen_cons dt inspected :
  existsb (String.eqb dt) inspected = false → is_Some (assoc dt prefilters) →
  unseen (dt :: inspected) < unseen inspected.
Proof.
  intros Hn [fns H%assoc_elem]. apply (filter_length_lt _ _ _ (dt, fns)); [|done|..]; simpl.
  - intros p. rewrite negb_orb. by intros [_ ?]%andb_true_iff.
  - by rewrite String.eqb_refl.
  - by rewrite Hn.
Qed.
Lemma each_prefilter_terminates go inspected fns :
  (fns ≠ [] → ∀ t, existsb (String.eqb t) inspected = false → terminates (go t inspected)) →
  terminates (each_prefilter user go inspected fns).
Proof.
  induction fns as [|f fns IH]; intros Hgo; cbn [each_prefilter]; [apply terminates_ret|].
  apply terminates_bind; [apply Huser|]. intros v.
  assert (Hrest : terminates (each_prefilter user go inspected fns)).
  { apply IH. intros _. by apply Hgo. }
  destruct v as [| | | |t|]; try exact Hrest.
  destruct (existsb (String.eqb t) inspected) eqn:E; [exact Hrest|].
  apply terminates_bind; [by intros s|]. intros _. by apply Hgo.
Qed.
Lemma inspect_enough fuel dt inspected :
  existsb (String.eqb dt) inspected = false → unseen inspected < fuel →
  terminates (inspect user prefilters fuel dt inspected).
Proof.
  revert dt inspected. induction fuel as [|fuel IH]; intros dt inspected Hn Hf; [lia|]. cbn [inspect].
  apply each_prefilter_terminates. intros Hne t Ht. apply IH; [done|].
  assert (is_Some (assoc dt prefilters)) by (destruct (assoc dt prefilters); [eauto|done]).
  pose proof (unseen_cons dt inspected Hn H). lia.
Qed.
Lemma unseen_bound inspected : unseen inspected < inspect_fuel prefilters.
Proof.
  unfold unseen, inspect_fuel. pose proof (List.filter_length_le (λ p : string * list nat,
    negb (existsb (String.eqb (fst p)) inspected)) prefilters). lia.
Qed.

(** The inspection of prefilters terminates, whatever data types they redirect to:
    a type is inspected at most once, so the recursion is bounded by the registered
    types. *)
Theorem inspect_terminates : terminates (inspect_prefilters user prefilters).
Proof.
  unfold inspect_prefilters. apply terminates_bind; [by intros s|]. intros s.
  apply terminates_bind; [by apply inspect_enough, unseen_bound|]. intros inspected.
  destruct (existsb (String.eqb "*") inspected) eqn:E; [apply terminates_ret|].
  apply terminates_bind; [by apply inspect_enough, unseen_bound|]. intros. apply terminates_ret.
Qed.
End Inspection.
(** A prefilter for every type that redirects to [json], and one for [json] that
    redirects back. *)
Definition redirecting (p : point) (s : St) : list call * (jv + jv) :=
  ([], match p with PPrefilter 0 => inl (JStr "json") | PPrefilter _ => inl (JStr "*") | _ => inl JUndef end).
Lemma redirecting_terminates f : terminates (run_user redirecting (PPrefilter f)).
Proof. intros s. by destruct f. Qed.
Lemma inspect_terminates_witness :
  terminates (inspect_prefilters redirecting [("*"%string, [0]); ("json"%string, [1])]).
Proof. exact (inspect_terminates redirecting _ redirecting_terminates). Defined.
