(* ===== verification/DocSearch.v ===== *)
(** * The search of the documentation site

    Model of search.js: the matchers made from a query, the match of an index entry and
    its score, the ranked results of a search and the text and links they are shown
    with.  Regular expressions are matched by backtracking in the order of ECMAScript.
    Scores are exact, in units of 1/20 (the code computes them with doubles). *)
From Stdlib Require Import ZArith Lia Ascii String Sorting.Permutation Sorting.Sorted.
From stdpp Require Import base strings list sorting.
From S2P Require Import Prelude.
From S2P Require Import JsString.

(** ** Entries of the search indexes *)
Record Item := mkItem {
  l_ : string; m_ : option string; p_ : option string; c_ : string; u_ : option string;
  h_ : option string; d_ : option string; url_ : option string
}.
Inductive category := modules | packages | types | members | searchTags.
#[export] Instance category_eq_dec : EqDecision category.
Proof. solve_decision. Defined.

(** A text property that is present and not empty. *)
Definition truthy (s : option string) : option string :=
  match s with Some t => if String.eqb t "" then None else Some t | None => None end.

Definition checkUnnamed (name : option string) (separator : string) : string :=
  match truthy name with
  | Some n => if String.eqb n "<Unnamed>" then "" else n ++ separator
  | None => ""
  end.
Definition escape_char (c : ascii) : string :=
  if Ascii.eqb c "<" then "&lt;" else if Ascii.eqb c ">" then "&gt;" else String c "".
Definition escapeHtml (s : string) : string := str_flat escape_char s.

(** [str.slice( i, j )], with the meaning of negative indices. *)
Definition slice_index (s : string) (i : Z) : nat :=
  Z.to_nat (if Z.ltb i 0 then Z.max 0 (Z.of_nat (str_length s) + i) else Z.min i (Z.of_nat (str_length s))).
Definition js_slice (s : string) (i j : Z) : string := slice s (slice_index s i) (slice_index s j).

(** ** [getHighlightedText] *)
Definition highlight_open : string := "<span class='result-highlight'>".
Definition highlight_close : string := "</span>".
Fixpoint highlight_loop (str : string) (boundaries : list Z) (from to start : Z) (text : string) : string * Z :=
  match boundaries with
  | b0 :: b1 :: rest =>
      if Z.leb to b0 || Z.leb b1 from then highlight_loop str rest from to start text
      else
        highlight_loop str rest from to (Z.min to b1)
          (text ++ escapeHtml (js_slice str start (Z.max start b0)) ++ highlight_open
             ++ escapeHtml (js_slice str (Z.max start b0) (Z.min to b1)) ++ highlight_close)
  | _ => (text, start)
  end.
Definition getHighlightedText (str : string) (boundaries : list Z) (from to : Z) : string :=
  let '(text, start) := highlight_loop str boundaries from to from "" in
  (text ++ escapeHtml (js_slice str start to))%string.

(** ** Links *)
Definition slashes : string → string := str_map (λ c, if Ascii.eqb c "." then "/"%char else c).
Definition getURLPrefix (packageSearchIndex : list Item) (item : Item) (cat : category) : string :=
  match cat with
  | modules => (l_ item ++ "/")%string
  | packages => match truthy (m_ item) with Some m => (m ++ "/")%string | None => "" end
  | types | members =>
      match truthy (m_ item) with
      | Some m => (m ++ "/")%string
      | None =>
          fold_left (λ acc it,
            match truthy (m_ it) with
            | Some m => if bool_decide (p_ item = Some (l_ it)) then (m ++ "/")%string else acc
            | None => acc
            end) packageSearchIndex ""%string
      end
  | searchTags => ""
  end.
(** The URL, and the entry that remembers it. *)
Definition set_url (u : string) (i : Item) : Item :=
  mkItem (l_ i) (m_ i) (p_ i) (c_ i) (u_ i) (h_ i) (d_ i) (Some u).
Definition compute_url (packageSearchIndex : list Item) (item : Item) (cat : category) : string :=
  let url := getURLPrefix packageSearchIndex item cat in
  match cat with
  | modules => url ++ "module-summary.html"
  | packages =>
      match truthy (u_ item) with Some u => u | None => url ++ slashes (l_ item) ++ "/package-summary.html" end
  | types =>
      match truthy (u_ item) with
      | Some u => u
      | None => url ++ slashes (checkUnnamed (p_ item) "/") ++ l_ item ++ ".html"
      end
  | members =>
      url ++ slashes (checkUnnamed (p_ item) "/") ++ c_ item ++ ".html" ++ "#" ++
      match truthy (u_ item) with Some u => u | None => l_ item end
  | searchTags => url ++ default "undefined" (u_ item)
  end%string.
Definition getURL (packageSearchIndex : list Item) (item : Item) (cat : category) : string * Item :=
  match truthy (url_ item) with
  | Some u => (u, item)
  | None => let u := compute_url packageSearchIndex item cat in (u, set_url u item)
  end.

(** ** Matchers *)
Definition isUpperCase (s : string) : bool := negb (String.eqb s (toLowerCase s)).
Definition isLowerCase (s : string) : bool := negb (String.eqb s (toUpperCase s)).

(** The part of regular expressions the matchers use: characters, up to their case,
    lazy repetitions of a class, and the ends of the capturing groups (which follow
    each other from the start of the pattern). *)
Inductive ritem := RChar (c : ascii) | RLazy (cls : ascii → bool) | REnd.
Definition ci_eqb (a b : ascii) : bool := Ascii.eqb (ascii_lower a) (ascii_lower b).
(** The texts of the groups of the match at the start of [s]; [cur] is the text of the
    group that is open. *)
Fixpoint rmatch (re : list ritem) (s cur : string) : option (list string) :=
  match re with
  | [] => Some []
  | RChar c :: re' =>
      match s with
      | String a t => if ci_eqb a c then rmatch re' t (cur ++ String a "")%string else None
      | EmptyString => None
      end
  | REnd :: re' => option_map (cons cur) (rmatch re' s "")
  | RLazy cls :: re' =>
      (fix lazy (s cur : string) : option (list string) :=
         match rmatch re' s cur with
         | Some m => Some m
         | None =>
             match s with
             | String a t => if cls a then lazy t (cur ++ String a "")%string else None
             | EmptyString => None
             end
         end) s cur
  end.
(** [exec] from [lastIndex]: the index of the first match and its groups. *)
Fixpoint exec_from (re : list ritem) (s : string) (i : nat) : option (nat * list string) :=
  match rmatch re s "" with
  | Some g => Some (i, g)
  | None => match s with String _ t => exec_from re t (S i) | EmptyString => None end
  end.
Definition exec (re : list ritem) (input : string) (lastIndex : nat) : option (nat * list string) :=
  if str_length input <? lastIndex then None else exec_from re (str_drop lastIndex input) lastIndex.

Record Matcher := mkMatcher { pattern : list ritem; upperCase : list bool }.

(** [w.split( /(?=[A-Z,.()<>?[\/])/ )] *)
Definition is_delimiter (c : ascii) : bool :=
  is_upper c || existsb (Ascii.eqb c) (list_ascii_of_string ",.()<>?[/").
Fixpoint split_tokens (cur w : string) : list string :=
  match w with
  | EmptyString => [cur]
  | String c w' =>
      if is_delimiter c && negb (String.eqb cur "") then cur :: split_tokens (String c "") w'
      else split_tokens (cur ++ String c "")%string w'
  end.
Definition tokens_of (w : string) : list string := split_tokens "" w.
Fixpoint last_is_word (s : string) : bool :=
  match s with
  | EmptyString => false
  | String c EmptyString => is_word c
  | String _ t => last_is_word t
  end.
Definition first_upper (s : string) : bool :=
  match s with String c _ => isUpperCase (String c "") | EmptyString => false end.
(** The characters of a token; commas and question marks may be followed by spaces. *)
Definition token_items (s : string) : list ritem :=
  concat (map (λ c, if Ascii.eqb c "," || Ascii.eqb c "?" then [RChar c; RLazy is_space] else [RChar c])
    (list_ascii_of_string s)).
Definition any_char (c : ascii) : bool := negb ((code c =? 10) || (code c =? 13)).
(** [[a-z0-9$<>?[\]]], up to case. *)
Definition name_char (c : ascii) : bool :=
  is_upper c || is_lower c || is_digit c || existsb (Ascii.eqb c) (list_ascii_of_string "$<>?[]").
(** The gap after a token, and whether the token starts in upper case. *)
Definition gap (camelCase last_token last_word : bool) (s : string) : list ritem * bool :=
  if last_is_word s then
    if last_token && negb last_word then ([RLazy any_char], first_upper s)
    else if negb camelCase && isUpperCase s && (str_length s =? 1) then ([], first_upper s)
    else ([RLazy name_char], first_upper s)
  else ([], false).
Fixpoint add_tokens (camelCase last_word : bool) (tokens : list string) (m : Matcher) : Matcher :=
  match tokens with
  | [] => m
  | s :: tokens' =>
      let last_token := match tokens' with [] => true | _ => false end in
      let '(g, u) := gap camelCase last_token last_word s in
      add_tokens camelCase last_word tokens'
        (mkMatcher (pattern m ++ token_items s ++ [REnd] ++ g ++ [REnd]) (upperCase m ++ [false; u]))
  end.
Fixpoint add_words (camelCase : bool) (words : list string) (m : Matcher) : Matcher :=
  match words with
  | [] => m
  | w :: words' =>
      let last_word := match words' with [] => true | _ => false end in
      add_words camelCase words' (add_tokens camelCase last_word (tokens_of w) m)
  end.
(** [term.trim().split( /\s+/ )]; the caller's terms are not empty. *)
Definition createMatcher (term : string) (camelCase : bool) : option Matcher :=
  if camelCase && negb (isUpperCase term) then None
  else Some (add_words camelCase (words_of is_space "" (trim term)) (mkMatcher [] [])).

(** ** [findMatch] *)
(** [rateNoise], in units of 1/20. *)
Definition noise_char (c : ascii) : bool := Ascii.eqb c "." || Ascii.eqb c "(".
Fixpoint count_char (p : ascii → bool) (s : string) : Z :=
  match s with EmptyString => 0 | String c t => (if p c then 1 else 0) + count_char p t end.
(** The number of maximal runs of upper-case letters; [before]: the previous character
    was one. *)
Fixpoint upper_runs (before : bool) (s : string) : Z :=
  match s with
  | EmptyString => 0
  | String c t => (if is_upper c && negb before then 1 else 0) + upper_runs (is_upper c) t
  end.
Definition rateNoise (s : string) : Z :=
  4 * count_char noise_char s + 2 * upper_runs false s + Z.of_nat (str_length s).

Definition match_length (g : list string) : nat := list_sum (map str_length g).
(** "Expand search area until we get a valid result or reach the beginning of the
    string" *)
Definition bad_match (startOfName endOfName : nat) (m : option (nat * list string)) : bool :=
  match m with
  | None => true
  | Some (i, g) => (i + match_length g <? startOfName) || (endOfName <? i)
  end.
Fixpoint find_loop (fuel : nat) (re : list ritem) (input : string) (startOfName endOfName from : nat)
    : option (option (nat * list string)) :=
  match fuel with
  | 0 => None
  | S fuel =>
      let m := exec re input from in
      if bad_match startOfName endOfName m then
        if from =? 0 then Some None
        else find_loop fuel re input startOfName endOfName
               (match lastIndexOf input "." (from - 2) with Some i => S i | None => 0 end)
      else Some m
  end.

Definition char_at (s : string) (i : nat) : string :=
  match charAt s i with Some c => String c "" | None => "" end.
(** [/[\W_]/.test( s )] for one character. *)
Definition is_boundary (s : string) : bool :=
  match s with String c _ => negb (is_word c) || Ascii.eqb c "_" | EmptyString => false end.
(** The groups, two by two: the score and the boundaries, or no match when a token does
    not start at a word boundary. *)
Fixpoint score_groups (input : string) (endOfName : nat) (g : list string) (ups : list bool)
    (start : nat) (prevEnd : option nat) (score : Z) (boundaries : list nat) : option (Z * list nat) :=
  match g with
  | tok :: noise :: g' =>
      let isUpper := isUpperCase (char_at input start) in
      let isMatcherUpper := nth 1 ups false in
      let boundaries := boundaries ++ [start; start + str_length tok] in
      let prevChar := if start =? 0 then EmptyString else char_at input (start - 1) in
      let nextChar := char_at input (S start) in
      let anchored :=
        if negb (start =? 0) && negb (is_boundary prevChar) && negb (is_boundary (char_at input start)) then
          if isUpper && (isLowerCase prevChar || isLowerCase nextChar) then Some (score - 2)%Z
          else if isMatcherUpper && bool_decide (prevEnd = Some start)
          then Some (score - (if isUpper then 2 else 20))%Z
          else None
        else Some score in
      match anchored with
      | None => None
      | Some score =>
          let prevEnd := start + str_length tok in
          let score :=
            if negb (String.eqb noise "") && (prevEnd <? endOfName) then (score - rateNoise noise)%Z else score in
          score_groups input endOfName g' (drop 2 ups) (prevEnd + str_length noise) (Some prevEnd) score boundaries
      end
  | _ => Some (score, boundaries)
  end.
Record Found := mkFound { f_input : string; f_score : Z; f_boundaries : list nat }.
Definition score_match (m : Matcher) (input : string) (startOfName endOfName index : nat) (g : list string)
    : option Found :=
  match score_groups input endOfName g (upperCase m) index None 100 [] with
  | None => None
  | Some (score, boundaries) =>
      let matchEnd := index + match_length g in
      let score :=
        if negb (String.eqb (char_at input (matchEnd - 1)) ".") && (matchEnd <? endOfName)
        then (score - rateNoise (slice input matchEnd endOfName))%Z else score in
      let score := (score - rateNoise (slice input 0 (Nat.max startOfName index)))%Z in
      if Z.leb score 0 then None else Some (mkFound input score boundaries)
  end.
(** The fuel is enough when the input does not start with a period (see
    [findMatch_total]). *)
Definition findMatch (m : Matcher) (input : string) (startOfName endOfName : nat) : option (option Found) :=
  match find_loop (startOfName + 1) (pattern m) input startOfName endOfName startOfName with
  | None => None
  | Some None => Some None
  | Some (Some (index, g)) => Some (score_match m input startOfName endOfName index g)
  end.

(** ** [doSearch] *)
Definition MAX_RESULTS : nat := 300.
Definition getPrefix (item : Item) (cat : category) : string :=
  match cat with
  | packages => checkUnnamed (m_ item) "/"
  | types => checkUnnamed (p_ item) "."
  | members => checkUnnamed (p_ item) "." ++ c_ item ++ "."
  | _ => ""
  end.
Definition has_char (p : ascii → bool) (s : string) : bool := negb (str_forall (λ c, negb (p c)) s).
Definition useQualifiedName (term : string) (cat : category) : bool :=
  match cat with
  | packages => has_char (λ c, is_space c || Ascii.eqb c "/") term
  | types | members => has_char (λ c, is_space c || Ascii.eqb c ".") term
  | _ => false
  end.
(** A result: a match of an entry, or the note that the indexes are being loaded. *)
Record Hit := mkHit {
  hit_item : Item; hit_category : category; hit_prefix : string;
  hit_input : string; hit_score : Z; hit_boundaries : list nat
}.
Inductive Result := RHit (r : Hit) | RLoading (cat : category).

Definition end_of_name (cat : category) (input : string) (startOfName : nat) : nat :=
  match cat with
  | members => default (str_length input) (indexOf input "(" startOfName)
  | _ => str_length input
  end.
Section Search.
Context (term : string) (plainMatcher : Matcher) (camelCaseMatcher : option Matcher).
(** One entry: [None] when a match does not terminate. *)
Definition match_item (cat : category) (item : Item) : option (option Hit) :=
  let prefix := getPrefix item cat in
  let qualifiedName := (prefix ++ l_ item)%string in
  let useQualified := useQualifiedName term cat in
  let input := if useQualified then qualifiedName else l_ item in
  let startOfName := if useQualified then str_length prefix else 0 in
  let endOfName := end_of_name cat input startOfName in
  m ← findMatch plainMatcher input startOfName endOfName;
  m ← match m, camelCaseMatcher with
      | None, Some c => findMatch c input startOfName endOfName
      | _, _ => Some m
      end;
  match m with
  | None => Some None
  | Some f =>
      Some (Some (mkHit item cat prefix
        (if useQualified then f_input f else qualifiedName) (f_score f)
        (if useQualified then f_boundaries f else map (λ b, b + str_length prefix) (f_boundaries f))))
  end.
Fixpoint match_items (cat : category) (l : list Item) : option (list Hit) :=
  match l with
  | [] => Some []
  | item :: l' =>
      m ← match_item cat item;
      rest ← match_items cat l';
      Some (match m with Some x => x :: rest | None => rest end)
  end.
(** [Array.prototype.sort] is stable; insertion sort by descending score. *)
Fixpoint insert_hit (x : Hit) (l : list Hit) : list Hit :=
  match l with
  | [] => [x]
  | y :: l' => if Z.leb (hit_score y) (hit_score x) then x :: l else y :: insert_hit x l'
  end.
Definition sort_hits (l : list Hit) : list Hit := fold_right insert_hit [] l.
(** [indexArray]: missing while the index files are being loaded. *)
Definition searchIndex (indexLoaded : bool) (maxResults : nat) (indexArray : option (list Item)) (cat : category)
    : option (list Result) :=
  match indexArray with
  | None => Some (if indexLoaded then [] else [RLoading cat])
  | Some l => hits ← match_items cat l; Some (map RHit (take maxResults (sort_hits hits)))
  end.
End Search.

Record Indexes := mkIndexes {
  moduleSearchIndex : option (list Item); packageSearchIndex : option (list Item);
  typeSearchIndex : option (list Item); memberSearchIndex : option (list Item);
  tagSearchIndex : option (list Item)
}.
Definition present {A} (o : option A) : bool := match o with Some _ => true | None => false end.
(** [indexFilesLoaded] of script.js *)
Definition indexFilesLoaded (i : Indexes) : bool :=
  present (moduleSearchIndex i) && present (packageSearchIndex i) && present (typeSearchIndex i)
  && present (memberSearchIndex i) && present (tagSearchIndex i).
(** What a search does: it closes the menu or passes results on; the flag says whether
    it is run again when the next index file arrives. *)
Inductive searched := Closed | Responds (l : list Result) (again : bool) | SearchDiverges.
Definition doSearch (i : Indexes) (request_term : string) (maxResults : nat) : searched :=
  let term := trim request_term in
  let max := if maxResults =? 0 then MAX_RESULTS else maxResults in
  if str_length term =? 0 then Closed else
  match createMatcher term false with
  | None => SearchDiverges
  | Some plain =>
      let camel := createMatcher term true in
      let loaded := indexFilesLoaded i in
      let search := searchIndex term plain camel loaded max in
      match
        (a ← search (moduleSearchIndex i) modules; b ← search (packageSearchIndex i) packages;
         c ← search (typeSearchIndex i) types; d ← search (memberSearchIndex i) members;
         e ← search (tagSearchIndex i) searchTags; Some (a ++ b ++ c ++ d ++ e))
      with
      | Some l => Responds l (negb loaded)
      | None => SearchDiverges
      end
  end.
