(* ===== verification/DocSearchProps.v ===== *)
(** * Properties of the search of the documentation site

    Matches terminate and stay inside their entry, results are ranked, and what is shown
    is the text of the entry with the matched parts marked. *)
From Stdlib Require Import ZArith Lia Ascii String Sorting.Permutation Sorting.Sorted.
From stdpp Require Import base strings list sorting.
From S2P Require Import Prelude.
From S2P Require Import JsString.
From S2P Require Import DocSearch.

(** ** Strings *)
Lemma last_from_spec c s i from acc r :
  last_from c s i from acc = Some r → acc = Some r ∨ (i ≤ r ∧ r ≤ from ∧ charAt s (r - i) = Some c).
Proof.
  revert i acc. induction s as [|a s IH]; intros i acc; simpl; [by left|]. intros H.
  destruct (IH _ _ H) as [H1|(H1 & H2 & H3)].
  - destruct (Ascii.eqb_spec a c) as [->|]; simpl in H1; [|by left].
    destruct (Nat.leb_spec i from); [|by left]. injection H1 as <-. right.
    split; [done|]. split; [done|]. by rewrite Nat.sub_diag.
  - right. split; [lia|]. split; [done|]. replace (r - i) with (S (r - S i)) by lia. exact H3.
Qed.
Lemma lastIndexOf_spec s c from i :
  lastIndexOf s c from = Some i → i ≤ from ∧ charAt s i = Some c.
Proof. intros [?|(_ & H1 & H2)]%last_from_spec; [done|]. by rewrite Nat.sub_0_r in H2. Qed.
Lemma str_drop_length n s : str_length (str_drop n s) = str_length s - n.
Proof. revert s. unfold str_length. induction n; intros [|c s]; simpl; auto. Qed.

(** ** Matches *)
Lemma rmatch_length re s cur g :
  rmatch re s cur = Some g → match_length g ≤ str_length cur + str_length s.
Proof.
  revert s cur g. induction re as [|[c|cls|] re IH]; intros s cur g.
  - intros [= <-]. unfold match_length. simpl. lia.
  - destruct s as [|a s]; [done|]. simpl. destruct (ci_eqb a c); [|done]. intros H%IH.
    rewrite str_app_length in H. simpl in H. simpl. lia.
  - revert cur g. induction s as [|a s IHs]; intros cur g; simpl.
    + destruct (rmatch re "" cur) eqn:E; [|done]. intros [= <-]. by apply IH in E.
    + destruct (rmatch re (String a s) cur) eqn:E; [intros [= <-]; by apply IH in E|].
      destruct (cls a); [|done]. intros H%IHs. rewrite str_app_length in H. simpl in H. simpl. lia.
  - simpl. destruct (rmatch re s "") as [g'|] eqn:E; [|done]. intros [= <-]. apply IH in E.
    unfold match_length in *. simpl in *. lia.
Qed.
Lemma exec_from_spec re s i j g :
  exec_from re s i = Some (j, g) → i ≤ j ∧ j + match_length g ≤ i + str_length s.
Proof.
  revert i. induction s as [|a s IH]; intros i; simpl.
  - destruct (rmatch re "" "") eqn:E; [|done]. intros [= <- <-]. apply rmatch_length in E. simpl in E. lia.
  - destruct (rmatch re (String a s) "") eqn:E.
    + intros [= <- <-]. apply rmatch_length in E. simpl in E. lia.
    + intros H%IH. lia.
Qed.
Lemma exec_spec re input from j g :
  exec re input from = Some (j, g) → from ≤ j ∧ j + match_length g ≤ str_length input.
Proof.
  unfold exec. destruct (Nat.ltb_spec (str_length input) from); [done|].
  intros H'%exec_from_spec. rewrite str_drop_length in H'. lia.
Qed.

Lemma find_loop_total fuel re input startOfName endOfName from :
  charAt input 0 ≠ Some "."%char → from < fuel →
  ∃ r, find_loop fuel re input startOfName endOfName from = Some r.
Proof.
  intros Hdot. revert from. induction fuel as [|fuel IH]; intros from Hf; [lia|]. cbn [find_loop].
  destruct (bad_match startOfName endOfName (exec re input from)); [|eauto].
  destruct (Nat.eqb_spec from 0); [eauto|]. apply IH.
  destruct (lastIndexOf input "." (from - 2)) as [i|] eqn:E; [|lia].
  apply lastIndexOf_spec in E as [Hi Hc]. destruct (decide (from = 1)) as [->|]; [|lia].
  replace i with 0 in Hc by lia. done.
Qed.
Lemma find_loop_spec fuel re input startOfName endOfName from i g :
  find_loop fuel re input startOfName endOfName from = Some (Some (i, g)) →
  i + match_length g ≤ str_length input ∧ startOfName ≤ i + match_length g ∧ i ≤ endOfName.
Proof.
  revert from. induction fuel as [|fuel IH]; intros from; [done|]. cbn [find_loop].
  destruct (bad_match startOfName endOfName (exec re input from)) eqn:Hb.
  - destruct (from =? 0); [done|apply IH].
  - intros [= E]. rewrite E in Hb. apply exec_spec in E. simpl in Hb.
    apply orb_false_iff in Hb as [H1%Nat.ltb_ge H2%Nat.ltb_ge]. lia.
Qed.

(** Boundaries in order, between two positions. *)
Fixpoint between (lo : nat) (l : list nat) (hi : nat) : Prop :=
  match l with
  | [] => lo ≤ hi
  | b :: l' => lo ≤ b ∧ between b l' hi
  end.
Lemma between_weaken lo lo' l hi hi' : between lo l hi → lo' ≤ lo → hi ≤ hi' → between lo' l hi'.
Proof. revert lo lo'. induction l as [|b l IH]; intros lo lo'; simpl; [lia|]. intros [H1 H2] ??. split; [lia|eauto]. Qed.
Lemma upper_runs_nonneg b s : (0 ≤ upper_runs b s)%Z.
Proof. revert b. induction s as [|c s IH]; intros b; cbn [upper_runs]; [lia|]. specialize (IH (is_upper c)). destruct (is_upper c && negb b); lia. Qed.
Lemma count_char_nonneg p s : (0 ≤ count_char p s)%Z.
Proof. induction s as [|c s IH]; cbn [count_char]; [lia|]. destruct (p c); lia. Qed.
Lemma rateNoise_nonneg s : (0 ≤ rateNoise s)%Z.
Proof.
  unfold rateNoise. pose proof (upper_runs_nonneg false s). pose proof (count_char_nonneg noise_char s). lia.
Qed.
Lemma pairs_ind (P : list string → Prop) :
  P [] → (∀ a, P [a]) → (∀ a b l, P l → P (a :: b :: l)) → ∀ l, P l.
Proof.
  intros H0 H1 H2 l. assert (H : P l ∧ ∀ a, P (a :: l)); [|apply H].
  induction l as [|x l [IH1 IH2]]; auto.
Qed.
Lemma score_groups_spec input endOfName g ups start prevEnd score bs score' bs' :
  score_groups input endOfName g ups start prevEnd score bs = Some (score', bs') →
  (score' ≤ score)%Z ∧ ∃ ext, bs' = bs ++ ext ∧ between start ext (start + match_length g) ∧
    Nat.Even (length ext).
Proof.
  revert ups start prevEnd score bs. induction g as [|a|tok noise g IH] using pairs_ind;
    intros ups start prevEnd score bs; cbn [score_groups].
  - intros [= <- <-]. split; [done|]. exists []. split; [by rewrite app_nil_r|]. split; [simpl; lia|by exists 0].
  - intros [= <- <-]. split; [done|]. exists []. split; [by rewrite app_nil_r|]. split; [simpl; lia|by exists 0].
  - match goal with |- match ?x with _ => _ end = _ → _ => set (an := x) end.
    assert (Han : ∀ s, an = Some s → (s ≤ score)%Z).
    { intros s0. subst an. repeat case_match; intros [= <-]; lia. }
    destruct an as [s1|]; [|done]. specialize (Han s1 eq_refl).
    intros H. apply IH in H as (Hs & ext & -> & Hb & He). split.
    + pose proof (rateNoise_nonneg noise). case_match; lia.
    + exists (start :: (start + str_length tok) :: ext). split; [by rewrite <- app_assoc|].
      split.
      * unfold match_length in *. simpl. split; [lia|]. split; [lia|].
        eapply between_weaken; [exact Hb|lia|lia].
      * destruct He as [k Hk]. exists (S k). simpl. lia.
Qed.

(** C33. A match of an index entry ends and stays inside it: unless the entry starts
    with a period the search for a match terminates, and the boundaries of a match are
    pairs of positions in ascending order between the start and the end of the entry,
    with a score above 0 and at most 5 (100 units). *)
Theorem findMatch_bounds (m : Matcher) (input : string) (startOfName endOfName : nat) :
  charAt input 0 ≠ Some "."%char →
  ∃ r, findMatch m input startOfName endOfName = Some r ∧
  ∀ f, r = Some f →
    f_input f = input ∧ between 0 (f_boundaries f) (str_length input) ∧
    Nat.Even (length (f_boundaries f)) ∧ (0 < f_score f <= 100)%Z.
Proof.
  intros Hdot. unfold findMatch.
  destruct (find_loop_total (startOfName + 1) (pattern m) input startOfName endOfName startOfName Hdot)
    as [r Hr]; [lia|]. rewrite Hr. destruct r as [[i g]|]; [|by exists None].
  exists (score_match m input startOfName endOfName i g). split; [done|]. intros f.
  apply find_loop_spec in Hr as (Hlen & _ & _). unfold score_match.
  destruct (score_groups input endOfName g (upperCase m) i None 100 []) as [[sc bs]|] eqn:E; [|done].
  apply score_groups_spec in E as (Hsc & ext & -> & Hb & He). simpl.
  case_match eqn:Hz; [done|]. apply Z.leb_gt in Hz. intros [= <-]. simpl. split; [done|].
  split; [eapply between_weaken; [exact Hb|lia|lia]|]. split; [done|].
  split; [lia|]. pose proof (rateNoise_nonneg (slice input 0 (Nat.max startOfName i))).
  pose proof (rateNoise_nonneg (slice input (i + match_length g) endOfName)).
  case_match; lia.
Qed.
Definition foo_matcher : Matcher := mkMatcher (token_items "foo" ++ [REnd; RLazy name_char; REnd]) [false; false].
Lemma findMatch_bounds_witness :
  createMatcher "foo" false = Some foo_matcher ∧
  findMatch foo_matcher "isFooBar(int)" 0 8 = Some (Some (mkFound "isFooBar(int)" 91 [2; 5])) ∧
  ∃ r, findMatch foo_matcher "isFooBar(int)" 0 8 = Some r ∧
  ∀ f, r = Some f →
    f_input f = "isFooBar(int)"%string ∧ between 0 (f_boundaries f) (str_length "isFooBar(int)") ∧
    Nat.Even (length (f_boundaries f)) ∧ (0 < f_score f <= 100)%Z.
Proof.
  split; [lazy; reflexivity|]. split; [lazy; reflexivity|].
  apply (findMatch_bounds foo_matcher "isFooBar(int)" 0 8). discriminate.
Defined.

(** ** Ranking *)
Definition better (a b : Hit) : Prop := (hit_score b <= hit_score a)%Z.
Lemma insert_hit_perm x l : Permutation (insert_hit x l) (x :: l).
Proof.
  induction l as [|y l IH]; simpl; [done|]. destruct (Z.leb _ _); [done|].
  etrans; [by constructor|]. constructor.
Qed.
Lemma sort_hits_perm l : Permutation (sort_hits l) l.
Proof. induction l as [|x l IH]; simpl; [done|]. etrans; [apply insert_hit_perm|]. by constructor. Qed.
Lemma insert_hit_sorted x l : StronglySorted better l → StronglySorted better (insert_hit x l).
Proof.
  induction 1 as [|y l Hl IH Hy]; simpl; [by repeat constructor|].
  destruct (Z.leb_spec (hit_score y) (hit_score x)).
  - constructor; [by constructor|]. constructor; [done|]. eapply Forall_impl; [exact Hy|].
    unfold better. intros z ?. lia.
  - constructor; [done|]. apply Forall_forall. intros z Hz.
    rewrite insert_hit_perm in Hz. apply elem_of_cons in Hz as [->|Hz]; [unfold better; lia|].
    by eapply Forall_forall in Hy.
Qed.
Lemma sort_hits_sorted l : StronglySorted better (sort_hits l).
Proof. induction l as [|x l IH]; simpl; [constructor|]. by apply insert_hit_sorted. Qed.

Lemma match_items_elem term plain camel cat index hits :
  match_items term plain camel cat index = Some hits →
  (∀ h, h ∈ hits ↔ ∃ item, item ∈ index ∧ match_item term plain camel cat item = Some (Some h)).
Proof.
  revert hits. induction index as [|item index IH]; intros hits.
  - intros [= <-] h. split; [by intros ?%elem_of_nil|]. by intros (? & ?%elem_of_nil & _).
  - simpl. unfold mbind, option_bind. destruct (match_item term plain camel cat item) as [m|] eqn:Em; [|done].
    destruct (match_items term plain camel cat index) as [rest|]; [|done]. intros [= <-] h.
    specialize (IH rest eq_refl h). destruct m as [x|].
    + rewrite elem_of_cons, IH. split.
      * intros [->|(i & Hi & Hm)]; [exists item; split; [left|done]|exists i; split; [by right|done]].
      * intros (i & [->|Hi]%elem_of_cons & Hm); [left; congruence|right; eauto].
    + rewrite IH. split.
      * intros (i & Hi & Hm). exists i. split; [by right|done].
      * intros (i & [->|Hi]%elem_of_cons & Hm); [congruence|eauto].
Qed.

(** The ranked hits of a category: of the index, in descending order of score, at most
    [max] of them, and no better hit is left out. *)
Record ranked (term : string) (plain : Matcher) (camel : option Matcher) (cat : category)
    (index : list Item) (max : nat) (hits : list Hit) : Prop := {
  ranked_length : length hits ≤ max;
  ranked_sorted : StronglySorted better hits;
  ranked_sound : ∀ h, h ∈ hits → ∃ item, item ∈ index ∧ match_item term plain camel cat item = Some (Some h);
  ranked_complete : ∀ item h, item ∈ index → match_item term plain camel cat item = Some (Some h) →
    h ∈ hits ∨ (length hits = max ∧ ∀ h', h' ∈ hits → better h' h)
}.
Lemma StronglySorted_take {A} (R : A → A → Prop) n l : StronglySorted R l → StronglySorted R (take n l).
Proof.
  intros H. revert n. induction H as [|a l Hl IH Ha]; intros [|n]; simpl; try constructor; [apply IH|].
  by apply Forall_take.
Qed.
Lemma StronglySorted_app_in {A} (R : A → A → Prop) l1 l2 :
  StronglySorted R (l1 ++ l2) → ∀ a b, a ∈ l1 → b ∈ l2 → R a b.
Proof.
  induction l1 as [|x l1 IH]; simpl; intros H a b Ha Hb; [by apply elem_of_nil in Ha|].
  apply StronglySorted_inv in H as [H1 H2]. apply elem_of_cons in Ha as [->|Ha]; [|by eapply IH].
  eapply Forall_forall; [exact H2|]. apply elem_of_app. by right.
Qed.
Lemma take_sorted_ranked term plain camel cat index max ms :
  match_items term plain camel cat index = Some ms →
  ranked term plain camel cat index max (take max (sort_hits ms)).
Proof.
  intros Hms. pose proof (match_items_elem _ _ _ _ _ _ Hms) as Hel.
  assert (Hin : ∀ h, h ∈ sort_hits ms ↔ h ∈ ms) by (intros h; by rewrite sort_hits_perm).
  split.
  - rewrite length_take. lia.
  - apply StronglySorted_take, sort_hits_sorted.
  - intros h Hh%elem_of_take. destruct Hh as (i & Hi & _). apply list_elem_of_lookup_2 in Hi.
    by apply Hel, Hin.
  - intros item h Hi Hm. assert (Hh : h ∈ sort_hits ms) by (apply Hin, Hel; eauto).
    rewrite <- (take_drop max (sort_hits ms)) in Hh. apply elem_of_app in Hh as [Hh|Hh]; [by left|].
    right. split.
    + rewrite length_take. apply list_elem_of_lookup_1 in Hh as [i Hk]. rewrite lookup_drop in Hk.
      apply lookup_lt_Some in Hk. lia.
    + intros h' Hh'. eapply StronglySorted_app_in; [|exact Hh'|exact Hh]. rewrite take_drop.
      apply sort_hits_sorted.
Qed.

Lemma Responds_inj a b c d : Responds a b = Responds c d → a = c ∧ b = d.
Proof. by injection 1. Qed.
(** C34. A search answers the ranked hits of the five indexes, one category after the
    other: within each, at most the maximum of hits, in descending order of score, all
    of them matches of entries of that index, and a match is only left out when the
    maximum is reached by hits that are at least as good.  When every index is loaded
    there is nothing else in the answer and the search is not repeated. *)
Theorem doSearch_ranked i1 i2 i3 i4 i5 term0 maxResults results again :
  doSearch (mkIndexes (Some i1) (Some i2) (Some i3) (Some i4) (Some i5)) term0 maxResults
    = Responds results again →
  let term := trim term0 in
  let max := if maxResults =? 0 then MAX_RESULTS else maxResults in
  again = false ∧
  ∃ plain camel r1 r2 r3 r4 r5,
    createMatcher term false = Some plain ∧ createMatcher term true = camel ∧
    results = map RHit (r1 ++ r2 ++ r3 ++ r4 ++ r5) ∧
    ranked term plain camel modules i1 max r1 ∧ ranked term plain camel packages i2 max r2 ∧
    ranked term plain camel types i3 max r3 ∧ ranked term plain camel members i4 max r4 ∧
    ranked term plain camel searchTags i5 max r5.
Proof.
  unfold doSearch. destruct (str_length (trim term0) =? 0); [done|].
  destruct (createMatcher (trim term0) false) as [plain|]; [|done].
  unfold mbind, option_bind. cbn [searchIndex moduleSearchIndex packageSearchIndex typeSearchIndex
    memberSearchIndex tagSearchIndex]. unfold mbind, option_bind.
  destruct (match_items _ plain _ modules i1) as [m1|] eqn:E1; [|done].
  destruct (match_items _ plain _ packages i2) as [m2|] eqn:E2; [|done].
  destruct (match_items _ plain _ types i3) as [m3|] eqn:E3; [|done].
  destruct (match_items _ plain _ members i4) as [m4|] eqn:E4; [|done].
  destruct (match_items _ plain _ searchTags i5) as [m5|] eqn:E5; [|done].
  intros [<- <-]%Responds_inj. split; [done|].
  set (best := λ l, take (if maxResults =? 0 then MAX_RESULTS else maxResults) (sort_hits l)).
  exists plain, (createMatcher (trim term0) true), (best m1), (best m2), (best m3), (best m4), (best m5).
  split; [done|]. split; [done|]. split; [by rewrite !map_app|]. split_and!; by apply take_sorted_ranked.
Qed.
Definition demo_item (name : string) : Item := mkItem name None (Some "p"%string) "" None None None None.
Lemma doSearch_ranked_witness :
  let index := [demo_item "FooBar"; demo_item "Other"; demo_item "Foo"]%string in
  let results :=
    [RHit (mkHit (demo_item "Foo") types "p." "p.Foo" 100 [2; 5]);
     RHit (mkHit (demo_item "FooBar") types "p." "p.FooBar" 95 [2; 5])]%string in
  doSearch (mkIndexes (Some []) (Some []) (Some index) (Some []) (Some [])) " foo " 0 = Responds results false ∧
  false = false ∧
  ∃ plain camel r1 r2 r3 r4 r5,
    createMatcher (trim " foo ") false = Some plain ∧ createMatcher (trim " foo ") true = camel ∧
    results = map RHit (r1 ++ r2 ++ r3 ++ r4 ++ r5) ∧
    ranked (trim " foo ") plain camel modules [] MAX_RESULTS r1 ∧
    ranked (trim " foo ") plain camel packages [] MAX_RESULTS r2 ∧
    ranked (trim " foo ") plain camel types index MAX_RESULTS r3 ∧
    ranked (trim " foo ") plain camel members [] MAX_RESULTS r4 ∧
    ranked (trim " foo ") plain camel searchTags [] MAX_RESULTS r5.
Proof.
  intros index results. split; [lazy; reflexivity|].
  apply (doSearch_ranked [] [] index [] [] " foo " 0 results false). lazy. reflexivity.
Defined.

(** ** Highlighted text *)
Fixpoint render (segs : list (bool * string)) : string :=
  match segs with
  | [] => ""
  | (b, s) :: segs' =>
      (if b then highlight_open ++ escapeHtml s ++ highlight_close else escapeHtml s) ++ render segs'
  end%string.
Lemma str_take_take_drop m n u : (str_take m u ++ str_take n (str_drop m u))%string = str_take (m + n) u.
Proof.
  revert u. induction m as [|m IH]; intros u; simpl; [done|]. destruct u as [|c u]; [by destruct n|].
  by rewrite str_app_cons, IH.
Qed.
Lemma slice_slice s i j k : i ≤ j → j ≤ k → (slice s i j ++ slice s j k)%string = slice s i k.
Proof.
  intros H1 H2. unfold slice. replace (str_drop j s) with (str_drop (j - i) (str_drop i s)).
  - rewrite str_take_take_drop. f_equal. lia.
  - rewrite str_drop_drop. f_equal. lia.
Qed.
Lemma slice_empty s i j : j ≤ i → slice s i j = ""%string.
Proof. intros H. unfold slice. by replace (j - i) with 0 by lia. Qed.
Lemma js_slice_nat s i j : i ≤ str_length s → j ≤ str_length s → js_slice s (Z.of_nat i) (Z.of_nat j) = slice s i j.
Proof.
  intros Hi Hj. unfold js_slice, slice_index.
  rewrite !(proj2 (Z.ltb_ge (Z.of_nat _) 0)) by lia. by rewrite !Z.min_l, !Nat2Z.id by lia.
Qed.

Fixpoint segments (str : string) (bs : list nat) (from to start : nat) : list (bool * string) :=
  match bs with
  | b0 :: b1 :: bs' =>
      if (to <=? b0) || (b1 <=? from) then segments str bs' from to start
      else (false, slice str start (Nat.max start b0)) ::
           (true, slice str (Nat.max start b0) (Nat.min to b1)) :: segments str bs' from to (Nat.min to b1)
  | _ => [(false, slice str start to)]
  end.
(** The matched parts, cut to what is shown. *)
Fixpoint matched_parts (str : string) (bs : list nat) (from to : nat) : list string :=
  match bs with
  | b0 :: b1 :: bs' =>
      (if (to <=? b0) || (b1 <=? from) then [] else [slice str (Nat.max from b0) (Nat.min to b1)])
      ++ matched_parts str bs' from to
  | _ => []
  end.
Lemma nat_pairs_ind (P : list nat → Prop) :
  P [] → (∀ a, P [a]) → (∀ a b l, P l → P (a :: b :: l)) → ∀ l, P l.
Proof.
  intros H0 H1 H2 l. assert (H : P l ∧ ∀ a, P (a :: l)); [|apply H].
  induction l as [|x l [IH1 IH2]]; auto.
Qed.
Lemma concat_cons s l : String.concat "" (s :: l) = (s ++ String.concat "" l)%string.
Proof. destruct l; simpl; [by rewrite str_app_nil_r|done]. Qed.
Lemma between_le lo l hi : between lo l hi → lo ≤ hi.
Proof. revert lo. induction l as [|x l IH]; intros lo; simpl; [done|]. intros [? ?%IH]. lia. Qed.
Lemma highlight_loop_segments str bs from to start text :
  from ≤ start → start ≤ to → to ≤ str_length str → between 0 bs (str_length str) →
  (start = from ∨ between start bs (str_length str)) →
  let '(t, st) := highlight_loop str (map Z.of_nat bs) (Z.of_nat from) (Z.of_nat to) (Z.of_nat start) text in
  (t ++ escapeHtml (js_slice str st (Z.of_nat to)))%string = (text ++ render (segments str bs from to start))%string ∧
  String.concat "" (map snd (segments str bs from to start)) = slice str start to ∧
  map snd (List.filter fst (segments str bs from to start)) = matched_parts str bs from to.
Proof.
  revert start text. induction bs as [|a|b0 b1 bs IH] using nat_pairs_ind; intros start text Hf Ht Hlen Hb Hs.
  1, 2: simpl; rewrite js_slice_nat by lia; by rewrite str_app_nil_r.
  cbn [map highlight_loop segments matched_parts].
  assert (Eskip : Z.leb (Z.of_nat to) (Z.of_nat b0) || Z.leb (Z.of_nat b1) (Z.of_nat from) = (to <=? b0) || (b1 <=? from)).
  { f_equal; apply eq_iff_eq_true; rewrite Z.leb_le, Nat.leb_le; lia. }
  rewrite Eskip. clear Eskip. destruct Hb as (_ & Hb01 & Hb).
  assert (Hb0 : between 0 bs (str_length str)) by (eapply between_weaken; [exact Hb|lia|done]).
  destruct (Nat.leb_spec to b0) as [H1|H1]; [|destruct (Nat.leb_spec b1 from) as [H2|H2]]; cbn [orb].
  1, 2: apply IH; [done..|]; destruct Hs as [->|(? & ? & ?)]; [by left|right; eapply between_weaken; [exact Hb|lia|done]].
  pose proof (between_le _ _ _ Hb) as Hb1.
  rewrite <- !Nat2Z.inj_max, <- !Nat2Z.inj_min, !js_slice_nat by lia.
  assert (Hmax : Nat.max start b0 = Nat.max from b0) by (destruct Hs as [->|[? _]]; lia).
  specialize (IH (Nat.min to b1) (text ++ escapeHtml (slice str start (Nat.max start b0)) ++ highlight_open
    ++ escapeHtml (slice str (Nat.max start b0) (Nat.min to b1)) ++ highlight_close)%string).
  destruct (highlight_loop str (map Z.of_nat bs) _ _ _ _) as [t st].
  destruct IH as (IH1 & IH2 & IH3); [lia|lia|done|done|right; eapply between_weaken; [exact Hb|lia|done]|].
  split; [|split].
  - rewrite IH1. cbn [render]. by rewrite !str_app_assoc.
  - cbn [map snd]. rewrite !concat_cons, IH2, slice_slice by lia. apply slice_slice; lia.
  - cbn [List.filter fst map snd app]. by rewrite IH3, Hmax.
Qed.

(** What is shown is the text of the entry with the matched parts marked: for
    ordered boundaries inside the text, the highlighted text is the escaped text
    between the two positions, cut into plain and marked segments, and the marked ones
    are the matched parts that are shown. *)
Theorem highlighted_text str bs from to :
  from ≤ to → to ≤ str_length str → between 0 bs (str_length str) →
  ∃ segs, getHighlightedText str (map Z.of_nat bs) (Z.of_nat from) (Z.of_nat to) = render segs ∧
    String.concat "" (map snd segs) = slice str from to ∧
    map snd (List.filter fst segs) = matched_parts str bs from to.
Proof.
  intros Hft Hto Hb. exists (segments str bs from to from). unfold getHighlightedText.
  pose proof (highlight_loop_segments str bs from to from "" (le_n _) Hft Hto Hb (or_introl eq_refl)) as H.
  destruct (highlight_loop _ _ _ _ _ _) as [t st]. exact H.
Qed.
Lemma highlighted_text_witness :
  getHighlightedText "Map<K>" (map Z.of_nat [0; 3; 4; 5]) 0 6
  = "<span class='result-highlight'>Map</span>&lt;<span class='result-highlight'>K</span>&gt;"%string ∧
  ∃ segs, getHighlightedText "Map<K>" (map Z.of_nat [0; 3; 4; 5]) (Z.of_nat 0) (Z.of_nat 6) = render segs ∧
    String.concat "" (map snd segs) = slice "Map<K>" 0 6 ∧
    map snd (List.filter fst segs) = matched_parts "Map<K>" [0; 3; 4; 5] 0 6.
Proof.
  split; [lazy; reflexivity|]. apply (highlighted_text "Map<K>" [0; 3; 4; 5] 0 6); simpl; lia.
Defined.
(** Outside these bounds: the container of an entry without prefix is asked for up to
    position -1, which is counted from the end of the text. *)
Example container_without_prefix : getHighlightedText "java.util" [] 0 (0 - 1) = "java.uti"%string.
Proof. reflexivity. Qed.
