(* ===== verification/DocPage.v ===== *)
(** * The search page of the documentation site

    Model of search-page.js: the state of the page, the rendering of results in tabs and
    tables, the URL that records a search, the keys that move between tabs, reset and
    the start of the page. *)
From Stdlib Require Import ZArith Lia Ascii String.
From stdpp Require Import base strings list relations.
From S2P Require Import Prelude.
From S2P Require Import JsString.
From S2P Require Import JqParam.
From S2P Require Import DocSearch.

(** ** Messages and categories *)
Definition msg_enterTerm : string := "Enter a search term".
Definition msg_noResult : string := "No results found".
Definition msg_oneResult : string := "Found one result".
Definition msg_manyResults (n : nat) : string := ("Found " ++ indexString n ++ " results")%string.
Definition msg_searching : string := "Searching...".
Definition msg_redirecting : string := "Redirecting to first result...".
Definition cat_name (c : category) : string :=
  match c with
  | types => "types" | members => "members" | packages => "packages" | modules => "modules"
  | searchTags => "searchTags"
  end.
Definition cat_title (c : category) : string :=
  match c with
  | modules => "Modules" | packages => "Packages" | types => "Classes and Interfaces"
  | members => "Members" | searchTags => "Search Tags"
  end.
(** The keys of [r], in order. *)
Definition keys : list category := [types; members; packages; modules; searchTags].
Definition cat_of (s : string) : option category := List.find (λ c, String.eqb (cat_name c) s) keys.

(** ** The page *)
Record Row := mkRow { row_container : option string; row_link : string; row_label : string; row_odd : bool }.
Inductive block :=
  | BTab (cat : category) (count : string) (active : bool)
  | BHeader (cat : category) (count : string)
  | BTable (cat : category) (columns : list string) (rows : list Row).
Record Page := mkPage {
  input : string; searchTerm : string; activeTab : string; fixedTab : bool;
  visibleTabs : list string; feelingLucky : bool; notify : string; sectionShown : bool;
  content : list block; pathname : string; page_url : string; location : option string
}.
Definition set_input (v : string) (p : Page) : Page :=
  mkPage v (searchTerm p) (activeTab p) (fixedTab p) (visibleTabs p) (feelingLucky p) (notify p)
    (sectionShown p) (content p) (pathname p) (page_url p) (location p).
Definition set_searchTerm (v : string) (p : Page) : Page :=
  mkPage (input p) v (activeTab p) (fixedTab p) (visibleTabs p) (feelingLucky p) (notify p)
    (sectionShown p) (content p) (pathname p) (page_url p) (location p).
Definition set_activeTab (v : string) (p : Page) : Page :=
  mkPage (input p) (searchTerm p) v (fixedTab p) (visibleTabs p) (feelingLucky p) (notify p)
    (sectionShown p) (content p) (pathname p) (page_url p) (location p).
Definition set_fixedTab (v : bool) (p : Page) : Page :=
  mkPage (input p) (searchTerm p) (activeTab p) v (visibleTabs p) (feelingLucky p) (notify p)
    (sectionShown p) (content p) (pathname p) (page_url p) (location p).
Definition set_visibleTabs (v : list string) (p : Page) : Page :=
  mkPage (input p) (searchTerm p) (activeTab p) (fixedTab p) v (feelingLucky p) (notify p)
    (sectionShown p) (content p) (pathname p) (page_url p) (location p).
Definition set_feelingLucky (v : bool) (p : Page) : Page :=
  mkPage (input p) (searchTerm p) (activeTab p) (fixedTab p) (visibleTabs p) v (notify p)
    (sectionShown p) (content p) (pathname p) (page_url p) (location p).
Definition set_notify (v : string) (p : Page) : Page :=
  mkPage (input p) (searchTerm p) (activeTab p) (fixedTab p) (visibleTabs p) (feelingLucky p) v
    (sectionShown p) (content p) (pathname p) (page_url p) (location p).
Definition set_sectionShown (v : bool) (p : Page) : Page :=
  mkPage (input p) (searchTerm p) (activeTab p) (fixedTab p) (visibleTabs p) (feelingLucky p)
    (notify p) v (content p) (pathname p) (page_url p) (location p).
Definition set_content (v : list block) (p : Page) : Page :=
  mkPage (input p) (searchTerm p) (activeTab p) (fixedTab p) (visibleTabs p) (feelingLucky p)
    (notify p) (sectionShown p) v (pathname p) (page_url p) (location p).
Definition set_page_url (v : string) (p : Page) : Page :=
  mkPage (input p) (searchTerm p) (activeTab p) (fixedTab p) (visibleTabs p) (feelingLucky p)
    (notify p) (sectionShown p) (content p) (pathname p) v (location p).
Definition set_location (v : option string) (p : Page) : Page :=
  mkPage (input p) (searchTerm p) (activeTab p) (fixedTab p) (visibleTabs p) (feelingLucky p)
    (notify p) (sectionShown p) (content p) (pathname p) (page_url p) v.

(** ** Rendering *)
Definition type_error {A} : outcome A := Throw (JsError "TypeError").
Definition of_category (c : category) (r : Result) : bool :=
  match r with RHit h => bool_decide (hit_category h = c) | RLoading c' => bool_decide (c' = c) end.
(** [r[ c ]] *)
Definition group (result : list Result) (c : category) : list Result := List.filter (of_category c) result.
Definition group_named (result : list Result) (tab : string) : option (list Result) :=
  option_map (group result) (cat_of tab).
Definition first_score (l : list Result) : option Z :=
  match l with RHit h :: _ => Some (hit_score h) | _ => None end.
Fixpoint outcomes {A B} (f : A → outcome B) (l : list A) : outcome (list B) :=
  match l with
  | [] => Ret []
  | x :: l' => y ← f x; ys ← outcomes f l'; Ret (y :: ys)
  end.

Section Page.
Context (packageIndex : list Item).

(** [renderItem]; an entry that stands for an index being loaded has no text. *)
Definition renderItem (odd : bool) (r : Result) : outcome Row :=
  match r with
  | RLoading _ => type_error
  | RHit h =>
      let boundaries := map Z.of_nat (hit_boundaries h) in
      let prefix := Z.of_nat (str_length (hit_prefix h)) in
      let label := getHighlightedText (hit_input h) boundaries prefix (Z.of_nat (str_length (hit_input h))) in
      let container :=
        if decide (hit_category h = searchTags) then default ""%string (h_ (hit_item h))
        else getHighlightedText (hit_input h) boundaries 0 (prefix - 1) in
      Ret (mkRow (if decide (hit_category h = modules) then None else Some container)
             (fst (getURL packageIndex (hit_item h) (hit_category h))) label odd)
  end.
Definition table_columns (c : category) : list string :=
  match c with
  | modules => ["Module"] | packages => ["Module"; "Package"] | types => ["Package"; "Class"]
  | members => ["Class"; "Member"] | searchTags => ["Location"; "Name"]
  end%string.
Definition renderTable (c : category) (items : list Result) : outcome block :=
  rows ← outcomes (λ p, renderItem (Nat.odd (fst p)) (snd p)) (imap pair items);
  Ret (BTable c (table_columns c) rows).

(** The category whose first result has the highest score. *)
Definition choose_tab (result : list Result) (tab : string) : string :=
  snd (fold_left (λ acc c,
    match first_score (group result c) with
    | Some score => if Z.ltb (fst acc) score then (score, cat_name c) else acc
    | None => acc
    end) keys (0%Z, tab)).
Definition result_message (result : list Result) : string :=
  match result with [] => msg_noResult | [_] => msg_oneResult | _ => msg_manyResults (length result) end.
Definition ends_with_period (s : string) : bool :=
  match last (list_ascii_of_string s) with Some c => Ascii.eqb c "." | None => false end.
(** "if (result.length > 20)": a term that ends with a period looks for what is inside. *)
Definition adjust_tab (result : list Result) (term tab : string) : string :=
  if (20 <? length result) && ends_with_period term then
    if String.eqb tab "types" && (length (group result types) <? length (group result members)) then "members"
    else if String.eqb tab "packages" && (length (group result packages) <? length (group result types))
    then "types" else tab
  else tab.
Definition categoryCount (result : list Result) : nat :=
  length (List.filter (λ c, negb (length (group result c) =? 0)) keys).
Definition count_text (n : nat) : string := if 1000 <=? n then "999+" else indexString n.
Definition with_tabs (result : list Result) : bool := (20 <? length result) && (1 <? categoryCount result).
Definition nonempty_keys (result : list Result) : list category :=
  List.filter (λ c, negb (length (group result c) =? 0)) keys.
Definition append_block (x : block) (p : Page) : Page := set_content (content p ++ [x]) p.
(** The tabs, or a header and a table for each category. *)
Definition render_key (result : list Result) (active : string) (c : category) : M Page unit :=
  let count := count_text (length (group result c)) in
  if with_tabs result then
    modify (λ p, set_visibleTabs (visibleTabs p ++ [cat_name c])
                   (append_block (BTab c count (String.eqb (cat_name c) active)) p))
  else
    modify (append_block (BHeader c count));;
    t ← lift (renderTable c (group result c));
    modify (append_block t).
Fixpoint for_keys (f : category → M Page unit) (l : list category) : M Page unit :=
  match l with [] => mret tt | c :: l' => f c;; for_keys f l' end.
Definition render_active (result : list Result) (active : string) : M Page unit :=
  if negb (String.eqb active "") && with_tabs result then
    match cat_of active with
    | Some c => t ← lift (renderTable c (group result c)); modify (append_block t)
    | None => raise (JsError "TypeError")
    end
  else mret tt.
(** The tab before results are shown. *)
Definition settle_tab (p : Page) (result : list Result) : outcome string :=
  if String.eqb (activeTab p) "" then Ret (choose_tab result (activeTab p)) else
  match group_named result (activeTab p) with
  | None => type_error
  | Some l =>
      Ret (if (length l =? 0) || negb (fixedTab p) then choose_tab result (activeTab p) else activeTab p)
  end.
(** [renderResults], also with the page it leaves when it throws. *)
Definition renderResults (result : list Result) : M Page unit :=
  modify (λ p, set_content [] (set_notify (result_message result) p));;
  p ← gets id;
  tab ← lift (settle_tab p result);
  modify (set_activeTab tab);;
  if feelingLucky p && negb (String.eqb tab "") then
    modify (set_notify msg_redirecting);;
    match group_named result tab with
    | Some (RHit h :: _) =>
        modify (set_location (Some (fst (getURL packageIndex (hit_item h) (hit_category h)))))
    | _ => raise (JsError "TypeError")
    end
  else
    let tab := adjust_tab result (searchTerm p) tab in
    modify (λ p, set_visibleTabs [] (set_activeTab tab p));;
    for_keys (render_key result tab) (nonempty_keys result);;
    render_active result tab;;
    modify (set_sectionShown true).

(** ** The search of the page *)
(** [encodeURI] *)
Definition encodeURI (s : string) : string :=
  str_flat (λ c, if existsb (Ascii.eqb c) (list_ascii_of_string ";/?:@&=+$,#") then String c "" else encode_char c) s.
Definition search_url (p : Page) : string :=
  let query := trim (input p) in
  if String.eqb query "" then pathname p else
  (pathname p ++ "?q=" ++ encodeURI query ++
   (if negb (String.eqb (activeTab p) "") && fixedTab p then "&c=" ++ activeTab p else ""))%string.
(** [history.replaceState] *)
Definition setSearchUrl (p : Page) : Page := set_page_url (search_url p) p.
Definition close_results (p : Page) : Page :=
  set_sectionShown false (set_content [] (set_fixedTab false (set_activeTab "" (set_notify msg_enterTerm p)))).
(** [doPageSearch]; [search] is [doSearch] on the indexes for a maximum of 1200. *)
Definition doPageSearch (search : string → searched) : M Page unit :=
  modify setSearchUrl;;
  p ← gets id;
  let term := trim (input p) in
  modify (set_searchTerm term);;
  if String.eqb term "" then modify close_results
  else
    modify (set_notify msg_searching);;
    match search term with
    | Responds result _ => renderResults result
    | Closed => raise (JsError "TypeError")
    | SearchDiverges => mret tt
    end.

(** ** Events *)
(** A click on a tab: [renderResult]. *)
Definition not_table (b : block) : bool := match b with BTable _ _ _ => false | _ => true end.
Definition mark_tab (c : category) (b : block) : block :=
  match b with BTab c' n _ => BTab c' n (bool_decide (c' = c)) | _ => b end.
Definition click_tab (result : list Result) (c : category) : M Page unit :=
  modify (λ p, setSearchUrl (set_activeTab (cat_name c) (set_fixedTab true p)));;
  modify (λ p, set_content (List.filter not_table (content p)) p);;
  t ← lift (renderTable c (group result c));
  modify (λ p, set_content (map (mark_tab c) (content p) ++ [t]) p).
(** [idx % visibleTabs.length] after the arrow key. *)
Fixpoint index_of (s : string) (l : list string) : option nat :=
  match l with [] => None | x :: l' => if String.eqb s x then Some 0 else option_map S (index_of s l') end.
Definition arrow_target (left : bool) (tabs : list string) (active : string) : option string :=
  if negb (String.eqb active "") && (1 <? length tabs) then
    let n := Z.of_nat (length tabs) in
    let idx := (match index_of active tabs with Some i => Z.of_nat i | None => -1 end)%Z in
    tabs !! Z.to_nat (Z.rem (idx + (if left then n - 1 else 1)) n)
  else None.
(** The keydown handler: [selectTab] clicks the button of the category. *)
Definition arrow_key (result : list Result) (left : bool) : M Page unit :=
  p ← gets id;
  match arrow_target left (visibleTabs p) (activeTab p) with
  | Some tab => match cat_of tab with Some c => click_tab result c | None => mret tt end
  | None => mret tt
  end.
(** [input.on("input", …)] without the delay. *)
Definition type_text (search : string → searched) (s : string) : M Page unit :=
  modify (λ p, set_feelingLucky false (set_input s p));;
  doPageSearch search.
Definition reset_page (p : Page) : Page :=
  setSearchUrl (set_input "" (set_content [] (set_fixedTab false (set_activeTab ""
    (set_sectionShown false (set_notify msg_enterTerm p)))))).

(** ** The start of the page *)
Definition blank (path query : string) : Page :=
  mkPage "" "" "" false [] false "" false [] path (path ++ (if String.eqb query "" then "" else "?" ++ query)) None.
(** The parameters of [URLSearchParams]. *)
Definition get_param (name query : string) : option string :=
  option_map snd (List.find (λ p, String.eqb (fst p) name) (decode_query query)).
Definition read_params (query : string) (p : Page) : Page :=
  let p := match get_param "q" query with Some q => set_input q p | None => p end in
  let p := match get_param "c" query with Some c => set_fixedTab true (set_activeTab c p) | None => p end in
  match get_param "r" query with
  | Some r => if String.eqb r "" then p else set_feelingLucky true p
  | None => p
  end.
Definition start_page (search : string → searched) (path query : string) : outcome unit * Page :=
  (modify (read_params query);;
   p ← gets id;
   if String.eqb (input p) "" then modify (set_notify msg_enterTerm) else doPageSearch search)
    (blank path query).
End Page.

(** ** The link template of the page *)
Fixpoint before_any (cs : string) (s : string) : string :=
  match s with
  | EmptyString => EmptyString
  | String c t => if existsb (Ascii.eqb c) (list_ascii_of_string cs) then EmptyString else String c (before_any cs t)
  end.
Definition setSearchUrlTemplate (href : string) (redirect : bool) : string :=
  (before_any "#?" href ++ "?q=" ++ "%s" ++ (if redirect then "&r=1" else ""))%string.
