(* ===== verification/DocPageProps.v ===== *)
(** * Properties of the search page

    The URL of a search restores it, and the tabs stay consistent with the results. *)
From Stdlib Require Import ZArith Lia Ascii String.
From stdpp Require Import base strings list relations.
From S2P Require Import Prelude.
From S2P Require Import JsString.
From S2P Require Import JqParam.
From S2P Require Import DocSearch.
From S2P Require Import DocSearchProps.
From S2P Require Import DocPage.

(** ** The URL of a search *)
Definition uri_char (c : ascii) : string :=
  if existsb (Ascii.eqb c) (list_ascii_of_string ";/?:@&=+$,#") then String c "" else encode_char c.
Lemma decode_uri_char c t :
  Ascii.eqb c "+" = false → form_decode (uri_char c ++ t) = String c (form_decode t).
Proof. by ascii_cases c. Qed.
Lemma uri_char_amp c : Ascii.eqb c "&" = false → lacks "&" (uri_char c) = true.
Proof. by ascii_cases c. Qed.
Lemma uri_char_hash c : Ascii.eqb c "#" = false → lacks "#" (uri_char c) = true.
Proof. by ascii_cases c. Qed.
Lemma lacks_cons c a s : lacks c (String a s) = true → Ascii.eqb a c = false ∧ lacks c s = true.
Proof. unfold lacks. simpl. intros [H1 H2]%andb_true_iff. by apply negb_true_iff in H1. Qed.
Lemma decode_encodeURI s : lacks "+" s = true → form_decode (encodeURI s) = s.
Proof.
  induction s as [|c s IH]; [done|]. intros [Hc Hs]%lacks_cons. change (encodeURI (String c s)) with
    (uri_char c ++ encodeURI s)%string. by rewrite decode_uri_char, IH.
Qed.
Lemma encodeURI_lacks d s :
  (∀ c, Ascii.eqb c d = false → lacks d (uri_char c) = true) → lacks d s = true → lacks d (encodeURI s) = true.
Proof.
  intros H. induction s as [|c s IH]; [done|]. intros [Hc Hs]%lacks_cons.
  change (encodeURI (String c s)) with (uri_char c ++ encodeURI s)%string.
  rewrite lacks_app, IH, H by done. done.
Qed.
Lemma decode_q e : decode_pair ("q=" ++ e) = ("q"%string, form_decode e).
Proof.
  unfold decode_pair. assert (E : ("q=" ++ e)%string = ("q" ++ String "=" e)%string) by done.
  rewrite E, split_on_first by done. by rewrite join_split.
Qed.
(** The query of the URL of a search. *)
Definition search_query (p : Page) : string :=
  ("q=" ++ encodeURI (trim (input p)) ++
   (if negb (String.eqb (activeTab p) "") && fixedTab p then "&c=" ++ activeTab p else ""))%string.
Definition plain_query (q : string) : bool := lacks "&" q && lacks "#" q && lacks "+" q.
Lemma decode_search_query p :
  plain_query (trim (input p)) = true → activeTab p = ""%string ∨ is_Some (cat_of (activeTab p)) →
  decode_query (search_query p) =
  ("q"%string, trim (input p)) ::
  (if negb (String.eqb (activeTab p) "") && fixedTab p then [("c"%string, activeTab p)] else []).
Proof.
  unfold plain_query. intros [[H1 H2]%andb_true_iff H3]%andb_true_iff Htab.
  unfold search_query, decode_query. set (q := trim (input p)) in *.
  assert (He : lacks "&" ("q=" ++ encodeURI q) = true).
  { rewrite lacks_app. by rewrite (encodeURI_lacks "&" q uri_char_amp). }
  destruct (negb (String.eqb (activeTab p) "") && fixedTab p) eqn:Et.
  - apply andb_true_iff in Et as [Et _]. apply negb_true_iff, String.eqb_neq in Et.
    destruct Htab as [?|[c Hc]]; [done|]. apply List.find_some in Hc as [_ Hc]. apply String.eqb_eq in Hc.
    rewrite <- Hc. rewrite <- str_app_assoc.
    assert (E : (("q=" ++ encodeURI q) ++ "&c=" ++ cat_name c)%string
                = (("q=" ++ encodeURI q) ++ String "&" ("c=" ++ cat_name c))%string) by done.
    rewrite E, split_on_first by done.
    destruct (String.eqb_spec (("q=" ++ encodeURI q) ++ String "&" ("c=" ++ cat_name c)) "") as [E'|_]; [done|].
    cbn [map]. rewrite decode_q, decode_encodeURI by done. f_equal. by destruct c.
  - rewrite str_app_nil_r. rewrite split_on_lacks by done. cbn [map].
    rewrite decode_q, decode_encodeURI by done. done.
Qed.

(** The URL that records a search restores it: for a query without [&], [#] and
    [+], the URL of the page is its path and a query, and a page started with that
    query has the trimmed query as its input and the tab that was chosen, fixed if and
    only if it was chosen by the user. *)
Theorem search_url_roundtrip (p : Page) :
  plain_query (trim (input p)) = true → trim (input p) ≠ ""%string →
  activeTab p = ""%string ∨ is_Some (cat_of (activeTab p)) →
  ∃ query, search_url p = (pathname p ++ "?" ++ query)%string ∧ lacks "#" query = true ∧
    let p' := read_params query (blank (pathname p) query) in
    input p' = trim (input p) ∧ feelingLucky p' = false ∧
    (activeTab p', fixedTab p') =
      (if negb (String.eqb (activeTab p) "") && fixedTab p then (activeTab p, true) else (""%string, false)).
Proof.
  intros Hq Hne Htab. exists (search_query p). split; [|split].
  - unfold search_url, search_query. by rewrite (proj2 (String.eqb_neq _ _) Hne).
  - unfold plain_query in Hq. apply andb_true_iff in Hq as [[_ Hh]%andb_true_iff _].
    unfold search_query. rewrite !lacks_app, (encodeURI_lacks "#" _ uri_char_hash) by done.
    destruct (negb (String.eqb (activeTab p) "") && fixedTab p) eqn:Et; [|done].
    apply andb_true_iff in Et as [Et _]. apply negb_true_iff, String.eqb_neq in Et.
    destruct Htab as [?|[c Hc]]; [done|]. apply List.find_some in Hc as [_ Hc]. apply String.eqb_eq in Hc.
    rewrite <- Hc. by destruct c.
  - unfold read_params, get_param. rewrite decode_search_query by done. cbn.
    by destruct (negb (String.eqb (activeTab p) "") && fixedTab p).
Qed.
Definition demo_page : Page :=
  mkPage " Foo bar " "Foo bar" "types" true ["types"; "members"] false "" true [] "/api/search.html" "" None.
Lemma search_url_roundtrip_witness :
  search_url demo_page = "/api/search.html?q=Foo%20bar&c=types"%string ∧
  ∃ query, search_url demo_page = (pathname demo_page ++ "?" ++ query)%string ∧ lacks "#" query = true ∧
    let p' := read_params query (blank (pathname demo_page) query) in
    input p' = trim (input demo_page) ∧ feelingLucky p' = false ∧
    (activeTab p', fixedTab p') =
      (if negb (String.eqb (activeTab demo_page) "") && fixedTab demo_page
       then (activeTab demo_page, true) else (""%string, false)).
Proof.
  split; [lazy; reflexivity|].
  apply (search_url_roundtrip demo_page); [lazy; reflexivity|discriminate|right; exists types; reflexivity].
Defined.
(** Other queries are cut or changed: [encodeURI] leaves ampersands and plus signs. *)
Example search_url_ampersand :
  let p := set_input "a&b" demo_page in
  let p' := read_params (search_query p) (blank (pathname p) (search_query p)) in
  input p = "a&b"%string ∧ input p' = "a"%string.
Proof. split; reflexivity. Qed.

(** ** Tabs *)
(** What the indexes give: a note for a category that is being loaded, or hits with
    positive scores. *)
Definition good_results (result : list Result) : Prop :=
  ∀ c, group result c = [RLoading c] ∨ Forall (λ r, match r with RHit h => (0 < hit_score h)%Z | _ => False end) (group result c).
(** Every search answers good results. *)
Lemma score_match_pos m input a b i g f : score_match m input a b i g = Some f → (0 < f_score f)%Z.
Proof.
  unfold score_match. destruct (score_groups _ _ _ _ _ _ _ _) as [[score bs]|]; [|done].
  destruct (Z.leb _ 0) eqn:E; [done|]. intros [= <-]. by apply Z.leb_gt in E.
Qed.
Lemma findMatch_pos m input a b f : findMatch m input a b = Some (Some f) → (0 < f_score f)%Z.
Proof.
  unfold findMatch. destruct (find_loop _ _ _ _ _ _) as [[[index g]|]|]; [|done|done].
  intros [= H]. by eapply score_match_pos.
Qed.
Lemma match_item_pos term plain camel cat item h :
  match_item term plain camel cat item = Some (Some h) → hit_category h = cat ∧ (0 < hit_score h)%Z.
Proof.
  unfold match_item, mbind, option_bind.
  set (input := if useQualifiedName term cat then _ else _). set (start := if useQualifiedName term cat then _ else _).
  destruct (findMatch plain _ _ _) as [[f|]|] eqn:E1; [| |done].
  - intros [= <-]. split; [done|]. by apply findMatch_pos in E1.
  - destruct camel as [m|]; [|done]. destruct (findMatch m _ _ _) as [[f|]|] eqn:E2; [|done|done].
    intros [= <-]. split; [done|]. by apply findMatch_pos in E2.
Qed.
Definition positive_hit (r : Result) : Prop := match r with RHit h => (0 < hit_score h)%Z | _ => False end.
Lemma searchIndex_good term plain camel loaded max index cat l :
  searchIndex term plain camel loaded max index cat = Some l →
  Forall (λ r, of_category cat r = true) l ∧ (l = [RLoading cat] ∨ Forall positive_hit l).
Proof.
  unfold searchIndex. destruct index as [items|].
  - unfold mbind, option_bind. destruct (match_items _ _ _ _ _) as [ms|] eqn:E; [|done]. intros [= <-].
    assert (H : Forall (λ h, hit_category h = cat ∧ (0 < hit_score h)%Z) (take max (sort_hits ms))).
    { apply Forall_take. rewrite sort_hits_perm. apply Forall_forall.
      intros h (item & _ & Hm)%(match_items_elem _ _ _ _ _ _ E). by eapply match_item_pos. }
    split; [|right]; apply Forall_fmap; eapply Forall_impl; [exact H| |exact H|]; intros h [Hc Hs]; [|done].
    by apply bool_decide_eq_true.
  - intros [= <-]. destruct loaded; [by split; [|right]|]. split; [|by left].
    constructor; [|done]. by apply bool_decide_eq_true.
Qed.
Lemma group_all c l : Forall (λ r, of_category c r = true) l → group l c = l.
Proof. induction 1 as [|r l Hr _ IH]; [done|]. unfold group in *. simpl. by rewrite Hr, IH. Qed.
Lemma group_none c c' l : c' ≠ c → Forall (λ r, of_category c' r = true) l → group l c = [].
Proof.
  intros Hne. induction 1 as [|r l Hr _ IH]; [done|]. unfold group in *. simpl. rewrite IH.
  destruct r; simpl in *; apply bool_decide_eq_true in Hr as ->; by rewrite bool_decide_eq_false_2.
Qed.
Lemma group_app c l1 l2 : group (l1 ++ l2) c = group l1 c ++ group l2 c.
Proof. apply List.filter_app. Qed.
Lemma doSearch_good i term max results again :
  doSearch i term max = Responds results again → good_results results.
Proof.
  unfold doSearch. destruct (_ =? 0); [done|]. destruct (createMatcher _ false) as [plain|]; [|done].
  unfold mbind, option_bind.
  repeat match goal with |- context [searchIndex ?t ?p ?k ?l ?m ?x ?c] =>
    let E := fresh "E" in destruct (searchIndex t p k l m x c) eqn:E; [apply searchIndex_good in E as [? ?]|done] end.
  intros [<- _]%Responds_inj c. rewrite !group_app.
  destruct c; repeat match goal with
    | H : Forall (λ r, of_category ?c r = true) ?l |- context [group ?l ?c] => rewrite (group_all c l H)
    | H : Forall (λ r, of_category ?c' r = true) ?l |- context [group ?l ?c] => rewrite (group_none c c' l ltac:(done) H)
    end; rewrite ?app_nil_r; simpl; assumption.
Qed.
Record tabs_ok (p : Page) : Prop := {
  tabs_nodup : NoDup (visibleTabs p);
  tabs_names : Forall (λ s, is_Some (cat_of s)) (visibleTabs p);
  tabs_active : activeTab p = ""%string ∨ activeTab p ∈ visibleTabs p ∨ visibleTabs p = [];
  tabs_lucky : feelingLucky p = true → visibleTabs p = []
}.
Lemma cat_of_name c : cat_of (cat_name c) = Some c.
Proof. by destruct c. Qed.
Lemma cat_name_inj c c' : cat_name c = cat_name c' → c = c'.
Proof. by destruct c, c'. Qed.
Lemma all_keys c : c ∈ keys.
Proof. destruct c; unfold keys; set_solver. Qed.
Lemma nonempty_keys_elem result c : c ∈ nonempty_keys result ↔ group result c ≠ [].
Proof.
  unfold nonempty_keys. rewrite filter_elem, negb_true_iff, Nat.eqb_neq. split.
  - intros [_ H] E. by rewrite E in H.
  - intros H. split; [apply all_keys|]. by destruct (group result c).
Qed.
Lemma nonempty_names_ok result :
  NoDup (map cat_name (nonempty_keys result)) ∧ Forall (λ s, is_Some (cat_of s)) (map cat_name (nonempty_keys result)).
Proof.
  split.
  - apply NoDup_fmap_2_strong; [intros; by apply cat_name_inj|]. unfold nonempty_keys.
    apply NoDup_ListNoDup, List.NoDup_filter, NoDup_ListNoDup. unfold keys. repeat constructor; set_solver.
  - apply Forall_map, Forall_forall. intros c _. rewrite cat_of_name. eauto.
Qed.

(** The chosen tab has results as soon as some category has hits. *)
Lemma choose_tab_in result tab :
  good_results result → (∃ c h l, group result c = RHit h :: l) →
  ∃ c, choose_tab result tab = cat_name c ∧ group result c ≠ [].
Proof.
  intros Hgood (c0 & h0 & l0 & E0). unfold choose_tab.
  assert (H : ∀ ks acc, (∃ c, snd acc = cat_name c ∧ group result c ≠ []) ∨ (fst acc = 0%Z ∧ c0 ∈ ks) →
    ∃ c, snd (fold_left (λ acc c, match first_score (group result c) with
      | Some score => if Z.ltb (fst acc) score then (score, cat_name c) else acc
      | None => acc end) ks acc) = cat_name c ∧ group result c ≠ []).
  { induction ks as [|c ks IH]; intros acc Hacc; simpl.
    - destruct Hacc as [H|[_ H]]; [done|by apply elem_of_nil in H].
    - apply IH. destruct (first_score (group result c)) as [sc|] eqn:Es.
      + assert (Hne : group result c ≠ []) by (by intros E; rewrite E in Es).
        destruct (Z.ltb_spec (fst acc) sc); [left; by exists c|].
        destruct Hacc as [Hl|[H0 _]]; [by left|]. exfalso. destruct (Hgood c) as [E|Hall]; [by rewrite E in Es|].
        destruct (group result c) as [|[h|] l]; [done| |done]. injection Es as <-.
        apply Forall_cons in Hall as [Hp _]. lia.
      + destruct Hacc as [Hl|[H0 Hin]]; [by left|]. right. split; [done|].
        apply elem_of_cons in Hin as [<-|Hin]; [|done]. by rewrite E0 in Es. }
  apply H. right. split; [done|apply all_keys].
Qed.
Lemma group_lengths result :
  length result = list_sum (map (λ c, length (group result c)) keys).
Proof.
  induction result as [|r result IH]; [done|]. cbn [length]. rewrite IH. unfold group, keys. simpl.
  unfold of_category. destruct r as [h|c]; [destruct (hit_category h)|destruct c]; simpl; lia.
Qed.
Lemma many_results_hit result :
  good_results result → 20 < length result → ∃ c h l, group result c = RHit h :: l.
Proof.
  intros Hgood Hlen. rewrite group_lengths in Hlen.
  assert (H : (∃ c h l, group result c = RHit h :: l) ∨ ∀ c, length (group result c) ≤ 1).
  { assert (Hc : ∀ c, (∃ h l, group result c = RHit h :: l) ∨ length (group result c) ≤ 1).
    { intros c. destruct (Hgood c) as [->|Hall]; [by right|]. destruct (group result c) as [|[h|] l]; [right; simpl; lia|eauto|].
      by apply Forall_cons in Hall as [[] _]. }
    destruct (Hc types), (Hc members), (Hc packages), (Hc modules), (Hc searchTags); try (left; eauto; fail).
    right. by intros []. }
  destruct H as [H|H]; [done|]. exfalso. unfold keys in Hlen. simpl in Hlen.
  pose proof (H types). pose proof (H members). pose proof (H packages). pose proof (H modules).
  pose proof (H searchTags). lia.
Qed.
Lemma adjust_tab_in result term tab :
  (∃ c, tab = cat_name c ∧ group result c ≠ []) →
  ∃ c, adjust_tab result term tab = cat_name c ∧ group result c ≠ [].
Proof.
  intros Htab. unfold adjust_tab. destruct (_ && _); [|done].
  destruct (String.eqb tab "types" && _) eqn:E1.
  - apply andb_true_iff in E1 as [_ E1%Nat.ltb_lt]. exists members. split; [done|].
    intros E. rewrite E in E1. simpl in E1. lia.
  - destruct (String.eqb tab "packages" && _) eqn:E2; [|done].
    apply andb_true_iff in E2 as [_ E2%Nat.ltb_lt]. exists types. split; [done|].
    intros E. rewrite E in E2. simpl in E2. lia.
Qed.
Lemma settle_tab_in p result tab :
  good_results result → 20 < length result → settle_tab p result = Ret tab →
  ∃ c, tab = cat_name c ∧ group result c ≠ [].
Proof.
  intros Hgood Hlen. pose proof (many_results_hit result Hgood Hlen) as Hhit. unfold settle_tab.
  destruct (String.eqb (activeTab p) ""); [intros [= <-]; by apply choose_tab_in|].
  unfold group_named. destruct (cat_of (activeTab p)) as [c|] eqn:Ec; [|done]. cbn [option_map].
  destruct (Nat.eqb_spec (length (group result c)) 0) as [E|E]; cbn [orb];
    [intros [= <-]; by apply choose_tab_in|].
  destruct (negb (fixedTab p)); intros [= <-]; [by apply choose_tab_in|]. exists c.
  apply List.find_some in Ec as [_ Ec%String.eqb_eq]. split; [done|].
  intros E'. by rewrite E' in E.
Qed.

(** *** Computations that keep a property of the page *)
Definition keeps (I : Page → Prop) {A} (P : Page → Prop) (m : M Page A) : Prop := ∀ p, P p → I (snd (m p)).
Section Render.
Context (packageIndex : list Item).
Lemma render_tabs result tab ks p :
  with_tabs result = true →
  for_keys (render_key packageIndex result tab) ks p =
    (Ret tt, snd (for_keys (render_key packageIndex result tab) ks p)) ∧
  let p' := snd (for_keys (render_key packageIndex result tab) ks p) in
  visibleTabs p' = visibleTabs p ++ map cat_name ks ∧ activeTab p' = activeTab p ∧ feelingLucky p' = feelingLucky p.
Proof.
  intros Ht. revert p. induction ks as [|c ks IH]; intros p; cbn [for_keys map].
  - split; [done|]. simpl. by rewrite app_nil_r.
  - set (q := set_visibleTabs (visibleTabs p ++ [cat_name c])
      (append_block (BTab c (count_text (length (group result c))) (String.eqb (cat_name c) tab)) p)).
    assert (E : render_key packageIndex result tab c p = (Ret tt, q)) by (unfold render_key; by rewrite Ht).
    unfold mbind, M_bind. rewrite E. destruct (IH q) as (E' & Hv & Ha & Hl). split; [exact E'|].
    split; [|done]. cbn zeta in Hv |- *. rewrite Hv. simpl. by rewrite <- app_assoc.
Qed.
Lemma render_no_tabs result tab ks p :
  with_tabs result = false →
  let p' := snd (for_keys (render_key packageIndex result tab) ks p) in
  visibleTabs p' = visibleTabs p ∧ activeTab p' = activeTab p ∧ feelingLucky p' = feelingLucky p.
Proof.
  intros Ht. revert p. induction ks as [|c ks IH]; intros p; cbn [for_keys]; [done|].
  unfold mbind, M_bind.
  assert (E : let p' := snd (render_key packageIndex result tab c p) in
    visibleTabs p' = visibleTabs p ∧ activeTab p' = activeTab p ∧ feelingLucky p' = feelingLucky p).
  { unfold render_key. rewrite Ht. unfold mbind, M_bind, modify, lift.
    by destruct (renderTable packageIndex c (group result c)). }
  destruct (render_key packageIndex result tab c p) as [[[]|] q]; [|exact E].
  destruct (IH q) as (H1 & H2 & H3). destruct E as (E1 & E2 & E3). cbn zeta.
  by rewrite H1, H2, H3.
Qed.

(** Two pages with the same tabs. *)
Definition same_tabs (p q : Page) : Prop :=
  visibleTabs q = visibleTabs p ∧ activeTab q = activeTab p ∧ feelingLucky q = feelingLucky p.
Lemma same_tabs_ok p q : same_tabs p q → tabs_ok p → tabs_ok q.
Proof. intros (E1 & E2 & E3) [H1 H2 H3 H4]. split; by rewrite ?E1, ?E2, ?E3. Qed.
Lemma no_tabs_ok p : visibleTabs p = [] → tabs_ok p.
Proof. intros E. split; rewrite E; [constructor|done|by right; right|done]. Qed.
Lemma with_tabs_many result : with_tabs result = true → 20 < length result.
Proof. unfold with_tabs. by intros [?%Nat.ltb_lt _]%andb_true_iff. Qed.
Lemma render_active_same result tab p : same_tabs p (snd (render_active packageIndex result tab p)).
Proof.
  unfold render_active. destruct (_ && _); [|done]. destruct (cat_of tab) as [c|]; [|done].
  unfold mbind, M_bind, lift, modify. by destruct (renderTable packageIndex c (group result c)).
Qed.
Lemma finish_same result tab p :
  same_tabs p (snd ((render_active packageIndex result tab;; modify (set_sectionShown true)) p)).
Proof.
  unfold mbind, M_bind. pose proof (render_active_same result tab p) as H.
  destruct (render_active packageIndex result tab p) as [[[]|] q]; exact H.
Qed.
Lemma renderResults_tabs result p :
  good_results result → tabs_ok p → tabs_ok (snd (renderResults packageIndex result p)).
Proof.
  intros Hgood Hp. unfold renderResults.
  set (p1 := set_content [] (set_notify (result_message result) p)).
  assert (Hp1 : tabs_ok p1) by (apply (same_tabs_ok p); done).
  unfold mbind at 1, M_bind at 1, modify at 1. fold p1.
  unfold mbind at 1, M_bind at 1, gets at 1. unfold mbind at 1, M_bind at 1, lift at 1.
  change (id p1) with p1.
  destruct (settle_tab p1 result) as [tab|e] eqn:Es; [|exact Hp1].
  unfold mbind at 1, M_bind at 1, modify at 1.
  destruct (feelingLucky p1 && negb (String.eqb tab "")) eqn:El.
  - (* the page goes to the first result; there were no tabs *)
    apply andb_true_iff in El as [El _]. pose proof (tabs_lucky p1 Hp1 El) as Hv.
    unfold mbind, M_bind, modify.
    by destruct (group_named result tab) as [[|[h|] l]|]; apply no_tabs_ok.
  - set (tab' := adjust_tab result (searchTerm p1) tab).
    unfold mbind at 1, M_bind at 1, modify at 1.
    set (p2 := set_visibleTabs [] (set_activeTab tab' (set_activeTab tab p1))).
    unfold mbind at 1, M_bind at 1. destruct (with_tabs result) eqn:Ht.
    + destruct (settle_tab_in p1 result tab Hgood (with_tabs_many _ Ht) Es) as (c & -> & Hc).
      destruct (adjust_tab_in result (searchTerm p1) (cat_name c)) as (c' & Hc' & Hne); [eauto|].
      destruct (render_tabs result tab' (nonempty_keys result) p2 Ht) as (-> & Hv & Ha & Hl).
      set (p3 := snd _) in *. apply (same_tabs_ok p3); [apply finish_same|].
      assert (El' : feelingLucky p1 = false).
      { apply andb_false_iff in El as [El|El]; [done|]. by destruct c. }
      destruct (nonempty_names_ok result) as [Hn1 Hn2].
      split; rewrite ?Hv, ?Ha, ?Hl; simpl; [done|done| |].
      2: { intros E. change (feelingLucky p1 = true) in E. congruence. }
      right. left. unfold tab'. rewrite Hc'. apply list_elem_of_fmap. exists c'. split; [done|].
      by apply nonempty_keys_elem.
    + pose proof (render_no_tabs result tab' (nonempty_keys result) p2 Ht) as (Hv & _ & _).
      destruct (for_keys (render_key packageIndex result tab') (nonempty_keys result) p2) as [[[]|e] p3];
        [|by apply no_tabs_ok].
      apply (same_tabs_ok p3); [apply finish_same|]. by apply no_tabs_ok.
Qed.

(** *** The page over time *)
(** The search of the page, with the indexes loaded so far. *)
Definition page_search (i : Indexes) (term : string) : searched := doSearch i term 1200.
Lemma doPageSearch_tabs i p : tabs_ok p → tabs_ok (snd (doPageSearch packageIndex (page_search i) p)).
Proof.
  intros Hp. unfold doPageSearch. unfold mbind, M_bind, modify, gets, raise, mret, M_ret.
  change (id ?x) with x. destruct (String.eqb _ "").
  - simpl. destruct Hp as [H1 H2 H3 H4]. split; try done. by left.
  - destruct (page_search i _) as [|result again|] eqn:E.
    + by apply (same_tabs_ok p).
    + apply renderResults_tabs; [by eapply doSearch_good|]. by apply (same_tabs_ok p).
    + by apply (same_tabs_ok p).
Qed.
Lemma click_tab_tabs result c p :
  tabs_ok p → cat_name c ∈ visibleTabs p → tabs_ok (snd (click_tab packageIndex result c p)).
Proof.
  intros [H1 H2 H3 H4] Hc. unfold click_tab, mbind, M_bind, modify, lift.
  assert (Hq : ∀ q, visibleTabs q = visibleTabs p → activeTab q = cat_name c → feelingLucky q = feelingLucky p → tabs_ok q).
  { intros q Ev Ea El. split; rewrite ?Ev, ?Ea, ?El; [done|done|by right; left|done]. }
  destruct (renderTable packageIndex c (group result c)); by apply Hq.
Qed.
(** What can happen on the page: typing, a click on a tab that is shown, the arrow
    keys, reset, and the search that is repeated when an index file arrives. *)
Inductive page_step : Page → Page → Prop :=
  | step_type i s p : page_step p (snd (type_text packageIndex (page_search i) s p))
  | step_click result c p :
      cat_name c ∈ visibleTabs p → page_step p (snd (click_tab packageIndex result c p))
  | step_arrow result left p : page_step p (snd (arrow_key packageIndex result left p))
  | step_reset p : page_step p (reset_page p)
  | step_again i term result again p :
      page_search i term = Responds result again → page_step p (snd (renderResults packageIndex result p)).
Definition page_reachable (path query : string) (p : Page) : Prop :=
  ∃ i, rtc page_step (snd (start_page packageIndex (page_search i) path query)) p.
End Render.

(** *** The arrow keys *)
Lemma index_of_NoDup s l i : NoDup l → l !! i = Some s → index_of s l = Some i.
Proof.
  intros Hnd. revert i. induction Hnd as [|x l Hx Hnd IH]; intros i; [done|].
  destruct i as [|i]; simpl; [intros [= ->]; by rewrite String.eqb_refl|]. intros H.
  destruct (String.eqb_spec s x) as [->|]; [|by rewrite (IH i H)].
  exfalso. apply Hx. by eapply list_elem_of_lookup_2.
Qed.
Definition turn (left : bool) (n i : nat) : nat := Z.to_nat (Z.rem (Z.of_nat i + (if left then Z.of_nat n - 1 else 1)) (Z.of_nat n)).
Definition turned (left : bool) (n i : nat) : nat :=
  if left then (if i =? 0 then n - 1 else i - 1) else (if S i =? n then 0 else S i).
Lemma turn_eq left n i : i < n → turn left n i = turned left n i.
Proof.
  intros Hi. unfold turn, turned. rewrite Z.rem_mod_nonneg by (destruct left; lia). destruct left.
  - destruct (Nat.eqb_spec i 0) as [->|].
    + rewrite Z.mod_small by lia. lia.
    + replace (Z.of_nat i + (Z.of_nat n - 1))%Z with (Z.of_nat (i - 1) + 1 * Z.of_nat n)%Z by lia.
      rewrite Z.mod_add, Z.mod_small by lia. lia.
  - destruct (Nat.eqb_spec (S i) n) as [<-|].
    + replace (Z.of_nat i + 1)%Z with (Z.of_nat (S i)) by lia. by rewrite Z_mod_same_full.
    + rewrite Z.mod_small by lia. lia.
Qed.
Lemma turned_spec left n i : i < n → turned left n i < n ∧ turned (negb left) n (turned left n i) = i.
Proof.
  intros Hi. unfold turned. destruct left; cbn [negb]; repeat case_match; rewrite ?Nat.eqb_eq, ?Nat.eqb_neq in *; lia.
Qed.
Lemma turn_spec left n i : i < n → turn left n i < n ∧ turn (negb left) n (turn left n i) = i.
Proof.
  intros Hi. destruct (turned_spec left n i Hi) as [H1 H2]. rewrite turn_eq by done.
  split; [done|]. by rewrite turn_eq.
Qed.
Lemma arrow_target_turn left tabs i active :
  NoDup tabs → tabs !! i = Some active → active ≠ ""%string → 1 < length tabs →
  arrow_target left tabs active = tabs !! turn left (length tabs) i.
Proof.
  intros Hnd Hi Hne Hlen. unfold arrow_target. rewrite (proj2 (String.eqb_neq _ _) Hne).
  rewrite (proj2 (Nat.ltb_lt _ _) Hlen). simpl. by rewrite (index_of_NoDup active tabs i Hnd Hi).
Qed.
Lemma arrow_target_back p left t :
  tabs_ok p → arrow_target left (visibleTabs p) (activeTab p) = Some t →
  t ∈ visibleTabs p ∧ arrow_target (negb left) (visibleTabs p) t = Some (activeTab p).
Proof.
  intros [Hnd Hn Ha _] Ht. set (tabs := visibleTabs p) in *. set (active := activeTab p) in *.
  assert (Hlen : 1 < length tabs ∧ active ≠ ""%string).
  { unfold arrow_target in Ht. destruct (negb (String.eqb active "")) eqn:E; [|done].
    destruct (Nat.ltb_spec 1 (length tabs)); [|done]. by apply negb_true_iff, String.eqb_neq in E. }
  destruct Hlen as [Hlen Hne]. destruct Ha as [?|[Ha|Ha]]; [done| |by rewrite Ha in Hlen; simpl in Hlen; lia].
  apply list_elem_of_lookup_1 in Ha as [i Hi]. rewrite (arrow_target_turn left tabs i) in Ht by done.
  pose proof (turn_spec left (length tabs) i (lookup_lt_Some _ _ _ Hi)) as [H1 H2].
  assert (Hin : t ∈ tabs) by (by eapply list_elem_of_lookup_2).
  assert (Ht' : t ≠ ""%string).
  { intros ->. eapply Forall_forall in Hn as [c Hc]; [|exact Hin]. by destruct c. }
  split; [done|]. rewrite (arrow_target_turn (negb left) tabs (turn left (length tabs) i)) by done.
  by rewrite H2.
Qed.

(** C35. The tabs of the search page stay consistent, whatever is typed, clicked or
    loaded: the tabs that are shown are different categories, the active tab is one of
    them (or none is chosen, or no tabs are shown), and the arrow keys go to a tab that
    is shown and back again. *)
Theorem page_tabs_consistent packageIndex path query p :
  page_reachable packageIndex path query p →
  tabs_ok p ∧
  ∀ left t, arrow_target left (visibleTabs p) (activeTab p) = Some t →
    t ∈ visibleTabs p ∧ arrow_target (negb left) (visibleTabs p) t = Some (activeTab p).
Proof.
  intros [i H]. assert (Hp : tabs_ok p); [|split; [done|]; intros left t; by apply arrow_target_back].
  eapply rtc_invariant; [| |exact H].
  - unfold start_page. unfold mbind, M_bind, modify at 1, gets at 1. change (id ?x) with x.
    assert (H0 : tabs_ok (read_params query (blank path query))).
    { apply no_tabs_ok. unfold read_params.
      by destruct (get_param "q" query), (get_param "c" query), (get_param "r" query) as [r|]; try case_match. }
    destruct (String.eqb _ ""); [by apply (same_tabs_ok (read_params query (blank path query)))|by apply doPageSearch_tabs].
  - intros a b Ha Hab. destruct Hab as [i' s q|result c q Hc|result left q|q|i' term result again q Hs].
    + unfold type_text, mbind, M_bind, modify. apply doPageSearch_tabs.
      destruct Ha as [H1 H2 H3 H4]. split; [exact H1|exact H2|exact H3|by intros [=]].
    + by apply click_tab_tabs.
    + unfold arrow_key, mbind, M_bind, gets. change (id ?x) with x.
      destruct (arrow_target left (visibleTabs q) (activeTab q)) as [t|] eqn:Et; [|exact Ha].
      destruct (cat_of t) as [c|] eqn:Ec; [|exact Ha]. apply click_tab_tabs; [done|].
      apply (arrow_target_back q left t Ha) in Et as [Et _].
      apply List.find_some in Ec as [_ ->%String.eqb_eq]. done.
    + destruct Ha as [H1 H2 H3 H4]. split; [done..|by left|done].
    + apply renderResults_tabs; [by eapply doSearch_good|done].
Qed.
Notation tabs_indexes := (mkIndexes (Some []) (Some [])
  (Some (replicate 20 (demo_item "Alpha"))) (Some [demo_item "alpine"]) (Some []))%string (only parsing).
Notation tabs_start := (snd (start_page [] (page_search tabs_indexes) "/search.html" "")) (only parsing).
Notation tabs_page := (snd (type_text [] (page_search tabs_indexes) "al" tabs_start)) (only parsing).
Lemma page_tabs_consistent_witness :
  visibleTabs tabs_page = ["types"; "members"]%string ∧ activeTab tabs_page = "types"%string ∧
  arrow_target false (visibleTabs tabs_page) (activeTab tabs_page) = Some "members"%string ∧
  page_reachable [] "/search.html" "" tabs_page ∧
  tabs_ok tabs_page ∧
  ∀ left t, arrow_target left (visibleTabs tabs_page) (activeTab tabs_page) = Some t →
    t ∈ visibleTabs tabs_page ∧
    arrow_target (negb left) (visibleTabs tabs_page) t = Some (activeTab tabs_page).
Proof.
  split; [vm_compute; reflexivity|]. split; [vm_compute; reflexivity|]. split; [vm_compute; reflexivity|].
  assert (H : page_reachable [] "/search.html" "" tabs_page).
  { exists tabs_indexes. apply rtc_once. exact (step_type [] tabs_indexes "al" tabs_start). }
  split; [exact H|]. apply (page_tabs_consistent [] "/search.html" "" _ H).
Defined.
