(* ===== verification/DocTable.v ===== *)
(** * The tables of the documentation pages

    Model of script.js: the keys by which rows are compared, the sorting of a table by a
    column, the categories that show and hide rows with their stripes, the tabs of a
    table and the keys that move between them. *)
From Stdlib Require Import ZArith Lia Ascii String.
From stdpp Require Import base strings list gmap.
From S2P Require Import Prelude.
From S2P Require Import JsString.

(** ** Keys *)
(** "000" and the digits, of which the last four are taken. *)
Definition pad4 (m : string) : string := let s := ("000" ++ m)%string in str_drop (str_length s - 4) s.
(** [replace] of every run of digits; [run] holds the digits read last. *)
Fixpoint pad_digits (run s : string) : string :=
  match s with
  | EmptyString => if String.eqb run "" then EmptyString else pad4 run
  | String c t =>
      if is_digit c then pad_digits (run ++ String c "") t
      else ((if String.eqb run "" then EmptyString else pad4 run) ++ String c (pad_digits "" t))%string
  end.
Definition makeComparable (s : string) : string := pad_digits "" (toLowerCase s).

(** ** Cells and their classes *)
Definition oddRowColor : string := "odd-row-color".
Definition evenRowColor : string := "even-row-color".
Definition sortAsc : string := "sort-asc".
Definition sortDesc : string := "sort-desc".
Definition tableTab : string := "table-tab".
Definition activeTableTab : string := "active-table-tab".
Definition class_remove (c : string) (l : list string) : list string := List.filter (λ x, negb (String.eqb x c)) l.
Definition class_contains (c : string) (l : list string) : bool := existsb (String.eqb c) l.
Definition class_add (c : string) (l : list string) : list string := if class_contains c l then l else l ++ [c].
Definition toggleStyle (classList : list string) (condition : bool) (trueStyle falseStyle : string) : list string :=
  if condition then class_add trueStyle (class_remove falseStyle classList)
  else class_add falseStyle (class_remove trueStyle classList).

Record Cell := mkCell { textContent : string; classList : list string; hidden : bool }.
Definition with_classes (f : list string → list string) (c : Cell) : Cell :=
  mkCell (textContent c) (f (classList c)) (hidden c).
(** A table: its cells, and the children of the container in order. *)
Record Table := mkTable { cells : gmap nat Cell; children : list nat }.
Definition edit (i : nat) (f : list string → list string) (t : Table) : Table :=
  mkTable (alter (with_classes f) i (cells t)) (children t).
Definition classes_of (t : Table) (i : nat) : list string :=
  match cells t !! i with Some c => classList c | None => [] end.
Definition hidden_at (t : Table) (i : nat) : bool :=
  match cells t !! i with Some c => hidden c | None => false end.
(** [appendChild] of a child moves it to the end. *)
Definition appendChild (i : nat) (t : Table) : Table :=
  mkTable (cells t) (List.filter (λ j, negb (Nat.eqb j i)) (children t) ++ [i]).

(** ** [sortTable] *)
Definition key_at (t : Table) (columnIndex : nat) (row : list nat) : option string :=
  i ← row !! columnIndex; c ← cells t !! i; Some (makeComparable (textContent c)).
Definition comparator (t : Table) (columnIndex : nat) (descending : bool) (a b : list nat) : Z :=
  match key_at t columnIndex a, key_at t columnIndex b with
  | Some ka, Some kb =>
      if String.ltb ka kb then (if descending then 1 else -1)
      else if String.ltb kb ka then (if descending then -1 else 1)
      else 0
  | _, _ => 0
  end%Z.
(** [Array.prototype.sort] is stable. *)
Fixpoint insert_row (cmp : list nat → list nat → Z) (x : list nat) (l : list (list nat)) : list (list nat) :=
  match l with
  | [] => [x]
  | y :: l' => if Z.leb (cmp x y) 0 then x :: l else y :: insert_row cmp x l'
  end.
Definition sort_rows (cmp : list nat → list nat → Z) (l : list (list nat)) : list (list nat) :=
  fold_right (insert_row cmp) [] l.
(** The cells from [i] on, [columns] at a time; without columns the loop does not end. *)
Fixpoint chunks (fuel columns : nat) (l : list nat) : option (list (list nat)) :=
  match l, fuel with
  | [], _ => Some []
  | _, 0 => None
  | _, S fuel' => rest ← chunks fuel' columns (drop columns l); Some (take columns l :: rest)
  end.
Definition place_cell (isEvenRow : bool) (t : Table) (i : nat) : Table :=
  appendChild i (edit i (λ l, toggleStyle l isEvenRow evenRowColor oddRowColor) t).
Definition shown_row (t : Table) (row : list nat) : bool :=
  match row with i :: _ => negb (hidden_at t i) | [] => false end.
Fixpoint place_rows (visible : nat) (rows : list (list nat)) (t : Table) : Table :=
  match rows with
  | [] => t
  | row :: rows' =>
      let shown := shown_row t row in
      place_rows (if shown then S visible else visible) rows'
        (fold_left (place_cell (shown && Nat.even visible)) row t)
  end.
Definition reset_header (t : Table) (i : nat) : Table :=
  if class_contains "table-header" (classes_of t i)
  then edit i (λ l, class_remove sortDesc (class_remove sortAsc l)) t else t.
(** [None] when the loop does not end; a row without the column cannot be compared. *)
Definition sortTable (header columnIndex columns : nat) (t : Table) : option (outcome unit * Table) :=
  let descending := class_contains sortAsc (classes_of t header) in
  let t1 := fold_left reset_header (children t) t in
  rows ← chunks (length (children t)) columns (drop columns (children t));
  if (1 <? length rows) && negb (forallb (λ row, columnIndex <? length row) rows)
  then Some (Throw (JsError "TypeError"), t1)
  else
    let sorted := sort_rows (comparator t1 columnIndex descending) rows in
    Some (Ret tt, edit header (λ l, toggleStyle l descending sortDesc sortAsc) (place_rows 0 sorted t1)).

(** ** Showing and hiding *)
(** The elements of a page with a class, in order of the document. *)
Definition stripe (visible columns : nat) : bool := (visible mod (columns * 2)) <? columns.
Definition striped (even : bool) (hide : bool) (e : Cell) : Cell :=
  mkCell (textContent e) (toggleStyle (classList e) even evenRowColor oddRowColor) hide.
Definition set_hidden (b : bool) (e : Cell) : Cell := mkCell (textContent e) (classList e) b.
(** [show]: the elements that are not selected, then those that are, counted by [index]. *)
Definition hide_others (tableId selected : string) (e : Cell) : Cell :=
  if negb (String.eqb tableId selected) && class_contains tableId (classList e)
     && negb (class_contains selected (classList e))
  then set_hidden true e else e.
Fixpoint show_selected (selected : string) (columns index : nat) (l : list Cell) : list Cell :=
  match l with
  | [] => []
  | e :: l' =>
      if class_contains selected (classList e)
      then striped (stripe index columns) false e :: show_selected selected columns (S index) l'
      else e :: show_selected selected columns index l'
  end.
Definition show_elements (tableId selected : string) (columns : nat) (l : list Cell) : list Cell :=
  show_selected selected columns 0 (map (hide_others tableId selected) l).

(** One table of [toggleGlobal]: its elements, and whether its section is displayed.
    The selected class is looked up in the class name as a text when [selected] is
    empty. *)
Definition className (l : list string) : string := join " " l.
Definition toggled (id selected : string) (e : Cell) : bool :=
  let selectedClass := (id ++ "-tab" ++ selected)%string in
  if String.eqb selected "" then
    match indexOf (className (classList e)) selectedClass 0 with None => true | Some _ => false end
  else class_contains selectedClass (classList e).
Fixpoint toggle_elements (checked : bool) (id selected : string) (columns visible : nat) (l : list Cell)
    : list Cell * nat :=
  match l with
  | [] => ([], visible)
  | e :: l' =>
      if class_contains id (classList e) then
        let e := if toggled id selected e then set_hidden (negb checked) e else e in
        let '(e, visible) :=
          if hidden e then (e, visible) else (striped (stripe visible columns) false e, S visible) in
        let '(r, n) := toggle_elements checked id selected columns visible l' in (e :: r, n)
      else let '(r, n) := toggle_elements checked id selected columns visible l' in (e :: r, n)
  end.
(** The page: its elements and, by the id of the table, whether a section is displayed. *)
Fixpoint toggleGlobal (checked : bool) (selected : string) (columns : nat) (ids : list string) (l : list Cell)
    : list Cell * list (string * bool) :=
  match ids with
  | [] => (l, [])
  | id :: ids' =>
      let '(l, visible) := toggle_elements checked id selected columns 0 l in
      let '(l, sections) := toggleGlobal checked selected columns ids' l in
      (l, (id, negb (visible =? 0)) :: sections)
  end.

(** ** Tabs *)
(** A button; [tab_list] is the element it is a child of. *)
Record Tab := mkTab { tab_id : string; tab_list : nat; tab_class : string; aria_selected : bool; tabindex : Z }.
Fixpoint update_tabs (tableId selected : string) (index : nat) (tabs : list Tab) : list Tab :=
  match tabs with
  | [] => []
  | tab :: tabs' =>
      if startsWith tableId (tab_id tab) then
        (if String.eqb selected (tab_id tab) || (String.eqb tableId selected && (index =? 0))
         then mkTab (tab_id tab) (tab_list tab) activeTableTab true 0
         else mkTab (tab_id tab) (tab_list tab) tableTab false (-1))
        :: update_tabs tableId selected (S index) tabs'
      else tab :: update_tabs tableId selected index tabs'
  end.
Record Doc := mkDoc { elements : list Cell; tabs : list Tab; labelledby : list (string * string) }.
Definition updateTabs (tableId selected : string) (d : Doc) : Doc :=
  mkDoc (elements d) (update_tabs tableId selected 0 (tabs d)) (assoc_set tableId selected (labelledby d)).
Definition show (tableId selected : string) (columns : nat) (d : Doc) : Doc :=
  updateTabs tableId selected (mkDoc (show_elements tableId selected columns (elements d)) (tabs d) (labelledby d)).
(** The tab that the arrow keys click: the sibling of the first selected one. *)
Definition sibling (tab : Tab) (o : option Tab) : option Tab :=
  match o with Some x => if Nat.eqb (tab_list x) (tab_list tab) then Some x else None | None => None end.
Fixpoint neighbour (back : bool) (previous : option Tab) (l : list Tab) : option Tab :=
  match l with
  | [] => None
  | tab :: l' =>
      if aria_selected tab then sibling tab (if back then previous else head l') else neighbour back (Some tab) l'
  end.
Definition switchTab (keyCode : Z) (d : Doc) : option Tab :=
  if bool_decide (keyCode = 37 ∨ keyCode = 38)%Z then neighbour true None (tabs d)
  else if bool_decide (keyCode = 39 ∨ keyCode = 40)%Z then neighbour false None (tabs d)
  else None.

(** ** The label of a copy button *)
(** The button and its label; a timer waits to take the mark off the button, and a
    second one to put a label back. *)
Inductive copy_timer := Unmark (initial : string) | Relabel (initial : string).
Record CopyButton := mkCopy { marked : bool; label : string; copied : string; timers : list copy_timer }.
Definition new_button (original copied_label : string) : CopyButton := mkCopy false original copied_label [].
Definition switchCopyLabel (b : CopyButton) : CopyButton :=
  mkCopy true (copied b) (copied b) (timers b ++ [Unmark (label b)]).
Definition copy_fire (t : copy_timer) (b : CopyButton) : CopyButton :=
  match t with
  | Unmark initial => mkCopy false (label b) (copied b) (timers b ++ [Relabel initial])
  | Relabel initial =>
      mkCopy (marked b) (if String.eqb initial (copied b) then label b else initial) (copied b) (timers b)
  end.
(** A timer that is due; the two delays differ, so any of them may be the next. *)
Inductive copy_step : CopyButton → CopyButton → Prop :=
  | copy_click b : copy_step b (switchCopyLabel b)
  | copy_due b pre t post :
      timers b = pre ++ t :: post →
      copy_step b (copy_fire t (mkCopy (marked b) (label b) (copied b) (pre ++ post))).
