(* ===== verification/DocTableProps.v ===== *)
(** * Facts of the tables of the documentation pages

    The order of the keys, what sorting a table does to its rows, stripes and header, and
    the label of a copy button. *)
From Stdlib Require Import ZArith Lia Ascii String Sorted.
From stdpp Require Import base strings list gmap relations.
From S2P Require Import Prelude.
From S2P Require Import JsString.
From S2P Require Import JqParam.
From S2P Require Import DocTable.

(** ** The order of texts *)
Lemma ascii_compare_eq a b : Ascii.compare a b = Eq → a = b.
Proof.
  unfold Ascii.compare. intros H%N.compare_eq. by rewrite <- (Ascii.ascii_N_embedding a), <- (Ascii.ascii_N_embedding b), H.
Qed.
Lemma str_compare_refl s : String.compare s s = Eq.
Proof. induction s as [|c s IH]; simpl; [done|]. unfold Ascii.compare. by rewrite N.compare_refl. Qed.
Lemma str_compare_eq s t : String.compare s t = Eq → s = t.
Proof.
  revert t. induction s as [|a s IH]; intros [|b t]; simpl; try done.
  destruct (Ascii.compare a b) eqn:E; [|done..]. intros ->%IH. by rewrite (ascii_compare_eq a b).
Qed.
Lemma str_ltb_irrefl s : String.ltb s s = false.
Proof. unfold String.ltb. by rewrite str_compare_refl. Qed.
Lemma str_ltb_asym s t : String.ltb s t = true → String.ltb t s = false.
Proof. unfold String.ltb. rewrite (String.compare_antisym t s). by destruct (String.compare s t). Qed.
Lemma str_ltb_total s t : String.ltb s t = false → String.ltb t s = false → s = t.
Proof.
  unfold String.ltb. rewrite (String.compare_antisym t s).
  destruct (String.compare s t) eqn:E; try done. intros _ _. by apply str_compare_eq.
Qed.
Lemma str_ltb_trans s t u : String.ltb s t = true → String.ltb t u = true → String.ltb s u = true.
Proof.
  unfold String.ltb. revert t u. induction s as [|a s IH]; intros [|b t] [|c u]; simpl; try done.
  destruct (Ascii.compare a b) eqn:Eab; try done; destruct (Ascii.compare b c) eqn:Ebc; try done.
  - apply ascii_compare_eq in Eab as ->. rewrite Ebc. apply IH.
  - apply ascii_compare_eq in Eab as ->. by rewrite Ebc.
  - apply ascii_compare_eq in Ebc as ->. by rewrite Eab.
  - intros _ _. enough (Ascii.compare a c = Lt) as -> by done.
    unfold Ascii.compare in *. rewrite N.compare_lt_iff in *. by etrans.
Qed.
(** [k] does not come after [k']. *)
Definition in_order (descending : bool) (k k' : string) : Prop :=
  if descending then String.ltb k k' = false else String.ltb k' k = false.
Lemma in_order_trans d k1 k2 k3 : in_order d k1 k2 → in_order d k2 k3 → in_order d k1 k3.
Proof.
  assert (H : ∀ a b c, String.ltb b a = false → String.ltb c b = false → String.ltb c a = false).
  { intros a b c Hab Hbc. apply not_true_iff_false. intros Hca.
    destruct (String.ltb a b) eqn:E.
    - by rewrite (str_ltb_trans c a b Hca E) in Hbc.
    - by rewrite (str_ltb_total a b E Hab), Hbc in Hca. }
  destruct d; unfold in_order; [intros H1 H2; by apply (H k3 k2 k1)|by apply H].
Qed.
Lemma in_order_total d k k' : in_order d k k' ∨ in_order d k' k.
Proof.
  unfold in_order. destruct (String.ltb k k') eqn:E; [|by destruct d; auto].
  apply str_ltb_asym in E as E'. destruct d; auto.
Qed.

(** ** Numbers in keys *)
Lemma decimal_fuel f g n : n < 10 ^ f → 0 < n ∨ 0 < f → n < g → decimal g n = decimal f n.
Proof.
  revert g n. induction f as [|f IH]; intros g n Hf Hn Hg; [simpl in Hf; lia|].
  destruct g as [|g]; [lia|]. cbn [decimal]. f_equal. destruct (Nat.ltb_spec n 10); [done|].
  pose proof (Nat.div_mod_eq n 10). pose proof (Nat.mod_upper_bound n 10). rewrite Nat.pow_succ_r' in Hf.
  apply IH; [lia|lia|lia].
Qed.
Definition digit (n : nat) : ascii := chr (48 + n mod 10).
(** The four digits of a number. *)
Definition digits4 (n : nat) : string :=
  String (digit (n / 1000)) (String (digit (n / 100)) (String (digit (n / 10)) (String (digit n) ""))).
Lemma pad4_index n : n < 10 * 1000 → pad4 (indexString n) = digits4 n.
Proof.
  intros Hn. unfold indexString. rewrite (decimal_fuel 4) by (change (10 ^ 4) with (10 * 1000); lia). cbn [decimal].
  unfold digits4, digit. replace (n / 1000) with (n / 10 / 10 / 10) by (rewrite !Nat.Div0.div_div; done).
  replace (n / 100) with (n / 10 / 10) by (by rewrite Nat.Div0.div_div).
  destruct (Nat.ltb_spec n 10); [by rewrite (Nat.div_small n)|].
  destruct (Nat.ltb_spec (n / 10) 10); [by rewrite (Nat.div_small (n / 10))|].
  destruct (Nat.ltb_spec (n / 10 / 10) 10); [by rewrite (Nat.div_small (n / 10 / 10))|].
  destruct (Nat.ltb_spec (n / 10 / 10 / 10) 10); [done|]. exfalso.
  pose proof (Nat.div_mod_eq n 10). pose proof (Nat.div_mod_eq (n / 10) 10). pose proof (Nat.div_mod_eq (n / 10 / 10) 10). lia.
Qed.
Lemma code_digit n : code (digit n) = 48 + n mod 10.
Proof.
  unfold code, digit, chr. rewrite nat_ascii_embedding; [done|].
  pose proof (Nat.mod_upper_bound n 10 ltac:(lia)). lia.
Qed.
Lemma is_digit_digit n : is_digit (digit n) = true.
Proof.
  unfold is_digit. rewrite code_digit. pose proof (Nat.mod_upper_bound n 10 ltac:(lia)).
  by rewrite !(proj2 (Nat.leb_le _ _)) by lia.
Qed.
Lemma digit_lower n : ascii_lower (digit n) = digit n.
Proof.
  apply lower_not_upper. unfold is_upper. rewrite code_digit. pose proof (Nat.mod_upper_bound n 10 ltac:(lia)).
  by rewrite (proj2 (Nat.leb_gt _ _)) by lia.
Qed.
Lemma digit_compare m n : Ascii.compare (digit m) (digit n) = Nat.compare (m mod 10) (n mod 10).
Proof.
  unfold Ascii.compare, digit, chr, Ascii.ascii_of_nat.
  pose proof (Nat.mod_upper_bound m 10 ltac:(lia)). pose proof (Nat.mod_upper_bound n 10 ltac:(lia)).
  rewrite !N_ascii_embedding by lia. rewrite <- Nat2N.inj_compare.
  destruct (Nat.compare_spec (m mod 10) (n mod 10)) as [->| |].
  - apply Nat.compare_refl.
  - apply Nat.compare_lt_iff. lia.
  - apply Nat.compare_gt_iff. lia.
Qed.
Lemma digits4_lt m n u v : m < n → n < 10 * 1000 → String.ltb (digits4 m ++ u) (digits4 n ++ v) = true.
Proof.
  intros Hmn Hn. unfold String.ltb, digits4. rewrite !str_app_cons. cbn [String.compare].
  rewrite !digit_compare.
  assert (Hd : ∀ k, k < 10 * 1000 → k = 1000 * ((k / 1000) mod 10) + 100 * ((k / 100) mod 10) + 10 * ((k / 10) mod 10) + k mod 10
    ∧ (k / 100) mod 10 < 10 ∧ (k / 10) mod 10 < 10 ∧ k mod 10 < 10).
  { intros k Hk. replace (k / 1000) with (k / 10 / 10 / 10) by (rewrite !Nat.Div0.div_div; done).
    replace (k / 100) with (k / 10 / 10) by (by rewrite Nat.Div0.div_div).
    pose proof (Nat.div_mod_eq k 10). pose proof (Nat.div_mod_eq (k / 10) 10). pose proof (Nat.div_mod_eq (k / 10 / 10) 10).
    pose proof (Nat.div_mod_eq (k / 10 / 10 / 10) 10).
    pose proof (Nat.mod_upper_bound k 10). pose proof (Nat.mod_upper_bound (k / 10) 10). pose proof (Nat.mod_upper_bound (k / 10 / 10) 10).
    lia. }
  pose proof (Hd m ltac:(lia)) as Hm. pose proof (Hd n Hn) as Hn'. clear Hd.
  destruct (Nat.compare_spec ((m / 1000) mod 10) ((n / 1000) mod 10)); [|done|lia].
  destruct (Nat.compare_spec ((m / 100) mod 10) ((n / 100) mod 10)); [|done|lia].
  destruct (Nat.compare_spec ((m / 10) mod 10) ((n / 10) mod 10)); [|done|lia].
  destruct (Nat.compare_spec (m mod 10) (n mod 10)); [lia|done|lia].
Qed.

Fixpoint ends_plain (p : string) : bool :=
  match p with
  | EmptyString => true
  | String c t => match t with EmptyString => negb (is_digit c) | _ => ends_plain t end
  end.
Definition starts_plain (u : string) : bool := match u with String c _ => negb (is_digit c) | EmptyString => true end.
Lemma pad_digits_plain p s run :
  ends_plain p = true → p ≠ ""%string ∨ run = ""%string →
  pad_digits run (p ++ s) = (pad_digits run p ++ pad_digits "" s)%string.
Proof.
  revert run. induction p as [|c p IH]; intros run Hp Hr; [by destruct Hr as [?| ->]|].
  rewrite str_app_cons. cbn [pad_digits]. destruct p as [|c' p].
  - simpl in Hp. apply negb_true_iff in Hp as ->. by rewrite str_app_nil_l, !str_app_assoc.
  - destruct (is_digit c); [apply IH; [done|by left]|].
    rewrite IH by (done || by right). by rewrite !str_app_assoc, str_app_cons.
Qed.
Lemma pad_digits_number w u run :
  str_forall is_digit w = true → starts_plain u = true → (run ++ w)%string ≠ ""%string →
  pad_digits run (w ++ u) = (pad4 (run ++ w) ++ pad_digits "" u)%string.
Proof.
  revert run. induction w as [|c w IH]; intros run Hw Hu Hr.
  - rewrite str_app_nil_l, str_app_nil_r in *. destruct u as [|c u]; cbn [pad_digits].
    + rewrite str_app_nil_r. by rewrite (proj2 (String.eqb_neq _ _)).
    + simpl in Hu. apply negb_true_iff in Hu as ->. by rewrite (proj2 (String.eqb_neq _ _)).
  - simpl in Hw. apply andb_true_iff in Hw as [Hc Hw]. rewrite str_app_cons. cbn [pad_digits]. rewrite Hc.
    replace (run ++ String c w)%string with ((run ++ String c "") ++ w)%string by (by rewrite str_app_assoc).
    apply IH; [done|done|]. by rewrite str_app_assoc.
Qed.
Lemma lower_app a b : toLowerCase (a ++ b) = (toLowerCase a ++ toLowerCase b)%string.
Proof.
  unfold toLowerCase. induction a as [|c a IH]; [done|]. rewrite str_app_cons. cbn [str_map].
  by rewrite IH, str_app_cons.
Qed.
Lemma is_digit_lower c : is_digit (ascii_lower c) = is_digit c.
Proof. by destruct c as [[] [] [] [] [] [] [] []]. Qed.
Lemma ends_plain_lower p : ends_plain (toLowerCase p) = ends_plain p.
Proof.
  unfold toLowerCase. induction p as [|c p IH]; [done|]. cbn [str_map ends_plain]. destruct p; [|exact IH].
  cbn [str_map]. by rewrite is_digit_lower.
Qed.
Lemma decimal_plain f n :
  str_forall is_digit (decimal f n) = true ∧ toLowerCase (decimal f n) = decimal f n.
Proof.
  revert n. induction f as [|f IH]; intros n; [done|]. cbn [decimal]. change (chr (48 + n mod 10)) with (digit n).
  rewrite str_forall_app, lower_app. cbn [str_forall toLowerCase str_map]. rewrite is_digit_digit, digit_lower.
  destruct (n <? 10); [done|]. destruct (IH (n / 10)) as [-> ->]. done.
Qed.
Lemma decimal_nonempty f n : decimal (S f) n ≠ ""%string.
Proof. cbn [decimal]. by destruct (if n <? 10 then _ else _). Qed.
Lemma makeComparable_number p n u :
  ends_plain p = true → starts_plain u = true → n < 10 * 1000 →
  makeComparable (p ++ indexString n ++ u)
  = (pad_digits "" (toLowerCase p) ++ digits4 n ++ pad_digits "" (toLowerCase u))%string.
Proof.
  intros Hp Hu Hn. unfold makeComparable. rewrite !lower_app.
  rewrite pad_digits_plain by (by rewrite ?ends_plain_lower || by right). f_equal.
  destruct (decimal_plain (S n) n) as [Hd Hl]. change (decimal (S n) n) with (indexString n) in *. rewrite Hl.
  rewrite pad_digits_number; [by rewrite str_app_nil_l, pad4_index|done| |].
  - destruct u; [done|]. unfold toLowerCase. cbn [str_map starts_plain] in *. by rewrite is_digit_lower.
  - rewrite str_app_nil_l. apply decimal_nonempty.
Qed.
Lemma ltb_app p x y : String.ltb (p ++ x) (p ++ y) = String.ltb x y.
Proof.
  induction p as [|c p IH]; [by rewrite !str_app_nil_l|]. rewrite !str_app_cons. unfold String.ltb in *.
  cbn [String.compare]. unfold Ascii.compare. by rewrite N.compare_refl, IH.
Qed.

(** The keys of a table order numbers by value: of two texts that differ in a
    number below 10000, with any text before it and after it, the one with the smaller
    number comes first (so "JDK 9" comes before "JDK 11"). *)
Theorem makeComparable_numbers p m n u v :
  ends_plain p = true → starts_plain u = true → starts_plain v = true → m < n → n < 10 * 1000 →
  String.ltb (makeComparable (p ++ indexString m ++ u)) (makeComparable (p ++ indexString n ++ v)) = true.
Proof.
  intros Hp Hu Hv Hmn Hn. rewrite !makeComparable_number by (done || lia). rewrite ltb_app. by apply digits4_lt.
Qed.
Lemma makeComparable_numbers_witness :
  String.ltb "JDK 11" "JDK 9.0.4" = true ∧
  String.ltb (makeComparable ("JDK " ++ indexString 9 ++ ".0.4")) (makeComparable ("JDK " ++ indexString 11 ++ "")) = true.
Proof. split; [reflexivity|]. apply (makeComparable_numbers "JDK " 9 11 ".0.4" ""); [reflexivity..|lia|lia]. Defined.
(** With more than four digits only the last four count. *)
Example makeComparable_five_digits :
  makeComparable "12345" = "2345"%string ∧ String.ltb (makeComparable "10000") (makeComparable "9999") = true.
Proof. by split. Qed.

(** ** Sorting *)
Section Sorted.
Context (cmp : list nat → list nat → Z).
Lemma insert_row_perm x l : Permutation (insert_row cmp x l) (x :: l).
Proof.
  induction l as [|y l IH]; simpl; [done|]. destruct (Z.leb _ _); [done|]. rewrite IH. constructor.
Qed.
Lemma sort_rows_perm l : Permutation (sort_rows cmp l) l.
Proof. induction l as [|x l IH]; simpl; [done|]. by rewrite insert_row_perm, IH. Qed.

Context (ok : list nat → Prop).
Context (cmp_total : ∀ a b, ok a → ok b → (0 < cmp a b)%Z → (cmp b a <= 0)%Z).
Context (cmp_trans : ∀ a b c, ok a → ok b → ok c → (cmp a b <= 0)%Z → (cmp b c <= 0)%Z → (cmp a c <= 0)%Z).
Lemma insert_row_sorted x l :
  ok x → Forall ok l → StronglySorted (λ a b, (cmp a b <= 0)%Z) l →
  StronglySorted (λ a b, (cmp a b <= 0)%Z) (insert_row cmp x l).
Proof.
  intros Hx Hok Hs. induction Hs as [|y l Hs IH Hy]; simpl; [by repeat constructor|].
  apply Forall_cons in Hok as [Hoky Hok]. destruct (Z.leb_spec (cmp x y) 0) as [Hc|Hc].
  - constructor; [by constructor|]. constructor; [done|]. rewrite Forall_forall in *. intros z Hz.
    apply (cmp_trans x y z); auto.
  - constructor; [by apply IH|]. rewrite insert_row_perm. constructor; [by apply cmp_total|done].
Qed.
Lemma sort_rows_sorted l : Forall ok l → StronglySorted (λ a b, (cmp a b <= 0)%Z) (sort_rows cmp l).
Proof.
  induction 1 as [|x l Hx Hl IH]; simpl; [constructor|]. apply insert_row_sorted; [done| |done].
  by rewrite sort_rows_perm.
Qed.
(** Rows that compare equal keep their order. *)
Lemma insert_row_stable (same : list nat → bool) x l :
  (∀ a b, same a = true → same b = true → (cmp a b <= 0)%Z) →
  List.filter same (insert_row cmp x l) = List.filter same (x :: l).
Proof.
  intros Hsame. induction l as [|y l IH]; [done|]. cbn [insert_row].
  destruct (Z.leb_spec (cmp x y) 0) as [|Hc]; [done|]. cbn [List.filter] in *. rewrite IH.
  destruct (same x) eqn:Ex, (same y) eqn:Ey; try done. pose proof (Hsame x y Ex Ey). lia.
Qed.
Lemma sort_rows_stable (same : list nat → bool) l :
  (∀ a b, same a = true → same b = true → (cmp a b <= 0)%Z) →
  List.filter same (sort_rows cmp l) = List.filter same l.
Proof.
  intros Hsame. induction l as [|x l IH]; [done|]. cbn [sort_rows fold_right].
  rewrite insert_row_stable by done. cbn [List.filter]. by rewrite <- IH.
Qed.
End Sorted.

(** *** The cells *)
(** Two cells that differ in their classes only. *)
Definition same_cell (a b : Cell) : Prop := textContent a = textContent b ∧ hidden a = hidden b.
Definition same_cells (t t' : Table) : Prop := ∀ i, option_Forall2 same_cell (cells t !! i) (cells t' !! i).
#[export] Instance same_cell_equiv : Equivalence same_cell.
Proof.
  split; [done|intros a b [? ?]; by split|]. intros a b c [H1 H2] [H3 H4]. split; by etrans.
Qed.
#[export] Instance same_cells_equiv : Equivalence same_cells.
Proof.
  split; [by intros t i|intros a b H i; by symmetry|].
  intros a b c H1 H2 i. etrans; [apply H1|apply H2].
Qed.
Lemma edit_same i f t : same_cells t (edit i f t).
Proof.
  intros j. unfold edit. simpl. destruct (decide (i = j)) as [->|Hne].
  - rewrite lookup_alter_eq. by destruct (cells t !! j); constructor.
  - by rewrite lookup_alter_ne.
Qed.
Lemma classes_edit_eq i f t : is_Some (cells t !! i) → classes_of (edit i f t) i = f (classes_of t i).
Proof. intros [c Hc]. unfold classes_of, edit. simpl. by rewrite lookup_alter_eq, Hc. Qed.
Lemma classes_edit_ne i j f t : i ≠ j → classes_of (edit i f t) j = classes_of t j.
Proof. intros Hne. unfold classes_of, edit. simpl. by rewrite lookup_alter_ne. Qed.
Lemma same_hidden t t' i : same_cells t t' → hidden_at t' i = hidden_at t i.
Proof. intros H. unfold hidden_at. destruct (H i) as [a b [_ E]|]; [by rewrite E|done]. Qed.
Lemma same_is_some t t' i : same_cells t t' → is_Some (cells t' !! i) ↔ is_Some (cells t !! i).
Proof. intros H. destruct (H i); [split; by eexists|done]. Qed.
Lemma same_key t t' columnIndex row : same_cells t t' → key_at t' columnIndex row = key_at t columnIndex row.
Proof.
  intros H. unfold key_at, mbind, option_bind. destruct (row !! columnIndex) as [i|]; [|done].
  destruct (H i) as [a b [E _]|]; [by rewrite E|done].
Qed.
Lemma same_shown t t' row : same_cells t t' → shown_row t' row = shown_row t row.
Proof. intros H. destruct row as [|i row]; [done|]. simpl. by rewrite (same_hidden t t'). Qed.
Lemma place_cell_same b t i : same_cells t (place_cell b t i).
Proof. intros j. exact (edit_same i _ t j). Qed.
Lemma place_cells_same b row t : same_cells t (fold_left (place_cell b) row t).
Proof.
  revert t. induction row as [|i row IH]; intros t; [done|]. cbn [fold_left].
  etrans; [apply place_cell_same|apply IH].
Qed.
Lemma place_rows_same visible rows t : same_cells t (place_rows visible rows t).
Proof.
  revert visible t. induction rows as [|row rows IH]; intros visible t; [done|]. cbn [place_rows].
  etrans; [apply place_cells_same|apply IH].
Qed.
Lemma reset_header_same t i : same_cells t (reset_header t i).
Proof. unfold reset_header. destruct (class_contains _ _); [apply edit_same|done]. Qed.
Lemma reset_headers_same l t : same_cells t (fold_left reset_header l t) ∧ children (fold_left reset_header l t) = children t.
Proof.
  revert t. induction l as [|i l IH]; intros t; [done|]. cbn [fold_left].
  destruct (IH (reset_header t i)) as [H1 H2]. split; [etrans; [apply reset_header_same|exact H1]|].
  rewrite H2. unfold reset_header. by destruct (class_contains _ _).
Qed.

(** *** The order of the cells *)
Definition outside (l : list nat) (j : nat) : bool := negb (bool_decide (j ∈ l)).
Lemma place_cells_children b row t :
  NoDup row → children (fold_left (place_cell b) row t) = List.filter (outside row) (children t) ++ row.
Proof.
  revert t. induction row as [|i row IH]; intros t; simpl.
  - intros _. rewrite app_nil_r. symmetry. apply filter_all. intros x _. unfold outside. by rewrite bool_decide_eq_false_2 by set_solver.
  - intros [Hi Hnd]%NoDup_cons. rewrite IH by done. simpl. rewrite List.filter_app, filter_filter. cbn [List.filter].
    unfold outside at 2. rewrite bool_decide_eq_false_2 by done. cbn [negb]. rewrite <- app_assoc. simpl. f_equal.
    apply List.filter_ext. intros j. unfold outside. destruct (Nat.eqb_spec j i) as [->|Hne]; cbn [negb andb].
    + by rewrite bool_decide_eq_true_2 by left.
    + f_equal. apply bool_decide_ext. set_solver.
Qed.
Lemma place_rows_children visible rows t :
  NoDup (concat rows) →
  children (place_rows visible rows t) = List.filter (outside (concat rows)) (children t) ++ concat rows.
Proof.
  revert visible t. induction rows as [|row rows IH]; intros visible t; simpl.
  - intros _. rewrite app_nil_r. symmetry. apply filter_all. intros x _. unfold outside. by rewrite bool_decide_eq_false_2 by set_solver.
  - intros (H1 & H2 & H3)%NoDup_app. rewrite IH, place_cells_children by done.
    rewrite List.filter_app, filter_filter, <- app_assoc. f_equal.
    + apply List.filter_ext. intros j. unfold outside. rewrite <- negb_orb, <- bool_decide_or.
      f_equal. apply bool_decide_ext. set_solver.
    + f_equal. apply filter_all. intros j Hj. unfold outside. rewrite bool_decide_eq_false_2; [done|].
      intros Hj'. by apply (H2 j).
Qed.

(** *** The stripes *)
Lemma contains_remove c c' l :
  class_contains c (class_remove c' l) = class_contains c l && negb (String.eqb c c').
Proof.
  unfold class_contains, class_remove. induction l as [|x l IH]; simpl; [done|].
  destruct (String.eqb_spec x c') as [->|Hx]; simpl; rewrite IH.
  - destruct (String.eqb_spec c c'); simpl; [by rewrite andb_false_r|done].
  - destruct (String.eqb_spec c x) as [->|Hc]; simpl; [|done].
    by rewrite (proj2 (String.eqb_neq _ _) Hx).
Qed.
Lemma contains_add c c' l : class_contains c (class_add c' l) = class_contains c l || String.eqb c c'.
Proof.
  unfold class_add. destruct (class_contains c' l) eqn:E.
  - destruct (String.eqb_spec c c') as [->|]; [by rewrite E|by rewrite orb_false_r].
  - unfold class_contains. rewrite existsb_app. simpl. by rewrite orb_false_r.
Qed.
Lemma toggle_contains l b t f :
  t ≠ f → class_contains t (toggleStyle l b t f) = b ∧ class_contains f (toggleStyle l b t f) = negb b.
Proof.
  intros Hne. apply String.eqb_neq in Hne as E. assert (E' : String.eqb f t = false) by (by rewrite String.eqb_sym).
  unfold toggleStyle. destruct b; rewrite !contains_add, !contains_remove, String.eqb_refl, ?E, ?E', !String.eqb_refl;
    by rewrite ?andb_false_r, ?orb_true_r.
Qed.
Lemma place_cells_classes b row t i :
  NoDup row →
  classes_of (fold_left (place_cell b) row t) i
  = if bool_decide (i ∈ row) && bool_decide (is_Some (cells t !! i))
    then toggleStyle (classes_of t i) b evenRowColor oddRowColor else classes_of t i.
Proof.
  revert t. induction row as [|j row IH]; intros t; [done|].
  intros [Hj Hnd]%NoDup_cons. cbn [fold_left]. rewrite IH by done.
  assert (Hs : is_Some (cells (place_cell b t j) !! i) ↔ is_Some (cells t !! i)).
  { apply same_is_some, place_cell_same. }
  rewrite (bool_decide_ext _ _ Hs).
  change (classes_of (place_cell b t j) i)
    with (classes_of (edit j (λ l, toggleStyle l b evenRowColor oddRowColor) t) i).
  destruct (decide (j = i)) as [->|Hne].
  - rewrite bool_decide_eq_false_2 by done. rewrite (bool_decide_eq_true_2 (i ∈ i :: row)) by left. simpl.
    destruct (decide (is_Some (cells t !! i))) as [H|H].
    + rewrite bool_decide_eq_true_2 by done. by rewrite classes_edit_eq.
    + rewrite bool_decide_eq_false_2 by done. apply eq_None_not_Some in H. unfold classes_of, edit. simpl.
      by rewrite lookup_alter_eq, H.
  - rewrite classes_edit_ne by done.
    by rewrite (bool_decide_ext (i ∈ j :: row) (i ∈ row)) by set_solver.
Qed.
(** The rows that are shown, of those placed before. *)
Definition shown_count (t : Table) (rows : list (list nat)) : nat := length (List.filter (shown_row t) rows).
Lemma place_rows_outside visible rows t i :
  NoDup (concat rows) → i ∉ concat rows → classes_of (place_rows visible rows t) i = classes_of t i.
Proof.
  revert visible t. induction rows as [|row rows IH]; intros visible t; [done|]. cbn [concat place_rows].
  intros (H1 & H2 & H3)%NoDup_app Hi. rewrite IH by (done || set_solver). rewrite place_cells_classes by done.
  by rewrite bool_decide_eq_false_2 by set_solver.
Qed.
Lemma place_rows_classes visible rows t k row i :
  NoDup (concat rows) → rows !! k = Some row → i ∈ row → is_Some (cells t !! i) →
  classes_of (place_rows visible rows t) i
  = toggleStyle (classes_of t i) (shown_row t row && Nat.even (visible + shown_count t (take k rows)))
      evenRowColor oddRowColor.
Proof.
  revert visible t k. induction rows as [|row0 rows IH]; intros visible t k; [done|]. cbn [concat].
  intros (H1 & H2 & H3)%NoDup_app Hk Hi Hs. cbn [place_rows].
  set (t' := fold_left _ row0 t).
  assert (Hsame : same_cells t t') by apply place_cells_same.
  destruct k as [|k].
  - injection Hk as ->. rewrite place_rows_outside; [|done|by apply H2].
    unfold t'. rewrite place_cells_classes by done. rewrite !bool_decide_eq_true_2 by done.
    unfold shown_count. simpl. by rewrite Nat.add_0_r.
  - simpl in Hk. rewrite (IH _ _ k); [|done|done|done|by apply (same_is_some t t')].
    rewrite (same_shown t t' row Hsame).
    replace (classes_of t' i) with (classes_of t i).
    2: { unfold t'. rewrite place_cells_classes by done. rewrite (bool_decide_eq_false_2 (i ∈ row0)); [done|].
         intros Hi0. apply (H2 i Hi0). apply list_elem_of_In, in_concat. exists row. split; apply list_elem_of_In; [by eapply list_elem_of_lookup_2|done]. }
    f_equal. f_equal. f_equal. unfold shown_count. cbn [take List.filter].
    rewrite (List.filter_ext (shown_row t') (shown_row t)) by (intros r; by apply same_shown).
    destruct (shown_row t row0); simpl; lia.
Qed.

(** *** The sorted table *)
(** A table with a header of [columns] cells and full rows. *)
Record table_of (t : Table) (heads : list nat) (rows : list (list nat)) (columns : nat) : Prop := {
  tbl_children : children t = heads ++ concat rows;
  tbl_nodup : NoDup (children t);
  tbl_cells : ∀ i, i ∈ children t → is_Some (cells t !! i);
  tbl_heads : length heads = columns;
  tbl_rows : Forall (λ r, length r = columns) rows;
  tbl_columns : 0 < columns
}.
Definition has_key (t : Table) (columnIndex : nat) (k : string) (row : list nat) : bool :=
  match key_at t columnIndex row with Some k' => String.eqb k' k | None => false end.
Definition rows_in_order (t : Table) (columnIndex : nat) (descending : bool) (a b : list nat) : Prop :=
  ∃ ka kb, key_at t columnIndex a = Some ka ∧ key_at t columnIndex b = Some kb ∧ in_order descending ka kb.
Record sorted_table (t t' : Table) (heads : list nat) (rows rows' : list (list nat))
    (columnIndex header : nat) (descending : bool) : Prop := {
  st_children : children t' = heads ++ concat rows';
  st_perm : Permutation rows' rows;
  st_sorted : StronglySorted (rows_in_order t columnIndex descending) rows';
  st_stable : ∀ k, List.filter (has_key t columnIndex k) rows' = List.filter (has_key t columnIndex k) rows;
  st_same : same_cells t t';
  st_stripes : ∀ k row i, rows' !! k = Some row → i ∈ row →
    let even := shown_row t row && Nat.even (shown_count t (take k rows')) in
    class_contains evenRowColor (classes_of t' i) = even ∧ class_contains oddRowColor (classes_of t' i) = negb even;
  st_header : class_contains sortAsc (classes_of t' header) = negb descending
    ∧ class_contains sortDesc (classes_of t' header) = descending
}.
Lemma chunks_concat fuel columns rows :
  0 < columns → Forall (λ r, length r = columns) rows → length rows ≤ fuel → chunks fuel columns (concat rows) = Some rows.
Proof.
  intros Hc Hrows. revert fuel. induction Hrows as [|row rows Hr Hrows IH]; intros fuel Hf; [by destruct fuel|].
  destruct fuel as [|fuel]; simpl in Hf; [lia|]. cbn [concat].
  rewrite <- (take_drop columns (row ++ concat rows)) at 1. rewrite take_app_length' by done.
  destruct row as [|i row]; [simpl in Hr; lia|]. cbn [chunks app].
  change (i :: row ++ drop columns (i :: row ++ concat rows)) with ((i :: row) ++ drop columns ((i :: row) ++ concat rows)).
  rewrite drop_app_length' by done. rewrite drop_app_length', take_app_length' by done.
  rewrite IH by lia. done.
Qed.
Lemma concat_length_le (rows : list (list nat)) columns :
  0 < columns → Forall (λ r, length r = columns) rows → length rows ≤ length (concat rows).
Proof. intros Hc. induction 1 as [|r rows Hr _ IH]; simpl; [lia|]. rewrite length_app. lia. Qed.
Lemma key_at_total t heads rows columns columnIndex row :
  table_of t heads rows columns → columnIndex < columns → row ∈ rows → is_Some (key_at t columnIndex row).
Proof.
  intros [H1 H2 H3 H4 H5 H6] Hci Hrow. unfold key_at, mbind, option_bind.
  assert (Hl : length row = columns) by (by eapply Forall_forall in H5).
  destruct (lookup_lt_is_Some_2 row columnIndex ltac:(lia)) as [i Hi]. rewrite Hi.
  destruct (H3 i) as [c ->]; [|by eexists]. rewrite H1. apply elem_of_app. right.
  apply list_elem_of_In, in_concat. exists row. split; apply list_elem_of_In; [done|by eapply list_elem_of_lookup_2].
Qed.
(** The comparator on rows with keys. *)
Lemma comparator_spec t columnIndex d a b ka kb :
  key_at t columnIndex a = Some ka → key_at t columnIndex b = Some kb →
  (comparator t columnIndex d a b <= 0)%Z ↔ in_order d ka kb.
Proof.
  intros Ha Hb. unfold comparator, in_order. rewrite Ha, Hb.
  destruct (String.ltb ka kb) eqn:E1; [|destruct (String.ltb kb ka) eqn:E2]; destruct d; try (split; (done || lia)).
  - split; [|done]. intros _. by apply str_ltb_asym.
Qed.
Lemma StronglySorted_impl_in {A} (R S : A → A → Prop) l :
  (∀ a b, a ∈ l → b ∈ l → R a b → S a b) → StronglySorted R l → StronglySorted S l.
Proof.
  intros HRS Hs. induction Hs as [|x l Hs IH Hx]; constructor.
  - apply IH. intros a b Ha Hb. apply HRS; by right.
  - rewrite Forall_forall in *. intros y Hy. apply HRS; [left|by right|by apply Hx].
Qed.
Lemma sort_rows_comparator t heads rows columns columnIndex d :
  table_of t heads rows columns → columnIndex < columns →
  let rows' := sort_rows (comparator t columnIndex d) rows in
  StronglySorted (rows_in_order t columnIndex d) rows' ∧
  ∀ k, List.filter (has_key t columnIndex k) rows' = List.filter (has_key t columnIndex k) rows.
Proof.
  intros Ht Hci rows'. split.
  - assert (Hkey : ∀ a, a ∈ rows → is_Some (key_at t columnIndex a)) by (intros a; by eapply key_at_total).
    apply (StronglySorted_impl_in (λ a b, (comparator t columnIndex d a b <= 0)%Z)).
    + unfold rows'. intros a b. rewrite sort_rows_perm. intros [ka Ha]%Hkey [kb Hb]%Hkey.
      rewrite (comparator_spec _ _ _ _ _ ka kb) by done. intros H. by exists ka, kb.
    + apply (sort_rows_sorted _ (λ a, is_Some (key_at t columnIndex a))).
      * intros a b [ka Ha] [kb Hb]. rewrite (comparator_spec _ _ _ b a kb ka) by done. intros H.
        destruct (in_order_total d ka kb) as [H'|H']; [|done].
        apply (comparator_spec t columnIndex d a b) in H'; [lia|done|done].
      * intros a b c [ka Ha] [kb Hb] [kc Hc].
        rewrite (comparator_spec _ _ _ a b ka kb), (comparator_spec _ _ _ b c kb kc), (comparator_spec _ _ _ a c ka kc) by done.
        apply in_order_trans.
      * by apply Forall_forall.
  - intros k. apply sort_rows_stable. intros a b. unfold has_key.
    destruct (key_at t columnIndex a) as [ka|] eqn:Ea, (key_at t columnIndex b) as [kb|] eqn:Eb; try done.
    intros ->%String.eqb_eq ->%String.eqb_eq. apply (comparator_spec _ _ _ _ _ k k); [done..|].
    unfold in_order. rewrite str_ltb_irrefl. by destruct d.
Qed.

Lemma concat_perm {A} (l l' : list (list A)) : Permutation l l' → Permutation (concat l) (concat l').
Proof.
  induction 1 as [|x l l' _ IH|x y l|l1 l2 l3 _ IH1 _ IH2]; simpl; [done|by rewrite IH| |by etrans].
  rewrite !app_assoc. apply Permutation_app_tail, Permutation_app_comm.
Qed.
(** The order of the cells after the rows are placed, and the rows that are striped. *)
Lemma placed_rows t heads rows columns rows' :
  table_of t heads rows columns → Permutation rows' rows →
  NoDup (concat rows') ∧ (∀ i, i ∈ heads → i ∉ concat rows') ∧ (∀ i, i ∈ concat rows' → is_Some (cells t !! i)) ∧
  children (place_rows 0 rows' t) = heads ++ concat rows'.
Proof.
  intros [H1 H2 H3 _ _ _] Hperm. rewrite H1 in H2. apply NoDup_app in H2 as (Hnd1 & Hdisj & Hnd2).
  pose proof (concat_perm rows' rows Hperm) as Hcperm.
  assert (Hnd' : NoDup (concat rows')) by (by rewrite Hcperm).
  split_and!; [done|intros i; rewrite Hcperm; apply Hdisj| |].
  - intros i Hi. apply H3. rewrite H1. apply elem_of_app. right. by rewrite <- Hcperm.
  - rewrite place_rows_children by done. rewrite H1, List.filter_app.
    rewrite (filter_all _ heads), (filter_none _ (concat rows)); [by rewrite app_nil_r| |].
    + intros i Hi. unfold outside. by rewrite bool_decide_eq_true_2 by (by rewrite Hcperm).
    + intros i Hi. unfold outside. rewrite bool_decide_eq_false_2; [done|]. rewrite Hcperm. by apply Hdisj.
Qed.
Lemma placed_stripes t t1 heads rows columns rows' k row i :
  table_of t1 heads rows columns → Permutation rows' rows → same_cells t t1 → rows' !! k = Some row → i ∈ row →
  let even := shown_row t row && Nat.even (shown_count t (take k rows')) in
  i ∈ concat rows' ∧
  class_contains evenRowColor (classes_of (place_rows 0 rows' t1) i) = even ∧
  class_contains oddRowColor (classes_of (place_rows 0 rows' t1) i) = negb even.
Proof.
  intros Ht Hperm Hs1 Hk Hi. destruct (placed_rows t1 heads rows columns rows' Ht Hperm) as (Hnd & _ & Hc & _).
  assert (Hin : i ∈ concat rows').
  { apply list_elem_of_In, in_concat. exists row. split; apply list_elem_of_In; [by eapply list_elem_of_lookup_2|done]. }
  split; [done|]. rewrite (place_rows_classes 0 rows' t1 k row i) by auto.
  unfold shown_count. rewrite (List.filter_ext (shown_row t1) (shown_row t)) by (intros r; by apply same_shown).
  rewrite (same_shown t t1 row Hs1). by apply toggle_contains.
Qed.

(** C36. Sorting a table by a column: the header stays, the rows are rearranged and are
    in the order of their keys (descending when the header was marked ascending, else
    ascending), rows with equal keys keep their order, no text is lost and no row is
    shown or hidden, the rows that are shown are striped alternately from the first,
    and the header is marked with the order, so that sorting again turns it around. *)
Theorem sortTable_sorts t heads rows columns columnIndex header :
  table_of t heads rows columns → header ∈ heads → columnIndex < columns →
  ∃ t' rows', sortTable header columnIndex columns t = Some (Ret tt, t') ∧
    sorted_table t t' heads rows rows' columnIndex header (class_contains sortAsc (classes_of t header)).
Proof.
  intros Ht Hh Hci. pose proof Ht as [H1 _ H3 H4 H5 H6]. set (d := class_contains sortAsc _).
  set (t1 := fold_left reset_header (children t) t).
  destruct (reset_headers_same (children t) t) as [Hs1 Hc1]. fold t1 in Hs1, Hc1.
  set (rows' := sort_rows (comparator t1 columnIndex d) rows).
  exists (edit header (λ l, toggleStyle l d sortDesc sortAsc) (place_rows 0 rows' t1)), rows'.
  assert (Hperm : Permutation rows' rows) by apply sort_rows_perm.
  assert (Ht1 : table_of t1 heads rows columns).
  { destruct Ht. split; rewrite ?Hc1; try done. intros i Hi. by apply (same_is_some t t1), H3. }
  destruct (sort_rows_comparator t1 heads rows columns columnIndex d Ht1 Hci) as [Hsort Hstable].
  destruct (placed_rows t1 heads rows columns rows' Ht1 Hperm) as (Hnd & Hheads & _ & Hchildren).
  assert (Hkey : ∀ row, key_at t1 columnIndex row = key_at t columnIndex row) by (intros row; by apply same_key).
  split; [|split; [exact Hchildren|exact Hperm| | | | |]].
  - unfold sortTable. fold d t1. rewrite H1, drop_app_length' by done.
    rewrite chunks_concat; [|done|done|rewrite length_app; pose proof (concat_length_le rows columns H6 H5); lia].
    unfold mbind, option_bind. replace (forallb _ rows) with true; [by rewrite andb_false_r|].
    symmetry. apply List.forallb_forall. intros row Hrow%list_elem_of_In. apply Nat.ltb_lt.
    eapply Forall_forall in H5 as ->; done.
  - eapply StronglySorted_impl_in; [|exact Hsort]. intros a b _ _ (ka & kb & Ha & Hb & Ho).
    exists ka, kb. by rewrite <- !Hkey.
  - intros k. assert (Hhk : ∀ row, has_key t columnIndex k row = has_key t1 columnIndex k row)
      by (intros row; unfold has_key; by rewrite Hkey).
    rewrite !(List.filter_ext _ _ Hhk). apply Hstable.
  - etrans; [exact Hs1|]. etrans; [apply place_rows_same|apply edit_same].
  - intros k row i Hk Hi. destruct (placed_stripes t t1 heads rows columns rows' k row i) as [Hin Hs]; [done..|].
    rewrite classes_edit_ne; [exact Hs|]. intros ->. by apply (Hheads i).
  - rewrite classes_edit_eq; [by destruct (toggle_contains (classes_of (place_rows 0 rows' t1) header) d sortDesc sortAsc)|].
    apply (same_is_some t1 _), (same_is_some t t1), H3; [apply place_rows_same|done|].
    rewrite H1. apply elem_of_app. by left.
Qed.
Notation demo_table := (mkTable
  (list_to_map [(0, mkCell "Release" ["table-header"] false); (1, mkCell "Class" ["table-header"] false);
                (2, mkCell "11" ["even-row-color"] false); (3, mkCell "Foo" ["even-row-color"] false);
                (4, mkCell "9" ["odd-row-color"] false); (5, mkCell "Bar" ["odd-row-color"] false)]%string)
  [0; 1; 2; 3; 4; 5]) (only parsing).
Lemma sortTable_sorts_witness :
  (∃ t', sortTable 0 0 2 demo_table = Some (Ret tt, t') ∧ children t' = [0; 1; 4; 5; 2; 3]
    ∧ classes_of t' 4 = [evenRowColor] ∧ classes_of t' 2 = [oddRowColor]) ∧
  ∃ t' rows', sortTable 0 0 2 demo_table = Some (Ret tt, t') ∧
    sorted_table demo_table t' [0; 1] [[2; 3]; [4; 5]] rows' 0 0 (class_contains sortAsc (classes_of demo_table 0)).
Proof.
  split; [eexists; split; [vm_compute; reflexivity|]; split; [reflexivity|]; by split|].
  apply (sortTable_sorts demo_table [0; 1] [[2; 3]; [4; 5]] 2 0 0); [|by left|lia].
  split; [done|by apply (bool_decide_unpack _); vm_compute| |done|by repeat constructor|lia].
  intros i Hi. repeat (apply elem_of_cons in Hi as [->|Hi]; [by eexists|]). by apply elem_of_nil in Hi.
Defined.

(** ** Showing a category *)
(** The selected elements before the i-th. *)
Definition rank (selected : string) (l : list Cell) : nat :=
  length (List.filter (λ e, class_contains selected (classList e)) l).
Lemma show_selected_at selected columns index l i :
  show_selected selected columns index l !! i
  = e ← l !! i; Some (if class_contains selected (classList e)
                      then striped (stripe (index + rank selected (take i l)) columns) false e else e).
Proof.
  revert index i. induction l as [|e l IH]; intros index i; [done|]. cbn [show_selected].
  destruct i as [|i].
  - unfold rank. simpl. rewrite Nat.add_0_r. by destruct (class_contains selected (classList e)).
  - unfold rank. cbn [take List.filter]. destruct (class_contains selected (classList e)); cbn [lookup list_lookup length];
      rewrite IH; [by rewrite Nat.add_succ_comm|done].
Qed.
Lemma hide_others_classes tableId selected e : classList (hide_others tableId selected e) = classList e.
Proof. unfold hide_others. by destruct (_ && _). Qed.
(** After [show], the elements of a table are displayed exactly when they are of the
    selected category. *)
Lemma show_displays tableId selected columns l i e :
  l !! i = Some e → class_contains tableId (classList e) = true → tableId ≠ selected →
  ∃ e', show_elements tableId selected columns l !! i = Some e' ∧ textContent e' = textContent e ∧
    hidden e' = negb (class_contains selected (classList e)).
Proof.
  intros Hi Ht Hne. unfold show_elements. rewrite show_selected_at, list_lookup_fmap, Hi. simpl.
  rewrite hide_others_classes. eexists. split; [done|].
  destruct (class_contains selected (classList e)) eqn:Es.
  - unfold hide_others. by rewrite Es, andb_false_r.
  - unfold hide_others. by rewrite (proj2 (String.eqb_neq _ _) Hne), Ht, Es.
Qed.

(** ** The copy button *)
Definition initial_of (t : copy_timer) : string := match t with Unmark s | Relabel s => s end.
Record copy_ok (original : string) (b : CopyButton) : Prop := {
  copy_label : label b = original ∨ label b = copied b ∧ ∃ t, t ∈ timers b ∧ initial_of t = original;
  copy_marked : marked b = true → ∃ s, Unmark s ∈ timers b;
  copy_timers : ∀ t, t ∈ timers b → initial_of t = original ∨ initial_of t = copied b
}.
Lemma copy_step_ok original b b' :
  original ≠ copied b → copy_ok original b → copy_step b b' → copy_ok original b' ∧ copied b' = copied b.
Proof.
  intros Hne [H1 H2 H3] Hs. destruct Hs as [b|b pre t post E]; (split; [|by destruct t || done]).
  - split; simpl.
    + right. split; [done|]. destruct H1 as [H1|(_ & t & Ht & Hi)].
      * exists (Unmark (label b)). split; [set_solver|done].
      * exists t. split; [set_solver|done].
    + intros _. exists (label b). set_solver.
    + intros t [Ht|Ht]%elem_of_app; [by apply H3|]. apply list_elem_of_singleton in Ht as ->. simpl.
      destruct H1 as [H1|[H1 _]]; auto.
  - assert (Ht : t ∈ timers b) by (rewrite E; set_solver).
    assert (Hrest : ∀ x, x ∈ timers b → x = t ∨ x ∈ pre ++ post) by (intros x; rewrite E; set_solver).
    assert (Hsub : ∀ x, x ∈ pre ++ post → x ∈ timers b) by (intros x; rewrite E; set_solver).
    pose proof (H3 t Ht) as Hi. destruct t as [s|s]; simpl in Hi; split; simpl.
    + destruct H1 as [H1|(H1 & x & Hx & Hxi)]; [by left|]. right. split; [done|].
      destruct (Hrest x Hx) as [->|Hx']; [exists (Relabel s)|exists x]; set_solver.
    + done.
    + intros x [Hx|Hx]%elem_of_app; [by apply H3, Hsub|]. by apply list_elem_of_singleton in Hx as ->.
    + destruct (String.eqb_spec s (copied b)) as [->|Hs].
      * destruct H1 as [H1|(H1 & x & Hx & Hxi)]; [by left|]. right. split; [done|].
        destruct (Hrest x Hx) as [->|Hx']; [by simpl in Hxi|by exists x].
      * left. by destruct Hi.
    + intros Hm. destruct (H2 Hm) as [x Hx]. exists x. by destruct (Hrest _ Hx).
    + intros x Hx. by apply H3, Hsub.
Qed.
Definition at_rest (original : string) (b : CopyButton) : Prop := label b = original ∧ marked b = false.
(** The label of a copy button comes back: however often the button is clicked and
    in whatever order the timers are due, once no timer is left the button shows its
    original label and is no longer marked. *)
Theorem copy_label_restored original copied_label b :
  original ≠ copied_label →
  rtc copy_step (new_button original copied_label) b → timers b = [] → at_rest original b.
Proof.
  intros Hne H Ht. assert (Hok : copy_ok original b ∧ copied b = copied_label).
  { eapply (rtc_invariant copy_step (λ b, copy_ok original b ∧ copied b = copied_label)); [| |exact H].
    - split; [|done]. split; [by left|done|by intros t ?%elem_of_nil].
    - intros x y [Hx Ex] Hxy. destruct (copy_step_ok original x y) as [? E]; [by rewrite Ex|done..|].
      split; [done|by rewrite E]. }
  destruct Hok as [[H1 H2 H3] _]. rewrite Ht in *. split.
  - destruct H1 as [?|(_ & t & []%elem_of_nil & _)]; done.
  - destruct (marked b); [|done]. by destruct (H2 eq_refl) as [s []%elem_of_nil].
Qed.
(** Two clicks, then the four timers. *)
Lemma copy_label_restored_witness :
  rtc copy_step (mkCopy false "Copy" "Copied!" []) (mkCopy false "Copy" "Copied!" [])%string ∧
  at_rest "Copy" (mkCopy false "Copy" "Copied!" [])%string.
Proof.
  assert (H : rtc copy_step (mkCopy false "Copy" "Copied!" []) (mkCopy false "Copy" "Copied!" [])%string).
  { eapply rtc_l; [apply copy_click|]. eapply rtc_l; [apply copy_click|].
    eapply rtc_l; [apply (copy_due _ [] (Unmark "Copy") [Unmark "Copied!"]%string); reflexivity|].
    eapply rtc_l; [apply (copy_due _ [] (Unmark "Copied!") [Relabel "Copy"]%string); reflexivity|].
    eapply rtc_l; [apply (copy_due _ [] (Relabel "Copy") [Relabel "Copied!"]%string); reflexivity|].
    apply rtc_once. apply (copy_due (mkCopy false "Copy" "Copied!" [Relabel "Copied!"])%string [] (Relabel "Copied!") []).
    reflexivity. }
  split; [exact H|]. apply (copy_label_restored "Copy" "Copied!"); [discriminate|exact H|reflexivity].
Defined.
