(* ===== verification/JqCore.v ===== *)
(** * jQuery core: values, sets of elements and extend

    Model of the core of jquery-3.5.1.js: types of values, the operations on arrays and
    array-like objects, the operations of a jQuery set that give new sets, and
    [jQuery.extend] over a heap of objects, with the copies it makes and the objects it
    changes in place. *)
From Stdlib Require Import ZArith Lia Ascii String.
From stdpp Require Import base strings list gmap.
From S2P Require Import Prelude.
From S2P Require Import JsString.
From S2P Require Import JqParam.

(** ** Values *)
(** Objects are addresses; numbers are integers. *)
Inductive value :=
  | VUndef | VNull | VBool (b : bool) | VNum (z : Z) | VText (s : string) | VRef (a : nat).
#[export] Instance value_eq_dec : EqDecision value.
Proof. solve_decision. Defined.
(** What [toString] and the prototype tell: an object made by [Object], an array, a
    function, or an instance of something else with its tag. *)
Inductive okind := OPlain | OArray | OFunction | OClass (tag : string).
#[export] Instance okind_eq_dec : EqDecision okind.
Proof. solve_decision. Defined.
Record Obj := mkObj { kind_of : okind; props : list (string * value) }.
Notation Store := (gmap nat Obj).

Definition truth (v : value) : bool :=
  match v with
  | VUndef | VNull => false
  | VBool b => b
  | VNum z => negb (Z.eqb z 0)
  | VText s => negb (String.eqb s "")
  | VRef _ => true
  end.
Definition is_null (v : value) : bool := match v with VUndef | VNull => true | _ => false end.
Definition object_kind (h : Store) (v : value) : option okind :=
  match v with VRef a => option_map kind_of (h !! a) | _ => None end.
Definition isFunction (h : Store) (v : value) : bool := bool_decide (object_kind h v = Some OFunction).
Definition isArray (h : Store) (v : value) : bool := bool_decide (object_kind h v = Some OArray).
Definition isPlainObject (h : Store) (v : value) : bool := bool_decide (object_kind h v = Some OPlain).
(** The enumerable names of a value, in order: the indexes of a text. *)
Definition names_in (h : Store) (v : value) : list string :=
  match v with
  | VRef a => match h !! a with Some o => map fst (props o) | None => [] end
  | VText s => map indexString (seq 0 (str_length s))
  | _ => []
  end.
(** [obj[ name ]] *)
Definition read (h : Store) (v : value) (name : string) : value :=
  match v with
  | VRef a => match h !! a with Some o => default VUndef (assoc name (props o)) | None => VUndef end
  | VText s =>
      match List.find (λ i, String.eqb (indexString i) name) (seq 0 (str_length s)) with
      | Some i => match charAt s i with Some c => VText (String c "") | None => VUndef end
      | None => VUndef
      end
  | _ => VUndef
  end.
Definition write (a : nat) (name : string) (v : value) (h : Store) : Store :=
  alter (λ o, mkObj (kind_of o) (assoc_set name v (props o))) a h.
Definition isEmptyObject (h : Store) (v : value) : bool :=
  match names_in h v with [] => true | _ => false end.

(** [class2type] *)
Definition class2type (tag : string) : string :=
  if existsb (String.eqb tag)
       ["Boolean"; "Number"; "String"; "Function"; "Array"; "Date"; "RegExp"; "Object"; "Error"; "Symbol"]%string
  then toLowerCase tag else "object".
Definition toType (h : Store) (v : value) : string :=
  match v with
  | VUndef => "undefined" | VNull => "null" | VBool _ => "boolean" | VNum _ => "number" | VText _ => "string"
  | VRef _ =>
      match object_kind h v with
      | Some OPlain | None => "object"
      | Some OArray => "array"
      | Some OFunction => "function"
      | Some (OClass tag) => class2type tag
      end
  end.
Definition isWindow (h : Store) (v : value) : bool :=
  match v with VRef _ => bool_decide (read h v "window" = v) | _ => false end.
(** The index that a name stands for; the length of an array is one more than its last
    index. *)
Fixpoint number_of (acc : nat) (s : string) : option nat :=
  match s with
  | EmptyString => Some acc
  | String c t => if is_digit c then number_of (10 * acc + (code c - 48)) t else None
  end.
Definition index_of_name (s : string) : option nat :=
  match number_of 0 s with
  | Some n => if String.eqb (indexString n) s then Some n else None
  | None => None
  end.
Definition array_length (l : list (string * value)) : nat :=
  foldr (λ p n, match index_of_name (fst p) with Some i => Nat.max (S i) n | None => n end) 0 l.
Definition length_of (h : Store) (v : value) : value :=
  match v with
  | VRef a =>
      match h !! a with
      | Some o => if bool_decide (kind_of o = OArray) then VNum (Z.of_nat (array_length (props o)))
                  else default VUndef (assoc "length" (props o))
      | None => VUndef
      end
  | _ => VUndef
  end.
Definition has_name (h : Store) (v : value) (name : string) : bool := existsb (String.eqb name) (names_in h v).
(** "length" in a primitive value that is not falsy throws. *)
Definition isArrayLike (h : Store) (v : value) : outcome bool :=
  match v with
  | VRef _ =>
      if isFunction h v || isWindow h v then Ret false
      else Ret (String.eqb (toType h v) "array" ||
                match length_of h v with
                | VNum z => Z.eqb z 0 || (Z.ltb 0 z && has_name h v (indexString (Z.to_nat (z - 1))))
                | _ => false
                end)
  | _ => if truth v then Throw (JsError "TypeError") else Ret false
  end.

(** ** Arrays *)
Section Arrays.
Context {A : Type}.
(** [jQuery.each] over an array: a callback that answers [false] stops it. *)
Fixpoint each_from {S} (callback : nat → A → M S bool) (i : nat) (l : list A) : M S unit :=
  match l with
  | [] => mret tt
  | x :: l' => go ← callback i x; if (go : bool) then each_from callback (1 + i) l' else mret tt
  end.
Definition each {S} (l : list A) (callback : nat → A → M S bool) : M S unit := each_from callback 0 l.
(** Over the names of an object: each value is read when its turn comes. *)
Fixpoint each_in {S B} (look : string → M S B) (callback : string → B → M S bool) (names : list string) : M S unit :=
  match names with
  | [] => mret tt
  | name :: names' =>
      v ← look name; go ← callback name v;
      if (go : bool) then each_in look callback names' else mret tt
  end.
Definition merge (first second : list A) : list A := first ++ second.
(** [indexOf] from an index; a negative one counts from the end. *)
Fixpoint index_of_from `{EqDecision A} (elem : A) (i : nat) (l : list A) : Z :=
  match l with
  | [] => -1
  | x :: l' => if decide (x = elem) then Z.of_nat i else index_of_from elem (S i) l'
  end.
Definition inArray `{EqDecision A} (elem : A) (arr : option (list A)) (i : Z) : Z :=
  match arr with
  | None => -1
  | Some l =>
      let start := Z.to_nat (if Z.ltb i 0 then Z.max 0 (Z.of_nat (length l) + i) else i) in
      index_of_from elem start (drop start l)
  end.
(** [grep] with its index. *)
Fixpoint grep_from (callback : A → nat → bool) (callbackExpect : bool) (i : nat) (l : list A) : list A :=
  match l with
  | [] => []
  | x :: l' =>
      let callbackInverse := negb (callback x i) in
      if negb (Bool.eqb callbackInverse callbackExpect) then x :: grep_from callback callbackExpect (S i) l'
      else grep_from callback callbackExpect (S i) l'
  end.
Definition grep (elems : list A) (callback : A → nat → bool) (invert : bool) : list A :=
  grep_from callback (negb invert) 0 elems.
End Arrays.
(** What a callback of [jQuery.map] answers; arrays are flattened. *)
Inductive mapped (B : Type) := MNothing | MOne (b : B) | MMany (l : list B).
#[global] Arguments MNothing {_}.
#[global] Arguments MOne {_} _.
#[global] Arguments MMany {_} _.
Fixpoint map_from {A B} (callback : A → nat → mapped B) (i : nat) (l : list A) : list (mapped B) :=
  match l with
  | [] => []
  | x :: l' =>
      match callback x i with MNothing => map_from callback (S i) l' | v => v :: map_from callback (S i) l' end
  end.
Definition flat {B} (l : list (mapped B)) : list B :=
  concat (map (λ v, match v with MNothing => [] | MOne b => [b] | MMany bs => bs end) l).
Definition jq_map {A B} (elems : list A) (callback : A → nat → mapped B) : list B := flat (map_from callback 0 elems).
Definition map_in {B} (h : Store) (obj : value) (callback : value → string → mapped B) : list B :=
  jq_map (names_in h obj) (λ name _, callback (read h obj name) name).
(** [makeArray] *)
Definition elements_of (h : Store) (v : value) : list value :=
  match length_of h v with
  | VNum z => map (λ i, read h v (indexString i)) (seq 0 (Z.to_nat z))
  | _ => []
  end.
Definition makeArray (h : Store) (arr : value) (results : list value) : outcome (list value) :=
  match arr with
  | VUndef | VNull => Ret results
  | VText _ => Ret (merge results [arr])
  | VRef _ => b ← isArrayLike h arr; Ret (if (b : bool) then merge results (elements_of h arr) else results ++ [arr])
  | _ => Ret (results ++ [arr])
  end.

(** ** Sets of elements *)
Section Sets.
Context {A : Type}.
Inductive JQ := mkJQ (elems : list A) (prevObject : option JQ).
Definition elems (q : JQ) : list A := match q with mkJQ l _ => l end.
Definition prevObject (q : JQ) : option JQ := match q with mkJQ _ p => p end.
Definition toArray (q : JQ) : list A := elems q.
(** [get] of one element. *)
Definition get (q : JQ) (num : Z) : option A :=
  let i := (if Z.ltb num 0 then num + Z.of_nat (length (elems q)) else num)%Z in
  if Z.ltb i 0 then None else elems q !! Z.to_nat i.
Definition pushStack (q : JQ) (l : list A) : JQ := mkJQ (merge [] l) (Some q).
Definition slice_bound (len : nat) (i : Z) : nat :=
  Z.to_nat (if Z.ltb i 0 then Z.max 0 (Z.of_nat len + i) else Z.min i (Z.of_nat len)).
Definition jq_slice (q : JQ) (from : Z) (to : option Z) : JQ :=
  let len := length (elems q) in
  let i := slice_bound len from in
  let j := match to with Some t => slice_bound len t | None => len end in
  pushStack q (take (j - i) (drop i (elems q))).
Definition eq (q : JQ) (i : Z) : JQ :=
  let len := Z.of_nat (length (elems q)) in
  let j := (i + (if Z.ltb i 0 then len else 0))%Z in
  pushStack q (if Z.leb 0 j && Z.ltb j len then match elems q !! Z.to_nat j with Some x => [x] | None => [] end else []).
Definition first (q : JQ) : JQ := eq q 0.
Definition last (q : JQ) : JQ := eq q (-1).
Definition even (q : JQ) : JQ := pushStack q (grep (elems q) (λ _ i, negb ((i + 1) mod 2 =? 0)) false).
Definition odd (q : JQ) : JQ := pushStack q (grep (elems q) (λ _ i, negb (i mod 2 =? 0)) false).
Definition fn_map (q : JQ) (callback : nat → A → mapped A) : JQ :=
  pushStack q (jq_map (elems q) (λ elem i, callback i elem)).
Definition fn_each {S} (q : JQ) (callback : nat → A → M S bool) : M S unit := each (elems q) callback.
(** [end] *)
Definition end_ (q : JQ) : JQ := match prevObject q with Some p => p | None => mkJQ [] None end.
End Sets.

(** ** [jQuery.extend] *)
(** A new object. *)
Definition alloc (k : okind) (h : Store) : nat * Store :=
  let a := fresh (dom h) in (a, <[a := mkObj k []]> h).
Definition alloc_value (k : okind) (h : Store) : value * Store := let '(a, h) := alloc k h in (VRef a, h).
(** The clone that a plain object or an array is merged into. *)
Definition clone_for (h : Store) (copyIsArray : bool) (src : value) : value * Store :=
  if copyIsArray && negb (isArray h src) then alloc_value OArray h
  else if negb copyIsArray && negb (isPlainObject h src) then alloc_value OPlain h
  else (src, h).
(** [target[ name ] = v] for a target that is an object or a function. *)
Definition write_value (target : value) (name : string) (v : value) (h : Store) : Store :=
  match target with VRef a => write a name v h | _ => h end.
(** One name of a source; [recur] merges an object into another. *)
Definition extend_name (recur : value → value → Store → option Store) (deep : bool) (target options : value)
    (name : string) (h : Store) : option Store :=
  let copy := read h options name in
  if String.eqb name "__proto__" || bool_decide (target = copy) then Some h
  else if deep && truth copy && (isPlainObject h copy || isArray h copy) then
    let src := read h target name in
    let '(clone, h) := clone_for h (negb (isPlainObject h copy)) src in
    h ← recur clone copy h;
    Some (write_value target name clone h)
  else if bool_decide (copy ≠ VUndef) then Some (write_value target name copy h)
  else Some h.
Fixpoint extend_names (recur : value → value → Store → option Store) (deep : bool) (target options : value)
    (names : list string) (h : Store) : option Store :=
  match names with
  | [] => Some h
  | name :: names' =>
      h ← extend_name recur deep target options name h; extend_names recur deep target options names' h
  end.
(** [None] when the recursion is deeper than the fuel. *)
Fixpoint extend_into (fuel : nat) (deep : bool) (target options : value) (h : Store) : option Store :=
  match fuel with
  | 0 => None
  | S fuel' => extend_names (extend_into fuel' deep) deep target options (names_in h options) h
  end.
(** One source after the other. *)
Fixpoint extend_sources (fuel : nat) (deep : bool) (target : value) (sources : list value) (h : Store) : option Store :=
  match sources with
  | [] => Some h
  | options :: rest =>
      h ← (if is_null options then Some h else extend_into fuel deep target options h);
      extend_sources fuel deep target rest h
  end.
Definition is_object (v : value) : bool :=
  match v with VRef _ | VNull => true | _ => false end.
(** [arguments[ i ] || {}] *)
Definition or_object (v : option value) (h : Store) : value * Store :=
  match v with Some v => if truth v then (v, h) else alloc_value OPlain h | None => alloc_value OPlain h end.
Definition extend (fuel : nat) (this : value) (args : list value) (h : Store) : option (value * Store) :=
  let '(target, h) := or_object (head args) h in
  let '(deep, i, target, h) :=
    match target with
    | VBool b => let '(t, h) := or_object (args !! 1) h in (b, 2, t, h)
    | _ => (false, 1, target, h)
    end in
  let '(target, h) := if is_object target then (target, h) else alloc_value OPlain h in
  let '(target, i) := if i =? length args then (this, i - 1) else (target, i) in
  h ← extend_sources fuel deep target (drop i args) h;
  Some (target, h).
