(* ===== verification/JqCoreProps.v ===== *)
(** * Facts of the core of jQuery

    A deep [extend] is a merge of trees that changes the target in place and only copies
    from the sources; sets of elements and the operations on arrays. *)
From Stdlib Require Import ZArith Lia Ascii String.
From stdpp Require Import base strings list gmap.
From S2P Require Import Prelude.
From S2P Require Import JsString.
From S2P Require Import JqParam.
From S2P Require Import JqCore.

(** ** Trees *)
(** What an object reads as: objects and arrays all the way down, and leaves that are
    not copied (texts, functions, instances). *)
Inductive tree := TLeaf (v : value) | TNode (k : okind) (fields : list (string * tree)).
(** The merge of a source into a field: a container is merged into one of its kind and
    into a new one otherwise, a leaf replaces the field. *)
Definition base_of (k : okind) (old : option tree) : list (string * tree) :=
  match old with Some (TNode k' fs) => if decide (k = k') then fs else [] | _ => [] end.
Fixpoint merge_node (s : tree) (old : option tree) : tree :=
  match s with
  | TLeaf v => TLeaf v
  | TNode k fs =>
      TNode k ((fix go (fs : list (string * tree)) (acc : list (string * tree)) : list (string * tree) :=
        match fs with
        | [] => acc
        | (name, s') :: fs' =>
            go fs' (if String.eqb name "__proto__" || (match s' with TLeaf VUndef => true | _ => false end) then acc
                    else assoc_set name (merge_node s' (assoc name acc)) acc)
        end) fs (base_of k old))
  end.
Definition skipped (name : string) (s : tree) : bool :=
  String.eqb name "__proto__" || (match s with TLeaf VUndef => true | _ => false end).
Fixpoint merge_fields (fs acc : list (string * tree)) : list (string * tree) :=
  match fs with
  | [] => acc
  | (name, s') :: fs' =>
      merge_fields fs' (if skipped name s' then acc else assoc_set name (merge_node s' (assoc name acc)) acc)
  end.
Lemma merge_node_fields k fs old : merge_node (TNode k fs) old = TNode k (merge_fields fs (base_of k old)).
Proof. reflexivity. Qed.
Fixpoint depth (t : tree) : nat :=
  match t with
  | TLeaf _ => 0
  | TNode _ fs => S ((fix go (fs : list (string * tree)) : nat :=
      match fs with [] => 0 | (_, t') :: fs' => Nat.max (depth t') (go fs') end) fs)
  end.
(** The names of a node are different. *)
Fixpoint well_named (t : tree) : Prop :=
  match t with
  | TLeaf _ => True
  | TNode _ fs =>
      NoDup (map fst fs) ∧
      (fix go (fs : list (string * tree)) : Prop :=
         match fs with [] => True | (_, t') :: fs' => well_named t' ∧ go fs' end) fs
  end.
Lemma well_named_fields k fs : well_named (TNode k fs) → NoDup (map fst fs) ∧ ∀ n t, (n, t) ∈ fs → well_named t.
Proof.
  intros [H1 H2]. split; [done|]. clear H1. induction fs as [|[n' t'] fs IH]; intros n t Ht.
  - by apply elem_of_nil in Ht.
  - destruct H2 as [H H2]. apply elem_of_cons in Ht as [[= -> ->]|Ht]; [done|]. by eapply IH.
Qed.
Lemma depth_field k fs n t : (n, t) ∈ fs → depth t < depth (TNode k fs).
Proof.
  simpl. induction fs as [|[n' t'] fs IH]; intros Ht; [by apply elem_of_nil in Ht|].
  apply elem_of_cons in Ht as [[= -> ->]|Ht]; [lia|]. specialize (IH Ht). lia.
Qed.

(** ** Trees in the store *)
Definition container (k : okind) : Prop := k = OPlain ∨ k = OArray.
Definition leaf (h : Store) (v : value) : Prop :=
  match v with VRef b => ∃ o, h !! b = Some o ∧ ¬ container (kind_of o) | _ => True end.
(** A value reads as a tree; the list holds the addresses of its containers. *)
Inductive owns (h : Store) : value → tree → list nat → Prop :=
  | own_leaf v : leaf h v → owns h v (TLeaf v) []
  | own_node a k ps fs l :
      h !! a = Some (mkObj k ps) → container k → owns_fields h ps fs l → owns h (VRef a) (TNode k fs) (a :: l)
with owns_fields (h : Store) : list (string * value) → list (string * tree) → list nat → Prop :=
  | own_nil : owns_fields h [] [] []
  | own_cons n v t l ps fs l' :
      owns h v t l → owns_fields h ps fs l' → owns_fields h ((n, v) :: ps) ((n, t) :: fs) (l ++ l').
Scheme owns_mut := Minimality for owns Sort Prop
  with owns_fields_mut := Minimality for owns_fields Sort Prop.
Combined Scheme owns_both from owns_mut, owns_fields_mut.

(** The objects of [h] outside [fp] are the same in [h']. *)
Definition framed (fp : list nat) (h h' : Store) : Prop :=
  ∀ b o, h !! b = Some o → b ∉ fp → h' !! b = Some o.
Lemma framed_refl fp h : framed fp h h.
Proof. by intros b o Hb _. Qed.
Lemma framed_trans fp fp' h1 h2 h3 :
  framed fp h1 h2 → framed fp' h2 h3 → (∀ b, b ∈ fp' → b ∈ fp ∨ h1 !! b = None) → framed fp h1 h3.
Proof.
  intros H1 H2 Hsub b o Hb Hn. apply H2; [by apply H1|]. intros [H|H]%Hsub; [done|congruence].
Qed.
Lemma owns_containers h :
  (∀ v t l, owns h v t l → ∀ b, b ∈ l → ∃ o, h !! b = Some o ∧ container (kind_of o)) ∧
  (∀ ps fs l, owns_fields h ps fs l → ∀ b, b ∈ l → ∃ o, h !! b = Some o ∧ container (kind_of o)).
Proof.
  apply owns_both.
  - by intros v _ b ?%elem_of_nil.
  - intros a k ps fs l Ha Hk _ IH b [->|Hb]%elem_of_cons; [by exists (mkObj k ps)|by apply IH].
  - by intros b ?%elem_of_nil.
  - intros n v t l ps fs l' _ IH1 _ IH2 b [Hb|Hb]%elem_of_app; auto.
Qed.
Lemma owns_frame_both h h' fp :
  framed fp h h' → (∀ b, b ∈ fp → (∃ o, h !! b = Some o ∧ container (kind_of o)) ∨ h !! b = None) →
  (∀ v t l, owns h v t l → (∀ b, b ∈ l → b ∉ fp) → owns h' v t l) ∧
  (∀ ps fs l, owns_fields h ps fs l → (∀ b, b ∈ l → b ∉ fp) → owns_fields h' ps fs l).
Proof.
  intros Hf Hc. apply owns_both.
  - intros v Hv _. constructor. destruct v as [| | | | |b]; try done. destruct Hv as (o & Hb & Hk).
    exists o. split; [|done]. apply Hf; [done|]. intros [(o' & Ho' & Hk')|Hn]%Hc; [|congruence]. congruence.
  - intros a k ps fs l Ha Hk _ IH Hl. eapply own_node; [|done|].
    + apply Hf; [done|]. apply Hl. by left.
    + apply IH. intros b Hb. apply Hl. by right.
  - constructor.
  - intros n v t l ps fs l' _ IH1 _ IH2 Hl. constructor; [apply IH1|apply IH2]; intros b Hb; apply Hl, elem_of_app; auto.
Qed.

(** ** Changing a field *)
(** The addresses of a field, and what stays of a node when the field is set. *)
Record slot (h : Store) (ps : list (string * value)) (fs : list (string * tree)) (l : list nat) (n : string)
    (lo l' : list nat) : Prop := {
  slot_split : Permutation l (lo ++ l');
  slot_old : match assoc n fs with
             | Some t => ∃ v, assoc n ps = Some v ∧ owns h v t lo
             | None => assoc n ps = None ∧ lo = []
             end;
  slot_set : ∀ h' v2 t2 l2,
    (∀ v t m, (∀ b, b ∈ m → b ∈ l') → owns h v t m → owns h' v t m) → owns h' v2 t2 l2 →
    ∃ l'', Permutation l'' (l2 ++ l') ∧ owns_fields h' (assoc_set n v2 ps) (assoc_set n t2 fs) l''
}.
Lemma owns_fields_transfer h h' ps fs l :
  owns_fields h ps fs l → (∀ v t m, (∀ b, b ∈ m → b ∈ l) → owns h v t m → owns h' v t m) → owns_fields h' ps fs l.
Proof.
  induction 1 as [|n v t l ps fs l' Hv Hf IH]; intros Hall; [constructor|]. constructor.
  - apply Hall; [|done]. intros b Hb. apply elem_of_app. by left.
  - apply IH. intros v' t' m Hm. apply Hall. intros b Hb. apply elem_of_app. right. by apply Hm.
Qed.
Lemma owns_fields_slot h ps fs l n : owns_fields h ps fs l → ∃ lo l', slot h ps fs l n lo l'.
Proof.
  induction 1 as [|n' v t l ps fs l' Hv Hf (lo & l1 & [H1 H2 H3])].
  - exists [], []. split; [done|by split|]. intros h' v2 t2 l2 _ Hv. exists (l2 ++ []). split; [done|].
    simpl. constructor; [done|constructor].
  - destruct (String.eqb_spec n n') as [->|Hne].
    + exists l, l'. split; [done| |].
      * cbn [assoc]. rewrite String.eqb_refl. by exists v.
      * intros h' v2 t2 l2 Hall Hv2. exists (l2 ++ l'). split; [done|]. cbn [assoc_set]. rewrite String.eqb_refl.
        constructor; [done|]. by apply (owns_fields_transfer h).
    + apply String.eqb_neq in Hne as E. exists lo, (l ++ l1). split.
      * rewrite H1. rewrite !app_assoc. apply Permutation_app_tail, Permutation_app_comm.
      * cbn [assoc]. by rewrite E.
      * intros h' v2 t2 l2 Hall Hv2. destruct (H3 h' v2 t2 l2) as (l'' & Hp & Hf'); [|done|].
        { intros w u m Hm. apply Hall. intros b Hb. apply elem_of_app. right. by apply Hm. }
        exists (l ++ l''). split.
        { rewrite Hp, !app_assoc. apply Permutation_app_tail, Permutation_app_comm. }
        cbn [assoc_set]. rewrite E. constructor; [|done]. apply Hall; [|done]. intros b Hb. apply elem_of_app. by left.
Qed.

(** ** A step of the merge *)
(** From [h], where a target has the addresses [fp], to [h'], where it reads as [t]: other
    objects are as before, the addresses of the target were its own or are new. *)
Definition stepped (v : value) (fp : list nat) (h h' : Store) (t : tree) : Prop :=
  ∃ fp', owns h' v t fp' ∧ NoDup fp' ∧ framed fp h h' ∧
    (∀ b, b ∈ fp' → b ∈ fp ∨ h !! b = None) ∧ (∀ b, h' !! b = None → h !! b = None).
Lemma stepped_refl v fp h t : owns h v t fp → NoDup fp → stepped v fp h h t.
Proof. intros Ho Hn. exists fp. split_and!; [done|done|apply framed_refl|by left|done]. Qed.
Lemma stepped_trans v fp h1 h2 h3 t3 :
  (∃ fp', (∀ b, b ∈ fp' → b ∈ fp ∨ h1 !! b = None) ∧ stepped v fp' h2 h3 t3) → framed fp h1 h2 →
  (∀ b, h2 !! b = None → h1 !! b = None) → stepped v fp h1 h3 t3.
Proof.
  intros (fp' & Hs & fp3 & Ho & Hn & Hf & Hi & Hm) Hf1 Hm1. exists fp3. split_and!; [done|done| | |].
  - by eapply framed_trans.
  - intros b [Hb|Hb]%Hi; [by apply Hs|right; by apply Hm1].
  - intros b Hb. by apply Hm1, Hm.
Qed.
Lemma write_at a name v h o : h !! a = Some o →
  write a name v h = <[a := mkObj (kind_of o) (assoc_set name v (props o))]> h.
Proof. intros Ha. unfold write. apply (map_eq (M:=gmap nat)). intros j. destruct (decide (a = j)) as [->|Hne].
  - rewrite lookup_alter_eq, lookup_insert_eq, Ha. done.
  - by rewrite lookup_alter_ne, lookup_insert_ne.
Qed.
(** A field is set to a value that another heap owns. *)
Lemma write_field h h1 a k ps acc l name lo l' v t lv :
  h !! a = Some (mkObj k ps) → container k → owns_fields h ps acc l → NoDup (a :: l) → slot h ps acc l name lo l' →
  framed lo h h1 → owns h1 v t lv → NoDup lv → (∀ b, b ∈ lv → b ∈ lo ∨ h !! b = None) →
  (∀ b, h1 !! b = None → h !! b = None) →
  stepped (VRef a) (a :: l) h (write a name v h1) (TNode k (assoc_set name t acc)).
Proof.
  intros Ha Hk Hf Hnd [Hsplit Hold Hset] Hfr Hv Hlv Hin Hmono.
  apply NoDup_cons in Hnd as [Hal Hnd]. rewrite Hsplit in Hal, Hnd.
  apply not_elem_of_app in Hal as [Halo Hal']. apply NoDup_app in Hnd as (Hnd1 & Hdisj & Hnd2).
  assert (Hc : ∀ b, b ∈ lo ++ l' → ∃ o, h !! b = Some o ∧ container (kind_of o)).
  { intros b. rewrite <- Hsplit. by apply (proj2 (owns_containers h) ps acc). }
  assert (Ha1 : h1 !! a = Some (mkObj k ps)) by (by apply Hfr).
  assert (Halv : a ∉ lv) by (intros [?|?]%Hin; [done|congruence]).
  rewrite (write_at a name v h1 (mkObj k ps)) by done. simpl. set (h2 := <[a := _]> h1).
  assert (Hf2 : framed [a] h1 h2).
  { intros b o Hb Hn. unfold h2. rewrite lookup_insert_ne; [done|]. intros ->. apply Hn. by left. }
  assert (Hc2 : ∀ b, b ∈ [a] → (∃ o, h1 !! b = Some o ∧ container (kind_of o)) ∨ h1 !! b = None).
  { intros b ->%list_elem_of_singleton. left. by exists (mkObj k ps). }
  assert (Hv2 : owns h2 v t lv).
  { apply (proj1 (owns_frame_both h1 h2 [a] Hf2 Hc2)); [done|]. intros b Hb ->%list_elem_of_singleton. done. }
  destruct (Hset h2 v t lv) as (l'' & Hp & Hf').
  - intros w u m Hm Hw. apply (proj1 (owns_frame_both h1 h2 [a] Hf2 Hc2)).
    + apply (proj1 (owns_frame_both h h1 lo Hfr ltac:(intros b Hb; left; apply Hc, elem_of_app; by left))); [done|].
      intros b Hb Hlo. apply (Hdisj b Hlo). by apply Hm.
    + intros b Hb ->%list_elem_of_singleton. by apply Hal', Hm.
  - done.
  - exists (a :: l''). split_and!.
    + eapply own_node; [unfold h2; by rewrite lookup_insert_eq|done|done].
    + rewrite Hp. constructor; [by apply not_elem_of_app|]. apply NoDup_app. split_and!; [done| |done].
      intros b [Hb|Hb]%Hin Hb'; [by apply (Hdisj b)|].
      destruct (Hc b) as (o & Ho & _); [apply elem_of_app; by right|congruence].
    + intros b o Hb Hn. apply not_elem_of_cons in Hn as [Hn1 Hn2]. unfold h2. rewrite lookup_insert_ne by done.
      apply Hfr; [done|]. intros Hlo. apply Hn2. rewrite Hsplit. apply elem_of_app. by left.
    + intros b [->|Hb]%elem_of_cons; [left; by left|]. rewrite Hp in Hb. apply elem_of_app in Hb as [[Hb|Hb]%Hin|Hb].
      * left. right. rewrite Hsplit. apply elem_of_app. by left.
      * by right.
      * left. right. rewrite Hsplit. apply elem_of_app. by right.
    + intros b. unfold h2. destruct (decide (a = b)) as [->|]; [by rewrite lookup_insert_eq|].
      rewrite lookup_insert_ne by done. apply Hmono.
Qed.

(** ** The kinds of the values that are read *)
Lemma object_kind_node h a k ps : h !! a = Some (mkObj k ps) → object_kind h (VRef a) = Some k.
Proof. intros Ha. simpl. by rewrite Ha. Qed.
Lemma leaf_kind h v : leaf h v → ∀ k, container k → object_kind h v ≠ Some k.
Proof.
  intros Hv k Hk. destruct v as [| | | | |b]; try done. destruct Hv as (o & Hb & Ho). simpl. rewrite Hb. simpl.
  intros [= E]. by rewrite E in Ho.
Qed.
Lemma leaf_flat h v : leaf h v → isPlainObject h v || isArray h v = false.
Proof.
  intros Hv. unfold isPlainObject, isArray.
  rewrite !bool_decide_eq_false_2; [done|apply (leaf_kind h v Hv); by right|apply (leaf_kind h v Hv); by left].
Qed.
Lemma clone_for_spec h k src :
  container k →
  clone_for h (negb (bool_decide (k = OPlain))) src
  = if decide (object_kind h src = Some k) then (src, h) else alloc_value k h.
Proof.
  intros Hk. unfold clone_for, isArray, isPlainObject. destruct Hk as [->| ->].
  - rewrite (bool_decide_eq_true_2 (OPlain = OPlain)) by done. cbn [negb andb]. case_decide as E.
    + by rewrite bool_decide_eq_true_2.
    + by rewrite bool_decide_eq_false_2.
  - rewrite (bool_decide_eq_false_2 (OArray = OPlain)) by done. cbn [negb andb]. case_decide as E.
    + by rewrite bool_decide_eq_true_2.
    + by rewrite bool_decide_eq_false_2.
Qed.
(** A new container. *)
Lemma alloc_owns h k :
  container k →
  let '(v, h') := alloc_value k h in
  ∃ b, v = VRef b ∧ h !! b = None ∧ h' !! b = Some (mkObj k []) ∧ owns h' v (TNode k []) [b] ∧ framed [] h h' ∧
    (∀ c, h' !! c = None → h !! c = None).
Proof.
  intros Hk. unfold alloc_value, alloc. set (b := fresh (dom h)). exists b.
  assert (Hb : h !! b = None) by (apply not_elem_of_dom, is_fresh).
  assert (Hb' : <[b := mkObj k []]> h !! b = Some (mkObj k [])) by apply lookup_insert_eq.
  split_and!; [done|done|done| | |].
  - eapply own_node; [exact Hb'|done|constructor].
  - intros c o Hc _. rewrite lookup_insert_ne; [done|]. by intros ->; congruence.
  - intros c. destruct (decide (b = c)) as [->|]; [by rewrite lookup_insert_eq|]. by rewrite lookup_insert_ne.
Qed.

(** ** The merge *)
Definition merges (fuel : nat) : Prop := ∀ h b kb tf fp c ks sf rp,
  owns h (VRef b) (TNode kb tf) fp → NoDup fp → owns h c (TNode ks sf) rp → (∀ x, x ∈ rp → x ∉ fp) →
  well_named (TNode ks sf) → depth (TNode ks sf) ≤ fuel →
  ∃ h', extend_into fuel true (VRef b) c h = Some h' ∧ stepped (VRef b) fp h h' (TNode kb (merge_fields sf tf)).

(** The object that a container is merged into, and the result of the merge. *)
Lemma merge_clone fuel h a k ps acc l name lo l' c kc fc rp :
  merges fuel → h !! a = Some (mkObj k ps) → container k → owns_fields h ps acc l → NoDup (a :: l) → slot h ps acc l name lo l' →
  owns h c (TNode kc fc) rp → container kc → (∀ x, x ∈ rp → x ∉ a :: l) → well_named (TNode kc fc) → depth (TNode kc fc) ≤ fuel →
  let '(clone, h1) := clone_for h (negb (bool_decide (kc = OPlain))) (read h (VRef a) name) in
  ∃ h2 lv, extend_into fuel true clone c h1 = Some h2 ∧
    owns h2 clone (merge_node (TNode kc fc) (assoc name acc)) lv ∧ NoDup lv ∧ framed lo h h2 ∧
    (∀ b, b ∈ lv → b ∈ lo ∨ h !! b = None) ∧ (∀ b, h2 !! b = None → h !! b = None).
Proof.
  intros IH Ha Hk Hf Hnd [Hsplit Hold _] Hc Hkc Hdisj Hwn Hd. rewrite clone_for_spec by done.
  assert (Hread : read h (VRef a) name = default VUndef (assoc name ps)) by (simpl; by rewrite Ha).
  apply NoDup_cons in Hnd as [_ Hnd]. rewrite Hsplit in Hnd. apply NoDup_app in Hnd as (Hlo & _ & _).
  assert (Hrc : ∀ x, x ∈ rp → ∃ o, h !! x = Some o ∧ container (kind_of o)) by (by apply (proj1 (owns_containers h) c (TNode kc fc))).
  rewrite Hread. case_decide as Ekind.
  - (* the field is a container of that kind *)
    destruct (assoc name acc) as [t|] eqn:Et; [|destruct Hold as [E _]; by rewrite E in Ekind].
    destruct Hold as (v & Hv & Hvo). rewrite Hv in *. change (default VUndef (Some v)) with v in *.
    destruct Hvo as [v Hl|b k' ps' fs' lb Hb Hk' Hfs']; [by apply (leaf_kind h v Hl) in Ekind|].
    rewrite (object_kind_node h b k' ps') in Ekind by done. injection Ekind as ->.
    destruct (IH h b kc fs' (b :: lb) c kc fc rp) as (h2 & E & fp' & Ho & Hn & Hfr & Hi & Hm); [| |done| |done|done|].
    + by eapply own_node.
    + done.
    + intros x Hx Hx'. apply (Hdisj x Hx). right. rewrite Hsplit. apply elem_of_app. by left.
    + exists h2, fp'. split_and!; try done. rewrite merge_node_fields. simpl. by rewrite decide_True.
  - (* a new container *)
    pose proof (alloc_owns h kc Hkc) as Halloc. destruct (alloc_value kc h) as [v h1].
    destruct Halloc as (b & -> & Hb & Hb1 & Ho1 & Hf1 & Hm1).
    destruct (IH h1 b kc [] [b] c kc fc rp) as (h2 & E & fp' & Ho & Hn & Hfr & Hi & Hm); [done|apply NoDup_singleton| | |done|done|].
    + apply (proj1 (owns_frame_both h h1 [] Hf1 ltac:(by intros x ?%elem_of_nil))); [done|]. by intros x _ ?%elem_of_nil.
    + intros x Hx ->%list_elem_of_singleton. destruct (Hrc b Hx) as (o & Ho' & _). congruence.
    + exists h2, fp'. split_and!; [done| |done| | |].
      * rewrite merge_node_fields. replace (base_of kc (assoc name acc)) with (@nil (string * tree)); [done|].
        destruct (assoc name acc) as [[w|k' fs']|] eqn:Et; [done| |done]. simpl. case_decide as Ek; [subst k'|done].
        destruct Hold as (v & Hv & Hvo). rewrite Hv in Ekind. change (default VUndef (Some v)) with v in Ekind.
        inversion Hvo; subst. exfalso. apply Ekind. by erewrite object_kind_node.
      * eapply framed_trans; [|exact Hfr|].
        { intros x o Hx _. apply Hf1; [done|by intros ?%elem_of_nil]. }
        { intros x ->%list_elem_of_singleton. by right. }
      * intros x [->%list_elem_of_singleton|Hx]%Hi; [by right|right; by apply Hm1].
      * intros x Hx. by apply Hm1, Hm.
Qed.
Definition merge_one (name : string) (s : tree) (acc : list (string * tree)) : list (string * tree) :=
  if skipped name s then acc else assoc_set name (merge_node s (assoc name acc)) acc.
Lemma write_field_here h a k ps acc l name lo l' v t lv :
  h !! a = Some (mkObj k ps) → container k → owns_fields h ps acc l → NoDup (a :: l) → slot h ps acc l name lo l' →
  owns h v t lv → lv = [] →
  stepped (VRef a) (a :: l) h (write a name v h) (TNode k (assoc_set name t acc)).
Proof.
  intros Ha Hk Hf Hnd Hs Hv ->. apply (write_field h h a k ps acc l name lo l' v t []); try done.
  - apply framed_refl.
  - constructor.
  - by intros b ?%elem_of_nil.
Qed.
Lemma merge_name fuel h a k acc fp options name s rp :
  merges fuel → owns h (VRef a) (TNode k acc) fp → NoDup fp →
  owns h (read h options name) s rp → (∀ x, x ∈ rp → x ∉ fp) → well_named s → depth s ≤ fuel →
  ∃ h', extend_name (extend_into fuel true) true (VRef a) options name h = Some h' ∧
    stepped (VRef a) fp h h' (TNode k (merge_one name s acc)).
Proof.
  intros IH Ho Hnd Hs Hdisj Hwn Hd. unfold extend_name, merge_one, skipped.
  destruct (String.eqb name "__proto__"); [exists h; by split; [|apply stepped_refl]|]. cbn [orb].
  pose proof Ho as Ho'. inversion Ho' as [|a' k' ps acc' l Ha Hk Hf]; subst.
  destruct (owns_fields_slot h ps acc l name Hf) as (lo & l' & Hslot).
  destruct Hs as [v Hleaf|c kc pc fc lc Hc Hkc Hfc].
  - (* a leaf *)
    rewrite bool_decide_eq_false_2.
    2: { intros <-. destruct Hleaf as (o & Ho1 & Ho2). rewrite Ha in Ho1. by injection Ho1 as <-. }
    rewrite (leaf_flat h v Hleaf), andb_false_r. destruct (decide (v = VUndef)) as [->|Hv].
    + exists h. split; [done|]. by apply stepped_refl.
    + rewrite bool_decide_eq_true_2 by done. exists (write a name v h). split; [done|].
      replace (match v with VUndef => true | _ => false end) with false by (by destruct v).
      eapply write_field_here; [done|done|done|done|exact Hslot| |done]. by constructor.
  - (* a container *)
    assert (Hrp : c ∈ c :: lc) by left.
    rewrite bool_decide_eq_false_2 by (intros [= <-]; apply (Hdisj a Hrp); by left).
    unfold isPlainObject at 1, isArray at 1. rewrite (object_kind_node h c kc pc Hc). cbn [truth andb].
    assert (Hcont : bool_decide (Some kc = Some OPlain) || bool_decide (Some kc = Some OArray) = true)
      by (by destruct Hkc as [->| ->]).
    rewrite Hcont. unfold isPlainObject. rewrite (object_kind_node h c kc pc Hc).
    replace (bool_decide (Some kc = Some OPlain)) with (bool_decide (kc = OPlain)) by (apply bool_decide_ext; naive_solver).
    pose proof (merge_clone fuel h a k ps acc l name lo l' (VRef c) kc fc (c :: lc) IH Ha Hk Hf Hnd Hslot
      ltac:(by eapply own_node) Hkc Hdisj Hwn Hd) as Hm.
    destruct (clone_for h _ _) as [clone h1]. destruct Hm as (h2 & lv & E & Hlv & Hn & Hfr & Hi & Hmono).
    unfold mbind, option_bind. rewrite E. exists (write a name clone h2). split; [done|].
    by apply (write_field h h2 a k ps acc l name lo l' clone _ lv).
Qed.
(** The names that are left of a source. *)
Lemma merge_names fuel ks ps options c names_done ps2 fs2 l2 :
  options = VRef c → ps = names_done ++ ps2 → NoDup (map fst ps) → merges fuel →
  ∀ h a k acc fp,
  h !! c = Some (mkObj ks ps) → c ∉ fp → owns_fields h ps2 fs2 l2 → (∀ n t, (n, t) ∈ fs2 → well_named t ∧ depth t ≤ fuel) →
  owns h (VRef a) (TNode k acc) fp → NoDup fp → (∀ x, x ∈ l2 → x ∉ fp) →
  ∃ h', extend_names (extend_into fuel true) true (VRef a) options (map fst ps2) h = Some h' ∧
    stepped (VRef a) fp h h' (TNode k (merge_fields fs2 acc)).
Proof.
  intros -> Hps Hnames IH. revert names_done fs2 l2 Hps.
  induction ps2 as [|[n v] ps2 IHn]; intros pre fs2 l2 Hps h a k acc fp Hc Hcf Hf Hwn Ho Hnd Hdisj.
  - inversion Hf; subst. exists h. split; [done|]. by apply stepped_refl.
  - inversion Hf as [|n' v' t l ps' fs' l' Hv Hf']; subst. cbn [map extend_names fst].
    assert (Hread : read h (VRef c) n = v).
    { simpl. rewrite Hc. simpl. rewrite (assoc_NoDup n v); [done|done|apply elem_of_app; right; by left]. }
    destruct (Hwn n t ltac:(by left)) as [Hwt Hdt].
    destruct (merge_name fuel h a k acc fp (VRef c) n t l IH Ho Hnd) as (h1 & E & Hst); [by rewrite Hread| |done|done|].
    { intros x Hx. apply Hdisj, elem_of_app. by left. }
    unfold mbind, option_bind. rewrite E. destruct Hst as (fp' & Ho1 & Hnd1 & Hfr & Hi & Hm).
    pose proof (λ x, proj1 (owns_containers h) _ _ _ Ho x) as Hcont.
    assert (Hrd : ∀ x o, h !! x = Some o → x ∉ fp → x ∉ fp') by (intros x o Hx Hxf [?|?]%Hi; [done|congruence]).
    assert (Hc1 : h1 !! c = Some (mkObj ks (pre ++ (n, v) :: ps2))) by (by apply Hfr).
    destruct (IHn (pre ++ [(n, v)]) fs' l' ltac:(by rewrite <- app_assoc) h1 a k (merge_one n t acc) fp')
      as (h2 & E2 & Hst2).
    + done.
    + by eapply Hrd.
    + apply (proj2 (owns_frame_both h h1 fp Hfr ltac:(intros x Hx; left; by apply Hcont))); [done|].
      intros x Hx. apply Hdisj, elem_of_app. by right.
    + intros n2 t2 Hin. apply (Hwn n2). by right.
    + done.
    + done.
    + intros x Hx. destruct (proj2 (owns_containers h) _ _ _ Hf' x Hx) as (o & Hxo & _).
      apply (Hrd x o Hxo). apply Hdisj, elem_of_app. by right.
    + exists h2. split; [done|]. apply (stepped_trans _ fp h h1 h2); [|done|done]. exists fp'. split; [done|exact Hst2].
Qed.
Lemma owns_fields_names h ps fs l : owns_fields h ps fs l → map fst ps = map fst fs.
Proof. induction 1 as [|n v t l ps fs l' _ _ IH]; simpl; [done|by rewrite IH]. Qed.
Lemma extend_into_merges fuel : merges fuel.
Proof.
  induction fuel as [|fuel IH]; intros h b kb tf fp c ks sf rp Ho Hnd Hs Hdisj Hwn Hd; [simpl in Hd; lia|].
  inversion Hs as [|c' ks' ps sf' l Hc Hks Hf]; subst. cbn [extend_into].
  replace (names_in h (VRef c')) with (map fst ps) by (simpl; by rewrite Hc).
  apply well_named_fields in Hwn as Hw. destruct Hw as [Hnames Hw].
  eapply (merge_names fuel ks ps (VRef c') c' [] ps sf l); try done.
  - by rewrite (owns_fields_names h ps sf l).
  - apply Hdisj. by left.
  - intros n t Hin. split; [by eapply Hw|]. pose proof (depth_field ks sf n t Hin). lia.
  - intros x Hx. apply Hdisj. by right.
Qed.

(** C37. A deep [extend] of an object with another one is the merge of the trees they
    read as: the target is changed in place and reads as the merge, however deeply
    objects and arrays are nested; the source reads as before and shares no object or
    array with the result; every other object is as it was. *)
Theorem deep_extend_merges fuel this h a k tf fp src ks sf rp :
  owns h (VRef a) (TNode k tf) fp → NoDup fp → owns h src (TNode ks sf) rp → (∀ x, x ∈ rp → x ∉ fp) →
  well_named (TNode ks sf) → depth (TNode ks sf) ≤ fuel →
  ∃ h' fp', extend fuel this [VBool true; VRef a; src] h = Some (VRef a, h') ∧
    owns h' (VRef a) (TNode k (merge_fields sf tf)) fp' ∧ owns h' src (TNode ks sf) rp ∧
    (∀ x, x ∈ rp → x ∉ fp') ∧ framed fp h h'.
Proof.
  intros Ho Hnd Hs Hdisj Hwn Hd.
  destruct (extend_into_merges fuel h a k tf fp src ks sf rp) as (h' & E & fp' & Ho' & Hnd' & Hfr & Hi & Hm); [done..|].
  pose proof (λ x, proj1 (owns_containers h) _ _ _ Hs x) as Hsrc.
  pose proof (λ x, proj1 (owns_containers h) _ _ _ Ho x) as Htgt.
  exists h', fp'. split_and!; [|done| | |done].
  - unfold extend. simpl. replace (is_null src) with false by (by inversion Hs). by rewrite E.
  - apply (proj1 (owns_frame_both h h' fp Hfr ltac:(intros x Hx; left; by apply Htgt))); [done|]. exact Hdisj.
  - intros x Hx [Hx'|Hx']%Hi; [by apply (Hdisj x)|]. destruct (Hsrc x Hx) as (o & Hxo & _). congruence.
Qed.
Notation demo_store := (list_to_map
  [(0, mkObj OPlain [("size", VNum 1); ("opts", VRef 1)]);
   (1, mkObj OPlain [("a", VNum 1)]);
   (2, mkObj OPlain [("opts", VRef 3); ("list", VRef 4); ("none", VUndef)]);
   (3, mkObj OPlain [("b", VNum 2)]);
   (4, mkObj OArray [("0", VNum 7)])]%string : Store) (only parsing).
Lemma deep_extend_merges_witness :
  let tf := [("size", TLeaf (VNum 1)); ("opts", TNode OPlain [("a", TLeaf (VNum 1))])]%string in
  let sf := [("opts", TNode OPlain [("b", TLeaf (VNum 2))]); ("list", TNode OArray [("0", TLeaf (VNum 7))]);
             ("none", TLeaf VUndef)]%string in
  merge_fields sf tf = [("size", TLeaf (VNum 1)); ("opts", TNode OPlain [("a", TLeaf (VNum 1)); ("b", TLeaf (VNum 2))]);
                        ("list", TNode OArray [("0", TLeaf (VNum 7))])]%string ∧
  ∃ h' fp', extend 2 VUndef [VBool true; VRef 0; VRef 2] demo_store = Some (VRef 0, h') ∧
    owns h' (VRef 0) (TNode OPlain (merge_fields sf tf)) fp' ∧ owns h' (VRef 2) (TNode OPlain sf) [2; 3; 4] ∧
    (∀ x, x ∈ [2; 3; 4] → x ∉ fp') ∧ framed [0; 1] demo_store h'.
Proof.
  intros tf sf. split; [reflexivity|].
  apply (deep_extend_merges 2 VUndef demo_store 0 OPlain tf [0; 1] (VRef 2) OPlain sf [2; 3; 4]).
  - eapply own_node; [reflexivity|by left|]. apply (own_cons _ _ _ _ []); [by constructor|].
    apply (own_cons _ _ _ _ [1] _ _ []); [|constructor].
    eapply own_node; [reflexivity|by left|]. apply (own_cons _ _ _ _ []); [by constructor|constructor].
  - by apply (bool_decide_unpack _); vm_compute.
  - eapply own_node; [reflexivity|by left|]. apply (own_cons _ _ _ _ [3] _ _ [4]).
    + eapply own_node; [reflexivity|by left|]. apply (own_cons _ _ _ _ []); [by constructor|constructor].
    + apply (own_cons _ _ _ _ [4] _ _ []).
      * eapply own_node; [reflexivity|by right|]. apply (own_cons _ _ _ _ []); [by constructor|constructor].
      * apply (own_cons _ _ _ _ []); [by constructor|constructor].
  - apply Forall_forall. repeat constructor; by apply (bool_decide_unpack _); vm_compute.
  - repeat split; by apply (bool_decide_unpack _); vm_compute.
  - vm_compute. lia.
Defined.
(** A source that holds itself is never merged: the test that prevents an endless loop
    compares a value with the target only, and the clone is a new target. *)
Lemma extend_cycle fuel h b :
  h !! 1 = Some (mkObj OPlain [("self", VRef 1)]%string) → h !! b = Some (mkObj OPlain []) → b ≠ 1 →
  extend_into fuel true (VRef b) (VRef 1) h = None.
Proof.
  revert h b. induction fuel as [|fuel IH]; intros h b H1 Hb Hne; [done|]. cbn [extend_into].
  replace (names_in h (VRef 1)) with ["self"%string] by (simpl; by rewrite H1). cbn [extend_names].
  unfold extend_name. replace (read h (VRef 1) "self") with (VRef 1) by (simpl; by rewrite H1).
  replace (read h (VRef b) "self") with VUndef by (simpl; by rewrite Hb).
  rewrite bool_decide_eq_false_2 by congruence. cbn [andb truth].
  unfold isPlainObject, isArray. rewrite (object_kind_node h 1 OPlain _ H1). rewrite !(bool_decide_eq_true_2 (Some OPlain = _)) by done.
  cbn [orb negb]. change (clone_for h false VUndef) with (alloc_value OPlain h).
  change (String.eqb "self" "__proto__") with false. cbn [orb].
  pose proof (alloc_owns h OPlain ltac:(by left)) as Ha. destruct (alloc_value OPlain h) as [v h1].
  destruct Ha as (c & -> & Hc & Hc1 & _ & Hf & _). unfold mbind, option_bind. simpl.
  rewrite IH; [done| |done|by intros ->; congruence]. apply Hf; [done|by intros ?%elem_of_nil].
Qed.

(** ** Arrays and sets *)
Lemma grep_from_opposite {A} (p q : A → nat → bool) i l :
  (∀ x n, q x n = negb (p x n)) → grep_from q true i l = grep_from p false i l.
Proof.
  intros Hpq. revert i. induction l as [|x l IH]; intros i; [done|]. cbn [grep_from]. rewrite Hpq, IH.
  by destruct (p x i).
Qed.
(** [grep] and its inversion share the elements out. *)
Lemma grep_partition {A} (elems : list A) (callback : A → nat → bool) :
  Permutation (grep elems callback false ++ grep elems callback true) elems.
Proof.
  unfold grep. simpl. generalize 0. induction elems as [|x l IH]; intros i; [done|]. cbn [grep_from].
  destruct (callback x i); simpl.
  - by constructor.
  - rewrite <- Permutation_middle. by constructor.
Qed.
(** The even and the odd elements share a set out. *)
Lemma even_odd {A} (q : @JQ A) : Permutation (elems (even q) ++ elems (odd q)) (elems q).
Proof.
  unfold even, odd, pushStack, merge. cbn [elems app]. rewrite <- (grep_partition (elems q) (λ _ i, negb ((i + 1) mod 2 =? 0))) at 3.
  apply Permutation_app_head. unfold grep. cbn [negb].
  rewrite (grep_from_opposite (λ _ i, negb ((i + 1) mod 2 =? 0))); [done|].
  intros _ n. cbv beta. rewrite (Nat.Div0.add_mod n 1 2). pose proof (Nat.mod_upper_bound n 2 ltac:(lia)).
  by destruct (n mod 2) as [|[|?]]; [| |lia].
Qed.
Lemma jq_map_spec {A B} (l : list A) (callback : A → nat → mapped B) :
  jq_map l callback = concat (imap (λ i x, flat [callback x i]) l).
Proof.
  unfold jq_map. enough (H : ∀ k, flat (map_from callback k l) = concat (imap (λ i x, flat [callback x (k + i)]) l)) by apply (H 0).
  induction l as [|x l IH]; intros k; [done|]. cbn [map_from]. rewrite imap_cons. simpl. rewrite Nat.add_0_r.
  assert (E : imap ((λ i x, flat [callback x (k + i)]) ∘ S) l = imap (λ i x, flat [callback x (S k + i)]) l).
  { apply imap_ext. intros n y _. simpl. by rewrite Nat.add_succ_r. }
  rewrite E, <- IH. unfold flat. destruct (callback x k); simpl; by rewrite ?app_nil_r.
Qed.
Lemma index_of_from_spec `{EqDecision A} (elem : A) i l :
  (index_of_from elem i l = -1 ∧ elem ∉ l)%Z ∨
  ∃ n, index_of_from elem i l = Z.of_nat (i + n) ∧ l !! n = Some elem ∧ elem ∉ take n l.
Proof.
  revert i. induction l as [|x l IH]; intros i; simpl; [left; split; [done|set_solver]|].
  case_decide as E.
  - right. exists 0. rewrite Nat.add_0_r. split_and!; [done|by rewrite E|set_solver].
  - destruct (IH (S i)) as [[H1 H2]|(n & H1 & H2 & H3)].
    + left. split; [done|]. set_solver.
    + right. exists (S n). split_and!; [rewrite H1; f_equal; lia|done|]. simpl. set_solver.
Qed.
Lemma eq_get {A} (q : @JQ A) i : elems (eq q i) = match get q i with Some x => [x] | None => [] end.
Proof.
  unfold eq, get, pushStack, merge. simpl. rewrite (Z.add_comm _ (Z.of_nat _)).
  replace (if Z.ltb i 0 then (Z.of_nat (length (elems q)) + i)%Z else i)
    with (i + (if Z.ltb i 0 then Z.of_nat (length (elems q)) else 0))%Z by (destruct (Z.ltb i 0); lia).
  set (j := (i + _)%Z). destruct (Z.leb_spec 0 j) as [H0|H0]; cbn [andb].
  - rewrite (proj2 (Z.ltb_ge j 0)) by lia. destruct (Z.ltb_spec j (Z.of_nat (length (elems q)))) as [H1|H1]; [done|].
    by rewrite lookup_ge_None_2 by lia.
  - by rewrite (proj2 (Z.ltb_lt j 0)) by lia.
Qed.
