(* ===== verification/JqEvent.v ===== *)
(** * jQuery events

    Model of the events of jquery-3.5.1.js: the handlers of an element with their
    namespaces and selectors, [on], [one] and [off], the dispatch of an event to
    delegated and direct handlers, [trigger], and the leverage of the native focus, blur
    and click.  Functions of the user are programs that may stop the event, attach and
    detach handlers, trigger events and call methods of elements, and throw or catch.
    Event objects and native events are in a store, since a trigger and the native event
    that it leads to share one event.  What is nested runs one level deeper: [levels].
    Namespaces are words without the characters that mean something in a pattern. *)
From Stdlib Require Import ZArith Lia Ascii String.
From stdpp Require Import base strings list gmap.
From S2P Require Import Prelude.
From S2P Require Import JsString.

(** ** Handlers *)
(** A function of the user, known by a number, or the wrapper of [one] around it; 0 is
    [returnFalse] and 1 is [returnTrue].  Or the handler that [leverageNative] makes for a
    type of an element. *)
Inductive hfn := UserFn (f : nat) (once : bool) | Controller (type : string).
(** The namespace of a controller is the boolean false: None. *)
Record HandleObj := mkHandleObj {
  ho_type : string; origType : string; ho_data : option string; handler : hfn;
  ho_guid : nat; selector : option string; namespace : option string
}.
(** The handlers of a type; the delegated ones come first. *)
Record Queue := mkQueue { handlers : list HandleObj; delegateCount : nat }.
Definition Events : Type := list (string * Queue).
Inductive ret := RUndef | RFalse | ROther (s : string).
#[export] Instance ret_eq_dec : EqDecision ret.
Proof. solve_decision. Defined.
(** What [leverageNative] stores for an element and a type: false, the arguments of a call
    (an array with an identity, of an event), or the result of an inner trigger. *)
Inductive Saved := SFalse | SArgs (array event : nat) | SValue (value : ret).

(** ** The handlers of all elements *)
Record Registry := mkRegistry {
  events : gmap nat Events;                 (* dataPriv: events *)
  listeners : list (nat * string);          (* addEventListener of the main handlers *)
  attaches : gmap (nat * string) nat;       (* dataPriv of documents: focusin, focusout *)
  captures : list (nat * string);           (* their capturing listeners *)
  guids : gmap nat nat; guid : nat;         (* fn.guid, jQuery.guid *)
  global : list string;                     (* jQuery.event.global *)
  leveraged : gmap (nat * string) Saved     (* dataPriv: focus, blur, click *)
}.
Implicit Types s : Registry.
Definition set_events (f : gmap nat Events → gmap nat Events) s : Registry :=
  mkRegistry (f (events s)) (listeners s) (attaches s) (captures s) (guids s) (guid s) (global s) (leveraged s).
Definition set_listeners (f : list (nat * string) → list (nat * string)) s : Registry :=
  mkRegistry (events s) (f (listeners s)) (attaches s) (captures s) (guids s) (guid s) (global s) (leveraged s).
Definition set_attaches (f : gmap (nat * string) nat → gmap (nat * string) nat) s : Registry :=
  mkRegistry (events s) (listeners s) (f (attaches s)) (captures s) (guids s) (guid s) (global s) (leveraged s).
Definition set_captures (f : list (nat * string) → list (nat * string)) s : Registry :=
  mkRegistry (events s) (listeners s) (attaches s) (f (captures s)) (guids s) (guid s) (global s) (leveraged s).
Definition set_global (f : list string → list string) s : Registry :=
  mkRegistry (events s) (listeners s) (attaches s) (captures s) (guids s) (guid s) (f (global s)) (leveraged s).
Definition set_leveraged (elem : nat) (type : string) (v : Saved) s : Registry :=
  mkRegistry (events s) (listeners s) (attaches s) (captures s) (guids s) (guid s) (global s) (<[(elem, type) := v]> (leveraged s)).
(** "if ( !handler.guid ) handler.guid = jQuery.guid++" *)
Definition ensure_guid (f : nat) s : nat * Registry :=
  match guids s !! f with
  | Some g => (g, s)
  | None => (guid s, mkRegistry (events s) (listeners s) (attaches s) (captures s) (<[f := guid s]> (guids s)) (S (guid s)) (global s)
                       (leveraged s))
  end.
(** The same for a function that is new. *)
Definition new_guid s : Registry :=
  mkRegistry (events s) (listeners s) (attaches s) (captures s) (guids s) (S (guid s)) (global s) (leveraged s).

(** ** Types and namespaces *)
(** [rtypenamespace]: the type up to the first period, and the rest. *)
Fixpoint type_part (t : string) : string :=
  match t with
  | EmptyString => EmptyString
  | String c t => if Ascii.eqb c "." then EmptyString else String c (type_part t)
  end.
Fixpoint after_dot (t : string) : string :=
  match t with EmptyString => EmptyString | String c t => if Ascii.eqb c "." then t else after_dot t end.
(** [Array.prototype.sort] of texts *)
Fixpoint insert_text (x : string) (l : list string) : list string :=
  match l with [] => [x] | y :: l' => if String.leb x y then x :: l else y :: insert_text x l' end.
Definition sort_texts (l : list string) : list string := fold_right insert_text [] l.
Definition namespaces_of (tok : string) : list string := sort_texts (split_on "." (after_dot tok)).
Definition join_dots (l : list string) : string := join "." l.
(** The test of the pattern that is made of sorted namespaces: they occur in this order
    among the parts of a handler's namespace. *)
Fixpoint subseq (ns parts : list string) : bool :=
  match ns, parts with
  | [], _ => true
  | _, [] => false
  | n :: ns', p :: parts' => if String.eqb n p then subseq ns' parts' else subseq ns parts'
  end.
Definition rnamespace_test (ns : list string) (t : string) : bool := subseq ns (split_on "." t).
(** [jQuery.event.special]: the types that others stand for. *)
Definition hover_type (type : string) : option string :=
  assoc type [("mouseenter", "mouseover"); ("mouseleave", "mouseout");
              ("pointerenter", "pointerover"); ("pointerleave", "pointerout")]%string.
Definition bindType (type : string) : option string := hover_type type.
Definition delegateType (type : string) : option string :=
  match assoc type [("focus", "focusin"); ("blur", "focusout")]%string with
  | Some t => Some t
  | None => hover_type type
  end.
Definition nonempty (t : option string) : bool := match t with Some t => negb (String.eqb t "") | None => false end.
Definition mapped_type (sel : option string) (type : string) : string :=
  default type (if nonempty sel then delegateType type else bindType type).
Definition words (types : string) : list string := match htmlwords types with [] => [""%string] | l => l end.

(** ** Event objects *)
(** The native event behind an event; [returnValue] is set for beforeunload. *)
Record Native := mkNative { n_prevented : bool; n_stopped : bool; n_immediate : bool; returnValue : ret }.
(** The bits of [isTrigger] are those of a number; it is 0 when it is not set.  The pattern
    [rnamespace] is set where the namespace is, to that of its parts. *)
Record Event := mkEvent {
  e_type : string; target : option nat; original : option nat; isSimulated : bool;
  button : option Z; relatedTarget : option nat; isTrigger : Z;
  isDefaultPrevented : bool; isPropagationStopped : bool; isImmediatePropagationStopped : bool;
  currentTarget : option nat; delegateTarget : option nat;
  e_namespace : option string; handleObj : option HandleObj; e_data : option string; result : ret
}.
Definition rnamespace (e : Event) : option (list string) :=
  match e_namespace e with
  | Some ns => if String.eqb ns "" then None else Some (split_on "." ns)
  | None => None
  end.
Definition set_type (t : string) (e : Event) : Event :=
  mkEvent t (target e) (original e) (isSimulated e) (button e) (relatedTarget e) (isTrigger e) (isDefaultPrevented e)
    (isPropagationStopped e) (isImmediatePropagationStopped e) (currentTarget e) (delegateTarget e) (e_namespace e) (handleObj e)
    (e_data e) (result e).
Definition set_target (t : nat) (e : Event) : Event :=
  mkEvent (e_type e) (Some t) (original e) (isSimulated e) (button e) (relatedTarget e) (isTrigger e) (isDefaultPrevented e)
    (isPropagationStopped e) (isImmediatePropagationStopped e) (currentTarget e) (delegateTarget e) (e_namespace e) (handleObj e)
    (e_data e) (result e).
Definition set_flags (prevented stopped immediate : bool) (e : Event) : Event :=
  mkEvent (e_type e) (target e) (original e) (isSimulated e) (button e) (relatedTarget e) (isTrigger e) prevented stopped immediate
    (currentTarget e) (delegateTarget e) (e_namespace e) (handleObj e) (e_data e) (result e).
Definition set_simulated (b : bool) (e : Event) : Event :=
  mkEvent (e_type e) (target e) (original e) b (button e) (relatedTarget e) (isTrigger e) (isDefaultPrevented e)
    (isPropagationStopped e) (isImmediatePropagationStopped e) (currentTarget e) (delegateTarget e) (e_namespace e) (handleObj e)
    (e_data e) (result e).
Definition set_trigger (b : Z) (e : Event) : Event :=
  mkEvent (e_type e) (target e) (original e) (isSimulated e) (button e) (relatedTarget e) b (isDefaultPrevented e)
    (isPropagationStopped e) (isImmediatePropagationStopped e) (currentTarget e) (delegateTarget e) (e_namespace e) (handleObj e)
    (e_data e) (result e).
Definition set_current (t : nat) (e : Event) : Event :=
  mkEvent (e_type e) (target e) (original e) (isSimulated e) (button e) (relatedTarget e) (isTrigger e) (isDefaultPrevented e)
    (isPropagationStopped e) (isImmediatePropagationStopped e) (Some t) (delegateTarget e) (e_namespace e) (handleObj e)
    (e_data e) (result e).
Definition set_delegate (t : nat) (e : Event) : Event :=
  mkEvent (e_type e) (target e) (original e) (isSimulated e) (button e) (relatedTarget e) (isTrigger e) (isDefaultPrevented e)
    (isPropagationStopped e) (isImmediatePropagationStopped e) (currentTarget e) (Some t) (e_namespace e) (handleObj e)
    (e_data e) (result e).
Definition set_namespace (ns : string) (e : Event) : Event :=
  mkEvent (e_type e) (target e) (original e) (isSimulated e) (button e) (relatedTarget e) (isTrigger e) (isDefaultPrevented e)
    (isPropagationStopped e) (isImmediatePropagationStopped e) (currentTarget e) (delegateTarget e) (Some ns) (handleObj e)
    (e_data e) (result e).
Definition set_handler (h : HandleObj) (e : Event) : Event :=
  mkEvent (e_type e) (target e) (original e) (isSimulated e) (button e) (relatedTarget e) (isTrigger e) (isDefaultPrevented e)
    (isPropagationStopped e) (isImmediatePropagationStopped e) (currentTarget e) (delegateTarget e) (e_namespace e) (Some h)
    (ho_data h) (result e).
Definition set_result (r : ret) (e : Event) : Event :=
  mkEvent (e_type e) (target e) (original e) (isSimulated e) (button e) (relatedTarget e) (isTrigger e) (isDefaultPrevented e)
    (isPropagationStopped e) (isImmediatePropagationStopped e) (currentTarget e) (delegateTarget e) (e_namespace e) (handleObj e)
    (e_data e) r.
(** [jQuery.Event] of a type. *)
Definition new_event (type : string) : Event :=
  mkEvent type None None false None None 0 false false false None None None None None RUndef.

(** ** Programs of the user *)
Inductive arg := ANone | AText (t : string) | AFun (f : nat) | AFalse | AData (t : string).
Inductive typesArg := TText (t : string) | TMap (l : list (string * arg)).
(** What is triggered: a type, a new event object, or the event that is handled. *)
Inductive source := SType (type : string) | SNew (e : Event) | SThis.
Inductive action :=
  | AStop | AStopImmediate | APrevent
  | AOn (elem : nat) (types : typesArg) (sel data fn : arg) (one : bool)
  | AOff (elem : nat) (types : typesArg) (sel fn : arg)
  | ATrigger (src : source) (elem : nat) (onlyHandlers : bool)
  | AMethod (elem : nat) (type : string).
(** What comes next may depend on what an action returned or threw. *)
Inductive program := Done (r : outcome ret) | Do (a : action) (next : outcome ret → program).
(** The calls that were made, with the level they were made on. *)
Inductive entry :=
  | LCall (level f this : nat) (type : string)
  | LInline (level this : nat) (type : string)
  | LNative (level elem : nat) (type : string).
(** A native event that the browser fires: the elements whose listeners it reaches, in
    their order, and what an event object takes from it. *)
Record Fired := mkFired { f_type : string; f_target : nat; f_path : list nat; f_button : option Z; f_related : option nat }.

(** ** The page *)
(** The chain of parents of a node, what nodes and windows are, the selectors, and the
    functions of the user: what one does when it is called on an element with an event,
    given the calls so far (0 is the inline handler of the element).  [accepts] holds of
    elements, documents and windows. *)
Class Browser := {
  parents : nat → list nat;
  isElement : nat → bool; isText : nat → bool; accepts : nat → bool; disabled : nat → bool; isWindow : nat → bool;
  ownerDocument : nat → option nat; defaultView : nat → nat; windowDocument : nat → nat; document : nat;
  checkable : nat → bool;                     (* an input of type checkbox or radio with a click method *)
  isLink : nat → bool;                        (* an "a" element *)
  focusin : bool;                             (* support.focusin *)
  valid_selector : string → bool; find : string → nat → nat → bool; contains : nat → nat → bool;
  inline : nat → string → bool;               (* the element has an "on" method *)
  method : nat → string → bool;               (* the element has a method of this name *)
  activeElement : list entry → option nat;
  fires : list entry → nat → string → list Fired * outcome unit;   (* what a method of an element does *)
  user : list entry → nat → nat → Event → program
}.
Section Events.
Context {P : Browser}.

(** ** [jQuery.event.add] *)
Definition empty_queue : Queue := mkQueue [] 0.
Definition add_listener (elem : nat) (type : string) : Registry → Registry := set_listeners (λ l, l ++ [(elem, type)]).
Definition remove_listener (elem : nat) (type : string) : Registry → Registry :=
  set_listeners (List.filter (λ p, negb (bool_decide (p = (elem, type))))).
Definition enqueue (sel : option string) (h : HandleObj) (q : Queue) : Queue :=
  if nonempty sel then
    mkQueue (take (delegateCount q) (handlers q) ++ h :: drop (delegateCount q) (handlers q)) (S (delegateCount q))
  else mkQueue (handlers q ++ [h]) (delegateCount q).
Definition events_at (elem : nat) s : Events := default [] (events s !! elem).
Definition put_queue (elem : nat) (type : string) (q : Queue) s : Registry :=
  set_events (λ m, <[elem := assoc_set type q (events_at elem s)]> m) s.
Definition queue_at (this : nat) (type : string) s : Queue := default empty_queue (assoc type (events_at this s)).
Definition add_global (type : string) : Registry → Registry :=
  set_global (λ l, if existsb (String.eqb type) l then l else l ++ [type]).
(** The end of [add]: the handler is put into the queue of its type. *)
Definition attach (elem : nat) (h : HandleObj) s : Registry :=
  add_global (ho_type h) (put_queue elem (ho_type h) (enqueue (selector h) h (queue_at elem (ho_type h) s)) s).
(** The types whose special setup calls [leverageNative]. *)
Definition leverages (elem : nat) (type : string) : bool :=
  String.eqb type "focus" || String.eqb type "blur" || String.eqb type "click" && checkable elem.
(** [leverageNative] of a setup: false is stored and a handler without a namespace is added;
    its [add] finds the queue that is being set up, so it only attaches. *)
Definition leverageNative (elem : nat) (type : string) s : Registry :=
  let s := set_leveraged elem type SFalse s in
  attach elem (mkHandleObj type type None (Controller type) (guid s) None None) (new_guid s).
(** Without support for focusin and focusout a listener of the document captures focus and
    blur while there are handlers. *)
Definition captured (type : string) : bool := negb focusin && (String.eqb type "focusin" || String.eqb type "focusout").
Definition orig_type (fix_ : string) : string := if String.eqb fix_ "focusin" then "focus" else "blur".
Definition doc_of (elem : nat) : nat :=
  match ownerDocument elem with Some d => d | None => if isWindow elem then windowDocument elem else elem end.
Definition setup_capture (elem : nat) (type : string) s : Registry :=
  let doc := doc_of elem in
  let n := default 0 (attaches s !! (doc, type)) in
  set_attaches (<[(doc, type) := S n]>) (if n =? 0 then set_captures (λ l, l ++ [(doc, orig_type type)]) s else s).
Definition teardown_capture (elem : nat) (type : string) s : Registry :=
  let doc := doc_of elem in
  let n := pred (default 0 (attaches s !! (doc, type))) in
  if n =? 0 then
    set_attaches (delete (doc, type)) (set_captures (List.filter (λ p, negb (bool_decide (p = (doc, orig_type type))))) s)
  else set_attaches (<[(doc, type) := n]>) s.
(** The queue of a type is made, with the special setup of the type; only when there is none
    or when it returns false there is a listener. *)
Definition setup (elem : nat) (type : string) s : Registry :=
  let s := put_queue elem type empty_queue s in
  if captured type then setup_capture elem type s
  else add_listener elem type (if leverages elem type then leverageNative elem type s else s).
Definition add_one (elem : nat) (h : hfn) (g : nat) (data sel : option string) (tok : string) s : Registry :=
  let original := type_part tok in
  if String.eqb original "" then s else
  let type := mapped_type sel original in
  attach elem (mkHandleObj type original data h g sel (Some (join_dots (namespaces_of tok))))
    match assoc type (events_at elem s) with Some _ => s | None => setup elem type s end.
Definition add (elem : nat) (types : string) (f : nat) (once : bool) (data sel : option string) : M Registry unit :=
  if negb (accepts elem) then mret tt else
  if nonempty sel && negb (match sel with Some x => valid_selector x | None => true end)
  then raise (JsError "SyntaxError")
  else modify (λ s,
    let '(g, s) := ensure_guid f s in
    let s := set_events (λ m, <[elem := events_at elem s]> m) s in
    fold_left (λ s tok, add_one elem (UserFn f once) g data sel tok s) (rev (words types)) s).

(** ** [jQuery.event.remove] *)
(** The namespace as a text: that of a controller is false. *)
Definition namespace_text (h : HandleObj) : string := default "false"%string (namespace h).
Definition matches (mapped : bool) (original : string) (g : option (option nat)) (ns : option (list string))
    (sel : option string) (h : HandleObj) : bool :=
  (mapped || String.eqb original (origType h))
  && (match g with None => true | Some g => bool_decide (g = Some (ho_guid h)) end)
  && (match ns with None => true | Some ns => rnamespace_test ns (namespace_text h) end)
  && (negb (nonempty sel) || bool_decide (sel = selector h)
      || bool_decide (sel = Some "**"%string) && nonempty (selector h)).
Definition removed (p : HandleObj → bool) (q : Queue) : Queue :=
  mkQueue (List.filter (λ h, negb (p h)) (handlers q))
    (delegateCount q - length (List.filter (λ h, p h && nonempty (selector h)) (handlers q))).
Definition delete_type (type : string) (e : Events) : Events := List.filter (λ p, negb (String.eqb (fst p) type)) e.
(** One word with a type.  The teardown is that of the type before it is mapped; no special
    type has a remove hook. *)
Definition teardown (elem : nat) (original type : string) s : Registry :=
  if captured original then teardown_capture elem original s else remove_listener elem type s.
Definition remove_named (elem : nat) (g : option (option nat)) (sel : option string) (mapped : bool) (tok : string)
    s : Registry :=
  let original := type_part tok in
  let ns := if String.eqb (after_dot tok) "" then None else Some (namespaces_of tok) in
  let type := mapped_type sel original in
  match assoc type (events_at elem s) with
  | None => s
  | Some q =>
      let q' := removed (matches mapped original g ns sel) q in
      if negb (length (handlers q) =? 0) && (length (handlers q') =? 0) then
        set_events (λ m, <[elem := delete_type type (events_at elem s)]> m) (teardown elem original type s)
      else put_queue elem type q' s
  end.
(** "if ( jQuery.isEmptyObject( events ) )" *)
Definition tidy (elem : nat) s : Registry :=
  match events_at elem s with [] => set_events (delete elem) s | _ => s end.
(** A call of [remove] for a type of the element and the word. *)
Definition remove_nested (elem : nat) (g : option (option nat)) (sel : option string) (tok : string) s (type : string)
    : Registry :=
  match events s !! elem with
  | None => s
  | Some _ => tidy elem (remove_named elem g sel true (type ++ tok) s)
  end.
Definition remove_word (elem : nat) (g : option (option nat)) (sel : option string) s (tok : string) : Registry :=
  if String.eqb (type_part tok) "" then
    fold_left (remove_nested elem g sel tok) (map fst (events_at elem s)) s
  else remove_named elem g sel false tok s.
Definition remove (elem : nat) (types : string) (fn : option nat) (sel : option string) s : Registry :=
  match events s !! elem with
  | None => s
  | Some _ =>
      let g := option_map (λ f, guids s !! f) fn in
      tidy elem (fold_left (remove_word elem g sel) (rev (words types)) s)
  end.

(** ** [on], [one] and [off] *)
Definition arg_null (a : arg) : bool := match a with ANone => true | _ => false end.
Definition text_of (a : arg) : option string := match a with AText t => Some t | _ => None end.
Definition data_of (a : arg) : option string := match a with AText t | AData t => Some t | _ => None end.
Definition arg_or (a b : arg) : arg :=
  match a with ANone | AFalse => b | AText t => if String.eqb t "" then b else a | _ => a end.
Fixpoint each_elem (f : nat → M Registry unit) (elems : list nat) : M Registry unit :=
  match elems with [] => mret tt | e :: l => f e;; each_elem f l end.
(** The meaning of the arguments: selector, data and function. *)
Definition resolve_args (sel data fn : arg) : arg * arg * arg :=
  if arg_null data && arg_null fn then (ANone, ANone, sel)
  else if arg_null fn then
    match sel with AText _ => (sel, ANone, data) | _ => (ANone, sel, data) end
  else (sel, data, fn).
Definition on_text (elems : list nat) (types : string) (sel data fn : arg) (one : bool) : M Registry unit :=
  let '(sel, data, fn) := resolve_args sel data fn in
  let attach_all (f : nat) : M Registry unit :=
    when one (modify (λ s, snd (ensure_guid f s)));;
    each_elem (λ e, add e types f one (data_of data) (text_of sel)) elems in
  match fn with
  | AFalse => attach_all 0
  | AFun f => attach_all f
  | ANone => mret tt
  | AText t => if String.eqb t "" then mret tt else
      if one || existsb accepts elems then raise (JsError "TypeError") else mret tt
  | AData _ => if one || existsb accepts elems then raise (JsError "TypeError") else mret tt
  end.
Fixpoint on_map (elems : list nat) (l : list (string * arg)) (sel data : arg) (one : bool) : M Registry unit :=
  match l with
  | [] => mret tt
  | (type, fn) :: l' => on_text elems type sel data fn one;; on_map elems l' sel data one
  end.
Definition on (elems : list nat) (types : typesArg) (sel data fn : arg) (one : bool) : M Registry unit :=
  match types with
  | TText t => on_text elems t sel data fn one
  | TMap l =>
      match sel with
      | AText _ => on_map elems l sel data one
      | _ => on_map elems l ANone (arg_or data sel) one
      end
  end.
Definition off_text (elems : list nat) (types : string) (sel fn : arg) s : Registry :=
  let '(sel, fn) := match sel with AFalse | AFun _ => (ANone, sel) | _ => (sel, fn) end in
  let f := match fn with AFalse => Some 0 | AFun f => Some f | _ => None end in
  fold_left (λ s e, remove e types f (text_of sel) s) elems s.
Definition off (elems : list nat) (types : typesArg) (sel fn : arg) s : Registry :=
  match types with
  | TText t => off_text elems t sel fn s
  | TMap l => fold_left (λ s p, off_text elems (fst p) sel (snd p) s) l s
  end.
(** [off( event )] of the wrapper around a function: the handler that is running is taken
    away. *)
Definition off_event (h : HandleObj) (f delegateTarget : nat) s : Registry :=
  let types := if nonempty (namespace h) then (origType h ++ "." ++ namespace_text h)%string else origType h in
  remove delegateTarget types (Some f) (selector h) s.

(** ** The state of the events *)
Record St := mkSt {
  reg : Registry;
  triggered : option string;     (* jQuery.event.triggered *)
  store : list Event;            (* the event objects *)
  natives : list Native;         (* the native events *)
  arrays : nat;                  (* the identities of arrays that are used *)
  stoppers : list (nat * string);   (* the listeners that only stop an event *)
  log : list entry
}.
Definition on_reg (f : Registry → Registry) (x : St) : St :=
  mkSt (f (reg x)) (triggered x) (store x) (natives x) (arrays x) (stoppers x) (log x).
Definition set_triggered (t : option string) (x : St) : St :=
  mkSt (reg x) t (store x) (natives x) (arrays x) (stoppers x) (log x).
Definition set_store (f : list Event → list Event) (x : St) : St :=
  mkSt (reg x) (triggered x) (f (store x)) (natives x) (arrays x) (stoppers x) (log x).
Definition set_natives (f : list Native → list Native) (x : St) : St :=
  mkSt (reg x) (triggered x) (store x) (f (natives x)) (arrays x) (stoppers x) (log x).
Definition set_arrays (n : nat) (x : St) : St := mkSt (reg x) (triggered x) (store x) (natives x) n (stoppers x) (log x).
Definition set_stoppers (f : list (nat * string) → list (nat * string)) (x : St) : St :=
  mkSt (reg x) (triggered x) (store x) (natives x) (arrays x) (f (stoppers x)) (log x).
Definition emit (e : entry) (x : St) : St :=
  mkSt (reg x) (triggered x) (store x) (natives x) (arrays x) (stoppers x) (log x ++ [e]).
Definition in_reg {A} (m : M Registry A) : M St A :=
  λ x, let '(r, s) := m (reg x) in (r, on_reg (λ _, s) x).
Definition event_of (eid : nat) (x : St) : Event := default (new_event "") (store x !! eid).
Definition read (eid : nat) : M St Event := gets (event_of eid).
Definition on_event (eid : nat) (f : Event → Event) : M St unit := modify (set_store (alter f eid)).
Definition new_object (e : Event) : M St nat := λ x, (Ret (length (store x)), set_store (λ l, l ++ [e]) x).
Definition new_native : M St nat := λ x, (Ret (length (natives x)), set_natives (λ l, l ++ [mkNative false false false RUndef]) x).
Definition native_of (nid : nat) (x : St) : Native := default (mkNative false false false RUndef) (natives x !! nid).

(** ** [jQuery.Event.prototype] *)
(** The native event is told too, unless the event is simulated. *)
Definition tell_native (eid : nat) (f : Native → Native) : M St unit :=
  e ← read eid;
  match original e with
  | Some nid => when (negb (isSimulated e)) (modify (set_natives (alter f nid)))
  | None => mret tt
  end.
Definition preventDefault (eid : nat) : M St unit :=
  on_event eid (λ e, set_flags true (isPropagationStopped e) (isImmediatePropagationStopped e) e);;
  tell_native eid (λ n, mkNative true (n_stopped n) (n_immediate n) (returnValue n)).
Definition stopPropagation (eid : nat) : M St unit :=
  on_event eid (λ e, set_flags (isDefaultPrevented e) true (isImmediatePropagationStopped e) e);;
  tell_native eid (λ n, mkNative (n_prevented n) true (n_immediate n) (returnValue n)).
Definition stopImmediatePropagation (eid : nat) : M St unit :=
  on_event eid (λ e, set_flags (isDefaultPrevented e) true true e);;
  tell_native eid (λ n, mkNative (n_prevented n) true true (returnValue n)).
(** The event extended with the prototype: nothing is stopped or prevented any more. *)
Definition reset_event (e : Event) : Event := set_simulated false (set_flags false false false e).
(** [jQuery.event.fix] of a native event; the target is no text node. *)
Definition parent_of (e : nat) : option nat := head (parents e).
Definition fix_event (nid : nat) (n : Native) (f : Fired) : Event :=
  mkEvent (f_type f) (if isText (f_target f) then parent_of (f_target f) else Some (f_target f)) (Some nid) false (f_button f) (f_related f) 0
    (n_prevented n) false false None None None None None RUndef.

(** ** [jQuery.event.handlers] *)
(** The elements from the target up to, without, the one that handles. *)
Fixpoint path_to (this : nat) (path : list nat) : list nat :=
  match path with
  | [] => []
  | cur :: path' => if Nat.eqb cur this then [] else cur :: path_to this path'
  end.
Definition delegates_at (this : nat) (ev : Event) (q : Queue) (cur : nat) : list (nat * list HandleObj) :=
  if isElement cur && negb (String.eqb (e_type ev) "click" && disabled cur) then
    match List.filter (λ h, match selector h with Some t => find t this cur | None => false end)
            (take (delegateCount q) (handlers q)) with
    | [] => []
    | l => [(cur, l)]
    end
  else [].
Definition handler_queue (this : nat) (ev : Event) (q : Queue) : list (nat * list HandleObj) :=
  let secondary := String.eqb (e_type ev) "click" && (match button ev with Some b => Z.leb 1 b | None => false end) in
  (if negb (delegateCount q =? 0) && negb secondary then
     match target ev with
     | Some t => flat_map (delegates_at this ev q) (path_to this (t :: parents t))
     | None => []
     end
   else [])
  ++ (if delegateCount q <? length (handlers q) then [(this, drop (delegateCount q) (handlers q))] else []).

(** ** Triggers *)
Inductive trigArg := TrigType (type : string) | TrigObject (eid : nat).
(** What runs one level deeper: methods of elements and triggers. *)
Record Calls := mkCalls { level : nat; sub_method : nat → string → M St unit; sub_trigger : trigArg → nat → bool → M St ret }.
(** The type and the namespaces of a text, or of an object with them. *)
Definition trig_parts (type : string) (ns : option string) : string * list string :=
  if existsb (Ascii.eqb ".") (list_ascii_of_string type) then
    (type_part type, sort_texts (split_on "." (after_dot type)))
  else (type, match ns with Some ns => split_on "." ns | None => [] end).
(** [rfocusMorph] *)
Definition rfocusMorph (t : string) : bool := String.eqb t "focusinfocus" || String.eqb t "focusoutblur".

Section Level.
Context (calls : Calls).

(** ** The functions of the user *)
Definition act (eid : nat) (a : action) : M St ret :=
  match a with
  | AStop => stopPropagation eid;; mret RUndef
  | AStopImmediate => stopImmediatePropagation eid;; mret RUndef
  | APrevent => preventDefault eid;; mret RUndef
  | AOn e types sel data fn one => in_reg (on [e] types sel data fn one);; mret RUndef
  | AOff e types sel fn => modify (on_reg (off [e] types sel fn));; mret RUndef
  | ATrigger (SType t) e only => sub_trigger calls (TrigType t) e only
  | ATrigger (SNew ev) e only => i ← new_object ev; sub_trigger calls (TrigObject i) e only
  | ATrigger SThis e only => sub_trigger calls (TrigObject eid) e only
  | AMethod e type => sub_method calls e type;; mret RUndef
  end.
Fixpoint run_program (eid : nat) (p : program) : M St ret :=
  match p with
  | Done r => lift r
  | Do a next => o ← attempt (act eid a); run_program eid (next o)
  end.
(** A call of a function; [returnFalse] and [returnTrue] do nothing. *)
Definition call_user (f this eid : nat) : M St ret :=
  if f =? 0 then mret RFalse else
  if f =? 1 then mret (ROther "true") else
  x ← gets id;
  modify (emit (LCall (level calls) f this (e_type (event_of eid x))));;
  run_program eid (user (log x) f this (event_of eid x)).

(** ** The handler of [leverageNative] *)
Definition expectSync (elem : nat) (type : string) (x : St) : bool :=
  String.eqb type "click" ||
  Bool.eqb (bool_decide (activeElement (log x) = Some elem)) (String.eqb type "focus").
Definition saved_at (elem : nat) (type : string) (x : St) : option Saved := leveraged (reg x) !! (elem, type).
Definition save (elem : nat) (type : string) (v : Saved) : M St unit := modify (on_reg (set_leveraged elem type v)).
(** An outer synthetic event: its arguments are stored and the native method is called; when
    the inner event took them, its result is that of the outer one. *)
Definition leverage_outer (type : string) (this eid : nat) : M St ret :=
  k ← gets arrays;
  modify (set_arrays (S k));;
  save this type (SArgs k eid);;
  notAsync ← gets (expectSync this type);
  sub_method calls this type;;
  r ← gets (saved_at this type);
  let same := match r with Some (SArgs k' _) => k' =? k | _ => false end in
  when (negb same || notAsync) (save this type SFalse);;
  if same && notAsync then mret RUndef
  else
    (stopImmediatePropagation eid;;
     preventDefault eid;;
     if same then mret RUndef else
     match r with
     | Some (SValue v) => mret v
     | Some _ => mret RUndef
     | None => raise (JsError "TypeError")
     end).
Definition controller (type : string) (this eid : nat) : M St ret :=
  e ← read eid;
  saved ← gets (saved_at this type);
  match saved with
  | None => raise (JsError "TypeError")
  | Some saved =>
      if Z.odd (isTrigger e) && method this type then
        match saved with
        | SArgs _ _ => when (nonempty (delegateType type)) (stopPropagation eid);; mret RUndef
        | _ => leverage_outer type this eid
        end
      else
        match saved with
        | SArgs _ outer =>
            on_event outer reset_event;;
            v ← sub_trigger calls (TrigObject outer) this false;
            save this type (SValue v);;
            stopImmediatePropagation eid;;
            mret RUndef
        | _ => mret RUndef
        end
  end.

(** ** [jQuery.event.dispatch] *)
Definition call_handler (h : HandleObj) (this eid : nat) : M St ret :=
  match handler h with
  | Controller type => controller type this eid
  | UserFn f once =>
      e ← read eid;
      when once
        (match handleObj e, delegateTarget e with
         | Some h', Some t => modify (on_reg (off_event h' f t))
         | _, _ => mret tt
         end);;
      call_user f this eid
  end.
(** The handlers of mouseenter and the like are only called when the pointer comes from
    outside. *)
Definition run_handler (h : HandleObj) (this eid : nat) : M St ret :=
  match hover_type (origType h) with
  | None => call_handler h this eid
  | Some fix_ =>
      e ← read eid;
      let outside := match relatedTarget e with
                     | None => true
                     | Some r => negb (Nat.eqb r this) && negb (contains this r)
                     end in
      if outside then
        on_event eid (set_type (origType h));; r ← call_handler h this eid; on_event eid (set_type fix_);; mret r
      else mret RUndef
  end.
Definition note_result (r : ret) (eid : nat) : M St unit :=
  match r with
  | RUndef => mret tt
  | RFalse => on_event eid (set_result RFalse);; preventDefault eid;; stopPropagation eid
  | _ => on_event eid (set_result r)
  end.
(** A handler whose namespace is false runs for all namespaces. *)
Definition in_namespace (e : Event) (h : HandleObj) : bool :=
  match rnamespace e, namespace h with
  | Some ns, Some t => rnamespace_test ns t
  | _, _ => true
  end.
Fixpoint run_handlers (this eid : nat) (l : list HandleObj) : M St unit :=
  match l with
  | [] => mret tt
  | h :: l' =>
      e ← read eid;
      if isImmediatePropagationStopped e then mret tt else
      when (in_namespace e h)
        (on_event eid (set_handler h);; r ← run_handler h this eid; note_result r eid);;
      run_handlers this eid l'
  end.
Fixpoint run_queue (eid : nat) (l : list (nat * list HandleObj)) : M St unit :=
  match l with
  | [] => mret tt
  | (elem, hs) :: l' =>
      e ← read eid;
      if isPropagationStopped e then mret tt else
      on_event eid (set_current elem);; run_handlers elem eid hs;; run_queue eid l'
  end.
(** The hook of beforeunload. *)
Definition postDispatch (eid : nat) (type : string) : M St unit :=
  e ← read eid;
  match original e with
  | Some nid =>
      when (String.eqb type "beforeunload" && negb (bool_decide (result e = RUndef)))
        (modify (set_natives (alter (λ n, mkNative (n_prevented n) (n_stopped n) (n_immediate n) (result e)) nid)))
  | None => mret tt
  end.
Definition dispatch (this eid : nat) : M St ret :=
  e ← read eid;
  q ← gets (λ x, queue_at this (e_type e) (reg x));
  on_event eid (set_delegate this);;
  run_queue eid (handler_queue this e q);;
  postDispatch eid (e_type e);;
  e ← read eid;
  mret (result e).
(** The listener of an element. *)
Definition handle (this eid : nat) : M St ret :=
  x ← gets id;
  if bool_decide (triggered x = Some (e_type (event_of eid x))) then mret RUndef else dispatch this eid.

(** ** [jQuery.event.trigger] *)
Definition no_bubble (type : string) : bool := String.eqb type "load".
Definition event_path (elem : nat) (type : string) (onlyHandlers : bool) : list nat :=
  let bubbleType := default type (delegateType type) in
  elem ::
  (if negb onlyHandlers && negb (no_bubble type) && negb (isWindow elem) then
     let ups := if rfocusMorph (bubbleType ++ type) then elem :: parents elem else parents elem in
     let doc := default document (ownerDocument elem) in
     ups ++ (if Nat.eqb (List.last ups elem) doc then [defaultView doc] else [])
   else []).
Definition has_on (type : string) : bool := match indexOf type ":" 0 with None => true | Some _ => false end.
(** The last element of the path where handlers were called. *)
Fixpoint fire_path (eid : nat) (type bubbleType : string) (first : bool) (last : nat) (path : list nat) : M St nat :=
  match path with
  | [] => mret last
  | cur :: path' =>
      e ← read eid;
      if isPropagationStopped e then mret last else
      let t := if first then default type (bindType type) else bubbleType in
      on_event eid (set_type t);;
      x ← gets id;
      when (match assoc t (events_at cur (reg x)) with Some _ => true | None => false end)
        (handle cur eid;; mret tt);;
      when (has_on type && inline cur type && accepts cur)
        (x ← gets id;
         modify (emit (LInline (level calls) cur type));;
         r ← run_program eid (user (log x) 0 cur (event_of eid x));
         on_event eid (set_result r);;
         when (bool_decide (r = RFalse)) (preventDefault eid));;
      fire_path eid type bubbleType false cur path'
  end.
(** The event that is triggered: a new one, or the one that was given. *)
Definition trig_object (type : string) (ns : list string) (a : trigArg) : M St nat :=
  match a with
  | TrigType _ => new_object (set_namespace (join_dots ns) (new_event type))
  | TrigObject eid => on_event eid (set_namespace (join_dots ns));; mret eid
  end.
(** The event is cleaned up, and gets a target. *)
Definition prepare (elem : nat) (onlyHandlers : bool) (e : Event) : Event :=
  let e := set_result RUndef (set_trigger (if onlyHandlers then 2 else 3) e) in
  match target e with Some _ => e | None => set_target elem e end.
(** The trigger hook of focus, blur and click: the controller is set up with a handler. *)
Definition special_trigger (elem : nat) (type : string) : M St unit :=
  saved ← gets (saved_at elem type);
  when (leverages elem type && match saved with None => true | Some _ => false end)
    (in_reg (add elem type 1 false None None)).

(** ** Native events *)
(** The browser calls the listener of an element; it reports an exception and goes on. *)
Definition deliver (f : Fired) (nid cur : nat) : M St unit :=
  x ← gets id;
  when (bool_decide ((cur, f_type f) ∈ listeners (reg x)))
    (eid ← new_object (fix_event nid (native_of nid x) f); attempt (handle cur eid);; mret tt).
Fixpoint deliver_all (f : Fired) (nid : nat) (path : list nat) : M St unit :=
  match path with
  | [] => mret tt
  | cur :: path' =>
      n ← gets (native_of nid);
      if n_stopped n then mret tt else
      deliver f nid cur;;
      x ← gets id;
      when (bool_decide ((cur, f_type f) ∈ stoppers x))
        (modify (set_natives (alter (λ n, mkNative (n_prevented n) true (n_immediate n) (returnValue n)) nid)));;
      deliver_all f nid path'
  end.
(** The capturing listener of the document: [jQuery.event.simulate]. *)
Definition simulate (fix_ : string) (f : Fired) (nid : nat) : M St unit :=
  x ← gets id;
  eid ← new_object (set_simulated true (set_type fix_ (fix_event nid (native_of nid x) f)));
  attempt (sub_trigger calls (TrigObject eid) (f_target f) false);; mret tt.
Definition capture_native (f : Fired) (nid : nat) : M St unit :=
  x ← gets id;
  when (negb (isWindow (f_target f)) && bool_decide ((doc_of (f_target f), f_type f) ∈ captures (reg x)))
    (simulate (if String.eqb (f_type f) "focus" then "focusin" else "focusout") f nid).
Definition fire_native (f : Fired) : M St unit := nid ← new_native; capture_native f nid;; deliver_all f nid (f_path f).
Fixpoint fire_all (l : list Fired) : M St unit :=
  match l with [] => mret tt | f :: l' => fire_native f;; fire_all l' end.
(** A method of an element, as [focus] or [click], with the events that it fires. *)
Definition call_method (elem : nat) (type : string) : M St unit :=
  x ← gets id;
  modify (emit (LNative (level calls) elem type));;
  let '(l, r) := fires (log x) elem type in
  fire_all l;; lift r.

(** ** [trigger] *)
(** The default hook of click: links, and inputs whose native click is under way. *)
Definition click_default (eid : nat) (x : St) : bool :=
  match target (event_of eid x) with
  | Some t => checkable t && match saved_at t "click" x with Some (SArgs _ _ | SValue _) => true | _ => false end || isLink t
  | None => false
  end.
(** The default action: the method of the element, while the native event that it fires
    is not handled again; if the event was stopped, the native one goes no further either. *)
Definition default_action (eid : nat) (type : string) (elem last : nat) : M St unit :=
  x ← gets id;
  when (negb (String.eqb type "click" && click_default eid x) && accepts elem
        && has_on type && method elem type && negb (isWindow elem))
    (modify (set_triggered (Some type));;
     e ← read eid;
     when (isPropagationStopped e)
       (modify (set_stoppers (λ l, if bool_decide ((last, type) ∈ l) then l else l ++ [(last, type)])));;
     call_method elem type;;
     e ← read eid;
     when (isPropagationStopped e) (modify (set_stoppers (List.filter (λ p, negb (bool_decide (p = (last, type)))))));;
     modify (set_triggered None)).
Definition trigger (a : trigArg) (elem : nat) (onlyHandlers : bool) : M St ret :=
  x ← gets id;
  let '(text, own) := match a with
                      | TrigType t => (t, None)
                      | TrigObject eid => (e_type (event_of eid x), e_namespace (event_of eid x))
                      end in
  if isText elem || rfocusMorph (text ++ default "undefined" (triggered x))%string then mret RUndef else
  let '(type, ns) := trig_parts text own in
  eid ← trig_object type ns a;
  on_event eid (prepare elem onlyHandlers);;
  when (negb onlyHandlers) (special_trigger elem type);;
  last ← fire_path eid type (default type (delegateType type)) true elem (event_path elem type onlyHandlers);
  on_event eid (set_type type);;
  e ← read eid;
  when (negb onlyHandlers && negb (isDefaultPrevented e)) (default_action eid type elem last);;
  e ← read eid;
  mret (result e).
End Level.

(** The levels of a stack of [d] calls; on the last one there is no room for more. *)
Fixpoint levels (d : nat) : Calls :=
  match d with
  | 0 => mkCalls 0 (λ _ _, raise (JsError "RangeError")) (λ _ _ _, raise (JsError "RangeError"))
  | S d => mkCalls (S d) (call_method (levels d)) (trigger (levels d))
  end.
End Events.
