(* ===== verification/JqEventProps.v ===== *)
(** * Facts of jQuery events

    The handlers of every element stay well formed whatever is attached, detached,
    dispatched or triggered, a dispatch calls the handlers in their order, and [off] undoes
    [on]. *)
From Stdlib Require Import ZArith Lia Ascii String Sorted.
From stdpp Require Import base strings list gmap relations.
From S2P Require Import Prelude.
From S2P Require Import JsString.
From S2P Require Import JqEvent.

(** ** Namespaces *)
Lemma split_on_all_lack c s : Forall (λ w, lacks c w = true) (split_on c s).
Proof.
  induction s as [|a s IH]; cbn [split_on]; [by repeat constructor|]. destruct (Ascii.eqb a c) eqn:E.
  - by constructor.
  - destruct (split_on c s) as [|w l]; [by constructor; [unfold lacks; simpl; rewrite E|]|].
    apply Forall_cons in IH as [Hw Hl]. constructor; [|done]. unfold lacks in *. simpl. by rewrite E, Hw.
Qed.
Lemma insert_text_perm x l : Permutation (insert_text x l) (x :: l).
Proof. induction l as [|y l IH]; simpl; [done|]. destruct (String.leb x y); [done|]. rewrite IH. constructor. Qed.
Lemma sort_texts_perm l : Permutation (sort_texts l) l.
Proof. induction l as [|x l IH]; simpl; [done|]. by rewrite insert_text_perm, IH. Qed.
Lemma sort_texts_split tok : split_on "." (join_dots (sort_texts (split_on "." tok))) = sort_texts (split_on "." tok).
Proof.
  unfold join_dots. set (l := split_on "." tok).
  assert (Hl : Forall (λ w, lacks "." w = true) (sort_texts l)) by (rewrite sort_texts_perm; apply split_on_all_lack).
  change "."%string with (String "." ""). apply split_on_join; [|done].
  destruct (split_on_cons "." tok) as (w & l' & E). fold l in E. intros En.
  assert (Hp : Permutation [] l) by (by rewrite <- En, sort_texts_perm). apply Permutation_nil in Hp. by rewrite E in Hp.
Qed.
Lemma subseq_refl l : subseq l l = true.
Proof. induction l as [|x l IH]; simpl; [done|]. by rewrite String.eqb_refl. Qed.
Lemma rnamespace_own tok : rnamespace_test (namespaces_of tok) (join_dots (namespaces_of tok)) = true.
Proof. unfold rnamespace_test, namespaces_of. rewrite sort_texts_split. apply subseq_refl. Qed.
(** Sorted texts. *)
Abbreviation text_le := (λ x y : string, String.leb x y = true) (only parsing).
Abbreviation sorted := (StronglySorted text_le) (only parsing).
Lemma text_le_total x y : String.leb x y = false → String.leb y x = true.
Proof. intros H. destruct (String.leb_total x y); congruence. Qed.
Lemma text_le_trans x y z : String.leb x y = true → String.leb y z = true → String.leb x z = true.
Proof.
  revert y z. induction x as [|a x IH]; intros [|b y] [|c z]; unfold String.leb in *; simpl; try done.
  unfold Ascii.compare.
  destruct (N.compare_spec (N_of_ascii a) (N_of_ascii b)), (N.compare_spec (N_of_ascii b) (N_of_ascii c)),
    (N.compare_spec (N_of_ascii a) (N_of_ascii c)); try done; try lia. apply IH.
Qed.
Lemma sort_texts_sorted l : sorted (sort_texts l).
Proof.
  assert (Hins : ∀ x l, sorted l → sorted (insert_text x l)).
  { intros x l' Hl. induction Hl as [|y l' Hl IH Hy]; simpl; [by repeat constructor|].
    destruct (String.leb x y) eqn:E.
    - constructor; [by constructor|]. constructor; [done|]. eapply Forall_impl; [exact Hy|].
      intros z. by apply text_le_trans.
    - constructor; [done|]. rewrite insert_text_perm. constructor; [by apply text_le_total|done]. }
  induction l as [|x l IH]; simpl; [constructor|by apply Hins].
Qed.
(** Sorted texts occur in sorted texts in their order when they are among them. *)
Lemma subseq_subset ns parts : sorted ns → NoDup ns → sorted parts → subseq ns parts = bool_decide (ns ⊆ parts).
Proof.
  intros Hns Hnd Hp. apply eq_bool_prop_intro. rewrite bool_decide_spec, Is_true_true.
  revert ns Hns Hnd. induction Hp as [|p parts Hp IH Hall]; intros ns Hns Hnd.
  - destruct ns as [|n ns]; simpl; [by split|]. split; [done|]. intros H. specialize (H n (list_elem_of_here _ _)). by apply elem_of_nil in H.
  - destruct ns as [|n ns]; simpl; [split; [intros _ x Hx; by apply elem_of_nil in Hx|done]|].
    apply StronglySorted_inv in Hns as Hns'. destruct Hns' as [Hns' Hle]. apply NoDup_cons in Hnd as Hnd'. destruct Hnd' as [Hn Hnd'].
    destruct (String.eqb_spec n p) as [->|Hne].
    + rewrite IH by done. split; intros H x Hx.
      * apply elem_of_cons in Hx as [->|Hx]; [left|right; by apply H].
      * assert (Hx' : x ∈ p :: parts) by (apply H; by right). apply elem_of_cons in Hx' as [->|?]; [done|done].
    + rewrite IH by done. split; intros H x Hx; [right; by apply H|].
      specialize (H x Hx) as Hx'. apply elem_of_cons in Hx' as [->|?]; [|done]. exfalso.
      assert (Hnp : n ∈ parts) by (specialize (H n (list_elem_of_here _ _)); by apply elem_of_cons in H as [?|?]).
      apply elem_of_cons in Hx as [?|Hx]; [done|]. rewrite Forall_forall in Hle, Hall. apply Hne.
      apply String.leb_antisym; [by apply Hle|by apply Hall].
Qed.

(** ** Well-formed handlers *)
Section Registry.
Context {P : Browser}.
Implicit Types (s : Registry) (q : Queue) (h : HandleObj).
Definition delegated h : bool := nonempty (selector h).
(** What the parts of a handler of a type are. *)
Record handler_wf (elem : nat) (type : string) (h : HandleObj) : Prop := {
  h_type : ho_type h = type;
  h_mapped : mapped_type (selector h) (origType h) = type;
  h_orig : lacks "." (origType h) = true;
  h_kind : match handler h with
           | UserFn _ _ => ∃ ns, namespace h = Some ns ∧ sorted (split_on "." ns)
           | Controller t => t = type ∧ origType h = type ∧ namespace h = None ∧ selector h = None ∧ leverages elem type = true
           end
}.
(** The delegated handlers of a type are counted and come first. *)
Record queue_ok (elem : nat) (type : string) (q : Queue) : Prop := {
  q_split : ∃ ds fs, handlers q = ds ++ fs ∧ delegateCount q = length ds ∧
    Forall (λ h, delegated h = true) ds ∧ Forall (λ h, delegated h = false) fs;
  q_nonempty : handlers q ≠ [];
  q_types : Forall (handler_wf elem type) (handlers q)
}.
Definition evs_ok (elem : nat) (evs : Events) : Prop := NoDup (map fst evs) ∧ ∀ type q, (type, q) ∈ evs → queue_ok elem type q.
(** A function of the user has the number of its guid, and a controller one of its own. *)
Definition guid_ok s (h : HandleObj) : Prop :=
  match handler h with
  | UserFn f _ => guids s !! f = Some (ho_guid h)
  | Controller _ => ho_guid h < guid s ∧ ∀ f, guids s !! f ≠ Some (ho_guid h)
  end.
Definition has_type (elem : nat) (type : string) s : Prop := is_Some (assoc type (events_at elem s)).
#[export] Instance has_type_dec elem type s : Decision (has_type elem type s).
Proof. unfold has_type. apply _. Defined.
(** The elements of a document that have handlers for a type. *)
Definition users (doc : nat) (type : string) s : gset nat :=
  filter (λ e, doc_of e = doc ∧ has_type e type s) (dom (events s)).
Record captures_ok s : Prop := {
  c_positive : ∀ k n, attaches s !! k = Some n → 0 < n;
  c_nodup : NoDup (captures s);
  c_listens : ∀ doc type, captured type = true → (doc, orig_type type) ∈ captures s ↔ is_Some (attaches s !! (doc, type));
  c_counts : ∀ doc type, captured type = true → size (users doc type s) ≤ default 0 (attaches s !! (doc, type))
}.
Record reg_ok s : Prop := {
  ok_events : ∀ elem, evs_ok elem (events_at elem s);
  ok_listeners : ∀ elem type, (elem, type) ∈ listeners s ↔ captured type = false ∧ has_type elem type s;
  ok_nodup : NoDup (listeners s);
  ok_captures : captures_ok s;
  ok_leveraged : ∀ elem type, leverages elem type = true → has_type elem type s → is_Some (leveraged s !! (elem, type));
  ok_guids : ∀ f g, guids s !! f = Some g → g < guid s;
  ok_inj : ∀ f f' g, guids s !! f = Some g → guids s !! f' = Some g → f = f';
  ok_handlers : ∀ elem type q h, (type, q) ∈ events_at elem s → h ∈ handlers q → guid_ok s h
}.

(** ** Association lists of queues *)
Lemma assoc_in_events type q (evs : Events) : assoc type evs = Some q → (type, q) ∈ evs.
Proof. apply assoc_elem. Qed.
Lemma evs_ok_set elem type q evs : evs_ok elem evs → queue_ok elem type q → evs_ok elem (assoc_set type q evs).
Proof.
  intros [Hnd Hq] Ht. split.
  - rewrite map_fst_assoc_set. destruct (assoc type evs) as [q0|] eqn:E; [by rewrite app_nil_r|].
    apply NoDup_app. split_and!; [done| |apply NoDup_singleton]. intros t Hin ->%list_elem_of_singleton.
    apply list_elem_of_fmap in Hin as ([t' q'] & Et & Hin). simpl in Et. subst t'.
    apply assoc_in in Hin. rewrite E in Hin. by destruct Hin.
  - intros t q' [[= -> ->]|Hin]%assoc_set_elem; [done|by apply Hq].
Qed.
Lemma delete_type_elem type evs p : p ∈ delete_type type evs ↔ p ∈ evs ∧ fst p ≠ type.
Proof.
  unfold delete_type. rewrite filter_elem. split; intros [H1 H2]; (split; [done|]).
  - by apply negb_true_iff, String.eqb_neq in H2.
  - by apply negb_true_iff, String.eqb_neq.
Qed.
Lemma map_fst_delete type (evs : Events) :
  map fst (delete_type type evs) = List.filter (λ t, negb (String.eqb t type)) (map fst evs).
Proof. unfold delete_type. induction evs as [|p evs IH]; [done|]. simpl. destruct (String.eqb (fst p) type); simpl; by rewrite IH. Qed.
Lemma evs_ok_delete elem type evs : evs_ok elem evs → evs_ok elem (delete_type type evs).
Proof.
  intros [Hnd Hq]. split; [rewrite map_fst_delete; by apply NoDup_list_filter|].
  intros t q [Hin _]%delete_type_elem. by apply Hq.
Qed.
Lemma assoc_delete type type' (evs : Events) :
  assoc type' (delete_type type evs) = if String.eqb type' type then None else assoc type' evs.
Proof.
  unfold delete_type. induction evs as [|[t q] evs IH]; simpl; [by destruct (String.eqb _ _)|].
  destruct (String.eqb t type) eqn:E; simpl; rewrite IH.
  - apply String.eqb_eq in E as ->. by destruct (String.eqb type' type).
  - destruct (String.eqb type' t) eqn:E'; [|done]. apply String.eqb_eq in E' as ->. by rewrite E.
Qed.
(** Queues stay ordered. *)
Lemma enqueue_ok elem sel h q type :
  q = empty_queue ∨ queue_ok elem type q → selector h = sel → handler_wf elem type h → queue_ok elem type (enqueue sel h q).
Proof.
  intros Hq <- Ht. set (sel := selector h). unfold enqueue.
  assert (Hsplit : ∃ ds fs, handlers q = ds ++ fs ∧ delegateCount q = length ds ∧
    Forall (λ h, delegated h = true) ds ∧ Forall (λ h, delegated h = false) fs ∧ Forall (handler_wf elem type) (ds ++ fs)).
  { destruct Hq as [->|[(ds & fs & E & H1 & H2 & H3) _ H4]]; [by exists [], []|].
    exists ds, fs. by rewrite <- E. }
  destruct Hsplit as (ds & fs & E & Hc & Hds & Hfs & Hall). rewrite E, Hc.
  apply Forall_app in Hall as [Hall1 Hall2].
  assert (Hdel : delegated h = nonempty sel) by done.
  destruct (nonempty sel) eqn:Es; split; simpl.
  - rewrite take_app_length, drop_app_length. exists (ds ++ [h]), fs. split; [by rewrite <- app_assoc|].
    split; [rewrite length_app; simpl; lia|]. split; [|done]. apply Forall_app. split; [done|by constructor].
  - rewrite take_app_length. by destruct ds.
  - rewrite take_app_length, drop_app_length. apply Forall_app. split; [done|]. by constructor.
  - exists ds, (fs ++ [h]). split; [by rewrite app_assoc|]. split; [done|]. split; [done|].
    apply Forall_app. split; [done|by constructor].
  - by destruct (ds ++ fs).
  - apply Forall_app. split; [by apply Forall_app|by constructor].
Qed.
Lemma filter_forall {A} (p : A → bool) (Q : A → Prop) l : Forall Q l → Forall Q (List.filter p l).
Proof. rewrite !Forall_forall. intros H x [Hx _]%filter_elem. by apply H. Qed.
Lemma filter_split_length {A} (p : A → bool) l :
  length (List.filter (λ x, negb (p x)) l) = length l - length (List.filter p l).
Proof. pose proof (List.filter_length p l). lia. Qed.
Lemma removed_ok p q elem type :
  queue_ok elem type q → handlers (removed p q) ≠ [] → queue_ok elem type (removed p q).
Proof.
  intros [(ds & fs & E & Hc & Hds & Hfs) Hne Ht] Hr. split; [|done|by apply filter_forall].
  simpl. rewrite E, Hc, !List.filter_app.
  exists (List.filter (λ h, negb (p h)) ds), (List.filter (λ h, negb (p h)) fs). split; [done|].
  split; [|split; by apply filter_forall]. rewrite filter_split_length, length_app.
  assert (E1 : List.filter (λ h, p h && nonempty (selector h)) ds = List.filter p ds).
  { clear E Hc. induction Hds as [|h ds Hh _ IH]; [done|]. simpl. unfold delegated in Hh.
    rewrite Hh, andb_true_r. by rewrite IH. }
  assert (E2 : List.filter (λ h, p h && nonempty (selector h)) fs = []).
  { clear E. induction Hfs as [|h fs Hh _ IH]; [done|]. simpl. unfold delegated in Hh. by rewrite Hh, andb_false_r. }
  rewrite E1, E2. simpl. lia.
Qed.
Lemma enqueue_elem sel h q h' : h' ∈ handlers (enqueue sel h q) → h' = h ∨ h' ∈ handlers q.
Proof.
  unfold enqueue. destruct (nonempty sel); simpl.
  - rewrite <- (take_drop (delegateCount q) (handlers q)) at 3. rewrite !elem_of_app, elem_of_cons. tauto.
  - rewrite elem_of_app, list_elem_of_singleton. tauto.
Qed.

(** ** Changes of the state *)
Lemma events_at_insert elem e evs s :
  events_at e (set_events (λ m, <[elem := evs]> m) s) = if decide (e = elem) then evs else events_at e s.
Proof.
  unfold events_at. simpl. case_decide as E; [subst; by rewrite lookup_insert_eq|by rewrite lookup_insert_ne].
Qed.
Lemma events_at_put elem e type q s :
  events_at e (put_queue elem type q s)
  = if decide (e = elem) then assoc_set type q (events_at elem s) else events_at e s.
Proof. apply events_at_insert. Qed.
Lemma elem_of_users doc type s e : e ∈ users doc type s ↔ doc_of e = doc ∧ has_type e type s.
Proof.
  unfold users. rewrite elem_of_filter, elem_of_dom. split; [by intros [? _]|]. intros [Hd Hh]. split; [done|].
  unfold has_type, events_at in Hh. destruct (events s !! e); [by eexists|by destruct Hh].
Qed.
(** The same handlers in another map, with what the browser is told. *)
Lemma users_ext s s' : (∀ e type, has_type e type s' ↔ has_type e type s) → ∀ doc type, users doc type s' = users doc type s.
Proof. intros H doc type. apply set_eq. intros e. by rewrite !elem_of_users, H. Qed.
Lemma captures_ok_ext s s' :
  (∀ e type, has_type e type s' ↔ has_type e type s) → attaches s' = attaches s → captures s' = captures s →
  captures_ok s → captures_ok s'.
Proof.
  intros Hh Ha Hc [H1 H2 H3 H4]. split; rewrite ?Ha, ?Hc; try done. intros doc type Ht. rewrite (users_ext s s'); [|done]. by apply H4.
Qed.
Lemma guid_ok_mono s s' h :
  (∀ f g, guids s !! f = Some g → guids s' !! f = Some g) → guid s ≤ guid s' →
  (∀ f g, guids s' !! f = Some g → guids s !! f = Some g ∨ guid s ≤ g) → guid_ok s h → guid_ok s' h.
Proof.
  unfold guid_ok. intros Hg Hle Hnew. destruct (handler h) as [f o|t]; [apply Hg|]. intros [Hlt Hf]. split; [lia|].
  intros f [Hf'|?]%Hnew; [by apply (Hf f)|lia].
Qed.
Lemma reg_ok_ext s s' :
  (∀ e, events_at e s' = events_at e s) → listeners s' = listeners s → attaches s' = attaches s → captures s' = captures s →
  guids s' = guids s → guid s' = guid s → (∀ k, is_Some (leveraged s !! k) → is_Some (leveraged s' !! k)) →
  reg_ok s → reg_ok s'.
Proof.
  intros E1 E2 E3 E4 E5 E6 E7 [H1 H2 H3 H4 H5 H6 H7 H8].
  assert (Hh : ∀ e t, has_type e t s' ↔ has_type e t s) by (intros e t; unfold has_type; by rewrite E1).
  split; rewrite ?E2, ?E5, ?E6; try done.
  - intros e. by rewrite E1.
  - intros e t. rewrite H2. by rewrite Hh.
  - by eapply captures_ok_ext.
  - intros e t Hl Ht%Hh. by apply E7, H5.
  - intros e t q h. rewrite E1. unfold guid_ok. rewrite E5, E6. by apply H8.
Qed.
Lemma ensure_guid_ok f s :
  reg_ok s →
  let '(g, s') := ensure_guid f s in
  reg_ok s' ∧ guids s' !! f = Some g ∧ (∀ e, events_at e s' = events_at e s) ∧ listeners s' = listeners s.
Proof.
  intros H. unfold ensure_guid. destruct (guids s !! f) as [g|] eqn:E; [done|].
  split; [|split; [apply lookup_insert_eq|done]]. destruct H as [H1 H2 H3 H4 H5 H6 H7 H8]. split; simpl; try done.
  - by apply (captures_ok_ext s).
  - intros f' g. destruct (decide (f = f')) as [->|Hne]; [rewrite lookup_insert_eq; intros [= <-]; lia|].
    rewrite lookup_insert_ne by done. intros ?%H6. lia.
  - intros f1 f2 g. destruct (decide (f = f1)) as [<-|Hne1], (decide (f = f2)) as [<-|Hne2];
      rewrite ?lookup_insert_eq, ?lookup_insert_ne by done; try done.
    + intros [= <-] ?%H6. lia.
    + intros ?%H6 [= <-]. lia.
    + apply H7.
  - intros e t q h Hin Hh. specialize (H8 e t q h Hin Hh). eapply guid_ok_mono; [| | |exact H8]; simpl; [|lia|].
    + intros f' g Hf'. rewrite lookup_insert_ne; [done|]. intros ->. congruence.
    + intros f' g. destruct (decide (f = f')) as [->|]; [rewrite lookup_insert_eq; intros [= <-]; by right|].
      rewrite lookup_insert_ne by done. by left.
Qed.
(** A queue is put in the place of another. *)
Lemma put_queue_ok elem type q s :
  reg_ok s → has_type elem type s → queue_ok elem type q → (∀ h, h ∈ handlers q → guid_ok s h) → reg_ok (put_queue elem type q s).
Proof.
  intros [H1 H2 H3 H4 H5 H6 H7 H8] Hs Hq Hh.
  assert (Ht : ∀ e t, has_type e t (put_queue elem type q s) ↔ has_type e t s).
  { intros e t. unfold has_type. rewrite events_at_put. case_decide as E; [subst|done].
    destruct (String.eqb_spec t type) as [->|Hne]; [|by rewrite assoc_set_ne]. rewrite assoc_set_eq. split; [done|by eexists]. }
  split; try done.
  - intros e. rewrite events_at_put. case_decide as E; [subst; by apply evs_ok_set|done].
  - intros e t. rewrite Ht. apply H2.
  - by apply (captures_ok_ext s).
  - intros e t Hl Hht%Ht. by apply H5.
  - intros e t q' h. rewrite events_at_put. case_decide as E; [subst|by apply (H8 e t q')].
    intros [[= -> ->]|Hin]%assoc_set_elem; [by apply Hh|by apply (H8 elem t q')].
Qed.
(** *** A type gets its first handler *)
Definition first_controller (type : string) s : HandleObj := mkHandleObj type type None (Controller type) (guid s) None None.
Definition first_queue (elem : nat) (type : string) s : Queue :=
  if leverages elem type then enqueue None (first_controller type s) empty_queue else empty_queue.
Lemma leverages_not_captured elem type : leverages elem type = true → captured type = false.
Proof.
  unfold leverages, captured. intros [[->%String.eqb_eq| ->%String.eqb_eq]%orb_prop|[->%String.eqb_eq _]%andb_prop]%orb_prop;
    by destruct focusin.
Qed.
Lemma leverages_mapped elem type : leverages elem type = true → mapped_type None type = type ∧ lacks "." type = true.
Proof.
  unfold leverages. intros [[->%String.eqb_eq| ->%String.eqb_eq]%orb_prop|[->%String.eqb_eq _]%andb_prop]%orb_prop; done.
Qed.
Lemma queue_at_put elem type q s : queue_at elem type (put_queue elem type q s) = q.
Proof. unfold queue_at. by rewrite events_at_put, decide_True, assoc_set_eq. Qed.
Lemma attach_at elem h s e :
  events_at e (attach elem h s) =
    if decide (e = elem) then assoc_set (ho_type h) (enqueue (selector h) h (queue_at elem (ho_type h) s)) (events_at elem s)
    else events_at e s.
Proof. apply events_at_put. Qed.
Lemma attach_same elem h s :
  listeners (attach elem h s) = listeners s ∧ attaches (attach elem h s) = attaches s ∧ captures (attach elem h s) = captures s ∧
  guids (attach elem h s) = guids s ∧ guid (attach elem h s) = guid s ∧ leveraged (attach elem h s) = leveraged s.
Proof. done. Qed.
Lemma leverageNative_at elem type s e :
  events_at e (leverageNative elem type s) =
    if decide (e = elem) then assoc_set type (enqueue None (first_controller type s) (queue_at elem type s)) (events_at elem s)
    else events_at e s.
Proof. unfold leverageNative. by rewrite attach_at. Qed.
Lemma setup_capture_at elem type s e : events_at e (setup_capture elem type s) = events_at e s.
Proof. unfold setup_capture. by destruct (_ =? 0). Qed.
(** What a setup makes of the state, when the type had no handlers. *)
Record set_up (elem : nat) (type : string) s s' : Prop := {
  su_events e : events_at e s' = if decide (e = elem) then assoc_set type (first_queue elem type s) (events_at elem s) else events_at e s;
  su_listeners : listeners s' = listeners s ++ (if captured type then [] else [(elem, type)]);
  su_attaches : attaches s' = if captured type then attaches (setup_capture elem type s) else attaches s;
  su_captures : captures s' = if captured type then captures (setup_capture elem type s) else captures s;
  su_guids : guids s' = guids s;
  su_guid : guid s' = if leverages elem type then S (guid s) else guid s;
  su_leveraged : leveraged s' = if leverages elem type then <[(elem, type) := SFalse]> (leveraged s) else leveraged s
}.
Lemma setup_set_up elem type s : set_up elem type s (setup elem type s).
Proof.
  unfold setup. set (s1 := put_queue elem type empty_queue s).
  assert (H1 : ∀ e, events_at e s1 = if decide (e = elem) then assoc_set type empty_queue (events_at elem s) else events_at e s)
    by (intros e; apply events_at_put).
  destruct (captured type) eqn:Ec.
  - assert (El : leverages elem type = false).
    { destruct (leverages elem type) eqn:El; [|done]. apply leverages_not_captured in El. congruence. }
    split; rewrite ?El, ?Ec; unfold first_queue; rewrite ?El.
    1: intros e; by rewrite setup_capture_at.
    all: unfold setup_capture; cbn [attaches captures set_attaches set_captures]; change (attaches s1) with (attaches s);
      destruct (_ =? 0); simpl; by rewrite ?app_nil_r.
  - destruct (leverages elem type) eqn:El; split; rewrite ?El, ?Ec; unfold first_queue; rewrite ?El; try done.
    intros e. change (events_at e (add_listener elem type ?x)) with (events_at e x). rewrite leverageNative_at, !H1.
    case_decide; [|done]. rewrite decide_True by done. rewrite assoc_set_set. unfold s1. by rewrite queue_at_put.
Qed.
Lemma first_queue_ok elem type s : first_queue elem type s = empty_queue ∨ queue_ok elem type (first_queue elem type s).
Proof.
  unfold first_queue. destruct (leverages elem type) eqn:El; [right|by left]. apply leverages_mapped in El as Hm. destruct Hm as [Hm Hd].
  apply enqueue_ok; [by left|done|]. by split.
Qed.
Lemma has_type_set elem type (q : Queue) s s' e t :
  events_at e s' = (if decide (e = elem) then assoc_set type q (events_at elem s) else events_at e s) →
  has_type e t s' ↔ (e = elem ∧ t = type) ∨ has_type e t s.
Proof.
  unfold has_type. intros ->. case_decide as E; [subst|naive_solver]. destruct (String.eqb_spec t type) as [->|Hne].
  - rewrite assoc_set_eq. split; [by left|by eexists].
  - rewrite assoc_set_ne by done. naive_solver.
Qed.
Lemma orig_type_inj t t' : captured t = true → captured t' = true → orig_type t = orig_type t' → t = t'.
Proof.
  unfold captured, orig_type. intros [_ [->%String.eqb_eq| ->%String.eqb_eq]%orb_prop]%andb_prop
    [_ [->%String.eqb_eq| ->%String.eqb_eq]%orb_prop]%andb_prop; done.
Qed.
Lemma setup_capture_ok elem type s s' :
  captures_ok s → captured type = true →
  (∀ e t, has_type e t s' ↔ (e = elem ∧ t = type) ∨ has_type e t s) →
  attaches s' = attaches (setup_capture elem type s) → captures s' = captures (setup_capture elem type s) → captures_ok s'.
Proof.
  intros [H1 H2 H3 H4] Hc Hh. unfold setup_capture. set (doc := doc_of elem).
  set (n := default 0 (attaches s !! (doc, type))). intros Ha Hcap.
  assert (Ea : attaches s' = <[(doc, type) := S n]> (attaches s)) by (rewrite Ha; by destruct (n =? 0)). clear Ha.
  assert (En : n = 0 ↔ attaches s !! (doc, type) = None).
  { unfold n. destruct (attaches s !! (doc, type)) as [m|] eqn:E; simpl; [|done]. apply H1 in E. split; [lia|done]. }
  assert (Hin : ∀ d t, captured t = true → (d, orig_type t) ∈ captures s' ↔ (d = doc ∧ t = type) ∨ (d, orig_type t) ∈ captures s).
  { intros d t Ht. rewrite Hcap. destruct (Nat.eqb_spec n 0) as [E|E]; simpl.
    - rewrite elem_of_app, list_elem_of_singleton. split; [|naive_solver]. intros [?|[= -> ?%orig_type_inj]]; auto.
    - split; [by right|]. intros [[-> ->]|?]; [|done]. apply H3; [done|]. destruct (attaches s !! (doc, type)); [done|]. by destruct E; apply En. }
  split.
  - intros k m. rewrite Ea. destruct (decide (k = (doc, type))) as [->|]; [rewrite lookup_insert_eq; intros [= <-]; lia|].
    rewrite lookup_insert_ne by done. apply H1.
  - rewrite Hcap. destruct (Nat.eqb_spec n 0) as [E|E]; [|done]. simpl. apply NoDup_app. split_and!; [done| |apply NoDup_singleton].
    intros p Hp ->%list_elem_of_singleton. apply H3 in Hp as [m Hm]; [|done]. apply En in E. congruence.
  - intros d t Ht. rewrite Hin, Ea by done. destruct (decide ((d, t) = (doc, type))) as [[= -> ->]|Hne].
    + rewrite lookup_insert_eq. split; [by eexists|by left].
    + rewrite lookup_insert_ne by done. rewrite <- H3 by done. split; [|by right]. intros [[-> ->]|?]; done.
  - intros d t Ht. rewrite Ea.
    assert (Hsub : users d t s' ⊆ if decide ((d, t) = (doc, type)) then {[elem]} ∪ users d t s else users d t s).
    { intros e. rewrite elem_of_users, Hh. intros [Hd [[-> ->]|He]].
      - rewrite decide_True by (by subst d). set_solver.
      - case_decide; rewrite ?elem_of_union; [right|]; by apply elem_of_users. }
    apply subseteq_size in Hsub. etrans; [exact Hsub|]. case_decide as E.
    + injection E as -> ->. rewrite lookup_insert_eq. simpl. rewrite size_union_alt, size_singleton.
      specialize (H4 doc type Hc). unfold n. enough (size (users doc type s ∖ {[elem]}) ≤ size (users doc type s)) by lia.
      apply subseteq_size. set_solver.
    + rewrite lookup_insert_ne by done. by apply H4.
Qed.
Lemma new_type_ok elem type h s :
  reg_ok s → assoc type (events_at elem s) = None → handler_wf elem type h → guid_ok s h →
  reg_ok (attach elem h (setup elem type s)).
Proof.
  intros [H1 H2 H3 H4 H5 H6 H7 H8] Hnone Hwf Hg.
  destruct (setup_set_up elem type s) as [S1 S2 S3 S4 S5 S6 S7]. set (s1 := setup elem type s) in *.
  assert (Ht : ho_type h = type) by apply Hwf.
  set (q := enqueue (selector h) h (first_queue elem type s)).
  assert (Hq : queue_ok elem type q) by (apply enqueue_ok; [apply first_queue_ok|done..]).
  assert (Eq : queue_at elem type s1 = first_queue elem type s) by (unfold queue_at; by rewrite S1, decide_True, assoc_set_eq).
  assert (Eat : ∀ e, events_at e (attach elem h s1) = if decide (e = elem) then assoc_set type q (events_at elem s) else events_at e s).
  { intros e. rewrite attach_at, Ht, Eq, !S1. case_decide; [|done]. by rewrite decide_True, assoc_set_set. }
  assert (Hh : ∀ e t, has_type e t (attach elem h s1) ↔ (e = elem ∧ t = type) ∨ has_type e t s).
  { intros e t. by apply (has_type_set elem type q). }
  destruct (attach_same elem h s1) as (A1 & A2 & A3 & A4 & A5 & A6). set (s2 := attach elem h s1) in *. clearbody s2.
  rewrite ?S2 in A1. rewrite S3 in A2. rewrite S4 in A3. rewrite S5 in A4. rewrite S6 in A5. rewrite S7 in A6.
  assert (Hmono : ∀ h, guid_ok s h → guid_ok s2 h).
  { intros h'. apply guid_ok_mono; rewrite ?A4, ?A5; [done|destruct (leverages elem type); lia|by left]. }
  split.
  - intros e. rewrite Eat. case_decide as E; [subst; by apply evs_ok_set|done].
  - intros e t. rewrite A1, elem_of_app, H2, Hh.
    destruct (captured type) eqn:Ec; rewrite ?list_elem_of_singleton, ?elem_of_nil.
    + split; [intros [[? ?]|[]]; auto|]. intros [? [[-> ->]|?]]; [congruence|auto].
    + split; [intros [[? ?]|[= -> ->]]; auto|]. intros [? [[-> ->]|?]]; auto.
  - rewrite A1. destruct (captured type); [by rewrite app_nil_r|].
    apply NoDup_app. split_and!; [done| |apply NoDup_singleton]. intros p Hin ->%list_elem_of_singleton.
    apply H2 in Hin as [_ Hin]. unfold has_type in Hin. rewrite Hnone in Hin. by destruct Hin.
  - destruct (captured type) eqn:Ec.
    + by apply (setup_capture_ok elem type s).
    + destruct H4 as [C1 C2 C3 C4]. split; rewrite ?A2, ?A3; try done.
      intros d t Hct. assert (users d t s2 = users d t s) as ->; [|by apply C4].
      apply set_eq. intros e. rewrite !elem_of_users, Hh. split; [|tauto]. intros [? [[-> ->]|?]]; [congruence|done].
  - intros e t Hl Ht'%Hh. rewrite A6.
    destruct (decide ((e, t) = (elem, type))) as [[= -> ->]|Hne]; [rewrite Hl, lookup_insert_eq; by eexists|].
    destruct Ht' as [[-> ->]|Ht']; [done|]. destruct (leverages elem type); [rewrite lookup_insert_ne by done|]; by apply H5.
  - intros f g. rewrite A4, A5. intros ?%H6. destruct (leverages elem type); lia.
  - by rewrite A4.
  - intros e t q' h'. rewrite Eat. case_decide as E; [subst e|by intros ? ?; apply Hmono, (H8 e t q')].
    intros [[= -> ->]|Hin]%assoc_set_elem; [|by intros ?; apply Hmono, (H8 elem t q')].
    intros [->|Hin]%enqueue_elem; [by apply Hmono|]. unfold first_queue in Hin. destruct (leverages elem type) eqn:El; [|by apply elem_of_nil in Hin].
    apply enqueue_elem in Hin as [->|Hin]; [|by apply elem_of_nil in Hin]. split; simpl.
    + rewrite A5. lia.
    + intros f. rewrite A4. intros ?%H6. lia.
Qed.
(** *** A type loses its last handler *)
Lemma captured_mapped sel t : captured t = true → mapped_type sel t = t.
Proof.
  unfold captured. intros [_ [->%String.eqb_eq| ->%String.eqb_eq]%orb_prop]%andb_prop; unfold mapped_type; by destruct (nonempty sel).
Qed.
Lemma teardown_same elem original type s :
  events (teardown elem original type s) = events s ∧ guids (teardown elem original type s) = guids s ∧
  guid (teardown elem original type s) = guid s ∧ leveraged (teardown elem original type s) = leveraged s ∧
  listeners (teardown elem original type s) = (if captured original then listeners s else
    List.filter (λ p, negb (bool_decide (p = (elem, type)))) (listeners s)) ∧
  attaches (teardown elem original type s) = (if captured original then attaches (teardown_capture elem original s) else attaches s) ∧
  captures (teardown elem original type s) = (if captured original then captures (teardown_capture elem original s) else captures s).
Proof. unfold teardown. destruct (captured original); [unfold teardown_capture; by destruct (_ =? 0)|done]. Qed.
Lemma teardown_capture_ok elem type s s' :
  captures_ok s → captured type = true → has_type elem type s →
  (∀ e t, has_type e t s' ↔ has_type e t s ∧ ¬ (e = elem ∧ t = type)) →
  attaches s' = attaches (teardown_capture elem type s) → captures s' = captures (teardown_capture elem type s) → captures_ok s'.
Proof.
  intros [H1 H2 H3 H4] Hc Helem Hh. unfold teardown_capture. set (doc := doc_of elem).
  set (n := pred (default 0 (attaches s !! (doc, type)))). intros Ha Hcap.
  assert (Hn : size (users doc type s') ≤ n).
  { assert (Hin : elem ∈ users doc type s) by by apply elem_of_users.
    assert (E : users doc type s' ⊆ users doc type s ∖ {[elem]}).
    { intros e. rewrite elem_of_users, Hh. intros (? & ? & Hne). rewrite elem_of_difference, elem_of_users, elem_of_singleton.
      split; [done|]. intros ->. by apply Hne. }
    apply subseteq_size in E. rewrite size_difference, size_singleton in E by set_solver. specialize (H4 doc type Hc). unfold n. lia. }
  assert (Hsub : ∀ d t, size (users d t s') ≤ size (users d t s)).
  { intros d t. apply subseteq_size. intros e. rewrite !elem_of_users, Hh. tauto. }
  assert (Hfilter : ∀ d t, captured t = true →
    (d, orig_type t) ∈ List.filter (λ p, negb (bool_decide (p = (doc, orig_type type)))) (captures s) ↔
    (d, t) ≠ (doc, type) ∧ (d, orig_type t) ∈ captures s).
  { intros d t Ht. rewrite filter_elem, negb_true_iff, bool_decide_eq_false. split; intros [Ha' Hb].
    - split; [|done]. intros [= -> ->]. by apply Hb.
    - split; [done|]. intros [= -> E%orig_type_inj]; [|done..]. by apply Ha'; subst t. }
  destruct (Nat.eqb_spec n 0) as [E|E]; simpl in Ha, Hcap; rewrite ?Ha, ?Hcap.
  - split; rewrite ?Ha, ?Hcap; [| by apply NoDup_list_filter| |].
    + intros k m. destruct (decide (k = (doc, type))) as [->|]; [by rewrite lookup_delete_eq|rewrite lookup_delete_ne by done; apply H1].
    + intros d t Ht. rewrite Hfilter by done. destruct (decide ((d, t) = (doc, type))) as [[= -> ->]|Hne].
      * rewrite lookup_delete_eq. split; [by intros [[] ?]|by intros []].
      * rewrite lookup_delete_ne by done. rewrite H3 by done. tauto.
    + intros d t Ht. destruct (decide ((d, t) = (doc, type))) as [[= -> ->]|Hne]; [rewrite lookup_delete_eq; simpl; lia|].
      rewrite lookup_delete_ne by done. etrans; [apply Hsub|by apply H4].
  - assert (Hsome : is_Some (attaches s !! (doc, type))) by (unfold n in E; destruct (attaches s !! (doc, type)); [by eexists|done]).
    split; rewrite ?Ha, ?Hcap; try done.
    + intros k m. destruct (decide (k = (doc, type))) as [->|]; [rewrite lookup_insert_eq; intros [= <-]; lia|].
      rewrite lookup_insert_ne by done. apply H1.
    + intros d t Ht. rewrite H3 by done. destruct (decide ((d, t) = (doc, type))) as [[= -> ->]|Hne].
      * rewrite lookup_insert_eq. split; [by eexists|done].
      * by rewrite lookup_insert_ne.
    + intros d t Ht. destruct (decide ((d, t) = (doc, type))) as [[= -> ->]|Hne]; [by rewrite lookup_insert_eq|].
      rewrite lookup_insert_ne by done. etrans; [apply Hsub|by apply H4].
Qed.
Lemma delete_type_ok elem original sel s :
  let type := mapped_type sel original in
  reg_ok s → has_type elem type s →
  reg_ok (set_events (λ m, <[elem := delete_type type (events_at elem s)]> m) (teardown elem original type s)).
Proof.
  intros type [H1 H2 H3 H4 H5 H6 H7 H8] Helem.
  destruct (teardown_same elem original type s) as (T1 & T2 & T3 & T4 & T5 & T6 & T7). set (s1 := teardown elem original type s) in *.
  set (s2 := set_events _ s1).
  assert (Hat : ∀ e, events_at e s2 = if decide (e = elem) then delete_type type (events_at elem s) else events_at e s).
  { intros e. unfold s2. rewrite (events_at_insert elem e). case_decide; [done|]. unfold events_at. by rewrite T1. }
  assert (Hh : ∀ e t, has_type e t s2 ↔ has_type e t s ∧ ¬ (e = elem ∧ t = type)).
  { intros e t. unfold has_type. rewrite Hat. case_decide as E; [subst|by split; [split; [|intros []]|intros [? _]]].
    rewrite assoc_delete. destruct (String.eqb_spec t type) as [->|Hne]; [split; [by intros []|by intros [_ []]]|].
    split; [by split; [|intros []]|by intros []]. }
  assert (A1 : listeners s2 = listeners s1) by done. assert (A2 : attaches s2 = attaches s1) by done.
  assert (A3 : captures s2 = captures s1) by done. assert (A4 : guids s2 = guids s1) by done.
  assert (A5 : guid s2 = guid s1) by done. assert (A6 : leveraged s2 = leveraged s1) by done.
  clearbody s2. rewrite T5 in A1. rewrite T6 in A2. rewrite T7 in A3. rewrite T2 in A4. rewrite T3 in A5. rewrite T4 in A6. clearbody s1.
  assert (Hcap : captured original = true → type = original) by (intros Hc; by apply captured_mapped).
  split.
  - intros e. rewrite Hat. case_decide as E; [subst; by apply evs_ok_delete|done].
  - intros e t. rewrite A1, Hh. destruct (captured original) eqn:Ec.
    + rewrite H2, (Hcap eq_refl). split; [|by intros (? & ? & _)]. intros [Hct ?]. split; [done|]. split; [done|]. intros [-> ->]. congruence.
    + rewrite filter_elem, negb_true_iff, bool_decide_eq_false, H2. split; intros H; destruct_and!; split_and?; try done.
      * intros [-> ->]. done.
      * intros [= -> ->]. tauto.
  - rewrite A1. destruct (captured original); [done|by apply NoDup_list_filter].
  - destruct (captured original) eqn:Ec.
    + rewrite (Hcap eq_refl) in *. by apply (teardown_capture_ok elem original s).
    + destruct H4 as [C1 C2 C3 C4]. split; rewrite ?A2, ?A3; try done. intros d t Ht. etrans; [|by apply C4].
      apply subseteq_size. intros e. rewrite !elem_of_users, Hh. tauto.
  - intros e t Hl [Ht _]%Hh. rewrite A6. by apply H5.
  - intros f g. rewrite A4, A5. apply H6.
  - rewrite A4. apply H7.
  - intros e t q h. rewrite Hat. unfold guid_ok. rewrite A4, A5. case_decide; [|by apply (H8 e t q)].
    subst. intros [Hin _]%delete_type_elem. by apply (H8 elem t q).
Qed.
Lemma tidy_at elem s e : events_at e (tidy elem s) = events_at e s.
Proof.
  unfold tidy. destruct (events_at elem s) eqn:E; [|done]. unfold events_at in *. simpl.
  destruct (decide (elem = e)) as [->|]; [by rewrite lookup_delete_eq, E|by rewrite lookup_delete_ne].
Qed.
Lemma tidy_same elem s :
  listeners (tidy elem s) = listeners s ∧ attaches (tidy elem s) = attaches s ∧ captures (tidy elem s) = captures s ∧
  guids (tidy elem s) = guids s ∧ guid (tidy elem s) = guid s ∧ leveraged (tidy elem s) = leveraged s.
Proof. unfold tidy. by destruct (events_at elem s). Qed.
Lemma tidy_ok elem s : reg_ok s → reg_ok (tidy elem s).
Proof.
  destruct (tidy_same elem s) as (H1 & H2 & H3 & H4 & H5 & H6). apply reg_ok_ext; try done; [intros e; apply tidy_at|by rewrite H6].
Qed.
Lemma remove_named_ok elem g sel mapped tok s : reg_ok s → reg_ok (remove_named elem g sel mapped tok s).
Proof.
  intros H. unfold remove_named. set (type := mapped_type _ _). destruct (assoc type (events_at elem s)) as [q|] eqn:E; [|done].
  apply assoc_in_events in E as Hin. pose proof (proj2 (ok_events s H elem) type q Hin) as Hq.
  set (p := matches _ _ _ _ _). destruct (negb (length (handlers q) =? 0) && (length (handlers (removed p q)) =? 0)) eqn:Eb.
  - apply (delete_type_ok elem (type_part tok) sel); [done|]. unfold has_type. fold type. by rewrite E.
  - apply put_queue_ok; [done|unfold has_type; by rewrite E| |].
    + apply removed_ok; [done|]. intros Hr. rewrite Hr in Eb. simpl in Eb. rewrite andb_true_r in Eb.
      apply negb_false_iff, Nat.eqb_eq in Eb. apply (q_nonempty elem type q Hq). by destruct (handlers q).
    + intros h [Hh _]%filter_elem. by apply (ok_handlers s H elem type q).
Qed.
Lemma fold_left_ok {A S} (Q : S → Prop) (f : S → A → S) l x : (∀ x a, Q x → Q (f x a)) → Q x → Q (fold_left f l x).
Proof. intros Hf. revert x. induction l as [|a l IH]; intros x Hx; [done|]. by apply IH, Hf. Qed.
Lemma remove_ok elem types fn sel s : reg_ok s → reg_ok (remove elem types fn sel s).
Proof.
  intros H. unfold remove. destruct (events s !! elem); [|done]. apply tidy_ok, fold_left_ok; [|done].
  intros s' tok Hs. unfold remove_word. destruct (String.eqb _ ""); [|by apply remove_named_ok].
  apply fold_left_ok; [|done]. intros s2 t Hs2. unfold remove_nested. destruct (events s2 !! elem); [|done].
  by apply tidy_ok, remove_named_ok.
Qed.
(** *** Attaching *)
Lemma type_part_lacks tok : lacks "." (type_part tok) = true.
Proof.
  unfold lacks. induction tok as [|c tok IH]; [done|]. simpl. destruct (Ascii.eqb c ".") eqn:E; [done|]. simpl. by rewrite E.
Qed.
Lemma add_one_ok elem f once g data sel tok s :
  reg_ok s → guids s !! f = Some g →
  reg_ok (add_one elem (UserFn f once) g data sel tok s) ∧ guids (add_one elem (UserFn f once) g data sel tok s) = guids s.
Proof.
  intros Hs Hg. unfold add_one. destruct (String.eqb (type_part tok) ""); [done|].
  set (type := mapped_type sel (type_part tok)). set (ho := mkHandleObj _ _ _ _ _ _ _).
  assert (Hho : guid_ok s ho) by done.
  assert (Hwf : handler_wf elem type ho).
  { split; [done|done|apply type_part_lacks|]. eexists. split; [done|]. unfold namespaces_of. rewrite sort_texts_split. apply sort_texts_sorted. }
  destruct (assoc type (events_at elem s)) as [q|] eqn:E.
  - split; [|done]. apply assoc_in_events in E as Hin.
    apply (reg_ok_ext (put_queue elem type (enqueue sel ho (queue_at elem type s)) s)); try done.
    assert (queue_at elem type s = q) as -> by (unfold queue_at; by rewrite E).
    apply put_queue_ok; [done|unfold has_type; by rewrite E| |].
    + apply enqueue_ok; [right|done..]. by apply (proj2 (ok_events s Hs elem)).
    + intros h' [->|Hh]%enqueue_elem; [done|]. by apply (ok_handlers s Hs elem type q).
  - split; [by apply new_type_ok|]. destruct (attach_same elem ho (setup elem type s)) as (_ & _ & _ & -> & _).
    apply (su_guids _ _ _ _ (setup_set_up elem type s)).
Qed.
Lemma add_words_ok elem f once g data sel l s :
  reg_ok s → guids s !! f = Some g → reg_ok (fold_left (λ s tok, add_one elem (UserFn f once) g data sel tok s) l s).
Proof.
  intros Hs Hg.
  assert (H : reg_ok (fold_left (λ s tok, add_one elem (UserFn f once) g data sel tok s) l s)
    ∧ guids (fold_left (λ s tok, add_one elem (UserFn f once) g data sel tok s) l s) !! f = Some g); [|apply H].
  apply (fold_left_ok (λ s, reg_ok s ∧ guids s !! f = Some g)); [|done].
  intros s' tok [H1 H2]. destruct (add_one_ok elem f once g data sel tok s' H1 H2) as [H3 H4]. by rewrite H4.
Qed.
Lemma add_ok elem types f once data sel : keeps reg_ok (add elem types f once data sel).
Proof.
  unfold add. repeat inv_step. apply inv_modify. intros s Hs.
  pose proof (ensure_guid_ok f s Hs) as H. destruct (ensure_guid f s) as [g s1].
  destruct H as (H1 & H2 & _). apply add_words_ok; [|done]. apply (reg_ok_ext s1); try done.
  intros e. rewrite events_at_insert. by case_decide as E; [rewrite E|].
Qed.
Lemma on_ok elems types sel data fn one : keeps reg_ok (on elems types sel data fn one).
Proof.
  assert (Hattach : ∀ es types sel data f, keeps reg_ok
    (when one (modify (λ s, snd (ensure_guid f s)));; each_elem (λ e, add e types f one (data_of data) (text_of sel)) es)).
  { intros es types' sel' data' f. repeat inv_step.
    - apply inv_modify. intros s Hs. pose proof (ensure_guid_ok f s Hs) as H.
      destruct (ensure_guid f s). by destruct H.
    - induction es as [|e es IH]; cbn [each_elem]; repeat inv_step; apply add_ok. }
  assert (Htext : ∀ es types sel data fn, keeps reg_ok (on_text es types sel data fn one)).
  { intros es types' sel' data' fn'. unfold on_text. destruct (resolve_args sel' data' fn') as [[? ?] []]; try apply Hattach;
      repeat inv_step. }
  assert (Hmap : ∀ l sel data, keeps reg_ok (on_map elems l sel data one)).
  { intros l. induction l as [|[t f] l IH]; intros sel' data'; cbn [on_map]; repeat inv_step. }
  unfold on. destruct types; [apply Htext|]. destruct sel; apply Hmap.
Qed.
Lemma off_ok elems types sel fn s : reg_ok s → reg_ok (off elems types sel fn s).
Proof.
  assert (Htext : ∀ types sel fn s, reg_ok s → reg_ok (off_text elems types sel fn s)).
  { intros t sel' fn' s' Hs. unfold off_text. destruct (match sel' with AFalse | AFun _ => _ | _ => _ end) as [a b].
    apply fold_left_ok; [|done]. intros s2 e. apply remove_ok. }
  intros Hs. unfold off. destruct types; [by apply Htext|]. apply fold_left_ok; [|done]. intros s' p. apply Htext.
Qed.
End Registry.

(** ** What everything leaves alone *)
Section Frame.
Context {P : Browser}.
Definition entry_level (e : entry) : nat := match e with LCall l _ _ _ | LInline l _ _ | LNative l _ _ => l end.
(** An event that is stopped immediately is stopped; its type has no namespaces. *)
Definition tame (e : Event) : Prop :=
  lacks "." (e_type e) = true ∧ (isImmediatePropagationStopped e = true → isPropagationStopped e = true).
(** A change of an event that keeps this, and what the handlers are chosen by. *)
Definition mild_at (f : Event → Event) (e : Event) : Prop :=
  tame e → tame (f e) ∧ rnamespace (f e) = rnamespace e ∧ relatedTarget (f e) = relatedTarget e.
(** A property of the events and of the calls of a level that no deeper level touches. *)
Record frame (D : nat) (Q : St → Prop) : Prop := {
  fr_same x x' : store x' = store x → log x' = log x → Q x → Q x';
  fr_new x e : Q x → Q (set_store (λ l, l ++ [e]) x);
  fr_event x f eid : mild_at f (event_of eid x) → Q x → Q (set_store (alter f eid) x);
  fr_emit x e : entry_level e < D → Q x → Q (emit e x)
}.
Lemma lacks_spec t : lacks "." t = negb (existsb (Ascii.eqb ".") (list_ascii_of_string t)).
Proof. unfold lacks. induction t as [|c t IH]; [done|]. simpl. rewrite IH, negb_orb, Ascii.eqb_sym. done. Qed.
Lemma trig_parts_lacks t ns : lacks "." (fst (trig_parts t ns)) = true.
Proof.
  unfold trig_parts. destruct (existsb _ _) eqn:E; [apply type_part_lacks|]. simpl. by rewrite lacks_spec, E.
Qed.
Lemma trig_parts_object e :
  lacks "." (e_type e) = true →
  rnamespace (set_namespace (join_dots (snd (trig_parts (e_type e) (e_namespace e)))) e) = rnamespace e.
Proof.
  rewrite lacks_spec, negb_true_iff. unfold trig_parts, rnamespace. intros ->. simpl.
  destruct (e_namespace e) as [ns|]; simpl; [|done]. unfold join_dots. change "."%string with (String "." ""). by rewrite join_split.
Qed.
Lemma hover_lacks t u : hover_type t = Some u → lacks "." u = true.
Proof. unfold hover_type. simpl. repeat (destruct (String.eqb t _); [by intros [= <-]|]). done. Qed.
Lemma mapped_lacks t : lacks "." t = true → lacks "." (default t (bindType t)) = true ∧ lacks "." (default t (delegateType t)) = true.
Proof.
  intros Ht. unfold bindType, delegateType. split.
  - destruct (hover_type t) as [u|] eqn:E; [by eapply hover_lacks|done].
  - simpl. destruct (String.eqb t "focus"); [done|]. destruct (String.eqb t "blur"); [done|].
    destruct (hover_type t) as [u|] eqn:E; [by eapply hover_lacks|done].
Qed.
Lemma mild_type t e : lacks "." t = true → mild_at (set_type t) e.
Proof. intros Ht [_ H]. done. Qed.

Context (Q : St → Prop) (D : nat) (HQ : frame D Q).
Definition K (x : St) : Prop := reg_ok (reg x) ∧ Q x.
Lemma K_reg f : (∀ s, reg_ok s → reg_ok (f s)) → keeps K (modify (on_reg f)).
Proof. intros Hf. apply inv_modify. intros x [H1 H2]. split; [by apply Hf|]. by apply (fr_same D Q HQ x). Qed.
Lemma K_in_reg {A} (m : M Registry A) : keeps reg_ok m → keeps K (in_reg m).
Proof.
  intros Hm x [H1 H2]. unfold in_reg. specialize (Hm _ H1). destruct (m (reg x)) as [r s]. split; [done|]. by apply (fr_same D Q HQ x).
Qed.
Lemma K_same f : (∀ x, reg (f x) = reg x ∧ store (f x) = store x ∧ log (f x) = log x) → keeps K (modify f).
Proof.
  intros Hf. apply inv_modify. intros x [H1 H2]. destruct (Hf x) as (E1 & E2 & E3). split; [by rewrite E1|]. by apply (fr_same D Q HQ x).
Qed.
Lemma K_new e : keeps K (new_object e).
Proof. intros x [H1 H2]. split; [done|]. by apply (fr_new D Q HQ). Qed.
Lemma K_new_native : keeps K new_native.
Proof. intros x [H1 H2]. split; [done|]. by apply (fr_same D Q HQ x). Qed.
Lemma K_event eid f : (∀ e, mild_at f e) → keeps K (on_event eid f).
Proof. intros Hf. apply inv_modify. intros x [H1 H2]. split; [done|]. by apply (fr_event D Q HQ). Qed.
Lemma K_emit e : entry_level e < D → keeps K (modify (emit e)).
Proof. intros He. apply inv_modify. intros x [H1 H2]. split; [done|]. by apply (fr_emit D Q HQ). Qed.
Lemma K_save elem type v : keeps K (save elem type v).
Proof.
  apply K_reg. intros s. apply reg_ok_ext; try done. intros k Hk. simpl.
  destruct (decide (k = (elem, type))) as [->|]; [rewrite lookup_insert_eq; by eexists|by rewrite lookup_insert_ne].
Qed.
Lemma K_with {A B} (f : St → A) (body : A → M St B) : (∀ x, K x → K (snd (body (f x) x))) → keeps K (a ← gets f; body a).
Proof. intros H x Hx. by apply H. Qed.
Lemma K_natives f : keeps K (modify (set_natives f)).
Proof. by apply K_same. Qed.
Lemma K_triggered t : keeps K (modify (set_triggered t)).
Proof. by apply K_same. Qed.
Lemma K_stoppers f : keeps K (modify (set_stoppers f)).
Proof. by apply K_same. Qed.
Lemma K_arrays n : keeps K (modify (set_arrays n)).
Proof. by apply K_same. Qed.
Lemma K_read eid : keeps K (read eid).
Proof. apply inv_gets. Qed.
Hint Resolve K_new K_new_native K_save K_natives K_triggered K_stoppers K_arrays K_read : keeps.
Lemma K_tell eid f : keeps K (tell_native eid f).
Proof. unfold tell_native. repeat inv_step. Qed.
Hint Resolve K_tell : keeps.
Lemma K_prevent eid : keeps K (preventDefault eid).
Proof. unfold preventDefault. repeat inv_step. by apply K_event. Qed.
Lemma K_stop eid : keeps K (stopPropagation eid).
Proof. unfold stopPropagation. repeat inv_step. apply K_event. intros e [H1 H2]. by split; [split|]. Qed.
Lemma K_stop_immediate eid : keeps K (stopImmediatePropagation eid).
Proof. unfold stopImmediatePropagation. repeat inv_step. apply K_event. intros e [H1 H2]. by split; [split|]. Qed.
Lemma K_reset eid : keeps K (on_event eid reset_event).
Proof. apply K_event. intros e [H1 H2]. by split; [split|]. Qed.
Lemma K_current eid t : keeps K (on_event eid (set_current t)).
Proof. by apply K_event. Qed.
Lemma K_delegate eid t : keeps K (on_event eid (set_delegate t)).
Proof. by apply K_event. Qed.
Lemma K_handler eid h : keeps K (on_event eid (set_handler h)).
Proof. by apply K_event. Qed.
Lemma K_result eid r : keeps K (on_event eid (set_result r)).
Proof. by apply K_event. Qed.
Lemma K_prepare eid elem only : keeps K (on_event eid (prepare elem only)).
Proof. apply K_event. intros e [H1 H2]. unfold prepare, tame, rnamespace. cbn [target set_result set_trigger]. by destruct (target e). Qed.
Lemma K_type eid t : lacks "." t = true → keeps K (on_event eid (set_type t)).
Proof. intros Ht. apply K_event. intros e. by apply mild_type. Qed.
Lemma K_on elems types sel data fn one : keeps K (in_reg (on elems types sel data fn one)).
Proof. apply K_in_reg, on_ok. Qed.
Lemma K_off elems types sel fn : keeps K (modify (on_reg (off elems types sel fn))).
Proof. apply K_reg. intros s. apply off_ok. Qed.
Lemma K_off_event h f t : keeps K (modify (on_reg (off_event h f t))).
Proof. apply K_reg. intros s. apply remove_ok. Qed.
Hint Resolve K_prevent K_stop K_stop_immediate K_reset K_current K_delegate K_handler K_result K_prepare K_on K_off K_off_event : keeps.

(** *** One level, when the deeper ones keep it *)
Section Level.
Context (calls : Calls) (Hlevel : level calls < D).
Context (Hmethod : ∀ e t, keeps K (sub_method calls e t)) (Htrigger : ∀ a e o, keeps K (sub_trigger calls a e o)).
Hint Resolve Hmethod Htrigger : keeps.
Lemma K_act eid a : keeps K (act calls eid a).
Proof. destruct a as [| | | | |[] ? ?|]; cbn [act]; repeat inv_step. Qed.
Lemma K_program eid p : keeps K (run_program calls eid p).
Proof. induction p as [r|a next IH]; cbn [run_program]; repeat inv_step. apply K_act. Qed.
Hint Resolve K_program : keeps.
Lemma K_call_user f this eid : keeps K (call_user calls f this eid).
Proof. unfold call_user. repeat inv_step. by apply K_emit. Qed.
Lemma K_controller type this eid : keeps K (controller calls type this eid).
Proof. unfold controller, leverage_outer. repeat inv_step. Qed.
Hint Resolve K_call_user K_controller : keeps.
Lemma K_call_handler h this eid : keeps K (call_handler calls h this eid).
Proof. unfold call_handler. repeat inv_step. Qed.
Hint Resolve K_call_handler : keeps.
Lemma K_run_handler h this eid : lacks "." (origType h) = true → keeps K (run_handler calls h this eid).
Proof.
  intros Hh. unfold run_handler. destruct (hover_type (origType h)) as [t|] eqn:E; [|auto with keeps].
  apply hover_lacks in E. repeat inv_step; by apply K_type.
Qed.
Lemma K_note r eid : keeps K (note_result r eid).
Proof. unfold note_result. repeat inv_step. Qed.
Hint Resolve K_note : keeps.
Definition typed (hs : list HandleObj) : Prop := Forall (λ h, lacks "." (origType h) = true) hs.
Lemma K_run_handlers this eid hs : typed hs → keeps K (run_handlers calls this eid hs).
Proof.
  induction 1 as [|h hs Hh _ IH]; cbn [run_handlers]; repeat inv_step. by apply K_run_handler.
Qed.
Lemma K_run_queue eid l : Forall (λ p, typed (snd p)) l → keeps K (run_queue calls eid l).
Proof.
  induction 1 as [|[e hs] l Hh _ IH]; cbn [run_queue]; repeat inv_step. by apply K_run_handlers.
Qed.
Lemma K_post eid t : keeps K (postDispatch eid t).
Proof. unfold postDispatch. repeat inv_step. Qed.
Hint Resolve K_post : keeps.
Lemma handler_queue_handlers this e q p h :
  p ∈ handler_queue this e q → h ∈ snd p → h ∈ handlers q.
Proof.
  unfold handler_queue. rewrite elem_of_app. intros [Hp|Hp] Hh.
  - destruct (_ && _); [|by apply elem_of_nil in Hp]. destruct (target e) as [t|]; [|by apply elem_of_nil in Hp].
    apply list_elem_of_In, in_flat_map in Hp as (cur & _ & Hp%list_elem_of_In). unfold delegates_at in Hp.
    destruct (_ && _); [|by apply elem_of_nil in Hp].
    destruct (List.filter _ _) as [|h0 l] eqn:Ef; [by apply elem_of_nil in Hp|].
    apply list_elem_of_singleton in Hp as ->. simpl in Hh. rewrite <- Ef in Hh. apply filter_elem in Hh as [Hh _].
    rewrite <- (take_drop (delegateCount q)). apply elem_of_app. by left.
  - destruct (_ <? _); [|by apply elem_of_nil in Hp]. apply list_elem_of_singleton in Hp as ->. simpl in Hh.
    rewrite <- (take_drop (delegateCount q)). apply elem_of_app. by right.
Qed.
Lemma queue_handlers_wf s elem type h : reg_ok s → h ∈ handlers (queue_at elem type s) → handler_wf elem type h.
Proof.
  intros Hs Hin. unfold queue_at in Hin. destruct (assoc type (events_at elem s)) as [q|] eqn:E; [|by apply elem_of_nil in Hin].
  apply assoc_in_events in E. pose proof (q_types _ _ _ (proj2 (ok_events s Hs elem) _ _ E)) as H.
  rewrite Forall_forall in H. by apply H.
Qed.
Lemma handler_queue_typed s this type e : reg_ok s → Forall (λ p, typed (snd p)) (handler_queue this e (queue_at this type s)).
Proof.
  intros Hs. apply Forall_forall. intros p Hp. apply Forall_forall. intros h Hh.
  eapply h_orig, queue_handlers_wf; [done|]. by eapply handler_queue_handlers.
Qed.
Lemma K_dispatch this eid : keeps K (dispatch calls this eid).
Proof.
  unfold dispatch. apply inv_bind; [auto with keeps|]. intros e. apply K_with. intros x Hx.
  apply (inv_bind K (on_event eid (set_delegate this))); [auto with keeps| |done]. intros _.
  apply inv_bind; [apply K_run_queue, handler_queue_typed, Hx|]. intros _. repeat inv_step.
Qed.
Hint Resolve K_dispatch : keeps.
Lemma K_handle this eid : keeps K (handle calls this eid).
Proof. unfold handle. repeat inv_step. Qed.
Hint Resolve K_handle : keeps.
Lemma K_fire_path eid type bubble first last path :
  lacks "." type = true → lacks "." bubble = true → keeps K (fire_path calls eid type bubble first last path).
Proof.
  intros Ht Hb. revert first last. induction path as [|cur path IH]; intros first last; cbn [fire_path]; [auto with keeps|].
  apply inv_bind; [auto with keeps|intros e]. destruct (isPropagationStopped _); [auto with keeps|].
  apply inv_bind; [apply K_type; destruct first; [by apply mapped_lacks|done]|intros _].
  repeat inv_step. by apply K_emit.
Qed.
Lemma K_simulate t f nid : keeps K (simulate calls t f nid).
Proof. unfold simulate. repeat inv_step. Qed.
Hint Resolve K_simulate : keeps.
Lemma K_fire f : keeps K (fire_native calls f).
Proof.
  unfold fire_native, capture_native, deliver. apply inv_bind; [auto with keeps|intros nid]. apply inv_bind; [repeat inv_step|intros _].
  induction (f_path f) as [|cur path IH]; cbn [deliver_all]; [auto with keeps|]. unfold deliver. repeat inv_step.
Qed.
Lemma K_call_method elem type : keeps K (call_method calls elem type).
Proof.
  unfold call_method. apply inv_bind; [auto with keeps|intros x]. apply inv_bind; [by apply K_emit|intros _].
  destruct (fires _ _ _) as [l r]. apply inv_bind; [|intros _; auto with keeps].
  induction l as [|f l IH]; cbn [fire_all]; [auto with keeps|]. apply inv_bind; [apply K_fire|done].
Qed.
Hint Resolve K_call_method : keeps.
Lemma K_default eid type elem last : keeps K (default_action calls eid type elem last).
Proof. unfold default_action. repeat inv_step. Qed.
Lemma K_special elem type : keeps K (special_trigger elem type).
Proof. unfold special_trigger. repeat inv_step. apply K_in_reg, add_ok. Qed.
Hint Resolve K_default K_special : keeps.
Lemma K_trig_object type ns a x : K x →
  (∀ eid, a = TrigObject eid → ns = snd (trig_parts (e_type (event_of eid x)) (e_namespace (event_of eid x)))) →
  K (snd (trig_object type ns a x)).
Proof.
  intros Hx Hns. destruct a as [t|eid]; cbn [trig_object]; [by apply K_new|]. destruct Hx as [H1 H2]. split; [done|].
  apply (fr_event D Q HQ); [|done]. intros [Hl Hi]. split; [done|]. split; [|done]. rewrite (Hns eid eq_refl). by apply trig_parts_object.
Qed.
Lemma K_trigger a elem only : keeps K (trigger calls a elem only).
Proof.
  unfold trigger. apply K_with. intros x Hx. set (p := match a with TrigType _ => _ | TrigObject _ => _ end).
  destruct p as [text own] eqn:Ep. destruct (_ || _); [exact Hx|]. destruct (trig_parts text own) as [type ns] eqn:Et.
  assert (Ht : lacks "." type = true) by (pose proof (trig_parts_lacks text own) as H; by rewrite Et in H).
  assert (Ho : K (snd (trig_object type ns a x))).
  { apply K_trig_object; [done|]. intros eid ->. unfold p in Ep. injection Ep as <- <-. by rewrite Et. }
  unfold mbind at 1, M_bind at 1. destruct (trig_object type ns a x) as [[eid|e] x1]; [|exact Ho]. revert Ho. cbn [snd id].
  match goal with |- K x1 → K (snd (?m x1)) => enough (keeps K m) as Hk by (intros; by apply Hk) end.
  apply inv_bind; [auto with keeps|intros _]. apply inv_bind; [repeat inv_step|intros _].
  apply inv_bind; [by apply K_fire_path; [|apply mapped_lacks]|intros last].
  apply inv_bind; [by apply K_type|intros _]. repeat inv_step.
Qed.
End Level.
Lemma K_levels d : d ≤ D →
  (∀ e t, keeps K (sub_method (levels d) e t)) ∧ (∀ a e o, keeps K (sub_trigger (levels d) a e o)).
Proof.
  induction d as [|d IH]; intros Hd; [split; intros; apply inv_raise|]. destruct IH as [IH1 IH2]; [lia|].
  assert (Hl : level (levels d) < D) by (destruct d; simpl; lia).
  split; cbn [levels sub_method sub_trigger]; intros; [by apply K_call_method|by apply K_trigger].
Qed.
Lemma level_levels d : level (levels d) = d.
Proof. by destruct d. Qed.
End Frame.

(** ** The page over time *)
(** What can happen, with a stack of any size: handlers are attached and detached, the
    browser fires a native event, a script calls a method of an element, makes an event
    object or triggers an event.  What the functions of the user do is part of a step. *)
Inductive event_step {P : Browser} : St → St → Prop :=
  | step_on elems types sel data fn one x : event_step x (snd (in_reg (on elems types sel data fn one) x))
  | step_off elems types sel fn x : event_step x (on_reg (off elems types sel fn) x)
  | step_fire d f x : event_step x (snd (fire_native (levels d) f x))
  | step_method d elem type x : event_step x (snd (call_method (levels d) elem type x))
  | step_object e x : event_step x (snd (new_object e x))
  | step_trigger d a elem only x : event_step x (snd (trigger (levels d) a elem only x)).
Definition no_events : St := mkSt (mkRegistry ∅ [] ∅ [] ∅ 1 [] ∅) None [] [] 0 [] [].
Lemma no_events_ok {P : Browser} : reg_ok (reg no_events).
Proof.
  assert (E : ∀ e, events_at e (reg no_events) = []) by done.
  split; try done.
  - intros e. rewrite E. split; [constructor|]. by intros t q ?%elem_of_nil.
  - intros e t. unfold has_type. rewrite E. simpl. split; [by intros ?%elem_of_nil|by intros [_ []]].
  - constructor.
  - split; try done.
    + constructor.
    + intros d t Ht. simpl. split; [by intros ?%elem_of_nil|by intros []].
  - intros e t _. unfold has_type. rewrite E. by intros [].
  - intros e t q h. rewrite E. by intros ?%elem_of_nil.
Qed.
Lemma frame_True {P : Browser} D : frame D (λ _, True).
Proof. by split. Qed.
(** C38. The handlers of every element stay well formed, whatever is attached, detached,
    fired and triggered, and whatever handlers do when they are called, which may be all of
    this again: each type has handlers of that type only and at least one, their namespaces
    are sorted, the delegated ones come first and are counted; the browser is listened to
    exactly for the types that have handlers and once for each, except for focusin and
    focusout without support for them, which a listener of the document captures as long as
    it counts attachments, of which there are as many at least as elements with such
    handlers; a type whose native event is leveraged has its data; and each function of the
    user has a number of its own, as each controller has. *)
Theorem events_stay_ok {P : Browser} x : rtc event_step no_events x → reg_ok (reg x).
Proof.
  intros H. eapply (rtc_invariant event_step (λ x, reg_ok (reg x))); [apply no_events_ok| |exact H]. intros a b Ha Hab.
  assert (HK : ∀ A (m : M St A), keeps (K (λ _, True)) m → reg_ok (reg (snd (m a)))) by (intros A m Hm; by apply Hm).
  assert (Hd : ∀ d, level (levels d) < S d) by (intros d; rewrite level_levels; lia).
  assert (Hs : ∀ d, (∀ e t, keeps (K (λ _, True)) (sub_method (levels d) e t)) ∧
                    (∀ a e o, keeps (K (λ _, True)) (sub_trigger (levels d) a e o))).
  { intros d. apply (K_levels _ (S d)); [apply frame_True|lia]. }
  destruct Hab as [elems types sel data fn one x'|elems types sel fn x'|d f x'|d elem type x'|e x'|d tr elem only x'].
  - apply HK. eapply K_on, (frame_True 0).
  - by apply off_ok.
  - apply HK. eapply K_fire; [apply frame_True|apply Hd|apply Hs..].
  - apply HK. eapply K_call_method; [apply frame_True|apply Hd|apply Hs..].
  - done.
  - apply HK. eapply K_trigger; [apply frame_True|apply Hd|apply Hs..].
Qed.

(** ** The calls of a dispatch *)
Section Calls.
Context {P : Browser}.
(** *** What is expected *)
(** The elements from the target up to the one whose handlers run. *)
Definition climbs (this : nat) (e : Event) (path : list nat) : Prop :=
  match target e with
  | Some t => ∃ above, t :: parents t = path ++ above ∧ this ∉ path ∧ (above = [] ∨ head above = Some this)
  | None => path = []
  end.
Definition secondary (e : Event) : bool := String.eqb (e_type e) "click" && match button e with Some b => Z.leb 1 b | None => false end.
Definition live (e : Event) (cur : nat) : bool := isElement cur && negb (String.eqb (e_type e) "click" && disabled cur).
Definition outside (e : Event) (this : nat) : bool :=
  match relatedTarget e with None => true | Some r => negb (Nat.eqb r this) && negb (contains this r) end.
(** The namespaces of a text. *)
Definition parts (t : option string) : list string :=
  match t with Some t => if String.eqb t "" then [] else split_on "." t | None => [] end.
(** The namespaces of the event are among those of the handler, and the pointer comes from
    outside where the handler asks for it. *)
Definition fits (e : Event) (this : nat) (h : HandleObj) : bool :=
  match namespace h with Some ns => bool_decide (parts (e_namespace e) ⊆ split_on "." ns) | None => true end &&
  match hover_type (origType h) with Some _ => outside e this | None => true end.
(** The call of a function of the user. *)
Definition user_call (this : nat) (h : HandleObj) : list (nat * nat) :=
  match handler h with
  | UserFn f _ => if (f =? 0) || (f =? 1) then [] else [(f, this)]
  | Controller _ => []
  end.
Definition delegated_calls (this : nat) (e : Event) (hs : list HandleObj) (cur : nat) : list (nat * nat) :=
  if live e cur then
    flat_map (λ h, if delegated h && match selector h with Some t => find t this cur | None => false end && fits e cur h
                   then user_call cur h else []) hs
  else [].
Definition expected_calls (this : nat) (e : Event) (path : list nat) (hs : list HandleObj) : list (nat * nat) :=
  (if secondary e then [] else flat_map (delegated_calls this e hs) path) ++
  flat_map (λ h, if negb (delegated h) && fits e this h then user_call this h else []) hs.
(** The calls of functions on a level. *)
Definition own_calls (d : nat) (l : list entry) : list (nat * nat) :=
  omap (λ en, match en with LCall l f this _ => if l =? d then Some (f, this) else None | _ => None end) l.

(** *** What a handler may do to the event *)
Section Run.
Context (d eid : nat) (e0 : Event).
Context (Hsorted : sorted (parts (e_namespace e0))) (Hnodup : NoDup (parts (e_namespace e0))).
Definition same_event (e : Event) : Prop := rnamespace e = rnamespace e0 ∧ relatedTarget e = relatedTarget e0 ∧ tame e.
Definition quiet (L : list (nat * nat)) (x : St) : Prop :=
  (∃ e, store x !! eid = Some e ∧ same_event e) ∧ own_calls d (log x) = L.
Definition stopped (x : St) : Prop := ∃ e, store x !! eid = Some e ∧ isPropagationStopped e = true.
Lemma quiet_frame L : frame d (quiet L).
Proof.
  split.
  - intros x x' Es El [[e [He Hs]] HL]. split; [exists e; by rewrite Es|by rewrite El].
  - intros x e' [[e [He Hs]] HL]. split; [|done]. exists e. split; [|done]. simpl. apply lookup_app_Some. by left.
  - intros x f eid' Hf [[e [He Hs]] HL]. split; [|done]. simpl. destruct (decide (eid' = eid)) as [->|Hne].
    + exists (f e). rewrite list_lookup_alter_eq, He. split; [done|]. unfold event_of in Hf. rewrite He in Hf. simpl in Hf.
      destruct Hs as (H1 & H2 & H3). destruct (Hf H3) as (H4 & H5 & H6). split; [congruence|]. split; [congruence|done].
    + exists e. by rewrite list_lookup_alter_ne.
  - intros x en Hen [He HL]. split; [done|]. simpl. unfold own_calls in *. rewrite omap_app, HL. simpl.
    destruct en as [l f t ty|l t ty|l t ty]; rewrite ?app_nil_r; try done. simpl in Hen.
    rewrite (proj2 (Nat.eqb_neq l d)) by lia. by rewrite app_nil_r.
Qed.
Notation Kq L := (K (quiet L)).
Lemma subs_quiet L :
  (∀ e t, keeps (Kq L) (sub_method (levels d) e t)) ∧ (∀ a e o, keeps (Kq L) (sub_trigger (levels d) a e o)).
Proof. apply (K_levels (quiet L) d); [apply quiet_frame|done]. Qed.
Lemma quiet_event L x : Kq L x → store x !! eid = Some (event_of eid x) ∧ same_event (event_of eid x).
Proof. intros [_ [[e [He Hs]] _]]. unfold event_of. by rewrite He. Qed.
Lemma program_quiet L p : keeps (Kq L) (run_program (levels d) eid p).
Proof. apply (K_program _ d); [apply quiet_frame|apply subs_quiet..]. Qed.
Lemma call_user_quiet f this L x :
  Kq L x → Kq (L ++ if (f =? 0) || (f =? 1) then [] else [(f, this)]) (snd (call_user (levels d) f this eid x)).
Proof.
  intros Hx. unfold call_user. destruct (f =? 0); [by rewrite app_nil_r|]. destruct (f =? 1); [by rewrite app_nil_r|].
  unfold mbind at 1, M_bind at 1, gets. unfold mbind at 1, M_bind at 1, modify at 1.
  apply program_quiet. destruct Hx as [H1 [H2 H3]]. split; [done|]. split; [done|]. simpl. unfold own_calls in *.
  rewrite omap_app, H3, level_levels. simpl. by rewrite Nat.eqb_refl.
Qed.
Lemma controller_quiet type this L : keeps (Kq L) (controller (levels d) type this eid).
Proof. apply (K_controller _ d); [apply quiet_frame|apply subs_quiet..]. Qed.
Lemma call_handler_quiet h this L x :
  Kq L x → Kq (L ++ user_call this h) (snd (call_handler (levels d) h this eid x)).
Proof.
  intros Hx. unfold call_handler, user_call. destruct (handler h) as [f once|t]; [|rewrite app_nil_r; by apply controller_quiet].
  unfold mbind at 1, M_bind at 1, read, gets. set (m := when _ _).
  assert (Hm : Kq L (snd (m x)) ∧ fst (m x) = Ret tt).
  { unfold m. destruct once; [|by split]. destruct (handleObj (event_of eid x)), (delegateTarget (event_of eid x)); try by split.
    split; [|done]. by apply (K_off_event _ d); [apply quiet_frame|]. }
  unfold mbind at 1, M_bind at 1. destruct Hm as [Hm1 Hm2]. destruct (m x) as [r x1]. simpl in *. subst r. by apply call_user_quiet.
Qed.
Definition handler_calls (this : nat) (h : HandleObj) : list (nat * nat) := if fits e0 this h then user_call this h else [].
Lemma run_handler_quiet h this L x :
  lacks "." (origType h) = true → Kq L x →
  Kq (L ++ if match hover_type (origType h) with Some _ => outside e0 this | None => true end then user_call this h else [])
    (snd (run_handler (levels d) h this eid x)).
Proof.
  intros Ho Hx. unfold run_handler. destruct (hover_type (origType h)) as [t|] eqn:Et; [|by apply call_handler_quiet].
  unfold mbind at 1, M_bind at 1, read, gets. destruct (quiet_event L x Hx) as [_ (_ & Hr & _)].
  assert (Eout : (match relatedTarget (event_of eid x) with None => true
     | Some r => negb (Nat.eqb r this) && negb (contains this r) end) = outside e0 this) by (unfold outside; by rewrite Hr).
  rewrite Eout. destruct (outside e0 this); [|by rewrite app_nil_r].
  unfold mbind at 1, M_bind at 1. pose proof (K_type _ d (quiet_frame L) eid _ Ho x Hx) as H1.
  unfold on_event at 1, modify at 1. unfold on_event, modify in H1. cbn [snd] in H1. set (x1 := set_store _ x) in *.
  pose proof (call_handler_quiet h this L x1 H1) as H2.
  unfold mbind at 1, M_bind at 1. destruct (call_handler _ h this eid x1) as [[r|e] x2]; [|done]. cbn [snd] in H2.
  apply hover_lacks in Et. by apply (K_type _ d (quiet_frame _) eid _ Et x2).
Qed.
Lemma in_namespace_fits h this x L elem type : Kq L x → handler_wf elem type h →
  in_namespace (event_of eid x) h && match hover_type (origType h) with Some _ => outside e0 this | None => true end = fits e0 this h.
Proof.
  intros Hx Hh. destruct (quiet_event L x Hx) as [_ (Hn & _ & _)]. unfold in_namespace, fits. f_equal. rewrite Hn.
  destruct (namespace h) as [ns|] eqn:En; [|by destruct (rnamespace e0)].
  assert (Hs : sorted (split_on "." ns)).
  { pose proof (h_kind _ _ _ Hh) as Hk. destruct (handler h) as [f o|t]; [|by destruct Hk as (_ & _ & ? & _); congruence].
    destruct Hk as (ns' & E & Hs). rewrite En in E. by injection E as ->. }
  revert Hsorted Hnodup. unfold rnamespace, parts. destruct (e_namespace e0) as [t|]; [|intros; by rewrite bool_decide_eq_true_2 by set_solver].
  destruct (String.eqb t ""); [intros; by rewrite bool_decide_eq_true_2 by set_solver|]. intros H1 H2. unfold rnamespace_test.
  by apply subseq_subset.
Qed.

(** *** The handlers of an element, and of the queue *)
(** What has been called is the beginning of what is expected, and all of it unless the
    event is stopped or a handler throws. *)
Definition went {A} (L expected : list (nat * nat)) (p : outcome A * St) : Prop :=
  ∃ called rest, expected = called ++ rest ∧ Kq (L ++ called) (snd p) ∧
    (is_Ret (fst p) = true → rest = [] ∨ stopped (snd p)).
Lemma note_quiet L r : keeps (Kq L) (note_result r eid).
Proof. apply (K_note _ d), quiet_frame. Qed.
Lemma run_handlers_quiet this hs L x elem type :
  Kq L x → Forall (handler_wf elem type) hs →
  went L (flat_map (handler_calls this) hs) (run_handlers (levels d) this eid hs x).
Proof.
  intros Hx Hf. revert L x Hx. induction Hf as [|h hs Hh _ IH]; intros L x Hx.
  - exists [], []. rewrite (app_nil_r L). split; [done|]. split; [exact Hx|by left].
  - cbn [run_handlers flat_map]. unfold mbind at 1, M_bind at 1, read, gets. destruct (quiet_event L x Hx) as [He Hs].
    destruct (isImmediatePropagationStopped (event_of eid x)) eqn:Ei.
    { exists [], (handler_calls this h ++ flat_map (handler_calls this) hs). rewrite (app_nil_r L). split; [done|].
      split; [exact Hx|]. intros _. right. eexists. split; [exact He|]. by apply Hs. }
    set (m := when _ _).
    assert (Hm : Kq (L ++ handler_calls this h) (snd (m x))).
    { unfold m, handler_calls. rewrite <- (in_namespace_fits h this x L elem type Hx Hh).
      destruct (in_namespace (event_of eid x) h); cbn [andb when]; [|by rewrite app_nil_r].
      pose proof (K_handler _ d (quiet_frame L) eid h x Hx) as H1.
      unfold mbind at 1, M_bind at 1, on_event at 1, modify at 1. unfold on_event, modify in H1. cbn [snd] in H1.
      set (x1 := set_store _ x) in *. pose proof (run_handler_quiet h this L x1 (h_orig _ _ _ Hh) H1) as H2.
      unfold mbind at 1, M_bind at 1. destruct (run_handler _ h this eid x1) as [[r|ex] x2]; [|done]. by apply note_quiet. }
    unfold mbind at 1, M_bind at 1. destruct (m x) as [[[]|ex] x1]; cbn [snd] in Hm.
    + destruct (IH (L ++ handler_calls this h) x1 Hm) as (called & rest & E & Hl & Hr).
      exists (handler_calls this h ++ called), rest. rewrite E, <- app_assoc. split; [done|]. rewrite app_assoc. by split.
    + by exists (handler_calls this h), (flat_map (handler_calls this) hs).
Qed.
Definition queue_calls (l : list (nat * list HandleObj)) : list (nat * nat) :=
  flat_map (λ p, flat_map (handler_calls (fst p)) (snd p)) l.
Lemma run_queue_quiet l L x elem type :
  Kq L x → Forall (λ p, Forall (handler_wf elem type) (snd p)) l → went L (queue_calls l) (run_queue (levels d) eid l x).
Proof.
  intros Hx Hf. revert L x Hx. induction Hf as [|[this hs] l Hh _ IH]; intros L x Hx.
  - exists [], []. rewrite (app_nil_r L). split; [done|]. split; [exact Hx|by left].
  - cbn [run_queue]. unfold mbind at 1, M_bind at 1, read, gets. destruct (quiet_event L x Hx) as [He Hs].
    destruct (isPropagationStopped (event_of eid x)) eqn:Ep.
    { exists [], (queue_calls ((this, hs) :: l)). rewrite (app_nil_r L). split; [done|]. split; [exact Hx|]. intros _. right. by eexists. }
    pose proof (K_current _ d (quiet_frame L) eid this x Hx) as H1.
    unfold mbind at 1, M_bind at 1, on_event at 1, modify at 1. unfold on_event, modify in H1. cbn [snd] in H1.
    set (x1 := set_store _ x) in *.
    destruct (run_handlers_quiet this hs L x1 elem type H1 Hh) as (called & rest & E & Hl & Hr).
    unfold mbind at 1, M_bind at 1. unfold queue_calls in *. cbn [flat_map fst snd]. rewrite E.
    destruct (run_handlers _ this eid hs x1) as [[[]|ex] x2]; cbn [fst snd is_Ret] in *.
    + destruct (Hr eq_refl) as [->|Hstop].
      * destruct (IH (L ++ called) x2 Hl) as (called2 & rest2 & E2 & Hl' & Hr').
        exists (called ++ called2), rest2. rewrite app_nil_r, E2, <- app_assoc. split; [done|]. rewrite app_assoc. by split.
      * exists called, (rest ++ flat_map (λ p, flat_map (handler_calls (fst p)) (snd p)) l). rewrite <- app_assoc.
        split; [done|]. destruct l as [|[e2 h2] l2]; cbn [run_queue]; [split; [exact Hl|by right]|].
        unfold mbind, M_bind, read, gets. destruct Hstop as (e & Hse & Hst).
        assert (event_of eid x2 = e) as -> by (unfold event_of; by rewrite Hse). rewrite Hst. split; [exact Hl|]. intros _. right. by exists e.
    + exists called, (rest ++ flat_map (λ p, flat_map (handler_calls (fst p)) (snd p)) l). rewrite <- app_assoc.
      split; [done|]. by split.
Qed.
End Run.

(** *** The order of the calls *)
Lemma path_climbs this e : climbs this e match target e with Some t => path_to this (t :: parents t) | None => [] end.
Proof.
  unfold climbs. destruct (target e) as [t|]; [|done]. generalize (t :: parents t). intros l.
  induction l as [|cur l IH]; cbn [path_to].
  - exists []. split; [done|]. split; [apply not_elem_of_nil|by left].
  - destruct (Nat.eqb_spec cur this) as [->|Hne].
    + exists (this :: l). split; [done|]. split; [apply not_elem_of_nil|by right].
    + destruct IH as (above & E & Hn & Ha). exists above. split; [by rewrite E at 1|]. split; [|done].
      rewrite not_elem_of_cons. by split.
Qed.
Lemma flat_map_filter {A B} (f : A → list B) p l : flat_map f (List.filter p l) = flat_map (λ x, if p x then f x else []) l.
Proof. induction l as [|x l IH]; [done|]. simpl. destruct (p x); simpl; by rewrite IH. Qed.
Lemma flat_map_none {A B} (f : A → list B) l : Forall (λ x, f x = []) l → flat_map f l = [].
Proof. induction 1 as [|x l Hx _ IH]; [done|]. simpl. by rewrite Hx, IH. Qed.
Lemma flat_map_same {A B} (f g : A → list B) l : Forall (λ x, f x = g x) l → flat_map f l = flat_map g l.
Proof. induction 1 as [|x l Hx _ IH]; [done|]. simpl. by rewrite Hx, IH. Qed.
Lemma flat_map_flat_map {A B C} (f : B → list C) (g : A → list B) l : flat_map f (flat_map g l) = flat_map (λ x, flat_map f (g x)) l.
Proof. induction l as [|x l IH]; [done|]. simpl. by rewrite flat_map_app, IH. Qed.
Lemma queue_expected this e elem type q : q = empty_queue ∨ queue_ok elem type q →
  queue_calls e (handler_queue this e q) =
  expected_calls this e match target e with Some t => path_to this (t :: parents t) | None => [] end (handlers q).
Proof.
  intros Hq.
  assert (Hsplit : ∃ ds fs, handlers q = ds ++ fs ∧ delegateCount q = length ds ∧
    Forall (λ h, delegated h = true) ds ∧ Forall (λ h, delegated h = false) fs).
  { destruct Hq as [->|[H _ _]]; [by exists [], []|done]. }
  destruct Hsplit as (ds & fs & E & Hc & Hds & Hfs).
  assert (Hdirect : flat_map (λ h, if negb (delegated h) && fits e this h then user_call this h else []) (handlers q)
    = flat_map (handler_calls e this) fs).
  { rewrite E, flat_map_app, flat_map_none; [|eapply Forall_impl; [exact Hds|]; by intros h ->].
    apply flat_map_same. eapply Forall_impl; [exact Hfs|]. by intros h ->. }
  assert (Hdel : ∀ cur, queue_calls e (delegates_at this e q cur) = delegated_calls this e (handlers q) cur).
  { intros cur. unfold delegates_at, delegated_calls, live. rewrite Hc, E, take_app_length. destruct (_ && negb _); [|done].
    rewrite flat_map_app, (flat_map_none _ fs), app_nil_r; [|eapply Forall_impl; [exact Hfs|]; by intros h ->].
    set (p := λ h, match selector h with Some t => find t this cur | None => false end).
    transitivity (flat_map (handler_calls e cur) (List.filter p ds)).
    { destruct (List.filter p ds); [done|]. unfold queue_calls. cbn [flat_map fst snd]. by rewrite app_nil_r. }
    rewrite flat_map_filter. apply flat_map_same. eapply Forall_impl; [exact Hds|]. intros h ->. fold (p h). unfold handler_calls.
    by destruct (p h). }
  unfold handler_queue, expected_calls, queue_calls. rewrite flat_map_app. fold (secondary e). f_equal.
  - destruct (secondary e); [by rewrite andb_false_r|]. rewrite andb_true_r. destruct (delegateCount q =? 0) eqn:E0; cbn [negb].
    + symmetry. apply flat_map_none. apply Forall_forall. intros cur _. rewrite <- Hdel. unfold delegates_at.
      apply Nat.eqb_eq in E0. rewrite E0. by destruct (_ && _).
    + destruct (target e) as [t|]; [|done]. rewrite flat_map_flat_map. apply flat_map_same, Forall_forall. intros cur _. apply Hdel.
  - rewrite Hdirect, E, Hc, length_app, drop_app_length. destruct (Nat.ltb_spec (length ds) (length ds + length fs)) as [_|Hl].
    + cbn [flat_map fst snd]. apply app_nil_r.
    + destruct fs; [done|simpl in Hl; lia].
Qed.

End Calls.

(** ** Detaching what was attached *)
Lemma delete_type_none type (evs : Events) : assoc type evs = None → delete_type type evs = evs.
Proof.
  induction evs as [|[t q] evs IH]; [done|]. simpl. destruct (String.eqb type t) eqn:E; [done|]. intros H.
  rewrite String.eqb_sym in E. unfold delete_type in *. simpl. rewrite E. simpl. by rewrite IH.
Qed.
Lemma delete_type_set type q (evs : Events) : assoc type evs = None → delete_type type (assoc_set type q evs) = evs.
Proof.
  induction evs as [|[t q'] evs IH]; intros H.
  - unfold delete_type. simpl. by rewrite String.eqb_refl.
  - simpl in H. destruct (String.eqb type t) eqn:E; [done|]. simpl. rewrite E. rewrite String.eqb_sym in E.
    unfold delete_type in *. simpl. rewrite E. simpl. by rewrite IH.
Qed.
Lemma assoc_set_new type q (evs : Events) : assoc type evs = None → assoc_set type q evs = evs ++ [(type, q)].
Proof.
  induction evs as [|[t q'] evs IH]; [done|]. simpl. destruct (String.eqb type t); [done|]. intros H. by rewrite IH.
Qed.
(** The handler that was put in a queue is taken out again. *)
Lemma removed_enqueue p sel h q :
  delegateCount q ≤ length (handlers q) → selector h = sel → p h = true → (∀ h', h' ∈ handlers q → p h' = false) →
  removed p (enqueue sel h q) = q.
Proof.
  intros Hc <- Hp Hq. unfold removed, enqueue.
  assert (H1 : ∀ l, (∀ h', h' ∈ l → h' ∈ handlers q) → List.filter (λ h, negb (p h)) l = l).
  { intros l Hl. apply filter_all. intros x Hx. by rewrite Hq by auto. }
  assert (H2 : ∀ l, (∀ h', h' ∈ l → h' ∈ handlers q) → List.filter (λ h, p h && nonempty (selector h)) l = []).
  { intros l Hl. apply filter_none. intros x Hx. by rewrite Hq by auto. }
  assert (Ht : ∀ h', h' ∈ take (delegateCount q) (handlers q) → h' ∈ handlers q)
    by (intros h' Hh; rewrite <- (take_drop (delegateCount q)); apply elem_of_app; by left).
  assert (Hd : ∀ h', h' ∈ drop (delegateCount q) (handlers q) → h' ∈ handlers q)
    by (intros h' Hh; rewrite <- (take_drop (delegateCount q)); apply elem_of_app; by right).
  destruct q as [hs n]. simpl in *. destruct (nonempty (selector h)) eqn:Es; simpl.
  - rewrite !List.filter_app. cbn [List.filter]. rewrite Hp, Es. cbn [negb andb]. rewrite !H1, !H2 by done.
    simpl. rewrite take_drop. f_equal. lia.
  - rewrite !List.filter_app. cbn [List.filter]. rewrite Hp, Es. cbn [negb andb]. rewrite !H1, !H2 by done.
    simpl. rewrite app_nil_r. f_equal. lia.
Qed.

Section Undo.
Context {P : Browser}.
(** The state after a function that is new is attached: what its type had then. *)
Definition new_handler (type tok : string) (data sel : option string) (f : nat) (once : bool) (g : nat) : HandleObj :=
  mkHandleObj type (type_part tok) data (UserFn f once) g sel (Some (join_dots (namespaces_of tok))).
Record added (elem : nat) (type : string) (h : HandleObj) (s s1 : Registry) (q0 : Queue) : Prop := {
  ad_events e : events_at e s1 = if decide (e = elem) then assoc_set type (enqueue (selector h) h q0) (events_at elem s) else events_at e s;
  ad_listeners : listeners s1 = listeners s ++ (if captured type || bool_decide (has_type elem type s) then [] else [(elem, type)]);
  ad_attaches : attaches s1 = if captured type && negb (bool_decide (has_type elem type s))
                              then attaches (setup_capture elem type s) else attaches s;
  ad_captures : captures s1 = if captured type && negb (bool_decide (has_type elem type s))
                              then captures (setup_capture elem type s) else captures s
}.
Lemma add_fresh elem types tok f once data sel s :
  accepts elem = true → words types = [tok] → type_part tok ≠ ""%string → guids s !! f = None →
  (∀ x, sel = Some x → valid_selector x = true) →
  let type := mapped_type sel (type_part tok) in
  let ho := new_handler type tok data sel f once (guid s) in
  let s1 := snd (add elem types f once data sel s) in
  guids s1 !! f = Some (guid s) ∧ is_Some (events s1 !! elem) ∧
  ∃ q0, added elem type ho s s1 q0 ∧
    (assoc type (events_at elem s) = Some q0 ∨
     assoc type (events_at elem s) = None ∧
       q0 = if leverages elem type then mkQueue [mkHandleObj type type None (Controller type) (S (guid s)) None None] 0 else empty_queue).
Proof.
  intros Hacc Hw Htype Hf Hsel type ho s1. unfold s1, add. rewrite Hacc. cbn [negb].
  replace (nonempty sel && _) with false
    by (destruct sel as [x|]; [|done]; by rewrite (Hsel x), andb_false_r).
  unfold modify. cbn [snd]. unfold ensure_guid. rewrite Hf, Hw. cbn [rev app fold_left].
  set (sg := mkRegistry _ _ _ _ _ _ _ _). set (s0 := set_events _ sg). assert (H0 : ∀ e, events_at e s0 = events_at e s).
  { intros e. unfold s0. rewrite (events_at_insert elem e). by case_decide as E; [rewrite E|]. }
  unfold add_one. rewrite (proj2 (String.eqb_neq _ _) Htype). fold type. fold (new_handler type tok data sel f once (guid s)). fold ho. rewrite H0.
  assert (Hg0 : guids s0 !! f = Some (guid s)) by apply lookup_insert_eq.
  destruct (assoc type (events_at elem s)) as [q|] eqn:E.
  - assert (Hht : has_type elem type s) by (unfold has_type; by rewrite E).
    split; [exact Hg0|]. split; [simpl; rewrite lookup_insert_eq; by eexists|].
    exists q. split; [|by left]. split; rewrite ?bool_decide_eq_true_2 by done; rewrite ?orb_true_r, ?andb_false_r, ?app_nil_r; try done.
    intros e. rewrite attach_at. change (ho_type ho) with type. change (selector ho) with sel. rewrite !H0.
    unfold queue_at. by rewrite H0, E.
  - assert (Hht : ¬ has_type elem type s) by (unfold has_type; rewrite E; by intros []).
    destruct (setup_set_up elem type s0) as [S1 S2 S3 S4 S5 S6 S7].
    destruct (attach_same elem ho (setup elem type s0)) as (A1 & A2 & A3 & A4 & A5 & A6).
    split; [by rewrite A4, S5|]. split; [simpl; rewrite lookup_insert_eq; by eexists|].
    exists (first_queue elem type s0). split; [|right; split; [done|]].
    + split; rewrite ?bool_decide_eq_false_2 by done; rewrite ?orb_false_r, ?andb_true_r.
      * intros e. rewrite attach_at. change (ho_type ho) with type. unfold queue_at. rewrite !S1, !H0.
        rewrite (decide_True (P := elem = elem)), assoc_set_eq by done. cbn [default]. case_decide; [|done]. by rewrite assoc_set_set.
      * by rewrite A1, S2.
      * rewrite A2, S3. destruct (captured type); [|done]. unfold setup_capture. change (attaches s0) with (attaches s). by destruct (_ =? 0).
      * rewrite A3, S4. destruct (captured type); [|done]. unfold setup_capture. change (attaches s0) with (attaches s). by destruct (_ =? 0).
    + unfold first_queue. by destruct (leverages elem type).
Qed.
Lemma new_handler_matches type tok data sel f once g :
  matches false (type_part tok) (Some (Some g)) (if String.eqb (after_dot tok) "" then None else Some (namespaces_of tok)) sel
    (new_handler type tok data sel f once g) = true.
Proof.
  unfold matches, new_handler, namespace_text. cbn [origType ho_guid namespace selector orb default].
  rewrite String.eqb_refl, !bool_decide_eq_true_2 by done. rewrite orb_true_r. cbn [andb orb]. rewrite andb_true_r.
  destruct (String.eqb _ ""); [done|]. apply rnamespace_own.
Qed.
(** The teardown of a capture undoes its setup. *)
Lemma teardown_setup elem type s s1 : captures_ok s → captured type = true →
  attaches s1 = attaches (setup_capture elem type s) → captures s1 = captures (setup_capture elem type s) →
  attaches (teardown_capture elem type s1) = attaches s ∧ captures (teardown_capture elem type s1) = captures s.
Proof.
  intros [H1 H2 H3 H4] Hc. unfold setup_capture. set (k := (doc_of elem, type)).
  assert (Hn : ∀ n, attaches s !! k = Some n → n ≠ 0) by (intros n ?%H1; lia).
  intros Ha Hcap. assert (Ea : attaches s1 = <[k := S (default 0 (attaches s !! k))]> (attaches s)) by (rewrite Ha; by destruct (_ =? 0)).
  clear Ha. unfold teardown_capture. fold k. rewrite Ea, lookup_insert_eq. 
  destruct (attaches s !! k) as [n|] eqn:E; simpl in *.
  - rewrite (proj2 (Nat.eqb_neq n 0) (Hn n eq_refl)) in *. simpl in *. split; [|done].
    rewrite Ea, insert_insert_eq. by apply insert_id.
  - split; [rewrite Ea, delete_insert_eq; by apply delete_id|]. rewrite Hcap, List.filter_app. cbn [List.filter].
    rewrite bool_decide_eq_true_2 by done. cbn [negb]. rewrite app_nil_r. apply filter_all. intros p Hp.
    rewrite bool_decide_eq_false_2; [done|]. intros ->. apply H3 in Hp; [|done]. fold k in Hp. rewrite E in Hp. by destruct Hp.
Qed.

(** C40. [off] undoes [on]: when a function that was never attached is attached to an
    element for a type, with any namespaces, data and selector, and then detached in the
    same words, the handlers of every element and the listeners are those of before, and so
    are the captures of the documents, unless the type is focus or blur with a selector:
    then the code forgets the teardown.  Only when these were the first handlers of a type
    whose native event is leveraged (focus and blur without a selector, click of a checkbox
    or radio button), the controller stays, with its listener. *)
Theorem off_undoes_on elem types tok f once data sel s :
  reg_ok s → accepts elem = true → words types = [tok] → type_part tok ≠ ""%string → guids s !! f = None →
  (∀ x, sel = Some x → valid_selector x = true) →
  let type := mapped_type sel (type_part tok) in
  let s2 := remove elem types (Some f) sel (snd (add elem types f once data sel s)) in
  (if leverages elem type && negb (bool_decide (has_type elem type s)) then
     (∀ e, events_at e s2 = events_at e s ++
        (if decide (e = elem) then [(type, mkQueue [mkHandleObj type type None (Controller type) (S (guid s)) None None] 0)] else [])) ∧
     listeners s2 = listeners s ++ [(elem, type)]
   else (∀ e, events_at e s2 = events_at e s) ∧ listeners s2 = listeners s) ∧
  (captured type = false ∨ type_part tok = type → attaches s2 = attaches s ∧ captures s2 = captures s).
Proof.
  intros Hs Hacc Hw Htype Hf Hsel type. set (s1 := snd (add elem types f once data sel s)). intros s2.
  set (ho := new_handler type tok data sel f once (guid s)).
  destruct (add_fresh elem types tok f once data sel s) as (Hg & [evs Hevs] & q & [Hev Hl Ha Hcp] & Hq); [done..|].
  fold s1 type ho in Hg, Hevs, Hev, Hl, Ha, Hcp, Hq. change (selector ho) with sel in Hev.
  assert (Hold : ∀ h', h' ∈ handlers q → ho_guid h' ≠ guid s).
  { intros h' Hh'. destruct Hq as [Hq|[_ ->]].
    - apply assoc_in_events in Hq. pose proof (ok_handlers s Hs elem type q h' Hq Hh') as Hh. unfold guid_ok in Hh.
      destruct (handler h'); [pose proof (ok_guids s Hs _ _ Hh)|]; lia.
    - destruct (leverages elem type); [|by apply elem_of_nil in Hh']. apply list_elem_of_singleton in Hh' as ->. simpl. lia. }
  assert (Hcount : delegateCount q ≤ length (handlers q)).
  { destruct Hq as [Hq|[_ ->]]; [|destruct (leverages elem type); simpl; lia]. apply assoc_in_events in Hq.
    destruct (proj2 (ok_events s Hs elem) _ _ Hq) as [(ds & fs & -> & -> & _) _ _]. rewrite length_app. lia. }
  set (ns := if String.eqb (after_dot tok) "" then None else Some (namespaces_of tok)).
  set (p := matches false (type_part tok) (Some (Some (guid s))) ns sel).
  assert (Hr : removed p (enqueue sel ho q) = q).
  { apply removed_enqueue; [done|done|apply new_handler_matches|]. intros h' Hh'. unfold p, matches.
    rewrite (bool_decide_eq_false_2 (Some (guid s) = Some (ho_guid h'))); [by rewrite andb_false_r|].
    intros [= E]. by apply (Hold h' Hh'). }
  assert (E2 : s2 = tidy elem (if length (handlers q) =? 0 then
      set_events (λ m, <[elem := delete_type type (events_at elem s1)]> m) (teardown elem (type_part tok) type s1)
    else put_queue elem type q s1)).
  { unfold s2, remove. rewrite Hevs, Hw. cbn [rev app fold_left option_map]. rewrite Hg. unfold remove_word.
    rewrite (proj2 (String.eqb_neq _ _) Htype). unfold remove_named. fold type ns p.
    rewrite (Hev elem), decide_True, assoc_set_eq, Hr by done.
    assert (negb (length (handlers (enqueue sel ho q)) =? 0) = true) as ->; [|done].
    unfold enqueue. destruct (nonempty sel); simpl; rewrite length_app; simpl; by rewrite Nat.add_succ_r. }
  set (s3 := if length (handlers q) =? 0 then _ else _) in E2. destruct (tidy_same elem s3) as (T1 & T2 & T3 & _).
  rewrite <- E2 in T1, T2, T3. rewrite T1, T2, T3.
  assert (Hevs2 : ∀ e, events_at e s2 = events_at e s3) by (intros e; rewrite E2; apply tidy_at). clear E2 T1 T2 T3. unfold s3 in *. clear s3.
  destruct Hq as [Hq|[Hq Eq]].
  - (* the type had handlers *)
    assert (Hht : has_type elem type s) by (unfold has_type; by rewrite Hq).
    rewrite !bool_decide_eq_true_2 in * by done. rewrite ?andb_false_r, ?orb_true_r in *. cbn [negb]. 
    apply assoc_in_events in Hq as Hin. pose proof (q_nonempty _ _ _ (proj2 (ok_events s Hs elem) _ _ Hin)) as Hqn.
    rewrite (proj2 (Nat.eqb_neq _ _)) in * by (by destruct (handlers q)).
    split; [split|].
    + intros e. rewrite Hevs2, events_at_put, !Hev. destruct (decide (e = elem)) as [->|]; [|done].
      rewrite decide_True, assoc_set_set by done. by apply assoc_set_id.
    + simpl. by rewrite Hl, app_nil_r.
    + intros _. simpl. by rewrite Ha, Hcp.
  - (* it was the first *)
    assert (Hht : ¬ has_type elem type s) by (unfold has_type; rewrite Hq; by intros []).
    rewrite !bool_decide_eq_false_2 in * by done. rewrite ?andb_true_r, ?orb_false_r in *. subst q.
    destruct (leverages elem type) eqn:El.
    + (* the controller stays *)
      cbn [negb andb handlers length Nat.eqb] in *. rewrite (leverages_not_captured _ _ El) in *. cbn [negb andb orb] in *. split; [split|].
      * intros e. rewrite Hevs2, events_at_put, !Hev. destruct (decide (e = elem)) as [->|]; [|by rewrite app_nil_r].
        rewrite decide_True, assoc_set_set by done. by apply assoc_set_new.
      * exact Hl.
      * intros _. simpl. by rewrite Ha, Hcp.
    + cbn [handlers empty_queue length Nat.eqb andb] in *.
      destruct (teardown_same elem (type_part tok) type s1) as (T1 & _ & _ & _ & T5 & T6 & T7). split; [split|].
      * intros e. rewrite Hevs2, (events_at_insert elem e). rewrite !Hev, (decide_True (P := elem = elem)) by done.
        destruct (decide (e = elem)) as [->|]; [by apply delete_type_set|]. unfold events_at at 1. rewrite T1.
        fold (events_at e s1). by rewrite Hev, decide_False.
      * change (listeners (set_events _ ?x)) with (listeners x). rewrite T5, Hl.
        destruct (captured type) eqn:Ec; cbn [negb].
        { rewrite app_nil_r. destruct (captured (type_part tok)); [done|]. apply filter_all. intros x Hx.
          rewrite bool_decide_eq_false_2; [done|]. intros ->. by apply (ok_listeners s Hs) in Hx as [? _]; congruence. }
        destruct (captured (type_part tok)) eqn:Eo.
        { pose proof (captured_mapped sel _ Eo) as Et. fold type in Et. congruence. }
        rewrite List.filter_app. cbn [List.filter]. rewrite bool_decide_eq_true_2 by done. cbn [negb]. rewrite app_nil_r.
        apply filter_all. intros x Hx. rewrite bool_decide_eq_false_2; [done|]. intros ->. by apply (ok_listeners s Hs) in Hx as [_ ?].
      * change (attaches (set_events _ ?x)) with (attaches x). change (captures (set_events _ ?x)) with (captures x). rewrite T6, T7.
        destruct (captured type) eqn:Ec; cbn [andb negb] in Ha, Hcp.
        -- intros [|Et]; [done|]. rewrite Et, Ec. by apply (teardown_setup elem type s); [apply Hs|..].
        -- intros _. destruct (captured (type_part tok)) eqn:Eo; [|by rewrite Ha, Hcp].
           pose proof (captured_mapped sel _ Eo) as Et. fold type in Et. congruence.
Qed.
End Undo.

(** ** A page *)
(** A document (0) with a list (1), in it an entry (2), a checkbox (3) and a text field (4); 9
    is the window.  Function 2 detaches 3 from the list and triggers a ping, 3 and 5 only run,
    4 stops the event.  The browser supports focusin or not. *)
Section Demo.
Definition page (supported : bool) : Browser := {|
  parents n := match n with 0 | 9 => [] | 1 => [0] | _ => [1; 0] end;
  isElement n := negb (Nat.eqb n 0) && negb (Nat.eqb n 9); isText _ := false; accepts _ := true; disabled _ := false;
  isWindow n := Nat.eqb n 9; ownerDocument n := if Nat.eqb n 0 then None else Some 0; defaultView _ := 9; windowDocument _ := 0;
  document := 0; checkable n := Nat.eqb n 3; isLink _ := false; focusin := supported;
  valid_selector _ := true; find t _ cur := String.eqb t "li" && Nat.eqb cur 2; contains _ _ := false;
  inline _ _ := false;
  method n t := Nat.eqb n 3 && String.eqb t "click" || Nat.eqb n 4 && String.eqb t "focus";
  activeElement _ := None;
  fires _ n t := ([mkFired t n (if String.eqb t "click" then [n; 1; 0; 9] else [n]) (Some 0%Z) None], Ret tt);
  user _ f _ _ :=
    match f with
    | 2 => Do (AOff 1 (TText "click") ANone (AFun 3)) (λ _, Do (ATrigger (SType "ping") 2 false) (λ _, Done (Ret RUndef)))
    | 4 => Do AStop (λ _, Done (Ret RUndef))
    | _ => Done (Ret RUndef)
    end
|}.
Definition page_on {P : Browser} (elem : nat) (types : string) (sel data : arg) (x : St) : St :=
  snd (in_reg (on [elem] (TText types) sel data ANone false) x).
Lemma page_on_ok {P : Browser} elem types sel data x : reg_ok (reg x) → reg_ok (reg (page_on elem types sel data x)).
Proof.
  intros H. pose proof (on_ok [elem] (TText types) sel data ANone false (reg x) H) as H1. unfold page_on, in_reg.
  by destruct (on _ _ _ _ _ _ _).
Qed.
#[local] Instance modern : Browser := page true.
Definition page_state : St :=
  page_on 2 "ping" (AFun 5) ANone (page_on 1 "click.b.a" (AFun 3) ANone (page_on 1 "click" (AText "li") (AFun 2) no_events)).
Lemma page_state_steps : rtc event_step no_events page_state.
Proof.
  eapply rtc_l; [apply (step_on [1] (TText "click") (AText "li") (AFun 2) ANone false)|].
  eapply rtc_l; [apply (step_on [1] (TText "click.b.a") (AFun 3) ANone ANone false)|].
  apply rtc_once, (step_on [2] (TText "ping") (AFun 5) ANone ANone false).
Defined.
Lemma page_state_ok : reg_ok (reg page_state).
Proof. apply page_on_ok, page_on_ok, page_on_ok, no_events_ok. Qed.
(** A click on the entry: the first handler detaches the second, which runs still, and
    triggers a ping one level deeper. *)
Definition page_trigger : St := snd (trigger (levels 2) (TrigType "click") 2 false page_state).
Lemma events_stay_ok_witness :
  log page_trigger = [LCall 2 2 2 "click"; LCall 1 5 2 "ping"; LCall 2 3 1 "click"]%string ∧
  map ho_guid (handlers (queue_at 1 "click" (reg page_trigger))) = [1] ∧
  rtc event_step no_events page_trigger ∧ reg_ok (reg page_trigger).
Proof.
  split; [vm_compute; reflexivity|]. split; [vm_compute; reflexivity|].
  assert (H : rtc event_step no_events page_trigger) by (eapply rtc_r; [apply page_state_steps|apply step_trigger]).
  split; [exact H|]. exact (events_stay_ok _ H).
Defined.
Definition page_click : Event :=
  mkEvent "click" (Some 2) None false (Some 0%Z) None 0 false false false None None (Some "b"%string) None None RUndef.
Definition clicked : St := snd (new_object page_click page_state).
Lemma off_undoes_on_witness :
  let s1 := snd (add 1 "click.b.a" 4 false None (Some "li"%string) (reg page_state)) in
  let s2 := remove 1 "click.b.a" (Some 4) (Some "li"%string) s1 in
  let t2 := remove 3 "click" (Some 4) None (snd (add 3 "click" 4 false None None (reg page_state))) in
  length (handlers (queue_at 1 "click" s1)) = 3 ∧
  (∀ e, events_at e s2 = events_at e (reg page_state)) ∧ listeners s2 = listeners (reg page_state) ∧
  listeners t2 = listeners (reg page_state) ++ [(3, "click"%string)].
Proof.
  intros s1 s2 t2. split; [vm_compute; reflexivity|].
  destruct (off_undoes_on 1 "click.b.a" "click.b.a" 4 false None (Some "li"%string) (reg page_state)) as [[H1 H2] _];
    [exact page_state_ok|reflexivity|reflexivity|discriminate|reflexivity|done|].
  split; [exact H1|]. split; [exact H2|].
  destruct (off_undoes_on 3 "click" "click" 4 false None None (reg page_state)) as [[_ H3] _];
    [exact page_state_ok|reflexivity|reflexivity|discriminate|reflexivity|done|exact H3].
Defined.
(** A click of a checkbox that is triggered: the controller fires the native click, whose
    handlers run when the state has changed, once. *)
Definition checkbox_state : St := page_on 1 "click" (AFun 3) ANone (page_on 3 "click" (AFun 5) ANone no_events).
Example checkbox_triggered : let x := snd (trigger (levels 5) (TrigType "click") 3 false checkbox_state) in
  log x = [LNative 4 3 "click"; LCall 3 5 3 "click"; LCall 3 3 1 "click"]%string ∧ leveraged (reg x) !! (3, "click"%string) = Some SFalse.
Proof. by vm_compute. Qed.
(** The same for the focus of a text field, when none of its handlers is there yet: the inner
    trigger calls the method once more, and this event is not handled again. *)
Example focus_triggered :
  log (snd (trigger (levels 5) (TrigType "focus") 4 false no_events)) = [LNative 4 4 "focus"; LNative 3 4 "focus"]%string.
Proof. by vm_compute. Qed.
End Demo.

(** Without support for focusin the document captures focus while there are handlers; the
    teardown of a delegated focus is forgotten, and the listener stays. *)
Section Old.
#[local] Instance old : Browser := page false.
Notation old_on types sel data := (snd (on [2] (TText types) sel data ANone false (reg no_events))) (only parsing).
Example focusin_captured :
  let s := old_on "focusin"%string (AFun 3) ANone in
  listeners s = [] ∧ captures s = [(0, "focus"%string)] ∧ captures (off [2] (TText "focusin") ANone (AFun 3) s) = [].
Proof. by vm_compute. Qed.
Example focusin_simulated :
  log (snd (fire_native (levels 2) (mkFired "focus" 2 [2] None None) (page_on 2 "focusin" (AFun 3) ANone no_events)))
  = [LCall 1 3 2 "focusin"]%string.
Proof. by vm_compute. Qed.
Lemma delegated_focus_leaks :
  let s := off [2] (TText "focus") (AText "li") (AFun 3) (old_on "focus"%string (AText "li") (AFun 3)) in
  events_at 2 s = [] ∧ listeners s = [] ∧ captures s = [(0, "focus"%string)].
Proof. by vm_compute. Qed.
End Old.
