(* ===== verification/JqAttr.v ===== *)
(** * jQuery attributes, classes and values

    Model of the attributes of jquery-3.5.1.js in an HTML document: [access], [attr] and
    [removeAttr] with boolean attributes, [addClass], [removeClass], [toggleClass] and
    [hasClass] with the texts they search, and [val] with its hooks for options, lists
    and boxes. *)
From Stdlib Require Import ZArith Lia Ascii String.
From stdpp Require Import base strings list gmap.
From S2P Require Import Prelude.
From S2P Require Import JsString.

(** ** Elements *)
Record Elem := mkElem {
  nodeName : string; nodeType : nat; attrs : list (string * string);
  className_saved : option string;      (* dataPriv: __className__ *)
  el_type : string; el_value : string; el_text : string;
  checked : bool; selected : bool; el_disabled : bool; parentNode : option nat;
  options : list nat
}.
Notation Doc := (gmap nat Elem).
Definition set_attrs (f : list (string * string) → list (string * string)) (e : Elem) : Elem :=
  mkElem (nodeName e) (nodeType e) (f (attrs e)) (className_saved e) (el_type e) (el_value e) (el_text e)
    (checked e) (selected e) (el_disabled e) (parentNode e) (options e).
Definition set_saved (c : string) (e : Elem) : Elem :=
  mkElem (nodeName e) (nodeType e) (attrs e) (Some c) (el_type e) (el_value e) (el_text e)
    (checked e) (selected e) (el_disabled e) (parentNode e) (options e).
Definition set_value (v : string) (e : Elem) : Elem :=
  mkElem (nodeName e) (nodeType e) (attrs e) (className_saved e) (el_type e) v (el_text e)
    (checked e) (selected e) (el_disabled e) (parentNode e) (options e).
Definition set_checked (b : bool) (e : Elem) : Elem :=
  mkElem (nodeName e) (nodeType e) (attrs e) (className_saved e) (el_type e) (el_value e) (el_text e)
    b (selected e) (el_disabled e) (parentNode e) (options e).
Definition set_selected (b : bool) (e : Elem) : Elem :=
  mkElem (nodeName e) (nodeType e) (attrs e) (className_saved e) (el_type e) (el_value e) (el_text e)
    (checked e) b (el_disabled e) (parentNode e) (options e).
(** Names of attributes are lower case in an HTML document. *)
Definition getAttribute (name : string) (e : Elem) : option string := assoc (toLowerCase name) (attrs e).
Definition setAttribute (name v : string) : Elem → Elem := set_attrs (assoc_set (toLowerCase name) v).
Definition removeAttribute (name : string) : Elem → Elem :=
  set_attrs (List.filter (λ p, negb (String.eqb (fst p) (toLowerCase name)))).

(** ** [access] *)
(** A value to set, or a function of the index and the present value. *)
Inductive setter (V : Type) := Raw (v : V) | Computed (f : nat → V → V).
#[global] Arguments Raw {_} _.
#[global] Arguments Computed {_} _.
(** No key, a name, or an object of names and values. *)
Inductive key (V : Type) := KAll | KName (name : string) | KMap (l : list (string * setter V)).
#[global] Arguments KAll {_}.
#[global] Arguments KName {_} _.
#[global] Arguments KMap {_} _.
Section Access.
Context {S V : Type}.
(** [fn]: reading and setting one element, and the whole set. *)
Context (get1 : nat → string → S → V) (set1 : nat → string → V → S → S).
Context (get_all : list nat → S → V) (set_all : list nat → V → S → S).
Fixpoint set_each (i : nat) (elems : list nat) (name : string) (v : setter V) (s : S) : S :=
  match elems with
  | [] => s
  | e :: elems' =>
      let x := match v with Raw x => x | Computed f => f i (get1 e name s) end in
      set_each (i + 1) elems' name v (set1 e name x s)
  end.
(** A function over the whole set is called for each element as a set of its own. *)
Fixpoint set_each_all (i : nat) (elems : list nat) (f : nat → V → V) (s : S) : S :=
  match elems with
  | [] => s
  | e :: elems' => set_each_all (i + 1) elems' f (set_all [e] (f i (get_all [e] s)) s)
  end.
Definition access (elems : list nat) (k : key V) (value : option (setter V)) (emptyGet : V) (s : S) : S * option V :=
  match k, value with
  | KMap l, _ => (fold_left (λ s p, set_each 0 elems (fst p) (snd p) s) l s, None)
  | KName name, Some v => (set_each 0 elems name v s, None)
  | KAll, Some (Raw v) => (set_all elems v s, None)
  | KAll, Some (Computed f) => (set_each_all 0 elems f s, None)
  | KAll, None => (s, Some (get_all elems s))
  | KName name, None => (s, Some (match elems with e :: _ => get1 e name s | [] => emptyGet end))
  end.
End Access.

(** ** [attr] *)
Inductive attr_value := AtUndef | AtNull | AtBool (b : bool) | AtText (s : string).
Definition attr_text (v : attr_value) : string :=
  match v with AtUndef => "undefined" | AtNull => "null" | AtBool true => "true" | AtBool false => "false" | AtText s => s end.
(** [jQuery.expr.match.bool] *)
Definition is_bool_attr (name : string) : bool :=
  existsb (String.eqb (toLowerCase name))
    ["checked"; "selected"; "async"; "autofocus"; "autoplay"; "controls"; "defer"; "disabled"; "hidden"; "ismap";
     "loop"; "multiple"; "open"; "readonly"; "required"; "scoped"]%string.
Definition no_attributes (e : Elem) : bool := existsb (Nat.eqb (nodeType e)) [3; 8; 2].
Definition removeAttr (names : string) (e : Elem) : Elem :=
  if nodeType e =? 1 then fold_left (λ e n, removeAttribute n e) (htmlwords names) e else e.
(** [boolHook] *)
Definition boolHook_set (v : attr_value) (name : string) (e : Elem) : Elem :=
  match v with AtBool false => removeAttr name e | _ => setAttribute name name e end.
(** [jQuery.find.attr] with the handles of boolean attributes. *)
Definition find_attr (name : string) (e : Elem) : option string :=
  if is_bool_attr name then option_map (λ _, toLowerCase name) (getAttribute name e) else getAttribute name e.
Definition attr_set (name : string) (v : attr_value) (e : Elem) : Elem :=
  if no_attributes e then e else
  match v with
  | AtUndef => e
  | AtNull => removeAttr name e
  | _ => if is_bool_attr name then boolHook_set v name e else setAttribute name (attr_text v) e
  end.
Definition attr_get (name : string) (e : Elem) : attr_value :=
  if no_attributes e then AtUndef else match find_attr name e with Some s => AtText s | None => AtUndef end.
Definition on_elem (i : nat) (f : Elem → Elem) (d : Doc) : Doc := alter f i d.
Definition fn_attr (elems : list nat) (k : key attr_value) (value : option (setter attr_value)) (d : Doc) : Doc * option attr_value :=
  access (λ i name d, match d !! i with Some e => attr_get name e | None => AtUndef end)
    (λ i name v, on_elem i (attr_set name v)) (λ _ _, AtUndef) (λ _ _ d, d) elems k value AtUndef d.
Definition fn_removeAttr (elems : list nat) (name : string) (d : Doc) : Doc :=
  fold_left (λ d i, on_elem i (removeAttr name) d) elems d.

(** ** Classes *)
Definition stripAndCollapse (value : string) : string := join " " (htmlwords value).
Definition getClass (e : Elem) : string := default ""%string (getAttribute "class" e).
(** A text of classes, or an array of them. *)
Inductive classArg := CText (s : string) | CList (l : list string).
Definition classesToArray (a : classArg) : list string := match a with CText s => htmlwords s | CList l => l end.
Definition contains_text (s t : string) : bool := match indexOf s t 0 with Some _ => true | None => false end.
Definition spaced_class (c : string) : string := (" " ++ c ++ " ")%string.
(** The loops end at an empty class of an array. *)
Fixpoint until_empty (l : list string) : list string :=
  match l with [] => [] | c :: l' => if String.eqb c "" then [] else c :: until_empty l' end.
Definition with_class (f : string → string) (e : Elem) : Elem :=
  if negb (nodeType e =? 1) then e else
  let curValue := getClass e in
  let finalValue := stripAndCollapse (f (spaced_class (stripAndCollapse curValue))) in
  if String.eqb curValue finalValue then e else setAttribute "class" finalValue e.
Definition add_text (classes : list string) (cur : string) : string :=
  fold_left (λ cur clazz, if contains_text cur (spaced_class clazz) then cur else (cur ++ clazz ++ " ")%string) classes cur.
(** [cur.replace] of the first occurrence. *)
Definition replace_first (t u s : string) : string :=
  match indexOf s t 0 with
  | Some i => (str_take i s ++ u ++ str_drop (i + str_length t) s)%string
  | None => s
  end.
(** The inner loop; every turn makes the text shorter. *)
Fixpoint remove_all (fuel : nat) (t cur : string) : string :=
  match fuel with
  | 0 => cur
  | S fuel' => if contains_text cur t then remove_all fuel' t (replace_first t " " cur) else cur
  end.
Definition remove_text (classes : list string) (cur : string) : string :=
  fold_left (λ cur clazz, remove_all (str_length cur) (spaced_class clazz) cur) classes cur.
Definition addClass (a : classArg) (e : Elem) : Elem :=
  match classesToArray a with [] => e | l => with_class (add_text (until_empty l)) e end.
Definition removeClass (a : classArg) (e : Elem) : Elem :=
  match classesToArray a with [] => e | l => with_class (remove_text (until_empty l)) e end.
Definition hasClass_elem (selector : string) (e : Elem) : bool :=
  (nodeType e =? 1) && contains_text (spaced_class (stripAndCollapse (getClass e))) (spaced_class selector).
Definition toggle_each (a : classArg) (e : Elem) : Elem :=
  fold_left (λ e c, if hasClass_elem c e then removeClass (CText c) e else addClass (CText c) e)
    (until_empty (classesToArray a)) e.
(** The whole class is put aside and brought back. *)
Definition toggle_whole (value : option bool) (e : Elem) : Elem :=
  let className := getClass e in
  let e := if String.eqb className "" then e else set_saved className e in
  setAttribute "class"
    (if negb (String.eqb className "") || bool_decide (value = Some false) then ""
     else default ""%string (className_saved e)) e.
Inductive toggleArg := TClasses (a : classArg) | TWhole (value : option bool).
Definition toggleClass (a : toggleArg) (stateVal : option bool) (e : Elem) : Elem :=
  match a, stateVal with
  | TClasses c, Some true => addClass c e
  | TClasses c, Some false => removeClass c e
  | TClasses c, None => toggle_each c e
  | TWhole v, _ => toggle_whole v e
  end.
(** The argument of a class method: classes, or a function that makes them from the index
    and the present class. *)
Inductive class_setter (A : Type) := Given (a : A) | Made (f : nat → string → A).
#[global] Arguments Given {_} _.
#[global] Arguments Made {_} _.
Definition made {A} (v : class_setter A) (i : nat) (e : Elem) : A :=
  match v with Given a => a | Made f => f i (getClass e) end.
(** [this.each] *)
Fixpoint each_elem_from (n : nat) (f : nat → Elem → Elem) (elems : list nat) (d : Doc) : Doc :=
  match elems with [] => d | i :: elems' => each_elem_from (S n) f elems' (on_elem i (f n) d) end.
Definition fn_addClass (elems : list nat) (v : class_setter classArg) : Doc → Doc :=
  each_elem_from 0 (λ i e, addClass (made v i e) e) elems.
Definition fn_removeClass (elems : list nat) (v : option (class_setter classArg)) (d : Doc) : Doc :=
  match v with
  | None => fst (fn_attr elems (KName "class") (Some (Raw (AtText ""))) d)
  | Some v => each_elem_from 0 (λ i e, removeClass (made v i e) e) elems d
  end.
Definition fn_toggleClass (elems : list nat) (v : class_setter toggleArg) (stateVal : option bool) : Doc → Doc :=
  each_elem_from 0 (λ i e, toggleClass (made v i e) stateVal e) elems.
Definition fn_hasClass (elems : list nat) (selector : string) (d : Doc) : bool :=
  existsb (λ i, match d !! i with Some e => hasClass_elem selector e | None => false end) elems.

(** ** [val] *)
Inductive val_result := VAbsent | VNone | VStr (s : string) | VMany (l : list string).
Definition option_value (e : Elem) : string :=
  match find_attr "value" e with Some v => v | None => stripAndCollapse (el_text e) end.
Definition drop_cr (s : string) : string := str_flat (λ c, if code c =? 13 then ""%string else String c "") s.
Definition plain_value (e : Elem) : string := drop_cr (el_value e).
Definition is_option (e : Elem) : bool := String.eqb (toLowerCase (nodeName e)) "option".
Definition is_select (e : Elem) : bool := String.eqb (toLowerCase (nodeName e)) "select".
(** The first selected option of a list. *)
Definition is_selected (d : Doc) (o : nat) : bool := match d !! o with Some oe => selected oe | None => false end.
Fixpoint first_selected (d : Doc) (i : Z) (l : list nat) : Z :=
  match l with [] => -1 | o :: l' => if is_selected d o then i else first_selected d (i + 1) l' end.
Definition selectedIndex (d : Doc) (e : Elem) : Z := first_selected d 0 (options e).
(** An option of a list that counts: selected, and neither it nor its group disabled. *)
Definition group_disabled (d : Doc) (o : Elem) : bool :=
  match parentNode o with
  | Some p => match d !! p with
              | Some pe => el_disabled pe && String.eqb (toLowerCase (nodeName pe)) "optgroup"
              | None => false
              end
  | None => false
  end.
Definition counts (d : Doc) (index : Z) (i : nat) (o : Elem) : bool :=
  (selected o || Z.eqb (Z.of_nat i) index) && negb (el_disabled o) && negb (group_disabled d o).
(** The options from the i-th up to [max]. *)
Fixpoint selected_values (d : Doc) (index : Z) (i : nat) (l : list nat) : list string :=
  match l with
  | [] => []
  | o :: l' =>
      match d !! o with
      | Some oe => if counts d index i oe then option_value oe :: selected_values d index (S i) l'
                   else selected_values d index (S i) l'
      | None => selected_values d index (S i) l'
      end
  end.
Definition select_get (d : Doc) (e : Elem) : val_result :=
  let index := selectedIndex d e in
  if String.eqb (el_type e) "select-one" then
    if Z.ltb index 0 then VNone else
    match selected_values d index (Z.to_nat index) (take 1 (drop (Z.to_nat index) (options e))) with
    | v :: _ => VStr v
    | [] => VNone
    end
  else if Z.ltb index 0 then VMany [] else VMany (selected_values d index 0 (options e)).
Definition val_get (elems : list nat) (d : Doc) : val_result :=
  match elems with
  | [] => VAbsent
  | i :: _ =>
      match d !! i with
      | None => VAbsent
      | Some e =>
          if is_option e then VStr (option_value e)
          else if is_select e then select_get d e
          else VStr (plain_value e)
      end
  end.
Definition values_of (v : val_result) : list string :=
  match v with VStr s => [s] | VMany l => l | VAbsent | VNone => [] end.
(** "option.selected = …": the browser deselects the others of a single list. (That it
    selects the first option when none is left is undone by what follows: another option
    is selected, or the list is cleared.) *)
Definition is_one (e : Elem) : bool := String.eqb (el_type e) "select-one".
Definition clear_options (l : list nat) (d : Doc) : Doc := fold_left (λ d o, on_elem o (set_selected false) d) l d.
Definition select_option (e : Elem) (b : bool) (o : nat) (d : Doc) : Doc :=
  on_elem o (set_selected b) (if is_one e && b then clear_options (options e) d else d).
(** [val] of a list: the options whose value is among the given ones. *)
Definition chosen (values : list string) (d : Doc) (o : nat) : bool :=
  match d !! o with Some oe => existsb (String.eqb (option_value oe)) values | None => false end.
Fixpoint choose_options (e : Elem) (values : list string) (l : list nat) (d : Doc) : Doc :=
  match l with [] => d | o :: l' => choose_options e values l' (select_option e (chosen values d o) o d) end.
Definition select_set (e : Elem) (values : list string) (d : Doc) : Doc :=
  let d' := choose_options e values (rev (options e)) d in
  if existsb (chosen values d) (options e) then d' else clear_options (options e) d'.
(** "this.value = …": the value of an option is its attribute. *)
Definition set_plain (v : string) (e : Elem) : Elem := if is_option e then setAttribute "value" v e else set_value v e.
Definition is_box (e : Elem) : bool := String.eqb (el_type e) "radio" || String.eqb (el_type e) "checkbox".
Definition val_set_one (i : nat) (v : val_result) (d : Doc) : Doc :=
  match d !! i with
  | None => d
  | Some e =>
      if negb (nodeType e =? 1) then d else
      let v := match v with VAbsent | VNone => VStr "" | v => v end in
      match v with
      | VMany l =>
          if is_box e then on_elem i (set_checked (existsb (String.eqb (plain_value e)) l)) d
          else if is_select e then select_set e l d
          else on_elem i (set_plain (join "," l)) d
      | _ =>
          if is_select e then select_set e (values_of v) d
          else on_elem i (set_plain (match v with VStr s => s | _ => ""%string end)) d
      end
  end.
(** A value for every element, or a function of its index and value. *)
Fixpoint val_set (n : nat) (elems : list nat) (v : setter val_result) (d : Doc) : Doc :=
  match elems with
  | [] => d
  | i :: elems' =>
      let x := match v with Raw x => x | Computed f => f n (val_get [i] d) end in
      val_set (S n) elems' v (val_set_one i x d)
  end.
