(* ===== verification/JqAttrProps.v ===== *)
(** * Facts of jQuery attributes and classes

    The texts that the class methods search and cut stand for lists of words, and on
    these the methods are the operations of sets. *)
From Stdlib Require Import ZArith Lia Ascii String.
From stdpp Require Import base strings list gmap.
From S2P Require Import Prelude.
From S2P Require Import JsString.
From S2P Require Import JqAttr.

(** ** Words and spaced texts *)
Definition plain (s : string) : bool := str_forall (λ a, negb (is_htmlwhite a)) s.
Definition class_word (c : string) : Prop := plain c = true ∧ c ≠ ""%string.
(** " a b c " *)
Fixpoint spaced (ts : list string) : string :=
  match ts with [] => " " | t :: ts' => " " ++ t ++ spaced ts' end.
Lemma words_of_plain cur w s :
  plain w = true → words_of is_htmlwhite cur (w ++ s) = words_of is_htmlwhite (cur ++ w) s.
Proof.
  revert cur. induction w as [|a w IH]; intros cur Hw; [by rewrite str_app_nil_l, str_app_nil_r|].
  unfold plain in *. simpl in Hw. apply andb_true_iff in Hw as [Ha Hw]. apply negb_true_iff in Ha.
  rewrite str_app_cons. cbn [words_of]. by rewrite Ha, IH, str_app_assoc.
Qed.
Lemma spaced_head ts : ∃ r, spaced ts = String " " r.
Proof. destruct ts as [|t ts]; [by exists ""%string|]. exists (t ++ spaced ts)%string. done. Qed.
Lemma words_of_spaced ts cur :
  Forall class_word ts → words_of is_htmlwhite cur (spaced ts) = (if String.eqb cur "" then [] else [cur]) ++ ts.
Proof.
  intros H. revert cur. induction H as [|t ts [Ht Hne] _ IH]; intros cur.
  - cbn [spaced words_of]. simpl. by rewrite app_nil_r.
  - cbn [spaced]. rewrite str_app_cons, str_app_nil_l. cbn [words_of].
    change (is_htmlwhite " ") with true. cbv iota. rewrite words_of_plain, str_app_nil_l, IH by done.
    by rewrite (proj2 (String.eqb_neq _ _) Hne).
Qed.
Lemma htmlwords_spaced ts : Forall class_word ts → htmlwords (spaced ts) = ts.
Proof. intros H. unfold htmlwords. by rewrite words_of_spaced. Qed.
Lemma htmlwords_pad s : htmlwords (String " " s) = htmlwords s.
Proof. done. Qed.
Lemma words_are_words s : Forall class_word (htmlwords s).
Proof.
  unfold htmlwords. assert (H : ∀ cur, plain cur = true → Forall class_word (words_of is_htmlwhite cur s)); [|by apply H].
  induction s as [|a s IH]; intros cur Hc; cbn [words_of].
  - destruct (String.eqb_spec cur ""); [constructor|]. by repeat constructor.
  - destruct (is_htmlwhite a) eqn:Ea.
    + apply Forall_app. split; [|by apply IH]. destruct (String.eqb_spec cur ""); [constructor|]. by repeat constructor.
    + apply IH. unfold plain in *. rewrite str_forall_app, Hc. simpl. by rewrite Ea.
Qed.
Lemma spaced_join ts : ts ≠ [] → spaced_class (join " " ts) = spaced ts.
Proof.
  intros Hne. unfold spaced_class, join. rewrite str_app_cons, str_app_nil_l. induction ts as [|t ts IH]; [done|].
  destruct ts as [|t' ts]; [done|]. cbn [spaced]. rewrite str_app_cons, str_app_nil_l. f_equal.
  change (String.concat " " (t :: t' :: ts)) with (t ++ " " ++ String.concat " " (t' :: ts))%string.
  rewrite !str_app_assoc. f_equal. specialize (IH ltac:(done)). cbn [spaced] in IH. by rewrite <- IH.
Qed.
(** The text stands for the words: with one more space in front when it was empty. *)
Definition stands_for (cur : string) (ts : list string) : Prop := cur = spaced ts ∨ cur = String " " (spaced ts).
Lemma stands_collapse s : stands_for (spaced_class (stripAndCollapse s)) (htmlwords s).
Proof.
  unfold stripAndCollapse. destruct (htmlwords s) as [|t ts]; [by right|]. left. by apply spaced_join.
Qed.
Lemma stands_words cur ts : Forall class_word ts → stands_for cur ts → htmlwords cur = ts.
Proof. intros H [->| ->]; rewrite ?htmlwords_pad; by apply htmlwords_spaced. Qed.
Lemma htmlwords_join ts : Forall class_word ts → htmlwords (join " " ts) = ts.
Proof.
  intros H. destruct ts as [|t ts]; [done|]. rewrite <- (htmlwords_spaced (t :: ts)) at 2 by done.
  rewrite <- spaced_join by done. unfold spaced_class. rewrite str_app_cons, str_app_nil_l, htmlwords_pad.
  unfold htmlwords. generalize (join " " (t :: ts)). intros s. assert (E : ∀ cur, words_of is_htmlwhite cur (s ++ " ") = words_of is_htmlwhite cur s); [|by rewrite E].
  induction s as [|a s IH]; intros cur; [rewrite str_app_nil_l; cbn; by destruct (String.eqb cur "")|]. rewrite str_app_cons. cbn [words_of].
  by rewrite !IH.
Qed.

(** ** Searching a spaced text *)
Lemma plain_not_space a w : plain (String a w) = true → Ascii.eqb a " " = false ∧ plain w = true.
Proof.
  unfold plain. simpl. intros [Ha Hw]%andb_true_iff. split; [|done]. destruct (Ascii.eqb_spec a " ") as [->|]; [|done].
  done.
Qed.
Lemma prefix_cons a b s t : String.prefix (String a s) (String b t) = Ascii.eqb a b && String.prefix s t.
Proof. simpl. destruct (ascii_dec a b) as [->|Hne]; [by rewrite Ascii.eqb_refl|]. by rewrite (proj2 (Ascii.eqb_neq _ _) Hne). Qed.
Lemma prefix_word c t r :
  plain c = true → plain t = true → String.prefix (c ++ " ") (t ++ String " " r) = String.eqb c t.
Proof.
  revert t. induction c as [|a c IH]; intros [|b t] Hc Ht.
  - rewrite !str_app_nil_l. by destruct r.
  - apply plain_not_space in Ht as [Hb _]. rewrite str_app_nil_l, str_app_cons, prefix_cons.
    rewrite Ascii.eqb_sym. by rewrite Hb.
  - apply plain_not_space in Hc as [Ha _]. rewrite str_app_cons, str_app_nil_l, prefix_cons. by rewrite Ha.
  - apply plain_not_space in Hc as [_ Hc]. apply plain_not_space in Ht as [_ Ht].
    rewrite !str_app_cons, prefix_cons, IH by done. cbn [String.eqb]. by destruct (Ascii.eqb a b).
Qed.
Lemma index_from_shift t s i : index_from t s i = option_map (Nat.add i) (index_from t s 0).
Proof.
  revert i. induction s as [|a s IH]; intros i; cbn [index_from]; destruct (String.prefix t _); simpl; rewrite ?Nat.add_0_r; try done.
  rewrite (IH (S i)), (IH 1). destruct (index_from t s 0); simpl; [f_equal; lia|done].
Qed.
(** A text that begins with a space is not found inside a word. *)
Lemma index_from_skip x w s : plain w = true →
  index_from (String " " x) (w ++ s) 0 = option_map (Nat.add (str_length w)) (index_from (String " " x) s 0).
Proof.
  induction w as [|a w IH]; intros Hw.
  - rewrite str_app_nil_l. cbn [str_length String.length]. by destruct (index_from _ s 0).
  - apply plain_not_space in Hw as [Ha Hw]. rewrite str_app_cons. cbn [index_from]. rewrite prefix_cons, Ascii.eqb_sym, Ha.
    cbn [andb]. rewrite index_from_shift, IH by done. destruct (index_from _ s 0); [|done]. simpl. done.
Qed.
Lemma index_spaced c t ts : class_word c → plain t = true →
  index_from (spaced_class c) (spaced (t :: ts)) 0
  = if String.eqb c t then Some 0 else option_map (λ n, S (str_length t) + n) (index_from (spaced_class c) (spaced ts) 0).
Proof.
  intros [Hc Hne] Ht. cbn [spaced]. unfold spaced_class. rewrite !str_app_cons, !str_app_nil_l.
  set (R := index_from _ (spaced ts) 0). destruct (spaced_head ts) as [r Er]. rewrite Er. cbn [index_from].
  rewrite prefix_cons, Ascii.eqb_refl. cbn [andb]. rewrite (prefix_word c t r Hc Ht).
  destruct (String.eqb c t); [done|]. rewrite index_from_shift, index_from_skip by done. rewrite <- Er. fold R.
  by destruct R.
Qed.
Lemma index_pad c s : class_word c →
  index_from (spaced_class c) (String " " (String " " s)) 0 = option_map S (index_from (spaced_class c) (String " " s) 0).
Proof.
  intros [Hc Hne]. unfold spaced_class. rewrite !str_app_cons, !str_app_nil_l.
  set (R := index_from _ (String " " s) 0). cbn [index_from]. rewrite prefix_cons.
  destruct c as [|a c]; [done|]. apply plain_not_space in Hc as [Ha _].
  assert (E : String.prefix (String a c ++ " ") (String " " s) = false)
    by (rewrite str_app_cons, prefix_cons; by rewrite Ha).
  rewrite E, andb_false_r. change (if String.prefix _ (String " " s) then Some 1 else _)
    with (index_from (String " " (String a c ++ " ")) (String " " s) 1).
  rewrite index_from_shift. fold R. by destruct R.
Qed.
Lemma index_end c : class_word c → index_from (spaced_class c) (spaced []) 0 = None.
Proof.
  intros [Hc Hne]. destruct c as [|a c]; [done|]. unfold spaced_class. cbn [spaced index_from].
  rewrite !str_app_cons, !str_app_nil_l, prefix_cons. by destruct (Ascii.eqb " " " ").
Qed.
Lemma contains_spaced c ts : class_word c → Forall class_word ts →
  contains_text (spaced ts) (spaced_class c) = existsb (String.eqb c) ts.
Proof.
  intros Hc H. unfold contains_text, indexOf. cbn [str_drop]. induction H as [|t ts [Ht _] _ IH].
  - by rewrite index_end.
  - rewrite index_spaced by done. cbn [existsb]. destruct (String.eqb c t); [done|]. rewrite <- IH.
    by destruct (index_from _ (spaced ts) 0).
Qed.
Lemma contains_pad c ts : class_word c →
  contains_text (String " " (spaced ts)) (spaced_class c) = contains_text (spaced ts) (spaced_class c).
Proof.
  intros Hc. unfold contains_text, indexOf. cbn [str_drop]. destruct (spaced_head ts) as [r ->].
  rewrite index_pad by done. by destruct (index_from _ _ 0).
Qed.
Lemma contains_stands c cur ts : class_word c → Forall class_word ts → stands_for cur ts →
  contains_text cur (spaced_class c) = existsb (String.eqb c) ts.
Proof. intros Hc H [->| ->]; rewrite ?contains_pad by done; by apply contains_spaced. Qed.

(** ** Cutting a word out of a spaced text *)
Fixpoint drop_first (c : string) (ts : list string) : list string :=
  match ts with [] => [] | t :: ts' => if String.eqb c t then ts' else t :: drop_first c ts' end.
Lemma take_past_word w s n : str_take (str_length w + n) (w ++ s) = (w ++ str_take n s)%string.
Proof. induction w as [|a w IH]; [done|]. rewrite !str_app_cons. simpl. f_equal. apply IH. Qed.
Lemma drop_past_word w s n : str_drop (str_length w + n) (w ++ s) = str_drop n s.
Proof. induction w as [|a w IH]; [done|]. apply IH. Qed.
Lemma replace_spaced c ts : class_word c → Forall class_word ts →
  replace_first (spaced_class c) " " (spaced ts) = spaced (drop_first c ts).
Proof.
  intros Hc H. unfold replace_first, indexOf. cbn [str_drop]. induction H as [|t ts [Ht _] _ IH].
  - by rewrite index_end.
  - rewrite index_spaced by done. cbn [drop_first]. destruct (String.eqb_spec c t) as [->|].
    + destruct (spaced_head ts) as [r Er]. cbn [spaced str_take]. rewrite Er. unfold spaced_class.
      rewrite Nat.add_0_l, !str_app_cons, !str_app_nil_l. unfold str_length. cbn [String.length str_drop]. f_equal.
      change (String.length (t ++ " ")) with (str_length (t ++ " ")). rewrite str_app_length, drop_past_word. done.
    + cbn [spaced]. rewrite <- IH. destruct (index_from _ (spaced ts) 0) as [m|]; [|done]. cbn [option_map].
      rewrite !str_app_cons, !str_app_nil_l. rewrite !Nat.add_succ_l. cbn [str_take str_drop].
      rewrite <- (Nat.add_assoc (str_length t)), take_past_word, drop_past_word. by rewrite !str_app_cons, !str_app_assoc.
Qed.
Lemma replace_pad c ts : class_word c → contains_text (spaced ts) (spaced_class c) = true →
  replace_first (spaced_class c) " " (String " " (spaced ts)) = String " " (replace_first (spaced_class c) " " (spaced ts)).
Proof.
  unfold replace_first, contains_text, indexOf. cbn [str_drop]. intros Hc. destruct (spaced_head ts) as [r ->].
  rewrite index_pad by done. by destruct (index_from _ _ 0).
Qed.
Lemma replace_stands c cur ts : class_word c → Forall class_word ts → stands_for cur ts →
  existsb (String.eqb c) ts = true → stands_for (replace_first (spaced_class c) " " cur) (drop_first c ts).
Proof.
  intros Hc H Hs Hin. destruct Hs as [->| ->]; [left; by apply replace_spaced|right].
  rewrite replace_pad by (rewrite ?contains_spaced; done). f_equal. by apply replace_spaced.
Qed.
Lemma drop_first_words c ts : Forall class_word ts → Forall class_word (drop_first c ts).
Proof. induction 1; simpl; [constructor|]. destruct (String.eqb c x); [done|]. by constructor. Qed.
Definition without (c : string) (ts : list string) : list string := List.filter (λ t, negb (String.eqb c t)) ts.
Lemma without_drop c ts : without c (drop_first c ts) = without c ts.
Proof.
  unfold without. induction ts as [|t ts IH]; [done|]. simpl. destruct (String.eqb c t) eqn:E; simpl; [done|].
  rewrite E. simpl. by rewrite IH.
Qed.
Lemma without_absent c ts : existsb (String.eqb c) ts = false → without c ts = ts.
Proof.
  unfold without. induction ts as [|t ts IH]; [done|]. simpl. intros [E H]%orb_false_iff. rewrite E. simpl. by rewrite IH.
Qed.
Lemma without_words c ts : Forall class_word ts → Forall class_word (without c ts).
Proof. unfold without. induction 1; simpl; [constructor|]. destruct (String.eqb c x); simpl; [done|]. by constructor. Qed.
Lemma drop_first_length c ts : existsb (String.eqb c) ts = true → S (length (drop_first c ts)) = length ts.
Proof. induction ts as [|t ts IH]; simpl; [done|]. destruct (String.eqb c t); simpl; [done|]. intros H. by rewrite IH. Qed.
Lemma remove_all_stands c fuel cur ts : class_word c → Forall class_word ts → stands_for cur ts →
  length ts ≤ fuel → stands_for (remove_all fuel (spaced_class c) cur) (without c ts).
Proof.
  intros Hc. revert cur ts. induction fuel as [|fuel IH]; intros cur ts H Hs Hlen; cbn [remove_all].
  - destruct ts; [done|simpl in Hlen; lia].
  - rewrite (contains_stands c cur ts) by done. destruct (existsb (String.eqb c) ts) eqn:E.
    + rewrite <- without_drop. apply IH; [by apply drop_first_words|by apply replace_stands|].
      apply drop_first_length in E. lia.
    + by rewrite without_absent.
Qed.
Lemma spaced_length ts : length ts ≤ str_length (spaced ts).
Proof.
  induction ts as [|t ts IH]; cbn [spaced length]; [lia|]. rewrite !str_app_length. simpl. lia.
Qed.
Lemma stands_length cur ts : stands_for cur ts → length ts ≤ str_length cur.
Proof. pose proof (spaced_length ts). intros [->| ->]; [done|]. simpl. unfold str_length in *. lia. Qed.

(** ** Token lists: what the class methods promise *)
Definition classes_of (e : Elem) : list string := htmlwords (getClass e).
Definition has_token (c : string) (ts : list string) : bool := existsb (String.eqb c) ts.
Definition add_token (ts : list string) (c : string) : list string := if has_token c ts then ts else ts ++ [c].
Definition remove_token (ts : list string) (c : string) : list string := without c ts.
Definition toggle_token (ts : list string) (c : string) : list string :=
  if has_token c ts then remove_token ts c else add_token ts c.
Lemma spaced_snoc ts c : (spaced ts ++ c ++ " ")%string = spaced (ts ++ [c]).
Proof. induction ts as [|t ts IH]; [done|]. cbn [spaced app]. rewrite <- IH. by rewrite !str_app_assoc. Qed.
Lemma add_token_words ts c : class_word c → Forall class_word ts → Forall class_word (add_token ts c).
Proof. intros Hc H. unfold add_token. destruct (has_token c ts); [done|]. apply Forall_app. split; [done|]. by constructor. Qed.
(** A fold over the classes keeps the text standing for the words. *)
Lemma fold_stands (f : string → string → string) (g : list string → string → list string) cs cur ts :
  (∀ cur ts c, class_word c → Forall class_word ts → stands_for cur ts →
     stands_for (f cur c) (g ts c) ∧ Forall class_word (g ts c)) →
  Forall class_word cs → Forall class_word ts → stands_for cur ts →
  stands_for (fold_left f cs cur) (fold_left g cs ts) ∧ Forall class_word (fold_left g cs ts).
Proof.
  intros Hstep Hcs. revert cur ts. induction Hcs as [|c cs Hc _ IH]; intros cur ts H Hs; [done|].
  destruct (Hstep cur ts c Hc H Hs). by apply IH.
Qed.
Lemma add_text_stands cs cur ts : Forall class_word cs → Forall class_word ts → stands_for cur ts →
  stands_for (add_text cs cur) (fold_left add_token cs ts) ∧ Forall class_word (fold_left add_token cs ts).
Proof.
  apply fold_stands. clear. intros cur ts c Hc H Hs. split; [|by apply add_token_words].
  rewrite (contains_stands c cur ts) by done. unfold add_token, has_token. destruct (existsb (String.eqb c) ts); [done|].
  destruct Hs as [->| ->]; [left|right]; rewrite ?str_app_cons; by rewrite spaced_snoc.
Qed.
Lemma remove_text_stands cs cur ts : Forall class_word cs → Forall class_word ts → stands_for cur ts →
  stands_for (remove_text cs cur) (fold_left remove_token cs ts) ∧ Forall class_word (fold_left remove_token cs ts).
Proof.
  apply fold_stands. clear. intros cur ts c Hc H Hs. split; [|by apply without_words].
  apply remove_all_stands; [done..|]. by apply stands_length.
Qed.
Lemma getClass_set v e : getClass (setAttribute "class" v e) = v.
Proof. unfold getClass, getAttribute, setAttribute. simpl. by rewrite assoc_set_eq. Qed.
Lemma with_class_words f e ts : nodeType e = 1 → Forall class_word ts →
  stands_for (f (spaced_class (stripAndCollapse (getClass e)))) ts → classes_of (with_class f e) = ts.
Proof.
  intros Hn H Hs. unfold with_class, classes_of. rewrite Hn. cbn [Nat.eqb negb].
  set (cur := f _) in *.
  assert (E : htmlwords (stripAndCollapse cur) = ts).
  { unfold stripAndCollapse. rewrite (stands_words cur ts H Hs). by apply htmlwords_join. }
  destruct (String.eqb_spec (getClass e) (stripAndCollapse cur)) as [Eq|].
  - by rewrite Eq.
  - by rewrite getClass_set.
Qed.
Lemma with_class_type f e : nodeType (with_class f e) = nodeType e.
Proof. unfold with_class. destruct (negb _); [done|]. by destruct (String.eqb _ _). Qed.
(** The classes of an argument: those of a text always are words. *)
Definition classes_arg (a : classArg) : Prop := Forall class_word (classesToArray a).
Lemma text_classes s : classes_arg (CText s).
Proof. apply words_are_words. Qed.
Lemma until_words cs : Forall class_word cs → until_empty cs = cs.
Proof. induction 1 as [|c cs [_ Hc] _ IH]; [done|]. simpl. rewrite (proj2 (String.eqb_neq _ _) Hc). by rewrite IH. Qed.

Lemma addClass_tokens a e : nodeType e = 1 → classes_arg a →
  classes_of (addClass a e) = fold_left add_token (classesToArray a) (classes_of e) ∧ nodeType (addClass a e) = 1.
Proof.
  intros Hn Ha. unfold addClass. unfold classes_arg in Ha. destruct (classesToArray a) as [|c cs]; [done|].
  rewrite until_words, with_class_type by done. split; [|done].
  destruct (add_text_stands (c :: cs) _ (classes_of e) Ha (words_are_words _) (stands_collapse _)).
  by apply with_class_words.
Qed.
Lemma removeClass_tokens a e : nodeType e = 1 → classes_arg a →
  classes_of (removeClass a e) = fold_left remove_token (classesToArray a) (classes_of e) ∧ nodeType (removeClass a e) = 1.
Proof.
  intros Hn Ha. unfold removeClass. unfold classes_arg in Ha. destruct (classesToArray a) as [|c cs]; [done|].
  rewrite until_words, with_class_type by done. split; [|done].
  destruct (remove_text_stands (c :: cs) _ (classes_of e) Ha (words_are_words _) (stands_collapse _)).
  by apply with_class_words.
Qed.
Lemma hasClass_token c e : nodeType e = 1 → class_word c → hasClass_elem c e = has_token c (classes_of e).
Proof.
  intros Hn Hc. unfold hasClass_elem. rewrite Hn. cbn [Nat.eqb andb].
  apply contains_stands; [done|apply words_are_words|apply stands_collapse].
Qed.
(** A class given as a text is that one class. *)
Lemma text_of_word c : class_word c → htmlwords c = [c].
Proof. intros Hc. apply (htmlwords_join [c]). by constructor. Qed.
Lemma toggle_tokens a e : nodeType e = 1 → classes_arg a →
  classes_of (toggle_each a e) = fold_left toggle_token (classesToArray a) (classes_of e) ∧ nodeType (toggle_each a e) = 1.
Proof.
  intros Hn Ha. unfold toggle_each. unfold classes_arg in Ha. rewrite until_words by done. revert e Hn.
  induction Ha as [|c cs Hc _ IH]; intros e Hn; [done|]. cbn [fold_left].
  rewrite (hasClass_token c e) by done. unfold toggle_token at 2.
  destruct (addClass_tokens (CText c) e Hn (text_classes c)) as [A1 A2].
  destruct (removeClass_tokens (CText c) e Hn (text_classes c)) as [R1 R2].
  cbn [classesToArray] in A1, R1. rewrite text_of_word in A1, R1 by done. cbn [fold_left] in A1, R1.
  destruct (has_token c (classes_of e)); [rewrite <- R1|rewrite <- A1]; by apply IH.
Qed.
(** What a call of a class method asks of a list of tokens. *)
Inductive class_call := CallAdd (a : classArg) | CallRemove (a : classArg) | CallToggle (a : classArg) (state : option bool).
Definition call_arg (x : class_call) : classArg := match x with CallAdd a | CallRemove a | CallToggle a _ => a end.
Definition run_call (x : class_call) (e : Elem) : Elem :=
  match x with
  | CallAdd a => addClass a e
  | CallRemove a => removeClass a e
  | CallToggle a s => toggleClass (TClasses a) s e
  end.
Definition token_call (x : class_call) (ts : list string) : list string :=
  fold_left match x with
            | CallAdd _ | CallToggle _ (Some true) => add_token
            | CallRemove _ | CallToggle _ (Some false) => remove_token
            | CallToggle _ None => toggle_token
            end (classesToArray (call_arg x)) ts.
(** C31. The class methods implement a list of tokens: whatever the white space of the
    attribute and of the arguments, after any sequence of calls of addClass, removeClass
    and toggleClass the classes of an element are those the calls make of its list of
    classes, and hasClass tells whether a class is among them. *)
Theorem class_methods_tokens xs e :
  nodeType e = 1 → Forall (λ x, classes_arg (call_arg x)) xs →
  let e' := fold_left (λ e x, run_call x e) xs e in
  classes_of e' = fold_left (λ ts x, token_call x ts) xs (classes_of e) ∧
  ∀ c, class_word c → hasClass_elem c e' = has_token c (fold_left (λ ts x, token_call x ts) xs (classes_of e)).
Proof.
  intros Hn H. revert e Hn. induction H as [|x xs Hx _ IH]; intros e Hn; cbn [fold_left].
  - split; [done|]. intros c Hc. by apply hasClass_token.
  - assert (E : classes_of (run_call x e) = token_call x (classes_of e) ∧ nodeType (run_call x e) = 1).
    { destruct x as [a|a|a [[]|]]; by first [apply addClass_tokens|apply removeClass_tokens|apply toggle_tokens]. }
    destruct E as [<- Hn']. by apply IH.
Qed.
Definition div_elem (cls : string) : Elem :=
  mkElem "div" 1 [("class"%string, cls)] None "" "" "" false false false None [].
Lemma class_methods_tokens_witness :
  let e' := fold_left (λ e x, run_call x e)
    [CallAdd (CText " c d"); CallRemove (CList ["a"]%string); CallToggle (CText "b d") None] (div_elem "  a b   a ") in
  classes_of e' = ["c"]%string ∧ getClass e' = "c"%string ∧ hasClass_elem "c" e' = true.
Proof.
  destruct (class_methods_tokens
    [CallAdd (CText " c d"); CallRemove (CList ["a"]%string); CallToggle (CText "b d") None] (div_elem "  a b   a "))
    as [H1 H2].
  - reflexivity.
  - repeat constructor; done.
  - split; [exact H1|]. split; [vm_compute; reflexivity|]. apply (H2 "c"%string). split; done.
Defined.
