(* ===== verification/JqDom.v ===== *)
(** * Documents as the selector engine reads them

    Texts as lists of 16-bit code units, the nodes of a document with the links that
    jquery-3.5.1.js follows, the browser's own queries on them (documented DOM behaviour),
    and the facts about links that the proofs about selectors share. *)
From Stdlib Require Import ZArith NArith Lia Ascii String.
From stdpp Require Import base strings list gmap.
From S2P Require Import Prelude.

(** ** Texts *)
(** A string of JavaScript: its UTF-16 code units. *)
Notation text := (list N).
Definition txt (s : string) : text := List.map Ascii.N_of_ascii (list_ascii_of_string s).
Definition same (a b : text) : bool := bool_decide (a = b).
(** [s.toLowerCase()], for the letters of ASCII. *)
Definition lower_unit (c : N) : N := if (65 <=? c)%N && (c <=? 90)%N then (c + 32)%N else c.
Definition lower : text → text := List.map lower_unit.
Fixpoint has_prefix (p s : text) : bool :=
  match p, s with
  | [], _ => true
  | a :: p', b :: s' => (a =? b)%N && has_prefix p' s'
  | _ :: _, [] => false
  end.
(** [s.indexOf( p )] *)
Fixpoint index_of (p s : text) (i : nat) : option nat :=
  if has_prefix p s then Some i else match s with [] => None | _ :: s' => index_of p s' (S i) end.
Definition includes (p s : text) : bool := match index_of p s 0 with Some _ => true | None => false end.
(** [s.slice( -n )] for a positive [n]. *)
Definition slice_end (n : nat) (s : text) : text := drop (length s - n) s.

(** ** Nodes *)
(** The properties of an element that only pseudo-classes read: [None] or [false] where the
    element has no such property. *)
Record Props := mkProps {
  p_type : option text; p_href : bool; p_tabIndex : Z; p_lang : text;
  in_form : bool; in_label : bool;                    (* "form" in elem, "label" in elem *)
  p_disabled : option bool; p_isDisabled : option bool;
  p_checked : bool; p_selected : bool;
  has_box : bool                                      (* offsetWidth, offsetHeight or client rects *)
}.
Definition no_props : Props := mkProps None false (-1) [] false false None None false false false.
Record Node := mkNode {
  nodeType : nat; nodeName : text; attributes : list (text * text);
  className : option text;                            (* when it is a string *)
  nodeValue : text; parentNode : option nat; childNodes : list nat; props : Props
}.
Definition no_node : Node := mkNode 0 [] [] None [] None [] no_props.
Record Dom := mkDom {
  nodes : gmap nat Node; document : nat; documentElement : nat; documentIsHTML : bool;
  activeElement : option nat; hasFocus : bool; location_hash : text;
  timers : list nat                                   (* the elements of jQuery.timers *)
}.

Section Dom.
Context (D : Dom).
Definition node (e : nat) : Node := default no_node (nodes D !! e).
Definition is_element (e : nat) : bool := nodeType (node e) =? 1.
Definition lower_name (e : nat) : text := lower (nodeName (node e)).

Definition lookup_text (name : text) (l : list (text * text)) : option text :=
  snd <$> List.find (λ p, same (fst p) name) l.
(** [elem.getAttribute( name )]: names are lower case in an HTML document. *)
Definition getAttribute (name : text) (e : nat) : option text :=
  lookup_text (if documentIsHTML D then lower name else name) (attributes (node e)).

(** ** Links *)
Definition siblings_of (e : nat) : list nat :=
  match parentNode (node e) with Some p => childNodes (node p) | None => [] end.
Fixpoint after (e : nat) (l : list nat) : list nat :=
  match l with [] => [] | x :: l' => if x =? e then l' else after e l' end.
Inductive dir := ParentNode | PreviousSibling | NextSibling.
Definition link (d : dir) (e : nat) : option nat :=
  match d with
  | ParentNode => parentNode (node e)
  | PreviousSibling => head (after e (rev (siblings_of e)))
  | NextSibling => head (after e (siblings_of e))
  end.
Definition firstChild (e : nat) : option nat := head (childNodes (node e)).
Definition lastChild (e : nat) : option nat := last (childNodes (node e)).

(** The nodes a loop [while ( ( elem = elem[ dir ] ) )] visits. *)
Fixpoint walk (n : nat) (d : dir) (e : nat) : list nat :=
  match n with
  | 0 => []
  | S n' => match link d e with Some p => p :: walk n' d p | None => [] end
  end.
Definition path (d : dir) (e : nat) : list nat := walk (size (nodes D)) d e.
(** A node and the nodes after it: a loop [for ( ; n; n = n[ dir ] )]. *)
Definition from (d : dir) (o : option nat) : list nat :=
  match o with Some e => e :: path d e | None => [] end.

(** ** Queries of the browser *)
(** The nodes below a node, in the order of the document. *)
Fixpoint below (n : nat) (e : nat) : list nat :=
  match n with
  | 0 => []
  | S n' => flat_map (λ c, c :: below n' c) (childNodes (node e))
  end.
Definition descendants (e : nat) : list nat := below (size (nodes D)) e.
Definition elements_below (e : nat) : list nat := List.filter is_element (descendants e).
Definition textContent (e : nat) : text :=
  flat_map (λ c, if existsb (Nat.eqb (nodeType (node c))) [3; 4] then nodeValue (node c) else []) (descendants e).

(** ** Well-formed documents *)
Record wf_dom : Prop := {
  wf_child p c : c ∈ childNodes (node p) → parentNode (node c) = Some p;
  wf_parent p c : parentNode (node c) = Some p → c ∈ childNodes (node p);
  wf_nodup p : NoDup (childNodes (node p));
  wf_known p c : c ∈ childNodes (node p) → is_Some (nodes D !! c);
  wf_depth : ∃ depth : nat → nat, ∀ p c, parentNode (node c) = Some p → depth p < depth c;
  wf_kinds p c : parentNode (node c) = Some p →
    existsb (Nat.eqb (nodeType (node p))) [1; 9; 11] = true ∧
    existsb (Nat.eqb (nodeType (node c))) [9; 11] = false
}.

(** *** Siblings *)
Lemma after_suffix e l x l' : after e l = x :: l' → NoDup l → after x l = l'.
Proof.
  induction l as [|y l IH]; simpl; [done|]. intros H Hnd. apply NoDup_cons in Hnd as [Hy Hnd].
  destruct (Nat.eqb_spec y e) as [->|].
  - subst l. destruct (Nat.eqb_spec e x) as [->|]; [destruct Hy; left|].
    simpl. by rewrite Nat.eqb_refl.
  - destruct (Nat.eqb_spec y x) as [->|]; [|by apply IH].
    destruct Hy. clear -H. induction l as [|z l IH]; simpl in *; [done|].
    destruct (z =? e); [subst; right; left|right; auto].
Qed.
Lemma after_in e l x : x ∈ after e l → x ∈ l.
Proof. induction l as [|y l IH]; simpl; [done|]. destruct (y =? e); [by right|right; auto]. Qed.
Lemma after_length e l : e ∈ l → S (length (after e l)) ≤ length l.
Proof.
  induction l as [|y l IH]; [by intros ?%elem_of_nil|]. simpl. intros [->|H]%elem_of_cons.
  - rewrite Nat.eqb_refl. lia.
  - destruct (y =? e); [lia|]. specialize (IH H). lia.
Qed.
Lemma after_length_le e l : length (after e l) ≤ length l.
Proof. induction l as [|y l IH]; simpl; [lia|]. destruct (y =? e); lia. Qed.

(** *** The paths of loops *)
Definition line (d : dir) (e : nat) : list nat :=
  match d with NextSibling => siblings_of e | _ => rev (siblings_of e) end.
Definition is_sideways (d : dir) : bool := match d with ParentNode => false | _ => true end.
Lemma link_line d e : is_sideways d = true → link d e = head (after e (line d e)).
Proof. by destruct d. Qed.

Section Wf.
Context (W : wf_dom).
Lemma siblings_in e x : x ∈ siblings_of e → siblings_of x = siblings_of e.
Proof.
  unfold siblings_of. destruct (parentNode (node e)) as [p|]; [|by intros ?%elem_of_nil].
  intros H. by rewrite (wf_child W p x H).
Qed.
Lemma siblings_self e p : parentNode (node e) = Some p → e ∈ siblings_of e.
Proof. intros H. unfold siblings_of. rewrite H. by apply (wf_parent W). Qed.
Lemma siblings_nodup e : NoDup (siblings_of e).
Proof. unfold siblings_of. destruct (parentNode (node e)); [apply (wf_nodup W)|constructor]. Qed.
Lemma children_size p : length (childNodes (node p)) ≤ size (nodes D).
Proof.
  rewrite <- size_dom. rewrite <- (size_list_to_set (C := gset nat)) by apply (wf_nodup W).
  apply subseteq_size. intros c Hc. apply elem_of_list_to_set in Hc. apply elem_of_dom.
  by apply (wf_known W p).
Qed.
Lemma siblings_size e : length (siblings_of e) ≤ size (nodes D).
Proof. unfold siblings_of. destruct (parentNode (node e)); [apply children_size|simpl; lia]. Qed.

Lemma line_nodup d e : NoDup (line d e).
Proof.
  destruct d; simpl; [| |apply siblings_nodup];
    rewrite <- Permutation_rev; apply siblings_nodup.
Qed.
Lemma line_elem d e x : x ∈ line d e ↔ x ∈ siblings_of e.
Proof. destruct d; simpl; [| |done]; by rewrite !list_elem_of_In, <- in_rev. Qed.
Lemma line_length d e : length (line d e) = length (siblings_of e).
Proof. destruct d; simpl; [| |done]; by rewrite length_rev. Qed.
Lemma line_in d e x : x ∈ line d e → line d x = line d e.
Proof. intros H%line_elem. destruct d; simpl; by rewrite (siblings_in e x H). Qed.

Lemma walk_line d n e :
  is_sideways d = true → length (after e (line d e)) ≤ n → walk n d e = after e (line d e).
Proof.
  intros Hd. revert e. induction n as [|n IH]; intros e Hn; simpl; [by destruct (after e _); [|simpl in Hn; lia]|].
  rewrite link_line by done. destruct (after e (line d e)) as [|x l'] eqn:E; [done|]. simpl in *.
  assert (Hx : x ∈ line d e) by (apply (after_in e); rewrite E; left).
  rewrite IH; rewrite (line_in d e x Hx), (after_suffix e _ x l' E); try done; try apply line_nodup. lia.
Qed.
Lemma path_sideways d e : is_sideways d = true → path d e = after e (line d e).
Proof.
  intros Hd. apply walk_line; [done|]. pose proof (after_length_le e (line d e)).
  rewrite line_length in *. pose proof (siblings_size e). lia.
Qed.

(** Ancestors: a node has fewer nodes above it than its child. *)
Lemma above_lt (depth : nat → nat) p c :
  (∀ p c, parentNode (node c) = Some p → depth p < depth c) → is_Some (nodes D !! p) →
  parentNode (node c) = Some p →
  size (filter (λ x, depth x < depth p) (dom (nodes D))) < size (filter (λ x, depth x < depth c) (dom (nodes D))).
Proof.
  intros Hd Hp Hc. specialize (Hd p c Hc). apply subset_size. split.
  - intros x. rewrite !elem_of_filter. intros [? ?]. split; [lia|done].
  - intros H. assert (p ∈ filter (λ x, depth x < depth p) (dom (nodes D))) as Hi.
    { apply H, elem_of_filter. split; [done|]. by apply elem_of_dom. }
    apply elem_of_filter in Hi as [? _]. lia.
Qed.
Lemma parent_known p c : parentNode (node c) = Some p → is_Some (nodes D !! p).
Proof.
  intros H. apply (wf_parent W) in H. destruct (nodes D !! p) eqn:E; [by eauto|].
  unfold node in H. rewrite E in H. by apply elem_of_nil in H.
Qed.
Lemma walk_parent (depth : nat → nat) n m e :
  (∀ p c, parentNode (node c) = Some p → depth p < depth c) →
  size (filter (λ x, depth x < depth e) (dom (nodes D))) ≤ n →
  size (filter (λ x, depth x < depth e) (dom (nodes D))) ≤ m → walk n ParentNode e = walk m ParentNode e.
Proof.
  intros Hd. revert m e. induction n as [|n IH]; intros m e Hn Hm; destruct m as [|m]; [done| | |].
  - simpl. destruct (parentNode (node e)) as [p|] eqn:E; [|done].
    pose proof (above_lt depth p e Hd (parent_known p e E) E). lia.
  - simpl. destruct (parentNode (node e)) as [p|] eqn:E; [|done].
    pose proof (above_lt depth p e Hd (parent_known p e E) E). lia.
  - simpl. destruct (parentNode (node e)) as [p|] eqn:E; [|done]. f_equal.
    pose proof (above_lt depth p e Hd (parent_known p e E) E). apply IH; lia.
Qed.

(** A loop over links takes one step, then goes on from the node it has reached. *)
Lemma path_step d e :
  path d e = match link d e with Some x => x :: path d x | None => [] end.
Proof.
  destruct (is_sideways d) eqn:Hd.
  - rewrite link_line, (path_sideways d e) by done. destruct (after e (line d e)) as [|x l] eqn:E; [done|]. simpl.
    assert (Hx : x ∈ line d e) by (apply (after_in e); rewrite E; left).
    rewrite (path_sideways d x), (line_in d e x Hx), (after_suffix e _ x l E) by (done || apply line_nodup). done.
  - destruct d; try done. destruct (wf_depth W) as [depth Hdepth]. unfold path. simpl.
    set (f := λ e, size (filter (λ x, depth x < depth e) (dom (nodes D)))).
    assert (Hs : ∀ e, f e ≤ size (nodes D)).
    { intros x. unfold f. rewrite <- size_dom. apply subseteq_size. intros y. rewrite elem_of_filter. tauto. }
    rewrite (walk_parent depth (size (nodes D)) (S (size (nodes D))) e Hdepth (Hs e)) by (specialize (Hs e); unfold f in Hs; lia).
    done.
Qed.
Lemma path_cons d e x l : path d e = x :: l → l = path d x.
Proof. rewrite path_step. destruct (link d e); [|done]. congruence. Qed.

Lemma parent_path_lt (depth : nat → nat) e x :
  (∀ p c, parentNode (node c) = Some p → depth p < depth c) → x ∈ path ParentNode e → depth x < depth e.
Proof.
  intros Hd. remember (path ParentNode e) as l eqn:E. symmetry in E. revert e E.
  induction l as [|y l IH]; intros e E; [by intros ?%elem_of_nil|].
  pose proof (path_cons _ _ _ _ E) as El. rewrite path_step in E. simpl in E.
  destruct (parentNode (node e)) as [p|] eqn:Ep; [|done]. injection E as -> _. apply Hd in Ep.
  intros [->|Hx]%elem_of_cons; [done|]. specialize (IH y (eq_sym El) Hx). lia.
Qed.
(** A loop never comes back to a node. *)
Lemma path_fresh d e : e ∉ path d e.
Proof.
  destruct (is_sideways d) eqn:Hd.
  - rewrite path_sideways by done. intros H. pose proof (after_in _ _ _ H) as Hi. revert H Hi.
    pose proof (line_nodup d e) as Hnd. induction (line d e) as [|y l IH]; simpl; [by intros ?%elem_of_nil|].
    apply NoDup_cons in Hnd as [Hy Hnd]. destruct (Nat.eqb_spec y e) as [->|]; [done|].
    intros H _. apply IH; [done|done|by eapply after_in].
  - destruct d; try done. destruct (wf_depth W) as [depth Hdepth]. intros H.
    pose proof (parent_path_lt depth e e Hdepth H). lia.
Qed.
Lemma path_nodup d e : NoDup (path d e).
Proof.
  remember (path d e) as l eqn:E. symmetry in E. revert e E.
  induction l as [|x l IH]; intros e E; constructor.
  - rewrite (path_cons _ _ _ _ E). apply path_fresh.
  - by apply (IH x), eq_sym, (path_cons d e).
Qed.
End Wf.
End Dom.

(** ** Checking a given document
    Enough for documents whose nodes are numbered from the root down. *)
Section Checked.
Context (D : Dom).
Definition checked_node (p : nat) (x : Node) : bool :=
  bool_decide (NoDup (childNodes x)) &&
  forallb (λ c, bool_decide (parentNode (node D c) = Some p) && bool_decide (is_Some (nodes D !! c))) (childNodes x) &&
  match parentNode x with
  | Some q =>
      bool_decide (p ∈ childNodes (node D q)) && (q <? p) && existsb (Nat.eqb (nodeType (node D q))) [1; 9; 11] &&
      negb (existsb (Nat.eqb (nodeType x)) [9; 11])
  | None => true
  end.
Definition checked_dom : bool := forallb (λ p, checked_node (fst p) (snd p)) (map_to_list (nodes D)).
Lemma checked_known p : checked_dom = true → is_Some (nodes D !! p) → checked_node p (node D p) = true.
Proof.
  intros H [x Hx]. unfold checked_dom in H. rewrite forallb_forall in H.
  specialize (H (p, x)). unfold node. rewrite Hx. apply H. apply list_elem_of_In. by apply elem_of_map_to_list.
Qed.
Lemma known_or_empty p : is_Some (nodes D !! p) ∨ node D p = no_node.
Proof. unfold node. destruct (nodes D !! p); [left; by eexists|by right]. Qed.
Lemma checked_wf : checked_dom = true → wf_dom D.
Proof.
  intros H.
  assert (Hc : ∀ p c, c ∈ childNodes (node D p) → parentNode (node D c) = Some p ∧ is_Some (nodes D !! c)).
  { intros p c Hin. destruct (known_or_empty p) as [Hp|Hp]; [|rewrite Hp in Hin; by apply elem_of_nil in Hin].
    pose proof (checked_known p H Hp) as Hn. unfold checked_node in Hn. rewrite !andb_true_iff, forallb_forall in Hn.
    destruct Hn as [[_ Hn] _]. apply list_elem_of_In in Hin. specialize (Hn c Hin).
    by apply andb_true_iff in Hn as [?%bool_decide_eq_true ?%bool_decide_eq_true]. }
  assert (Hp : ∀ p c, parentNode (node D c) = Some p → c ∈ childNodes (node D p) ∧ p < c ∧
      existsb (Nat.eqb (nodeType (node D p))) [1; 9; 11] = true ∧ existsb (Nat.eqb (nodeType (node D c))) [9; 11] = false).
  { intros p c Hpc. destruct (known_or_empty c) as [Hk|Hk]; [|by rewrite Hk in Hpc].
    pose proof (checked_known c H Hk) as Hn. unfold checked_node in Hn. rewrite Hpc in Hn. rewrite !andb_true_iff in Hn.
    destruct Hn as [_ [[[?%bool_decide_eq_true ?%Nat.ltb_lt] ?] ?%negb_true_iff]]. done. }
  split; try (intros; by eapply Hc); try (intros; by eapply Hp).
  - intros p. destruct (known_or_empty p) as [Hk|Hk]; [|rewrite Hk; constructor].
    pose proof (checked_known p H Hk) as Hn. unfold checked_node in Hn. rewrite !andb_true_iff in Hn.
    by destruct Hn as [[?%bool_decide_eq_true _] _].
  - exists id. intros p c Hpc. by destruct (Hp p c Hpc) as (_ & ? & _).
Qed.
End Checked.
