(* ===== verification/JqRegex.v ===== *)
(** * Regular expressions of the selector engine

    A matcher for the regular expressions of JavaScript that backtracks the way the
    language says (the first alternative first, repetitions as long as they can be), and
    the expressions of jquery-3.5.1.js that selectors are read with. *)
From Stdlib Require Import ZArith NArith Lia Ascii String.
From stdpp Require Import base strings list.
From S2P Require Import Prelude.
From S2P Require Import JqDom.

(** ** Expressions *)
Inductive re :=
  | Eps
  | Unit (p : N → bool)             (* one code unit of a class *)
  | Seq (a b : re)
  | Alt (a b : re)
  | Star (a : re)                     (* greedy *)
  | UpTo (n : nat) (a : re)           (* {0,n}, greedy *)
  | Group (i : nat) (a : re)          (* a capture *)
  | Back (i : nat)                    (* a back-reference *)
  | Bol | Eol                         (* ^ and $ *)
  | Border (b : bool)                 (* \b and \B *)
  | Ahead (a : re).                   (* (?= ) *)
Definition Plus (a : re) : re := Seq a (Star a).
Definition Opt (a : re) : re := UpTo 1 a.
Definition seqs : list re → re := foldr Seq Eps.
Definition alts (a : re) (l : list re) : re := foldl Alt a l.
Definition lit (s : string) : re := seqs (List.map (λ c, Unit (N.eqb c)) (txt s)).
(** With the flag [i]. *)
Definition lit_i (s : string) : re := seqs (List.map (λ c, Unit (λ x, N.eqb (lower_unit x) (lower_unit c))) (txt s)).

Definition caps := list (nat * text).
Definition cap (i : nat) (c : caps) : option text := snd <$> List.find (λ p, fst p =? i) c.
Fixpoint groups_in (r : re) : list nat :=
  match r with
  | Seq a b | Alt a b => groups_in a ++ groups_in b
  | Star a | UpTo _ a | Ahead a => groups_in a
  | Group i a => i :: groups_in a
  | _ => []
  end.
Definition forget (l : list nat) (c : caps) : caps := List.filter (λ p, negb (existsb (Nat.eqb (fst p)) l)) c.

Definition within (lo hi c : N) : bool := (lo <=? c)%N && (c <=? hi)%N.
Definition is_word_unit (c : N) : bool :=
  within 48 57 c || within 65 90 c || within 97 122 c || (c =? 95)%N.
Definition on_word (s : text) : bool := match s with c :: _ => is_word_unit c | [] => false end.

(** ** Matching
    [b]: the text before the position, from it backwards; [s]: the text after it. *)
Section Star.
Context (iter : text → text → caps → (text → text → caps → option (text * caps)) → option (text * caps)).
(** One more round if it consumes something; otherwise what follows. *)
Fixpoint repeat (n : nat) (gs : list nat) (b s : text) (c : caps) (k : text → text → caps → option (text * caps)) : option (text * caps) :=
  match n with
  | 0 => k b s c
  | S n' =>
      match iter b s (forget gs c)
              (λ b' s' c', if length s' <? length s then repeat n' gs b' s' c' k else None) with
      | Some x => Some x
      | None => k b s c
      end
  end.
End Star.
Fixpoint rmatch (r : re) (b s : text) (c : caps) (k : text → text → caps → option (text * caps)) : option (text * caps) :=
  match r with
  | Eps => k b s c
  | Unit p => match s with x :: s' => if p x then k (x :: b) s' c else None | [] => None end
  | Seq x y => rmatch x b s c (λ b' s' c', rmatch y b' s' c' k)
  | Alt x y => match rmatch x b s c k with Some z => Some z | None => rmatch y b s c k end
  | Star x => repeat (rmatch x) (length s) (groups_in x) b s c k
  | UpTo n x => repeat (rmatch x) n (groups_in x) b s c k
  | Group i x => rmatch x b s c (λ b' s' c', k b' s' ((i, take (length s - length s') s) :: c'))
  | Back i =>
      let t := default [] (cap i c) in
      if has_prefix t s then k (rev t ++ b) (drop (length t) s) c else None
  | Bol => match b with [] => k b s c | _ => None end
  | Eol => match s with [] => k b s c | _ => None end
  | Border w => if Bool.eqb (xorb (on_word b) (on_word s)) w then k b s c else None
  | Ahead x => match rmatch x b s c (λ _ s' c', Some (s', c')) with Some (_, c') => k b s c' | None => None end
  end.

(** At one position: the text that matches, what follows, and the captures. *)
Definition exec_at (r : re) (b s : text) : option (text * text * caps) :=
  match rmatch r b s [] (λ _ s' c, Some (s', c)) with
  | Some (s', c) => Some (take (length s - length s') s, s', c)
  | None => None
  end.
(** [r.exec( s )] for an expression that starts with [^]. *)
Definition exec (r : re) (s : text) : option (text * text * caps) := exec_at r [] s.
(** [r.test( s )]: a match at any position. *)
Fixpoint test_from (r : re) (b s : text) : bool :=
  match exec_at r b s with
  | Some _ => true
  | None => match s with x :: s' => test_from r (x :: b) s' | [] => false end
  end.
Definition test (r : re) (s : text) : bool := test_from r [] s.
(** [s.replace( r, f )] for a global expression. *)
Fixpoint replace_from (n : nat) (r : re) (f : text → caps → text) (b s : text) : text :=
  match n with
  | 0 => s
  | S n' =>
      match exec_at r b s with
      | Some (x :: u, s', c) => f (x :: u) c ++ replace_from n' r f (rev (x :: u) ++ b) s'
      | _ => match s with x :: s' => x :: replace_from n' r f (x :: b) s' | [] => [] end
      end
  end.
Definition replace (r : re) (f : text → caps → text) (s : text) : text := replace_from (S (length s)) r f [] s.

(** ** The expressions of the source *)
Definition among (l : list N) (c : N) : bool := existsb (N.eqb c) l.
Definition is_ws : N → bool := among [32; 9; 13; 10; 12]%N.
Definition is_digit_unit : N → bool := within 48 57.
Definition is_hex (c : N) : bool := is_digit_unit c || within 97 102 c || within 65 70 c.
Definition not_newline (c : N) : bool := negb (among [13; 10; 12]%N c).
(** [.] *)
Definition any_unit (c : N) : bool := negb (among [13; 10; 8232; 8233]%N c).
Definition backslash : re := Unit (N.eqb 92).
Definition one_of (s : string) : re := Unit (among (txt s)).
Definition none_of (l : list N) : re := Unit (λ c, negb (among l c)).

Definition whitespace : re := Unit is_ws.
Definition ws_star : re := Star whitespace.
Definition hex_escape : re := seqs [backslash; Unit is_hex; UpTo 5 (Unit is_hex); Opt whitespace].
Definition identifier : re :=
  Plus (alts hex_escape
    [Seq backslash (Unit not_newline); Unit (λ c, is_word_unit c || (c =? 45)%N); Unit (λ c, 128 <=? c)%N]).
(** The content of a string between quotes [q]. *)
Definition quoted (q : N) : re := Star (Alt (Seq backslash (Unit any_unit)) (none_of [92%N; q])).
(** Its captures are numbered from [i]. *)
Definition attributes_re (i : nat) : re :=
  seqs [lit "["; ws_star; Group i identifier;
        Alt (seqs [ws_star; Group (i + 1) (Seq (Opt (one_of "*^$|!~")) (lit "=")); ws_star;
                   alts (seqs [lit "'"; Group (i + 2) (quoted 39); lit "'"])
                     [seqs [Unit (N.eqb 34); Group (i + 3) (quoted 34); Unit (N.eqb 34)];
                      Group (i + 4) identifier]])
            Eps;
        ws_star; lit "]"].
Definition pseudos_re : re :=
  seqs [lit ":"; Group 1 identifier;
    Alt (seqs [lit "(";
           Group 2 (alts
             (Group 3 (Alt (seqs [lit "'"; Group 4 (quoted 39); lit "'"])
                           (seqs [Unit (N.eqb 34); Group 5 (quoted 34); Unit (N.eqb 34)])))
             [Group 6 (Star (alts (Seq backslash (Unit any_unit)) [none_of [92; 40; 41; 91; 93]%N; attributes_re 7]));
              Star (Unit any_unit)]);
           lit ")"])
        Eps].
Definition rtrim_re : re :=
  Alt (Seq Bol (Plus whitespace))
      (seqs [Group 1 (Seq (Alt Bol (none_of [92%N])) (Star (Seq backslash (Unit any_unit)))); Plus whitespace; Eol]).
(** [s.replace( rtrim, "$1" )] *)
Definition trim_selector : text → text := replace rtrim_re (λ _ c, default [] (cap 1 c)).
Definition rcomma : re := seqs [Bol; ws_star; lit ","; ws_star].
Definition rcombinators : re := seqs [Bol; ws_star; Group 1 (Alt (one_of ">+~") whitespace); ws_star].
Definition rdescend : re := Alt whitespace (lit ">").
Definition rsibling : re := one_of "+~".
Definition ridentifier : re := seqs [Bol; identifier; Eol].
Definition needsContext : re :=
  Alt (seqs [Bol; ws_star; one_of ">+~"])
    (seqs [lit ":"; Group 1 (alts (lit_i "even") (List.map lit_i ["odd"; "eq"; "gt"; "lt"; "nth"; "first"; "last"]%string));
           Alt (seqs [lit "("; ws_star; Group 2 (Seq (Opt (Seq (lit "-") (Unit is_digit_unit))) (Star (Unit is_digit_unit)));
                      ws_star; lit ")"]) Eps;
           Ahead (Alt (none_of [45%N]) Eol)]).

(** [matchExpr] *)
Definition ID_re : re := seqs [Bol; lit "#"; Group 1 identifier].
Definition CLASS_re : re := seqs [Bol; lit "."; Group 1 identifier].
Definition TAG_re : re := Seq Bol (Group 1 (Alt identifier (lit "*"))).
Definition ATTR_re : re := Seq Bol (attributes_re 1).
Definition PSEUDO_re : re := Seq Bol pseudos_re.
Definition CHILD_re : re :=
  seqs [Bol; lit ":";
    Group 1 (alts (lit_i "only") (List.map lit_i ["first"; "last"; "nth"; "nth-last"]%string)); lit "-";
    Group 2 (Alt (lit_i "child") (lit_i "of-type"));
    Alt (seqs [lit "("; ws_star;
           Group 3 (alts (lit_i "even") [lit_i "odd";
             seqs [Group 4 (Alt (seqs [Group 5 (Alt (one_of "+-") Eps); Group 6 (Star (Unit is_digit_unit)); lit_i "n"]) Eps);
                   ws_star;
                   Alt (seqs [Group 7 (Alt (one_of "+-") Eps); ws_star; Group 8 (Plus (Unit is_digit_unit))]) Eps]]);
           ws_star; lit ")"])
        Eps].

(** *** Escapes *)
Definition hex_value (c : N) : N :=
  (if is_digit_unit c then c - 48 else if 97 <=? c then c - 87 else c - 55)%N.
Definition hex_number (s : text) : N := foldl (λ n c, 16 * n + hex_value c)%N 0%N s.
Definition runescape : re := Alt hex_escape (Seq backslash (Group 1 (Unit not_newline))).
Definition funescape (escape : text) (c : caps) : text :=
  match cap 1 c with
  | Some nonHex => nonHex
  | None =>
      let code := hex_number (List.filter is_hex (drop 1 escape)) in
      if (code <? 65536)%N then [code]
      else let high := (code - 65536)%N in
           [N.lor (N.shiftr high 10) 55296; N.lor (N.land high 1023) 56320]%N
  end.
Definition unescape : text → text := replace runescape funescape.

(** ** Facts
    The texts an expression can match, whatever is around them. *)
Fixpoint lang (r : re) (u : text) : Prop :=
  match r with
  | Unit p => ∃ x, u = [x] ∧ p x = true
  | Seq a b => ∃ v w, u = v ++ w ∧ lang a v ∧ lang b w
  | Alt a b => lang a u ∨ lang b u
  | Star a | UpTo _ a => ∃ us, u = concat us ∧ Forall (lang a) us
  | Group _ a => lang a u
  | Back _ => True
  | _ => u = []
  end.

(** What a matcher consumes is a prefix of the text and in the language, and the captures
    it adds are no longer than the text. *)
Definition kont := text → text → caps → option (text * caps).
Definition matches_in (L : text → Prop) (r : text → text → caps → kont → option (text * caps)) : Prop :=
  ∀ b s c k x, r b s c k = Some x →
    ∃ u s' c', s = u ++ s' ∧ L u ∧ (∀ p, p ∈ c' → p ∈ c ∨ length (snd p) ≤ length s) ∧ k (rev u ++ b) s' c' = Some x.
Lemma forget_in l c p : p ∈ forget l c → p ∈ c.
Proof. unfold forget. by intros [? _]%filter_elem. Qed.
Lemma repeat_sound L iter n gs :
  matches_in L iter → matches_in (λ u, ∃ us, u = concat us ∧ Forall L us) (repeat iter n gs).
Proof.
  intros Hi. induction n as [|n IH]; intros b s c k x H; simpl in H.
  { exists [], s, c. repeat split; [by exists []|by left|done]. }
  destruct (iter _ _ _ _) as [y|] eqn:E; [|exists [], s, c; repeat split; [by exists []|by left|done]].
  injection H as ->. apply Hi in E as (u & s' & c' & -> & Hu & Hc & E). destruct (_ <? _) eqn:Hlt; [|done].
  apply IH in E as (u' & s'' & c'' & -> & (us & -> & Hus) & Hc' & E).
  exists (u ++ concat us), s'', c''. rewrite rev_app_distr, <- !app_assoc. repeat split; [|intros p Hp|done].
  - exists (u :: us). split; [done|by constructor].
  - destruct (Hc' p Hp) as [Hin|Hle]; [|right; rewrite !length_app in *; lia].
    destruct (Hc p Hin) as [Hin'|?]; [left; by eapply forget_in|by right].
Qed.
Lemma has_prefix_spec p s : has_prefix p s = true ↔ s = p ++ drop (length p) s.
Proof.
  revert s. induction p as [|a p IH]; intros [|b s]; simpl; [done|done|by split|].
  rewrite andb_true_iff, N.eqb_eq, IH. split; [by intros [-> H]; f_equal|]. intros H. injection H as -> H.
  split; [done|]. exact H.
Qed.
Lemma nothing_sound (L : text → Prop) (b s : text) (c : caps) (k : kont) x :
  L [] → k b s c = Some x →
  ∃ u s' c', s = u ++ s' ∧ L u ∧ (∀ p, p ∈ c' → p ∈ c ∨ length (snd p) ≤ length s) ∧ k (rev u ++ b) s' c' = Some x.
Proof. intros HL H. exists [], s, c. repeat split; [done|by left|done]. Qed.
Lemma rmatch_sound r : matches_in (lang r) (rmatch r).
Proof.
  induction r as [|p|a IHa d IHd|a IHa d IHd|a IHa|n a IHa|i a IHa|i| | |w|a IHa]; intros b s c k x H; simpl in H.
  - by apply nothing_sound.
  - destruct s as [|y s]; [done|]. destruct (p y) eqn:Hp; [|done]. exists [y], s, c. repeat split; [by exists y|by left|done].
  - apply IHa in H as (u & s' & c' & -> & Hu & Hc & H). apply IHd in H as (u' & s'' & c'' & -> & Hu' & Hc' & H).
    exists (u ++ u'), s'', c''. rewrite rev_app_distr, <- !app_assoc. repeat split; [by exists u, u'| |done].
    intros p Hp. destruct (Hc' p Hp) as [?|Hle]; [by apply Hc|right; rewrite !length_app in *; lia].
  - destruct (rmatch a b s c k) eqn:E;
      [injection H as ->; apply IHa in E as (u & s' & c' & -> & Hu & Hc & H)|apply IHd in H as (u & s' & c' & -> & Hu & Hc & H)];
      exists u, s', c'; repeat split; try done; [by left|by right].
  - by apply (repeat_sound _ _ _ _ IHa) in H.
  - by apply (repeat_sound _ _ _ _ IHa) in H.
  - apply IHa in H as (u & s' & c' & -> & Hu & Hc & H). eexists u, s', _. repeat split; [done| |exact H].
    intros p [->|Hp]%elem_of_cons; [|by apply Hc]. right. simpl. rewrite length_take. lia.
  - destruct (has_prefix _ s) eqn:E; [|done]. apply has_prefix_spec in E. eexists _, _, c. by repeat split; [exact E|left|].
  - destruct b; [|done]. by apply nothing_sound.
  - destruct s; [|done]. by apply nothing_sound.
  - destruct (Bool.eqb _ w); [|done]. by apply nothing_sound.
  - destruct (rmatch a b s c _) as [[t c']|] eqn:E; [|done]. apply IHa in E as (u & s' & c'' & -> & _ & Hc & [= -> ->]).
    exists [], (u ++ t), c'. by repeat split.
Qed.
Lemma exec_at_sound r b s u s' c :
  exec_at r b s = Some (u, s', c) →
  s = u ++ s' ∧ lang r u ∧ ∀ i, length (default [] (cap i c)) ≤ length s.
Proof.
  unfold exec_at. destruct (rmatch r b s [] _) as [[t c']|] eqn:E; [|done]. intros [= <- <- <-].
  apply rmatch_sound in E as (v & t' & c'' & -> & Hv & Hc & [= -> ->]).
  rewrite length_app. replace (length v + length t - length t) with (length v) by lia. rewrite take_app_length.
  repeat split; [done|]. intros i. unfold cap. destruct (List.find _ c') as [p|] eqn:Ef; simpl; [|lia].
  apply List.find_some in Ef as [Hin _]. apply list_elem_of_In in Hin. rewrite length_app in Hc.
  by destruct (Hc p Hin) as [?%elem_of_nil|?].
Qed.

(** How a match can start. *)
Fixpoint nullable (r : re) : bool :=
  match r with
  | Unit _ => false
  | Seq a b => nullable a && nullable b
  | Alt a b => nullable a || nullable b
  | Group _ a => nullable a
  | _ => true
  end.
Fixpoint may_start (x : N) (r : re) : bool :=
  match r with
  | Unit p => p x
  | Seq a b => may_start x a || (nullable a && may_start x b)
  | Alt a b => may_start x a || may_start x b
  | Star a | UpTo _ a | Group _ a => may_start x a
  | Back _ => true
  | _ => false
  end.
Lemma nullable_spec r : lang r [] → nullable r = true.
Proof.
  induction r as [|p|a IHa d IHd|a IHa d IHd|a IHa|n a IHa|i a IHa|i| | |w|a IHa]; simpl; try done.
  - by intros (x & ? & _).
  - intros (v & w & E & Hv & Hw). symmetry in E. apply app_eq_nil in E as [-> ->]. by rewrite IHa, IHd.
  - by intros [->%IHa| ->%IHd]; rewrite ?orb_true_r.
Qed.
Lemma concat_first (L : text → Prop) x u us : concat us = x :: u → Forall L us → ∃ v, L (x :: v).
Proof.
  induction us as [|[|y v] us IH]; simpl; [done|intros E; inversion 1; by apply IH|].
  intros [= -> _]. inversion 1. by exists v.
Qed.
Lemma may_start_spec r x u : lang r (x :: u) → may_start x r = true.
Proof.
  revert u. induction r as [|p|a IHa d IHd|a IHa d IHd|a IHa|n a IHa|i a IHa|i| | |w|a IHa]; intros u; simpl; try done.
  - by intros (y & [= -> ->] & ?).
  - intros ([|y v] & w & E & Hv & Hw); simpl in E.
    + subst w. rewrite (nullable_spec a Hv), (IHd u Hw). by rewrite orb_true_r.
    + injection E as <- _. by rewrite (IHa v Hv).
  - intros [H|H]; [by rewrite (IHa u H)|by rewrite (IHd u H), orb_true_r].
  - intros (us & E & Hus). symmetry in E. destruct (concat_first _ _ _ _ E Hus) as [v Hv]. by apply (IHa v).
  - intros (us & E & Hus). symmetry in E. destruct (concat_first _ _ _ _ E Hus) as [v Hv]. by apply (IHa v).
  - apply IHa.
Qed.
Lemma lang_star_unit p u : lang (Star (Unit p)) u → Forall (λ x, p x = true) u.
Proof. intros (us & -> & H). induction H as [|v us (x & -> & Hx) _ IH]; simpl; constructor; done. Qed.
