(* ===== verification/JqSelector.v ===== *)
(** * Reading selectors

    Model of [tokenize] of jquery-3.5.1.js with its filters of what it has read and the
    cache of what it has read before, and the proof that it always ends, answers the same
    with the cache as without, and that the tokens spell the selector. *)
From Stdlib Require Import ZArith NArith Lia Ascii String.
From stdpp Require Import base strings list gmap.
From S2P Require Import Prelude.
From S2P Require Import JqDom.
From S2P Require Import JqRegex.

(** ** Tokens *)
Inductive relative := Child | Descendant | Adjacent | Sibling.      (* ">", " ", "+", "~" *)
(** The type of a token with the matches its filter is made from. *)
Inductive tok_kind :=
  | Relative (r : relative)
  | TAG (name : text)
  | CLASS (name : text)
  | ATTR (name : text) (operator : option text) (check : text)
  | CHILD (type what : text) (first last : Z)
  | PSEUDO (pseudo : text) (argument : option text)
  | ID (id : text).
Record token := mkToken { value : text; type : tok_kind }.
Definition toSelector (tokens : list token) : text := flat_map value tokens.

(** ** [createCache] *)
Record Cache (V : Type) := mkCache { keys : list text; entries : gmap text V }.
#[global] Arguments mkCache {_} _ _.
#[global] Arguments keys {_} _.
#[global] Arguments entries {_} _.
Definition cacheLength : nat := 50.
Definition createCache {V} : Cache V := mkCache [] ∅.
Definition cache_get {V} (key : text) (c : Cache V) : option V := entries c !! (key ++ [32%N]).
Definition cache_put {V} (key : text) (v : V) (c : Cache V) : Cache V :=
  let ks := keys c ++ [key ++ [32%N]] in
  if cacheLength <? length ks
  then mkCache (tail ks) (<[key ++ [32%N] := v]> (match ks with k :: _ => delete k (entries c) | [] => entries c end))
  else mkCache ks (<[key ++ [32%N] := v]> (entries c)).
Notation TokenCache := (Cache (list (list token))).
Notation MT := (MF TokenCache).

Definition syntax_error {A} (msg : text) : MT A :=
  mf_raise (JsError ("Syntax error, unrecognized expression: " ++ string_of_list_ascii (List.map Ascii.ascii_of_N msg))).

(** ** The filters of matches *)
Definition capture (i : nat) (c : caps) : text := default [] (cap i c).
Definition or_else (a b : text) : text := match a with [] => b | _ => a end.
Definition preFilter_ATTR (c : caps) : tok_kind :=
  let operator := cap 2 c in
  let check := unescape (or_else (capture 3 c) (or_else (capture 4 c) (capture 5 c))) in
  ATTR (unescape (capture 1 c)) operator
    (if bool_decide (operator = Some (txt "~=")) then txt " " ++ check ++ txt " " else check).

(** [+text] for a sign and digits. *)
Definition decimal (s : text) : Z := foldl (λ n c, 10 * n + Z.of_N c - 48)%Z 0%Z s.
Definition signed (sign digits : text) : Z := if same sign (txt "-") then (- decimal digits)%Z else decimal digits.
Definition is_nth (t : text) : bool := same (take 3 t) (txt "nth").
Definition preFilter_CHILD (match0 : text) (c : caps) : MT tok_kind :=
  let t := lower (capture 1 c) in
  let argument := capture 3 c in
  if is_nth t then
    if same argument [] then syntax_error match0 else
    let first :=
      match capture 4 c with
      | [] => if same argument (txt "even") || same argument (txt "odd") then 2%Z else 0%Z
      | _ => signed (capture 5 c) (or_else (capture 6 c) (txt "1"))
      end in
    let last :=
      match cap 7 c, cap 8 c with
      | Some sign, Some digits => signed sign digits
      | _, _ => if same argument (txt "odd") then 1%Z else 0%Z
      end in
    mret (CHILD t (capture 2 c) first last)
  else if same argument [] then mret (CHILD t (capture 2 c) 0 0) else syntax_error match0.

(** [unquoted.indexOf( ")", from ) - unquoted.length] and [s.slice( 0, excess )], where the
    index is -1 when there is none. *)
Definition paren_excess (unquoted : text) (from : nat) : Z :=
  match index_of (txt ")") (drop from unquoted) from with
  | Some i => Z.of_nat i - Z.of_nat (length unquoted)
  | None => -1 - Z.of_nat (length unquoted)
  end.
Definition slice_to (excess : Z) (s : text) : text := take (Z.to_nat (Z.of_nat (length s) + excess)) s.

Section Tokenize.
(** [tokenize( s, true )]: the length of what cannot be read. *)
Context (parseOnly : text → MT nat).
(** The new [match[ 0 ]], and the token; nothing when the match is for another filter. *)
Definition preFilter_PSEUDO (match0 : text) (c : caps) : MT (option (text * tok_kind)) :=
  let name := capture 1 c in
  if test CHILD_re match0 then mret None else
  match capture 3 c with
  | _ :: _ => mret (Some (match0, PSEUDO name (Some (or_else (capture 4 c) (capture 5 c)))))
  | [] =>
      let unquoted := match capture 6 c with [] => capture 2 c | _ => [] end in
      if negb (same unquoted []) && test pseudos_re unquoted then
        excess ← parseOnly unquoted;
        if excess =? 0 then mret (Some (match0, PSEUDO name (cap 2 c))) else
        let excess := paren_excess unquoted (length unquoted - excess) in
        mret (Some (slice_to excess match0, PSEUDO name (Some (slice_to excess unquoted))))
      else mret (Some (match0, PSEUDO name (cap 2 c)))
  end.

(** [Expr.filter] in the order of its properties. *)
Inductive filter_type := FTag | FClass | FAttr | FChild | FPseudo | FId.
Definition filter_types : list filter_type := [FTag; FClass; FAttr; FChild; FPseudo; FId].
Definition match_filter (t : filter_type) (soFar : text) : MT (option (text * tok_kind)) :=
  let with_ r (f : text → caps → MT (option (text * tok_kind))) :=
    match exec r soFar with Some (match0, _, c) => f match0 c | None => mret None end in
  match t with
  | FTag => with_ TAG_re (λ m c, mret (Some (m, TAG (capture 1 c))))
  | FClass => with_ CLASS_re (λ m c, mret (Some (m, CLASS (capture 1 c))))
  | FAttr => with_ ATTR_re (λ m c, mret (Some (m, preFilter_ATTR c)))
  | FChild => with_ CHILD_re (λ m c, k ← preFilter_CHILD m c; mret (Some (m, k)))
  | FPseudo => with_ PSEUDO_re preFilter_PSEUDO
  | FId => with_ ID_re (λ m c, mret (Some (m, ID (capture 1 c))))
  end.

(** One pass over the filters: what is left, the tokens, and the last match. *)
Fixpoint filters (ts : list filter_type) (soFar : text) (tokens : list token) (matched : text) : MT (text * list token * text) :=
  match ts with
  | [] => mret (soFar, tokens, matched)
  | t :: ts' =>
      r ← match_filter t soFar;
      match r with
      | Some (m, k) => filters ts' (drop (length m) soFar) (tokens ++ [mkToken m k]) m
      | None => filters ts' soFar tokens matched
      end
  end.

Definition relative_type (s : text) : relative :=
  if same s (txt ">") then Child else if same s (txt "+") then Adjacent else if same s (txt "~") then Sibling else Descendant.
Definition combinators (soFar : text) (tokens : list token) : text * list token * text :=
  match exec rcombinators soFar with
  | Some (m, _, c) => (drop (length m) soFar, tokens ++ [mkToken m (Relative (relative_type (capture 1 c)))], m)
  | None => (soFar, tokens, [])
  end.
(** A comma, unless nothing follows it. *)
Definition comma (soFar : text) (groups : list (list token)) (tokens : list token) : text * list (list token) * list token :=
  match exec rcomma soFar with
  | Some (_, s, _) => (or_else s soFar, groups ++ [tokens], [])
  | None => (soFar, groups, tokens)
  end.

(** The loop: [groups] are the groups before the present one, [tokens]. *)
Fixpoint tokens_loop (n : nat) (start : bool) (soFar : text) (groups : list (list token)) (tokens : list token) : MT (text * list (list token)) :=
  match n with
  | 0 => λ _, None
  | S n' =>
      if same soFar [] then mret (soFar, if start then [] else groups ++ [tokens]) else
      let '(soFar, groups, tokens) := if start then (soFar, groups, tokens) else comma soFar groups tokens in
      let '(soFar, tokens, matched) := combinators soFar tokens in
      r ← filters filter_types soFar tokens matched;
      let '(soFar, tokens, matched) := r in
      if same matched [] then mret (soFar, groups ++ [tokens])
      else tokens_loop n' false soFar groups tokens
  end.
Definition read_tokens (selector : text) : MT (text * list (list token)) :=
  tokens_loop (S (length selector)) true selector [] [].
End Tokenize.

(** [tokenize( selector, true )] and [tokenize( selector )]; [d] bounds how deep the
    arguments of pseudo-classes are read. *)
Fixpoint tokenize_excess (d : nat) (selector : text) : MT nat :=
  match d with
  | 0 => λ _, None
  | S d' =>
      cached ← run (gets (cache_get selector));
      match cached with
      | Some _ => mret 0
      | None => r ← read_tokens (tokenize_excess d') selector; mret (length (fst r))
      end
  end.
Definition tokenize (selector : text) : MT (list (list token)) :=
  cached ← run (gets (cache_get selector));
  match cached with
  | Some groups => mret groups
  | None =>
      r ← read_tokens (tokenize_excess (length selector)) selector;
      if same (fst r) [] then
        run (modify (cache_put selector (snd r)));;
        mret (snd r)
      else syntax_error selector
  end.

(** ** What the tokens spell *)
Definition comma_text (s : text) : Prop :=
  ∃ a b, s = a ++ txt "," ++ b ∧ Forall (λ x, is_ws x = true) a ∧ Forall (λ x, is_ws x = true) b.
(** The groups are written one after the other with a comma between them. *)
Inductive spelled : list (list token) → text → Prop :=
  | spelled_first t : spelled [t] (toSelector t)
  | spelled_next gs s sep t : spelled gs s → comma_text sep → spelled (gs ++ [t]) (s ++ sep ++ toSelector t).
Lemma toSelector_app a b : toSelector (a ++ b) = toSelector a ++ toSelector b.
Proof. apply flat_map_app. Qed.
Lemma spelled_extend gs t new s : spelled (gs ++ [t]) s → spelled (gs ++ [t ++ new]) (s ++ toSelector new).
Proof.
  intros H. remember (gs ++ [t]) as g eqn:E. destruct H as [t'|gs' s sep t' H Hs].
  - apply (app_inj_tail [] gs) in E as [<- ->]. rewrite <- toSelector_app. apply spelled_first.
  - apply app_inj_tail in E as [-> ->]. rewrite <- !app_assoc, <- toSelector_app. by apply spelled_next.
Qed.
Lemma spelled_comma gs sep s : spelled gs s → comma_text sep → spelled (gs ++ [[]]) (s ++ sep).
Proof. intros H Hs. rewrite <- (app_nil_r sep). by apply spelled_next. Qed.

(** *** Facts about the expressions *)
Lemma lang_comma u : lang rcomma u → comma_text u.
Proof.
  intros (? & v & -> & -> & a & w & -> & Ha & ? & x & -> & (y & z & -> & (c & -> & Hc) & ->) & b & e & -> & Hb & ->).
  apply N.eqb_eq in Hc as <-. exists a, b. rewrite !app_nil_r. split; [done|]. by split; apply (lang_star_unit is_ws).
Qed.
Definition blank (s : text) : Prop := Forall (λ x, is_ws x = true) s.
Lemma lang_combinator u : lang rcombinators u → u ≠ [] ∧ 44%N ∉ u.
Proof.
  intros (? & v & -> & -> & a & w & -> & Ha & x & y & -> & Hx & b & e & -> & Hb & ->).
  rewrite app_nil_r, app_nil_l. apply lang_star_unit in Ha, Hb. split.
  - intros E. apply app_eq_nil in E as [_ E]. apply app_eq_nil in E as [E _]. simpl in E. subst x.
    by destruct Hx as [(c & ? & _)|(c & ? & _)].
  - rewrite !elem_of_app. intros [H|[H|H]].
    + eapply Forall_forall in Ha; [|exact H]. by vm_compute in Ha.
    + destruct Hx as [(c & -> & Hc)|(c & -> & Hc)]; apply list_elem_of_singleton in H as <-; by vm_compute in Hc.
    + eapply Forall_forall in Hb; [|exact H]. by vm_compute in Hb.
Qed.
(** No filter matches something that starts with white space or a comma. *)
Definition plain_start (x : N) : bool := negb (is_ws x || (x =? 44)%N).
Definition filter_re (t : filter_type) : re :=
  match t with
  | FTag => TAG_re | FClass => CLASS_re | FAttr => ATTR_re | FChild => CHILD_re | FPseudo => PSEUDO_re | FId => ID_re
  end.
Lemma filter_start t x u : lang (filter_re t) (x :: u) → plain_start x = true.
Proof.
  intros H%may_start_spec. unfold plain_start, is_ws, among. apply negb_true_iff, not_true_iff_false.
  intros Hx. rewrite orb_true_iff, existsb_exists, N.eqb_eq in Hx.
  assert (x ∈ [32; 9; 13; 10; 12; 44]%N) as Hi.
  { destruct Hx as [(y & Hy & <-%N.eqb_eq)| ->]; [|set_solver]. apply list_elem_of_In in Hy. set_solver. }
  revert H. revert x Hi Hx. assert (Forall (λ x, may_start x (filter_re t) = false) [32; 9; 13; 10; 12; 44]%N) as Hall.
  { destruct t; vm_compute; repeat constructor. }
  intros x Hi _ H. eapply Forall_forall in Hi; [|exact Hall]. simpl in Hi. congruence.
Qed.


(** White space is matched as far as it goes. *)
Lemma forget_nil c : forget [] c = c.
Proof. unfold forget. apply filter_all. done. Qed.
Lemma repeat_ws n b w s c k x :
  blank w → length w ≤ n → (∀ y, head s = Some y → is_ws y = false) → k (rev w ++ b) s c = Some x →
  repeat (rmatch whitespace) n [] b (w ++ s) c k = Some x.
Proof.
  intros Hw Hn Hs Hk. revert n b Hn Hk. induction Hw as [|y w Hy Hw IH]; intros n b Hn Hk.
  - destruct n; [done|]. simpl. destruct s as [|y s]; [done|]. by rewrite (Hs y).
  - destruct n as [|n]; [simpl in Hn; lia|]. simpl. rewrite Hy, forget_nil.
    replace (length (w ++ s) <? S (length (w ++ s))) with true by (symmetry; apply Nat.ltb_lt; lia).
    rewrite IH; [done|simpl in Hn; lia|]. simpl in Hk. by rewrite <- app_assoc in Hk.
Qed.
Lemma exec_comma_all a b : blank a → blank b → ∃ u c, exec rcomma (a ++ txt "," ++ b) = Some (u, [], c).
Proof.
  intros Ha Hb. unfold exec, exec_at, rcomma, ws_star. cbn [seqs foldr rmatch groups_in].
  rewrite repeat_ws with (x := ([], [])); [by eexists _, _|done|rewrite length_app; lia|by intros y [= <-]|].
  simpl. rewrite <- (app_nil_r b) at 2. by apply repeat_ws.
Qed.
Lemma comma_left m s a b :
  m ++ s = a ++ txt "," ++ b → 44%N ∉ m → ∃ a', a = m ++ a' ∧ s = a' ++ txt "," ++ b.
Proof.
  revert a. induction m as [|x m IH]; intros a E Hm; [by exists a|].
  apply not_elem_of_cons in Hm as [Hx Hm]. destruct a as [|y a]; simpl in E; injection E as -> E; [done|].
  destruct (IH a E Hm) as (a' & -> & ->). by exists a'.
Qed.

(** ** Reading with any good cache *)
Definition excess_of (u : text) : outcome nat :=
  match tokenize_excess (S (length u)) u createCache with Some (o, _) => o | None => Throw (JsError "") end.
(** The cache holds what reading without a cache gives. *)
Definition cache_ok (c : TokenCache) : Prop :=
  ∀ key groups, cache_get key c = Some groups →
    read_tokens (tokenize_excess (length key)) key createCache = Some (Ret ([], groups), createCache).
Lemma cache_ok_empty : cache_ok createCache.
Proof. intros key groups H. done. Qed.
(** The computation answers [o] and leaves the cache alone. *)
Definition answers {A} (m : MT A) (o : outcome A) : Prop := ∀ c, cache_ok c → m c = Some (o, c).
Lemma answers_ret {A} (a : A) : answers (mret a) (Ret a).
Proof. done. Qed.
Lemma answers_error {A} s : ∃ e, ∀ po : text → MT nat, answers (@syntax_error A s) (Throw e).
Proof. eexists. done. Qed.
Lemma answers_bind {A B} (m : MT A) (f : A → MT B) a o : answers m (Ret a) → answers (f a) o → answers (m ≫= f) o.
Proof. intros Hm Hf c Hc. mstep. rewrite (Hm c Hc). by apply Hf. Qed.
Lemma answers_throw {A B} (m : MT A) (f : A → MT B) e : answers m (Throw e) → answers (m ≫= f) (Throw e).
Proof. intros Hm c Hc. mstep. by rewrite (Hm c Hc). Qed.

Section Reading.
(** [parseOnly] answers as it should for texts shorter than [L]. *)
Context (L : nat).
Definition agrees (po : text → MT nat) : Prop := ∀ u, length u < L → answers (po u) (excess_of u).
(** Whatever [parseOnly] is, the computation has one answer; a value satisfies [Q]. *)
Definition reads {A} (X : (text → MT nat) → MT A) (Q : A → Prop) : Prop :=
  ∃ o, (∀ po, agrees po → answers (X po) o) ∧ match o with Ret a => Q a | Throw _ => True end.
Lemma reads_ret {A} (a : A) (Q : A → Prop) : Q a → reads (λ _, mret a) Q.
Proof. intros H. by exists (Ret a). Qed.
Lemma reads_error {A} s (Q : A → Prop) : reads (λ _, syntax_error s) Q.
Proof. by eexists (Throw _). Qed.
Lemma reads_bind {A B} X (f : A → (text → MT nat) → MT B) P Q :
  reads X P → (∀ a, P a → reads (f a) Q) → reads (λ po, X po ≫= λ a, f a po) Q.
Proof.
  intros ([a|e] & HX & HP) Hf.
  - destruct (Hf a HP) as (o & Ho & HQ). exists o. split; [|done]. intros po Hpo. eapply answers_bind; [by apply HX|by apply Ho].
  - exists (Throw e). split; [|done]. intros po Hpo. by apply answers_throw, HX.
Qed.
Lemma reads_mono {A} X (P Q : A → Prop) : reads X P → (∀ a, P a → Q a) → reads X Q.
Proof. intros (o & HX & HP) H. exists o. split; [done|]. destruct o; [by apply H|done]. Qed.

(** *** One filter *)
(** What a filter has matched is a prefix of the text that does not start with white space or
    a comma. *)
Definition matched_ok (soFar m : text) : Prop :=
  (∃ rest, soFar = m ++ rest) ∧ match m with x :: _ => plain_start x = true | [] => True end.
Lemma matched_ok_take soFar m n : matched_ok soFar m → matched_ok soFar (take n m).
Proof.
  intros [[rest ->] Hm]. split; [exists (drop n m ++ rest); by rewrite app_assoc, take_drop|].
  destruct m as [|x m]; [by destruct n|]. by destruct n.
Qed.
Definition filter_post (soFar : text) (r : option (text * tok_kind)) : Prop :=
  match r with Some (m, _) => matched_ok soFar m | None => True end.
Lemma pseudo_reads soFar m c :
  length soFar ≤ L → matched_ok soFar m → length (capture 2 c) < length soFar →
  reads (λ po, preFilter_PSEUDO po m c) (filter_post soFar).
Proof.
  intros HL Hm Hc. unfold preFilter_PSEUDO. destruct (test CHILD_re m); [by apply reads_ret|].
  destruct (capture 3 c); [|by apply reads_ret].
  set (unquoted := match capture 6 c with [] => _ | _ => _ end).
  destruct (negb _ && _) eqn:E; [|by apply reads_ret].
  assert (Hu : length unquoted < L).
  { unfold unquoted in *. destruct (capture 6 c); simpl; lia. }
  apply (reads_bind (λ po, po unquoted) (λ a _, _) (λ _, True)).
  - exists (excess_of unquoted). split; [|by destruct (excess_of unquoted)]. intros po Hpo. by apply Hpo.
  - intros excess _. destruct (excess =? 0); [by apply reads_ret|]. apply reads_ret. simpl.
    unfold slice_to. by apply matched_ok_take.
Qed.
Lemma exec_matched t soFar m s c :
  exec (filter_re t) soFar = Some (m, s, c) → matched_ok soFar m.
Proof.
  intros (-> & Hl & _)%exec_at_sound. split; [by exists s|]. destruct m as [|x m]; [done|]. by eapply filter_start.
Qed.
(** The argument of a pseudo-class is shorter than the text. *)
Lemma pseudo_argument soFar m s c :
  exec PSEUDO_re soFar = Some (m, s, c) → length (capture 2 c) < length soFar.
Proof.
  unfold exec, exec_at, PSEUDO_re, pseudos_re. set (rest := [Group 1 identifier; _]).
  cbn [seqs foldr rmatch lit txt List.map list_ascii_of_string]. destruct soFar as [|x soFar]; [done|].
  destruct (N.eqb _ x); [|done]. destruct (rmatch _ _ soFar [] _) as [[t c']|] eqn:E; [|done]. intros [= _ _ <-].
  apply rmatch_sound in E as (v & t' & c'' & -> & _ & Hc & [= -> ->]). unfold capture, cap.
  destruct (List.find _ c') as [p|] eqn:Ef; simpl; [|lia]. apply List.find_some in Ef as [Hin _].
  apply list_elem_of_In in Hin. destruct (Hc p Hin) as [?%elem_of_nil|?]; [done|lia].
Qed.
Lemma child_reads m c : reads (λ _, preFilter_CHILD m c) (λ _, True).
Proof.
  unfold preFilter_CHILD. destruct (is_nth _).
  - destruct (same _ []); [apply reads_error|by apply reads_ret].
  - destruct (same _ []); [by apply reads_ret|apply reads_error].
Qed.
Lemma match_filter_reads t soFar :
  length soFar ≤ L → reads (λ po, match_filter po t soFar) (filter_post soFar).
Proof.
  intros HL. destruct t; unfold match_filter;
    match goal with |- context [exec ?r soFar] => destruct (exec r soFar) as [[[m s] c]|] eqn:E end;
    try (by apply reads_ret).
  - by apply reads_ret, (exec_matched FTag _ _ _ _ E).
  - by apply reads_ret, (exec_matched FClass _ _ _ _ E).
  - by apply reads_ret, (exec_matched FAttr _ _ _ _ E).
  - eapply reads_bind; [apply child_reads|]. intros k _. by apply reads_ret, (exec_matched FChild _ _ _ _ E).
  - apply pseudo_reads; [done|by apply (exec_matched FPseudo _ _ _ _ E)|by eapply pseudo_argument].
  - by apply reads_ret, (exec_matched FId _ _ _ _ E).
Qed.

(** *** The loop *)
Definition stuck (s : text) : Prop := ∃ a b, s = a ++ txt "," ++ b ∧ blank a ∧ blank b.
Definition blank_start (s : text) : Prop := match s with x :: _ => plain_start x = false | [] => False end.
Lemma stuck_start s : stuck s → blank_start s.
Proof.
  intros (a & b & -> & Ha & _). destruct Ha as [|x a Hx _]; simpl; [done|]. unfold plain_start. by rewrite Hx.
Qed.
Definition filters_post (soFar : text) (tokens : list token) (matched : text) (r : text * list token * text) : Prop :=
  ∃ new, snd (fst r) = tokens ++ new ∧ soFar = toSelector new ++ fst (fst r) ∧
    (snd r = [] ∨ snd r = matched ∨ length (fst (fst r)) < length soFar) ∧
    (blank_start soFar → fst (fst r) = soFar).
Lemma filters_reads ts soFar tokens matched :
  length soFar ≤ L → reads (λ po, filters po ts soFar tokens matched) (filters_post soFar tokens matched).
Proof.
  revert soFar tokens matched. induction ts as [|t ts IH]; intros soFar tokens matched HL; simpl.
  { apply reads_ret. exists []. rewrite app_nil_r. naive_solver. }
  eapply reads_bind; [by apply match_filter_reads|]. intros [[m k]|] Hr; [|by apply IH].
  destruct Hr as [[rest ->] Hm]. rewrite drop_app_length. rewrite length_app in HL.
  eapply reads_mono; [apply IH; lia|]. intros [[s' toks] m'] (new & E1 & E2 & E3 & E4). simpl in *.
  exists (mkToken m k :: new). simpl. rewrite <- app_assoc in E1. rewrite E2, <- app_assoc. repeat split; [done| |].
  - destruct E3 as [?|[->|Hlt]]; [by left| |right; right; rewrite E2 in Hlt; rewrite !length_app in *; lia].
    destruct m as [|x m]; [by left|]. right; right. simpl. rewrite !length_app. lia.
  - destruct m as [|x m]; simpl in *; [intros H; rewrite E2 in E4; by apply E4|]. by rewrite Hm.
Qed.

(** What has been read spells the text before [soFar], or a comma was left alone. *)
Definition spelling (selector soFar : text) (groups : list (list token)) (tokens : list token) : Prop :=
  stuck soFar ∨ ∃ pre, spelled (groups ++ [tokens]) pre ∧ selector = pre ++ soFar.
Lemma spelling_tokens selector a soFar groups tokens new :
  (stuck (a ++ soFar) → stuck soFar) → a = toSelector new →
  spelling selector (a ++ soFar) groups tokens → spelling selector soFar groups (tokens ++ new).
Proof.
  intros Hs -> [H|(pre & H & ->)]; [left; auto|]. right. exists (pre ++ toSelector new).
  split; [by apply spelled_extend|]. by rewrite app_assoc.
Qed.
Lemma comma_spelling selector soFar groups tokens s g t :
  spelling selector soFar groups tokens → comma soFar groups tokens = (s, g, t) →
  spelling selector s g t ∧ length s ≤ length soFar.
Proof.
  intros Hsp. unfold comma. destruct (exec rcomma soFar) as [[[u s1] c]|] eqn:E; intros [= <- <- <-]; [|done].
  pose proof E as (-> & Hu & _)%exec_at_sound. apply lang_comma in Hu as (a & b & -> & Ha & Hb).
  destruct s1 as [|x s1]; simpl.
  - split; [|done]. left. rewrite app_nil_r. by exists a, b.
  - split; [|rewrite !length_app; simpl; lia]. destruct Hsp as [(a' & b' & E' & Ha' & Hb')|(pre & Hp & ->)].
    + rewrite E' in E. destruct (exec_comma_all a' b' Ha' Hb') as (u & c' & E''). congruence.
    + right. exists (pre ++ a ++ txt "," ++ b). split; [|by rewrite <- !app_assoc].
      apply spelled_comma; [done|]. by exists a, b.
Qed.
Lemma combinators_spelling selector soFar groups tokens s t m :
  spelling selector soFar groups tokens → combinators soFar tokens = (s, t, m) →
  spelling selector s groups t ∧ (m = [] ∧ s = soFar ∨ length s < length soFar).
Proof.
  intros Hsp. unfold combinators. destruct (exec rcombinators soFar) as [[[u s1] c]|] eqn:E; intros [= <- <- <-].
  - apply exec_at_sound in E as (-> & Hu & _). apply lang_combinator in Hu as [Hne Hc]. rewrite drop_app_length.
    split; [|right; rewrite length_app; destruct u; [done|simpl; lia]].
    apply (spelling_tokens _ u); [|by simpl; rewrite app_nil_r|done].
    intros (a & b & E & Ha & Hb). destruct (comma_left _ _ _ _ E Hc) as (a' & -> & ->).
    exists a', b. split; [done|]. split; [|done]. by apply Forall_app in Ha as [_ ?].
  - split; [done|by left].
Qed.
Definition reading (selector : text) (r : text * list (list token)) : Prop :=
  fst r = [] → spelled (snd r) selector ∨ snd r = [] ∧ selector = [].
Lemma spelling_reading selector s groups tokens :
  spelling selector s groups tokens → reading selector (s, groups ++ [tokens]).
Proof.
  intros [(a & b & -> & _)|(pre & Hs & ->)] E; simpl in *; [by destruct a|]. subst s. left. by rewrite app_nil_r.
Qed.
Lemma loop_reads selector n (start : bool) soFar groups tokens :
  length soFar < n → length soFar ≤ L →
  (if start then soFar = selector ∧ groups = [] ∧ tokens = [] else spelling selector soFar groups tokens) →
  reads (λ po, tokens_loop po n start soFar groups tokens) (reading selector).
Proof.
  revert start soFar groups tokens. induction n as [|n IH]; intros start soFar groups tokens Hn HL HI; [lia|].
  cbn [tokens_loop]. unfold same. case_bool_decide as Hs.
  { apply reads_ret. destruct start; [destruct HI as (-> & -> & ->); by right|]. by apply spelling_reading. }
  destruct (if start then (soFar, groups, tokens) else comma soFar groups tokens) as [[s1 g1] t1] eqn:E1.
  assert (H1 : spelling selector s1 g1 t1 ∧ length s1 ≤ length soFar).
  { destruct start; [|by eapply comma_spelling]. destruct HI as (-> & -> & ->). injection E1 as <- <- <-.
    split; [|done]. right. exists []. split; [apply (spelled_first [])|done]. }
  destruct (combinators s1 t1) as [[s2 t2] m2] eqn:E2.
  destruct H1 as [H1 L1]. destruct (combinators_spelling _ _ _ _ _ _ _ H1 E2) as [H2 L2].
  eapply reads_bind; [apply filters_reads; destruct L2 as [[_ ->]|?]; lia|].
  intros [[s3 t3] m3] (new & F1 & F2 & F3 & F4). simpl in *. subst t3.
  assert (H3 : spelling selector s3 g1 (t2 ++ new)).
  { apply (spelling_tokens _ (toSelector new)); [|done|by rewrite <- F2].
    rewrite <- F2. intros Hst. pose proof (F4 (stuck_start _ Hst)) as E. by rewrite E. }
  case_bool_decide as Hm; [by apply reads_ret, spelling_reading|].
  assert (length s3 ≤ length s2) by (rewrite F2, length_app; lia).
  apply IH; [| |done]; destruct L2 as [[-> ->]|L2], F3 as [?|[?|?]]; try done; lia.
Qed.
Lemma read_reads selector : length selector ≤ L → reads (λ po, read_tokens po selector) (reading selector).
Proof. intros H. unfold read_tokens. apply loop_reads; [lia|done|done]. Qed.
End Reading.

(** ** Texts of any length *)
Lemma read_at d selector :
  length selector ≤ d → agrees (length selector) (tokenize_excess d) ∧
  ∃ o, (∀ d', length selector ≤ d' → answers (read_tokens (tokenize_excess d') selector) o) ∧
       match o with Ret r => reading selector r | Throw _ => True end.
Proof.
  remember (length selector) as L eqn:EL. revert selector EL d. induction L as [L IH] using lt_wf_ind.
  intros selector -> d Hd.
  assert (HA : ∀ d, length selector ≤ d → agrees (length selector) (tokenize_excess d)).
  { clear d Hd. intros d Hd u Hu. destruct d as [|d]; [lia|].
    destruct (IH (length u) Hu u eq_refl (length u) (le_n _)) as (_ & o & Ho & _).
    unfold excess_of. cbn [tokenize_excess]. mstep. change (cache_get u createCache) with (@None (list (list token))). cbn beta iota. rewrite (Ho (length u)) by (done || apply cache_ok_empty).
    intros c Hc. mstep. destruct (cache_get u c) as [groups|] eqn:E.
    - apply Hc in E. rewrite (Ho (length u) (le_n _) _ cache_ok_empty) in E. injection E as ->. done.
    - simpl. rewrite (Ho d) by (done || lia). by destruct o. }
  split; [by apply HA|]. destruct (read_reads (length selector) selector (le_n _)) as (o & Ho & HQ).
  exists o. split; [|done]. intros d' Hd'. by apply Ho, HA.
Qed.
Lemma cache_get_put {V} key key' (v : V) c w :
  cache_get key (cache_put key' v c) = Some w → key = key' ∧ w = v ∨ cache_get key c = Some w.
Proof.
  unfold cache_get, cache_put. destruct (decide (key = key')) as [<-|Hne].
  - destruct (_ <? _); simpl; rewrite lookup_insert_eq; intros [= ->]; by left.
  - assert (key' ++ [32%N] ≠ key ++ [32%N]) by (intros [E _]%app_inj_tail; congruence).
    destruct (_ <? _); simpl; rewrite lookup_insert_ne by done; [|by right].
    destruct (keys c ++ _) as [|k ks]; [by right|]. rewrite lookup_delete_Some. intros [_ ?]. by right.
Qed.

(** What reading a selector answers without a cache. *)
Definition reading_of (selector : text) : outcome (list (list token)) :=
  match tokenize selector createCache with Some (o, _) => o | None => Throw (JsError "") end.
Lemma tokenize_answers selector c :
  cache_ok c → ∃ c', tokenize selector c = Some (reading_of selector, c') ∧ cache_ok c' ∧
    match reading_of selector with Ret groups => reading selector ([], groups) | Throw _ => True end.
Proof.
  intros Hc. destruct (read_at (length selector) selector (le_n _)) as (_ & o & Ho & HQ). specialize (Ho _ (le_n _)).
  unfold reading_of, tokenize. mstep. change (cache_get selector createCache) with (@None (list (list token))). cbn beta iota.
  rewrite (Ho _ cache_ok_empty).
  destruct (cache_get selector c) as [groups|] eqn:E.
  - pose proof (Hc _ _ E) as F. rewrite (Ho _ cache_ok_empty) in F. injection F as ->. by exists c.
  - rewrite (Ho _ Hc). destruct o as [[s groups]|e]; [|by exists c]. simpl. unfold same, syntax_error.
    case_bool_decide as Hs; [|mstep; by exists c]. subst s. eexists. split; [done|]. split; [|done].
    intros key groups' [[-> ->]|H]%cache_get_put; [|by apply Hc]. by apply Ho, cache_ok_empty.
Qed.

(** ** Properties *)
(** C29. Reading a selector always ends, and answers the same with any cache that earlier calls have filled as
    without: either an error, or groups of tokens that spell it, every character of the selector being in
    the value of one token or in a comma between two groups. *)
Theorem tokenize_spells (selector : text) (c : TokenCache) :
  cache_ok c →
  ∃ c', tokenize selector c = Some (reading_of selector, c') ∧ cache_ok c' ∧
    ∀ groups, reading_of selector = Ret groups → spelled groups selector ∨ groups = [] ∧ selector = [].
Proof.
  intros Hc. destruct (tokenize_answers selector c Hc) as (c' & H & Hc' & HQ).
  exists c'. split; [done|]. split; [done|]. intros groups E. rewrite E in HQ. by apply HQ.
Qed.
Example tokenize_spells_witness :
  cache_ok createCache ∧
  ∃ c', tokenize (txt "ul > li.odd, a:not([href='#'])") createCache = Some (reading_of (txt "ul > li.odd, a:not([href='#'])"), c') ∧
    cache_ok c' ∧
    ∀ groups, reading_of (txt "ul > li.odd, a:not([href='#'])") = Ret groups →
      spelled groups (txt "ul > li.odd, a:not([href='#'])") ∨ groups = [] ∧ txt "ul > li.odd, a:not([href='#'])" = [].
Proof. split; [apply cache_ok_empty|]. apply tokenize_spells, cache_ok_empty. Defined.
