(* ===== verification/JqMatcher.v ===== *)
(** * Matching elements against selectors

    Model of the compiled selectors of jquery-3.5.1.js: the filters made from tokens, the
    combinators with the caches they keep on the nodes they pass, [matcherFromTokens], and
    the loop of [matcherFromGroupMatchers] over the elements of a run. *)
From Stdlib Require Import ZArith NArith Lia Ascii String.
From stdpp Require Import base strings list gmap.
From S2P Require Import Prelude.
From S2P Require Import JqDom.
From S2P Require Import JqRegex.
From S2P Require Import JqSelector.

(** ** State *)
(** [[ dirruns, doneName, result ]]: the array a walk leaves on every node it has passed. *)
Record Arr := mkArr { a_run : Z; a_done : nat; a_result : option bool }.
Inductive Ctx := CNode (e : nat) | CNodes (l : list nat).
#[export] Instance Ctx_eq : EqDecision Ctx.
Proof. solve_decision. Defined.
(** [outermostContext]: [true] for a document or for no context. *)
Inductive Outer := OTrue | OCtx (c : Ctx).
#[export] Instance Outer_eq : EqDecision Outer.
Proof. solve_decision. Defined.
(** The numbers of runs are in units of 2^-53, the granularity of [Math.random]. *)
Record St := mkSt {
  dirruns : Z; done : nat;
  slots : gmap (nat * string) nat;              (* elem[ expando ][ uniqueID ][ key ]: an array of [arrays] *)
  arrays : list Arr;
  nth_cache : gmap nat (Z * nat * nat);         (* of a parent, key "nth": run, nodeIndex, diff *)
  nth_last_cache : gmap nat (Z * nat);          (* of an element, key "nth-last": run, diff *)
  checkContext : gmap nat Ctx;                  (* the variable of each compiled group *)
  outermostContext : option Outer;
  random : list Z                               (* what [Math.random] will answer *)
}.
Definition set_dirruns z s := mkSt z (done s) (slots s) (arrays s) (nth_cache s) (nth_last_cache s) (checkContext s) (outermostContext s) (random s).
Definition set_done n s := mkSt (dirruns s) n (slots s) (arrays s) (nth_cache s) (nth_last_cache s) (checkContext s) (outermostContext s) (random s).
Definition set_slots x s := mkSt (dirruns s) (done s) x (arrays s) (nth_cache s) (nth_last_cache s) (checkContext s) (outermostContext s) (random s).
Definition set_arrays x s := mkSt (dirruns s) (done s) (slots s) x (nth_cache s) (nth_last_cache s) (checkContext s) (outermostContext s) (random s).
Definition set_nth x s := mkSt (dirruns s) (done s) (slots s) (arrays s) x (nth_last_cache s) (checkContext s) (outermostContext s) (random s).
Definition set_nth_last x s := mkSt (dirruns s) (done s) (slots s) (arrays s) (nth_cache s) x (checkContext s) (outermostContext s) (random s).
Definition set_checkContext x s := mkSt (dirruns s) (done s) (slots s) (arrays s) (nth_cache s) (nth_last_cache s) x (outermostContext s) (random s).
Definition set_outermost x s := mkSt (dirruns s) (done s) (slots s) (arrays s) (nth_cache s) (nth_last_cache s) (checkContext s) x (random s).
Definition set_random x s := mkSt (dirruns s) (done s) (slots s) (arrays s) (nth_cache s) (nth_last_cache s) (checkContext s) (outermostContext s) x.
(** When the library has been loaded: [done] has counted [inDisabledFieldset]. *)
Definition initial_St (rnd : list Z) : St := mkSt 0 1 ∅ [] ∅ ∅ ∅ None rnd.

(** A compiled selector: [function( elem, context, xml )]. *)
Definition matcher := nat → option Ctx → bool → M St bool.
Definition pure_matcher (p : nat → bool) : matcher := λ e _ _, mret (p e).

Section Match.
Context (D : Dom).
Notation node := (node D).
Notation is_element := (is_element D).
Notation lower_name := (lower_name D).

(** ** [addCombinator] *)
Record Relation := mkRelation { r_dir : dir; r_next : option string; r_first : bool }.
(** [Expr.relative] *)
Definition relation (r : relative) : Relation :=
  match r with
  | Child => mkRelation ParentNode None true
  | Descendant => mkRelation ParentNode None false
  | Adjacent => mkRelation PreviousSibling None true
  | Sibling => mkRelation PreviousSibling None false
  end.
Definition dir_name (d : dir) : string :=
  match d with ParentNode => "parentNode" | PreviousSibling => "previousSibling" | NextSibling => "nextSibling" end.

Section Combinator.
Context (doneName : nat) (m : matcher) (c : Relation) (base : bool).
Definition key : string := default (dir_name (r_dir c)) (r_next c).
Definition checkNonElements : bool := base && String.eqb key "parentNode".
Definition is_counted (e : nat) : bool := is_element e || checkNonElements.
Definition skips (e : nat) : bool :=
  match r_next c with Some name => same (txt name) (lower_name e) | None => false end.

(** The closest ancestor or preceding element. *)
Fixpoint closest_loop (l : list nat) (context : option Ctx) (xml : bool) : M St bool :=
  match l with
  | [] => mret false
  | e :: l' => if is_counted e then m e context xml else closest_loop l' context xml
  end.
(** All of them, without a cache. *)
Fixpoint any_loop (l : list nat) (context : option Ctx) (xml : bool) : M St bool :=
  match l with
  | [] => mret false
  | e :: l' =>
      if is_counted e then r ← m e context xml; if r : bool then mret true else any_loop l' context xml
      else any_loop l' context xml
  end.
(** [newCache[ 2 ] = r] *)
Definition set_result (newCache : nat) (r : option bool) : M St unit :=
  modify (λ s, set_arrays (alter (λ a, mkArr (a_run a) (a_done a) r) newCache (arrays s)) s).
Definition old_cache (e : nat) : M St (option Arr) :=
  gets (λ s, match slots s !! (e, key) with Some r => arrays s !! r | None => None end).
Fixpoint cached_loop (newCache : nat) (l : list nat) (context : option Ctx) (xml : bool) : M St bool :=
  match l with
  | [] => mret false
  | e :: l' =>
      if is_counted e then
        if skips e then
          (* elem = elem[ dir ] || elem *)
          match l' with [] => mret false | _ :: l'' => cached_loop newCache l'' context xml end
        else
          oldCache ← old_cache e;
          run ← gets dirruns;
          match oldCache with
          | Some o =>
              if (a_run o =? run)%Z && (a_done o =? doneName) then
                set_result newCache (a_result o);; mret (default false (a_result o))
              else
                modify (λ s, set_slots (<[(e, key) := newCache]> (slots s)) s);;
                r ← m e context xml; set_result newCache (Some r);;
                if r : bool then mret true else cached_loop newCache l' context xml
          | None =>
              modify (λ s, set_slots (<[(e, key) := newCache]> (slots s)) s);;
              r ← m e context xml; set_result newCache (Some r);;
              if r : bool then mret true else cached_loop newCache l' context xml
          end
      else cached_loop newCache l' context xml
  end.
Definition combinator : matcher := λ e context xml,
  let l := path D (r_dir c) e in
  if r_first c then closest_loop l context xml
  else if xml then any_loop l context xml
  else
    newCache ← gets (λ s, length (arrays s));
    modify (λ s, set_arrays (arrays s ++ [mkArr (dirruns s) doneName None]) s);;
    cached_loop newCache l context xml.
End Combinator.
Definition addCombinator (m : matcher) (c : Relation) (base : bool) : M St matcher :=
  doneName ← gets done;
  modify (set_done (doneName + 1));;
  mret (combinator doneName m c base).

(** From the last to the first. *)
Fixpoint all_matchers (ms : list matcher) (e : nat) (context : option Ctx) (xml : bool) : M St bool :=
  match ms with
  | [] => mret true
  | m :: ms' => r ← m e context xml; if r : bool then all_matchers ms' e context xml else mret false
  end.
Definition elementMatcher (ms : list matcher) : matcher :=
  match ms with [m] => m | _ => all_matchers (rev ms) end.

(** ** [Expr.filter] *)
Definition filter_TAG (nodeNameSelector : text) : nat → bool :=
  let nodeName := lower (unescape nodeNameSelector) in
  λ e, same nodeNameSelector (txt "*") || (negb (same (lower_name e) []) && same (lower_name e) nodeName).
Definition filter_ID (id : text) : nat → bool :=
  let attrId := unescape id in
  λ e, bool_decide (getAttribute D (txt "id") e = Some attrId).

(** *** [new RegExp]: the text of a class, with what its escapes mean in an expression *)
Definition is_space_unit (c : N) : bool :=
  within 9 13 c || within 8192 8202 c || among [32; 160; 5760; 8232; 8233; 8239; 8287; 12288; 65279]%N c.
Definition class_escape (x : N) : option re :=
  match string_of_list_ascii [Ascii.ascii_of_N x] with
  | "d" => Some (Unit is_digit_unit) | "D" => Some (Unit (λ c, negb (is_digit_unit c)))
  | "w" => Some (Unit is_word_unit) | "W" => Some (Unit (λ c, negb (is_word_unit c)))
  | "s" => Some (Unit is_space_unit) | "S" => Some (Unit (λ c, negb (is_space_unit c)))
  | "b" => Some (Border true) | "B" => Some (Border false)
  | "t" => Some (Unit (N.eqb 9)) | "n" => Some (Unit (N.eqb 10)) | "v" => Some (Unit (N.eqb 11))
  | "f" => Some (Unit (N.eqb 12)) | "r" => Some (Unit (N.eqb 13))
  | _ => None
  end%string.
Fixpoint span (p : N → bool) (n : nat) (s : text) : text * text :=
  match n, s with
  | S n', x :: s' => if p x then let '(a, b) := span p n' s' in (x :: a, b) else ([], s)
  | _, _ => ([], s)
  end.
Definition is_octal : N → bool := within 48 55.
Definition digits_value (b : N) (s : text) : N := foldl (λ n c, b * n + (c - 48))%N 0%N s.
(** After a backslash: the expression and the rest of the text. *)
Definition escape_re (x : N) (s : text) : re * text :=
  if is_digit_unit x then
    let '(ds, rest) := span is_digit_unit (S (length s)) (x :: s) in
    let v := digits_value 10 ds in
    if negb (x =? 48)%N && (v <=? 2)%N then (Back (N.to_nat v), rest)
    else if is_octal x then
      let '(os, rest) := span is_octal (if (x <=? 51)%N then 3 else 2) (x :: s) in (Unit (N.eqb (digits_value 8 os)), rest)
    else (Unit (N.eqb x), s)
  else match class_escape x with
  | Some r => if (x <? 128)%N then (r, s) else (Unit (N.eqb x), s)
  | None =>
      let hex n := let '(hs, rest) := span is_hex n s in
        if length hs =? n then (Unit (N.eqb (hex_number hs)), rest) else (Unit (N.eqb x), s) in
      if (x =? 120)%N then hex 2 else if (x =? 117)%N then hex 4
      else if (x =? 99)%N then
        match s with
        | l :: s' => if within 65 90 (l - (if (97 <=? l)%N then 32 else 0)) then (Unit (N.eqb (l mod 32)), s') else (backslash, x :: s)
        | [] => (backslash, x :: s)
        end
      else (Unit (N.eqb x), s)
  end.
Fixpoint class_text_re (n : nat) (s : text) : re :=
  match n, s with
  | S n', x :: s' =>
      if (x =? 92)%N then
        match s' with
        | y :: s'' => let '(r, rest) := escape_re y s'' in Seq r (class_text_re n' rest)
        | [] => Eps
        end
      else Seq (Unit (N.eqb x)) (class_text_re n' s')
  | _, _ => Eps
  end.
Definition class_pattern (className : text) : re :=
  seqs [Group 1 (Alt Bol whitespace); class_text_re (length className) className; Group 2 (Alt whitespace Eol)].
Definition class_of (e : nat) : text :=
  or_else (default [] (className (node e))) (default [] (getAttribute D (txt "class") e)).
Definition filter_CLASS (name : text) : nat → bool := λ e, test (class_pattern name) (class_of e).

(** *** Attributes: [Sizzle.attr] with the handles that jQuery adds for [booleans] *)
Definition booleans : list text :=
  List.map txt ["checked"; "selected"; "async"; "autofocus"; "autoplay"; "controls"; "defer"; "disabled"; "hidden";
    "ismap"; "loop"; "multiple"; "open"; "readonly"; "required"; "scoped"]%string.
Definition attr (e : nat) (name : text) : option text :=
  if documentIsHTML D && bool_decide (lower name ∈ booleans)
  then (λ _, lower name) <$> getAttribute D name e
  else getAttribute D name e.
Definition collapse : text → text := replace (Plus whitespace) (λ _ _, txt " ").
Definition attr_test (result operator check : text) : bool :=
  let some := negb (same check []) in
  if same operator (txt "=") then same result check
  else if same operator (txt "!=") then negb (same result check)
  else if same operator (txt "^=") then some && has_prefix check result
  else if same operator (txt "*=") then some && includes check result
  else if same operator (txt "$=") then some && same (slice_end (length check) result) check
  else if same operator (txt "~=") then includes check (txt " " ++ collapse result ++ txt " ")
  else if same operator (txt "|=") then same result check || same (take (length check + 1) result) (check ++ txt "-")
  else false.
Definition filter_ATTR (name : text) (operator : option text) (check : text) : nat → bool := λ e,
  match attr e name with
  | None => bool_decide (operator = Some (txt "!="))
  | Some result => match operator with None => true | Some op => attr_test result op check end
  end.

(** *** Children by position *)
(** The last three statements: [diff -= last] and the test against the cycle. *)
Definition in_cycle (first last diff : Z) : bool :=
  let diff := (diff - last)%Z in
  (diff =? first)%Z || negb (first =? 0)%Z && (Z.rem diff first =? 0)%Z && (0 <=? diff * first)%Z.
Definition of_kind (ofType : bool) (name : text) (n : nat) : bool :=
  if ofType then same (lower_name n) name else is_element n.
(** [:first-*], [:last-*] and [:only-*]. *)
Definition simple_child (type : text) (ofType : bool) (e : nat) : bool :=
  let none d := negb (existsb (of_kind ofType (lower_name e)) (path D d e)) in
  let forward := negb (same (slice_end 4 type) (txt "last")) in
  none (if forward then PreviousSibling else NextSibling) &&
  (if same type (txt "only") then none NextSibling else true).
(** [:nth-child]: the children from index [i] on; where [elem] is, and how many elements up to it. *)
Fixpoint seek_elem (e : nat) (l : list nat) (i diff : nat) : option (nat * nat) :=
  match l with
  | [] => None
  | n :: l' =>
      if is_element n then if n =? e then Some (i, S diff) else seek_elem e l' (S i) (S diff)
      else seek_elem e l' (S i) diff
  end.
Definition nth_forward (e parent : nat) : M St nat :=
  run ← gets dirruns;
  cache ← gets (λ s, nth_cache s !! parent);
  let '(nodeIndex, diff) :=
    match cache with
    | Some (r, i, d) => if (r =? run)%Z then (i, if i =? 0 then 0 else d) else (0, 0)
    | None => (0, 0)
    end in
  let onward :=
    if nodeIndex =? 0 then None
    else match childNodes (node parent) !! nodeIndex with
         | Some n => seek_elem e (path D NextSibling n) (S nodeIndex) diff
         | None => None
         end in
  (* then from the start *)
  match (match onward with Some x => Some x | None => seek_elem e (from D NextSibling (firstChild D parent)) 0 0 end) with
  | Some (i, d) => modify (λ s, set_nth (<[parent := (run, i, d)]> (nth_cache s)) s);; mret d
  | None => mret 0
  end.
(** The other counts; [useCache]: the number of each element on the way is stored. *)
Fixpoint count_loop (e : nat) (ofType useCache : bool) (name : text) (l : list nat) (diff : nat) : M St (option nat) :=
  match l with
  | [] => mret None
  | n :: l' =>
      if of_kind ofType name n then
        when useCache (modify (λ s, set_nth_last (<[n := (dirruns s, S diff)]> (nth_last_cache s)) s));;
        if n =? e then mret (Some (S diff)) else count_loop e ofType useCache name l' (S diff)
      else count_loop e ofType useCache name l' diff
  end.
Definition nth_other (e parent : nat) (forward ofType useCache : bool) : M St nat :=
  let d := if forward then NextSibling else PreviousSibling in
  let name := lower_name e in
  run ← gets dirruns;
  cache ← gets (λ s, nth_last_cache s !! e);
  match (if useCache then match cache with Some (r, d) => if (r =? run)%Z then Some d else None | None => None end else None) with
  | Some diff => mret diff
  | None =>
      (* [node] is [elem] when the cache was looked up, undefined otherwise *)
      x ← (if useCache then count_loop e ofType useCache name (path D d e) 0 else mret None);
      match x with
      | Some diff => mret diff
      | None =>
          x ← count_loop e ofType useCache name (from D d (if forward then firstChild D parent else lastChild D parent)) 0;
          mret (default 0 x)
      end
  end.
Definition filter_CHILD (type what : text) (first last : Z) : matcher :=
  let simple := negb (is_nth type) in
  let forward := negb (same (slice_end 4 type) (txt "last")) in
  let ofType := same what (txt "of-type") in
  λ e _ xml,
    match parentNode (node e) with
    | None => mret false
    | Some parent =>
        if (first =? 1)%Z && (last =? 0)%Z then mret true else
        if simple then mret (simple_child type ofType e) else
        let useCache := negb xml && negb ofType in
        diff ← (if forward && useCache then nth_forward e parent else nth_other e parent forward ofType useCache);
        mret (in_cycle first last (Z.of_nat diff))
    end.

(** *** Pseudo-classes *)
Definition truthy (t : text) : bool := negb (same t []).
Definition name_is (e : nat) (s : string) : bool := same (lower_name e) (txt s).
Definition type_is (e : nat) (s : string) : bool := bool_decide (p_type (props (node e)) = Some (txt s)).
Definition createInputPseudo (t : string) (e : nat) : bool := name_is e "input" && type_is e t.
Definition createButtonPseudo (t : string) (e : nat) : bool := (name_is e "input" || name_is e "button") && type_is e t.
(** The first combinator of the library. *)
Definition inDisabledFieldset : matcher :=
  combinator 0 (pure_matcher (λ e, bool_decide (p_disabled (props (node e)) = Some true) && name_is e "fieldset"))
    (mkRelation ParentNode (Some "legend"%string) false) false.
Definition createDisabledPseudo (disabled : bool) : matcher := λ e _ _,
  let p := props (node e) in
  let elem_is := bool_decide (p_disabled p = Some disabled) in
  if in_form p then
    match parentNode (node e) with
    | Some parent =>
        if bool_decide (p_disabled p = Some false) then
          if in_label p then
            if in_label (props (node parent)) then mret (bool_decide (p_disabled (props (node parent)) = Some disabled))
            else mret elem_is
          else if bool_decide (p_isDisabled p = Some disabled) then mret true
          else if bool_decide (p_isDisabled p = Some (negb disabled)) then mret false
          else r ← inDisabledFieldset e None false; mret (Bool.eqb r disabled)
        else mret elem_is
    | None => mret elem_is
    end
  else if in_label p then mret elem_is
  else mret false.
Definition lang_of (e : nat) : text :=
  if documentIsHTML D then p_lang (props (node e))
  else or_else (default [] (getAttribute D (txt "xml:lang") e)) (default [] (getAttribute D (txt "lang") e)).
Fixpoint lang_loop (lang : text) (l : list nat) : bool :=
  match l with
  | [] => false
  | e :: l' =>
      let elemLang := lower (lang_of e) in
      if truthy elemLang then same elemLang lang || has_prefix (lang ++ txt "-") elemLang
      else match l' with p :: _ => if is_element p then lang_loop lang l' else false | [] => false end
  end.
Definition focus (e : nat) : bool :=
  bool_decide (activeElement D = Some e) && hasFocus D &&
  (truthy (default [] (p_type (props (node e)))) || p_href (props (node e)) || negb (p_tabIndex (props (node e)) =? -1)%Z).
Definition empty (e : nat) : bool :=
  negb (existsb (λ c, nodeType (node c) <? 6) (from D NextSibling (firstChild D e))).
Definition text_input (e : nat) : bool :=
  name_is e "input" && type_is e "text" &&
  match getAttribute D (txt "type") e with None => true | Some a => same (lower a) (txt "text") end.
Definition rheader (e : nat) : bool := test (seqs [Bol; lit_i "h"; Unit is_digit_unit; Eol]) (nodeName (node e)).
Definition rinputs (e : nat) : bool :=
  test (seqs [Bol; alts (lit_i "input") (List.map lit_i ["select"; "textarea"; "button"]%string); Eol]) (nodeName (node e)).
Definition target (e : nat) : bool :=
  truthy (location_hash D) && same (drop 1 (location_hash D)) (default [] (lookup_text (txt "id") (attributes (node e)))).

(** The entries of [Expr.pseudos]; [Special]: filters of sets, and those that compile or run
    another selector. *)
Inductive pseudo_entry :=
  | Plain (p : nat → bool)
  | Disabled (disabled : bool)                       (* createDisabledPseudo *)
  | WithArgument (f : option text → outcome (nat → bool))
  | Special.
Definition contains_pseudo (argument : option text) : outcome (nat → bool) :=
  match argument with
  | Some t => let t := unescape t in Ret (λ e, includes t (textContent D e))
  | None => Throw (JsError "TypeError")
  end.
Definition error_text (s : string) (t : text) : exn := JsError (s ++ string_of_list_ascii (List.map Ascii.ascii_of_N t)).
Definition lang_pseudo (argument : option text) : outcome (nat → bool) :=
  let lang := default [] argument in
  if negb (test ridentifier lang) then
    Throw (error_text "Syntax error, unrecognized expression: unsupported lang: " (default (txt "undefined") argument))
  else
    let lang := lower (unescape lang) in
    Ret (λ e, lang_loop lang (e :: path D ParentNode e)).
Definition pseudos : list (string * pseudo_entry) :=
  [("not", Special); ("has", Special); ("contains", WithArgument contains_pseudo); ("lang", WithArgument lang_pseudo);
   ("target", Plain target); ("root", Plain (Nat.eqb (documentElement D))); ("focus", Plain focus);
   ("enabled", Disabled false); ("disabled", Disabled true);
   ("checked", Plain (λ e, name_is e "input" && p_checked (props (node e)) || name_is e "option" && p_selected (props (node e))));
   ("selected", Plain (λ e, p_selected (props (node e))));
   ("empty", Plain empty); ("parent", Plain (λ e, negb (empty e)));
   ("header", Plain rheader); ("input", Plain rinputs);
   ("button", Plain (λ e, name_is e "input" && type_is e "button" || name_is e "button"));
   ("text", Plain text_input);
   ("first", Special); ("last", Special); ("eq", Special); ("even", Special); ("odd", Special);
   ("lt", Special); ("gt", Special); ("nth", Special);
   ("radio", Plain (createInputPseudo "radio")); ("checkbox", Plain (createInputPseudo "checkbox"));
   ("file", Plain (createInputPseudo "file")); ("password", Plain (createInputPseudo "password"));
   ("image", Plain (createInputPseudo "image"));
   ("submit", Plain (createButtonPseudo "submit")); ("reset", Plain (createButtonPseudo "reset"));
   ("hidden", Plain (λ e, negb (has_box (props (node e))))); ("visible", Plain (λ e, has_box (props (node e))));
   ("animated", Plain (λ e, existsb (Nat.eqb e) (timers D)));
   (* found on Object.prototype *)
   ("constructor", Special); ("hasOwnProperty", Special); ("isPrototypeOf", Special); ("propertyIsEnumerable", Special);
   ("toString", Special); ("valueOf", Special); ("toLocaleString", Special); ("__proto__", Special);
   ("__defineGetter__", Special); ("__defineSetter__", Special); ("__lookupGetter__", Special); ("__lookupSetter__", Special)]%string.
Definition find_pseudo (name : text) : option pseudo_entry :=
  snd <$> List.find (λ p, same (txt (fst p)) name) pseudos.
(** [None]: a special filter. *)
Definition entry_of (pseudo : text) : option pseudo_entry :=
  match find_pseudo pseudo with Some x => Some x | None => find_pseudo (lower pseudo) end.
Definition filter_PSEUDO (pseudo : text) (argument : option text) : M St (option matcher) :=
  match entry_of pseudo with
  | Some (Plain p) => mret (Some (pure_matcher p))
  | Some (Disabled disabled) => mret (Some (createDisabledPseudo disabled))
  | Some (WithArgument f) => p ← lift (f argument); mret (Some (pure_matcher p))
  | Some Special => mret None
  | None => raise (error_text "Syntax error, unrecognized expression: unsupported pseudo: " pseudo)
  end.
Definition filter_of (k : tok_kind) : M St (option matcher) :=
  match k with
  | Relative _ => mret None
  | TAG name => mret (Some (pure_matcher (filter_TAG name)))
  | CLASS name => mret (Some (pure_matcher (filter_CLASS name)))
  | ATTR name operator check => mret (Some (pure_matcher (filter_ATTR name operator check)))
  | CHILD type what first last => mret (Some (filter_CHILD type what first last))
  | PSEUDO pseudo argument => filter_PSEUDO pseudo argument
  | ID id => mret (Some (pure_matcher (filter_ID id)))
  end.

(** ** [matcherFromTokens] *)
Definition in_checkContext (group : nat) : matcher := λ e _ _,
  gets (λ s, match checkContext s !! group with Some (CNode n) => e =? n | _ => false end).
Definition in_any_context (group : nat) : matcher := λ e _ _,
  gets (λ s, match checkContext s !! group with Some (CNodes l) => existsb (Nat.eqb e) l | _ => false end).
(** The foundational matcher; [group] names its variable [checkContext]. *)
Definition foundation (group : nat) (leadingRelative : bool) (matchContext matchAnyContext : matcher) : matcher := λ e context xml,
  outermost ← gets outermostContext;
  ret ← (if negb leadingRelative && (xml || negb (bool_decide (OCtx <$> context = outermost))) then mret true
         else match context with
              | Some c =>
                  modify (λ s, set_checkContext (<[group := c]> (checkContext s)) s);;
                  match c with CNode _ => matchContext e context xml | CNodes _ => matchAnyContext e context xml end
              | None => raise (JsError "TypeError")
              end);
  modify (λ s, set_checkContext (delete group (checkContext s)) s);;
  mret ret.
Definition relation_of (t : token) : option relative := match type t with Relative r => Some r | _ => None end.
(** [None]: the compound needs [setMatcher]. *)
Fixpoint matchers_loop (tokens : list token) (matchers : list matcher) : M St (option matcher) :=
  match tokens with
  | [] => mret (Some (elementMatcher matchers))
  | t :: tokens' =>
      match relation_of t with
      | Some r => m ← addCombinator (elementMatcher matchers) (relation r) false; matchers_loop tokens' [m]
      | None =>
          f ← filter_of (type t);
          match f with
          | Some m => matchers_loop tokens' (matchers ++ [m])
          | None => mret None
          end
      end
  end.
Definition matcherFromTokens (tokens : list token) : M St (option matcher) :=
  match tokens with
  | [] => raise (JsError "TypeError")
  | t :: tokens' =>
      let leadingRelative := relation_of t in
      let implicitRelative := relation (default Descendant leadingRelative) in
      group ← gets done;
      matchContext ← addCombinator (in_checkContext group) implicitRelative true;
      matchAnyContext ← addCombinator (in_any_context group) implicitRelative true;
      matchers_loop (match leadingRelative with Some _ => tokens' | None => tokens end)
        [foundation group (match leadingRelative with Some _ => true | None => false end) matchContext matchAnyContext]
  end.

(** ** [compile]: the groups from the last to the first *)
Fixpoint compile_groups (groups : list (list token)) : M St (option (list matcher)) :=
  match groups with
  | [] => mret (Some [])
  | g :: groups' =>
      m ← matcherFromTokens g;
      ms ← compile_groups groups';
      mret (match m, ms with Some m, Some ms => Some (m :: ms) | _, _ => None end)
  end.
Definition compile (groups : list (list token)) : M St (option (list matcher)) := compile_groups (rev groups).

(** ** [matcherFromGroupMatchers], for selectors without a filter of sets *)
Fixpoint some_matcher (ms : list matcher) (e : nat) (context : option Ctx) (xml : bool) : M St bool :=
  match ms with
  | [] => mret false
  | m :: ms' => r ← m e context xml; if r : bool then mret true else some_matcher ms' e context xml
  end.
Definition one_run : Z := 2 ^ 53.
Definition a_tenth : Z := 900719925474099.
Definition next_random : M St Z := λ s,
  match random s with x :: l => (Ret x, set_random l s) | [] => (Ret 0%Z, s) end.
Fixpoint elements_loop (ms : list matcher) (elems : list nat) (context : option Ctx) (xml : bool) (outermost : option Outer)
    (dirrunsUnique : Z) (results : list nat) : M St (list nat) :=
  match elems with
  | [] => mret results
  | e :: elems' =>
      matched ← some_matcher ms e (Some (default (CNode (document D)) context)) xml;
      when (bool_decide (outermost ≠ None)) (modify (set_dirruns dirrunsUnique));;
      elements_loop ms elems' context xml outermost dirrunsUnique (if matched : bool then results ++ [e] else results)
  end.
(** [context == document || context || outermost] *)
Definition outermost_context (context : option Ctx) (outermost : option Outer) : option Outer :=
  match context with
  | Some c => if bool_decide (c = CNode (document D)) then Some OTrue else Some (OCtx c)
  | None => outermost
  end.
Definition superMatcher (ms : list matcher) (seed : option (list nat)) (context : option Ctx) (xml : bool)
    (results : list nat) (outermost : option Outer) : M St (list nat) :=
  contextBackup ← gets outermostContext;
  let elems :=
    match seed with
    | Some l => l
    | None => match outermost with Some (OCtx (CNode n)) => elements_below D n | _ => [] end
    end in
  step ← (match contextBackup with
          | None => mret one_run
          | Some _ => r ← next_random; mret (if (r =? 0)%Z then a_tenth else r)
          end);
  modify (λ s, set_dirruns (dirruns s + step) s);;
  dirrunsUnique ← gets dirruns;
  when (bool_decide (outermost ≠ None)) (modify (set_outermost (outermost_context context outermost)));;
  results ← elements_loop ms elems context xml outermost dirrunsUnique results;
  when (bool_decide (outermost ≠ None)) (modify (λ s, set_outermost contextBackup (set_dirruns dirrunsUnique s)));;
  mret results.
End Match.

(** ** [compilerCache] and [Sizzle.matches]
    A compiled function is made from the groups and from the value [done] had then: an entry
    of the cache keeps both. *)
Notation CompilerCache := (Cache (list (list token) * nat)).
Record Caches := mkCaches { token_cache : TokenCache; compiler_cache : CompilerCache }.
Definition no_caches : Caches := mkCaches createCache createCache.
(** The context of a search with given elements: [context] is a node or [null]. *)
Definition testContext (D : Dom) (context : option nat) : option nat :=
  match context with Some c => if nodeType (node D c) =? 11 then None else Some c | None => None end.
Definition outermost_of (D : Dom) (selector : text) (context : option nat) : Outer :=
  match context with
  | None => OTrue
  | Some c =>
      match (if test rsibling selector then testContext D (parentNode (node D c)) else None) with
      | Some p => OCtx (CNode p)
      | None => OCtx (CNode c)
      end
  end.
(** A run of the compiled function over given elements. The result is [None] where the
    selector needs a filter of sets. *)
Definition run_seed (D : Dom) (context : option nat) (selector : text) (ms : option (list matcher)) (elements : list nat) : M St (option (list nat)) :=
  match ms with
  | Some ms =>
      results ← superMatcher D ms (Some elements) (CNode <$> context) (negb (documentIsHTML D)) [] (Some (outermost_of D selector context));
      mret (Some results)
  | None => mret None
  end.
(** [compile( selector )] and the call of what it returns. *)
Definition select_seed (D : Dom) (context : option nat) (selector : text) (elements : list nat) (c : Caches) (s : St) : option (outcome (option (list nat)) * (Caches * St)) :=
  match cache_get selector (compiler_cache c) with
  | Some (groups, d) =>
      match fst (compile D groups (set_done d s)) with
      | Ret ms => let '(o, s') := run_seed D context selector ms elements s in Some (o, (c, s'))
      | Throw e => Some (Throw e, (c, s))
      end
  | None =>
      match tokenize selector (token_cache c) with
      | Some (Ret groups, tc) =>
          match compile D groups s with
          | (Ret ms, s1) =>
              let c := mkCaches tc (cache_put selector (groups, done s) (compiler_cache c)) in
              let '(o, s') := run_seed D context selector ms elements s1 in Some (o, (c, s'))
          | (Throw e, s1) => Some (Throw e, (mkCaches tc (compiler_cache c), s1))
          end
      | Some (Throw e, tc) => Some (Throw e, (mkCaches tc (compiler_cache c), s))
      | None => None
      end
  end.
(** [Sizzle( expr, context, null, elements )] *)
Definition Sizzle_seed (D : Dom) (context : option nat) (expr : text) (elements : list nat) (c : Caches) (s : St) : option (outcome (option (list nat)) * (Caches * St)) :=
  let nodeType := match context with Some c => nodeType (node D c) | None => 9 end in
  if same expr [] || negb (existsb (Nat.eqb nodeType) [1; 9; 11]) then Some (Ret (Some []), (c, s))
  else select_seed D context (trim_selector expr) elements c s.
(** [Sizzle.matches( expr, elements )], which is [Sizzle( expr, null, null, elements )]. *)
Definition matches (D : Dom) (expr : text) (elements : list nat) (c : Caches) (s : St) : option (outcome (option (list nat)) * (Caches * St)) :=
  Sizzle_seed D None expr elements c s.
