(* ===== verification/JqMatcherFacts.v ===== *)
(** * What selectors mean, and the caches of their combinators

    The meaning of a selector on a document, without evaluation order or caches, and the
    proof that a combinator of JqMatcher, with the arrays it leaves on the nodes it passes,
    answers what a walk without them answers. *)
From Stdlib Require Import ZArith NArith Lia Ascii String.
From stdpp Require Import base strings list gmap relations.
From S2P Require Import Prelude.
From S2P Require Import JqDom.
From S2P Require Import JqRegex.
From S2P Require Import JqSelector.
From S2P Require Import JqMatcher.

(** ** The meaning of selectors *)
Section Meaning.
Context (D : Dom).
Notation node := (node D).
Notation is_element := (is_element D).

(** *** Combinators *)
Definition ancestor (e q : nat) : Prop := tc (λ a b, parentNode (node a) = Some b) e q.
(** [q] comes before [e] among the children of their parent, with [between] between them. *)
Definition before (q : nat) (between : list nat) (e : nat) : Prop :=
  ∃ l1 l2, siblings_of D e = l1 ++ q :: between ++ e :: l2.
Definition related (r : relative) (e q : nat) : Prop :=
  match r with
  | Child => parentNode (node e) = Some q
  | Descendant => ancestor e q
  | Adjacent => ∃ between, before q between e ∧ Forall (λ x, is_element x = false) between
  | Sibling => ∃ between, before q between e
  end.

(** *** Simple selectors *)
(** The number of an element among the nodes of its kind, from the first or from the last. *)
Definition position (forward ofType : bool) (e : nat) : nat :=
  S (length (List.filter (of_kind D ofType (lower_name D e)) (path D (if forward then PreviousSibling else NextSibling) e))).
Definition child_test (type what : text) (first last : Z) (e : nat) : bool :=
  let forward := negb (same (slice_end 4 type) (txt "last")) in
  let ofType := same what (txt "of-type") in
  bool_decide (is_Some (parentNode (node e))) &&
  if (first =? 1)%Z && (last =? 0)%Z then true
  else if is_nth type then in_cycle first last (Z.of_nat (position forward ofType e))
  else simple_child D type ofType e.
(** Inside a disabled fieldset, but not in its legend: from an element up. *)
Definition is_disabled_fieldset (e : nat) : bool :=
  bool_decide (p_disabled (props (node e)) = Some true) && name_is D e "fieldset".
Fixpoint skipping (c : Relation) (base : bool) (P : nat → bool) (l : list nat) : bool :=
  match l with
  | [] => false
  | e :: l' =>
      if is_counted D c base e then
        if skips D c e then match l' with [] => false | _ :: l'' => skipping c base P l'' end
        else P e || skipping c base P l'
      else skipping c base P l'
  end.
Definition legend : Relation := mkRelation ParentNode (Some "legend"%string) false.
Definition disabled_test (disabled : bool) (e : nat) : bool :=
  let p := props (node e) in
  let elem_is := bool_decide (p_disabled p = Some disabled) in
  if in_form p then
    match parentNode (node e) with
    | Some parent =>
        if bool_decide (p_disabled p = Some false) then
          if in_label p then
            if in_label (props (node parent)) then bool_decide (p_disabled (props (node parent)) = Some disabled) else elem_is
          else if bool_decide (p_isDisabled p = Some disabled) then true
          else if bool_decide (p_isDisabled p = Some (negb disabled)) then false
          else Bool.eqb (skipping legend false is_disabled_fieldset (path D ParentNode e)) disabled
        else elem_is
    | None => elem_is
    end
  else if in_label p then elem_is else false.
Definition pseudo_test (pseudo : text) (argument : option text) : option (nat → bool) :=
  match entry_of D pseudo with
  | Some (Plain p) => Some p
  | Some (Disabled b) => Some (disabled_test b)
  | Some (WithArgument f) => match f argument with Ret p => Some p | Throw _ => None end
  | _ => None
  end.
Definition test_of (k : tok_kind) : option (nat → bool) :=
  match k with
  | Relative _ => None
  | TAG name => Some (filter_TAG D name)
  | CLASS name => Some (filter_CLASS D name)
  | ATTR name operator check => Some (filter_ATTR D name operator check)
  | CHILD type what first last => Some (child_test type what first last)
  | PSEUDO pseudo argument => pseudo_test pseudo argument
  | ID id => Some (filter_ID D id)
  end.
Definition passes (k : tok_kind) (e : nat) : Prop := ∃ p, test_of k = Some p ∧ p e = true.

(** *** Compound and complex selectors
    The tokens are read from the last to the first; [anchored] says which elements the first
    compound may start at. *)
Inductive selects (anchored : nat → Prop) : list token → nat → Prop :=
  | selects_start e : anchored e → selects anchored [] e
  | selects_simple t ts e : relation_of t = None → passes (type t) e → selects anchored ts e → selects anchored (t :: ts) e
  | selects_relative t ts r e q :
      relation_of t = Some r → related r e q → is_element q = true → selects anchored ts q → selects anchored (t :: ts) e.
(** A group that starts with a combinator, or that is searched below a node [c], is tied to
    that node. *)
Definition related_context (r : relative) (e c : nat) : Prop :=
  related r e c ∧ match r with Child | Descendant => True | _ => is_element c = true end.
Definition anchor (context : Ctx) (free : bool) (r : option relative) (e : nat) : Prop :=
  match r with
  | None => free = true ∨ match context with CNode c => ancestor e c | CNodes l => ∃ c, c ∈ l ∧ ancestor e c end
  | Some r => match context with CNode c => related_context r e c | CNodes l => ∃ c, c ∈ l ∧ related_context r e c end
  end.
Definition leading (tokens : list token) : option relative := match tokens with t :: _ => relation_of t | [] => None end.
Definition group_selects (context : Ctx) (free : bool) (tokens : list token) (e : nat) : Prop :=
  selects (anchor context free (leading tokens))
    (rev (match leading tokens with Some _ => tail tokens | None => tokens end)) e.
End Meaning.

(** ** Links and relations *)
Section Links.
Context (D : Dom) (W : wf_dom D).
Notation node := (node D).
Notation is_element := (is_element D).

Lemma after_split e (a b : list nat) : e ∉ a → after e (a ++ e :: b) = b.
Proof.
  induction a as [|x a IH]; simpl; [by rewrite Nat.eqb_refl|]. intros [Hx Ha]%not_elem_of_cons.
  destruct (Nat.eqb_spec x e) as [->|]; [done|auto].
Qed.
Lemma siblings_split e : siblings_of D e = [] ∨ ∃ l1 l2, siblings_of D e = l1 ++ e :: l2 ∧ e ∉ l1 ∧ e ∉ l2.
Proof.
  destruct (parentNode (node e)) as [p|] eqn:E; [right|left; unfold siblings_of; by rewrite E].
  pose proof (siblings_self D W e p E) as H. apply list_elem_of_split in H as (l1 & l2 & H).
  exists l1, l2. split; [done|]. pose proof (siblings_nodup D W e) as Hnd. rewrite H in Hnd.
  apply NoDup_app in Hnd as (_ & Hnd & Hnd2). apply NoDup_cons in Hnd2 as [H2 _].
  split; [|done]. intros Hin. apply (Hnd e Hin). left.
Qed.
Lemma path_siblings e l1 l2 :
  siblings_of D e = l1 ++ e :: l2 → path D PreviousSibling e = rev l1 ∧ path D NextSibling e = l2.
Proof.
  intros H. rewrite !path_sideways by done. simpl. rewrite H, rev_app_distr. simpl. rewrite <- app_assoc. simpl.
  pose proof (siblings_nodup D W e) as Hnd. rewrite H in Hnd. apply NoDup_app in Hnd as (_ & Hnd & Hnd2).
  apply NoDup_cons in Hnd2 as [H2 _]. split; apply after_split.
  - by rewrite list_elem_of_In, <- in_rev, <- list_elem_of_In.
  - intros Hin. apply (Hnd e Hin). left.
Qed.
(** The children around an element. *)
Lemma children_split e p :
  parentNode (node e) = Some p →
  ∃ l1 l2, childNodes (node p) = l1 ++ e :: l2 ∧ e ∉ l1 ∧ e ∉ l2 ∧ path D PreviousSibling e = rev l1 ∧ path D NextSibling e = l2.
Proof.
  intros Hp. pose proof (siblings_self D W e p Hp) as Hin. destruct (siblings_split e) as [E|(l1 & l2 & E & H1 & H2)].
  - rewrite E in Hin. by apply elem_of_nil in Hin.
  - exists l1, l2. destruct (path_siblings e l1 l2 E). unfold siblings_of in E. rewrite Hp in E. auto.
Qed.
Lemma path_no_siblings d e : is_sideways d = true → siblings_of D e = [] → path D d e = [].
Proof. intros Hd H. rewrite path_sideways by done. destruct d; simpl; rewrite ?H; done. Qed.
Lemma before_path e q between :
  before D q between e ↔ ∃ rest, path D PreviousSibling e = rev between ++ q :: rest.
Proof.
  split.
  - intros (l1 & l2 & H). change (l1 ++ q :: between ++ e :: l2) with (l1 ++ (q :: between) ++ e :: l2) in H.
    rewrite app_assoc in H. destruct (path_siblings e _ _ H) as [-> _]. exists (rev l1).
    rewrite rev_app_distr. simpl. by rewrite <- app_assoc.
  - intros [rest H]. destruct (siblings_split e) as [Hs|(l1 & l2 & Hs & _)].
    { rewrite path_no_siblings in H by done. by destruct (rev between). }
    destruct (path_siblings e l1 l2 Hs) as [Hp _]. rewrite Hp in H. exists (rev rest), l2. rewrite Hs.
    apply (f_equal (@rev nat)) in H. rewrite rev_involutive, rev_app_distr, rev_involutive in H. simpl in H.
    rewrite H, <- !app_assoc. done.
Qed.
Lemma ancestor_path e q : ancestor D e q ↔ q ∈ path D ParentNode e.
Proof.
  split.
  - induction 1 as [x y H|x y z H _ IH]; rewrite path_step by done; simpl; rewrite H; [left|by right].
  - remember (path D ParentNode e) as l eqn:E. symmetry in E. revert e E.
    induction l as [|x l IH]; intros e E; [by intros ?%elem_of_nil|].
    pose proof (path_cons _ W _ _ _ _ E) as El. rewrite path_step in E by done. simpl in E.
    destruct (parentNode (node e)) as [p|] eqn:Ep; [|done]. injection E as -> _.
    intros [->|H]%elem_of_cons; [by apply tc_once|]. eapply tc_l; [exact Ep|]. by apply IH.
Qed.
Lemma find_split (p : nat → bool) l q :
  List.find p l = Some q ↔ p q = true ∧ ∃ a b, l = a ++ q :: b ∧ Forall (λ x, p x = false) a.
Proof.
  induction l as [|x l IH]; simpl; [split; [done|by intros (_ & [|] & b & ? & _)]|]. destruct (p x) eqn:Hx.
  - split; [intros [= ->]; split; [done|by exists [], l]|]. intros (Hq & [|y a] & b & E & Ha); injection E as -> ->; [done|].
    inversion Ha; congruence.
  - rewrite IH. split; intros (Hq & H); (split; [done|]).
    + destruct H as (a & b & -> & Ha). exists (x :: a), b. split; [done|by constructor].
    + destruct H as ([|y a] & b & E & Ha); injection E as -> ->; [congruence|]. inversion Ha. by exists a, b.
Qed.
(** Above the document there is nothing: the closest element above is the parent. *)
Lemma find_parent e q :
  List.find is_element (path D ParentNode e) = Some q ↔ parentNode (node e) = Some q ∧ is_element q = true.
Proof.
  rewrite path_step by done. simpl. destruct (parentNode (node e)) as [p|] eqn:E; [|by split; [|intros [? _]]]. simpl.
  destruct (is_element p) eqn:Hp; [by split; [intros [= <-]|intros [? _]]|].
  split; [|intros [[= <-] ?]; congruence]. rewrite path_step by done. simpl.
  destruct (wf_kinds D W p e E) as [Hk _]. destruct (parentNode (node p)) as [g|] eqn:Eg; [|done].
  destruct (wf_kinds D W g p Eg) as [_ Hk']. unfold JqDom.is_element in Hp. simpl in Hk, Hk'.
  destruct (nodeType (node p) =? 1), (nodeType (node p) =? 9), (nodeType (node p) =? 11); done.
Qed.

(** The result of a combinator, over the nodes of its path. *)
Definition combined (c : Relation) (base : bool) (P : nat → bool) (xml : bool) (l : list nat) : bool :=
  if r_first c then match List.find (is_counted D c base) l with Some q => P q | None => false end
  else if xml then existsb (λ e, is_counted D c base e && P e) l
  else skipping D c base P l.
Lemma skipping_exists r base P l :
  skipping D (relation r) base P l = existsb (λ e, is_counted D (relation r) base e && P e) l.
Proof.
  induction l as [|e l IH]; [done|]. cbn [skipping existsb]. replace (skips D (relation r) e) with false by (by destruct r).
  destruct (is_counted D (relation r) base e); simpl; by rewrite IH.
Qed.
Lemma counts_relation r e : is_counted D (relation r) false e = is_element e.
Proof. unfold is_counted, checkNonElements. simpl. by rewrite orb_false_r. Qed.
Lemma existsb_path (P : nat → bool) (Q : nat → Prop) l : (∀ x, P x = true ↔ Q x) → existsb P l = true ↔ ∃ x, x ∈ l ∧ Q x.
Proof. intros H. rewrite existsb_exists. split; intros (x & Hx & Hq); exists x; rewrite list_elem_of_In in *; split; try done; by apply H. Qed.
Lemma find_adjacent e q :
  List.find is_element (path D PreviousSibling e) = Some q ↔ related D Adjacent e q ∧ is_element q = true.
Proof.
  rewrite find_split. simpl. split.
  - intros (Hq & a & b & E & Ha). split; [|done]. exists (rev a). split; [|by apply Forall_rev].
    apply before_path. exists b. by rewrite rev_involutive.
  - intros [(between & [rest E]%before_path & Hb) Hq]. split; [done|]. exists (rev between), rest. split; [done|by apply Forall_rev].
Qed.
Lemma path_sibling e q : q ∈ path D PreviousSibling e ↔ related D Sibling e q.
Proof.
  simpl. split.
  - intros (a & b & E)%list_elem_of_split. exists (rev a). apply before_path. exists b. by rewrite rev_involutive.
  - intros (between & [rest ->]%before_path). set_solver.
Qed.
Lemma combined_related r P xml e :
  combined (relation r) false P xml (path D (r_dir (relation r)) e) = true ↔
  ∃ q, related D r e q ∧ is_element q = true ∧ P q = true.
Proof.
  unfold combined. rewrite skipping_exists.
  assert (Hc : ∀ l, List.find (is_counted D (relation r) false) l = List.find is_element l).
  { intros l. induction l as [|x l IH]; [done|]. simpl. by rewrite counts_relation, IH. }
  assert (He : ∀ l, existsb (λ e, is_counted D (relation r) false e && P e) l = true ↔ ∃ q, q ∈ l ∧ is_element q = true ∧ P q = true).
  { intros l. apply existsb_path. intros x. by rewrite counts_relation, andb_true_iff. }
  destruct r; simpl.
  - rewrite Hc. destruct (List.find _ _) as [q|] eqn:E.
    + apply find_parent in E as [E Hq]. rewrite E. naive_solver.
    + split; [done|]. intros (q & H1 & H2 & _). assert (Hf : List.find is_element (path D ParentNode e) = Some q) by (by apply find_parent).
      congruence.
  - destruct xml; rewrite He; split; intros (q & H1 & H2); exists q; by rewrite ancestor_path in *.
  - rewrite Hc. destruct (List.find _ _) as [q|] eqn:E.
    + apply find_adjacent in E as [E Hq]. split; [by exists q|]. intros (q' & H1 & H2 & H3).
      assert (Hf : List.find is_element (path D PreviousSibling e) = Some q') by (by apply find_adjacent).
      pose proof (proj2 (find_adjacent e q) (conj E Hq)). congruence.
    + split; [done|]. intros (q & H1 & H2 & _).
      assert (Hf : List.find is_element (path D PreviousSibling e) = Some q) by (by apply find_adjacent). congruence.
  - destruct xml; rewrite He; split; intros (q & H1 & H2); exists q; by rewrite path_sibling in *.
Qed.
Lemma counts_above r e : r_dir (relation r) = ParentNode → is_counted D (relation r) true e = true.
Proof. intros H. unfold is_counted, checkNonElements. destruct r; try done; simpl; by rewrite orb_true_r. Qed.
Lemma combined_context r P xml e :
  combined (relation r) true P xml (path D (r_dir (relation r)) e) = true ↔ ∃ q, related_context D r e q ∧ P q = true.
Proof.
  assert (r_dir (relation r) = ParentNode ∨ r_dir (relation r) = PreviousSibling) as [Hd|Hd] by (destruct r; auto).
  - assert (Hc : ∀ x, is_counted D (relation r) true x = true) by (intros x; by apply counts_above).
    unfold combined. rewrite skipping_exists. rewrite Hd.
    assert (He : existsb (λ e, is_counted D (relation r) true e && P e) (path D ParentNode e) = true ↔ ∃ q, q ∈ path D ParentNode e ∧ P q = true).
    { apply existsb_path. intros x. by rewrite Hc. }
    destruct r; try done; simpl; unfold related_context; simpl.
    + rewrite path_step by done. simpl. destruct (parentNode (node e)) as [p|]; simpl; [|split; [done|by intros (q & [? _] & _)]].
      unfold relation in Hc. rewrite Hc. split; [intros HP; by exists p|]. by intros (q & [[= ->] _] & ?).
    + destruct xml; rewrite He; split; intros (q & H); exists q; rewrite ancestor_path in *; tauto.
  - assert (Hb : ∀ l, combined (relation r) true P xml l = combined (relation r) false P xml l).
    { intros l. unfold combined. rewrite !skipping_exists. by destruct r. }
    rewrite Hb, combined_related. unfold related_context. destruct r; try done; split; intros (q & H); exists q; tauto.
Qed.
End Links.

(** ** The caches of a run *)
Section Run.
Context (D : Dom) (W : wf_dom D).
(** The number of the run, and what the outermost context is. *)
Context (K : Z) (outer : option Outer).
Notation node := (node D).
Notation is_element := (is_element D).

(** What the arrays of a combinator are about: for each number the answer of a walk that
    starts at a node. *)
Notation Answers := (gmap nat (nat → bool)).
(** The variable [checkContext] of one group. *)
Notation Cell := (option (nat * Ctx)).
Definition nth_ok (s : St) : Prop := ∀ p r i d,
  nth_cache s !! p = Some (r, i, d) →
  (r ≤ K)%Z ∧ (r = K → i < length (childNodes (node p)) ∧ d = length (List.filter is_element (take (S i) (childNodes (node p))))).
Record good (A : Answers) (cell : Cell) (s : St) : Prop := {
  good_run : dirruns s = K;
  good_outer : outermostContext s = outer;
  good_slots p k r : slots s !! (p, k) = Some r → r < length (arrays s);
  good_runs r a : arrays s !! r = Some a → (a_run a ≤ K)%Z;
  good_answers p k r a f :
    slots s !! (p, k) = Some r → arrays s !! r = Some a → a_run a = K → A !! a_done a = Some f →
    a_result a = Some (f p);
  good_nth : nth_ok s;
  good_cell : match cell with Some (g, c) => checkContext s !! g = Some c | None => True end;
  good_done : 1 ≤ done s
}.
(** What a matcher of the combinators of [A] may change. *)
Record touch (A : Answers) (s s' : St) : Prop := {
  touch_other r a : arrays s !! r = Some a → A !! a_done a = None → arrays s' !! r = Some a;
  touch_same r a : arrays s !! r = Some a → ∃ a', arrays s' !! r = Some a' ∧ a_done a' = a_done a;
  touch_slots p k :
    slots s' !! (p, k) = slots s !! (p, k) ∨
    ∃ r a, slots s' !! (p, k) = Some r ∧ arrays s' !! r = Some a ∧ is_Some (A !! a_done a);
  touch_random : random s' = random s
}.
(** The matcher answers [P] on the nodes of [Q]. *)
Definition realises (A : Answers) (cell : Cell) (context : option Ctx) (xml : bool) (Q : nat → Prop) (m : matcher) (P : nat → bool) : Prop :=
  ∀ e s, Q e → good A cell s → ∃ s', m e context xml s = (Ret (P e), s') ∧ good A cell s' ∧ touch A s s'.

Lemma touch_refl A s : touch A s s.
Proof. split; eauto. Qed.
Lemma touch_trans A s1 s2 s3 : touch A s1 s2 → touch A s2 s3 → touch A s1 s3.
Proof.
  intros H1 H2. split.
  - intros r a H Ha. apply (touch_other _ _ _ H2); [|done]. by apply (touch_other _ _ _ H1).
  - intros r a H. destruct (touch_same _ _ _ H1 r a H) as (a' & H' & E').
    destruct (touch_same _ _ _ H2 r a' H') as (a'' & H'' & E''). exists a''. split; [done|congruence].
  - intros p k. destruct (touch_slots _ _ _ H2 p k) as [E|?]; [|by right]. rewrite E.
    destruct (touch_slots _ _ _ H1 p k) as [?|(r & a & Hs & Ha & HA)]; [by left|right].
    destruct (touch_same _ _ _ H2 r a Ha) as (a' & Ha' & E'). exists r, a'. by rewrite E'.
  - by rewrite (touch_random _ _ _ H2), (touch_random _ _ _ H1).
Qed.
Lemma touch_mono A A' s s' : A ⊆ A' → touch A s s' → touch A' s s'.
Proof.
  intros HA H. split; [|by apply (touch_same _ _ _ H)| |by apply (touch_random _ _ _ H)].
  - intros r a Hr Hn. apply (touch_other _ _ _ H); [done|]. by eapply lookup_weaken_None.
  - intros p k. destruct (touch_slots _ _ _ H p k) as [?|(r & a & ? & ? & f & Hf)]; [by left|right].
    exists r, a. repeat split; try done. exists f. by eapply lookup_weaken.
Qed.
Lemma good_mono A A' cell s : A ⊆ A' → good A' cell s → good A cell s.
Proof. intros HA [? ? ? ? H ? ?]. split; try done. intros p k r a f Hs Ha Hr Hf. eapply H; try done. by eapply lookup_weaken. Qed.
(** The frame rule: a matcher leaves the arrays of other combinators as they are. *)
Lemma good_frame A A' cell s s' : A ⊆ A' → good A' cell s → good A cell s' → touch A s s' → good A' cell s'.
Proof.
  intros HA H H' T. destruct H' as [? ? Hs ? Hans ? ?]. split; try done. intros p k r a f Hsl Ha Hr Hf.
  destruct (A !! a_done a) as [g|] eqn:Hg.
  - pose proof (lookup_weaken _ _ _ _ Hg HA). assert (f = g) as -> by congruence. by eapply Hans.
  - destruct (touch_slots _ _ _ T p k) as [E|(r' & a' & E & Ha' & HA')].
    + rewrite E in Hsl. pose proof (good_slots _ _ _ H _ _ _ Hsl) as Hlt. apply lookup_lt_is_Some in Hlt as [a0 Ha0].
      destruct (touch_same _ _ _ T r a0 Ha0) as (a1 & Ha1 & Ed). assert (a1 = a) as -> by congruence.
      rewrite Ed in Hg. pose proof (touch_other _ _ _ T r a0 Ha0 Hg) as Ha2. assert (a0 = a) as -> by congruence.
      by eapply (good_answers _ _ _ H).
    + rewrite E in Hsl. injection Hsl as ->. assert (a' = a) as -> by congruence. rewrite Hg in HA'. by destruct HA'.
Qed.
Lemma realises_mono A A' cell context xml Q m P :
  A ⊆ A' → realises A cell context xml Q m P → realises A' cell context xml Q m P.
Proof.
  intros HA H e s HQ Hs. destruct (H e s HQ (good_mono _ _ _ _ HA Hs)) as (s' & E & Hs' & T).
  exists s'. split; [done|]. split; [by eapply good_frame|by eapply touch_mono].
Qed.
Lemma realises_pure A cell context xml Q (p : nat → bool) : realises A cell context xml Q (pure_matcher p) p.
Proof. intros e s _ Hs. exists s. split; [done|]. split; [done|apply touch_refl]. Qed.
Lemma realises_ext A cell context xml Q m P P' :
  (∀ e, Q e → P e = P' e) → realises A cell context xml Q m P → realises A cell context xml Q m P'.
Proof. intros HE H e s HQ Hs. rewrite <- (HE e HQ). by apply H. Qed.

(** ** Combinators *)
Section Walk.
Context (n : nat) (m : matcher) (c : Relation) (base : bool).
Context (A : Answers) (cell : Cell) (context : option Ctx) (xml : bool) (P : nat → bool).
Context (Hm : realises A cell context xml (λ e, is_counted D c base e = true) m P) (Hn : A !! n = None).
(** What an array of this combinator says of a node that holds it. *)
Definition answer (p : nat) : bool := skipping D c base P (p :: path D (r_dir c) p).
Definition with_answer : Answers := <[n := answer]> A.
Lemma with_answer_sub : A ⊆ with_answer.
Proof. by apply insert_subseteq. Qed.
Lemma with_answer_lookup d f : with_answer !! d = Some f → d = n ∧ f = answer ∨ d ≠ n ∧ A !! d = Some f.
Proof. unfold with_answer. rewrite lookup_insert_Some. intros [[<- <-]|[? ?]]; [by left|by right]. Qed.

Lemma closest_realises l s :
  good with_answer cell s →
  ∃ s', closest_loop D m c base l context xml s =
    (Ret (match List.find (is_counted D c base) l with Some q => P q | None => false end), s') ∧
    good with_answer cell s' ∧ touch with_answer s s'.
Proof.
  intros Hs. induction l as [|e l IH]; simpl.
  { exists s. split; [done|]. split; [done|apply touch_refl]. }
  destruct (is_counted D c base e) eqn:He; [|exact IH].
  by apply (realises_mono _ _ _ _ _ _ _ _ with_answer_sub Hm).
Qed.
Lemma any_realises l s :
  good with_answer cell s →
  ∃ s', any_loop D m c base l context xml s = (Ret (existsb (λ e, is_counted D c base e && P e) l), s') ∧
    good with_answer cell s' ∧ touch with_answer s s'.
Proof.
  revert s. induction l as [|e l IH]; intros s Hs; simpl.
  { exists s. split; [done|]. split; [done|apply touch_refl]. }
  destruct (is_counted D c base e) eqn:He; [|by apply IH]. simpl.
  destruct (realises_mono _ _ _ _ _ _ _ _ with_answer_sub Hm e s He Hs) as (s1 & E1 & H1 & T1). mstep. rewrite E1.
  destruct (P e); [by exists s1|]. destruct (IH s1 H1) as (s2 & E2 & H2 & T2). exists s2.
  split; [done|]. split; [done|by eapply touch_trans].
Qed.

(** *** The walk that leaves its array on the nodes *)
(** [l] is what is left to visit, [r0] the array, [res] what it says. *)
Record walking (r0 : nat) (l : list nat) (res : option bool) (s : St) : Prop := {
  walk_good : good A cell s;
  walk_array : arrays s !! r0 = Some (mkArr K n res);
  walk_slots p k : slots s !! (p, k) = Some r0 → answer p = skipping D c base P l ∧ p ∉ l ∧ res = Some false;
  walk_others p k r a :
    slots s !! (p, k) = Some r → r ≠ r0 → arrays s !! r = Some a → a_run a = K → a_done a = n → a_result a = Some (answer p)
}.
Lemma walking_end r0 l res s :
  walking r0 l res s → skipping D c base P l = false → good with_answer cell s.
Proof.
  intros [[? ? ? ? Ha ? ?] Harr Hsl Ho] Hl. split; try done. intros p k r a f Hs Hr Hk Hf.
  apply with_answer_lookup in Hf as [[En ->]|[Hne Hf]]; [|by eapply Ha].
  destruct (decide (r = r0)) as [->|Hr0]; [|by eapply Ho].
  destruct (Hsl p k Hs) as (Hp & _ & ->). assert (a = mkArr K n (Some false)) as -> by congruence. simpl. by rewrite Hp, Hl.
Qed.

(** The array is given its result. *)
Definition upd (r0 : nat) (x : option bool) (s : St) : St :=
  set_arrays (alter (λ a, mkArr (a_run a) (a_done a) x) r0 (arrays s)) s.
Lemma upd_lookup r0 x s r res :
  arrays s !! r0 = Some (mkArr K n res) →
  arrays (upd r0 x s) !! r = if decide (r = r0) then Some (mkArr K n x) else arrays s !! r.
Proof. intros H. simpl. rewrite list_lookup_alter. destruct (decide (r0 = r)), (decide (r = r0)); subst; try done. by rewrite H. Qed.
Lemma upd_good r0 x s res : arrays s !! r0 = Some (mkArr K n res) → good A cell s → good A cell (upd r0 x s).
Proof.
  intros Hr [? ? Hsl Hrun Hans ? ?]. split; try done.
  - intros p k r Hp. simpl. rewrite length_alter. by eapply Hsl.
  - intros r a. rewrite (upd_lookup r0 x s r res Hr). case_decide; [intros [= <-]; simpl; lia|apply Hrun].
  - intros p k r a f Hp. rewrite (upd_lookup r0 x s r res Hr). case_decide; [|intros; by eapply Hans].
    intros [= <-] _ Hf. simpl in Hf. congruence.
Qed.
Lemma upd_touch r0 x s res : arrays s !! r0 = Some (mkArr K n res) → touch with_answer s (upd r0 x s).
Proof.
  intros Hr. split; [| |by left|done].
  - intros r a Ha Hd. rewrite (upd_lookup r0 x s r res Hr). case_decide as E; [|done]. subst r.
    assert (a = mkArr K n res) as -> by congruence. simpl in Hd. unfold with_answer in Hd. by rewrite lookup_insert_eq in Hd.
  - intros r a Ha. rewrite (upd_lookup r0 x s r res Hr). case_decide as E; [|by exists a]. subst r.
    eexists. split; [done|]. by assert (a = mkArr K n res) as -> by congruence.
Qed.
Lemma walking_upd r0 l res s b :
  walking r0 l res s → (∀ p k, slots s !! (p, k) = Some r0 → answer p = b) → good with_answer cell (upd r0 (Some b) s).
Proof.
  intros [Hg Harr Hsl Ho] Hb. pose proof (upd_good r0 (Some b) s res Harr Hg) as [? ? ? ? Ha ? ?]. split; try done.
  intros p k r a f Hs Hr Hk Hf. apply with_answer_lookup in Hf as [[En ->]|[Hne Hf]]; [|by eapply Ha].
  rewrite (upd_lookup r0 (Some b) s r res Harr) in Hr. case_decide as E; [|by eapply Ho].
  injection Hr as <-. subst r. simpl. by rewrite (Hb p k Hs).
Qed.
(** The array is left on the next node. *)
Definition leave (r0 e : nat) (s : St) : St := set_slots (<[(e, key c) := r0]> (slots s)) s.
Lemma leave_good r0 e l res s : walking r0 l res s → good A cell (leave r0 e s).
Proof.
  intros [[? ? Hsl ? Hans ? ?] Harr _ _]. split; try done.
  - intros p k r. simpl. rewrite lookup_insert_Some. intros [[_ <-]|[_ H]]; [by eapply lookup_lt_Some|by eapply Hsl].
  - intros p k r a f. simpl. rewrite lookup_insert_Some. intros [[_ <-]|[_ H]]; [|intros; by eapply Hans]. intros Ha _ Hf.
    assert (a = mkArr K n res) as -> by congruence. simpl in Hf. congruence.
Qed.
Lemma leave_touch r0 e l res s : walking r0 l res s → touch with_answer s (leave r0 e s).
Proof.
  intros [_ Harr _ _]. split; [done|by eauto| |done]. intros p k. simpl.
  destruct (decide ((e, key c) = (p, k))) as [<-|Hne]; [|left; by rewrite lookup_insert_ne].
  right. exists r0, (mkArr K n res). rewrite lookup_insert_eq. repeat split; [done|]. simpl. unfold with_answer.
  by rewrite lookup_insert_eq.
Qed.

(** One node: the array is left on it, and what the matcher says is stored. *)
Lemma visit_slots r0 e l res s s2 p k r :
  walking r0 l res s → touch A (leave r0 e s) s2 → slots s2 !! (p, k) = Some r →
  (slots (leave r0 e s) !! (p, k) = Some r ∧ ∃ a, arrays s !! r = Some a) ∨
  (∃ a, arrays s2 !! r = Some a ∧ is_Some (A !! a_done a)).
Proof.
  intros Hw T Hs. destruct (touch_slots _ _ _ T p k) as [E|(r' & a & E & Ha & HA)].
  - left. rewrite E in Hs. split; [done|]. simpl in Hs. apply lookup_lt_is_Some.
    apply lookup_insert_Some in Hs as [[_ <-]|[_ Hs]].
    + by eapply lookup_lt_Some, (walk_array _ _ _ _ Hw).
    + by eapply (good_slots _ _ _ (walk_good _ _ _ _ Hw)).
  - right. exists a. rewrite E in Hs. by injection Hs as <-.
Qed.
Lemma visit_back r0 e l res s s2 p k :
  walking r0 (e :: l) res s → touch A (leave r0 e s) s2 → l = path D (r_dir c) e → is_counted D c base e = true →
  slots s2 !! (p, k) = Some r0 → answer p = skipping D c base P (e :: l) ∧ p ∉ l.
Proof.
  intros Hw T El He Hs. pose proof (walk_array _ _ _ _ Hw) as Harr.
  destruct (visit_slots _ _ _ _ _ _ _ _ _ Hw T Hs) as [[H _]|(a & Ha & HA)].
  - simpl in H. apply lookup_insert_Some in H as [[[= <- _] _]|[_ H]].
    + unfold answer. rewrite <- El. split; [done|]. rewrite El. by apply path_fresh.
    + destruct (walk_slots _ _ _ _ Hw p k H) as (? & Hp & _). split; [done|]. set_solver.
  - rewrite (touch_other _ _ _ T r0 _ Harr Hn) in Ha. injection Ha as <-. simpl in HA. rewrite Hn in HA. by destruct HA.
Qed.
Lemma visit_others r0 e l res s s2 p k r a :
  walking r0 l res s → touch A (leave r0 e s) s2 → slots s2 !! (p, k) = Some r → r ≠ r0 → arrays s2 !! r = Some a →
  a_run a = K → a_done a = n → a_result a = Some (answer p).
Proof.
  intros Hw T Hs Hr Ha Hk Hd. destruct (visit_slots _ _ _ _ _ _ _ _ _ Hw T Hs) as [[H [a0 Ha0]]|(a' & Ha' & HA)].
  - simpl in H. apply lookup_insert_Some in H as [[_ ?]|[_ H]]; [congruence|].
    destruct (touch_same _ _ _ T r a0 Ha0) as (a1 & Ha1 & E1). assert (a1 = a) as -> by congruence.
    assert (Hn0 : A !! a_done a0 = None) by (by rewrite <- E1, Hd).
    pose proof (touch_other _ _ _ T r a0 Ha0 Hn0). assert (a0 = a) as -> by congruence.
    by eapply (walk_others _ _ _ _ Hw).
  - assert (a' = a) as -> by congruence. rewrite Hd, Hn in HA. by destruct HA.
Qed.
Lemma visit r0 e l res s :
  walking r0 (e :: l) res s → l = path D (r_dir c) e → is_counted D c base e = true → skips D c e = false →
  ∃ s2, m e context xml (leave r0 e s) = (Ret (P e), s2) ∧ touch with_answer s (upd r0 (Some (P e)) s2) ∧
    (if P e then good with_answer cell (upd r0 (Some (P e)) s2) else walking r0 l (Some false) (upd r0 (Some (P e)) s2)).
Proof.
  intros Hw El He Hk. pose proof (walk_array _ _ _ _ Hw) as Harr.
  destruct (Hm e _ He (leave_good _ e _ _ _ Hw)) as (s2 & E2 & H2 & T2). exists s2. split; [done|].
  assert (Harr2 : arrays s2 !! r0 = Some (mkArr K n res)) by (by apply (touch_other _ _ _ T2)).
  split.
  { eapply touch_trans; [by eapply leave_touch|]. eapply touch_trans; [eapply touch_mono, T2; apply with_answer_sub|].
    by eapply upd_touch. }
  assert (Hans : skipping D c base P (e :: l) = P e || skipping D c base P l).
  { cbn [skipping]. by rewrite He, Hk. }
  assert (Hw2 : ∀ p k r a, slots (upd r0 (Some (P e)) s2) !! (p, k) = Some r → r ≠ r0 →
      arrays (upd r0 (Some (P e)) s2) !! r = Some a → a_run a = K → a_done a = n → a_result a = Some (answer p)).
  { intros p k r a Hs Hr. rewrite (upd_lookup _ _ _ _ _ Harr2). case_decide; [done|]. by eapply visit_others. }
  destruct (P e) eqn:HP.
  - pose proof (upd_good r0 (Some true) s2 _ Harr2 H2) as [? ? ? ? Ha ? ?]. split; try done.
    intros p k r a f Hs Hr Hk' Hf. apply with_answer_lookup in Hf as [[En ->]|[Hne Hf]]; [|by eapply Ha].
    destruct (decide (r = r0)) as [->|Hne]; [|by eapply Hw2]. rewrite (upd_lookup _ _ _ _ _ Harr2) in Hr.
    case_decide; [|done]. injection Hr as <-. simpl. destruct (visit_back _ _ _ _ _ _ p k Hw T2 El He Hs) as [-> _].
    by rewrite Hans.
  - split; [by eapply upd_good| |intros p k Hs|done].
    + rewrite (upd_lookup _ _ _ _ _ Harr2). by case_decide.
    + destruct (visit_back _ _ _ _ _ _ p k Hw T2 El He Hs) as [-> Hp]. by rewrite Hans.
Qed.

(** The node already has an array of this combinator from this run, which answers. *)
Lemma cached_hit r0 e l res s o :
  walking r0 (e :: l) res s → l = path D (r_dir c) e →
  old_cache c e s = (Ret (Some o), s) → a_run o = K → a_done o = n →
  a_result o = Some (skipping D c base P (e :: l)) ∧ good with_answer cell (upd r0 (a_result o) s).
Proof.
  intros Hw El Ho Hk Hd. unfold old_cache, gets in Ho. injection Ho as Ho.
  destruct (slots s !! (e, key c)) as [r|] eqn:Hs; [|done].
  assert (Hr : r ≠ r0). { intros ->. destruct (walk_slots _ _ _ _ Hw e _ Hs) as (_ & Hp & _). apply Hp. left. }
  assert (Ha : a_result o = Some (skipping D c base P (e :: l))).
  { rewrite (walk_others _ _ _ _ Hw e _ r o Hs Hr Ho Hk Hd). unfold answer. by rewrite <- El. }
  split; [done|]. rewrite Ha. eapply walking_upd; [done|]. intros p k Hp. by destruct (walk_slots _ _ _ _ Hw p k Hp) as [-> _].
Qed.

Lemma walking_shorter r0 l l' res s :
  walking r0 l res s → skipping D c base P l = skipping D c base P l' → (∀ x, x ∈ l' → x ∈ l) → walking r0 l' res s.
Proof.
  intros [? ? Hs ?] E Hsub. split; try done. intros p k Hp. destruct (Hs p k Hp) as (E' & Hl & ?).
  rewrite E', E. split; [done|]. split; [|done]. intros Hin. by apply Hl, Hsub.
Qed.
Lemma cached_realises k l r0 res s :
  length l ≤ k → walking r0 l res s → (∃ x, l = path D (r_dir c) x) →
  ∃ s', cached_loop D n m c base r0 l context xml s = (Ret (skipping D c base P l), s') ∧
    good with_answer cell s' ∧ touch with_answer s s'.
Proof.
  revert l res s. induction k as [|k IH]; intros l res s Hk Hw [x Hx]; (destruct l as [|e l];
    [exists s; split; [done|]; split; [by eapply walking_end|apply touch_refl]|]); [simpl in Hk; lia|].
  pose proof (path_cons _ W _ _ _ _ (eq_sym Hx)) as El. simpl in Hk. cbn [cached_loop].
  destruct (is_counted D c base e) eqn:He; [|].
  2: { assert (E : skipping D c base P (e :: l) = skipping D c base P l) by (cbn [skipping]; by rewrite He).
       rewrite E. eapply (IH l res s); [lia| |by exists e]. eapply walking_shorter; [done|done|set_solver]. }
  destruct (skips D c e) eqn:Hsk.
  { assert (E : skipping D c base P (e :: l) = skipping D c base P (tail l)) by (cbn [skipping]; rewrite He, Hsk; by destruct l).
    rewrite E. destruct l as [|y l].
    - exists s. split; [done|]. split; [by eapply walking_end|apply touch_refl].
    - eapply (IH l res s); [simpl in Hk; lia| |exists y; by eapply path_cons].
      eapply walking_shorter; [done|done|set_solver]. }
  assert (Hvisit : ∃ s', (modify (λ s, set_slots (<[(e, key c) := r0]> (slots s)) s);;
      r ← m e context xml; set_result r0 (Some r);;
      if r : bool then mret true else cached_loop D n m c base r0 l context xml) s =
      (Ret (skipping D c base P (e :: l)), s') ∧ good with_answer cell s' ∧ touch with_answer s s').
  { destruct (visit r0 e l res s Hw El He Hsk) as (s2 & E2 & T & H). mstep. fold (leave r0 e s). rewrite E2. simpl.
    fold (upd r0 (Some (P e)) s2). cbn [skipping]. rewrite He, Hsk. destruct (P e); [by eexists|].
    destruct (IH l _ _ ltac:(lia) H (ex_intro _ e El)) as (s4 & E4 & H4 & T4). exists s4.
    split; [exact E4|]. split; [done|by eapply touch_trans]. }
  mstep. unfold old_cache, gets, set_result in *. mstep. cbn beta iota in *.
  destruct (match slots s !! (e, key c) with Some r => arrays s !! r | None => None end) as [o|] eqn:Ho; [|exact Hvisit].
  rewrite (good_run _ _ _ (walk_good _ _ _ _ Hw)).
  destruct ((a_run o =? K)%Z && (a_done o =? n)) eqn:Hhit; [|exact Hvisit].
  apply andb_true_iff in Hhit as [Hr%Z.eqb_eq Hd%Nat.eqb_eq].
  destruct (cached_hit r0 e l res s o Hw El) as [Ha Hg]; [unfold old_cache, gets; by rewrite Ho|done|done|].
  exists (upd r0 (a_result o) s). split; [|split; [done|eapply upd_touch, (walk_array _ _ _ _ Hw)]].
  rewrite Ha. reflexivity.
Qed.

(** A new array for a walk. *)
Lemma start_walk e s :
  good with_answer cell s →
  let s1 := set_arrays (arrays s ++ [mkArr (dirruns s) n None]) s in
  touch with_answer s s1 ∧ walking (length (arrays s)) (path D (r_dir c) e) None s1.
Proof.
  intros Hs s1. pose proof Hs as [? ? Hsl Hrun Hans ? ?].
  assert (Hl : ∀ r, r ≠ length (arrays s) → arrays s1 !! r = arrays s !! r).
  { intros r Hr. simpl. destruct (decide (r < length (arrays s))); [by rewrite lookup_app_l|].
    rewrite !lookup_ge_None_2; [done|lia|rewrite length_app; simpl; lia]. }
  assert (H0 : arrays s1 !! length (arrays s) = Some (mkArr K n None)).
  { simpl. rewrite lookup_app_r, Nat.sub_diag by lia. by rewrite (good_run _ _ _ Hs). }
  assert (Hg : good with_answer cell s1).
  { split; try done.
    - intros p k r Hp. simpl. rewrite length_app. specialize (Hsl p k r Hp). lia.
    - intros r a Ha. destruct (decide (r = length (arrays s))) as [->|Hr]; [|rewrite Hl in Ha by done; by eapply Hrun].
      rewrite H0 in Ha. injection Ha as <-. simpl. lia.
    - intros p k r a f Hp Ha. specialize (Hsl p k r Hp). rewrite Hl in Ha by lia. by eapply Hans. }
  split; split; try done.
  - intros r a Ha _. rewrite Hl; [done|]. apply lookup_lt_Some in Ha. lia.
  - intros r a Ha. exists a. rewrite Hl; [done|]. apply lookup_lt_Some in Ha. lia.
  - by left.
  - by eapply good_mono, Hg; apply with_answer_sub.
  - intros p k Hp. specialize (Hsl p k _ Hp). lia.
  - intros p k r a Hp Hr Ha Hk Hd. rewrite Hl in Ha by done. eapply (good_answers _ _ _ Hs); try done.
    unfold with_answer. rewrite Hd. by rewrite lookup_insert_eq.
Qed.
(** A combinator answers what a walk without caches answers. *)
Lemma combinator_realises (Q : nat → Prop) :
  realises with_answer cell context xml Q (combinator D n m c base) (λ e, combined D c base P xml (path D (r_dir c) e)).
Proof.
  intros e s _ Hs. destruct (start_walk e s Hs) as [T Hw].
  destruct (cached_realises _ _ _ None _ (le_n _) Hw (ex_intro _ e eq_refl)) as (s2 & E & H2 & T2).
  pose proof (any_realises (path D (r_dir c) e) s Hs) as Hany.
  assert (Hc : ∃ s', (newCache ← gets (λ s, length (arrays s));
      modify (λ s, set_arrays (arrays s ++ [mkArr (dirruns s) n None]) s);;
      cached_loop D n m c base newCache (path D (r_dir c) e) context xml) s =
      (Ret (skipping D c base P (path D (r_dir c) e)), s') ∧ good with_answer cell s' ∧ touch with_answer s s').
  { exists s2. split; [exact E|]. split; [done|by eapply touch_trans]. }
  unfold combinator, combined. destruct (r_first c); [by apply closest_realises|].
  clear -Hany Hc. destruct xml; [exact Hany|exact Hc].
Qed.
End Walk.
End Run.
