(* ===== verification/JqMatcherProps.v ===== *)
(** * Selectors select what they say

    The compiled selectors of JqMatcher answer the meaning of the selectors: for one element,
    and for a whole run over elements with the caches it keeps; with the pseudo-class for
    which the cache makes them answer something else. *)
From Stdlib Require Import ZArith NArith Lia Ascii String.
From stdpp Require Import base strings list gmap relations.
From S2P Require Import Prelude.
From S2P Require Import JqDom.
From S2P Require Import JqRegex.
From S2P Require Import JqSelector.
From S2P Require Import JqMatcher.
From S2P Require Import JqMatcherFacts.

(** ** Counting children *)
Section Count.
Context (D : Dom) (W : wf_dom D).
Notation node := (node D).
Notation is_element := (is_element D).
Definition count (p : nat → bool) (l : list nat) : nat := length (List.filter p l).
Lemma elements_count_app p a b : count p (a ++ b) = count p a + count p b.
Proof. unfold count. by rewrite List.filter_app, length_app. Qed.
Lemma count_rev p l : count p (rev l) = count p l.
Proof.
  induction l as [|x l IH]; [done|]. simpl. rewrite elements_count_app, IH. unfold count. simpl. destruct (p x); simpl; lia.
Qed.
Lemma seek_here e pre post i d :
  is_element e = true → e ∉ pre →
  seek_elem D e (pre ++ e :: post) i d = Some (i + length pre, S (d + count is_element pre)).
Proof.
  intros He. revert i d. induction pre as [|x pre IH]; intros i d Hx; simpl.
  - rewrite He, Nat.eqb_refl. unfold count. simpl. do 2 f_equal; lia.
  - apply not_elem_of_cons in Hx as [Hx Hpre]. destruct (Nat.eqb_spec x e) as [->|_]; [done|]. unfold count. simpl.
    destruct (is_element x); rewrite IH by done; unfold count; simpl; do 2 f_equal; lia.
Qed.
Lemma seek_absent e l i d : e ∉ l → seek_elem D e l i d = None.
Proof.
  revert i d. induction l as [|x l IH]; intros i d; [done|]. intros [Hx Hl]%not_elem_of_cons. simpl.
  destruct (Nat.eqb_spec x e) as [->|_]; [done|]. destruct (is_element x); by apply IH.
Qed.
Lemma count_loop_here e ofType name pre post d s :
  of_kind D ofType name e = true → e ∉ pre →
  count_loop D e ofType false name (pre ++ e :: post) d s = (Ret (Some (S (d + count (of_kind D ofType name) pre))), s).
Proof.
  intros He. revert d. induction pre as [|x pre IH]; intros d Hx; simpl.
  - rewrite He, Nat.eqb_refl. unfold count. simpl. by rewrite Nat.add_0_r.
  - apply not_elem_of_cons in Hx as [Hx Hpre]. destruct (Nat.eqb_spec x e) as [->|_]; [done|]. unfold count. simpl.
    destruct (of_kind D ofType name x); mstep; simpl; rewrite IH by done; unfold count; simpl; do 3 f_equal; lia.
Qed.
Lemma from_first p : from D NextSibling (firstChild D p) = childNodes (node p).
Proof.
  unfold firstChild. destruct (childNodes (node p)) as [|x l] eqn:E; [done|]. simpl. f_equal.
  assert (Hx : parentNode (node x) = Some p) by (apply (wf_child D W); rewrite E; left).
  assert (Hs : siblings_of D x = [] ++ x :: l) by (unfold siblings_of; by rewrite Hx, E).
  by destruct (path_siblings D W x _ _ Hs).
Qed.
Lemma from_last p : from D PreviousSibling (lastChild D p) = rev (childNodes (node p)).
Proof.
  unfold lastChild. destruct (childNodes (node p)) as [|y l'] eqn:E0 using rev_ind; [done|]. clear IHl'.
  rewrite last_snoc, rev_app_distr. simpl. f_equal.
  assert (Hx : parentNode (node y) = Some p) by (apply (wf_child D W); rewrite E0; set_solver).
  assert (Hs : siblings_of D y = l' ++ y :: []) by (unfold siblings_of; by rewrite Hx, E0).
  by destruct (path_siblings D W y _ _ Hs).
Qed.
Lemma position_split e forward ofType l1 l2 :
  path D PreviousSibling e = rev l1 → path D NextSibling e = l2 →
  position D forward ofType e = S (count (of_kind D ofType (lower_name D e)) (if forward then l1 else l2)).
Proof. intros H1 H2. unfold position. destruct forward; [rewrite H1; f_equal; apply count_rev|by rewrite H2]. Qed.
Lemma of_kind_self e ofType : is_element e = true → of_kind D ofType (lower_name D e) e = true.
Proof. intros He. destruct ofType; [|done]. simpl. unfold same. by case_bool_decide. Qed.
Lemma nth_other_spec e p forward ofType s :
  parentNode (node e) = Some p → is_element e = true →
  nth_other D e p forward ofType false s = (Ret (position D forward ofType e), s).
Proof.
  intros Hp He. destruct (children_split D W e p Hp) as (l1 & l2 & E & H1 & H2 & P1 & P2).
  rewrite (position_split _ _ _ _ _ P1 P2). pose proof (of_kind_self e ofType He) as Hk.
  unfold nth_other. mstep. simpl. destruct forward.
  - rewrite from_first, E. by rewrite (count_loop_here _ _ _ l1 l2 0 s Hk H1).
  - rewrite from_last, E, rev_app_distr. simpl. rewrite <- app_assoc. simpl.
    rewrite (count_loop_here _ _ _ (rev l2) (rev l1) 0 s Hk); [by rewrite count_rev|].
    by rewrite list_elem_of_In, <- in_rev, <- list_elem_of_In.
Qed.
End Count.

(** ** Filters *)
Section Filters.
Context (D : Dom) (W : wf_dom D) (K : Z) (outer : option Outer).
Notation node := (node D).
Notation is_element := (is_element D).
Notation good := (good D K outer).
Notation realises := (realises D K outer).
Notation elements := (λ e, is_element e = true).

(** The search goes on from the child found before, or starts again. *)
Definition onward (e p i d : nat) : option (nat * nat) :=
  if i =? 0 then None
  else match childNodes (node p) !! i with Some n => seek_elem D e (path D NextSibling n) (S i) d | None => None end.
Lemma drop_in n (l : list nat) x : x ∈ drop n l → x ∈ l.
Proof. intros H. rewrite <- (take_drop n l). set_solver. Qed.
Lemma path_child p i n :
  childNodes (node p) !! i = Some n → path D NextSibling n = drop (S i) (childNodes (node p)).
Proof.
  intros Hi. pose proof (take_drop_middle _ _ _ Hi) as E. symmetry in E.
  assert (Hn : parentNode (node n) = Some p) by (apply (wf_child D W); by eapply list_elem_of_lookup_2).
  assert (Hs : siblings_of D n = take i (childNodes (node p)) ++ n :: drop (S i) (childNodes (node p))).
  { unfold siblings_of. by rewrite Hn. }
  by destruct (path_siblings D W n _ _ Hs).
Qed.
Lemma onward_spec e p i l1 l2 :
  childNodes (node p) = l1 ++ e :: l2 → is_element e = true → e ∉ l1 → e ∉ l2 → i < length (childNodes (node p)) →
  onward e p i (count is_element (take (S i) (childNodes (node p)))) = None ∨
  onward e p i (count is_element (take (S i) (childNodes (node p)))) = Some (length l1, S (count is_element l1)).
Proof.
  intros E He H1 H2 Hi. unfold onward. destruct (i =? 0) eqn:Ei; [by left|]. apply lookup_lt_is_Some in Hi as [n Hn].
  rewrite Hn, (path_child p i n Hn), E. destruct (decide (S i ≤ length l1)) as [Hle|Hgt].
  - right. rewrite drop_app_le, take_app_le by lia. rewrite (seek_here D e _ l2) by (done || (intros ?; apply H1; by eapply drop_in)).
    assert (Hc : count is_element l1 = count is_element (take (S i) l1) + count is_element (drop (S i) l1))
      by (by rewrite <- elements_count_app, take_drop).
    rewrite length_drop, Hc. do 2 f_equal; lia.
  - left. rewrite (drop_app_ge l1) by lia. apply seek_absent. intros Hin.
    replace (S i - length l1) with (S (i - length l1)) in Hin by lia. simpl in Hin. apply H2. by eapply drop_in.
Qed.
Lemma nth_forward_realises A cell e p :
  parentNode (node e) = Some p → is_element e = true →
  ∀ s, good A cell s → ∃ s', nth_forward D e p s = (Ret (position D true false e), s') ∧ good A cell s' ∧ touch A s s'.
Proof.
  intros Hp He s Hs. destruct (children_split D W e p Hp) as (l1 & l2 & E & H1 & H2 & P1 & P2).
  rewrite (position_split D e true false l1 l2 P1 P2). simpl.
  set (found := (length l1, S (count is_element l1))).
  assert (Hstart : seek_elem D e (from D NextSibling (firstChild D p)) 0 0 = Some found).
  { rewrite from_first, E by done. by rewrite seek_here. }
  assert (Hres : ∃ s', (match Some found with
       | Some (i, d) => modify (λ s, set_nth (<[p := (K, i, d)]> (nth_cache s)) s);; mret d
       | None => mret 0 end) s = (Ret (S (count is_element l1)), s') ∧ good A cell s' ∧ touch A s s').
  { eexists. split; [done|]. split; [|split; eauto]. destruct Hs as [? ? ? ? ? Hn ?]. split; try done.
    intros q r i d. simpl. rewrite lookup_insert_Some. intros [[<- [= <- <- <-]]|[_ Hq]]; [|by apply Hn].
    split; [lia|]. intros _. rewrite E, length_app. split; [simpl; lia|].
    rewrite take_app_ge by lia. replace (S (length l1) - length l1) with 1 by lia. simpl.
    unfold count. rewrite List.filter_app, length_app. simpl. rewrite He. simpl. lia. }
  unfold nth_forward. mstep. simpl. rewrite (good_run _ _ _ _ _ _ Hs).
  destruct (nth_cache s !! p) as [[[r i] d]|] eqn:Hc; [|simpl; rewrite Hstart; exact Hres].
  destruct (good_nth _ _ _ _ _ _ Hs _ _ _ _ Hc) as [_ Hok]. destruct (Z.eqb_spec r K) as [->|_]; [|simpl; rewrite Hstart; exact Hres].
  destruct (Hok eq_refl) as [Hi ->]. destruct (onward_spec e p i l1 l2 E He H1 H2 Hi) as [Ho|Ho]; unfold onward in Ho.
  - destruct (i =? 0); simpl; [rewrite Hstart; exact Hres|]. unfold count in Ho. rewrite Ho, Hstart. exact Hres.
  - destruct (i =? 0); [done|]. unfold count in Ho. simpl. rewrite Ho. exact Hres.
Qed.

(** The cache of [:nth-last-child] is not kept well: it is left out. *)
Definition counts_from_last (k : tok_kind) : bool :=
  match k with
  | CHILD type what _ _ => is_nth type && same (slice_end 4 type) (txt "last") && negb (same what (txt "of-type"))
  | _ => false
  end.
Lemma child_realises A cell context xml type what first last :
  xml || negb (counts_from_last (CHILD type what first last)) = true →
  realises A cell context xml elements (filter_CHILD D type what first last) (child_test D type what first last).
Proof.
  intros Hsafe e s He Hs. unfold filter_CHILD, child_test.
  destruct (parentNode (node e)) as [p|] eqn:Hp; simpl.
  2: { exists s. split; [done|]. split; [done|apply touch_refl]. }
  destruct ((first =? 1)%Z && (last =? 0)%Z). { exists s. split; [done|]. split; [done|apply touch_refl]. }
  unfold counts_from_last in Hsafe. destruct (is_nth type) eqn:Hn; simpl in *.
  2: { exists s. split; [done|]. split; [done|apply touch_refl]. }
  set (forward := negb (same (slice_end 4 type) (txt "last"))) in *.
  set (ofType := same what (txt "of-type")) in *. set (useCache := negb xml && negb ofType).
  destruct (forward && useCache) eqn:Hf.
  - apply andb_true_iff in Hf as [Hf Hu]. apply andb_true_iff in Hu as [_ Ho%negb_true_iff]. rewrite Hf, Ho.
    destruct (nth_forward_realises A cell e p Hp He s Hs) as (s' & E & H' & T). exists s'. mstep. by rewrite E.
  - assert (Hu : useCache = false).
    { unfold forward, useCache in *. destruct xml, ofType, (same (slice_end 4 type) (txt "last")); done. }
    rewrite Hu. mstep. rewrite (nth_other_spec D W e p forward ofType s Hp He). exists s. split; [done|]. split; [done|apply touch_refl].
Qed.

(** *** [:disabled] and [:enabled], with the combinator of the library itself *)
Definition library : gmap nat (nat → bool) := {[ 0 := answer D legend false (is_disabled_fieldset D) ]}.
Lemma disabled_fieldset_realises cell Q :
  realises library cell None false Q (inDisabledFieldset D)
    (λ e, skipping D legend false (is_disabled_fieldset D) (path D ParentNode e)).
Proof.
  unfold library. rewrite <- insert_empty.
  apply (combinator_realises D W K outer 0 (pure_matcher (is_disabled_fieldset D)) legend false ∅ cell None false (is_disabled_fieldset D));
    [apply realises_pure|done].
Qed.
Lemma disabled_realises A cell context xml Q disabled :
  library ⊆ A → realises A cell context xml Q (createDisabledPseudo D disabled) (disabled_test D disabled).
Proof.
  intros HA. apply (realises_mono D K outer library); [done|]. intros e s HQ Hs. unfold createDisabledPseudo, disabled_test.
  assert (Hret : ∀ b : bool, ∃ s', (mret b : M St bool) s = (Ret b, s') ∧ good library cell s' ∧ touch library s s').
  { intros b. exists s. split; [done|]. split; [done|apply touch_refl]. }
  destruct (in_form _); [|destruct (in_label _); apply Hret]. destruct (parentNode (node e)); [|apply Hret].
  case_bool_decide; [|apply Hret]. destruct (in_label _); [destruct (in_label _); apply Hret|].
  case_bool_decide; [apply Hret|]. case_bool_decide; [apply Hret|].
  destruct (disabled_fieldset_realises cell Q e s HQ Hs) as (s' & E & H' & T). exists s'. mstep. by rewrite E.
Qed.

Definition safe_kind (xml : bool) (k : tok_kind) : Prop := xml || negb (counts_from_last k) = true.
Lemma filter_realises A cell context xml k m s s' :
  library ⊆ A → safe_kind xml k → filter_of D k s = (Ret (Some m), s') →
  s' = s ∧ ∃ p, test_of D k = Some p ∧ realises A cell context xml elements m p.
Proof.
  intros HA Hsafe. destruct k as [r|name|name|name op check|type what first last|pseudo arg|id]; simpl;
    try (mstep; intros [= <- <-]; split; [done|]; eexists; split; [done|]; apply realises_pure).
  - done.
  - mstep. intros [= <- <-]. split; [done|]. eexists. split; [done|]. by apply child_realises.
  - unfold filter_PSEUDO, pseudo_test. destruct (entry_of D pseudo) as [[p|b|f|]|]; mstep; [| | |done|done].
    + intros [= <- <-]. split; [done|]. eexists. split; [done|]. apply realises_pure.
    + intros [= <- <-]. split; [done|]. eexists. split; [done|]. by apply disabled_realises.
    + destruct (f arg) as [p|]; [|done]. intros [= <- <-]. split; [done|]. eexists. split; [done|]. apply realises_pure.
Qed.
End Filters.

(** ** Compiled groups *)
Section Compiled.
Context (D : Dom) (W : wf_dom D) (K : Z) (outer : option Outer).
(** The context of the run, and whether groups are free of it. *)
Context (context : Ctx) (xml : bool).
Notation good := (good D K outer).
Notation realises A cell Q m P := (realises D K outer A cell (Some context) xml Q m P).
Notation elements := (λ e, is_element D e = true).
Definition free : bool := xml || negb (bool_decide (Some (OCtx context) = outer)).
Notation Answers := (gmap nat (nat → bool)).
(** The numbers of the combinators of [A] have been given out. *)
Definition numbered (A : Answers) (n : nat) : Prop := library D ⊆@{Answers} A ∧ ∀ k, is_Some (A !! k) → k < n.

Lemma all_realises A cell Q ms Ps s e :
  Forall2 (λ m P, realises A cell Q m P) ms Ps → Q e → good A cell s →
  ∃ s', all_matchers ms e (Some context) xml s = (Ret (forallb (λ P, P e) Ps), s') ∧ good A cell s' ∧ touch A s s'.
Proof.
  intros H HQ. revert s. induction H as [|m P ms Ps Hm _ IH]; intros s Hs; simpl.
  { exists s. split; [done|]. split; [done|apply touch_refl]. }
  destruct (Hm e s HQ Hs) as (s1 & E1 & H1 & T1). mstep. rewrite E1. destruct (P e); [|by exists s1].
  destruct (IH s1 H1) as (s2 & E2 & H2 & T2). exists s2. split; [done|]. split; [done|by eapply touch_trans].
Qed.
Lemma forallb_rev {B} (p : B → bool) l : forallb p (rev l) = forallb p l.
Proof. induction l as [|x l IH]; [done|]. simpl. rewrite forallb_app, IH. simpl. rewrite andb_true_r. apply andb_comm. Qed.
Lemma elementMatcher_realises A cell Q ms Ps :
  ms ≠ [] → Forall2 (λ m P, realises A cell Q m P) ms Ps →
  realises A cell Q (elementMatcher ms) (λ e, forallb (λ P, P e) Ps).
Proof.
  intros Hne H e s HQ Hs. destruct H as [|m P ms Ps Hm H]; [done|]. destruct H as [|m' P' ms Ps Hm' H].
  - simpl. rewrite andb_true_r. by apply Hm.
  - rewrite <- forallb_rev. unfold elementMatcher. apply (all_realises A cell Q); [|done|done].
    rewrite !rev_alt. apply (Forall2_reverse _ (m :: m' :: ms) (P :: P' :: Ps)). constructor; [done|]. by constructor.
Qed.

(** *** The foundation: reaching the context *)
Definition reaches (r : option relative) (e : nat) : bool :=
  match r with None => free | Some _ => false end ||
  combined D (relation (default Descendant r)) true
    (λ x, match context with CNode c => x =? c | CNodes l => existsb (Nat.eqb x) l end) xml
    (path D (r_dir (relation (default Descendant r))) e).
Lemma reaches_anchor r e : reaches r e = true ↔ anchor D context free r e.
Proof.
  unfold reaches. rewrite orb_true_iff, combined_context by done. unfold anchor.
  assert (HC : (∃ q, related_context D (default Descendant r) e q ∧
      match context with CNode c => q =? c | CNodes l => existsb (Nat.eqb q) l end = true) ↔
    match context with CNode c => related_context D (default Descendant r) e c
                     | CNodes l => ∃ c, c ∈ l ∧ related_context D (default Descendant r) e c end).
  { destruct context as [c|l].
    - split; [intros (q & H & ->%Nat.eqb_eq); done|intros H; exists c; by rewrite Nat.eqb_refl].
    - split; intros (q & H1 & H2); exists q; rewrite existsb_exists in *.
      + destruct H2 as (y & Hy & ->%Nat.eqb_eq). by rewrite list_elem_of_In.
      + split; [done|]. exists q. by rewrite <- list_elem_of_In, Nat.eqb_refl. }
  rewrite HC. destruct r as [r|]; simpl; [split; [by intros [|?]|by right]|].
  unfold related_context. simpl. destruct context as [c|l]; [tauto|].
  split; (intros [H|(c & Hc & H)]; [by left|right; exists c; tauto]).
Qed.
Definition foundation_answers (g : nat) (r : option relative) : Answers :=
  match context with
  | CNode c => with_answer D g (relation (default Descendant r)) true (library D) (λ x, x =? c)
  | CNodes l => with_answer D (g + 1) (relation (default Descendant r)) true (library D) (λ x, existsb (Nat.eqb x) l)
  end.
Lemma library_lookup k : k ≠ 0 → (library D : Answers) !! k = None.
Proof. intros H. unfold library. by rewrite lookup_singleton_ne. Qed.
Lemma context_realises g r Q :
  1 ≤ g →
  realises (foundation_answers g r) (Some (g, context)) Q
    (match context with
     | CNode _ => combinator D g (in_checkContext g) (relation (default Descendant r)) true
     | CNodes _ => combinator D (g + 1) (in_any_context g) (relation (default Descendant r)) true
     end)
    (λ e, combined D (relation (default Descendant r)) true
      (λ x, match context with CNode c => x =? c | CNodes l => existsb (Nat.eqb x) l end) xml
      (path D (r_dir (relation (default Descendant r))) e)).
Proof.
  intros Hg. unfold foundation_answers. destruct context as [c|l] eqn:Ec.
  - apply combinator_realises; [done| |apply library_lookup; lia]. intros e s _ Hs. exists s.
    split; [|split; [done|apply touch_refl]]. unfold in_checkContext, gets.
    pose proof (good_cell _ _ _ _ _ _ Hs) as Hc. simpl in Hc. by rewrite Hc.
  - apply combinator_realises; [done| |apply library_lookup; lia]. intros e s _ Hs. exists s.
    split; [|split; [done|apply touch_refl]]. unfold in_any_context, gets.
    pose proof (good_cell _ _ _ _ _ _ Hs) as Hc. simpl in Hc. by rewrite Hc.
Qed.
Lemma good_checkContext A cell cell' s x :
  good A cell s → match cell' with Some (g, c) => x !! g = Some c | None => True end →
  good A cell' (set_checkContext x s).
Proof. intros [? ? ? ? ? ? ?] H. by split. Qed.
Lemma touch_checkContext A s s' x y : touch A (set_checkContext x s) s' → touch A s (set_checkContext y s').
Proof. intros [? ? ? ?]. by split. Qed.
Lemma foundation_realises g r Q :
  1 ≤ g →
  realises (foundation_answers g r) None Q
    (foundation g (match r with Some _ => true | None => false end)
      (combinator D g (in_checkContext g) (relation (default Descendant r)) true)
      (combinator D (g + 1) (in_any_context g) (relation (default Descendant r)) true))
    (reaches r).
Proof.
  intros Hg e s HQ Hs. unfold foundation, reaches, free. mstep. simpl. rewrite (good_outer _ _ _ _ _ _ Hs).
  set (f := xml || negb (bool_decide (Some (OCtx context) = outer))).
  destruct (negb (match r with Some _ => true | None => false end) && f) eqn:Hf; simpl.
  - assert (Hb : match r with None => f | Some _ => false end = true) by (destruct r; [done|exact Hf]).
    rewrite Hb. eexists. split; [done|]. split; [by eapply good_checkContext|].
    apply (touch_checkContext _ _ _ (checkContext s)). destruct s. apply touch_refl.
  - assert (Hb : match r with None => f | Some _ => false end = false) by (destruct r; [done|exact Hf]).
    rewrite Hb. simpl. set (s1 := set_checkContext (<[g:=context]> (checkContext s)) s).
    assert (H1 : good (foundation_answers g r) (Some (g, context)) s1).
    { eapply good_checkContext; [done|]. apply lookup_insert_eq. }
    destruct (context_realises g r Q Hg e s1 HQ H1) as (s2 & E2 & H2 & T2).
    exists (set_checkContext (delete g (checkContext s2)) s2).
    split; [|split; [by eapply good_checkContext|by eapply touch_checkContext]].
    destruct context; rewrite E2; done.
Qed.

(** *** The tokens of a group *)
Definition safe_tokens (tokens : list token) : Prop := Forall (λ t, safe_kind xml (type t)) tokens.
Lemma numbered_with A n r P : numbered A n → A !! n = None → numbered (with_answer D n r false A P) (n + 1).
Proof.
  intros [HA Hn] Hf. split; [by etrans; [|apply with_answer_sub]|]. intros k [f Hk].
  apply with_answer_lookup in Hk as [[-> _]|[_ Hk]]; [lia|]. specialize (Hn k (ex_intro _ f Hk)). lia.
Qed.
Lemma numbered_fresh A n : numbered A n → A !! n = None.
Proof. intros [_ Hn]. destruct (A !! n) as [f|] eqn:E; [|done]. specialize (Hn n (ex_intro _ f E)). lia. Qed.
(** What the compiled matchers so far answer together, and the tokens they stand for. *)
Definition compiled (anchored : nat → Prop) (A : Answers) (ms : list matcher) (ts : list token) : Prop :=
  ms ≠ [] ∧ ∃ Ps, Forall2 (λ m P, realises A None elements m P) ms Ps ∧
    ∀ e, is_element D e = true → forallb (λ P, P e) Ps = true ↔ selects D anchored ts e.
Lemma compiled_matcher anchored A ms ts :
  compiled anchored A ms ts → ∃ P, realises A None elements (elementMatcher ms) P ∧
    ∀ e, is_element D e = true → P e = true ↔ selects D anchored ts e.
Proof. intros (Hne & Ps & H & HS). exists (λ e, forallb (λ P, P e) Ps). split; [by apply elementMatcher_realises|done]. Qed.
Lemma compiled_relative anchored A ms ts t r n :
  compiled anchored A ms ts → numbered A n → relation_of t = Some r →
  ∃ A', numbered A' (n + 1) ∧ A ⊆ A' ∧
    compiled anchored A' [combinator D n (elementMatcher ms) (relation r) false] (t :: ts).
Proof.
  intros Hc HA Ht. destruct (compiled_matcher _ _ _ _ Hc) as (P & HP & HS).
  pose proof (numbered_fresh _ _ HA) as Hf. set (A' := with_answer D n (relation r) false A P).
  exists A'. split; [by apply numbered_with|]. split; [by apply with_answer_sub|]. split; [done|].
  exists [λ e, combined D (relation r) false P xml (path D (r_dir (relation r)) e)]. split.
  - constructor; [|constructor]. apply combinator_realises; [done| |done].
    intros e s He Hs. apply HP; [|done]. by rewrite counts_relation in He.
  - intros e He. simpl. rewrite andb_true_r, combined_related by done. split.
    + intros (q & Hr & Hq & HPq). eapply selects_relative; [done|done|done|]. by apply HS.
    + intros H. inversion H as [|t' ts' e' Hn|t' ts' r' e' q Ht' Hr Hq Hs]; subst; [congruence|].
      assert (r' = r) as -> by congruence. exists q. split; [done|]. split; [done|]. by apply HS.
Qed.
Lemma compiled_simple anchored A ms ts t m p :
  compiled anchored A ms ts → relation_of t = None → test_of D (type t) = Some p → realises A None elements m p →
  compiled anchored A (ms ++ [m]) (t :: ts).
Proof.
  intros (Hne & Ps & H & HS) Ht Hp Hm. split; [by destruct ms|]. exists (Ps ++ [p]). split.
  - apply Forall2_app; [done|]. by constructor.
  - intros e He. rewrite forallb_app. simpl. rewrite andb_true_r, andb_true_iff, HS by done. split.
    + intros [Hs Hpe]. apply selects_simple; [done| |done]. by exists p.
    + intros Hs. inversion Hs as [|t' ts' e' Hn (p' & Hp' & Hpe) Hs'|t' ts' r e' q Ht' Hr Hq Hs']; subst; [|congruence].
      split; [done|]. congruence.
Qed.
Lemma loop_compiled anchored tokens ms ts A s m s' :
  compiled anchored A ms ts → numbered A (done s) → safe_tokens tokens →
  matchers_loop D tokens ms s = (Ret (Some m), s') →
  ∃ A' P, numbered A' (done s') ∧ A ⊆ A' ∧ realises A' None elements m P ∧
    ∀ e, is_element D e = true → P e = true ↔ selects D anchored (rev tokens ++ ts) e.
Proof.
  revert ms ts A s. induction tokens as [|t tokens IH]; intros ms ts A s Hc HA Hsafe H.
  { injection H as <- <-. destruct (compiled_matcher _ _ _ _ Hc) as (P & HP & HS). by exists A, P. }
  apply Forall_cons in Hsafe as [Hst Hsafe]. cbn [matchers_loop] in H. simpl rev. rewrite <- app_assoc.
  destruct (relation_of t) as [r|] eqn:Ht.
  - unfold addCombinator in H. mstep. simpl in H.
    destruct (compiled_relative anchored A ms ts t r (done s) Hc HA Ht) as (A' & HA' & Hsub & Hc').
    destruct (IH _ _ _ (set_done (done s + 1) s) Hc' HA' Hsafe H) as (A'' & P & HA'' & Hsub' & HP & HS).
    exists A'', P. split; [done|]. split; [by etrans|]. by split.
  - unfold mbind, M_bind in H. destruct (filter_of D (type t) s) as [[[f|]|ex] s1] eqn:Ef; [|done|done].
    destruct HA as [Hlib Hn]. destruct (filter_realises D W K outer A None (Some context) xml (type t) f s s1 Hlib Hst Ef) as [-> (p & Hp & Hm)].
    exact (IH _ _ _ _ (compiled_simple _ _ _ _ _ _ _ Hc Ht Hp Hm) (conj Hlib Hn) Hsafe H).
Qed.
(** The foundation of a group, next to the combinators compiled before. *)
Lemma foundation_compiled A g r :
  numbered A g →
  ∃ A', numbered A' (g + 2) ∧ A ⊆ A' ∧
    compiled (anchor D context free r) A'
      [foundation g (match r with Some _ => true | None => false end)
        (combinator D g (in_checkContext g) (relation (default Descendant r)) true)
        (combinator D (g + 1) (in_any_context g) (relation (default Descendant r)) true)] [].
Proof.
  intros HA. destruct (HA) as [Hlib Hn].
  assert (Hg : 1 ≤ g). { apply Hn. exists (answer D legend false (is_disabled_fieldset D) ). eapply lookup_weaken; [|exact Hlib]. apply lookup_singleton_eq. }
  assert (Hsub : ∃ k f, g ≤ k ≤ g + 1 ∧ foundation_answers g r = <[k := f]> (library D : Answers)).
  { unfold foundation_answers, with_answer. destruct context; eexists _, _; (split; [|done]); lia. }
  destruct Hsub as (k & f & Hk & EF).
  assert (Hfresh : A !! k = None).
  { destruct (A !! k) as [f'|] eqn:E; [|done]. specialize (Hn k (ex_intro _ f' E)). lia. }
  exists (<[k := f]> A). split; [|split; [by apply insert_subseteq|]].
  - split; [by etrans; [|apply insert_subseteq]|]. intros k' [f' [[<- _]|[_ Hk']]%lookup_insert_Some]; [lia|].
    specialize (Hn k' (ex_intro _ f' Hk')). lia.
  - split; [done|]. exists [reaches r]. split.
    + constructor; [|constructor]. eapply realises_mono; [|apply foundation_realises; lia]. rewrite EF. by apply insert_mono.
    + intros e _. simpl. rewrite andb_true_r, reaches_anchor. split; [by apply selects_start|]. by inversion 1.
Qed.
Lemma group_compiled A tokens s m s' :
  numbered A (done s) → safe_tokens tokens → matcherFromTokens D tokens s = (Ret (Some m), s') →
  ∃ A' P, numbered A' (done s') ∧ A ⊆ A' ∧ realises A' None elements m P ∧
    ∀ e, is_element D e = true → P e = true ↔ group_selects D context free tokens e.
Proof.
  intros HA Hsafe H. destruct tokens as [|t tokens]; [done|]. unfold matcherFromTokens, addCombinator in H. mstep. simpl in H.
  destruct (foundation_compiled A (done s) (relation_of t) HA) as (A1 & HA1 & Hsub & Hc).
  set (s1 := set_done (done s + 1 + 1) _) in H.
  assert (HA1' : numbered A1 (done s1)) by (by replace (done s1) with (done s + 2) by (simpl; lia)).
  assert (Hsafe' : safe_tokens (match relation_of t with Some _ => tokens | None => t :: tokens end)).
  { destruct (relation_of t); [by apply Forall_cons in Hsafe as [_ ?]|done]. }
  destruct (loop_compiled _ _ _ _ _ _ _ _ Hc HA1' Hsafe' H) as (A2 & P & HA2 & Hsub2 & HP & HS).
  exists A2, P. split; [done|]. split; [by etrans|]. split; [done|]. intros e He. rewrite (HS e He), app_nil_r. done.
Qed.
Lemma groups_compiled A groups s ms s' :
  numbered A (done s) → Forall safe_tokens groups → compile_groups D groups s = (Ret (Some ms), s') →
  ∃ A' Ps, numbered A' (done s') ∧ A ⊆ A' ∧ Forall2 (λ m P, realises A' None elements m P) ms Ps ∧
    ∀ e, is_element D e = true → existsb (λ P, P e) Ps = true ↔ ∃ g, g ∈ groups ∧ group_selects D context free g e.
Proof.
  revert A s ms s'. induction groups as [|g groups IH]; intros A s ms s' HA Hsafe H.
  { injection H as <- <-. exists A, []. split; [done|]. split; [done|]. split; [constructor|].
    intros e _. simpl. split; [done|]. by intros (g & ?%elem_of_nil & _). }
  apply Forall_cons in Hsafe as [Hg Hsafe]. cbn [compile_groups] in H. unfold mbind, M_bind in H.
  destruct (matcherFromTokens D g s) as [[om|ex] s1] eqn:E1; [|done].
  destruct (compile_groups D groups s1) as [[oms|ex] s2] eqn:E2; [|done]. injection H as H <-.
  destruct om as [m|], oms as [ms'|]; try done. injection H as <-.
  destruct (group_compiled A g s m s1 HA Hg E1) as (A1 & P & HA1 & Hsub1 & HP & HS).
  destruct (IH A1 s1 ms' s2 HA1 Hsafe E2) as (A2 & Ps & HA2 & Hsub2 & HPs & HSs).
  exists A2, (P :: Ps). split; [done|]. split; [by etrans|]. split.
  - constructor; [by eapply realises_mono|done].
  - intros e He. simpl. rewrite orb_true_iff, HS, HSs by done. setoid_rewrite elem_of_cons. naive_solver.
Qed.

(** *** A run over elements *)
Lemma some_realises A ms Ps s e :
  Forall2 (λ m P, realises A None elements m P) ms Ps → is_element D e = true → good A None s →
  ∃ s', some_matcher ms e (Some context) xml s = (Ret (existsb (λ P, P e) Ps), s') ∧ good A None s' ∧ touch A s s'.
Proof.
  intros H HQ. revert s. induction H as [|m P ms Ps Hm _ IH]; intros s Hs; simpl.
  { exists s. split; [done|]. split; [done|apply touch_refl]. }
  destruct (Hm e s HQ Hs) as (s1 & E1 & H1 & T1). mstep. rewrite E1. destruct (P e); [by exists s1|].
  destruct (IH s1 H1) as (s2 & E2 & H2 & T2). exists s2. split; [done|]. split; [done|by eapply touch_trans].
Qed.
Lemma good_same_run A s : good A None s → good A None (set_dirruns K s).
Proof. intros [? ? ? ? ? ? ?]. by split. Qed.
Lemma keep_run A (b : bool) s :
  good A None s → ∃ s', when b (modify (set_dirruns K)) s = (Ret tt, s') ∧ good A None s'.
Proof. intros Hs. destruct b; eexists; (split; [done|]); [by apply good_same_run|done]. Qed.
Lemma elements_run A ms Ps elems given outermost s results :
  default (CNode (document D)) given = context →
  Forall2 (λ m P, realises A None elements m P) ms Ps → Forall elements elems → good A None s →
  ∃ s', elements_loop D ms elems given xml outermost K results s =
      (Ret (results ++ List.filter (λ e, existsb (λ P, P e) Ps) elems), s') ∧ good A None s'.
Proof.
  intros Hctx Hms He. revert s results. induction He as [|e elems He _ IH]; intros s results Hs; cbn [elements_loop].
  { exists s. simpl. by rewrite app_nil_r. }
  destruct (some_realises A ms Ps s e Hms He Hs) as (s1 & E1 & H1 & _). unfold mbind, M_bind. rewrite Hctx, E1.
  destruct (keep_run A (bool_decide (outermost ≠ None)) s1 H1) as (s2 & E2 & H2). rewrite E2. simpl. destruct (existsb (λ P, P e) Ps).
  - destruct (IH s2 (results ++ [e]) H2) as (s3 & E3 & H3). exists s3. by rewrite E3, <- app_assoc.
  - by apply IH.
Qed.
End Compiled.

(** ** Whole runs *)
Section Runs.
Context (D : Dom) (W : wf_dom D).
(** Between runs: no array or count is of a later run than the last one. *)
Record run_ok (s : St) : Prop := {
  ok_done : 1 ≤ done s;
  ok_outer : outermostContext s = None;
  ok_slots p k r : slots s !! (p, k) = Some r → r < length (arrays s);
  ok_runs r a : arrays s !! r = Some a → (a_run a ≤ dirruns s)%Z;
  ok_nth p r i d : nth_cache s !! p = Some (r, i, d) → (r ≤ dirruns s)%Z
}.
Lemma initial_ok rnd : run_ok (initial_St rnd).
Proof. by split. Qed.
(** Compiling only counts. *)
Definition only_done (s s' : St) : Prop := s' = set_done (done s') s ∧ done s ≤ done s'.
Lemma only_done_refl s : only_done s s.
Proof. split; [by destruct s|done]. Qed.
Lemma only_done_trans s1 s2 s3 : only_done s1 s2 → only_done s2 s3 → only_done s1 s3.
Proof. intros [-> ?] [-> ?]. split; [done|]. simpl in *. lia. Qed.
Lemma only_done_next s : only_done s (set_done (done s + 1) s).
Proof. split; [done|]. simpl. lia. Qed.
Lemma filter_only_done k s o s' : filter_of D k s = (o, s') → s' = s.
Proof.
  destruct k; simpl; mstep; try (by intros [= _ <-]). unfold filter_PSEUDO.
  destruct (entry_of D pseudo) as [[p|b|f|]|]; mstep; try (by intros [= _ <-]). by destruct (f argument); intros [= _ <-].
Qed.
Lemma loop_only_done tokens ms s o s' : matchers_loop D tokens ms s = (o, s') → only_done s s'.
Proof.
  revert ms s. induction tokens as [|t tokens IH]; intros ms s; cbn [matchers_loop].
  { intros [= _ <-]. apply only_done_refl. }
  destruct (relation_of t).
  - unfold addCombinator. mstep. simpl. intros H%IH. eapply only_done_trans; [|exact H]. apply only_done_next.
  - unfold mbind, M_bind. destruct (filter_of D (type t) s) as [f s1] eqn:E. apply filter_only_done in E as ->.
    destruct f as [[f|]|]; [apply IH|by intros [= _ <-]; apply only_done_refl|by intros [= _ <-]; apply only_done_refl].
Qed.
Lemma group_only_done tokens s o s' : matcherFromTokens D tokens s = (o, s') → only_done s s'.
Proof.
  destruct tokens as [|t tokens]; [intros [= _ <-]; apply only_done_refl|]. unfold matcherFromTokens, addCombinator. mstep. simpl.
  intros H%loop_only_done. eapply only_done_trans; [|exact H]. split; [done|]. simpl. lia.
Qed.
Lemma compile_only_done groups s o s' : compile_groups D groups s = (o, s') → only_done s s'.
Proof.
  revert s o s'. induction groups as [|g groups IH]; intros s o s'; cbn [compile_groups].
  { intros [= _ <-]. apply only_done_refl. }
  unfold mbind, M_bind. destruct (matcherFromTokens D g s) as [[om|ex] s1] eqn:E1; apply group_only_done in E1.
  - destruct (compile_groups D groups s1) as [[oms|ex] s2] eqn:E2; apply IH in E2; intros [= _ <-]; by eapply only_done_trans.
  - by intros [= _ <-].
Qed.
Lemma run_ok_done s s' : only_done s s' → run_ok s → run_ok s'.
Proof. intros [-> Hle] [? ? ? ? ?]. split; try done. simpl in *. lia. Qed.

Definition run_elements (seed : option (list nat)) (outermost : Outer) : list nat :=
  match seed with
  | Some l => l
  | None => match outermost with OCtx (CNode n) => elements_below D n | _ => [] end
  end.
Definition run_context (context : option Ctx) : Ctx := default (CNode (document D)) context.
Definition run_free (context : option Ctx) (outermost : Outer) (xml : bool) : bool :=
  free (outermost_context D context (Some outermost)) (run_context context) xml.
(** A run with compiled groups: the elements that one of the groups selects are added, in
    their order. *)
Lemma run_selects groups ms s0 s1 s seed context xml outermost results :
  run_ok s0 → compile D groups s0 = (Ret (Some ms), s1) → Forall (safe_tokens xml) groups → run_ok s →
  Forall (λ e, is_element D e = true) (run_elements seed outermost) →
  ∃ p s', superMatcher D ms seed context xml results (Some outermost) s =
      (Ret (results ++ List.filter p (run_elements seed outermost)), s') ∧ run_ok s' ∧
    ∀ e, is_element D e = true →
      p e = true ↔ ∃ g, g ∈ groups ∧ group_selects D (run_context context) (run_free context outermost xml) g e.
Proof.
  intros H0 Hc Hsafe Hs He. set (K := (dirruns s + one_run)%Z). set (outer := outermost_context D context (Some outermost)).
  destruct (groups_compiled D W K outer (run_context context) xml (library D) (rev groups) s0 ms s1) as (A & Ps & _ & _ & Hms & Hsel);
    [|by apply Forall_rev|done|].
  { split; [done|]. intros k [f Hk]. unfold library in Hk. apply lookup_singleton_Some in Hk as [<- _]. apply (ok_done _ H0). }
  set (s2 := set_outermost outer (set_dirruns K s)).
  assert (H2 : good D K outer A None s2).
  { destruct Hs as [? ? Hsl Hr Hn]. split; try done.
    - intros r a Ha. specialize (Hr r a Ha). unfold K, one_run. lia.
    - intros p k r a f _ Ha Hk. specialize (Hr r a Ha). unfold K, one_run in Hk. lia.
    - intros p r i d Hp. specialize (Hn p r i d Hp). unfold K, one_run. split; [lia|]. intros ->. unfold K, one_run in Hp. lia. }
  destruct (elements_run D K outer (run_context context) xml A ms Ps (run_elements seed outermost) context (Some outermost) s2 results
      eq_refl Hms He H2) as (s3 & E3 & H3).
  exists (λ e, existsb (λ P, P e) Ps), (set_outermost None (set_dirruns K s3)). split; [|split].
  - unfold superMatcher. mstep. rewrite (ok_outer _ Hs). simpl. fold K outer s2. unfold run_elements in E3.
    destruct seed; rewrite E3; done.
  - destruct H3 as [? ? Hsl Hr _ Hn _ ?]. split; try done. intros p r i d Hp. by destruct (Hn p r i d Hp).
  - intros e Hel. rewrite (Hsel e Hel). setoid_rewrite list_elem_of_In. setoid_rewrite <- in_rev. done.
Qed.
(** [Sizzle.matches] *)
Definition caches_ok (c : Caches) : Prop :=
  cache_ok (token_cache c) ∧
  ∀ key groups d, cache_get key (compiler_cache c) = Some (groups, d) → reading_of key = Ret groups ∧ 1 ≤ d.
Lemma no_caches_ok : caches_ok no_caches.
Proof. split; [apply cache_ok_empty|done]. Qed.
(** The result is the elements that a group selects, in their order. *)
Definition selected (groups : list (list token)) (elements out : list nat) : Prop :=
  ∃ p, out = List.filter p elements ∧
    ∀ e, is_element D e = true → p e = true ↔ ∃ g, g ∈ groups ∧ group_selects D (CNode (document D)) true g e.
(** Searching from the document is searching without a context. *)
Definition context_ok (context : option nat) : Prop :=
  match context with Some c => c = document D ∧ parentNode (node D c) = None ∧ nodeType (node D c) = 9 | None => True end.
Lemma context_free context selector xml :
  context_ok context →
  run_context (CNode <$> context) = CNode (document D) ∧ run_free (CNode <$> context) (outermost_of D selector context) xml = true.
Proof.
  unfold run_free, free, outermost_of. destruct context as [c|]; [|intros _; split; [reflexivity|]; apply orb_true_iff; right; by rewrite bool_decide_false].
  intros (-> & Hp & _). rewrite Hp. split; [reflexivity|]. apply orb_true_iff; right. unfold outermost_context. simpl.
  rewrite (bool_decide_true (CNode _ = CNode _)) by done. by rewrite bool_decide_false; [|destruct (test rsibling selector)].
Qed.
Lemma run_seed_selects context selector groups ms elements s0 s1 s :
  context_ok context → run_ok s0 → compile D groups s0 = (Ret ms, s1) → Forall (safe_tokens (negb (documentIsHTML D))) groups → run_ok s →
  Forall (λ e, is_element D e = true) elements →
  ∃ o s', run_seed D context selector ms elements s = (Ret o, s') ∧ run_ok s' ∧ ∀ out, o = Some out → selected groups elements out.
Proof.
  intros Hctx H0 Hc Hsafe Hs He. destruct ms as [ms|]; [|by exists None, s]. unfold run_seed, mbind, M_bind.
  destruct (run_selects groups ms s0 s1 s (Some elements) (CNode <$> context) (negb (documentIsHTML D)) (outermost_of D selector context) [] H0 Hc Hsafe Hs He)
    as (p & s2 & E2 & H2 & Hp).
  rewrite E2. eexists _, s2. split; [done|]. split; [done|]. intros out [= <-]. exists p. split; [done|].
  destruct (context_free context selector (negb (documentIsHTML D)) Hctx) as [E3 E4]. by rewrite E3, E4 in Hp.
Qed.
Lemma cached_run_ok d s : 1 ≤ d → run_ok s → run_ok (set_done d s).
Proof. intros Hd [? ? ? ? ?]. by split. Qed.
Lemma select_seed_runs context selector elements c s :
  context_ok context → caches_ok c → run_ok s → Forall (λ e, is_element D e = true) elements →
  (∀ groups, reading_of selector = Ret groups → Forall (safe_tokens (negb (documentIsHTML D))) groups) →
  ∃ o c' s', select_seed D context selector elements c s = Some (o, (c', s')) ∧ caches_ok c' ∧ run_ok s' ∧
    (∀ ex, reading_of selector = Throw ex → o = Throw ex) ∧
    (∀ out, o = Ret (Some out) → ∃ groups, reading_of selector = Ret groups ∧ selected groups elements out).
Proof.
  intros Hctx [Htc Hcc] Hs He Hsafe. unfold select_seed. destruct (cache_get selector (compiler_cache c)) as [[groups d]|] eqn:Ec.
  - destruct (Hcc _ _ _ Ec) as [Ht Hd]. destruct (compile D groups (set_done d s)) as [[ms|ex] s1] eqn:E; simpl.
    + destruct (run_seed_selects context selector groups ms elements _ s1 s Hctx (cached_run_ok d s Hd Hs) E (Hsafe _ Ht) Hs He) as (o & s' & Er & Hs' & Ho).
      rewrite Er. exists (Ret o), c, s'. repeat (split; [done|]). split; [congruence|]. intros out [= ->]. exists groups. auto.
    + exists (Throw ex), c, s. repeat (split; [done|]). split; [congruence|done].
  - destruct (tokenize_answers selector _ Htc) as (tc & E & Htc' & _). rewrite E.
    destruct (reading_of selector) as [groups|ex] eqn:Et.
    2: { eexists (Throw ex), _, s. split; [done|]. split; [by split|]. split; [done|]. by split; intros ? [= ->]. }
    destruct (compile D groups s) as [o s1] eqn:Eo. pose proof (run_ok_done _ _ (compile_only_done _ _ _ _ Eo) Hs) as H1.
    destruct o as [ms|ex]; [|eexists (Throw ex), _, s1; split; [done|]; split; [by split|]; split; [done|]; by split].
    destruct (run_seed_selects context selector groups ms elements s s1 s1 Hctx Hs Eo (Hsafe _ eq_refl) H1 He) as (o & s' & Er & Hs' & Ho).
    rewrite Er. eexists (Ret o), _, s'. split; [done|]. split; [|split; [done|split; [done|]]].
    + split; [done|]. simpl. intros key groups' d [[-> [= -> ->]]|H]%cache_get_put; [|by eapply Hcc].
      split; [done|]. apply (ok_done _ Hs).
    + intros out [= ->]. exists groups. auto.
Qed.
End Runs.

(** ** The counts of [:nth-last-child] *)
Section NthLast.
Context (D : Dom) (W : wf_dom D).
Notation node := (node D).
Notation is_element := (is_element D).
Definition store (x d : nat) (s : St) : St := set_nth_last (<[x := (dirruns s, d)]> (nth_last_cache s)) s.
(** What a loop that does not find its element has stored. *)
Fixpoint counted (l : list nat) (d : nat) (s : St) : St :=
  match l with
  | [] => s
  | x :: l' => if is_element x then counted l' (S d) (store x (S d) s) else counted l' d s
  end.
Lemma counted_run l d s : dirruns (counted l d s) = dirruns s.
Proof. revert d s. induction l as [|x l IH]; intros d s; simpl; [done|]. destruct (is_element x); by rewrite IH. Qed.
Lemma counted_other x l d s : x ∉ l → nth_last_cache (counted l d s) !! x = nth_last_cache s !! x.
Proof.
  revert d s. induction l as [|y l IH]; intros d s; [done|]. intros [Hx Hl]%not_elem_of_cons. simpl.
  destruct (is_element y); rewrite IH by done; [|done]. simpl. by rewrite lookup_insert_ne.
Qed.
Lemma counted_app a b d s : counted (a ++ b) d s = counted b (d + count is_element a) (counted a d s).
Proof.
  revert d s. induction a as [|x a IH]; intros d s; simpl; [unfold count; simpl; by rewrite Nat.add_0_r|].
  unfold count in *. simpl. destruct (is_element x); rewrite IH; simpl; f_equal; lia.
Qed.
Lemma count_loop_counted e pre l d s :
  e ∉ pre →
  count_loop D e false true (lower_name D e) (pre ++ l) d s =
  count_loop D e false true (lower_name D e) l (d + count is_element pre) (counted pre d s).
Proof.
  revert d s. induction pre as [|x pre IH]; intros d s.
  - intros _. simpl. unfold count. simpl. by rewrite Nat.add_0_r.
  - intros [Hx Hpre]%not_elem_of_cons. unfold count. simpl. destruct (is_element x); mstep; simpl.
    + destruct (Nat.eqb_spec x e) as [->|_]; [done|]. rewrite IH by done. unfold count. f_equal. lia.
    + rewrite IH by done. by unfold count.
Qed.
Lemma count_loop_found e l d s :
  is_element e = true →
  count_loop D e false true (lower_name D e) (e :: l) d s = (Ret (Some (S d)), store e (S d) s).
Proof. intros He. simpl. rewrite He, Nat.eqb_refl. done. Qed.
(** Testing an element that has not been counted in this run counts it right, but leaves
    wrong counts on the elements before it. *)
Lemma nth_last_counts e par l1 l3 s :
  parentNode (node e) = Some par → childNodes (node par) = l1 ++ e :: l3 → is_element e = true →
  (∀ r d, nth_last_cache s !! e = Some (r, d) → r ≠ dirruns s) →
  nth_other D e par false false true s =
  (Ret (position D false false e),
   store e (position D false false e) (counted (rev l3) 0 (counted (rev l1) 0 s))).
Proof.
  intros Hp E He Hc. pose proof (wf_nodup D W par) as Hnd. rewrite E in Hnd.
  apply NoDup_app in Hnd as (_ & Hnd1 & Hnd2). apply NoDup_cons in Hnd2 as [H3 _].
  assert (H1 : e ∉ l1) by (intros Hin; apply (Hnd1 e Hin); left).
  assert (Hs : siblings_of D e = l1 ++ e :: l3) by (unfold siblings_of; by rewrite Hp).
  destruct (path_siblings D W e l1 l3 Hs) as [P1 P2]. rewrite (position_split D e false false l1 l3 P1 P2). simpl.
  assert (R1 : e ∉ rev l1) by (by rewrite list_elem_of_In, <- in_rev, <- list_elem_of_In).
  assert (R3 : e ∉ rev l3) by (by rewrite list_elem_of_In, <- in_rev, <- list_elem_of_In).
  assert (Hm : match nth_last_cache s !! e with Some (r, d) => if (r =? dirruns s)%Z then Some d else None | None => None end = None).
  { destruct (nth_last_cache s !! e) as [[r d]|] eqn:Ec; [|done]. specialize (Hc r d eq_refl). by destruct (Z.eqb_spec r (dirruns s)). }
  unfold nth_other, mbind, M_bind, gets. rewrite Hm, P1. rewrite <- (app_nil_r (rev l1)) at 1.
  rewrite count_loop_counted by done. simpl. rewrite from_last, E, rev_app_distr by done. simpl. rewrite <- app_assoc. simpl.
  rewrite count_loop_counted by done. rewrite count_loop_found by done. simpl. by rewrite count_rev.
Qed.
Lemma counted_here l1 q l2 l3 e d s :
  is_element q = true → NoDup (l1 ++ q :: l2 ++ e :: l3) →
  nth_last_cache (store e d (counted (rev l3) 0 (counted (rev (l1 ++ q :: l2)) 0 s))) !! q =
  Some (dirruns s, S (count is_element l2)).
Proof.
  intros Hq Hnd. apply NoDup_app in Hnd as (_ & H1 & Hnd). apply NoDup_cons in Hnd as [H2 _].
  assert (Hr : ∀ l, q ∉ l → q ∉ rev l) by (intros l Hl; by rewrite list_elem_of_In, <- in_rev, <- list_elem_of_In).
  simpl. rewrite lookup_insert_ne by set_solver. rewrite counted_other by (apply Hr; set_solver).
  rewrite rev_app_distr. simpl. rewrite <- app_assoc, counted_app. simpl. rewrite Hq.
  rewrite counted_other by (apply Hr; intros Hin; apply (H1 q Hin); left). simpl.
  by rewrite lookup_insert_eq, counted_run, count_rev.
Qed.
Lemma nth_last_hit e par d s :
  nth_last_cache s !! e = Some (dirruns s, d) → nth_other D e par false false true s = (Ret d, s).
Proof. intros H. unfold nth_other. mstep. rewrite H. simpl. by rewrite Z.eqb_refl. Qed.
Lemma nth_last_filter e par first last context s d s' :
  parentNode (node e) = Some par → (first =? 1)%Z && (last =? 0)%Z = false →
  nth_other D e par false false true s = (Ret d, s') →
  filter_CHILD D (txt "nth-last") (txt "child") first last e context false s = (Ret (in_cycle first last (Z.of_nat d)), s').
Proof.
  intros Hp Hab H. unfold filter_CHILD. rewrite Hp, Hab.
  change (is_nth (txt "nth-last")) with true. change (same (slice_end 4 (txt "nth-last")) (txt "last")) with true.
  change (same (txt "child") (txt "of-type")) with false. cbn [negb andb]. mstep. by rewrite H.
Qed.
End NthLast.

(** ** A document *)
Definition list_item (cls : string) : Node :=
  mkNode 1 (txt "LI") [(txt "class", txt cls)] (Some (txt cls)) [] (Some 2) [] no_props.
Definition list_document : Dom :=
  mkDom (list_to_map
    [(0, mkNode 9 (txt "#document") [] None [] None [1] no_props);
     (1, mkNode 1 (txt "HTML") [] (Some []) [] (Some 0) [2] no_props);
     (2, mkNode 1 (txt "UL") [(txt "id", txt "list")] (Some []) [] (Some 1) [3; 4; 5; 6; 7] no_props);
     (3, list_item "odd"); (4, list_item "even"); (5, mkNode 3 (txt "#text") [] None (txt " ") (Some 2) [] no_props);
     (6, list_item "odd last"); (7, list_item "even")])
    0 1 true None true [] [].
Lemma list_document_wf : wf_dom list_document.
Proof. apply checked_wf. vm_compute. reflexivity. Qed.

(** ** Properties *)
(** C8. Filtering elements with a selector: in whatever order the elements come and whatever earlier runs have left on
    the nodes and in the caches of selectors, the call ends, and when no filter of sets is needed its result is, in
    order, the elements that one of the groups of the selector selects, as the meaning of its tokens on the tree
    says; a selector that cannot be read is an error. The cache of [:nth-last-child] is left out. *)
Theorem matches_selects (D : Dom) (expr : text) (elements : list nat) (c : Caches) (s : St) :
  wf_dom D → caches_ok c → run_ok s → Forall (λ e, is_element D e = true) elements →
  (∀ groups, reading_of (trim_selector expr) = Ret groups → Forall (safe_tokens (negb (documentIsHTML D))) groups) →
  ∃ o c' s', matches D expr elements c s = Some (o, (c', s')) ∧ caches_ok c' ∧ run_ok s' ∧
    (expr ≠ [] → ∀ ex, reading_of (trim_selector expr) = Throw ex → o = Throw ex) ∧
    (expr ≠ [] → ∀ out, o = Ret (Some out) →
      ∃ groups p, reading_of (trim_selector expr) = Ret groups ∧ out = List.filter p elements ∧
        ∀ e, is_element D e = true →
          p e = true ↔ ∃ g, g ∈ groups ∧ group_selects D (CNode (document D)) true g e).
Proof.
  intros W Hc Hs He Hsafe. unfold matches, Sizzle_seed, same. cbn [existsb Nat.eqb orb negb]. rewrite orb_false_r. case_bool_decide as Hexpr.
  { exists (Ret (Some [])), c, s. split; [done|]. split; [done|]. split; [done|]. by split; intros. }
  destruct (select_seed_runs D W None _ elements c s I Hc Hs He Hsafe) as (o & c' & s' & E & Hc' & Hs' & Hex & Ho).
  exists o, c', s'. do 3 (split; [done|]). split; [by auto|]. intros _ out Hout.
  destruct (Ho out Hout) as (groups & Ht & p & Hp & HP). by exists groups, p.
Qed.
Definition odd_items : text := txt "#list > li:nth-child(2n+1), li.even + LI.last".
Example matches_selects_witness :
  (wf_dom list_document ∧ caches_ok no_caches ∧ run_ok (initial_St [])) ∧
  fst <$> matches list_document odd_items [7; 6; 4; 3] no_caches (initial_St []) = Some (Ret (Some [6; 3])) ∧
  ∃ o c' s', matches list_document odd_items [7; 6; 4; 3] no_caches (initial_St []) = Some (o, (c', s')) ∧
    caches_ok c' ∧ run_ok s' ∧
    (odd_items ≠ [] → ∀ ex, reading_of (trim_selector odd_items) = Throw ex → o = Throw ex) ∧
    (odd_items ≠ [] → ∀ out, o = Ret (Some out) →
      ∃ groups p, reading_of (trim_selector odd_items) = Ret groups ∧ out = List.filter p [7; 6; 4; 3] ∧
        ∀ e, is_element list_document e = true →
          p e = true ↔ ∃ g, g ∈ groups ∧ group_selects list_document (CNode (document list_document)) true g e).
Proof.
  split; [split; [apply list_document_wf|split; [apply no_caches_ok|apply initial_ok]]|].
  split; [vm_compute; reflexivity|]. apply matches_selects.
  - apply list_document_wf.
  - apply no_caches_ok.
  - apply initial_ok.
  - repeat constructor.
  - intros groups E. vm_compute in E. injection E as <-. repeat constructor.
Defined.

(** The cache of [:nth-last-child]: in a run, an element that is tested first is counted right, but an element
    before it is then counted from that element instead of from the last child. *)
Theorem nth_last_child_miscounts (D : Dom) (e q par : nat) (l1 l2 l3 : list nat) (first last : Z) (context : option Ctx) (s : St) :
  wf_dom D → parentNode (node D e) = Some par → childNodes (node D par) = l1 ++ q :: l2 ++ e :: l3 →
  is_element D e = true → is_element D q = true → (first =? 1)%Z && (last =? 0)%Z = false →
  (∀ r d, nth_last_cache s !! e = Some (r, d) → r ≠ dirruns s) →
  ∃ s', filter_CHILD D (txt "nth-last") (txt "child") first last e context false s =
      (Ret (in_cycle first last (Z.of_nat (S (count (is_element D) l3)))), s') ∧
    fst (filter_CHILD D (txt "nth-last") (txt "child") first last q context false s') =
      Ret (in_cycle first last (Z.of_nat (S (count (is_element D) l2)))) ∧
    position D false false q = S (count (is_element D) (l2 ++ e :: l3)).
Proof.
  intros W Hp E He Hq Hab Hc. change (l1 ++ q :: l2 ++ e :: l3) with (l1 ++ (q :: l2) ++ e :: l3) in E. rewrite app_assoc in E.
  pose proof (nth_last_counts D W e par _ l3 s Hp E He Hc) as Hn.
  assert (Hs : siblings_of D e = (l1 ++ q :: l2) ++ e :: l3) by (unfold siblings_of; by rewrite Hp).
  assert (Hq' : parentNode (node D q) = Some par) by (apply (wf_child D W); rewrite E; set_solver).
  assert (Hsq : siblings_of D q = l1 ++ q :: l2 ++ e :: l3) by (unfold siblings_of; by rewrite Hq', E, <- app_assoc).
  destruct (path_siblings D W e _ _ Hs) as [P1 P2]. destruct (path_siblings D W q _ _ Hsq) as [Q1 Q2].
  rewrite (position_split D e false false _ _ P1 P2) in Hn. eexists. split; [by apply (nth_last_filter D e par)|].
  split; [|by rewrite (position_split D q false false _ _ Q1 Q2)].
  erewrite (nth_last_filter D q par); [reflexivity|done|done|]. apply nth_last_hit.
  pose proof (wf_nodup D W par) as Hnd. rewrite E, <- app_assoc in Hnd.
  rewrite counted_here by done. simpl. by rewrite !counted_run.
Qed.
Example nth_last_child_miscounts_witness :
  wf_dom list_document ∧
  fst <$> matches list_document (txt "li:nth-last-child(1)") [7; 6] no_caches (initial_St []) = Some (Ret (Some [7; 6])) ∧
  ∃ s', filter_CHILD list_document (txt "nth-last") (txt "child") 0 1 7 None false (initial_St []) =
      (Ret (in_cycle 0 1 (Z.of_nat (S (count (is_element list_document) [])))), s') ∧
    fst (filter_CHILD list_document (txt "nth-last") (txt "child") 0 1 6 None false s') =
      Ret (in_cycle 0 1 (Z.of_nat (S (count (is_element list_document) [])))) ∧
    position list_document false false 6 = S (count (is_element list_document) ([] ++ 7 :: [])).
Proof.
  split; [apply list_document_wf|]. split; [vm_compute; reflexivity|].
  apply (nth_last_child_miscounts list_document 7 6 2 [3; 4; 5] [] [] 0 1 None (initial_St [])); try reflexivity.
  - apply list_document_wf.
  - intros r d H. vm_compute in H. discriminate.
Defined.
