(* ===== verification/JqOrder.v ===== *)
(** * The order of a document

    Model of the sorting part of Sizzle in jquery-3.5.1.js: [siblingCheck], both versions of
    [contains] and of [sortOrder], and [Sizzle.uniqueSort]; with the order of the nodes of a
    tree and the proof that sorting puts nodes in that order, each once. *)
From Stdlib Require Import ZArith NArith Lia Sorted Permutation.
From stdpp Require Import base list gmap relations sorting.
From S2P Require Import Prelude.
From S2P Require Import JqDom.
From S2P Require Import JqMatcherFacts.

(** ** What the browser answers *)
Record Browser := mkBrowser {
  hasCompare : bool;                                  (* the document has compareDocumentPosition *)
  can_compare : nat → bool;                           (* and so has this node *)
  compareDocumentPosition : nat → nat → Z;
  hasContains : bool;                                 (* documentElement.contains is native *)
  dom_contains : nat → option (nat → bool);           (* node.contains *)
  ownerDocument : nat → option nat;
  preferredDoc : nat;                                 (* window.document *)
  sourceIndex : nat → option Z;
  sortDetached : bool; sortStable : bool; detectDuplicates : bool
}.
(** The variables of Sizzle that a comparison sets and reads. *)
Record SortSt := mkSortSt { hasDuplicate : bool; sortInput : option (list nat) }.
Notation MS := (M SortSt).
Definition found_duplicate : MS unit := modify (λ s, mkSortSt true (sortInput s)).

Section Order.
Context (D : Dom) (B : Browser).
Notation node := (node D).
Notation is_element := (is_element D).

(** ** [contains] *)
Definition contains_native (a b : nat) : bool :=
  let adown := if nodeType (node a) =? 9 then documentElement D else a in
  match parentNode (node b) with
  | None => false
  | Some bup =>
      (a =? bup) ||
      is_element bup &&
      match dom_contains B adown with
      | Some f => f bup
      | None => can_compare B a && Z.testbit (compareDocumentPosition B a bup) 4
      end
  end.
Fixpoint contains_loop (a : nat) (l : list nat) : bool :=
  match l with [] => false | b :: l' => if b =? a then true else contains_loop a l' end.
Definition contains_fallback (a b : nat) : bool := contains_loop a (path D ParentNode b).
Definition contains : nat → nat → bool :=
  if hasCompare B || hasContains B then contains_native else contains_fallback.

(** ** [sortOrder] *)
Fixpoint indexOf_from (elem i : nat) (l : list nat) : Z :=
  match l with [] => -1 | x :: l' => if x =? elem then Z.of_nat i else indexOf_from elem (S i) l' end.
Definition indexOf (l : list nat) (elem : nat) : Z := indexOf_from elem 0 l.
(** Where the nodes have no order: as they came. *)
Definition by_input (a b : nat) : MS Z :=
  input ← gets sortInput;
  mret match input with Some l => (indexOf l a - indexOf l b)%Z | None => 0%Z end.
Definition siblingCheck (a b : option nat) : Z :=
  match a, b with
  | Some a, Some b =>
      let diff :=
        match is_element a && is_element b, sourceIndex B a, sourceIndex B b with
        | true, Some x, Some y => (x - y)%Z
        | _, _, _ => 0%Z
        end in
      if negb (diff =? 0)%Z then diff
      else if existsb (Nat.eqb b) (path D NextSibling a) then -1 else 1
  | Some _, None => 1
  | None, _ => -1
  end%Z.
Definition owner (a : nat) : nat := default a (ownerDocument B a).
Definition in_preferred (a : nat) : bool :=
  (a =? document D) || bool_decide (ownerDocument B a = Some (preferredDoc B)) && contains (preferredDoc B) a.
Definition sortOrder_native (a b : nat) : MS Z :=
  if a =? b then found_duplicate;; mret 0%Z
  else
    let compare := (Z.b2z (negb (can_compare B a)) - Z.b2z (negb (can_compare B b)))%Z in
    if negb (compare =? 0)%Z then mret compare
    else
      let compare := if owner a =? owner b then compareDocumentPosition B a b else 1%Z in
      if Z.testbit compare 0 || negb (sortDetached B) && (compareDocumentPosition B b a =? compare)%Z then
        if in_preferred a then mret (-1)%Z
        else if in_preferred b then mret 1%Z
        else by_input a b
      else mret (if Z.testbit compare 2 then -1 else 1)%Z.
(** Down two lists of ancestors while they agree: how far, and what comes then. *)
Fixpoint discrepancy (ap bp : list nat) (i : nat) : nat * option nat * option nat :=
  match ap, bp with
  | x :: ap', y :: bp' => if x =? y then discrepancy ap' bp' (S i) else (i, Some x, Some y)
  | _, _ => (i, head ap, head bp)
  end.
(** The ancestors of a node from the top, and the node. *)
Definition lineage (a : nat) : list nat := rev (a :: path D ParentNode a).
Definition sortOrder_fallback (a b : nat) : MS Z :=
  if a =? b then found_duplicate;; mret 0%Z
  else
    match parentNode (node a), parentNode (node b) with
    | Some aup, Some bup =>
        if aup =? bup then mret (siblingCheck (Some a) (Some b))
        else
          let '(i, x, y) := discrepancy (lineage a) (lineage b) 0 in
          if negb (i =? 0) then mret (siblingCheck x y)
          else if bool_decide (x = Some (preferredDoc B)) then mret (-1)%Z
          else if bool_decide (y = Some (preferredDoc B)) then mret 1%Z
          else mret 0%Z
    | aup, bup =>
        if a =? document D then mret (-1)%Z
        else if b =? document D then mret 1%Z
        else match aup, bup with
             | Some _, _ => mret (-1)%Z
             | None, Some _ => mret 1%Z
             | None, None => by_input a b
             end
    end.
Definition sortOrder : nat → nat → MS Z := if hasCompare B then sortOrder_native else sortOrder_fallback.

(** ** [results.sort( sortOrder )]
    A stable sort by insertion, one of those the language allows: an element goes back over
    the sorted ones, from the last. *)
Fixpoint insert_back (x : nat) (sorted : list nat) : MS (list nat) :=
  match sorted with
  | [] => mret [x]
  | y :: sorted' =>
      c ← sortOrder y x;
      if (0 <? c)%Z then l ← insert_back x sorted'; mret (y :: l) else mret (x :: y :: sorted')
  end.
Fixpoint sort_into (sorted rest : list nat) : MS (list nat) :=
  match rest with
  | [] => mret (rev sorted)
  | x :: rest' => sorted ← insert_back x sorted; sort_into sorted rest'
  end.
Definition sort (results : list nat) : MS (list nat) := sort_into [] results.

(** ** [Sizzle.uniqueSort] *)
(** The indices of the elements equal to the one before. *)
Fixpoint duplicates (i : nat) (results : list nat) : list nat :=
  match results with
  | elem :: ((next :: _) as rest) => if elem =? next then S i :: duplicates (S i) rest else duplicates (S i) rest
  | _ => []
  end.
(** [results.splice( duplicates[ j ], 1 )], from the last. *)
Definition splice_all (indices : list nat) (results : list nat) : list nat :=
  foldr (λ i l, take i l ++ drop (S i) l) results indices.
Definition uniqueSort (results : list nat) : MS (list nat) :=
  modify (λ _, mkSortSt (negb (detectDuplicates B)) (if sortStable B then None else Some results));;
  results ← sort results;
  repeated ← gets hasDuplicate;
  modify (λ s, mkSortSt (hasDuplicate s) None);;
  mret (if repeated : bool then splice_all (duplicates 0 results) results else results).

(** ** The order of a tree *)
(** A node and the nodes below it, in the order of the document. *)
Definition tree (e : nat) : list nat := e :: descendants D e.
Definition document_order : list nat := tree (document D).
Definition precedes (l : list nat) (a b : nat) : Prop := ∃ i j, i < j ∧ l !! i = Some a ∧ l !! j = Some b.

(** The documented behaviour of the browser on the nodes of the document. *)
Record documented : Prop := {
  doc_can a : hasCompare B = true → a ∈ document_order → can_compare B a = true;
  doc_owner a b : a ∈ document_order → b ∈ document_order → owner a = owner b;
  doc_connected a b : hasCompare B = true → a ∈ document_order → b ∈ document_order → Z.testbit (compareDocumentPosition B a b) 0 = false;
  doc_differs a b : hasCompare B = true → a ∈ document_order → b ∈ document_order → a ≠ b →
    compareDocumentPosition B b a ≠ compareDocumentPosition B a b;
  doc_following a b : hasCompare B = true → a ∈ document_order → b ∈ document_order → a ≠ b →
    Z.testbit (compareDocumentPosition B a b) 2 = true ↔ precedes document_order a b;
  doc_index a b x y : a ∈ document_order → b ∈ document_order →
    sourceIndex B a = Some x → sourceIndex B b = Some y → (x < y)%Z ↔ precedes document_order a b
}.
End Order.

(** ** Precedence in a list *)
Section Precedes.
Context (l : list nat) (Hnd : NoDup l).
Lemma precedes_irrefl a : ¬ precedes l a a.
Proof. intros (i & j & Hij & Hi & Hj). pose proof (NoDup_lookup _ _ _ _ Hnd Hi Hj). lia. Qed.
Lemma precedes_trans a b c : precedes l a b → precedes l b c → precedes l a c.
Proof.
  intros (i & j & Hij & Hi & Hj) (j' & k & Hjk & Hj' & Hk). pose proof (NoDup_lookup _ _ _ _ Hnd Hj Hj').
  exists i, k. split; [lia|done].
Qed.
Lemma precedes_asym a b : precedes l a b → ¬ precedes l b a.
Proof. intros H1 H2. by apply (precedes_irrefl a), (precedes_trans a b a). Qed.
Lemma precedes_total a b : a ∈ l → b ∈ l → a ≠ b → precedes l a b ∨ precedes l b a.
Proof.
  intros [i Hi]%list_elem_of_lookup [j Hj]%list_elem_of_lookup Hab.
  destruct (Nat.lt_trichotomy i j) as [H|[->|H]]; [left; by exists i, j|congruence|right; by exists j, i].
Qed.
End Precedes.
Lemma precedes_app l1 l2 a b : a ∈ l1 → b ∈ l2 → precedes (l1 ++ l2) a b.
Proof.
  intros [i Hi]%list_elem_of_lookup [j Hj]%list_elem_of_lookup. exists i, (length l1 + j).
  pose proof (lookup_lt_Some _ _ _ Hi). split; [lia|]. split; [by apply lookup_app_l_Some|].
  rewrite lookup_app_r by lia. by replace (length l1 + j - length l1) with j by lia.
Qed.
Lemma precedes_inside p l s a b : precedes l a b → precedes (p ++ l ++ s) a b.
Proof.
  intros (i & j & Hij & Hi & Hj). exists (length p + i), (length p + j). split; [lia|].
  assert (H : ∀ k x, l !! k = Some x → (p ++ l ++ s) !! (length p + k) = Some x).
  { intros k x Hk. rewrite lookup_app_r by lia. replace (length p + k - length p) with k by lia. by apply lookup_app_l_Some. }
  split; by apply H.
Qed.
Lemma filter_precedes l (q : nat → bool) : StronglySorted (precedes l) (List.filter q l).
Proof.
  assert (H : ∀ p l, StronglySorted (precedes (p ++ l)) (List.filter q l)); [|apply (H [])].
  clear l. intros p l. revert p. induction l as [|x l IH]; intros p; [constructor|]. specialize (IH (p ++ [x])).
  rewrite <- app_assoc in IH. simpl in *. destruct (q x); [|done]. constructor; [done|]. apply Forall_forall.
  intros y [Hy _]%list_elem_of_In%filter_In. rewrite cons_middle, app_assoc. apply precedes_app; [set_solver|].
  by apply list_elem_of_In.
Qed.
(** A list in the order of another one, without repetitions, is what a test picks from it. *)
Lemma sorted_is_filter l (q : nat → bool) l' :
  NoDup l → StronglySorted (precedes l) l' → NoDup l' → (∀ x, x ∈ l' ↔ x ∈ l ∧ q x = true) → l' = List.filter q l.
Proof.
  intros Hl Hs Hnd Hin. eapply (StronglySorted_unique_strong (precedes l)).
  - intros x y _ _ H1 H2. by destruct (precedes_asym l Hl x y H1).
  - done.
  - apply filter_precedes.
  - apply NoDup_Permutation; [done|by apply NoDup_ListNoDup, List.NoDup_filter, NoDup_ListNoDup|].
    intros x. by rewrite Hin, !list_elem_of_In, filter_In, <- list_elem_of_In.
Qed.

(** ** The nodes of a tree *)
Section Tree.
Context (D : Dom) (W : wf_dom D).
Notation node := (node D).
Notation descendants := (descendants D).
Notation tree := (tree D).

Lemma height_lt (depth : nat → nat) p c :
  (∀ p c, parentNode (node c) = Some p → depth p < depth c) → c ∈ childNodes (node p) →
  size (filter (λ x, depth c < depth x) (dom (nodes D))) < size (filter (λ x, depth p < depth x) (dom (nodes D))).
Proof.
  intros Hd Hc. pose proof (Hd p c (wf_child D W p c Hc)) as H. apply subset_size. split.
  - intros x. rewrite !elem_of_filter. intros [? ?]. split; [lia|done].
  - intros Hs. assert (c ∈ filter (λ x, depth c < depth x) (dom (nodes D))) as Hi.
    { apply Hs, elem_of_filter. split; [done|]. apply elem_of_dom. by apply (wf_known D W p). }
    apply elem_of_filter in Hi as [? _]. lia.
Qed.
Lemma flat_map_eq {A B} (f g : A → list B) l : (∀ x, x ∈ l → f x = g x) → flat_map f l = flat_map g l.
Proof. induction l as [|x l IH]; intros H; [done|]. simpl. rewrite H by left. f_equal. apply IH. intros y Hy. apply H. by right. Qed.
Lemma below_enough (depth : nat → nat) n m e :
  (∀ p c, parentNode (node c) = Some p → depth p < depth c) →
  size (filter (λ x, depth e < depth x) (dom (nodes D))) ≤ n →
  size (filter (λ x, depth e < depth x) (dom (nodes D))) ≤ m → below D n e = below D m e.
Proof.
  intros Hd. revert m e. induction n as [|n IH]; intros m e Hn Hm.
  - destruct m as [|m]; [done|]. simpl. destruct (childNodes (node e)) as [|c l] eqn:E; [done|].
    assert (Hc : c ∈ childNodes (node e)) by (rewrite E; left). pose proof (height_lt depth e c Hd Hc). lia.
  - destruct m as [|m].
    + simpl. destruct (childNodes (node e)) as [|c l] eqn:E; [done|].
      assert (Hc : c ∈ childNodes (node e)) by (rewrite E; left). pose proof (height_lt depth e c Hd Hc). lia.
    + simpl. apply flat_map_eq. intros c Hc. f_equal. pose proof (height_lt depth e c Hd Hc). apply IH; lia.
Qed.
(** A tree is its root and the trees of the children. *)
Lemma descendants_step e : descendants e = flat_map tree (childNodes (node e)).
Proof.
  destruct (wf_depth D W) as [depth Hd]. set (f := λ e, size (filter (λ x, depth e < depth x) (dom (nodes D)))).
  assert (Hs : ∀ e, f e ≤ size (nodes D)).
  { intros x. unfold f. rewrite <- size_dom. apply subseteq_size. intros y. rewrite elem_of_filter. tauto. }
  unfold JqDom.descendants. rewrite (below_enough depth _ (S (size (nodes D))) e Hd (Hs e)) by (specialize (Hs e); unfold f in Hs; lia).
  done.
Qed.
Lemma tree_ind (P : nat → Prop) : (∀ e, (∀ c, c ∈ childNodes (node e) → P c) → P e) → ∀ e, P e.
Proof.
  intros H. destruct (wf_depth D W) as [depth Hd]. intros e.
  remember (size (filter (λ x, depth e < depth x) (dom (nodes D)))) as n eqn:E. revert e E.
  induction n as [n IH] using lt_wf_ind. intros e ->. apply H. intros c Hc. eapply IH; [|done]. by apply height_lt.
Qed.
Lemma ancestor_child x e : ancestor D x e → ∃ c, parentNode (node c) = Some e ∧ (x = c ∨ ancestor D x c).
Proof.
  induction 1 as [x y H|x y z H _ (c & Hc & IH)]; [by exists x; auto|]. exists c. split; [done|]. right.
  destruct IH as [->|IH]; [by apply tc_once|by eapply tc_l].
Qed.
Lemma tree_elem e x : x ∈ tree e ↔ x = e ∨ ancestor D x e.
Proof.
  revert x. induction e as [e IH] using tree_ind. intros x. unfold JqOrder.tree. rewrite descendants_step, elem_of_cons.
  assert (Hf : x ∈ flat_map tree (childNodes (node e)) ↔ ancestor D x e); [|by rewrite Hf].
  rewrite list_elem_of_In, in_flat_map. split.
  - intros (c & Hc & Hx). apply list_elem_of_In in Hc. apply list_elem_of_In, (IH c Hc) in Hx. pose proof (wf_child D W e c Hc) as Hp.
    destruct Hx as [->|Hx]; [by apply tc_once|by eapply tc_r].
  - intros (c & Hc & Hx)%ancestor_child. pose proof (wf_parent D W e c Hc) as Hin. exists c.
    rewrite <- !list_elem_of_In. split; [done|]. by apply IH.
Qed.
Lemma path_suffix z l x l' : z :: path D ParentNode z = l ++ x :: l' → path D ParentNode x = l'.
Proof.
  revert z. induction l as [|y l IH]; intros z E; [by injection E as -> ->|]. injection E as <- E.
  destruct (path D ParentNode z) as [|q p] eqn:Ez; [by destruct l|]. apply (IH q).
  by rewrite <- (path_cons D W _ _ _ _ Ez).
Qed.
Lemma tree_path e x : x ∈ tree e ↔ e ∈ x :: path D ParentNode x.
Proof. rewrite tree_elem, elem_of_cons, ancestor_path by done. naive_solver. Qed.
(** The ancestors of a node are above each other. *)
Lemma lineage_linear z a b : z ∈ tree a → z ∈ tree b → a ∈ tree b ∨ b ∈ tree a.
Proof.
  rewrite !tree_path. intros (l & l' & E)%list_elem_of_split Hb. pose proof (path_suffix _ _ _ _ E) as Ha.
  rewrite E, elem_of_app in Hb. rewrite Ha. destruct Hb as [(m & m' & ->)%list_elem_of_split|Hb]; [right|by left].
  rewrite <- app_assoc in E. apply path_suffix in E. rewrite E. set_solver.
Qed.
Lemma ancestor_irrefl e : ¬ ancestor D e e.
Proof. intros H%(ancestor_path D W). by apply (path_fresh D W) in H. Qed.
Lemma siblings_apart p a b : a ∈ childNodes (node p) → b ∈ childNodes (node p) → a ∈ tree b → a = b.
Proof.
  intros Ha%(wf_child D W) Hb%(wf_child D W) [->|H]%tree_elem; [done|]. destruct (ancestor_irrefl p).
  assert (Hp : p = b ∨ ancestor D p b) by (destruct H as [x y H|x y z H H']; assert (y = p) as -> by congruence; auto).
  destruct Hp as [->|Hp]; [by apply tc_once|by eapply tc_r].
Qed.
Lemma nodup_flat_map {A B} (f : A → list B) l :
  NoDup l → (∀ x, x ∈ l → NoDup (f x)) → (∀ x y z, x ∈ l → y ∈ l → z ∈ f x → z ∈ f y → x = y) → NoDup (flat_map f l).
Proof.
  induction 1 as [|x l Hx Hnd IH]; intros Hf Hd; simpl; [constructor|]. apply NoDup_app. split; [apply Hf; left|]. split.
  - intros z Hz (y & Hy & Hzy)%list_elem_of_In%in_flat_map. apply list_elem_of_In in Hy, Hzy. apply Hx.
    rewrite (Hd x y z); [done|left|by right|done|done].
  - apply IH; [intros y Hy; apply Hf; by right|]. intros y y' z Hy Hy'. apply Hd; by right.
Qed.
Lemma tree_nodup e : NoDup (tree e).
Proof.
  induction e as [e IH] using tree_ind. constructor.
  - intros H. destruct (ancestor_irrefl e). destruct (ancestor_path D W e e) as [_ Hp]. apply Hp.
    rewrite descendants_step in H. apply list_elem_of_In, in_flat_map in H as (c & Hc & Hx).
    apply list_elem_of_In in Hc, Hx. apply (wf_child D W) in Hc. apply (ancestor_path D W).
    apply tree_elem in Hx as [->|Hx]; [by apply tc_once|by eapply tc_r].
  - rewrite descendants_step. apply nodup_flat_map; [apply (wf_nodup D W)|done|].
    intros a b z Ha Hb Hza Hzb. destruct (lineage_linear z a b Hza Hzb) as [H|H].
    + by apply (siblings_apart e).
    + symmetry. by apply (siblings_apart e).
Qed.
(** Every tree is a stretch of the trees around it. *)
Lemma tree_stretch r e : e ∈ tree r → ∃ l1 l2, tree r = l1 ++ tree e ++ l2.
Proof.
  intros [->|H]%tree_elem; [exists [], []; by rewrite app_nil_r|]. induction H as [x p H|x p z H _ (l1 & l2 & IH)].
  - apply (wf_parent D W), list_elem_of_split in H as (a & b & E). exists (p :: flat_map tree a), (flat_map tree b).
    unfold JqOrder.tree at 1. by rewrite descendants_step, E, flat_map_app.
  - apply (wf_parent D W), list_elem_of_split in H as (a & b & E).
    exists (l1 ++ p :: flat_map tree a), (flat_map tree b ++ l2). rewrite IH. unfold JqOrder.tree at 1.
    rewrite descendants_step, E, flat_map_app. cbn [flat_map]. by repeat (rewrite <- !app_assoc; simpl).
Qed.
Lemma precedes_tree r e a b : e ∈ tree r → precedes (tree e) a b → precedes (tree r) a b.
Proof. intros (l1 & l2 & ->)%tree_stretch H. by apply precedes_inside. Qed.
(** A node comes before the nodes below it, and a tree before the trees of later siblings. *)
Lemma precedes_below r a b : a ∈ tree r → ancestor D b a → precedes (tree r) a b.
Proof.
  intros Ha Hb. apply (precedes_tree r a); [done|]. apply (precedes_app [a]); [left|].
  assert (H : b ∈ tree a) by (apply tree_elem; by right). apply elem_of_cons in H as [->|H]; [|done].
  by apply ancestor_irrefl in Hb.
Qed.
Lemma precedes_sideways r x y a b :
  x ∈ tree r → y ∈ path D NextSibling x → a ∈ tree x → b ∈ tree y → x ≠ r → precedes (tree r) a b.
Proof.
  intros Hx Hy Ha Hb Hne. apply tree_elem in Hx as [->|Hx]; [done|].
  assert (∃ p, parentNode (node x) = Some p ∧ p ∈ tree r) as (p & Hp & Hpr).
  { destruct Hx as [x p H|x p z H H']; exists p; (split; [done|]); apply tree_elem; auto. }
  apply (precedes_tree r p); [done|]. destruct (children_split D W x p Hp) as (l1 & l2 & E & _ & _ & _ & E2).
  rewrite E2 in Hy. unfold JqOrder.tree at 1. rewrite descendants_step, E, flat_map_app. cbn [flat_map].
  pose proof (precedes_inside (p :: flat_map tree l1) (tree x ++ flat_map tree l2) [] a b) as H.
  rewrite app_nil_r in H. apply H.
  by apply precedes_app; [|apply list_elem_of_In, in_flat_map; exists y; rewrite <- !list_elem_of_In].
Qed.
End Tree.

(** ** Comparing nodes of the document *)
Section Compare.
Context (D : Dom) (B : Browser) (W : wf_dom D) (HB : documented D B).
(** The document has nothing above it. *)
Context (Hroot : parentNode (node D (document D)) = None).
Notation node := (node D).
Notation order := (document_order D).

Lemma order_nodup : NoDup order.
Proof. by apply tree_nodup. Qed.
Lemma order_parent a p : a ∈ order → parentNode (node a) = Some p → p ∈ order.
Proof.
  intros [->|H]%tree_elem Hp; [congruence| |done]. apply tree_elem; [done|].
  destruct H as [x y H|x y z H H']; assert (y = p) as -> by congruence; auto.
Qed.
Lemma order_orphan a : a ∈ order → parentNode (node a) = None → a = document D.
Proof. intros [->|H]%tree_elem Hp; [done| |done]. destruct H as [x y H|x y z H H']; congruence. Qed.
Lemma order_not_root a p : parentNode (node a) = Some p → a ≠ document D.
Proof. intros H ->. congruence. Qed.

(** Different siblings are before one another. *)
Lemma siblings_either p a b :
  parentNode (node a) = Some p → parentNode (node b) = Some p → a ≠ b →
  b ∈ path D NextSibling a ∨ a ∈ path D NextSibling b.
Proof.
  intros Ha Hb Hab. destruct (children_split D W a p Ha) as (l1 & l2 & E & _ & _ & _ & Ea).
  pose proof (wf_parent D W _ _ Hb) as H. rewrite E, elem_of_app, elem_of_cons in H.
  destruct H as [H|[->|H]]; [right|done|left; by rewrite Ea].
  apply list_elem_of_split in H as (m1 & m2 & ->). rewrite <- app_assoc in E. simpl in E.
  assert (Hs : siblings_of D b = m1 ++ b :: m2 ++ a :: l2) by (unfold siblings_of; by rewrite Hb).
  destruct (path_siblings D W b _ _ Hs) as [_ ->]. set_solver.
Qed.
(** A comparison of two nodes: negative for the one that comes first. *)
Definition orders (c : Z) (a b : nat) : Prop := (c < 0)%Z ∧ precedes order a b ∨ (0 < c)%Z ∧ precedes order b a.
Lemma siblingCheck_orders p x y a b :
  x ∈ order → parentNode (node x) = Some p → parentNode (node y) = Some p → x ≠ y →
  a ∈ tree D x → b ∈ tree D y → orders (siblingCheck D B (Some x) (Some y)) a b.
Proof.
  intros Hx Hpx Hpy Hxy Ha Hb.
  assert (Hy : y ∈ order).
  { apply tree_elem; [done|]. right. apply (order_parent x p Hx), tree_elem in Hpx as [->|H]; [by apply tc_once|by eapply tc_l|done]. }
  pose proof (order_not_root x p Hpx) as Hrx. pose proof (order_not_root y p Hpy) as Hry.
  assert (Hside : ∀ u v c d, u ∈ order → u ≠ document D → v ∈ path D NextSibling u → c ∈ tree D u → d ∈ tree D v → precedes order c d).
  { intros u v c d Hu Hru Hv Hc Hd. by apply (precedes_sideways D W _ u v). }
  assert (Hwalk : orders (if existsb (Nat.eqb y) (path D NextSibling x) then -1 else 1) a b).
  { destruct (existsb _ _) eqn:E.
    - apply existsb_exists in E as (z & Hz & ->%Nat.eqb_eq). left. split; [done|]. apply (Hside x z); try done. by apply list_elem_of_In.
    - right. split; [done|]. destruct (siblings_either p x y Hpx Hpy Hxy) as [H|H]; [|by apply (Hside y x)].
      apply not_true_iff_false in E. destruct E. apply existsb_exists. exists y. by rewrite <- list_elem_of_In, Nat.eqb_refl. }
  unfold siblingCheck. destruct (is_element D x && is_element D y), (sourceIndex B x) as [i|] eqn:Ei, (sourceIndex B y) as [j|] eqn:Ej;
    try exact Hwalk.
  destruct (Z.eqb_spec (i - j) 0) as [_|Hij]; [exact Hwalk|]. simpl.
  pose proof (doc_index D B HB x y i j Hx Hy Ei Ej) as H1. pose proof (doc_index D B HB y x j i Hy Hx Ej Ei) as H2.
  destruct (siblings_either p x y Hpx Hpy Hxy) as [H|H].
  - assert (precedes order x y) as Hp by (apply (Hside x y); try done; by left). apply H1 in Hp. left. split; [lia|]. by apply (Hside x y).
  - assert (precedes order y x) as Hp by (apply (Hside y x); try done; by left). apply H2 in Hp. right. split; [lia|]. by apply (Hside y x).
Qed.

(** *** Down the lists of ancestors *)
Lemma discrepancy_spec ap bp i k x y :
  discrepancy ap bp i = (k, x, y) →
  ∃ c ra rb, ap = c ++ ra ∧ bp = c ++ rb ∧ k = i + length c ∧ x = head ra ∧ y = head rb ∧
    ∀ u v, x = Some u → y = Some v → u ≠ v.
Proof.
  revert bp i. induction ap as [|u ap IH]; intros bp i.
  { intros [= <- <- <-]. exists [], [], bp. by rewrite Nat.add_0_r. }
  destruct bp as [|v bp]; [intros [= <- <- <-]; exists [], (u :: ap), []; by rewrite Nat.add_0_r|]. simpl.
  destruct (Nat.eqb_spec u v) as [<-|Hne].
  - intros (c & ra & rb & -> & -> & -> & H)%IH. exists (u :: c), ra, rb. simpl. by rewrite Nat.add_succ_r.
  - intros [= <- <- <-]. exists [], (u :: ap), (v :: bp). rewrite Nat.add_0_r. do 5 (split; [done|]). by intros ? ? [= <-] [= <-].
Qed.
(** In the ancestors of a node, what comes after a node is its child, and above the node. *)
Lemma lineage_split a c q r :
  lineage D a = c ++ [q] ++ r → match r with [] => a = q | x :: _ => parentNode (node x) = Some q ∧ a ∈ tree D x end ∧ a ∈ tree D q.
Proof.
  intros E. apply (f_equal (@rev nat)) in E. unfold lineage in E. rewrite rev_involutive, !rev_app_distr in E. simpl in E.
  split; [|by apply tree_path; [|rewrite E; set_solver]]. destruct r as [|x r]; [by injection E|]. simpl in E.
  rewrite <- !app_assoc in E. simpl in E. split.
  - apply (path_suffix D W) in E. rewrite path_step in E by done. simpl in E. destruct (parentNode (node x)); [|done]. congruence.
  - apply tree_path; [done|]. rewrite E. set_solver.
Qed.
Lemma lineage_head a : a ∈ order → ∃ l, lineage D a = document D :: l.
Proof.
  intros Ha%tree_path; [|done]. apply list_elem_of_split in Ha as (l & l' & E). exists (rev l). unfold lineage. rewrite E.
  apply (path_suffix D W) in E. rewrite path_step in E by done. simpl in E. rewrite Hroot in E. subst l'.
  by rewrite rev_app_distr.
Qed.
Lemma lineage_order a x : a ∈ order → x ∈ lineage D a → x ∈ order.
Proof.
  unfold lineage. intros Ha Hx. rewrite list_elem_of_In, <- in_rev, <- list_elem_of_In, <- tree_path in Hx by done.
  destruct (lineage_linear D W a (document D) x Ha Hx) as [H|H]; [|done].
  apply tree_elem in H as [<-|H]; [by left| |done]. exfalso. destruct H as [u v H|u v w H _]; congruence.
Qed.
Lemma fallback_orders a b s :
  a ∈ order → b ∈ order → a ≠ b → ∃ c, sortOrder_fallback D B a b s = (Ret c, s) ∧ orders c a b.
Proof.
  intros Ha Hb Hab. unfold sortOrder_fallback. destruct (Nat.eqb_spec a b) as [?|_]; [done|].
  assert (Hroot_first : ∀ x, x ∈ order → x ≠ document D → precedes order (document D) x).
  { intros x [->|H]%tree_elem ?; [done| |done]. apply precedes_below; [done|by left|done]. }
  destruct (parentNode (node a)) as [aup|] eqn:Ea.
  2: { apply order_orphan in Ea; [|done]. subst a. rewrite Nat.eqb_refl. eexists. split; [done|]. left. split; [done|]. by apply Hroot_first. }
  destruct (parentNode (node b)) as [bup|] eqn:Eb.
  2: { apply order_orphan in Eb; [|done]. subst b. rewrite Nat.eqb_refl. destruct (Nat.eqb_spec a (document D)); [done|].
       eexists. split; [done|]. right. split; [done|]. by apply Hroot_first. }
  destruct (Nat.eqb_spec aup bup) as [<-|Hup].
  { eexists. split; [done|]. apply (siblingCheck_orders aup); [done..|left|left]. }
  destruct (discrepancy (lineage D a) (lineage D b) 0) as [[k x] y] eqn:E.
  apply discrepancy_spec in E as (c & ra & rb & Ea' & Eb' & -> & -> & -> & Hne).
  destruct (lineage_head a Ha) as [la Hla]. destruct (lineage_head b Hb) as [lb Hlb].
  assert (Hc : c ≠ []).
  { intros ->. simpl in *. subst ra rb. rewrite Hla, Hlb in Hne. by apply (Hne _ _ eq_refl eq_refl). }
  destruct c as [|q c] using rev_ind; [done|]. clear IHc.
  assert (Hi : (0 + length (c ++ [q]) =? 0) = false) by (rewrite length_app; apply Nat.eqb_neq; simpl; lia).
  rewrite Hi. cbn [negb]. eexists. split; [done|]. rewrite <- app_assoc in Ea', Eb'.
  apply lineage_split in Ea' as Hra. apply lineage_split in Eb' as Hrb.
  assert (Hin : ∀ x r, lineage D a = c ++ [q] ++ x :: r → x ∈ order).
  { intros x r Ex. apply (lineage_order a); [done|]. rewrite Ex. set_solver. }
  assert (Hq : q ∈ order). { apply (lineage_order a); [done|]. rewrite Ea'. set_solver. }
  destruct Hra as [Hra Haq], Hrb as [Hrb Hbq]. destruct ra as [|x ra], rb as [|y rb]; simpl.
  - congruence.
  - subst q. left. split; [done|]. apply tree_elem in Hbq as [->|Hbq]; [done| |done]. by apply precedes_below.
  - subst q. right. split; [done|]. apply tree_elem in Haq as [->|Haq]; [done| |done]. by apply precedes_below.
  - destruct Hra as [Hx Hax], Hrb as [Hy Hby].
    apply (siblingCheck_orders q); try done; [by eapply Hin|by apply (Hne x y)].
Qed.
Lemma native_orders a b s :
  hasCompare B = true → a ∈ order → b ∈ order → a ≠ b → ∃ c, sortOrder_native D B a b s = (Ret c, s) ∧ orders c a b.
Proof.
  intros Hcmp Ha Hb Hab. unfold sortOrder_native. destruct (Nat.eqb_spec a b) as [?|_]; [done|].
  rewrite (doc_can D B HB a), (doc_can D B HB b), Z.sub_diag by done. cbn [Z.eqb negb].
  rewrite (doc_owner D B HB a b Ha Hb), Nat.eqb_refl, (doc_connected D B HB a b) by done. cbn [orb].
  destruct (Z.eqb_spec (compareDocumentPosition B b a) (compareDocumentPosition B a b)) as [E|_].
  { by apply (doc_differs D B HB a b) in E. }
  rewrite andb_false_r. eexists. split; [done|]. destruct (Z.testbit _ 2) eqn:E.
  - left. split; [done|]. by apply (doc_following D B HB).
  - right. split; [done|]. destruct (precedes_total order a b Ha Hb Hab) as [H|H]; [|done].
    apply (doc_following D B HB) in H; try done. congruence.
Qed.
Lemma sortOrder_orders a b s :
  a ∈ order → b ∈ order → a ≠ b → ∃ c, sortOrder D B a b s = (Ret c, s) ∧ orders c a b.
Proof. unfold sortOrder. destruct (hasCompare B) eqn:E; [by apply native_orders|apply fallback_orders]. Qed.
Lemma sortOrder_same a s : sortOrder D B a a s = (Ret 0%Z, mkSortSt true (sortInput s)).
Proof. unfold sortOrder, sortOrder_native, sortOrder_fallback. destruct (hasCompare B); rewrite Nat.eqb_refl; done. Qed.

(** *** Sorting *)
Definition at_or_after (x y : nat) : Prop := x = y ∨ precedes order y x.
Lemma insert_sorts x l s :
  x ∈ order → Forall (λ y, y ∈ order) l → StronglySorted at_or_after l →
  ∃ l' s', insert_back D B x l s = (Ret l', s') ∧ l' ≡ₚ x :: l ∧ StronglySorted at_or_after l' ∧
    sortInput s' = sortInput s ∧ hasDuplicate s' = hasDuplicate s || existsb (Nat.eqb x) l.
Proof.
  intros Hx Hl Hs. revert s. induction l as [|y l IH]; intros s; cbn [insert_back].
  { exists [x], s. rewrite orb_false_r. split; [done|]. split; [done|]. split; [repeat constructor|done]. }
  apply Forall_cons in Hl as [Hy Hl]. apply StronglySorted_inv in Hs as [Hs Hfirst]. mstep.
  assert (Htail : ∀ z, z ∈ y :: l → at_or_after y z).
  { intros z [->|Hz]%elem_of_cons; [by left|]. rewrite Forall_forall in Hfirst. by apply Hfirst. }
  destruct (decide (y = x)) as [->|Hne].
  { rewrite sortOrder_same. eexists _, _. split; [done|]. split; [done|]. simpl. rewrite Nat.eqb_refl, orb_true_r.
    split; [|done]. constructor; [by constructor|]. apply Forall_forall. exact Htail. }
  destruct (sortOrder_orders y x s Hy Hx Hne) as (c & -> & [[Hc Hp]|[Hc Hp]]).
  - destruct (Z.ltb_spec 0 c); [lia|]. eexists _, _. split; [done|]. split; [done|]. split.
    + constructor; [by constructor|]. apply Forall_forall. intros z Hz. right.
      destruct (Htail z Hz) as [<-|Hz']; [done|]. by eapply (precedes_trans order order_nodup).
    + split; [done|]. assert (existsb (Nat.eqb x) (y :: l) = false) as ->; [|by rewrite orb_false_r].
      apply not_true_iff_false. intros (z & Hz & ->%Nat.eqb_eq)%existsb_exists. apply list_elem_of_In in Hz.
      destruct (Htail z Hz) as [->|Hz']; [done|]. by apply (precedes_asym order order_nodup y z).
  - destruct (Z.ltb_spec 0 c); [|lia]. destruct (IH Hl Hs s) as (l' & s' & -> & Hperm & Hs' & Hin & Hd).
    eexists _, _. split; [done|]. split; [by rewrite Hperm; constructor|]. split; [|split; [done|]].
    + constructor; [done|]. apply Forall_forall. intros z Hz. rewrite Hperm in Hz. apply elem_of_cons in Hz as [->|Hz]; [by right|].
      apply Htail. by right.
    + rewrite Hd. simpl. destruct (Nat.eqb_spec x y); [congruence|done].
Qed.
Lemma sort_into_sorts rest : ∀ l s,
  Forall (λ y, y ∈ order) rest → Forall (λ y, y ∈ order) l → StronglySorted at_or_after l →
  (hasDuplicate s = false → NoDup l) →
  ∃ l' s', sort_into D B l rest s = (Ret (rev l'), s') ∧ l' ≡ₚ rest ++ l ∧ StronglySorted at_or_after l' ∧
    (hasDuplicate s' = false → NoDup l').
Proof.
  induction rest as [|x rest IH]; intros l s Hr Hl Hs Hd; cbn [sort_into]; [by exists l, s|].
  apply Forall_cons in Hr as [Hx Hr]. destruct (insert_sorts x l s Hx Hl Hs) as (l1 & s1 & E & Hp & Hs1 & _ & Hd1).
  mstep. rewrite E. destruct (IH l1 s1 Hr) as (l' & s' & E' & Hp' & Hs' & Hd').
  - rewrite Hp. by constructor.
  - done.
  - rewrite Hd1. intros [H1 H2]%orb_false_iff. rewrite Hp. constructor; [|by apply Hd].
    intros Hin. apply not_true_iff_false in H2. destruct H2. apply existsb_exists. exists x. by rewrite <- list_elem_of_In, Nat.eqb_refl.
  - exists l', s'. split; [done|]. split; [|done]. by rewrite Hp', Hp, <- Permutation_middle.
Qed.

(** *** Leaving out repetitions *)
Fixpoint without_repeats (l : list nat) : list nat :=
  match l with
  | x :: ((y :: _) as l') => if x =? y then without_repeats l' else x :: without_repeats l'
  | _ => l
  end.
Lemma without_repeats_next x y l :
  without_repeats (x :: y :: l) = if x =? y then without_repeats (y :: l) else x :: without_repeats (y :: l).
Proof. done. Qed.
Lemma without_repeats_head x l : ∃ l', without_repeats (x :: l) = x :: l'.
Proof.
  revert x. induction l as [|y l IH]; intros x; [by exists []|]. rewrite without_repeats_next.
  destruct (Nat.eqb_spec x y) as [->|_]; [apply IH|by eexists].
Qed.
Lemma splice_repeats p l : splice_all (duplicates (length p) l) (p ++ l) = p ++ without_repeats l.
Proof.
  revert p. induction l as [|x l IH]; intros p; [done|]. destruct l as [|y l]; [done|]. rewrite without_repeats_next. cbn [duplicates].
  specialize (IH (p ++ [x])). rewrite length_app, <- app_assoc, Nat.add_comm in IH. cbn [length Nat.add app] in IH.
  unfold splice_all in *. cbn [duplicates] in IH. destruct (Nat.eqb_spec x y) as [->|_].
  - cbn [foldr]. rewrite IH. destruct (without_repeats_head y l) as [l' ->]. rewrite <- app_assoc.
    rewrite take_app_ge, drop_app_ge by lia. replace (S (length p) - length p) with 1 by lia.
    replace (S (S (length p)) - length p) with 2 by lia. by rewrite <- app_assoc.
  - rewrite IH, <- app_assoc. done.
Qed.
Lemma without_repeats_elem l x : x ∈ without_repeats l ↔ x ∈ l.
Proof.
  induction l as [|y l IH]; [done|]. destruct l as [|z l]; [done|]. rewrite without_repeats_next.
  destruct (Nat.eqb_spec y z) as [->|_].
  - rewrite IH, !elem_of_cons. tauto.
  - rewrite elem_of_cons, IH, !elem_of_cons. tauto.
Qed.
Definition at_or_before (x y : nat) : Prop := at_or_after y x.
Lemma without_repeats_sorted l :
  StronglySorted at_or_before l → StronglySorted (precedes order) (without_repeats l) ∧ NoDup (without_repeats l).
Proof.
  induction 1 as [|x l Hs IH Hx]; [split; constructor|]. destruct l as [|y l].
  { split; [repeat constructor|apply NoDup_singleton]. }
  rewrite without_repeats_next. destruct (Nat.eqb_spec x y) as [->|Hne]; [done|]. destruct IH as [IH1 IH2].
  assert (Hlt : ∀ z, z ∈ y :: l → precedes order x z).
  { apply Forall_cons in Hx as [[->|Hxy] Hx]; [done|]. apply StronglySorted_inv in Hs as [_ Hy].
    intros z [->|Hz]%elem_of_cons; [done|]. rewrite Forall_forall in Hy. destruct (Hy z Hz) as [->|H]; [done|].
    by eapply (precedes_trans order order_nodup). }
  split; constructor; try done.
  - apply Forall_forall. intros z. rewrite without_repeats_elem. apply Hlt.
  - rewrite without_repeats_elem. intros H%Hlt. by apply (precedes_irrefl order order_nodup) in H.
Qed.
Lemma without_repeats_nodup l : NoDup l → without_repeats l = l.
Proof.
  induction 1 as [|x l Hx Hnd IH]; [done|]. destruct l as [|y l]; [done|]. rewrite without_repeats_next.
  destruct (Nat.eqb_spec x y) as [->|_]; [set_solver|by rewrite IH].
Qed.
Lemma sorted_rev l : StronglySorted at_or_after l → StronglySorted at_or_before (rev l).
Proof.
  induction 1 as [|x l Hs IH Hx]; [constructor|]. simpl. apply StronglySorted_app. split; [|split; [done|repeat constructor]].
  intros y z Hy ->%list_elem_of_singleton. rewrite list_elem_of_In, <- in_rev, <- list_elem_of_In in Hy.
  rewrite Forall_forall in Hx. by apply Hx.
Qed.
Lemma uniqueSort_sorts results s :
  Forall (λ y, y ∈ order) results →
  ∃ s', uniqueSort D B results s = (Ret (List.filter (λ x, existsb (Nat.eqb x) results) order), s').
Proof.
  intros Hr. set (s0 := mkSortSt (negb (detectDuplicates B)) (if sortStable B then None else Some results)).
  destruct (sort_into_sorts results [] s0) as (l & s1 & E & Hp & Hs & Hd); [done|constructor..|intros _; constructor|].
  assert (Hout : without_repeats (rev l) = List.filter (λ x, existsb (Nat.eqb x) results) order).
  { destruct (without_repeats_sorted (rev l) (sorted_rev l Hs)) as [H1 H2].
    apply sorted_is_filter; [apply order_nodup|done|done|]. intros x.
    rewrite without_repeats_elem, list_elem_of_In, <- in_rev, <- list_elem_of_In, Hp, app_nil_r, existsb_exists.
    rewrite Forall_forall in Hr. split.
    - intros Hx. split; [by apply Hr|]. exists x. by rewrite <- list_elem_of_In, Nat.eqb_refl.
    - intros [_ (y & Hy & ->%Nat.eqb_eq)]. by apply list_elem_of_In. }
  exists (mkSortSt (hasDuplicate s1) None). unfold uniqueSort, sort. mstep. fold s0. rewrite E. cbn beta iota.
  rewrite <- Hout. destruct (hasDuplicate s1).
  - pose proof (splice_repeats [] (rev l)) as Hsp. simpl in Hsp. by rewrite Hsp.
  - rewrite without_repeats_nodup; [done|]. rewrite <- Permutation_rev. by apply Hd.
Qed.
End Compare.
