(* ===== verification/JqTraverse.v ===== *)
(** * Moving through a document

    Model of the traversing methods of jquery-3.5.1.js: [dir], [siblings], [winnow] with
    [filter], [not] and [is], [find] and [has] for given nodes, [closest], [index], [add] and
    the twelve methods from [parent] to [contents]. Selectors are matched by JqMatcher, sets
    of nodes are sorted by JqOrder. *)
From Stdlib Require Import ZArith NArith Lia Ascii String.
From stdpp Require Import base strings list gmap.
From S2P Require Import Prelude.
From S2P Require Import JqDom.
From S2P Require Import JqRegex.
From S2P Require Import JqSelector.
From S2P Require Import JqMatcher.
From S2P Require Import JqOrder.
From S2P Require Import JqCore.

(** ** State *)
Record Engine := mkEngine { caches : Caches; matching : St; nonnativeSelectorCache : Cache bool; sorting : SortSt }.
(** [None] outside: a loop that does not end; [None] inside: the code needs a search that
    JqMatcher leaves out. *)
Definition Run (A : Type) : Type := Engine → option (outcome (option A) * Engine).
#[export] Instance Run_ret : MRet Run := λ A a s, Some (Ret (Some a), s).
#[export] Instance Run_bind : MBind Run := λ A B f m s,
  match m s with
  | Some (Ret (Some a), s') => f a s'
  | Some (Ret None, s') => Some (Ret None, s')
  | Some (Throw e, s') => Some (Throw e, s')
  | None => None
  end.
#[export] Instance Run_fmap : FMap Run := λ A B f m, x ← m; mret (f x).
Definition left_out {A} : Run A := λ s, Some (Ret None, s).
Definition run_get {A} (f : Engine → A) : Run A := λ s, Some (Ret (Some (f s)), s).
Definition run_throw {A} (e : exn) : Run A := λ s, Some (Throw e, s).
Definition run_sorting {A} (m : MS A) : Run A := λ s,
  let '(o, x) := m (sorting s) in
  Some (match o with Ret a => Ret (Some a) | Throw e => Throw e end, mkEngine (caches s) (matching s) (nonnativeSelectorCache s) x).
Definition run_matching {A} (f : Caches → St → option (outcome (option A) * (Caches * St))) : Run A := λ s,
  match f (caches s) (matching s) with
  | Some (o, (c, m)) => Some (o, mkEngine c m (nonnativeSelectorCache s) (sorting s))
  | None => None
  end.
Definition remember_nonnative (expr : text) : Run unit := λ s,
  Some (Ret (Some tt), mkEngine (caches s) (matching s) (cache_put expr true (nonnativeSelectorCache s)) (sorting s)).

(** ** What the browser answers *)
Record Native := mkNative {
  supports_matches : bool; buggy : text → bool;      (* rbuggyMatches, rbuggyQSA *)
  native_matches : nat → text → option bool;         (* None: it throws *)
  disconnectedMatch : bool; in_ie_document : nat → bool;
  contentDocument : nat → option nat; template_content : nat → option nat;
  as_string : nat → text                              (* a node as a string: the address of a link *)
}.
(** What a set is filtered with: a function, a node, a jQuery object or an array of nodes, or a
    selector. *)
Inductive Qualifier :=
  | QFunction (f : nat → nat → bool)
  | QNode (n : nat)
  | QList (jquery : bool) (l : list nat)
  | QSelector (selector : text).

Section Traverse.
Context (D : Dom) (B : Browser) (N : Native).
Notation node := (node D).
Notation is_element := (is_element D).
Notation Set_ := (@JQ nat).

(** ** [Sizzle.matchesSelector] *)
Definition matchesSelector_fallback (elem : nat) (expr : text) : Run bool :=
  found ← run_matching (Sizzle_seed D (Some (document D)) expr [elem]);
  mret (0 <? length found).
Definition matchesSelector (elem : nat) (expr : text) : Run bool :=
  cached ← run_get (λ s, cache_get expr (nonnativeSelectorCache s));
  if supports_matches N && documentIsHTML D && negb (bool_decide (is_Some cached)) && negb (buggy N expr) then
    match native_matches N elem expr with
    | Some ret =>
        if ret || disconnectedMatch N || in_ie_document N elem then mret ret
        else matchesSelector_fallback elem expr
    | None => remember_nonnative expr;; matchesSelector_fallback elem expr
    end
  else matchesSelector_fallback elem expr.

(** ** [jQuery.filter] and [winnow] *)
Definition filter_expr (expr : text) (elems : list nat) (not : bool) : Run (list nat) :=
  let expr := if not then txt ":not(" ++ expr ++ txt ")" else expr in
  let all := run_matching (matches D expr (grep elems (λ e _, is_element e) false)) in
  match elems with
  | [elem] => if is_element elem then b ← matchesSelector elem expr; mret (if b : bool then [elem] else []) else all
  | _ => all
  end.
Definition winnow (elements : list nat) (qualifier : Qualifier) (not : bool) : Run (list nat) :=
  match qualifier with
  | QFunction f => mret (grep elements (λ e i, negb (Bool.eqb (f e i) not)) false)
  | QNode q => mret (grep elements (λ e _, negb (Bool.eqb (e =? q) not)) false)
  | QList _ l => mret (grep elements (λ e _, negb (Bool.eqb (0 <=? inArray e (Some l) 0)%Z not)) false)
  | QSelector selector => filter_expr selector elements not
  end.
(** [selector || []] *)
Definition or_nothing (selector : option Qualifier) : Qualifier :=
  match selector with Some (QSelector s) => if truthy s then QSelector s else QList false [] | Some q => q | None => QList false [] end.
Definition rneedsContext (selector : text) : bool := test needsContext selector.
Definition fn_filter (q : Set_) (selector : option Qualifier) : Run Set_ :=
  l ← winnow (elems q) (or_nothing selector) false; mret (pushStack q l).
Definition fn_not (q : Set_) (selector : option Qualifier) : Run Set_ :=
  l ← winnow (elems q) (or_nothing selector) true; mret (pushStack q l).
Definition is_ (elements : list nat) (selector : option Qualifier) : Run bool :=
  match selector with
  | Some (QSelector s) =>
      if rneedsContext s then left_out
      else l ← winnow elements (or_nothing selector) false; mret (0 <? length l)
  | _ => l ← winnow elements (or_nothing selector) false; mret (0 <? length l)
  end.

(** ** Nodes that contain others *)
Fixpoint contains_any (outer : list nat) (e : nat) : bool :=
  match outer with [] => false | o :: outer' => if contains D B o e then true else contains_any outer' e end.
Fixpoint any_contained (e : nat) (inner : list nat) : bool :=
  match inner with [] => false | i :: inner' => if contains D B e i then true else any_contained e inner' end.
(** [jQuery( selector )] for what is not a selector. *)
Definition jQuery_nodes (selector : option Qualifier) : Run (list nat) :=
  match selector with
  | Some (QNode n) => mret [n]
  | Some (QList _ l) => mret l
  | None => mret []
  | Some (QSelector s) => if truthy s then left_out else mret []
  | Some (QFunction _) => left_out
  end.
Definition fn_find (q : Set_) (selector : Qualifier) : Run Set_ :=
  match selector with
  | QSelector _ => left_out
  | _ => l ← jQuery_nodes (Some selector);
         mret (pushStack q (grep l (λ e _, contains_any (elems q) e) false))
  end.
Definition has (q : Set_) (target : Qualifier) : Run Set_ :=
  targets ← jQuery_nodes (Some target);
  fn_filter q (Some (QFunction (λ e _, any_contained e targets))).

(** ** [closest] *)
Fixpoint join_commas (l : list text) : text :=
  match l with [] => [] | [x] => x | x :: l' => x ++ txt "," ++ join_commas l' end.
Definition coerced (selectors : Qualifier) : text :=
  match selectors with
  | QSelector s => s
  | QNode n => as_string N n
  | QList true _ => txt "[object Object]"
  | QList false l => join_commas (List.map (as_string N) l)
  | QFunction _ => []
  end.
Fixpoint closest_from (cur : list nat) (context : option nat) (hit : nat → Run bool) : Run (option nat) :=
  match cur with
  | [] => mret None
  | e :: cur' =>
      if bool_decide (Some e = context) then mret None
      else
        b ← (if nodeType (node e) <? 11 then hit e else mret false);
        if b : bool then mret (Some e) else closest_from cur' context hit
  end.
Fixpoint closest_each (l : list nat) (context : option nat) (hit : nat → Run bool) : Run (list nat) :=
  match l with
  | [] => mret []
  | e :: l' =>
      o ← closest_from (e :: path D ParentNode e) context hit;
      rest ← closest_each l' context hit;
      mret (match o with Some x => x :: rest | None => rest end)
  end.
Definition sort_unless_one (l : list nat) : Run (list nat) :=
  if 1 <? length l then run_sorting (uniqueSort D B l) else mret l.
Definition closest (q : Set_) (selectors : Qualifier) (context : option nat) : Run Set_ :=
  match selectors with
  | QFunction _ => left_out
  | _ =>
  if rneedsContext (coerced selectors) then mret (pushStack q [])
  else
    targets ← (match selectors with QSelector _ => mret None | _ => l ← jQuery_nodes (Some selectors); mret (Some l) end);
    matched ← closest_each (elems q) context
      (λ e, match targets, selectors with
            | Some l, _ => mret (0 <=? inArray e (Some l) 0)%Z
            | None, QSelector s => if is_element e then matchesSelector e s else mret false
            | None, _ => mret false
            end);
    l ← sort_unless_one matched;
    mret (pushStack q l)
  end.

(** ** [add] and [addBack] *)
Definition add (q : Set_) (selector : option Qualifier) : Run Set_ :=
  given ← jQuery_nodes selector;
  l ← run_sorting (uniqueSort D B (merge (JqCore.elems q) given));
  mret (pushStack q l).
Definition addBack (q : Set_) (selector : option Qualifier) : Run Set_ :=
  match selector, prevObject q with
  | None, prev => add q ((λ p, QList true (elems p)) <$> prev)
  | Some _, Some prev => p ← fn_filter prev selector; add q (Some (QList true (elems p)))
  | Some _, None => run_throw (JsError "TypeError")
  end.

(** ** [dir], [siblings] and [sibling] *)
Fixpoint dir_from (l : list nat) (until : option Qualifier) : Run (list nat) :=
  match l with
  | [] => mret []
  | e :: l' =>
      if nodeType (node e) =? 9 then mret []
      else if is_element e then
        stop ← (match until with Some q => is_ [e] (Some q) | None => mret false end);
        if stop : bool then mret [] else matched ← dir_from l' until; mret (e :: matched)
      else dir_from l' until
  end.
Definition dir_nodes (elem : nat) (d : dir) (until : option Qualifier) : Run (list nat) := dir_from (path D d elem) until.
Definition siblings (n : option nat) (elem : option nat) : list nat :=
  List.filter (λ n, is_element n && negb (bool_decide (Some n = elem))) (from D NextSibling n).
Definition sibling (cur : nat) (d : dir) : option nat := List.find is_element (path D d cur).
Definition nodeName_is (elem : nat) (name : text) : bool := same (lower_name D elem) (lower name).

(** ** The methods *)
Inductive method :=
  | parent | parents | parentsUntil | next | prev | nextAll | prevAll | nextUntil | prevUntil
  | siblings_ | children | contents.
Definition method_name (m : method) : string :=
  match m with
  | parent => "parent" | parents => "parents" | parentsUntil => "parentsUntil" | next => "next" | prev => "prev"
  | nextAll => "nextAll" | prevAll => "prevAll" | nextUntil => "nextUntil" | prevUntil => "prevUntil"
  | siblings_ => "siblings" | children => "children" | contents => "contents"
  end.
Definition one_or_nothing (o : option nat) : mapped nat := match o with Some x => MOne x | None => MNothing end.
Definition contents_of (elem : nat) : mapped nat :=
  match contentDocument N elem with
  | Some d => MOne d
  | None =>
      let elem := if nodeName_is elem (txt "template") then default elem (template_content N elem) else elem in
      MMany (merge [] (childNodes (node elem)))
  end.
Definition method_of (m : method) (elem : nat) (until : option Qualifier) : Run (mapped nat) :=
  match m with
  | parent => mret (one_or_nothing (p ← parentNode (node elem); if nodeType (node p) =? 11 then None else Some p))
  | parents => MMany <$> dir_nodes elem ParentNode None
  | parentsUntil => MMany <$> dir_nodes elem ParentNode until
  | next => mret (one_or_nothing (sibling elem NextSibling))
  | prev => mret (one_or_nothing (sibling elem PreviousSibling))
  | nextAll => MMany <$> dir_nodes elem NextSibling None
  | prevAll => MMany <$> dir_nodes elem PreviousSibling None
  | nextUntil => MMany <$> dir_nodes elem NextSibling until
  | prevUntil => MMany <$> dir_nodes elem PreviousSibling until
  | siblings_ => mret (MMany (siblings (p ← parentNode (node elem); firstChild D p) (Some elem)))
  | children => mret (MMany (siblings (firstChild D elem) None))
  | contents => mret (contents_of elem)
  end.
(** [jQuery.map( this, fn, until )] *)
Fixpoint map_each (m : method) (l : list nat) (until : option Qualifier) : Run (list (mapped nat)) :=
  match l with
  | [] => mret []
  | e :: l' =>
      v ← method_of m e until;
      rest ← map_each m l' until;
      mret (match v with MNothing => rest | _ => v :: rest end)
  end.
Definition is_until (m : method) : bool :=
  let name := method_name m in String.eqb (String.substring (String.length name - 5) 5 name) "Until".
Definition rparentsprev (name : string) : bool :=
  String.prefix "parents" name || String.prefix "prevUntil" name || String.prefix "prevAll" name.
Definition guaranteedUnique (m : method) : bool :=
  existsb (String.eqb (method_name m)) ["children"; "contents"; "next"; "prev"]%string.
Definition traverse (m : method) (q : Set_) (until selector : option Qualifier) : Run Set_ :=
  matched ← flat <$> map_each m (elems q) until;
  let selector := if is_until m then selector else until in
  matched ← (match selector with
             | Some (QSelector s) => if truthy s then filter_expr s matched false else mret matched
             | _ => mret matched
             end);
  matched ← (if 1 <? length (elems q) then
               l ← (if guaranteedUnique m then mret matched else run_sorting (uniqueSort D B matched));
               mret (if rparentsprev (method_name m) then rev l else l)
             else mret matched);
  mret (pushStack q matched).
(** [index] *)
Definition index (q : Set_) (elem : option Qualifier) : Run Z :=
  match elem with
  | None | Some (QSelector []) =>
      match head (elems q) with
      | Some e =>
          if bool_decide (is_Some (parentNode (node e))) then
            before ← traverse prevAll (first q) None None; mret (Z.of_nat (length (elems before)))
          else mret (-1)%Z
      | None => mret (-1)%Z
      end
  | Some (QSelector _) | Some (QFunction _) => left_out
  | Some (QNode n) => mret (inArray n (Some (elems q)) 0)
  | Some (QList jquery l) =>
      mret (match (if jquery then head l else None) with Some n => inArray n (Some (elems q)) 0 | None => -1 end)%Z
  end.
End Traverse.
