(* ===== verification/JqTraverseProps.v ===== *)
(** * Traversing reaches the nodes it says, in the order of the document

    What a selector picks and what each traversing method leads to, and the proof that the
    methods of JqTraverse answer exactly those nodes, each once, in document order or, for the
    methods that go up or back, in its reverse. *)
From Stdlib Require Import ZArith NArith Lia Ascii String Sorted Permutation.
From stdpp Require Import base strings list gmap relations sorting.
From S2P Require Import Prelude.
From S2P Require Import JqDom.
From S2P Require Import JqRegex.
From S2P Require Import JqSelector.
From S2P Require Import JqMatcher.
From S2P Require Import JqMatcherFacts.
From S2P Require Import JqMatcherProps.
From S2P Require Import JqOrder.
From S2P Require Import JqCore.
From S2P Require Import JqTraverse.

(** ** What is answered *)
Section Answers.
Context (D : Dom).
Record engine_ok (en : Engine) : Prop := {
  ok_caches : caches_ok (caches en);
  ok_matching : run_ok (matching en)
}.
(** The code ends, and what it returns, if it returns, is as told. *)
Definition answers {A} (m : Run A) (Q : A → Prop) : Prop :=
  ∀ en, engine_ok en → ∃ o en', m en = Some (o, en') ∧ engine_ok en' ∧ ∀ a, o = Ret (Some a) → Q a.
Lemma run_ret_answers {A} (a : A) (Q : A → Prop) : Q a → answers (mret a) Q.
Proof. intros HQ en Hen. eexists _, en. split; [done|]. split; [done|]. by intros ? [= <-]. Qed.
Lemma run_get_answers {A} (f : Engine → A) : answers (run_get f) (λ _, True).
Proof. intros en Hen. eexists _, en. done. Qed.
Lemma run_remember_answers expr : answers (remember_nonnative expr) (λ _, True).
Proof. intros en [Hc Hm]. eexists _, _. split; [done|]. split; [by split|done]. Qed.
Lemma run_sorting_answers {A} (m : MS A) (a : A) (Q : A → Prop) :
  (∀ s, ∃ s', m s = (Ret a, s')) → Q a → answers (run_sorting m) Q.
Proof.
  intros Hm HQ en [Hc Hs]. unfold run_sorting. destruct (Hm (sorting en)) as [s' ->].
  eexists _, _. split; [done|]. split; [by split|]. by intros ? [= <-].
Qed.
Lemma run_left_out_answers {A} (Q : A → Prop) : answers left_out Q.
Proof. intros en Hen. eexists _, en. split; [done|]. by split. Qed.
Lemma run_bind_answers {A C} (m : Run A) (f : A → Run C) (P : A → Prop) (Q : C → Prop) :
  answers m P → (∀ a, P a → answers (f a) Q) → answers (m ≫= f) Q.
Proof.
  intros Hm Hf en Hen. destruct (Hm en Hen) as (o & en1 & E & H1 & HP). unfold mbind, Run_bind. rewrite E.
  destruct o as [[a|]|ex].
  - exact (Hf a (HP a eq_refl) en1 H1).
  - eexists _, en1. split; [done|]. by split.
  - eexists _, en1. split; [done|]. by split.
Qed.
Lemma run_fmap_answers {A C} (m : Run A) (f : A → C) (Q : C → Prop) : answers m (λ a, Q (f a)) → answers (f <$> m) Q.
Proof. intros Hm. eapply run_bind_answers; [exact Hm|]. intros a Ha. by apply run_ret_answers. Qed.
Lemma run_both_answers {A} (m : Run A) (P Q : A → Prop) : answers m P → answers m Q → answers m (λ a, P a ∧ Q a).
Proof.
  intros HP HQ en Hen. destruct (HP en Hen) as (o & en' & E & H & HPo). destruct (HQ en Hen) as (o' & en'' & E' & _ & HQo).
  exists o, en'. split; [done|]. split; [done|]. intros a Ha. split; [by apply HPo|]. apply HQo. congruence.
Qed.
Lemma run_mono_answers {A} (m : Run A) (P Q : A → Prop) : (∀ a, P a → Q a) → answers m P → answers m Q.
Proof. intros HPQ Hm en Hen. destruct (Hm en Hen) as (o & en' & E & H & HP). exists o, en'. eauto. Qed.
End Answers.

(** ** What a selector picks *)
Section Picks.
Context (D : Dom) (B : Browser) (N : Native) (W : wf_dom D).
Notation node := (node D).
Notation is_element := (is_element D).
(** An element that one of the groups of a selector selects. *)
Definition picks (expr : text) (e : nat) : Prop :=
  expr ≠ [] ∧ ∃ groups g, reading_of (trim_selector expr) = Ret groups ∧ g ∈ groups ∧ group_selects D (CNode (document D)) true g e.
(** A selector without [:nth-last-child], on which the browser agrees where it answers. *)
Definition usable_selector (expr : text) : Prop :=
  (∀ groups, reading_of (trim_selector expr) = Ret groups → Forall (safe_tokens (negb (documentIsHTML D))) groups) ∧
  ∀ e b, is_element e = true → native_matches N e expr = Some b → b = true ↔ picks expr e.
Definition usable (q : Qualifier) : Prop := match q with QSelector s => usable_selector s | _ => True end.
Definition qualifies (q : Qualifier) (e : nat) : Prop :=
  match q with
  | QFunction f => f e 0 = true
  | QNode n => e = n
  | QList _ l => e ∈ l
  | QSelector s => picks s e
  end.
Context (Hroot : parentNode (node (document D)) = None) (Hdoc : nodeType (node (document D)) = 9).

(** A search over given elements keeps those that the selector picks. *)
Lemma seed_answers context expr elements :
  context_ok D context → usable_selector expr → Forall (λ e, is_element e = true) elements →
  answers (run_matching (Sizzle_seed D context expr elements))
    (λ out, ∃ p, out = List.filter p elements ∧ ∀ e, is_element e = true → p e = true ↔ picks expr e).
Proof.
  intros Hctx [Hsafe _] He en [Hc Hm]. unfold run_matching, Sizzle_seed.
  assert (negb (existsb (Nat.eqb match context with Some c => nodeType (node c) | None => 9 end) [1; 9; 11]) = false) as ->.
  { destruct context as [c|]; [|done]. by destruct Hctx as (_ & _ & ->). }
  rewrite orb_false_r. unfold same. case_bool_decide as Hexpr.
  { eexists _, _. split; [done|]. split; [by split|]. intros out [= <-]. exists (λ _, false).
    split; [by clear; induction elements|]. intros e _. split; [done|]. by intros [? _]. }
  destruct (select_seed_runs D W context _ elements _ _ Hctx Hc Hm He Hsafe) as (o & c' & s' & E & Hc' & Hs' & _ & Ho).
  rewrite E. eexists _, _. split; [done|]. split; [by split|]. intros out ->.
  destruct (Ho out eq_refl) as (groups & Ht & p & -> & HP). exists p. split; [done|]. intros e Hel. rewrite (HP e Hel).
  unfold picks. split; [intros (g & Hg & Hsel); split; [done|]; by exists groups, g|].
  intros (_ & groups' & g & Ht' & Hg & Hsel). exists g. assert (groups' = groups) as -> by congruence. done.
Qed.
Lemma context_document : context_ok D (Some (document D)).
Proof. done. Qed.
Lemma matchesSelector_answers e expr :
  is_element e = true → usable_selector expr → answers (matchesSelector D N e expr) (λ b, b = true ↔ picks expr e).
Proof.
  intros He Hu.
  assert (Hf : answers (matchesSelector_fallback D e expr) (λ b, b = true ↔ picks expr e)).
  { eapply run_bind_answers; [apply (seed_answers _ expr [e] context_document Hu); by constructor|].
    intros out (p & -> & Hp). apply run_ret_answers. rewrite <- (Hp e He). simpl. by destruct (p e). }
  unfold matchesSelector. eapply run_bind_answers; [apply run_get_answers|]. intros cached _. cbn beta.
  destruct (_ && negb (buggy N expr)); [|exact Hf].
  destruct (native_matches N e expr) as [b|] eqn:En.
  - destruct (b || disconnectedMatch N || in_ie_document N e); [|exact Hf].
    apply run_ret_answers. by apply (proj2 Hu).
  - eapply run_bind_answers; [apply run_remember_answers|]. intros _ _. exact Hf.
Qed.
Lemma grep_filter {A} (l : list A) (f : A → bool) : grep l (λ e _, f e) false = List.filter f l.
Proof.
  unfold grep. generalize 0. induction l as [|x l IH]; intros i; [done|]. simpl. rewrite IH. by destruct (f x).
Qed.
Lemma filter_expr_answers expr elems :
  usable_selector expr →
  answers (filter_expr D N expr elems false)
    (λ out, ∃ p, out = List.filter p elems ∧ ∀ e, e ∈ elems → p e = true ↔ is_element e = true ∧ picks expr e).
Proof.
  intros Hu.
  assert (Hall : answers (run_matching (matches D expr (grep elems (λ e _, is_element e) false)))
    (λ out, ∃ p, out = List.filter p elems ∧ ∀ e, e ∈ elems → p e = true ↔ is_element e = true ∧ picks expr e)).
  { rewrite grep_filter. eapply run_mono_answers; [|apply (seed_answers None expr); [done|done|]].
    - intros out (p & -> & Hp). exists (λ e, is_element e && p e). rewrite filter_filter. split; [done|].
      intros e _. rewrite andb_true_iff. split; intros [H1 H2]; (split; [done|]); by apply (Hp e H1).
    - apply Forall_forall. intros e He. by apply list_elem_of_In, filter_In in He as [_ He]. }
  unfold filter_expr. destruct elems as [|e [|e' l]]; try exact Hall. destruct (is_element e) eqn:He; [|exact Hall].
  eapply run_bind_answers; [by apply matchesSelector_answers|]. intros b Hb. apply run_ret_answers.
  exists (λ _, b). split; [by destruct b|]. intros x ->%list_elem_of_singleton. by rewrite Hb, He; split; [|intros [_ ?]].
Qed.
Lemma inArray_elem (e : nat) l : (0 <=? inArray e (Some l) 0)%Z = true ↔ e ∈ l.
Proof.
  assert (H : ∀ i, (0 <=? index_of_from e i l)%Z = true ↔ e ∈ l); [|apply (H 0)].
  induction l as [|x l IH]; intros i; simpl.
  - split; [done|]. by intros ?%elem_of_nil.
  - destruct (decide (x = e)) as [->|Hne]; [|rewrite IH, elem_of_cons; naive_solver].
    split; [left|]. intros _. apply Z.leb_le. lia.
Qed.
(** [jQuery( elem ).is( q )] *)
Lemma is_answers e q :
  is_element e = true → usable q → answers (is_ D N [e] (Some q)) (λ b, b = true ↔ qualifies q e).
Proof.
  intros He Hu. destruct q as [f|n|j l|s]; cbn [is_ or_nothing winnow qualifies usable] in *.
  - apply run_ret_answers. unfold grep. simpl. by destruct (f e 0).
  - apply run_ret_answers. unfold grep. simpl. destruct (Nat.eqb_spec e n) as [->|]; simpl; [done|]. by split.
  - apply run_ret_answers. unfold grep. cbn [grep_from]. pose proof (inArray_elem e l) as H.
    destruct (0 <=? inArray e (Some l) 0)%Z; simpl; by rewrite <- H.
  - destruct (rneedsContext s); [apply run_left_out_answers|]. destruct s as [|c s]; simpl.
    + apply run_ret_answers. split; [done|]. by intros [? _].
    + eapply run_bind_answers; [by apply (filter_expr_answers (c :: s) [e])|].
      intros out (p & -> & Hp). apply run_ret_answers. specialize (Hp e (list_elem_of_here _ _)). simpl.
      destruct (p e); simpl; [by split; [intros _; apply Hp|]|]. split; [done|]. intros H. by apply Hp.
Qed.
End Picks.

(** ** Where the methods lead *)
Section Leads.
Context (D : Dom) (N : Native) (W : wf_dom D).
Notation node := (node D).
Notation is_element := (is_element D).
(** An element on a path from [e], with no element to stop at up to it. *)
Definition reached (d : dir) (stop : nat → Prop) (e x : nat) : Prop :=
  is_element x = true ∧
  ∃ l1 l2, path D d e = l1 ++ x :: l2 ∧ Forall (λ y, is_element y = true → ¬ stop y) (l1 ++ [x]).
Definition leads (m : method) (stop : nat → Prop) (e x : nat) : Prop :=
  match m with
  | parent => parentNode (node e) = Some x ∧ nodeType (node x) ≠ 11
  | parents => ancestor D e x ∧ is_element x = true
  | parentsUntil => reached ParentNode stop e x
  | next => related D Adjacent x e ∧ is_element x = true
  | prev => related D Adjacent e x ∧ is_element x = true
  | nextAll => related D Sibling x e ∧ is_element x = true
  | prevAll => related D Sibling e x ∧ is_element x = true
  | nextUntil => reached NextSibling stop e x
  | prevUntil => reached PreviousSibling stop e x
  | siblings_ => (∃ p, parentNode (node e) = Some p ∧ parentNode (node x) = Some p) ∧ x ≠ e ∧ is_element x = true
  | children => parentNode (node x) = Some e ∧ is_element x = true
  | contents => parentNode (node x) = Some e
  end.

Lemma no_document_inside d e x l1 l2 : path D d e = l1 ++ x :: l2 → nodeType (node x) = 9 → l2 = [].
Proof.
  intros E Hx. assert (Hnp : ∀ p, parentNode (node x) ≠ Some p).
  { intros p Hp. destruct (wf_kinds D W p x Hp) as [_ H]. by rewrite Hx in H. }
  destruct d.
  - pose proof (path_suffix D W e (e :: l1) x l2) as H. simpl in H. rewrite E in H. specialize (H eq_refl).
    rewrite path_step in H by done. simpl in H. destruct (parentNode (node x)) as [p|] eqn:Ep; [by destruct (Hnp p)|done].
  - exfalso. assert (Hin : x ∈ path D PreviousSibling e) by (rewrite E; set_solver).
    rewrite path_sideways in Hin by done. apply after_in, line_elem in Hin. unfold siblings_of in Hin.
    destruct (parentNode (node e)) as [p|]; [|by apply elem_of_nil in Hin]. by apply (wf_child D W), Hnp in Hin.
  - exfalso. assert (Hin : x ∈ path D NextSibling e) by (rewrite E; set_solver).
    rewrite path_sideways in Hin by done. apply after_in, line_elem in Hin. unfold siblings_of in Hin.
    destruct (parentNode (node e)) as [p|]; [|by apply elem_of_nil in Hin]. by apply (wf_child D W), Hnp in Hin.
Qed.
Definition stops (until : option Qualifier) (y : nat) : Prop := match until with Some q => qualifies D q y | None => False end.
(** What [dir] collects: the elements of a first part of the path, up to where it stops. *)
Definition collected (stop : nat → Prop) (l out : list nat) : Prop :=
  ∃ l1 l2, l = l1 ++ l2 ∧ out = List.filter is_element l1 ∧ Forall (λ y, is_element y = true → ¬ stop y) l1 ∧
    match l2 with [] => True | y :: _ => nodeType (node y) = 9 ∨ is_element y = true ∧ stop y end.
(** With nothing to stop at, the elements of the path are reached. *)
Lemma reached_all d e x : reached d (λ _, False) e x ↔ x ∈ path D d e ∧ is_element x = true.
Proof.
  split; [intros (Hx & l1 & l2 & E & _); rewrite E; set_solver|]. intros [(l1 & l2 & E)%list_elem_of_split Hx].
  split; [done|]. exists l1, l2. split; [done|]. apply Forall_forall. auto.
Qed.
Lemma siblings_both x y : y ∈ path D PreviousSibling x ↔ x ∈ path D NextSibling y.
Proof.
  rewrite path_sibling by done. simpl. split.
  - intros (between & l1 & l2 & E). assert (Hs : siblings_of D y = l1 ++ y :: between ++ x :: l2).
    { rewrite <- E. apply siblings_in; [done|]. rewrite E. set_solver. }
    destruct (path_siblings D W y _ _ Hs) as [_ ->]. set_solver.
  - intros H. destruct (siblings_split D W y) as [Hs|(l1 & l2 & Hs & _)].
    { rewrite path_no_siblings in H by done. by apply elem_of_nil in H. }
    destruct (path_siblings D W y _ _ Hs) as [_ E]. rewrite E in H. apply list_elem_of_split in H as (a & b & ->).
    exists a, l1, b. rewrite <- Hs. apply siblings_in; [done|]. rewrite Hs. set_solver.
Qed.
Lemma adjacent_next e x :
  List.find is_element (path D NextSibling e) = Some x ↔ related D Adjacent x e ∧ is_element x = true.
Proof.
  rewrite find_split. simpl. split.
  - intros (Hx & a & b & E & Ha). split; [|done]. exists a. split; [|done].
    destruct (siblings_split D W e) as [Hs|(l1 & l2 & Hs & _)]; [rewrite path_no_siblings in E by done; by destruct a|].
    destruct (path_siblings D W e _ _ Hs) as [_ E']. rewrite E' in E. subst l2. exists l1, b. rewrite <- Hs.
    apply siblings_in; [done|]. rewrite Hs. set_solver.
  - intros [(a & (l1 & l2 & E) & Ha) Hx]. split; [done|]. exists a, l2. split; [|done].
    assert (Hs : siblings_of D e = l1 ++ e :: a ++ x :: l2).
    { rewrite <- E. apply siblings_in; [done|]. rewrite E. set_solver. }
    by destruct (path_siblings D W e _ _ Hs) as [_ ->].
Qed.
Context (Hroot : parentNode (node (document D)) = None) (Hdoc : nodeType (node (document D)) = 9).
Definition usable_until (until : option Qualifier) : Prop := match until with Some q => usable D N q | None => True end.
Lemma dir_answers l until :
  usable_until until → answers (dir_from D N l until) (collected (stops until) l).
Proof.
  intros Hu. induction l as [|e l IH]; cbn [dir_from].
  { apply run_ret_answers. exists [], []. done. }
  destruct (nodeType (node e) =? 9) eqn:H9.
  { apply run_ret_answers. exists [], (e :: l). do 3 (split; [done|]). left. by apply Nat.eqb_eq. }
  destruct (is_element e) eqn:He.
  - assert (Hstop : answers (match until with Some q => is_ D N [e] (Some q) | None => mret false end) (λ b, b = true ↔ stops until e)).
    { destruct until as [q|]; [by apply is_answers|by apply run_ret_answers]. }
    eapply run_bind_answers; [exact Hstop|]. intros [|] Hb.
    + apply run_ret_answers. exists [], (e :: l). do 3 (split; [done|]). right. split; [done|]. by apply Hb.
    + eapply run_bind_answers; [exact IH|]. intros out (l1 & l2 & -> & -> & Hl1 & Hl2). apply run_ret_answers.
      exists (e :: l1), l2. split; [done|]. simpl. rewrite He. split; [done|]. split; [|done]. constructor; [|done].
      intros _ Hs. by apply Hb in Hs.
  - eapply run_mono_answers; [|exact IH]. intros out (l1 & l2 & -> & -> & Hl1 & Hl2).
    exists (e :: l1), l2. split; [done|]. simpl. rewrite He. split; [done|]. split; [|done]. constructor; [|done]. congruence.
Qed.
Lemma collected_reached d stop e out x : collected stop (path D d e) out → x ∈ out ↔ reached d stop e x.
Proof.
  intros (l1 & l2 & E & -> & Hl1 & Hl2). rewrite list_elem_of_In, filter_In, <- list_elem_of_In. split.
  - intros [(a & b & ->)%list_elem_of_split Hx]. split; [done|]. exists a, (b ++ l2). rewrite E, <- app_assoc. split; [done|].
    apply Forall_app in Hl1 as [Ha Hb]. apply Forall_app. split; [done|]. apply Forall_cons in Hb as [? _]. by constructor.
  - intros (Hx & a & b & E' & Hs). split; [|done]. rewrite E in E'. destruct l2 as [|y l2]; [rewrite app_nil_r in E'; subst l1; set_solver|].
    assert (Hin : x ∈ l1 ++ y :: l2) by (rewrite E'; set_solver).
    apply elem_of_app in Hin as [Hin|Hin]; [done|]. exfalso.
    assert (Hy : y ∈ a ++ [x]).
    { pose proof (path_nodup D W d e) as Hnd. rewrite E in Hnd.
      apply NoDup_app in Hnd as (_ & Hnd & _).
      apply app_eq_inv in E' as [(k & -> & E')|(k & -> & E')].
      - destruct k as [|z k]; [simpl in E'; injection E' as -> ->; set_solver|]. injection E' as <- _.
        exfalso. apply (Hnd x); [set_solver|done].
      - destruct k as [|z k]; [simpl in E'; injection E' as -> ->; set_solver|]. injection E' as <- _. set_solver. }
    rewrite Forall_forall in Hs. destruct Hl2 as [H9|[Hy1 Hy2]]; [|by apply (Hs y Hy)].
    pose proof (no_document_inside d e y l1 l2 E H9) as ->. apply list_elem_of_singleton in Hin as ->.
    pose proof Hx as Hx'. unfold JqDom.is_element in Hx'. apply Nat.eqb_eq in Hx'. congruence.
Qed.
(** *** What each method answers for one node *)
Definition nodes_of (v : mapped nat) : list nat := match v with MNothing => [] | MOne x => [x] | MMany l => l end.
Definition plain_contents (m : method) (e : nat) : Prop :=
  m = contents → contentDocument N e = None ∧ nodeName_is D e (txt "template") = false.
Lemma first_child_nodes o : from D NextSibling (p ← o; firstChild D p) = match o with Some p => childNodes (node p) | None => [] end.
Proof. destruct o as [p|]; [|done]. by apply from_first. Qed.
Lemma siblings_elem l elem x :
  x ∈ List.filter (λ n, is_element n && negb (bool_decide (Some n = elem))) l ↔ x ∈ l ∧ Some x ≠ elem ∧ is_element x = true.
Proof. rewrite list_elem_of_In, filter_In, <- list_elem_of_In, andb_true_iff, negb_true_iff, bool_decide_eq_false. naive_solver. Qed.
Lemma childNodes_parent p x : x ∈ childNodes (node p) ↔ parentNode (node x) = Some p.
Proof. split; [apply (wf_child D W)|apply (wf_parent D W)]. Qed.
Lemma method_leads m e until :
  usable_until until → plain_contents m e →
  answers (method_of D N m e until) (λ v, ∀ x, x ∈ nodes_of v ↔ leads m (stops until) e x).
Proof.
  intros Hu Hc.
  assert (Hdir : ∀ d u, usable_until u →
      answers (MMany <$> dir_nodes D N e d u) (λ v, ∀ x, x ∈ nodes_of v ↔ reached d (stops u) e x)).
  { intros d u Hu'. apply run_fmap_answers. eapply run_mono_answers; [|by apply dir_answers]. intros out Ho x. by apply collected_reached. }
  assert (Hall : ∀ d (Q : nat → Prop), (∀ x, x ∈ path D d e ↔ Q x) →
      answers (MMany <$> dir_nodes D N e d None) (λ v, ∀ x, x ∈ nodes_of v ↔ Q x ∧ is_element x = true)).
  { intros d Q HQ. eapply run_mono_answers; [|by apply Hdir]. intros v Hv x. rewrite (Hv x), <- (HQ x). apply reached_all. }
  assert (Hone : ∀ o (Q : nat → Prop), (∀ x, o = Some x ↔ Q x) →
      answers (mret (one_or_nothing o)) (λ v, ∀ x, x ∈ nodes_of v ↔ Q x)).
  { intros o Q HQ. apply run_ret_answers. intros x. rewrite <- HQ. destruct o as [y|]; simpl; [set_solver|].
    split; [by intros ?%elem_of_nil|done]. }
  destruct m; simpl; try (by apply Hdir).
  - apply Hone. intros x. destruct (parentNode (node e)) as [p|]; simpl; [|naive_solver].
    destruct (Nat.eqb_spec (nodeType (node p)) 11); naive_solver.
  - apply Hall. intros x. by rewrite ancestor_path.
  - apply Hone. intros x. by apply adjacent_next.
  - apply Hone. intros x. by apply find_adjacent.
  - apply Hall. intros x. by rewrite <- siblings_both, path_sibling.
  - apply Hall. intros x. by apply path_sibling.
  - apply run_ret_answers. intros x. simpl. unfold siblings. rewrite siblings_elem, first_child_nodes.
    destruct (parentNode (node e)) as [p|]; [rewrite childNodes_parent; naive_solver|]. rewrite elem_of_nil. naive_solver.
  - apply run_ret_answers. intros x. simpl. unfold siblings. rewrite siblings_elem, from_first, childNodes_parent by done. naive_solver.
  - apply run_ret_answers. intros x. unfold contents_of. destruct (Hc eq_refl) as [-> ->]. simpl. by rewrite childNodes_parent.
Qed.
End Leads.

(** ** In which order *)
Section Ordered.
Context (D : Dom) (B : Browser) (N : Native) (W : wf_dom D) (HB : documented D B).
Context (Hroot : parentNode (node D (document D)) = None) (Hdoc : nodeType (node D (document D)) = 9).
Notation node := (node D).
Notation is_element := (is_element D).
Notation order := (document_order D).
(** The methods that go up or back past more than one node answer in the reverse of the order
    of the document; those that give one neighbour or what is inside keep that of the set. *)
Definition reversed (m : method) : bool :=
  match m with parents | parentsUntil | prevAll | prevUntil => true | _ => false end.
Definition keeps_set_order (m : method) : bool := match m with next | prev | children | contents => true | _ => false end.
Lemma reversed_methods m : rparentsprev (method_name m) = reversed m.
Proof. by destruct m. Qed.
Lemma unique_methods m : guaranteedUnique m = keeps_set_order m.
Proof. by destruct m. Qed.
(** What such a method gives for a node of the set. *)
Definition given (m : method) (e : nat) : list nat :=
  match m with
  | next => take 1 (List.filter is_element (path D NextSibling e))
  | prev => take 1 (List.filter is_element (path D PreviousSibling e))
  | children => List.filter is_element (childNodes (node e))
  | contents => childNodes (node e)
  | _ => []
  end.
Definition toward (back : bool) (x y : nat) : Prop := if back then precedes order y x else precedes order x y.
Definition goes_back (d : dir) : bool := match d with NextSibling => false | _ => true end.
Lemma path_toward d x y : x ∈ order → y ∈ path D d x → toward (goes_back d) x y ∧ y ∈ order.
Proof.
  intros Hx Hy.
  assert (Hsib : ∀ p u, parentNode (node u) = Some p → p ∈ order → u ∈ order).
  { intros p u Hp Hpo. apply tree_elem; [done|]. right. apply tree_elem in Hpo as [->|Hpo]; [by apply tc_once|by eapply tc_l|done]. }
  assert (Hside : ∀ u, u ∈ siblings_of D x → u ∈ order).
  { intros u Hu. unfold siblings_of in Hu. destruct (parentNode (node x)) as [p|] eqn:Hp; [|by apply elem_of_nil in Hu].
    apply (Hsib p); [by apply (wf_child D W)|by apply (order_parent D W Hroot x)]. }
  assert (Hnext : ∀ u v, u ∈ order → v ∈ path D NextSibling u → precedes order u v).
  { intros u v Hu Hv. assert (Hne : u ≠ document D).
    { intros ->. rewrite path_no_siblings in Hv; [by apply elem_of_nil in Hv|done|done|]. unfold siblings_of. by rewrite Hroot. }
    by apply (precedes_sideways D W _ u v); [| |left|left|]. }
  destruct d; simpl.
  - apply ancestor_path in Hy; [|done]. assert (Hyo : y ∈ order).
    { clear -Hx Hy Hroot W. induction Hy as [u v H|u v w H _ IH]; [by eapply order_parent|]. by apply IH, (order_parent D W Hroot u). }
    split; [by apply precedes_below|done].
  - assert (Hyo : y ∈ order). { apply Hside. rewrite path_sideways in Hy by done. by apply after_in, line_elem in Hy. }
    split; [|done]. apply Hnext; [done|]. by apply siblings_both.
  - split; [by apply Hnext|]. apply Hside. rewrite path_sideways in Hy by done. by apply after_in in Hy.
Qed.
Lemma path_sorted d e :
  e ∈ order → StronglySorted (toward (goes_back d)) (path D d e) ∧ Forall (λ x, x ∈ order) (path D d e).
Proof.
  intros He. remember (path D d e) as l eqn:E. symmetry in E. revert e E He.
  induction l as [|x l IH]; intros e E He; [split; constructor|].
  assert (Hx : x ∈ order) by (apply (path_toward d e); [done|rewrite E; left]).
  pose proof (path_cons D W d e x l E) as El. destruct (IH x (eq_sym El) Hx) as [Hs Hf].
  split; constructor; try done. apply Forall_forall. intros y Hy. apply (path_toward d x); [done|by rewrite <- El].
Qed.
Lemma sorted_filter (R : nat → nat → Prop) (p : nat → bool) l : StronglySorted R l → StronglySorted R (List.filter p l).
Proof.
  induction 1 as [|x l Hs IH Hx]; simpl; [constructor|]. destruct (p x); [|done]. constructor; [done|].
  rewrite Forall_forall in *. intros y [Hy _]%list_elem_of_In%filter_In. by apply Hx, list_elem_of_In.
Qed.
Lemma sorted_prefix (R : nat → nat → Prop) l1 l2 : StronglySorted R (l1 ++ l2) → StronglySorted R l1.
Proof. apply StronglySorted_app_1_l. Qed.
Lemma children_sorted p :
  p ∈ order → StronglySorted (toward false) (childNodes (node p)) ∧ Forall (λ x, x ∈ order) (childNodes (node p)).
Proof.
  intros Hp. assert (Hin : Forall (λ x, x ∈ order) (childNodes (node p))).
  { apply Forall_forall. intros x Hx%(childNodes_parent D W). apply tree_elem; [done|]. right.
    apply tree_elem in Hp as [->|Hp]; [by apply tc_once|by eapply tc_l|done]. }
  split; [|done]. destruct (childNodes (node p)) as [|x l] eqn:E; [constructor|].
  pose proof (from_first D W p) as Hf. unfold firstChild in Hf. rewrite E in Hf. simpl in Hf. injection Hf as Hf.
  apply Forall_cons in Hin as [Hx Hl]. destruct (path_sorted NextSibling x Hx) as [Hs _]. rewrite Hf in Hs.
  constructor; [done|]. apply Forall_forall. intros y Hy. apply (path_toward NextSibling x); [done|by rewrite Hf].
Qed.
Lemma toward_nodup b l : StronglySorted (toward b) l → NoDup l.
Proof.
  induction 1 as [|x l _ IH Hx]; constructor; [|done]. intros Hin. rewrite Forall_forall in Hx. specialize (Hx x Hin).
  by destruct b; apply (precedes_irrefl order (order_nodup D W)) in Hx.
Qed.
(** What one node gives: no repetitions, and the order of the method. *)
Definition neat (m : method) (e : nat) (l : list nat) : Prop :=
  NoDup l ∧ if keeps_set_order m then l = given m e else StronglySorted (toward (reversed m)) l ∧ Forall (λ x, x ∈ order) l.
Lemma neat_sorted m e l :
  keeps_set_order m = false → StronglySorted (toward (reversed m)) l → Forall (λ x, x ∈ order) l → neat m e l.
Proof. intros Hm Hs Hf. split; [by eapply toward_nodup|by rewrite Hm]. Qed.
Lemma first_found (l : list nat) : nodes_of (one_or_nothing (List.find is_element l)) = take 1 (List.filter is_element l).
Proof. induction l as [|x l IH]; simpl; [done|]. by destruct (is_element x). Qed.
Lemma method_neat m e until :
  e ∈ order → usable_until D N until → plain_contents D N m e →
  answers (method_of D N m e until) (λ v, neat m e (nodes_of v)).
Proof.
  intros He Hu Hc.
  assert (Hdir : ∀ d u, usable_until D N u → goes_back d = reversed m → keeps_set_order m = false →
      answers (MMany <$> dir_nodes D N e d u) (λ v, neat m e (nodes_of v))).
  { intros d u Hu' Hd Hm. apply run_fmap_answers. eapply run_mono_answers; [|by apply dir_answers].
    intros out (l1 & l2 & E & -> & _). destruct (path_sorted d e He) as [Hs Hf]. rewrite E in Hs, Hf. rewrite Hd in Hs.
    apply neat_sorted; [done|by eapply sorted_filter, sorted_prefix|]. apply Forall_app in Hf as [Hf _].
    rewrite Forall_forall in *. intros x [Hx _]%list_elem_of_In%filter_In. by apply Hf, list_elem_of_In. }
  destruct m; simpl; try (by apply Hdir).
  - apply run_ret_answers. destruct (parentNode (node e)) as [p|] eqn:Ep; [|by apply neat_sorted; [|constructor..]]. simpl.
    destruct (_ =? 11); [by apply neat_sorted; [|constructor..]|]. apply neat_sorted; [done|repeat constructor|].
    constructor; [by apply (order_parent D W Hroot e)|constructor].
  - apply run_ret_answers. unfold sibling. split; [by destruct (List.find _ _); [apply NoDup_singleton|constructor]|apply first_found].
  - apply run_ret_answers. unfold sibling. split; [by destruct (List.find _ _); [apply NoDup_singleton|constructor]|apply first_found].
  - apply run_ret_answers. simpl. unfold siblings. rewrite (first_child_nodes D W).
    destruct (parentNode (node e)) as [p|] eqn:Ep; [|by apply neat_sorted; [|constructor..]].
    destruct (children_sorted p (order_parent D W Hroot e p He Ep)) as [Hs Hf].
    apply neat_sorted; [done|by apply sorted_filter|]. rewrite Forall_forall in *.
    intros x [Hx _]%list_elem_of_In%filter_In. by apply Hf, list_elem_of_In.
  - apply run_ret_answers. simpl. unfold siblings. rewrite from_first by done. split.
    + apply NoDup_ListNoDup, List.NoDup_filter, NoDup_ListNoDup, (wf_nodup D W).
    + apply List.filter_ext. intros x. by rewrite bool_decide_eq_false_2, andb_true_r.
  - apply run_ret_answers. unfold contents_of. destruct (Hc eq_refl) as [-> ->]. split; [apply (wf_nodup D W)|done].
Qed.

(** *** A whole set *)
Definition step (m : method) (stop : nat → Prop) (e : nat) (l : list nat) : Prop :=
  (∀ x, x ∈ l ↔ leads D m stop e x) ∧ neat m e l.
Lemma map_each_steps m l until :
  usable_until D N until → Forall (λ e, e ∈ order) l → (∀ e, e ∈ l → plain_contents D N m e) →
  answers (map_each D N m l until) (λ vs, ∃ ls, flat vs = concat ls ∧ Forall2 (step m (stops D until)) l ls).
Proof.
  intros Hu Ho Hc. induction l as [|e l IH]; cbn [map_each]; [apply run_ret_answers; by exists []|].
  apply Forall_cons in Ho as [He Ho].
  assert (Hm : answers (method_of D N m e until) (λ v, step m (stops D until) e (nodes_of v))).
  { apply run_both_answers; [apply method_leads|apply method_neat]; try done; apply Hc; left. }
  eapply run_bind_answers; [exact Hm|]. intros v Hv. cbn beta.
  eapply run_bind_answers; [apply IH; [done|intros e' He'; apply Hc; by right]|]. intros vs (ls & Els & Hls). cbn beta.
  apply run_ret_answers. exists (nodes_of v :: ls). split; [|by constructor]. simpl. rewrite <- Els.
  by destruct v.
Qed.
(** Nodes that lead to the same one by a method of the table [guaranteedUnique] are the same,
    when they are elements. *)
Lemma leads_unique m stop e e' x :
  keeps_set_order m = true → is_element e = true → is_element e' = true →
  leads D m stop e x → leads D m stop e' x → e = e'.
Proof.
  intros Hm He He'. destruct m; try done; simpl.
  - intros [H _] [H' _]. assert (Some e = Some e') as [=]; [|done].
    transitivity (List.find is_element (path D PreviousSibling x)); [symmetry|]; by apply find_adjacent.
  - intros [H _] [H' _]. assert (Some e = Some e') as [=]; [|done].
    transitivity (List.find is_element (path D NextSibling x)); [symmetry|]; by apply adjacent_next.
  - intros [H _] [H' _]. congruence.
  - congruence.
Qed.
Lemma steps_elem m stop l ls x : Forall2 (step m stop) l ls → x ∈ concat ls ↔ ∃ e, e ∈ l ∧ leads D m stop e x.
Proof.
  induction 1 as [|e l' l ls [He _] _ IH]; simpl.
  - split; [by intros ?%elem_of_nil|]. by intros (e & ?%elem_of_nil & _).
  - rewrite elem_of_app, He, IH. setoid_rewrite elem_of_cons. naive_solver.
Qed.
Lemma steps_nodup m stop l ls :
  keeps_set_order m = true → NoDup l → Forall (λ e, is_element e = true) l → Forall2 (step m stop) l ls → NoDup (concat ls).
Proof.
  intros Hm Hnd Hel H. induction H as [|e l' l ls [He [Hl _]] H IH]; simpl; [constructor|].
  apply NoDup_cons in Hnd as [Hn Hnd]. apply Forall_cons in Hel as [Hee Hel].
  apply NoDup_app. split; [done|]. split; [|by apply IH]. intros x Hx Hx'.
  apply He in Hx. apply (steps_elem _ _ _ _ _ H) in Hx' as (e' & He' & Hx'). rewrite Forall_forall in Hel.
  assert (e = e') as -> by (eapply leads_unique; [done|done|by apply Hel|done|done]). done.
Qed.
Lemma leads_inside m stop e x : keeps_set_order m = false → e ∈ order → leads D m stop e x → x ∈ order.
Proof.
  intros Hm He. assert (Hpath : ∀ d, x ∈ path D d e → x ∈ order) by (intros d Hx; by apply (path_toward d e)).
  assert (Hr : ∀ d, reached D d stop e x → x ∈ order).
  { intros d (_ & l1 & l2 & E & _). apply (Hpath d). rewrite E. set_solver. }
  destruct m; try done; simpl; try apply Hr.
  - intros [H _]. by apply (order_parent D W Hroot e).
  - intros [H _]. apply (ancestor_path D W) in H. exact (Hpath ParentNode H).
  - intros [H _]. apply (Hpath NextSibling). apply (siblings_both D W). by apply (path_sibling D W).
  - intros [H _]. apply (Hpath PreviousSibling). by apply (path_sibling D W).
  - intros [(p & Hp & Hx) _]. destruct (children_sorted p (order_parent D W Hroot e p He Hp)) as [_ Hf].
    rewrite Forall_forall in Hf. by apply Hf, (childNodes_parent D W).
Qed.

(** *** The selector and the sorting *)
Definition selected_by (q : option Qualifier) (x : nat) : Prop :=
  match q with Some (QSelector s) => s = [] ∨ is_element x = true ∧ picks D s x | _ => True end.
Lemma selector_answers q l :
  usable_until D N q →
  answers (match q with Some (QSelector s) => if truthy s then filter_expr D N s l false else mret l | _ => mret l end)
    (λ out, ∃ p, out = List.filter p l ∧ ∀ x, x ∈ l → p x = true ↔ selected_by q x).
Proof.
  intros Hu. assert (Hall : (∀ x, selected_by q x) → answers (mret l) (λ out, ∃ p, out = List.filter p l ∧ ∀ x, x ∈ l → p x = true ↔ selected_by q x)).
  { intros Hq. apply run_ret_answers. exists (λ _, true). split; [clear; by induction l as [|x l IH]; [|simpl; f_equal]|].
    intros x _. split; [intros _; apply Hq|done]. }
  destruct q as [[f|n|j l'|s]|]; try (by apply Hall). destruct (truthy s) eqn:Hs.
  - eapply run_mono_answers; [|by apply filter_expr_answers]. intros out (p & -> & Hp). exists p. split; [done|].
    intros x Hx. rewrite (Hp x Hx). simpl. split; [by right|]. intros [->|H]; done.
  - apply Hall. intros x. left. unfold truthy, same in Hs. apply negb_false_iff, bool_decide_eq_true in Hs. done.
Qed.
(** The order of a result: that of what is given for the nodes of the set in turn, or that of
    the document or its reverse. *)
Definition in_order (m : method) (set out : list nat) : Prop :=
  if keeps_set_order m then out = List.filter (λ x, existsb (Nat.eqb x) out) (concat (List.map (given m) set)) else
  let sorted := List.filter (λ x, existsb (Nat.eqb x) out) order in
  out = if reversed m then rev sorted else sorted.
Lemma toward_in_order m set out :
  keeps_set_order m = false →
  StronglySorted (toward (reversed m)) out → Forall (λ x, x ∈ order) out → in_order m set out.
Proof.
  intros Hm Hs Hf. unfold in_order. rewrite Hm. cbv zeta.
  assert (H : ∀ l, StronglySorted (precedes order) l → NoDup l → (∀ x, x ∈ l ↔ x ∈ out) →
      l = List.filter (λ x, existsb (Nat.eqb x) out) order).
  { intros l Hl Hnd Hin. apply sorted_is_filter; [by apply order_nodup|done|done|]. intros x. rewrite Hin, existsb_exists.
    rewrite Forall_forall in Hf. split.
    - intros Hx. split; [by apply Hf|]. exists x. by rewrite <- list_elem_of_In, Nat.eqb_refl.
    - intros (_ & y & Hy & ->%Nat.eqb_eq). by apply list_elem_of_In. }
  pose proof (toward_nodup _ _ Hs) as Hnd. destruct (reversed m).
  - rewrite <- (H (rev out)).
    + by rewrite rev_involutive.
    + clear -Hs. induction Hs as [|x l Hs IH Hx]; simpl; [constructor|]. apply StronglySorted_app. split; [|split; [done|repeat constructor]].
      intros y z Hy ->%list_elem_of_singleton. rewrite list_elem_of_In, <- in_rev, <- list_elem_of_In in Hy.
      rewrite Forall_forall in Hx. by apply Hx.
    + by rewrite <- Permutation_rev.
    + intros x. by rewrite !list_elem_of_In, <- in_rev.
  - by apply H.
Qed.
Lemma sorted_matched m set out matched :
  (∀ x, x ∈ matched → x ∈ order) → keeps_set_order m = false →
  let sorted := List.filter (λ x, existsb (Nat.eqb x) matched) order in
  out = (if reversed m then rev sorted else sorted) → (∀ x, x ∈ out ↔ x ∈ matched) ∧ NoDup out ∧ in_order m set out.
Proof.
  intros Hin Hm sorted Hout.
  assert (Hel : ∀ x, x ∈ sorted ↔ x ∈ matched).
  { intros x. unfold sorted. rewrite list_elem_of_In, filter_In, <- list_elem_of_In, existsb_exists. split.
    - intros (_ & y & Hy & ->%Nat.eqb_eq). by apply list_elem_of_In.
    - intros Hx. split; [by apply Hin|]. exists x. by rewrite <- list_elem_of_In, Nat.eqb_refl. }
  assert (Hel' : ∀ x, x ∈ out ↔ x ∈ matched).
  { intros x. rewrite <- Hel, Hout. destruct (reversed m); [|done]. by rewrite !list_elem_of_In, <- in_rev. }
  assert (Hnd : NoDup sorted) by (unfold sorted; apply NoDup_ListNoDup, List.NoDup_filter, NoDup_ListNoDup, (order_nodup D W)).
  split; [done|]. split.
  - rewrite Hout. destruct (reversed m); [by rewrite <- Permutation_rev|done].
  - unfold in_order. rewrite Hm. cbv zeta. assert (List.filter (λ x, existsb (Nat.eqb x) out) order = sorted) as ->; [|done].
    unfold sorted. apply List.filter_ext. intros x. apply eq_bool_prop_intro. rewrite !Is_true_true, !existsb_exists.
    split; intros (y & Hy & Hxy); exists y; (split; [|done]); apply list_elem_of_In; apply list_elem_of_In in Hy; by apply Hel'.
Qed.
(** What is found for a set: the elements, without repetitions, in order. *)
Definition found (m : method) (set : list nat) (stop : nat → Prop) (selector : option Qualifier) (out : list nat) : Prop :=
  (∀ x, x ∈ out ↔ (∃ e, e ∈ set ∧ leads D m stop e x) ∧ selected_by selector x) ∧ NoDup out ∧ in_order m set out.
Lemma filtered_elem (p : nat → bool) (Q R : nat → Prop) l :
  (∀ x, x ∈ l ↔ Q x) → (∀ x, x ∈ l → p x = true ↔ R x) → ∀ x, x ∈ List.filter p l ↔ Q x ∧ R x.
Proof. intros HQ HR x. rewrite list_elem_of_In, filter_In, <- list_elem_of_In. naive_solver. Qed.
(** A filter of a list keeps the elements it has there. *)
Lemma filter_self (p : nat → bool) (l : list nat) :
  List.filter p l = List.filter (λ x, existsb (Nat.eqb x) (List.filter p l)) l.
Proof.
  apply filter_ext_in. intros x Hx. apply eq_bool_prop_intro. rewrite !Is_true_true, existsb_exists. split.
  - intros Hp. exists x. by rewrite filter_In, Nat.eqb_refl.
  - by intros (y & [_ Hy]%filter_In & ->%Nat.eqb_eq).
Qed.
Lemma set_in_order m set stop ls p :
  keeps_set_order m = true → Forall2 (step m stop) set ls → in_order m set (List.filter p (concat ls)).
Proof.
  intros Hm H. unfold in_order. rewrite Hm. assert (List.map (given m) set = ls) as ->; [|apply filter_self].
  induction H as [|e l set ls [_ [_ Hl]] _ IH]; simpl; [done|]. rewrite Hm in Hl. by rewrite Hl, IH.
Qed.
Lemma few_found m set stop selector ls p :
  length set ≤ 1 → Forall2 (step m stop) set ls →
  (∀ x, x ∈ List.filter p (concat ls) ↔ (∃ e, e ∈ set ∧ leads D m stop e x) ∧ selected_by selector x) →
  found m set stop selector (List.filter p (concat ls)).
Proof.
  intros Hlen H Hel. split; [done|].
  assert (Hnd : NoDup (concat ls)).
  { destruct H as [|e l' set ls [_ [Hnd _]] H]; [constructor|]. destruct H; [simpl; by rewrite app_nil_r|simpl in Hlen; lia]. }
  split; [by apply NoDup_ListNoDup, List.NoDup_filter, NoDup_ListNoDup|].
  destruct (keeps_set_order m) eqn:Hm; [by eapply set_in_order|].
  assert (Ht : StronglySorted (toward (reversed m)) (concat ls) ∧ Forall (λ x, x ∈ order) (concat ls)).
  { destruct H as [|e l' set ls [_ [_ Ht]] H]; [split; constructor|]. rewrite Hm in Ht.
    destruct H; [simpl; by rewrite app_nil_r|simpl in Hlen; lia]. }
  destruct Ht as [Hs1 Hs2]. apply toward_in_order; [done|by apply sorted_filter|]. rewrite Forall_forall in *.
  intros x [Hx _]%list_elem_of_In%filter_In. by apply Hs2, list_elem_of_In.
Qed.
Lemma traverse_answers m q until selector :
  let chosen := match m with parentsUntil | nextUntil | prevUntil => selector | _ => until end in
  usable_until D N until → usable_until D N selector →
  Forall (λ e, e ∈ order ∧ is_element e = true) (elems q) → NoDup (elems q) →
  (∀ e, e ∈ elems q → plain_contents D N m e) →
  answers (traverse D B N m q until selector)
    (λ out, prevObject out = Some q ∧ found m (elems q) (stops D until) chosen (elems out)).
Proof.
  intros chosen Hu Hu' Hq Hnd Hc. apply Forall_and in Hq as [Ho Hel]. unfold traverse.
  assert ((if is_until m then selector else until) = chosen) as -> by (by destruct m). cbv zeta.
  eapply (run_bind_answers _ _ (λ l, ∃ ls, l = concat ls ∧ Forall2 (step m (stops D until)) (elems q) ls));
    [by apply run_fmap_answers, map_each_steps|]. intros matched (ls & -> & Hls). cbn beta.
  assert (Hch : usable_until D N chosen) by (unfold chosen; by destruct m).
  eapply run_bind_answers; [by apply selector_answers|]. intros out1 (p & -> & Hp). cbn beta zeta.
  pose proof (filtered_elem p _ _ _ (λ x, steps_elem _ _ _ _ x Hls) Hp) as Hout.
  destruct (Nat.ltb_spec 1 (length (elems q))) as [Hlen|Hlen].
  2: { eapply run_bind_answers; [by apply (run_ret_answers _ (λ o, o = List.filter p (concat ls)))|]. intros ? ->.
       apply run_ret_answers. split; [done|]. by apply few_found. }
  assert (Hgoal : answers (l ← (if guaranteedUnique m then mret (List.filter p (concat ls)) else run_sorting (uniqueSort D B (List.filter p (concat ls))));
      mret (if rparentsprev (method_name m) then rev l else l)) (found m (elems q) (stops D until) chosen)).
  { rewrite reversed_methods, unique_methods. destruct (keeps_set_order m) eqn:Hg.
    - eapply run_bind_answers; [by apply (run_ret_answers _ (λ o, o = List.filter p (concat ls)))|]. intros ? ->. apply run_ret_answers.
      assert (reversed m = false) as -> by (by destruct m). split; [done|]. split; [|by eapply set_in_order].
      apply NoDup_ListNoDup, List.NoDup_filter, NoDup_ListNoDup. by eapply steps_nodup.
    - assert (Hin : ∀ x, x ∈ List.filter p (concat ls) → x ∈ order).
      { intros x [(e & He & Hx) _]%Hout. eapply leads_inside; [done| |exact Hx]. rewrite Forall_forall in Ho. by apply Ho. }
      eapply run_bind_answers.
      + apply (run_sorting_answers _ (List.filter (λ x, existsb (Nat.eqb x) (List.filter p (concat ls))) order)
          (λ o, o = List.filter (λ x, existsb (Nat.eqb x) (List.filter p (concat ls))) order)); [|done].
        intros s. apply uniqueSort_sorts; try done. by apply Forall_forall.
      + intros ? ->. apply run_ret_answers. destruct (sorted_matched m (elems q) _ _ Hin Hg eq_refl) as (H1 & H2 & H3).
        split; [|by split]. intros x. by rewrite H1. }
  eapply run_bind_answers; [exact Hgoal|]. intros l Hl. by apply run_ret_answers.
Qed.
End Ordered.

(** ** A browser that compares positions *)
Section TreeBrowser.
Context (D : Dom) (W : wf_dom D).
Notation order := (document_order D).
Definition comes_first (a b : nat) : bool := (indexOf order a <? indexOf order b)%Z.
Definition position_bits (a b : nat) : Z :=
  if comes_first a b then (if contains_fallback D a b then 20 else 4) else (if contains_fallback D b a then 10 else 2).
Definition tree_browser (compare : bool) : Browser :=
  mkBrowser compare (λ _, true) position_bits compare (λ a, Some (λ b, (a =? b) || contains_fallback D a b))
    (λ a, if a =? document D then None else Some (document D)) (document D) (λ _, None) true true true.
Lemma indexOf_lookup l a i : a ∈ l → ∃ j, l !! j = Some a ∧ indexOf_from a i l = Z.of_nat (i + j).
Proof.
  revert i. induction l as [|x l IH]; intros i Ha; [by apply elem_of_nil in Ha|]. simpl.
  destruct (Nat.eqb_spec x a) as [->|Hne]; [exists 0; by rewrite Nat.add_0_r|].
  apply elem_of_cons in Ha as [->|Ha]; [done|]. destruct (IH (S i) Ha) as (j & Hj & ->). exists (S j). split; [done|]. f_equal. lia.
Qed.
Lemma comes_first_precedes a b : a ∈ order → b ∈ order → comes_first a b = true ↔ precedes order a b.
Proof.
  intros Ha Hb. unfold comes_first, indexOf.
  destruct (indexOf_lookup order a 0 Ha) as (i & Hi & ->). destruct (indexOf_lookup order b 0 Hb) as (j & Hj & ->).
  rewrite Z.ltb_lt. split.
  - intros H. exists i, j. split; [lia|done].
  - intros (i' & j' & Hij & Hi' & Hj'). pose proof (tree_nodup D W (document D)) as Hnd.
    pose proof (NoDup_lookup _ _ _ _ Hnd Hi Hi'). pose proof (NoDup_lookup _ _ _ _ Hnd Hj Hj'). lia.
Qed.
Lemma tree_browser_documented compare :
  documented D (tree_browser compare).
Proof.
  split; simpl; try done.
  - intros a b _ _. unfold owner. simpl. destruct (Nat.eqb_spec a (document D)) as [->|], (Nat.eqb_spec b (document D)) as [->|]; done.
  - intros a b _ _ _. unfold position_bits. destruct (comes_first a b), (contains_fallback D a b), (contains_fallback D b a); done.
  - intros a b _ Ha Hb Hab. unfold position_bits.
    pose proof (comes_first_precedes a b Ha Hb) as H1. pose proof (comes_first_precedes b a Hb Ha) as H2.
    assert (comes_first a b ≠ comes_first b a) as H.
    { destruct (precedes_total order a b Ha Hb Hab) as [H|H]; pose proof (precedes_asym order (tree_nodup D W _) _ _ H);
        destruct (comes_first a b), (comes_first b a); naive_solver. }
    destruct (comes_first a b), (comes_first b a), (contains_fallback D a b), (contains_fallback D b a); done.
  - intros a b _ Ha Hb _. rewrite <- comes_first_precedes by done. unfold position_bits.
    destruct (comes_first a b), (contains_fallback D a b), (contains_fallback D b a); done.
Qed.
End TreeBrowser.
(** Selectors are left to the library. *)
Definition no_native : Native := mkNative false (λ _, false) (λ _ _, None) true (λ _, false) (λ _, None) (λ _, None) (λ _, []).
Definition fresh_engine : Engine := mkEngine no_caches (initial_St []) createCache (mkSortSt false None).
Lemma fresh_engine_ok : engine_ok fresh_engine.
Proof. split; [apply no_caches_ok|apply initial_ok]. Qed.

(** ** Properties *)
(** C10. [uniqueSort] puts nodes of the document in the order of the document, each once: with
    the native comparison or with the one of Sizzle over lists of ancestors, whatever the browser supports. *)
Theorem uniqueSort_document_order (D : Dom) (B : Browser) (results : list nat) (s : SortSt) :
  wf_dom D → documented D B → parentNode (node D (document D)) = None →
  Forall (λ x, x ∈ document_order D) results →
  ∃ out s', uniqueSort D B results s = (Ret out, s') ∧
    (∀ x, x ∈ out ↔ x ∈ results) ∧ NoDup out ∧ StronglySorted (precedes (document_order D)) out.
Proof.
  intros W HB Hroot Hr. destruct (uniqueSort_sorts D B W HB Hroot results s Hr) as (s' & E).
  eexists _, s'. split; [exact E|]. split; [|split].
  - intros x. rewrite list_elem_of_In, filter_In, <- list_elem_of_In, existsb_exists. rewrite Forall_forall in Hr. split.
    + intros (_ & y & Hy & ->%Nat.eqb_eq). by apply list_elem_of_In.
    + intros Hx. split; [by apply Hr|]. exists x. by rewrite <- list_elem_of_In, Nat.eqb_refl.
  - by apply NoDup_ListNoDup, List.NoDup_filter, NoDup_ListNoDup, order_nodup.
  - apply filter_precedes.
Qed.
Example uniqueSort_document_order_witness :
  documented list_document (tree_browser list_document false) ∧
  ∃ out s', uniqueSort list_document (tree_browser list_document false) [6; 3; 0; 6; 5; 2] (mkSortSt false None) = (Ret out, s') ∧
    (∀ x, x ∈ out ↔ x ∈ [6; 3; 0; 6; 5; 2]) ∧ NoDup out ∧ StronglySorted (precedes (document_order list_document)) out.
Proof.
  split; [apply tree_browser_documented, list_document_wf|].
  apply uniqueSort_document_order; [apply list_document_wf|apply tree_browser_documented, list_document_wf|reflexivity|].
  apply Forall_forall. intros x Hx. apply (bool_decide_eq_true_1 (x ∈ document_order list_document)).
  repeat (apply elem_of_cons in Hx as [->|Hx]; [vm_compute; reflexivity|]). by apply elem_of_nil in Hx.
Defined.

(** C9. The traversing methods: for a set of elements of the document, among them no frame and no template when their
    contents are asked for, the method ends, and when no search is left out its result is the nodes that the method leads
    to from one of them, before one to stop at and chosen by the selector, each once.  They are in the order of the
    document, or in its reverse for parents, parentsUntil, prevAll and prevUntil; next, prev, children and contents keep
    the order of the set, and of the children within it. The set they start from is kept for [end]. *)
Theorem traverse_finds (D : Dom) (B : Browser) (N : Native) (m : method) (q : @JQ nat) (until selector : option Qualifier) (en : Engine) :
  let chosen := match m with parentsUntil | nextUntil | prevUntil => selector | _ => until end in
  wf_dom D → documented D B → parentNode (node D (document D)) = None → nodeType (node D (document D)) = 9 →
  engine_ok en → usable_until D N until → usable_until D N selector →
  Forall (λ e, e ∈ document_order D ∧ is_element D e = true) (elems q) → NoDup (elems q) →
  (∀ e, e ∈ elems q → plain_contents D N m e) →
  ∃ o en', traverse D B N m q until selector en = Some (o, en') ∧ engine_ok en' ∧
    ∀ out, o = Ret (Some out) → prevObject out = Some q ∧
      (∀ x, x ∈ elems out ↔ (∃ e, e ∈ elems q ∧ leads D m (stops D until) e x) ∧ selected_by D chosen x) ∧
      NoDup (elems out) ∧ in_order D m (elems q) (elems out).
Proof.
  intros chosen W HB Hroot Hdoc Hen Hu Hu' Hq Hnd Hc.
  exact (traverse_answers D B N W HB Hroot Hdoc m q until selector Hu Hu' Hq Hnd Hc en Hen).
Qed.
Definition some_items : JQ := mkJQ [7; 6] None.
Definition even_or_last : Qualifier := QSelector (txt ".even, li:nth-child(1)").
Lemma even_or_last_usable : usable list_document no_native even_or_last.
Proof. split; [|done]. intros groups E. vm_compute in E. injection E as <-. repeat constructor. Qed.
Example traverse_finds_witness :
  (elems <$> match traverse list_document (tree_browser list_document false) no_native prevAll some_items (Some even_or_last) None fresh_engine with
             | Some (Ret (Some out), _) => Some out | _ => None end) = Some [4; 3] ∧
  ∃ o en', traverse list_document (tree_browser list_document false) no_native prevAll some_items (Some even_or_last) None fresh_engine = Some (o, en') ∧
    engine_ok en' ∧
    ∀ out, o = Ret (Some out) → prevObject out = Some some_items ∧
      (∀ x, x ∈ elems out ↔ (∃ e, e ∈ elems some_items ∧ leads list_document prevAll (stops list_document (Some even_or_last)) e x) ∧
        selected_by list_document (Some even_or_last) x) ∧
      NoDup (elems out) ∧ in_order list_document prevAll (elems some_items) (elems out).
Proof.
  split; [vm_compute; reflexivity|].
  apply (traverse_finds list_document (tree_browser list_document false) no_native prevAll some_items (Some even_or_last) None fresh_engine).
  - apply list_document_wf.
  - apply tree_browser_documented, list_document_wf.
  - reflexivity.
  - reflexivity.
  - apply fresh_engine_ok.
  - apply even_or_last_usable.
  - exact I.
  - repeat constructor; vm_compute; reflexivity.
  - apply (bool_decide_eq_true_1 (NoDup [7; 6])). vm_compute. reflexivity.
  - intros e _ [=].
Defined.

(** The table [guaranteedUnique] counts on elements: from an element and the text after it,
    [next] leads to the same element twice. *)
Example next_repeats :
  fst <$> traverse list_document (tree_browser list_document true) no_native next (mkJQ [4; 5] None) None None fresh_engine =
  Some (Ret (Some (mkJQ [6; 6] (Some (mkJQ [4; 5] None))))).
Proof. vm_compute. reflexivity. Qed.
(** A link is turned into its address before the test for positional selectors: one with such
    a text in it is never the closest to anything. *)
Definition link_native : Native :=
  mkNative false (λ _, false) (λ _ _, None) true (λ _, false) (λ _, None) (λ _, None) (λ _, txt "http://localhost/#list:first").
Example closest_link_missed :
  fst <$> closest list_document (tree_browser list_document true) link_native (mkJQ [7] None) (QNode 7) None fresh_engine =
  Some (Ret (Some (mkJQ [] (Some (mkJQ [7] None))))).
Proof. vm_compute. reflexivity. Qed.
